(* ===== verification/_CoqProject ===== *)
-Q . S2P
Prelude.v
Bits.v
Digest.v
Aes.v
Hex.v
Utf8.v
Runes.v
Base64.v
AccountCrypt.v
Base58.v
Keys.v
Script.v
ScriptBuild.v
ScriptRoundtrip.v
Transaction.v
TransactionBuild.v
Decimal.v
PythonInt.v
Bencode.v
Json.v
Float.v
JsonValue.v
Framing.v
Stream.v
StreamServer.v
BlobManager.v
BlobFlights.v
PeerExchange.v
Routing.v
DhtNode.v
BackgroundDownloader.v
DiskSpace.v
Reflector.v
Upload.v
ComponentGraph.v
PythonRandom.v
CoinSelection.v
HeaderStorage.v
BlockHeader.v
Headers.v
LiveHeaders.v
Merkle.v
Balancing.v
Funding.v
Signing.v
Accounts.v
LedgerStore.v
AddressBook.v
LedgerRows.v
Reservations.v
Sync.v
TransactionFetch.v
FetchPlan.v
Resolution.v
AddressSync.v
Synchronized.v
SyncWorkers.v
SyncOrder.v
WalletObject.v
WalletJson.v
WalletDocument.v
Preferences.v
Normalize.v
Mnemonic.v
Steps.v
WalletAccount.v
AccountFile.v
WalletStorage.v
WalletFile.v
WalletSafety.v
WalletMerge.v
