(* ===== verification/Prelude.v ===== *)
(** * A verification development for lbry-daemon

    The repository is a Go port of the LBRY SDK daemon: a wallet that keeps
    its accounts in a file, block headers and its own transactions, a node of the distributed hash
    table on which peers announce content, streams of encrypted blobs with
    the manager that keeps them, the protocols that move them between nodes
    and the server that plays them, and a graph of components that starts
    and stops the daemon.  This library models the code of these parts and proves
    what makes each of them correct.

    ** How the program is translated

    Go functions are Gallina functions over the data the code has: bytes are
    [list byte], fixed-width integers are [Z] with their wrap-around written
    out ([i64], [u64], [u32] below), structs are records with the fields the
    component uses, a Go map is a [gmap] or, where its iteration order is
    visible, an association list.  A fallible function answers [res]: a value,
    an error with its text, a run-time panic, or [NoFuel] where the fuel of a
    recursion that is not structural ran out; every operation with fuel has a
    theorem that the fuel given suffices.  State is passed explicitly, and a
    method under a mutex is one step.  Code that is not in the repository is
    the interface of a type class: its operations and the laws relied on
    ([Digests] for RIPEMD-160, [Secp256k1] and [ECDSA] for the curve,
    [CoinSelectionRandom], [RowOrder], [OutputOrder] and [CandidateOrder] for
    what SQLite leaves open, [Scrypt], [Pbkdf2], [Zlib] and [UnicodeText] for
    the packages the wallet's files need), each with an instance that shows the laws can
    hold.  Interfaces inside the program are classes too: [Framing] is what the
    scanners of the network protocols promise, [BlobStoreLaws] what the
    background downloader relies on and the blob manager provides.

    Throughout: error texts leave out the values interpolated in them;
    checks for nil receivers and nil arguments, context cancellation and
    logging have no counterpart; a pointer to a transaction's output is the
    value read through it, with the ID and hash of its owner.

    ** The files

    Shared: [Prelude] (results, machine integers, byte strings, automation);
    [Bits], [Digest], [Aes], [Hex], [Base64], [Utf8], [Runes], [Decimal], [Json],
    [Float], [JsonValue] (the parts of Go's standard library the code calls, from
    their standards; [JsonValue] is JSON decoded into [any], with its floating-point
    numbers); [PythonInt] (integers as Python reads them); [Steps] (a monad of
    steps that keep what they did to the state when they fail, and its triples).

    The wallet.
    - [Base58], [Keys] (wallet/keys): both Base58 codecs, the extended keys
      of BIP 32 and their derivation, networks and addresses.
    - [Script], [ScriptBuild], [ScriptRoundtrip]
      (wallet/transaction_script.go, transaction_script_build.go): tokenizer,
      templates, generation, and that they are inverse.
    - [Transaction], [TransactionBuild] (wallet/transaction.go,
      transaction_build.go): wire format, identity, sizes, sums, building.
    - [Signing] (wallet/keys/signing.go, wallet/transaction_signing.go):
      signatures, preimages, [Transaction.Sign].
    - [PythonRandom], [CoinSelection] (wallet/coin_selection.go and its
      random source): the strategies that choose what to spend.
    - [Balancing] (wallet/transaction_balancing.go): the loop that funds a
      transaction, over callbacks on a world; [Funding]
      (transaction_balancing_accounts.go) instantiates the callbacks with a
      ledger database, the selector and the accounts.
    - [Accounts], [AddressBook] (wallet/address_manager.go, account.go,
      ledgerdb/addresses.go, transaction_signing_accounts.go): address tables,
      gaps, and the keys an account signs with.
    - [LedgerStore], [LedgerRows], [Reservations] (wallet/ledgerdb/transactions.go,
      spendables.go, transaction_reads.go, transaction_persistence.go,
      transaction_balancing_accounts.go): the tables of transactions and
      outputs, the selection by the database, and creations of transactions
      that interleave over it.
    - [Sync], [TransactionFetch], [FetchPlan], [Resolution], [AddressSync],
      [Synchronized] (wallet/address_sync.go, transaction_fetch.go,
      transaction_fetch_execution.go, transaction_resolution.go): how the
      history of an address is brought to that of a server.  [Sync] is the monad
      of such an update, whose actions on the ledger other goroutines interleave
      with, and its triples; [AddressSync] the update; [Synchronized] its proof.
    - [SyncWorkers], [SyncOrder] (wallet/spv_sync.go, the worker of
      address_sync.go): the goroutines of a synchronization as a transition
      system over all generations, and its invariants.
    - [HeaderStorage], [BlockHeader], [Headers], [LiveHeaders]
      (wallet/header_storage.go, headers.go, checkpoints.go, spv_tip.go): the
      header chain over any storage, difficulty, repair, and following the
      tip of a server.  [Merkle] (transaction_merkle.go): proofs against it.

    The wallet's files (wallet/).
    - [WalletObject], [WalletJson], [WalletDocument] (object.go, json.go): objects
      that keep their order, their parser and encoder, and that documents read
      back.  [Preferences] (preferences.go): timestamps and merging.
    - [AccountCrypt] (crypt.go, sync_crypto.go): secrets and envelopes.
    - [Normalize], [Mnemonic] (mnemonic/normalize.go, mnemonic.go, english.go):
      phrases and seeds; the list of words is an argument.
    - [WalletAccount], [AccountFile] (account.go, account_generate.go): accounts
      from and to objects, merging, encryption; when they are well formed.
    - [WalletStorage] (storage.go): the file, with the faults of its system calls.
    - [WalletFile], [WalletSafety], [WalletMerge] (wallet.go): the wallet over all of
      these; what saving, loading, locking and merging preserve.  The ledgers of
      a running daemon are the record [WalletLedgerResolver] of operations.  A
      certificates object that an account shares with the document it was read
      from is a value of its own, since the document is not used again.

    The DHT: [Bencode] (dht/bencode.go), [Routing] and [DhtNode]
    (dht/node.go): wire format, routing table, and one step per datagram.

    Streams.
    - [Stream] (blob/descriptor.go, creator.go, reader.go) and [StreamServer]
      (stream/server.go): creating, describing and decrypting a stream, and the
      bytes served for a range of it.
    - [BlobManager] (blob/manager.go, rpc/stream_mutation.go): the blobs a node
      holds, in memory and in files with the faults of a disk; [BlobFlights] its
      fetches, as a transition system of callers and goroutines.
    - [Framing], [PeerExchange] (peer/server.go, blob/exchange.go,
      network_fetcher.go): the blob exchange, both sides as functions of bytes,
      and the race over the peers.
    - [BackgroundDownloader] (backgrounddownloader/manager.go): what is fetched to
      be seeded.  [DiskSpace] (diskspace/manager.go,
      database/managed_streams.go): what is deleted to make room.
    - [Reflector], [Upload] (reflector/server.go, client.go): the upload protocol,
      its server as a machine that consumes bytes, and its client against it.

    The daemon: [ComponentGraph] (componentgraph): start and stop stages.

    ** What the theorems show

    - Money.  A created transaction is balanced and pays its fee
      ([created_balanced]), a failed creation gives every reservation back
      ([no_reservation_leak]); selection never picks an output twice or comes
      short ([selection_sound]), finds an exact match where one exists
      ([branch_and_bound_exact]) and succeeds when the funds suffice
      ([selection_funded]); sizes and fees are those of the bytes
      ([building_derives], [fee_exact]).
    - The wallet's files.  What is written is read back: documents
      ([document_roundtrip]), phrases ([seeds_are_found]), secrets and envelopes
      ([secret_roundtrip], [envelope_roundtrip]), and a whole wallet
      ([saved_is_loaded]), which when encrypted has no secret in the clear on disk and
      is unlocked to what it was ([encrypted_wallet_survives], [lock_unlock]).  No
      failure of a write loses the document ([wallet_write_safe]).  Accounts stay
      well formed and keep their secrets when another wallet is merged
      ([accounts_wellformed], [merge_keeps_accounts]), and wallets agree on their
      preferences ([preferences_merge]); text has a normal form ([normalize_text]).
    - Signatures.  Signed inputs verify against their preimages
      ([signed_inputs_verify]) and redeem the outputs of the accounts
      ([account_inputs_spendable]); an account never runs out of fresh
      addresses and knows the key of each ([address_gap]).
    - Codecs.  Parsing inverts writing for scripts, transactions, headers,
      Bencode, extended keys, addresses and Base58 ([scripts_roundtrip],
      [transaction_reparse], ...), and derivation of public keys commutes with
      that of private ones ([derivation_commutes]).
    - The chain.  A chunk of headers is written whole or not at all
      ([connect_atomic]), exactly when the rules accept it
      ([validation_exact]); repair leaves the longest valid prefix
      ([repair_truncates]); following a server ends at its tip
      ([live_headers_follow]); Merkle proofs are accepted exactly for
      transactions of the block, up to a collision ([merkle_exact]).
    - The DHT.  Invariants of the routing table and the node
      ([routing_invariant], [node_invariant]), the closest peers, and what
      strangers cannot do ([announcements_authenticated], ...).
    - The ledger database.  Interleaved creations never reserve one output
      twice ([reservations_exclusive]), and the rows it selects are the ones the
      code describes ([database_selection]).
    - Synchronization.  The history stored for an address names only stored,
      genuine transactions, whatever a server answers and wherever an update
      fails ([histories_backed]); an update that succeeds has brought the
      address to the server's history ([update_synchronizes]); fetches are
      batched in order ([fetch_plan]).  Updates of an address take turns
      ([updates_take_turns]), no status is lost ([nothing_forgotten]), and the
      wallet is ready when a cycle is over ([cycle_complete], [readiness]).
    - Streams.  Creating and reading back is the identity
      ([stream_roundtrip]); a range request is answered with exactly those
      bytes of the content ([served_exactly]); a blob manager answers only bytes
      with the hash asked for and keeps them ([blob_integrity]); concurrent
      callers share a fetch ([single_flight]) and none waits in vain
      ([ensure_answers]).
    - Between nodes.  A stream published on one node is read on another after
      the background download ([stream_transfers]) and after an upload
      ([upload_complete]), from creation through framing, transfer and
      verification to decryption; whatever bytes a stranger sends, neither side
      of the exchange nor the reflector takes a blob that it should not
      ([exchange_safe], [upload_safe]); cleaning spares the user's own blobs
      ([clean_spares]).
    - Start stages respect every dependency and are as early as possible
      ([start_stages]).

    ** Fuel

    The Bencode decoder gets the length of its input plus one (every call
    consumes a byte); the collection of cycles the number of components;
    branch-and-bound the number of tries the code itself allows;
    [updateSPVLiveHeaders] the bound that its theorem computes from the heights
    of both chains; the JSON parser and the handlers of connections the length
    of what arrived, since every value and every request takes a byte.  A phrase
    has at most as many words as its number has bits.  The search for a seed has
    no bound in the code: its tries and the draws of entropy are arguments, and the
    theorem says what it means to run out of them.

    ** Not modelled

    Sockets, deadlines, accepting and closing connections, HTTP and JSON-RPC
    plumbing (rpc, wallet/spv, exchangerate), SQL text and migrations
    (database, wallet/ledgerdb beyond the statements named above), files and
    external tools (filemanager, fileanalysis), the discovery of peers through
    trackers, configuration, metrics, torrents, and claims signed through
    protobuf messages (wallet/channel_claim.go): what they compute is decided
    by libraries that are not in the repository.  Of the wallet's files, the option
    functions of the constructors, the channel keys an account derives and the
    manager of several wallets are left out; the cache of case properties in
    mnemonic/normalize.go has no counterpart, as what it caches is a function. *)

From Stdlib Require Export ZArith Lia Strings.String Strings.Byte.
From stdpp Require Export base tactics list gmap fin_maps countable sorting.

#[global] Open Scope Z_scope.
#[global] Open Scope list_scope.
#[global] Set Default Goal Selector "!".

(** ** Outcomes of Go code

    A Go function returns a value, returns an error, or panics.  [NoFuel] is
    not an outcome of the code: it is the answer of a fuelled model that was
    given too little fuel, and every fuelled model comes with a theorem that
    excludes it. *)

Inductive res (A : Type) : Type :=
| Ok (a : A)
| Err (e : string)
| Panic
| NoFuel.
Arguments Ok {_} _.
Arguments Err {_} _.
Arguments Panic {_}.
Arguments NoFuel {_}.

#[export] Instance Ok_inj A : Inj (=) (=) (@Ok A).
Proof. by intros ?? [=]. Qed.

#[export] Instance res_ret : MRet res := fun A a => Ok a.
#[export] Instance res_bind : MBind res := fun A B k m =>
  match m with Ok a => k a | Err e => Err e | Panic => Panic | NoFuel => NoFuel end.
#[export] Instance res_fmap : FMap res := fun A B f m =>
  match m with Ok a => Ok (f a) | Err e => Err e | Panic => Panic | NoFuel => NoFuel end.

(** [guard_err c e k]: the early return [if c { return e }] before [k]. *)
Definition guard_err {A} (c : bool) (e : string) (k : res A) : res A :=
  if c then Err e else k.

(** Replace the error of a computation, the idiom
    [if err != nil { return wrap(err) }]. *)
Definition map_err {A} (f : string -> string) (m : res A) : res A :=
  match m with Err e => Err (f e) | m => m end.

(** A computation that returned, with a value or with an error. *)
Definition returns {A} (m : res A) : Prop :=
  match m with Ok _ | Err _ => True | Panic | NoFuel => False end.

Lemma res_bind_Ok {A B} (m : res A) (k : A -> res B) b :
  (m ≫= k) = Ok b <-> exists a, m = Ok a /\ k a = Ok b.
Proof.
  destruct m as [a|e| |]; cbn; split; try discriminate; intros H.
  1: by exists a.
  all: by destruct H as (? & [= ->] & H).
Qed.

(** Whether a function returned a value, as a bool that evaluates. *)
Definition isOk {A} (r : res A) : bool := if r is Ok _ then true else false.
Lemma isOk_Ok {A} (r : res A) : isOk r = true -> exists x, r = Ok x.
Proof. destruct r as [x| | |]; [by exists x|done..]. Qed.

Lemma returns_bind {A B} (m : res A) (k : A -> res B) :
  returns m -> (forall a, m = Ok a -> returns (k a)) -> returns (m ≫= k).
Proof. destruct m; cbn; auto. Qed.

Lemma returns_map_err {A} f (m : res A) : returns m -> returns (map_err f m).
Proof. destruct m; cbn; auto. Qed.

Lemma map_err_Ok {A} f (m : res A) a : map_err f m = Ok a -> m = Ok a.
Proof. by destruct m. Qed.
Lemma map_err_of_Ok {A} f (m : res A) a : m = Ok a -> map_err f m = Ok a.
Proof. by intros ->. Qed.

(** ** Machine integers: Go's [int] and [int64] (64 bits, two's complement),
    [uint64], [uint32], [uint8]; a conversion or an arithmetic operation wraps
    around. *)

Definition min_i64 : Z := - 2 ^ 63.
Definition max_i64 : Z := 2 ^ 63 - 1.
Definition i64 (z : Z) : Z := (z + 2 ^ 63) mod 2 ^ 64 - 2 ^ 63.
Definition u64 (z : Z) : Z := z mod 2 ^ 64.
Definition u32 (z : Z) : Z := z mod 2 ^ 32.
Definition u8 (z : Z) : Z := z mod 2 ^ 8.

Lemma i64_id z : min_i64 <= z <= max_i64 -> i64 z = z.
Proof. unfold i64, min_i64, max_i64. intros. rewrite Z.mod_small; lia. Qed.
Lemma i64_range z : min_i64 <= i64 z <= max_i64.
Proof.
  unfold i64, min_i64, max_i64.
  pose proof (Z.mod_pos_bound (z + 2 ^ 63) (2 ^ 64)). lia.
Qed.
Lemma i64_add_l a b : i64 (i64 a + b) = i64 (a + b).
Proof.
  unfold i64. f_equal.
  replace ((a + 2 ^ 63) mod 2 ^ 64 - 2 ^ 63 + b + 2 ^ 63)
    with ((a + 2 ^ 63) mod 2 ^ 64 + b) by lia.
  rewrite Zplus_mod_idemp_l. f_equal; lia.
Qed.
Lemma u64_id z : 0 <= z < 2 ^ 64 -> u64 z = z.
Proof. intros; unfold u64; by apply Z.mod_small. Qed.
Lemma u32_id z : 0 <= z < 2 ^ 32 -> u32 z = z.
Proof. intros; unfold u32; by apply Z.mod_small. Qed.
Lemma u32_range z : 0 <= u32 z < 2 ^ 32.
Proof. unfold u32. by apply Z.mod_pos_bound. Qed.

(** ** Bytes.  Go's [[]byte] and [string] are both byte sequences. *)

Abbreviation bytes := (list byte).

#[export] Instance byte_eq_dec : EqDecision byte := Byte.byte_eq_dec.
#[export] Program Instance byte_countable : Countable byte :=
  inj_countable Byte.to_N Byte.of_N Byte.of_to_N.

(** The unsigned value of a byte, and Go's conversion [byte(z)]. *)
Definition Zb (b : byte) : Z := Z.of_N (Byte.to_N b).
Definition byt (z : Z) : byte :=
  match Byte.of_N (Z.to_N (z mod 256)) with Some b => b | None => x00 end.

Lemma Zb_range b : 0 <= Zb b < 256.
Proof. unfold Zb. pose proof (Byte.to_N_bounded b). lia. Qed.
Lemma Zb_byt z : Zb (byt z) = z mod 256.
Proof.
  unfold Zb, byt. pose proof (Z.mod_pos_bound z 256).
  destruct (Byte.of_N _) as [b|] eqn:E.
  - apply Byte.to_of_N in E. rewrite E, Z2N.id; lia.
  - apply Byte.of_N_None_iff in E. lia.
Qed.
Lemma Zb_byt_id z : 0 <= z < 256 -> Zb (byt z) = z.
Proof. intros. rewrite Zb_byt. by apply Z.mod_small. Qed.
Lemma byt_Zb b : byt (Zb b) = b.
Proof.
  unfold byt. rewrite Z.mod_small by apply Zb_range.
  unfold Zb. rewrite N2Z.id. by rewrite Byte.of_to_N.
Qed.
#[export] Instance Zb_inj : Inj (=) (=) Zb.
Proof. intros a b H. rewrite <- (byt_Zb a), <- (byt_Zb b). by rewrite H. Qed.
Lemma byt_mod z : byt (z mod 256) = byt z.
Proof. unfold byt. by rewrite Zmod_mod. Qed.

Lemma eqb_byte a b : Byte.eqb a b = bool_decide (a = b).
Proof.
  case_bool_decide as H.
  - by apply Byte.byte_dec_lb.
  - destruct (Byte.eqb a b) eqn:E; [|done]. by apply Byte.byte_dec_bl in E.
Qed.
Lemma eqb_byte_refl b : Byte.eqb b b = true.
Proof. by apply Byte.byte_dec_lb. Qed.

(** The bytes of a literal. *)
Definition lit (s : string) : bytes := list_byte_of_string s.

(** [len(x)] *)
Definition blen {A} (l : list A) : Z := Z.of_nat (length l).
Lemma blen_nonneg {A} (l : list A) : 0 <= blen l.
Proof. unfold blen; lia. Qed.
Lemma blen_app {A} (l k : list A) : blen (l ++ k) = blen l + blen k.
Proof. unfold blen. rewrite length_app. lia. Qed.
Lemma blen_cons {A} (x : A) l : blen (x :: l) = 1 + blen l.
Proof. unfold blen. cbn. lia. Qed.
Lemma blen_nil (A : Type) : blen (@nil A) = 0.
Proof. done. Qed.
Lemma blen_rev {A} (l : list A) : blen (rev l) = blen l.
Proof. unfold blen. by rewrite length_rev. Qed.

(** Bytewise lexicographic order, Go's [<] on strings. *)
Fixpoint bytes_ltb (a b : bytes) : bool :=
  match a, b with
  | [], [] => false
  | [], _ :: _ => true
  | _ :: _, [] => false
  | x :: a, y :: b =>
      if Zb x <? Zb y then true else if Zb y <? Zb x then false else bytes_ltb a b
  end.
Definition bytes_leb (a b : bytes) : bool := negb (bytes_ltb b a).

(** ** Fixed-width integers in byte order *)

Fixpoint le_bytes (n : nat) (z : Z) : bytes :=
  match n with O => [] | S n => byt z :: le_bytes n (z / 256) end.
Fixpoint le_value (l : bytes) : Z :=
  match l with [] => 0 | b :: l => Zb b + 256 * le_value l end.
Definition be_bytes (n : nat) (z : Z) : bytes := rev (le_bytes n z).
Definition be_value (l : bytes) : Z := le_value (rev l).

Lemma length_le_bytes n z : length (le_bytes n z) = n.
Proof. revert z; induction n; intros; cbn; auto. Qed.
Lemma blen_le_bytes n z : blen (le_bytes n z) = Z.of_nat n.
Proof. unfold blen. by rewrite length_le_bytes. Qed.
Lemma length_be_bytes n z : length (be_bytes n z) = n.
Proof. unfold be_bytes. by rewrite length_rev, length_le_bytes. Qed.

Lemma le_value_bytes n z : le_value (le_bytes n z) = z mod 256 ^ Z.of_nat n.
Proof.
  revert z; induction n as [|n IH]; intros z; cbn [le_bytes le_value].
  - by rewrite Z.pow_0_r, Z.mod_1_r.
  - rewrite IH, Zb_byt, Nat2Z.inj_succ, Z.pow_succ_r by lia.
    rewrite Z.rem_mul_r by lia. lia.
Qed.
Lemma le_value_bytes_id n z :
  0 <= z < 256 ^ Z.of_nat n -> le_value (le_bytes n z) = z.
Proof. intros. rewrite le_value_bytes. by apply Z.mod_small. Qed.
Lemma le_value_range l : 0 <= le_value l < 256 ^ blen l.
Proof.
  induction l as [|b l IH]; cbn [le_value]; [done|].
  rewrite blen_cons, Z.pow_add_r, Z.pow_1_r by (pose proof (blen_nonneg l); lia).
  pose proof (Zb_range b). lia.
Qed.
Lemma le_bytes_value l : le_bytes (length l) (le_value l) = l.
Proof.
  induction l as [|b l IH]; cbn [le_bytes le_value length]; [done|]. f_equal.
  - rewrite <- (byt_mod (_ + _)), Z.mul_comm, Z.mod_add, byt_mod by lia. apply byt_Zb.
  - rewrite Z.mul_comm, Z.div_add, Z.div_small by (try apply Zb_range; lia).
    by rewrite Z.add_0_l.
Qed.
Lemma le_value_app a b : le_value (a ++ b) = le_value a + 256 ^ blen a * le_value b.
Proof.
  induction a as [|x a IH]; cbn [le_value app].
  - rewrite blen_nil, Z.pow_0_r. lia.
  - rewrite IH, blen_cons, Z.pow_add_r by (pose proof (blen_nonneg a); lia). lia.
Qed.
Lemma be_value_range l : 0 <= be_value l < 256 ^ blen l.
Proof. unfold be_value. pose proof (le_value_range (rev l)). by rewrite blen_rev in H. Qed.
Lemma be_value_cons x a : be_value (x :: a) = Zb x * 256 ^ blen a + be_value a.
Proof.
  unfold be_value. cbn [rev]. rewrite le_value_app, blen_rev. cbn [le_value]. lia.
Qed.
Lemma be_value_bytes_id n z :
  0 <= z < 256 ^ Z.of_nat n -> be_value (be_bytes n z) = z.
Proof. intros. unfold be_value, be_bytes. rewrite rev_involutive. by apply le_value_bytes_id. Qed.
Lemma be_bytes_value l : be_bytes (length l) (be_value l) = l.
Proof.
  unfold be_bytes, be_value. rewrite <- (length_rev l), le_bytes_value.
  apply rev_involutive.
Qed.

(** ** Lists with indices *)

Lemma flat_map_fmap_ext {A B} (f : A -> B) (ser : A -> bytes) (ser' : B -> bytes) l :
  (forall x, ser' (f x) = ser x) -> flat_map ser' (map f l) = flat_map ser l.
Proof. intros Hf. induction l; cbn; congruence. Qed.
Lemma flat_map_imap_ext {A B} (f : nat -> A -> B) (ser : A -> bytes) (ser' : B -> bytes) l :
  (forall k x, ser' (f k x) = ser x) -> flat_map ser' (imap f l) = flat_map ser l.
Proof. revert f. induction l as [|x l IH]; intros f Hf; cbn; [done|]. rewrite Hf, IH; [done|]. intros. apply Hf. Qed.

Lemma imap_idem {A} (f : nat -> A -> A) l :
  (forall k x, f k (f k x) = f k x) ->
  forall k x, imap f l !! k = Some x -> f k x = x.
Proof. intros Hf k x Hk. rewrite list_lookup_imap in Hk. apply fmap_Some in Hk as (y & _ & ->). auto. Qed.
Lemma imap_fixed {A} (f : nat -> A -> A) l :
  (forall k x, l !! k = Some x -> f k x = x) -> imap f l = l.
Proof.
  intros Hf. apply list_eq. intros k. rewrite list_lookup_imap.
  destruct (l !! k) eqn:E; cbn; [f_equal; by apply Hf | done].
Qed.
Lemma blen_imap {A B} (f : nat -> A -> B) l : blen (imap f l) = blen l.
Proof. unfold blen. by rewrite length_imap. Qed.
Lemma blen_map {A B} (f : A -> B) l : blen (map f l) = blen l.
Proof. unfold blen. by rewrite length_map. Qed.

Lemma imap_imap {A B C} (f : nat -> B -> C) (g : nat -> A -> B) l :
  imap f (imap g l) = imap (fun k x => f k (g k x)) l.
Proof.
  apply list_eq. intros k. rewrite !list_lookup_imap. by destruct (l !! k).
Qed.

Lemma drop_app_at {A} (a b : list A) n : n = length a -> drop n (a ++ b) = b.
Proof. intros ->. by rewrite drop_app_length. Qed.
Lemma take_app_at {A} (a b : list A) n : n = length a -> take n (a ++ b) = a.
Proof. intros ->. by rewrite take_app_length. Qed.

Lemma Forall2_impl_in {A B} (P Q : A -> B -> Prop) l k :
  Forall2 P l k -> (forall x y, x ∈ l -> P x y -> Q x y) -> Forall2 Q l k.
Proof.
  intros H. induction H as [|x y l k Hxy H IH]; intros HQ; constructor.
  - apply HQ; [by left|done].
  - apply IH. intros ?? Hin. apply HQ. by right.
Qed.

(** ** Tactics and hints *)

Create HintDb go.
Create Rewrite HintDb go.
#[export] Hint Resolve Zb_range blen_nonneg : go.
#[export] Hint Rewrite @blen_app @blen_cons @blen_nil @blen_rev
  length_le_bytes length_be_bytes : go.

(** Walk through a hypothesis that a fallible computation returned a value. *)
Ltac res_inv :=
  repeat match goal with
  | H : (_ ≫= _) = Ok _ |- _ => apply res_bind_Ok in H as (? & ? & H)
  | H : guard_err ?c _ _ = Ok _ |- _ =>
      unfold guard_err in H; destruct c eqn:?; [discriminate H|]
  | H : map_err _ ?m = Ok _ |- _ =>
      destruct m eqn:?; cbn [map_err] in H; try discriminate H
  | H : Ok _ = Ok _ |- _ => injection H as H; try subst
  | H : mret _ = Ok _ |- _ => injection H as H; try subst
  | H : Err _ = Ok _ |- _ => discriminate H
  | H : Panic = Ok _ |- _ => discriminate H
  | H : NoFuel = Ok _ |- _ => discriminate H
  end.

(** Turn boolean tests in the context into propositions. *)
Ltac bool_props :=
  repeat match goal with
  | H : (_ && _) = true |- _ => apply andb_true_iff in H as [? ?]
  | H : (_ || _) = false |- _ => apply orb_false_iff in H as [? ?]
  | H : negb _ = true |- _ => apply negb_true_iff in H
  | H : negb _ = false |- _ => apply negb_false_iff in H
  | H : (_ <? _) = true |- _ => apply Z.ltb_lt in H
  | H : (_ <? _) = false |- _ => apply Z.ltb_ge in H
  | H : (_ <=? _) = true |- _ => apply Z.leb_le in H
  | H : (_ <=? _) = false |- _ => apply Z.leb_gt in H
  | H : (_ =? _) = true |- _ => apply Z.eqb_eq in H
  | H : (_ =? _) = false |- _ => apply Z.eqb_neq in H
  | H : bool_decide _ = true |- _ => apply bool_decide_eq_true in H
  | H : bool_decide _ = false |- _ => apply bool_decide_eq_false in H
  end.

(** A disjunct that does not depend on the element comes out of [Forall]. *)
Lemma Forall_or_const {A} (P : A -> Prop) (Q : Prop) l : Forall (fun x => P x \/ Q) l -> Forall P l \/ Q.
Proof. induction 1 as [|x l [Hx|] _ [IH|]]; [by left|left; by constructor|by right..]. Qed.
