(* ===== verification/Bits.v ===== *)
(** * Bit fields

    A value made of a high part and of a low one of [n] bits, taken apart again:
    what the codecs of six-bit digits and of UTF-8 rely on. *)

From S2P Require Import Prelude.

Definition joined (n h z : Z) : Z := Z.lor (Z.shiftl h n) z.
Lemma join_high n h z : 0 <= n -> 0 <= z < 2 ^ n -> Z.shiftr (joined n h z) n = h.
Proof.
  intros Hn Hz. unfold joined. rewrite Z.shiftr_lor, Z.shiftr_shiftl_l, Z.sub_diag, Z.shiftl_0_r by done.
  by rewrite (Z.shiftr_div_pow2 z), Z.div_small, Z.lor_0_r by done.
Qed.
Lemma join_low n h z : 0 <= n -> 0 <= z < 2 ^ n -> Z.land (joined n h z) (Z.ones n) = z.
Proof.
  intros Hn Hz. unfold joined. rewrite Z.land_lor_distr_l, !Z.land_ones, Z.shiftl_mul_pow2, Z.mod_mul by lia.
  by rewrite Z.mod_small.
Qed.
Lemma join_parts n a : 0 <= n -> joined n (Z.shiftr a n) (Z.land a (Z.ones n)) = a.
Proof. intros Hn. unfold joined. rewrite <- Z.ldiff_ones_r by done. apply Z.lor_ldiff_and. Qed.
Lemma join_add n h z : 0 <= n -> 0 <= z < 2 ^ n -> joined n h z = h * 2 ^ n + z.
Proof.
  intros Hn Hz. pose proof (join_high n h z Hn Hz) as E1. pose proof (join_low n h z Hn Hz) as E2.
  rewrite Z.shiftr_div_pow2 in E1 by done. rewrite Z.land_ones in E2 by done.
  pose proof (Z.div_mod (joined n h z) (2 ^ n) ltac:(lia)). lia.
Qed.
Lemma join_bound n m h z : 0 <= n -> 0 <= m -> 0 <= z < 2 ^ n -> 0 <= h < 2 ^ m -> 0 <= joined n h z < 2 ^ (m + n).
Proof. intros Hn Hm Hz Hh. rewrite join_add, Z.pow_add_r by done. nia. Qed.
Lemma part_bound n m a : 0 <= n -> 0 <= m -> 0 <= a < 2 ^ (m + n) -> 0 <= Z.shiftr a n < 2 ^ m.
Proof.
  intros Hn Hm Ha. rewrite Z.shiftr_div_pow2, Z.pow_add_r in * by done. split; [apply Z.div_pos; lia|].
  apply Z.div_lt_upper_bound; lia.
Qed.
Lemma low_bound n a : 0 <= n -> 0 <= Z.land a (Z.ones n) < 2 ^ n.
Proof. intros Hn. rewrite Z.land_ones by done. apply Z.mod_pos_bound. lia. Qed.
Lemma joined_assoc n m x y z : 0 <= n -> 0 <= m -> joined (n + m) x (joined n y z) = joined n (joined m x y) z.
Proof.
  intros Hn Hm. unfold joined. rewrite Z.shiftl_lor, Z.shiftl_shiftl, Z.lor_assoc by done. by rewrite (Z.add_comm m n).
Qed.
