(* ===== verification/Digest.v ===== *)
(** * The digests the daemon uses

    [Digests] is what the rest of the development relies on: four functions and
    the lengths of their results.  SHA-256, SHA-384 and SHA-512 are Go's
    standard library ([crypto/sha256], [crypto/sha512]) and are defined here
    from FIPS 180-4, one definition for both word sizes.  RIPEMD-160 is a
    third-party package and stays a parameter. *)

From S2P Require Import Prelude.

(** ** The interface *)

Class Digests := {
  sha256 : bytes -> bytes;
  sha384 : bytes -> bytes;
  sha512 : bytes -> bytes;
  ripemd160 : bytes -> bytes;
  sha256_length m : length (sha256 m) = 32%nat;
  sha384_length m : length (sha384 m) = 48%nat;
  sha512_length m : length (sha512 m) = 64%nat;
  ripemd160_length m : length (ripemd160 m) = 20%nat
}.
#[export] Hint Rewrite @sha256_length @sha384_length @sha512_length @ripemd160_length : go.

(** ** SHA-2 over words of [8 * wbytes] bits *)

Record Sha2 := MkSha2 {
  wbytes : nat;                 (* bytes of a word *)
  bigSigma0 : Z * Z * Z;
  bigSigma1 : Z * Z * Z;
  smallSigma0 : Z * Z * Z;      (* rotate, rotate, shift *)
  smallSigma1 : Z * Z * Z;
  roundK : list Z;
  initialH : list Z
}.

Section sha2.
Context (v : Sha2).

Definition wbits : Z := 8 * Z.of_nat (wbytes v).
Definition wmask (x : Z) : Z := Z.land x (Z.ones wbits).
Definition wadd (x y : Z) : Z := wmask (x + y).
Definition rotr (x n : Z) : Z := Z.lor (Z.shiftr x n) (wmask (Z.shiftl x (wbits - n))).
Definition rot3 (r : Z * Z * Z) (x : Z) : Z :=
  let '(a, b, c) := r in Z.lxor (Z.lxor (rotr x a) (rotr x b)) (rotr x c).
Definition rot2shift (r : Z * Z * Z) (x : Z) : Z :=
  let '(a, b, c) := r in Z.lxor (Z.lxor (rotr x a) (rotr x b)) (Z.shiftr x c).
Definition ch (x y z : Z) : Z := Z.lxor (Z.land x y) (Z.land (wmask (Z.lnot x)) z).
Definition maj (x y z : Z) : Z :=
  Z.lxor (Z.lxor (Z.land x y) (Z.land x z)) (Z.land y z).

(** The message schedule, newest word first: sixteen words of the block and
    the rest computed from the words 2, 7, 15 and 16 places back. *)
Fixpoint extendSchedule (n : nat) (w : list Z) : list Z :=
  match n with
  | O => w
  | S n =>
      let word i := default 0 (w !! i) in
      extendSchedule n
        (wadd (wadd (rot2shift (smallSigma1 v) (word 1%nat)) (word 6%nat))
              (wadd (rot2shift (smallSigma0 v) (word 14%nat)) (word 15%nat)) :: w)
  end.

Fixpoint wordsOf (n : nat) (block : bytes) : list Z :=
  match n with
  | O => []
  | S n => be_value (take (wbytes v) block) :: wordsOf n (drop (wbytes v) block)
  end.

Definition round (s : list Z) (kw : Z * Z) : list Z :=
  match s with
  | [a; b; c; d; e; f; g; h] =>
      let t1 := wadd (wadd h (rot3 (bigSigma1 v) e)) (wadd (ch e f g) (wadd kw.1 kw.2)) in
      let t2 := wadd (rot3 (bigSigma0 v) a) (maj a b c) in
      [wadd t1 t2; a; b; c; wadd d t1; e; f; g]
  | _ => s
  end.

Definition compress (h : list Z) (block : bytes) : list Z :=
  let w := rev (extendSchedule (length (roundK v) - 16) (rev (wordsOf 16 block))) in
  zip_with wadd h (fold_left round (combine (roundK v) w) h).

Definition blockBytes : nat := 16 * wbytes v.

(** Padding: 0x80, zeroes, the bit length in two words. *)
Definition padded (m : bytes) : bytes :=
  let used := (length m + 1 + 2 * wbytes v)%nat in
  let zeroes := ((blockBytes - used mod blockBytes) mod blockBytes)%nat in
  m ++ [x80] ++ repeat x00 zeroes ++ be_bytes (2 * wbytes v) (8 * blen m).

Fixpoint hashBlocks (n : nat) (h : list Z) (m : bytes) : list Z :=
  match n with
  | O => h
  | S n => hashBlocks n (compress h (take blockBytes m)) (drop blockBytes m)
  end.

Definition digestWords (m : bytes) : list Z :=
  let p := padded m in hashBlocks (length p / blockBytes) (initialH v) p.
Definition digest (m : bytes) : bytes := flat_map (be_bytes (wbytes v)) (digestWords m).

Lemma length_fold_round (kws : list (Z * Z)) h :
  length h = 8%nat -> length (fold_left round kws h) = 8%nat.
Proof.
  revert h. induction kws as [|kw kws IH]; intros h Hh; cbn [fold_left]; [done|].
  apply IH. destruct h as [|? [|? [|? [|? [|? [|? [|? [|? [|]]]]]]]]]; done.
Qed.
Lemma length_hashBlocks n h m : length h = 8%nat -> length (hashBlocks n h m) = 8%nat.
Proof.
  revert h m. induction n as [|n IH]; intros h m Hh; cbn [hashBlocks]; [done|].
  apply IH. unfold compress. rewrite length_zip_with, length_fold_round by done. lia.
Qed.
Lemma length_digest m :
  length (initialH v) = 8%nat -> length (digest m) = (8 * wbytes v)%nat.
Proof.
  intros Hh. unfold digest, digestWords.
  assert (forall l : list Z, length (flat_map (be_bytes (wbytes v)) l)
                             = (length l * wbytes v)%nat) as ->.
  { induction l as [|x l IH]; cbn [flat_map length]; [done|].
    rewrite length_app, length_be_bytes, IH. lia. }
  by rewrite length_hashBlocks.
Qed.
End sha2.

(** The constants of FIPS 180-4 are the leading bits of the fractional parts of
    the square and cube roots of the first primes; they are computed from that
    definition. *)
Definition primeb (n : nat) : bool :=
  forallb (fun d => negb (n mod d =? 0)%nat) (seq 2 (n - 2)).
Definition primes (n : nat) : list Z := map Z.of_nat (filter primeb (seq 2 n)).

(** The integer cube root of [n], its bits below [k] found from the top. *)
Fixpoint cubeRoot (k : nat) (root n : Z) : Z :=
  match k with
  | O => root
  | S k =>
      let next := root + Z.shiftl 1 (Z.of_nat k) in
      cubeRoot k (if next * next * next <=? n then next else root) n
  end.

Definition sqrtFraction (bits p : Z) : Z :=
  Z.land (Z.sqrt (Z.shiftl p (2 * bits))) (Z.ones bits).
Definition cbrtFraction (bits p : Z) : Z :=
  Z.land (cubeRoot (Z.to_nat bits + 4) 0 (Z.shiftl p (3 * bits))) (Z.ones bits).

Definition sha256K : list Z :=
  Eval vm_compute in map (cbrtFraction 32) (take 64 (primes 410)).
Definition sha512K : list Z :=
  Eval vm_compute in map (cbrtFraction 64) (take 80 (primes 410)).
Definition sha256H : list Z := Eval vm_compute in map (sqrtFraction 32) (take 8 (primes 60)).
Definition sha512H : list Z := Eval vm_compute in map (sqrtFraction 64) (take 8 (primes 60)).
Definition sha384H : list Z :=
  Eval vm_compute in map (sqrtFraction 64) (take 8 (drop 8 (primes 60))).

Definition Sha256 : Sha2 :=
  MkSha2 4 (2, 13, 22) (6, 11, 25) (7, 18, 3) (17, 19, 10) sha256K sha256H.
Definition Sha512 : Sha2 :=
  MkSha2 8 (28, 34, 39) (14, 18, 41) (1, 8, 7) (19, 61, 6) sha512K sha512H.
Definition Sha384 : Sha2 :=
  MkSha2 8 (28, 34, 39) (14, 18, 41) (1, 8, 7) (19, 61, 6) sha512K sha384H.

Lemma sha384_digest_length m : length (take 48 (digest Sha384 m)) = 48%nat.
Proof. rewrite length_take, (length_digest Sha384) by done. done. Qed.

(** The digests with the standard library's SHA-2 and a given RIPEMD-160. *)
Definition goDigests (ripemd : bytes -> bytes)
    (ripemd_length : forall m, length (ripemd m) = 20%nat) : Digests := {|
  sha256 := digest Sha256;
  sha384 := fun m => take 48 (digest Sha384 m);
  sha512 := digest Sha512;
  ripemd160 := ripemd;
  sha256_length m := length_digest Sha256 m eq_refl;
  sha384_length := sha384_digest_length;
  sha512_length m := length_digest Sha512 m eq_refl;
  ripemd160_length := ripemd_length
|}.

(** A concrete RIPEMD-160 stand-in for evaluating examples: twenty bytes of the
    SHA-256.  Nothing is proved from its values. *)
Definition exampleRipemd (m : bytes) : bytes := take 20 (digest Sha256 m).
Lemma exampleRipemd_length m : length (exampleRipemd m) = 20%nat.
Proof. unfold exampleRipemd. by rewrite length_take, (length_digest Sha256). Qed.
Definition exampleDigests : Digests := goDigests exampleRipemd exampleRipemd_length.

(** FIPS 180-4 test vectors, first words. *)
Example sha256_abc :
  take 4 (digest Sha256 (lit "abc")) = be_bytes 4 0xba7816bf.
Proof. vm_compute. reflexivity. Qed.
Example sha256_two_blocks :
  take 4 (digest Sha256 (lit "abcdbcdecdefdefgefghfghighijhijkijkljklmklmnlmnomnopnopq"))
  = be_bytes 4 0x248d6a61.
Proof. vm_compute. reflexivity. Qed.
Example sha384_abc :
  take 8 (digest Sha384 (lit "abc")) = be_bytes 8 0xcb00753f45a35e8b.
Proof. vm_compute. reflexivity. Qed.
Example sha512_abc :
  take 8 (digest Sha512 (lit "abc")) = be_bytes 8 0xddaf35a193617aba.
Proof. vm_compute. reflexivity. Qed.
