(* ===== verification/Aes.v ===== *)
(** * AES in CBC mode, as [crypto/aes] and [crypto/cipher] provide it

    The cipher of FIPS 197 with keys of 16 and 32 bytes, its inverse, and
    the chaining of blocks.  The S-box is computed from its definition over GF(2^8).  A state is
    the 16 bytes of a block, column by column. *)

From Stdlib Require Import Ring.
From S2P Require Import Prelude.

(** ** Bytes as elements of GF(2^8) *)

Definition bxor (a b : byte) : byte := byt (Z.lxor (Zb a) (Zb b)).
(** Multiplication by the polynomial [x]. *)
Definition xtime (b : byte) : byte :=
  let d := Z.shiftl (Zb b) 1 in byt (if Z.testbit (Zb b) 7 then Z.lxor d 0x11b else d).
Fixpoint gfMul (n : nat) (a b : byte) : byte :=
  match n with
  | O => x00
  | S n => bxor (if Z.testbit (Zb b) 0 then a else x00) (gfMul n (xtime a) (byt (Z.shiftr (Zb b) 1)))
  end.
(** The inverse is the 254th power. *)
Fixpoint gfPow (n : nat) (a : byte) : byte :=
  match n with O => x01 | S n => gfMul 8 a (gfPow n a) end.

Definition rotl8 (z n : Z) : Z := Z.lor (Z.shiftl z n mod 256) (Z.shiftr z (8 - n)).
Definition affine (b : byte) : byte :=
  let z := Zb b in
  byt (Z.lxor z (Z.lxor (rotl8 z 1) (Z.lxor (rotl8 z 2) (Z.lxor (rotl8 z 3) (Z.lxor (rotl8 z 4) 0x63))))).
Definition allBytes : bytes := map (fun n => byt (Z.of_nat n)) (seq 0 256).
Definition sboxTable : bytes := Eval vm_compute in map (fun b => affine (gfPow 254 b)) allBytes.
Definition byteIndex (b : byte) : nat := Z.to_nat (Zb b).
Definition subByte (b : byte) : byte := nth (byteIndex b) sboxTable x00.
Fixpoint positionOf (b : byte) (n : nat) (l : bytes) : nat :=
  match l with [] => n | c :: l => if Byte.eqb b c then n else positionOf b (S n) l end.
Definition invSboxTable : bytes :=
  Eval vm_compute in map (fun b => byt (Z.of_nat (positionOf b 0 sboxTable))) allBytes.
Definition invSubByte (b : byte) : byte := nth (byteIndex b) invSboxTable x00.

(** ** The round transformations *)

Definition permute (indices : list nat) (s : bytes) : bytes := map (fun i => nth i s x00) indices.
Definition shiftRows : bytes -> bytes := permute [0; 5; 10; 15; 4; 9; 14; 3; 8; 13; 2; 7; 12; 1; 6; 11]%nat.
Definition invShiftRows : bytes -> bytes := permute [0; 13; 10; 7; 4; 1; 14; 11; 8; 5; 2; 15; 12; 9; 6; 3]%nat.

Definition mul3 (b : byte) : byte := bxor (xtime b) b.
Definition mul9 (b : byte) : byte := bxor (xtime (xtime (xtime b))) b.
Definition mul11 (b : byte) : byte := bxor (xtime (bxor (xtime (xtime b)) b)) b.
Definition mul13 (b : byte) : byte := bxor (xtime (xtime (bxor (xtime b) b))) b.
Definition mul14 (b : byte) : byte := xtime (bxor (xtime (bxor (xtime b) b)) b).
Definition sum4 (a b c d : byte) : byte := bxor (bxor a b) (bxor c d).
Fixpoint mixColumns (s : bytes) : bytes :=
  match s with
  | a :: b :: c :: d :: s =>
      sum4 (xtime a) (mul3 b) c d :: sum4 a (xtime b) (mul3 c) d ::
      sum4 a b (xtime c) (mul3 d) :: sum4 (mul3 a) b c (xtime d) :: mixColumns s
  | s => s
  end.
Fixpoint invMixColumns (s : bytes) : bytes :=
  match s with
  | a :: b :: c :: d :: s =>
      sum4 (mul14 a) (mul11 b) (mul13 c) (mul9 d) :: sum4 (mul9 a) (mul14 b) (mul11 c) (mul13 d) ::
      sum4 (mul13 a) (mul9 b) (mul14 c) (mul11 d) :: sum4 (mul11 a) (mul13 b) (mul9 c) (mul14 d) ::
      invMixColumns s
  | s => s
  end.

Definition xorBytes (a b : bytes) : bytes := zip_with bxor a b.

(** ** Keys *)

(** The next round key: its first word from the last one of the key before. *)
Definition nextRoundKey (rcon : byte) (k : bytes) : bytes :=
  match drop 12 k with
  | [a; b; c; d] =>
      let w0 := xorBytes (take 4 k) [bxor (subByte b) rcon; subByte c; subByte d; subByte a] in
      let w1 := xorBytes (take 4 (drop 4 k)) w0 in
      let w2 := xorBytes (take 4 (drop 8 k)) w1 in
      w0 ++ w1 ++ w2 ++ xorBytes (drop 12 k) w2
  | _ => k
  end.
Fixpoint roundKeys (n : nat) (rcon : byte) (k : bytes) : list bytes :=
  match n with O => [] | S n => let k := nextRoundKey rcon k in k :: roundKeys n (xtime rcon) k end.

(** A key of 256 bits is expanded 32 bytes at a time; the second half starts from
    the substituted last word of the first, without the rotation. *)
Definition nextRoundKey256 (rcon : byte) (k : bytes) : bytes :=
  match drop 28 k with
  | [a; b; c; d] =>
      let w0 := xorBytes (take 4 k) [bxor (subByte b) rcon; subByte c; subByte d; subByte a] in
      let w1 := xorBytes (take 4 (drop 4 k)) w0 in
      let w2 := xorBytes (take 4 (drop 8 k)) w1 in
      let w3 := xorBytes (take 4 (drop 12 k)) w2 in
      let w4 := xorBytes (take 4 (drop 16 k)) (map subByte w3) in
      let w5 := xorBytes (take 4 (drop 20 k)) w4 in
      let w6 := xorBytes (take 4 (drop 24 k)) w5 in
      w0 ++ w1 ++ w2 ++ w3 ++ w4 ++ w5 ++ w6 ++ xorBytes (drop 28 k) w6
  | _ => k
  end.
Fixpoint roundKeys256 (n : nat) (rcon : byte) (k : bytes) : list bytes :=
  match n with
  | O => []
  | S n => let k := nextRoundKey256 rcon k in take 16 k :: drop 16 k :: roundKeys256 n (xtime rcon) k
  end.
(** The keys of the rounds, the first of which is added before them: eleven, or
    fifteen for a key of 32 bytes. *)
Definition schedule (key : bytes) : bytes * list bytes :=
  if (length key =? 32)%nat then (take 16 key, take 14 (drop 16 key :: roundKeys256 7 x01 key))
  else (key, roundKeys 10 x01 key).

(** ** A block *)

Definition encryptRound (s k : bytes) : bytes :=
  xorBytes (mixColumns (shiftRows (map subByte s))) k.
Definition finalRound (s k : bytes) : bytes := xorBytes (shiftRows (map subByte s)) k.
Definition encryptBlock (key s : bytes) : bytes :=
  let '(first, keys) := schedule key in
  finalRound (fold_left encryptRound (removelast keys) (xorBytes s first)) (List.last keys []).

Definition decryptRound (s k : bytes) : bytes :=
  map invSubByte (invShiftRows (invMixColumns (xorBytes s k))).
Definition invFinalRound (s k : bytes) : bytes := map invSubByte (invShiftRows (xorBytes s k)).
Definition decryptBlock (key s : bytes) : bytes :=
  let '(first, keys) := schedule key in
  xorBytes (fold_left decryptRound (rev (removelast keys)) (invFinalRound s (List.last keys []))) first.

(** The example of FIPS 197, appendix C.1. *)
Definition exampleKey : bytes := map (fun n => byt (Z.of_nat n)) (seq 0 16).
Definition exampleBlock : bytes := map (fun n => byt (17 * Z.of_nat n)) (seq 0 16).
Example encryptBlock_fips :
  encryptBlock exampleKey exampleBlock = be_bytes 16 0x69c4e0d86a7b0430d8cdb78070b4c55a.
Proof. vm_compute. reflexivity. Qed.
Example decryptBlock_fips :
  decryptBlock exampleKey (encryptBlock exampleKey exampleBlock) = exampleBlock.
Proof. vm_compute. reflexivity. Qed.

(** Appendix C.3, with a key of 256 bits. *)
Definition exampleKey256 : bytes := map (fun n => byt (Z.of_nat n)) (seq 0 32).
Example encryptBlock_fips256 :
  encryptBlock exampleKey256 exampleBlock = be_bytes 16 0x8ea2b7ca516745bfeafc49904b496089.
Proof. vm_compute. reflexivity. Qed.

(** ** Cipher block chaining *)

Definition BlockSize : nat := 16.
(** [cipher.NewCBCEncrypter(block, iv).CryptBlocks] on [n] blocks. *)
Fixpoint cbcEncrypt (n : nat) (key iv data : bytes) : bytes :=
  match n with
  | O => []
  | S n =>
      let c := encryptBlock key (xorBytes (take BlockSize data) iv) in
      c ++ cbcEncrypt n key c (drop BlockSize data)
  end.
Fixpoint cbcDecrypt (n : nat) (key iv data : bytes) : bytes :=
  match n with
  | O => []
  | S n =>
      let c := take BlockSize data in
      xorBytes (decryptBlock key c) iv ++ cbcDecrypt n key c (drop BlockSize data)
  end.

(** ** Decryption inverts encryption *)

Lemma allBytes_spec (P : byte -> bool) : forallb P allBytes = true -> forall b, P b = true.
Proof.
  intros Hp b. rewrite forallb_forall in Hp. apply Hp. unfold allBytes. apply in_map_iff.
  pose proof (Zb_range b). exists (byteIndex b). unfold byteIndex. rewrite Z2Nat.id by lia.
  split; [apply byt_Zb|]. apply in_seq. lia.
Qed.
(** An equation between bytes, for every byte, by evaluation. *)
Lemma byte_equation (f g : byte -> byte) :
  forallb (fun b => Byte.eqb (f b) (g b)) allBytes = true -> forall b, f b = g b.
Proof. intros Hp b. apply Byte.byte_dec_bl. by apply (allBytes_spec _ Hp). Qed.

Lemma invSubByte_subByte b : invSubByte (subByte b) = b.
Proof. revert b. apply (byte_equation _ id). vm_compute. reflexivity. Qed.

Lemma Zb_bxor a b : Zb (bxor a b) = Z.lxor (Zb a) (Zb b).
Proof.
  unfold bxor. pose proof (Zb_range a). pose proof (Zb_range b). apply Zb_byt_id.
  split; [by apply Z.lxor_nonneg; split; lia|].
  destruct (decide (Z.lxor (Zb a) (Zb b) = 0)) as [->|]; [lia|].
  assert (0 < Z.lxor (Zb a) (Zb b)) by (assert (0 <= Z.lxor (Zb a) (Zb b)) by (by apply Z.lxor_nonneg; split; lia); lia).
  change 256 with (2 ^ 8). apply Z.log2_lt_pow2; [done|].
  assert (forall z, 0 <= z < 256 -> Z.log2 z < 8) as Hlog.
  { intros z Hz. destruct (decide (z = 0)) as [->|]; [done|]. apply Z.log2_lt_pow2; lia. }
  pose proof (Z.log2_lxor (Zb a) (Zb b) ltac:(lia) ltac:(lia)).
  pose proof (Hlog (Zb a) ltac:(lia)). pose proof (Hlog (Zb b) ltac:(lia)). lia.
Qed.
Lemma Zb_inj a b : Zb a = Zb b -> a = b.
Proof. intros E. by rewrite <- (byt_Zb a), E, byt_Zb. Qed.

(** Sums of bytes in another order, bit by bit. *)
Ltac xor_solve :=
  apply Zb_inj; rewrite ?Zb_bxor; apply Z.bits_inj'; intros ? _; rewrite ?Z.lxor_spec;
  ring.

Lemma bxor_cancel a b : bxor (bxor a b) b = a.
Proof. apply Zb_inj. rewrite !Zb_bxor, Z.lxor_assoc, Z.lxor_nilpotent. apply Z.lxor_0_r. Qed.

(** A function that distributes over the sum of bytes. *)
Class Linear (f : byte -> byte) : Prop := linear : forall a b, f (bxor a b) = bxor (f a) (f b).
#[export] Instance xtime_linear : Linear xtime.
Proof.
  intros a b. revert b. apply byte_equation. revert a.
  apply (allBytes_spec (fun a => forallb (fun b => Byte.eqb (xtime (bxor a b)) (bxor (xtime a) (xtime b))) allBytes)).
  vm_compute. reflexivity.
Qed.
#[export] Instance id_linear : Linear (fun b => b).
Proof. by intros a b. Qed.
#[export] Instance compose_linear f g : Linear f -> Linear g -> Linear (fun b => f (g b)).
Proof. intros Hf Hg a b. by rewrite (Hg a b), (Hf (g a) (g b)). Qed.
#[export] Instance sum_linear f g : Linear f -> Linear g -> Linear (fun b => bxor (f b) (g b)).
Proof. intros Hf Hg a b. rewrite (Hf a b), (Hg a b). xor_solve. Qed.


(** A row of the inverse matrix applied to a column of the product: a linear
    function of each byte of the column. *)
Lemma row_identity (f0 f1 f2 f3 : byte -> byte) `{!Linear f0, !Linear f1, !Linear f2, !Linear f3}
    (h00 h01 h02 h03 h10 h11 h12 h13 h20 h21 h22 h23 h30 h31 h32 h33 : byte -> byte) a b c d :
  sum4 (f0 (sum4 (h00 a) (h01 b) (h02 c) (h03 d))) (f1 (sum4 (h10 a) (h11 b) (h12 c) (h13 d)))
       (f2 (sum4 (h20 a) (h21 b) (h22 c) (h23 d))) (f3 (sum4 (h30 a) (h31 b) (h32 c) (h33 d))) =
  sum4 (sum4 (f0 (h00 a)) (f1 (h10 a)) (f2 (h20 a)) (f3 (h30 a)))
       (sum4 (f0 (h01 b)) (f1 (h11 b)) (f2 (h21 b)) (f3 (h31 b)))
       (sum4 (f0 (h02 c)) (f1 (h12 c)) (f2 (h22 c)) (f3 (h32 c)))
       (sum4 (f0 (h03 d)) (f1 (h13 d)) (f2 (h23 d)) (f3 (h33 d))).
Proof. unfold sum4. rewrite !(linear (f := f0)), !(linear (f := f1)), !(linear (f := f2)), !(linear (f := f3)). xor_solve. Qed.

#[export] Instance mul9_linear : Linear mul9.
Proof. unfold mul9. apply _. Qed.
#[export] Instance mul11_linear : Linear mul11.
Proof. unfold mul11. apply _. Qed.
#[export] Instance mul13_linear : Linear mul13.
Proof. unfold mul13. apply _. Qed.
#[export] Instance mul14_linear : Linear mul14.
Proof. unfold mul14. apply _. Qed.

(** The rows of the product of the two matrices are those of the identity. *)
Definition single (i : nat) (l : bytes) : byte := nth i l x00.
Lemma identity_sum (i : nat) (f0 f1 f2 f3 : byte -> byte) a b c d :
  (forall x, f0 x = if (i =? 0)%nat then x else x00) -> (forall x, f1 x = if (i =? 1)%nat then x else x00) ->
  (forall x, f2 x = if (i =? 2)%nat then x else x00) -> (forall x, f3 x = if (i =? 3)%nat then x else x00) ->
  (i < 4)%nat -> sum4 (f0 a) (f1 b) (f2 c) (f3 d) = single i [a; b; c; d].
Proof.
  intros -> -> -> -> Hi. unfold sum4, single.
  destruct i as [|[|[|[|]]]]; [..|lia]; cbn [Nat.eqb nth]; apply Zb_inj; rewrite !Zb_bxor;
    change (Zb x00) with 0; by rewrite ?Z.lxor_0_l, ?Z.lxor_0_r.
Qed.
Ltac matrix_row f0 f1 f2 f3 i a b c d :=
  etrans; [apply (row_identity f0 f1 f2 f3 xtime mul3 (fun b => b) (fun b => b)
                    (fun b => b) xtime mul3 (fun b => b) (fun b => b) (fun b => b) xtime mul3
                    mul3 (fun b => b) (fun b => b) xtime a b c d)|];
  apply (identity_sum i
    (fun a => sum4 (f0 (xtime a)) (f1 a) (f2 a) (f3 (mul3 a)))
    (fun b => sum4 (f0 (mul3 b)) (f1 (xtime b)) (f2 b) (f3 b))
    (fun c => sum4 (f0 c) (f1 (mul3 c)) (f2 (xtime c)) (f3 c))
    (fun d => sum4 (f0 d) (f1 d) (f2 (mul3 d)) (f3 (xtime d))) a b c d);
  [apply byte_equation; vm_compute; reflexivity ..|lia].
Lemma invMix_column a b c d :
  invMixColumns (mixColumns [a; b; c; d]) = [a; b; c; d].
Proof.
  cbn [mixColumns invMixColumns].
  f_equal; [matrix_row mul14 mul11 mul13 mul9 0%nat a b c d|].
  f_equal; [matrix_row mul9 mul14 mul11 mul13 1%nat a b c d|].
  f_equal; [matrix_row mul13 mul9 mul14 mul11 2%nat a b c d|].
  f_equal. matrix_row mul11 mul13 mul9 mul14 3%nat a b c d.
Qed.
Lemma invMix_app a b c d s :
  invMixColumns (mixColumns (a :: b :: c :: d :: s)) = a :: b :: c :: d :: invMixColumns (mixColumns s).
Proof.
  pose proof (invMix_column a b c d) as E. cbn [mixColumns invMixColumns] in E |- *.
  by injection E as -> -> -> ->.
Qed.

(** ** A block *)

Definition isBlock (s : bytes) : Prop := length s = BlockSize.
Ltac explode s :=
  match goal with
  | H : isBlock s |- _ =>
      unfold isBlock, BlockSize in H;
      do 16 (destruct s as [|? s]; [discriminate H|cbn [length] in H]);
      destruct s; [clear H|discriminate H]
  end.
Lemma invMix_mix s : isBlock s -> invMixColumns (mixColumns s) = s.
Proof. intros Hs. explode s. by rewrite !invMix_app. Qed.
Lemma invShift_shift s : isBlock s -> invShiftRows (shiftRows s) = s.
Proof. intros Hs. explode s. reflexivity. Qed.
Lemma invSub_sub s : map invSubByte (map subByte s) = s.
Proof. rewrite map_map. rewrite <- (map_id s) at 2. apply map_ext. apply invSubByte_subByte. Qed.
Lemma xorBytes_cancel s k : length s = length k -> xorBytes (xorBytes s k) k = s.
Proof.
  revert k. induction s as [|b s IH]; intros [|c k] Hl; try done. cbn.
  rewrite bxor_cancel. f_equal. apply IH. cbn in Hl. lia.
Qed.
Lemma length_xorBytes a b : length (xorBytes a b) = Nat.min (length a) (length b).
Proof. apply length_zip_with. Qed.
Lemma isBlock_xor a b : isBlock a -> isBlock b -> isBlock (xorBytes a b).
Proof. unfold isBlock. rewrite length_xorBytes. lia. Qed.
Lemma isBlock_mix s : isBlock s -> isBlock (mixColumns s).
Proof. intros Hs. explode s. reflexivity. Qed.
Lemma isBlock_shift s : isBlock (shiftRows s).
Proof. reflexivity. Qed.
Lemma isBlock_sub s : isBlock s -> isBlock (map subByte s).
Proof. unfold isBlock. by rewrite length_map. Qed.
#[export] Hint Resolve isBlock_xor isBlock_mix isBlock_shift isBlock_sub : aes.

Lemma decryptRound_encrypt s k : isBlock s -> isBlock k -> decryptRound (encryptRound s k) k = s.
Proof.
  intros Hs Hk. unfold decryptRound, encryptRound.
  rewrite xorBytes_cancel, invMix_mix, invShift_shift, invSub_sub; auto with aes.
Qed.
Lemma invFinalRound_final s k : isBlock s -> isBlock k -> invFinalRound (finalRound s k) k = s.
Proof.
  intros Hs Hk. unfold invFinalRound, finalRound.
  rewrite xorBytes_cancel, invShift_shift, invSub_sub; auto with aes.
Qed.
Lemma rounds_cancel keys s :
  isBlock s -> Forall isBlock keys ->
  fold_left decryptRound (rev keys) (fold_left encryptRound keys s) = s /\
  isBlock (fold_left encryptRound keys s).
Proof.
  intros Hs Hk. revert s Hs. induction Hk as [|k keys Hk Hks IH]; intros s Hs; [done|].
  cbn [rev fold_left]. assert (isBlock (encryptRound s k)) as He by (unfold encryptRound; auto with aes).
  destruct (IH _ He) as [E Hb]. rewrite fold_left_app, E. cbn [fold_left].
  by rewrite decryptRound_encrypt.
Qed.

Lemma isBlock_nextRoundKey rcon k : isBlock k -> isBlock (nextRoundKey rcon k).
Proof. intros Hk. explode k. reflexivity. Qed.
Lemma roundKeys_blocks n rcon k : isBlock k -> Forall isBlock (roundKeys n rcon k).
Proof.
  revert rcon k. induction n as [|n IH]; intros rcon k Hk; cbn [roundKeys]; [done|].
  constructor; [|apply IH]; by apply isBlock_nextRoundKey.
Qed.
Lemma length_roundKeys n rcon k : length (roundKeys n rcon k) = n.
Proof. revert rcon k. induction n as [|n IH]; intros rcon k; cbn; [done|]. by rewrite IH. Qed.

(** A key of one of the two lengths. *)
Definition isKey (key : bytes) : Prop := isBlock key \/ length key = 32%nat.
Lemma isBlock_isKey key : isBlock key -> isKey key.
Proof. by left. Qed.
#[export] Hint Resolve isBlock_isKey : aes.
Lemma length_nextRoundKey256 rcon k : length k = 32%nat -> length (nextRoundKey256 rcon k) = 32%nat.
Proof.
  intros Hk. do 32 (destruct k as [|? k]; [discriminate Hk|cbn [length] in Hk]). destruct k; [reflexivity|discriminate Hk].
Qed.
Lemma roundKeys256_blocks n rcon k : length k = 32%nat -> Forall isBlock (roundKeys256 n rcon k).
Proof.
  revert rcon k. induction n as [|n IH]; intros rcon k Hk; cbn [roundKeys256]; [done|].
  apply (length_nextRoundKey256 rcon) in Hk. constructor; [|constructor; [|by apply IH]]; unfold isBlock, BlockSize.
  - rewrite length_take. lia.
  - rewrite length_drop. lia.
Qed.
Lemma schedule_blocks key :
  isKey key -> let '(first, keys) := schedule key in isBlock first /\ Forall isBlock keys /\ keys <> [].
Proof.
  unfold schedule. intros Hk. destruct (Nat.eqb_spec (length key) 32) as [E|Ne].
  - unfold isBlock at 1. rewrite length_take. split; [unfold BlockSize; lia|]. split; [|done]. apply Forall_take. constructor.
    + unfold isBlock. rewrite length_drop, E. done.
    + by apply roundKeys256_blocks.
  - destruct Hk as [Hk|]; [|done]. split; [done|]. split; [by apply roundKeys_blocks|done].
Qed.
Lemma decryptBlock_encrypt key s :
  isKey key -> isBlock s -> decryptBlock key (encryptBlock key s) = s /\ isBlock (encryptBlock key s).
Proof.
  intros Hk Hs. unfold decryptBlock, encryptBlock. pose proof (schedule_blocks key Hk) as Hks.
  destruct (schedule key) as [first keys]. destruct Hks as (Hfirst & Hkeys & Hne).
  rewrite (app_removelast_last [] Hne), Forall_app, Forall_singleton in Hkeys. destruct Hkeys as [Hinit Hlast].
  destruct (rounds_cancel _ (xorBytes s first) ltac:(auto with aes) Hinit) as [E Hb].
  split.
  - rewrite invFinalRound_final, E by done. apply xorBytes_cancel. unfold isBlock in *. by rewrite Hs, Hfirst.
  - unfold finalRound. auto with aes.
Qed.

(** ** Chaining *)

Lemma cbc_roundtrip n key iv data :
  isKey key -> isBlock iv -> length data = (n * BlockSize)%nat ->
  cbcDecrypt n key iv (cbcEncrypt n key iv data) = data /\
  length (cbcEncrypt n key iv data) = (n * BlockSize)%nat.
Proof.
  intros Hk. revert iv data. induction n as [|n IH]; intros iv data Hiv Hl; cbn [cbcEncrypt cbcDecrypt].
  { destruct data; [done|]. cbn in Hl. lia. }
  assert (isBlock (take BlockSize data)) as Hb.
  { unfold isBlock. rewrite length_take. unfold BlockSize in *. lia. }
  destruct (decryptBlock_encrypt key (xorBytes (take BlockSize data) iv) Hk ltac:(auto with aes)) as [E He].
  set (c := encryptBlock key (xorBytes (take BlockSize data) iv)) in *.
  destruct (IH c (drop BlockSize data) He) as [Ed Hd].
  { rewrite length_drop. unfold BlockSize in *. lia. }
  rewrite (take_app_at c), (drop_app_at c) by done. split.
  - rewrite E, Ed, xorBytes_cancel; [apply take_drop|]. unfold isBlock in *. by rewrite Hb, Hiv.
  - rewrite length_app, Hd, He. unfold BlockSize. lia.
Qed.
