(* ===== verification/Hex.v ===== *)
(** * Hexadecimal and byte reversal

    [encoding/hex] of Go's standard library ([EncodeToString] writes lowercase,
    [DecodeString] reads both cases and fails on an odd length or another
    character) and the reversed display form of hashes
    ([reverseTransactionBytes], [encodeReversedHeaderHash],
    [decodeReversedHeaderHash]). *)

From S2P Require Import Prelude.

Definition hexDigit (d : Z) : byte := if d <? 10 then byt (48 + d) else byt (87 + d).
Fixpoint hexEncode (l : bytes) : bytes :=
  match l with
  | [] => []
  | b :: l => hexDigit (Zb b / 16) :: hexDigit (Zb b mod 16) :: hexEncode l
  end.

Definition unhexDigit (c : byte) : option Z :=
  let z := Zb c in
  if (48 <=? z) && (z <=? 57) then Some (z - 48)
  else if (97 <=? z) && (z <=? 102) then Some (z - 87)
  else if (65 <=? z) && (z <=? 70) then Some (z - 55)
  else None.
Fixpoint hexDecode (l : bytes) : res bytes :=
  match l with
  | [] => Ok []
  | [c] => match unhexDigit c with
           | None => Err "encoding/hex: invalid byte"
           | Some _ => Err "encoding/hex: odd length hex string"
           end
  | a :: b :: l =>
      match unhexDigit a, unhexDigit b with
      | Some x, Some y => decoded ← hexDecode l; Ok (byt (16 * x + y) :: decoded)
      | _, _ => Err "encoding/hex: invalid byte"
      end
  end.

Lemma unhex_hexDigit d : 0 <= d < 16 -> unhexDigit (hexDigit d) = Some d.
Proof.
  intros Hd. unfold hexDigit, unhexDigit.
  destruct (Z.ltb_spec d 10); rewrite Zb_byt_id by lia.
  - replace (48 <=? 48 + d) with true by lia. replace (48 + d <=? 57) with true by lia.
    cbn. f_equal; lia.
  - replace (87 + d <=? 57) with false by lia. rewrite andb_false_r.
    replace (97 <=? 87 + d) with true by lia. replace (87 + d <=? 102) with true by lia.
    cbn. f_equal; lia.
Qed.

Lemma hexDecode_encode l : hexDecode (hexEncode l) = Ok l.
Proof.
  induction l as [|b l IH]; cbn [hexEncode hexDecode]; [done|].
  pose proof (Zb_range b) as Hb.
  rewrite !unhex_hexDigit by
    (first [apply Z.mod_pos_bound; lia |
            split; [apply Z.div_pos; lia | apply Z.div_lt_upper_bound; lia]]).
  rewrite IH. cbn. rewrite <- Z.div_mod by lia. by rewrite byt_Zb.
Qed.
#[export] Instance hexEncode_inj : Inj (=) (=) hexEncode.
Proof.
  intros a b H. apply (inj Ok). by rewrite <- (hexDecode_encode a), H, hexDecode_encode.
Qed.
Lemma length_hexEncode l : length (hexEncode l) = (2 * length l)%nat.
Proof. induction l; cbn [hexEncode length]; lia. Qed.

Lemma hexDecode_length l d : hexDecode l = Ok d -> length l = (2 * length d)%nat.
Proof.
  revert d. induction l as [l IH] using (well_founded_induction (well_founded_ltof _ (@length byte))).
  unfold ltof in IH. intros d H. destruct l as [|a [|b l]]; cbn in H.
  - res_inv. done.
  - by case_match.
  - repeat (case_match; try discriminate). res_inv.
    cbn [length]. rewrite (IH l ltac:(cbn; lia) x ltac:(done)). lia.
Qed.

(** ** Reversed display form *)

Definition reverseTransactionBytes (value : bytes) : bytes := rev value.
Definition encodeReversedHeaderHash (value : bytes) : bytes := hexEncode (rev value).
Definition decodeReversedHeaderHash (value : bytes) : res bytes :=
  decoded ← hexDecode value; Ok (rev decoded).

Lemma decodeReversed_encode v : decodeReversedHeaderHash (encodeReversedHeaderHash v) = Ok v.
Proof.
  unfold decodeReversedHeaderHash, encodeReversedHeaderHash.
  rewrite hexDecode_encode. cbn. by rewrite rev_involutive.
Qed.
#[export] Instance encodeReversed_inj : Inj (=) (=) encodeReversedHeaderHash.
Proof.
  intros a b H. apply (inj Ok). by rewrite <- (decodeReversed_encode a), H, decodeReversed_encode.
Qed.
Lemma length_encodeReversed v : length (encodeReversedHeaderHash v) = (2 * length v)%nat.
Proof. unfold encodeReversedHeaderHash. by rewrite length_hexEncode, length_rev. Qed.
#[export] Hint Rewrite length_hexEncode length_encodeReversed : go.
