(* ===== verification/Utf8.v ===== *)
(** * UTF-8, as [unicode/utf8] and [strings] of Go's standard library read it

    [DecodeRune], [DecodeLastRune], [AppendRune], [Valid] and
    [strings.TrimSpace].  A byte that does not start a valid encoding decodes
    to [RuneError] with width one. *)

From S2P Require Import Prelude.

Definition RuneError : Z := 0xfffd.

(** ** Decoding *)

Definition within (lo hi : Z) (b : byte) : bool := (lo <=? Zb b) && (Zb b <=? hi).
Definition continuation : byte -> bool := within 0x80 0xbf.
Definition low6 (b : byte) : Z := Z.land (Zb b) 0x3f.

(** The range of the second byte of an encoding of three or four bytes. *)
Definition secondRange (b0 : byte) : Z * Z :=
  if Zb b0 =? 0xe0 then (0xa0, 0xbf)
  else if Zb b0 =? 0xed then (0x80, 0x9f)
  else if Zb b0 =? 0xf0 then (0x90, 0xbf)
  else if Zb b0 =? 0xf4 then (0x80, 0x8f)
  else (0x80, 0xbf).

Definition DecodeRune (s : bytes) : Z * nat :=
  match s with
  | [] => (RuneError, 0%nat)
  | b0 :: s =>
      let invalid := (RuneError, 1%nat) in
      let '(lo, hi) := secondRange b0 in
      if Zb b0 <? 0x80 then (Zb b0, 1%nat)
      else if within 0xc2 0xdf b0 then
        match s with
        | b1 :: _ =>
            if continuation b1 then (Z.lor (Z.shiftl (Z.land (Zb b0) 0x1f) 6) (low6 b1), 2%nat)
            else invalid
        | _ => invalid
        end
      else if within 0xe0 0xef b0 then
        match s with
        | b1 :: b2 :: _ =>
            if within lo hi b1 && continuation b2 then
              (Z.lor (Z.shiftl (Z.land (Zb b0) 0x0f) 12) (Z.lor (Z.shiftl (low6 b1) 6) (low6 b2)), 3%nat)
            else invalid
        | _ => invalid
        end
      else if within 0xf0 0xf4 b0 then
        match s with
        | b1 :: b2 :: b3 :: _ =>
            if within lo hi b1 && continuation b2 && continuation b3 then
              (Z.lor (Z.shiftl (Z.land (Zb b0) 0x07) 18)
                 (Z.lor (Z.shiftl (low6 b1) 12) (Z.lor (Z.shiftl (low6 b2) 6) (low6 b3))), 4%nat)
            else invalid
        | _ => invalid
        end
      else invalid
  end.

(** [DecodeLastRune]: from at most four bytes before the end, the nearest one
    that starts a rune, if the rune it starts ends at the end. *)
Definition startsRune (b : byte) : bool := negb (continuation b).
Fixpoint lastStart (limit : nat) (position : nat) (s : bytes) : nat :=
  match limit, position with
  | S limit, S position =>
      match s !! position with
      | Some b => if startsRune b then position else lastStart limit position s
      | None => position
      end
  | _, _ => position
  end.
Definition DecodeLastRune (s : bytes) : Z * nat :=
  match s with
  | [] => (RuneError, 0%nat)
  | _ =>
      let end_ := length s in
      let start := lastStart 4 end_ s in
      let '(r, size) := DecodeRune (drop start s) in
      if (start + size =? end_)%nat then (r, size) else (RuneError, 1%nat)
  end.

(** The runes of a string, each with its width; the fuel is the length. *)
Fixpoint runesFrom (fuel : nat) (s : bytes) : list (Z * nat) :=
  match fuel, s with
  | S fuel, _ :: _ => let '(r, size) := DecodeRune s in (r, size) :: runesFrom fuel (drop size s)
  | _, _ => []
  end.
Definition runes (s : bytes) : list (Z * nat) := runesFrom (length s) s.
Definition Valid (s : bytes) : bool :=
  forallb (fun '(r, size) => negb ((r =? RuneError) && (size =? 1)%nat)) (runes s).

(** ** Encoding *)

Definition AppendRune (s : bytes) (r : Z) : bytes :=
  let r := if (r <? 0) || (0x10ffff <? r) || (0xd800 <=? r) && (r <=? 0xdfff) then RuneError else r in
  let tail (shift : Z) := byt (0x80 + Z.land (Z.shiftr r shift) 0x3f) in
  s ++
  (if r <=? 0x7f then [byt r]
   else if r <=? 0x7ff then [byt (0xc0 + Z.shiftr r 6); tail 0]
   else if r <=? 0xffff then [byt (0xe0 + Z.shiftr r 12); tail 6; tail 0]
   else [byt (0xf0 + Z.shiftr r 18); tail 12; tail 6; tail 0]).

(** ** [strings.TrimSpace] *)

Definition IsSpace (r : Z) : bool :=
  (9 <=? r) && (r <=? 13) || (r =? 0x20) || (r =? 0x85) || (r =? 0xa0) || (r =? 0x1680) ||
  (0x2000 <=? r) && (r <=? 0x200a) || (r =? 0x2028) || (r =? 0x2029) || (r =? 0x202f) ||
  (r =? 0x205f) || (r =? 0x3000).
Fixpoint trimLeft (fuel : nat) (s : bytes) : bytes :=
  match fuel, s with
  | S fuel, _ :: _ =>
      let '(r, size) := DecodeRune s in if IsSpace r then trimLeft fuel (drop size s) else s
  | _, _ => s
  end.
Fixpoint trimRight (fuel : nat) (s : bytes) : bytes :=
  match fuel, s with
  | S fuel, _ :: _ =>
      let '(r, size) := DecodeLastRune s in
      if IsSpace r then trimRight fuel (take (length s - size) s) else s
  | _, _ => s
  end.
Definition TrimSpace (s : bytes) : bytes :=
  let s := trimLeft (length s) s in trimRight (length s) s.

Example utf8_examples :
  DecodeRune [xe2; x82; xac; x41] = (0x20ac, 3%nat) /\ AppendRune [] 0x1f600 = [xf0; x9f; x98; x80] /\
  Valid [xc3; xa9; x41] = true /\ Valid [xed; xa0; x80] = false /\ Valid [xc0; x80] = false /\
  DecodeLastRune [x41; xc3; xa9] = (0xe9, 2%nat) /\ DecodeLastRune [x41; xa9] = (RuneError, 1%nat) /\
  TrimSpace [x20; x09; x41; x20; x42; xc2; xa0; x20] = [x41; x20; x42].
Proof. vm_compute. split_and!; reflexivity. Qed.

(** ** Ascii text *)

Definition ascii (s : bytes) : Prop := Forall (fun b => Zb b < 0x80) s.
Lemma DecodeRune_ascii b s : Zb b < 0x80 -> DecodeRune (b :: s) = (Zb b, 1%nat).
Proof.
  intros Hb. cbn [DecodeRune]. destruct (secondRange b) as [lo hi].
  by destruct (Z.ltb_spec (Zb b) 0x80); [|lia].
Qed.
Lemma DecodeRune_size s : s <> [] -> (1 <= (DecodeRune s).2)%nat.
Proof.
  destruct s as [|b0 s]; [done|]. intros _. cbn [DecodeRune].
  destruct (secondRange b0) as [lo hi].
  repeat (case_match; cbn; try lia).
Qed.
Lemma Valid_ascii s : ascii s -> Valid s = true.
Proof.
  unfold Valid, runes. induction 1 as [|b s Hb Hs IH]; [done|].
  cbn [length runesFrom]. rewrite DecodeRune_ascii by done. cbn [drop forallb].
  rewrite drop_0, IH, andb_true_r. unfold RuneError. pose proof (Zb_range b).
  by destruct (Z.eqb_spec (Zb b) 0xfffd); [lia|].
Qed.
Lemma DecodeLastRune_ascii s b : Zb b < 0x80 -> DecodeLastRune (s ++ [b]) = (Zb b, 1%nat).
Proof.
  intros Hb. unfold DecodeLastRune. destruct (s ++ [b]) as [|c t] eqn:E; [by destruct s|]. rewrite <- E. clear E c t.
  rewrite length_app. cbn [length]. rewrite Nat.add_1_r. cbn [lastStart].
  assert ((s ++ [b]) !! length s = Some b) as -> by (by apply (list_lookup_middle s [])).
  assert (startsRune b = true) as ->.
  { unfold startsRune, continuation, within. apply negb_true_iff. destruct (Z.leb_spec 0x80 (Zb b)); [lia|done]. }
  rewrite (drop_app_length s), DecodeRune_ascii by done. by rewrite Nat.add_1_r, Nat.eqb_refl.
Qed.
Lemma TrimSpace_ends a b s t :
  Zb a < 0x80 -> IsSpace (Zb a) = false -> Zb b < 0x80 -> IsSpace (Zb b) = false -> a :: s = t ++ [b] ->
  TrimSpace (a :: s) = a :: s.
Proof.
  intros Ha Ha' Hb Hb' E. unfold TrimSpace. cbn [length trimLeft]. rewrite DecodeRune_ascii, Ha' by done.
  cbn [length trimRight]. rewrite E at 1. by rewrite DecodeLastRune_ascii, Hb'.
Qed.
