(* ===== verification/Runes.v ===== *)
(** * Runes and their encodings

    A valid encoding is what its rune is encoded as: [AppendRune] inverts
    [DecodeRune], and a valid string is a sequence of such encodings. *)

From S2P Require Import Prelude Bits Utf8.

(** A rune that has an encoding: not a surrogate, and at most 0x10ffff. *)
Definition validRune (r : Z) : Prop := 0 <= r <= 0x10ffff /\ ~ (0xd800 <= r <= 0xdfff).

Lemma AppendRune_app s r : AppendRune s r = s ++ AppendRune [] r.
Proof. done. Qed.

Lemma within_spec lo hi b : within lo hi b = true <-> lo <= Zb b <= hi.
Proof. unfold within. rewrite andb_true_iff, !Z.leb_le. done. Qed.
(** The low bits of a byte above a multiple of a power of two. *)
Lemma land_offset n base b :
  0 <= n -> base mod 2 ^ n = 0 -> base <= Zb b < base + 2 ^ n -> Z.land (Zb b) (Z.ones n) = Zb b - base.
Proof.
  intros Hn Hb Hr. rewrite Z.land_ones by done. pose proof (Z.div_mod base (2 ^ n) ltac:(lia)).
  replace (Zb b) with ((Zb b - base) + base / 2 ^ n * 2 ^ n) at 1 by lia. rewrite Z.mod_add by lia. apply Z.mod_small. lia.
Qed.
Lemma low6_spec b : continuation b = true -> low6 b = Zb b - 0x80 /\ 0 <= low6 b < 64.
Proof.
  intros [H1 H2]%within_spec. assert (low6 b = Zb b - 0x80) as E by (by apply (land_offset 6 0x80 b); [|reflexivity|]; lia). lia.
Qed.
Lemma byt_offset base b z : z = Zb b - base -> byt (base + z) = b.
Proof. intros ->. rewrite Zplus_minus. apply byt_Zb. Qed.

(** Continuation bytes are what the six bits are written as. *)
Lemma tail_byte h z b : z = Zb b - 0x80 -> 0 <= z < 64 -> byt (0x80 + Z.land (joined 6 h z) 0x3f) = b.
Proof. intros Ez Hz. change 0x3f with (Z.ones 6). rewrite join_low by done. by apply byt_offset. Qed.
Lemma shift6 n h z : 0 <= n -> 0 <= z < 64 -> Z.shiftr (joined 6 h z) (n + 6) = Z.shiftr h n.
Proof. intros Hn Hz. rewrite Z.add_comm, <- Z.shiftr_shiftr by done. by rewrite join_high. Qed.

Lemma rune_two x y : Z.lor (Z.shiftl x 6) y = joined 6 x y.
Proof. done. Qed.
Lemma rune_three x y z : Z.lor (Z.shiftl x 12) (Z.lor (Z.shiftl y 6) z) = joined 6 (joined 6 x y) z.
Proof. by rewrite <- (joined_assoc 6 6) by done. Qed.
Lemma rune_four w x y z :
  Z.lor (Z.shiftl w 18) (Z.lor (Z.shiftl x 12) (Z.lor (Z.shiftl y 6) z)) = joined 6 (joined 6 (joined 6 w x) y) z.
Proof. rewrite rune_three. change (joined 18 w (joined 6 (joined 6 x y) z) = joined 6 (joined 6 (joined 6 w x) y) z).
  rewrite (joined_assoc 6 12) by done. by rewrite (joined_assoc 6 6) by done. Qed.

(** What a rune of each width is encoded as. *)
Lemma append_cases r :
  validRune r ->
  AppendRune [] r =
  if r <=? 0x7f then [byt r]
  else if r <=? 0x7ff then [byt (0xc0 + Z.shiftr r 6); byt (0x80 + Z.land (Z.shiftr r 0) 0x3f)]
  else if r <=? 0xffff then
    [byt (0xe0 + Z.shiftr r (6 + 6)); byt (0x80 + Z.land (Z.shiftr r (0 + 6)) 0x3f); byt (0x80 + Z.land (Z.shiftr r 0) 0x3f)]
  else [byt (0xf0 + Z.shiftr r (12 + 6)); byt (0x80 + Z.land (Z.shiftr r (6 + 6)) 0x3f); byt (0x80 + Z.land (Z.shiftr r (0 + 6)) 0x3f);
        byt (0x80 + Z.land (Z.shiftr r 0) 0x3f)].
Proof.
  intros [Hr Hs]. unfold AppendRune.
  assert ((r <? 0) || (0x10ffff <? r) || (0xd800 <=? r) && (r <=? 0xdfff) = false) as ->; [|done].
  rewrite !orb_false_iff, andb_false_iff, !Z.ltb_ge, !Z.leb_gt. lia.
Qed.

(** A rune whose decoding did not fail. *)
Lemma decode_valid s r size :
  DecodeRune s = (r, size) -> s <> [] -> (r =? RuneError) && (size =? 1)%nat = false ->
  validRune r /\ AppendRune [] r = take size s /\ (1 <= size <= length s)%nat /\
  (r < 0x80 <-> size = 1%nat) /\ (forall c rest, s = c :: rest -> r < 0x80 <-> Zb c < 0x80).
Proof.
  destruct s as [|b0 s]; [done|]. cbn [DecodeRune]. intros Hd _ Hok. pose proof (Zb_range b0) as Hb0.
  assert (forall P : Prop, (RuneError, 1%nat) = (r, size) -> P) as Hbad by (intros P [= <- <-]; done).
  assert (forall c rest, b0 :: s = c :: rest -> c = b0) as Hhead by (by intros c rest [= -> _]).
  destruct (secondRange b0) as [lo hi] eqn:Esec.
  destruct (Z.ltb_spec (Zb b0) 0x80) as [Hlt|Hge].
  { injection Hd as <- <-. split; [split; lia|]. split.
    - rewrite append_cases by (split; lia). rewrite (proj2 (Z.leb_le _ 0x7f)) by lia. cbn. by rewrite byt_Zb.
    - cbn [length]. split; [lia|]. split; [lia|]. intros c rest E. by rewrite (Hhead _ _ E). }
  destruct (within 0xc2 0xdf b0) eqn:H2.
  { apply within_spec in H2. destruct s as [|b1 s]; [by apply Hbad|]. destruct (continuation b1) eqn:Hc1; [|by apply Hbad].
    injection Hd as <- <-. apply low6_spec in Hc1 as [E1 R1]. rewrite rune_two.
    assert (Z.land (Zb b0) 0x1f = Zb b0 - 0xc0) as E0 by (apply (land_offset 5 0xc0 b0); [done|reflexivity|lia]).
    set (h := Z.land (Zb b0) 0x1f) in *. assert (joined 6 h (low6 b1) = h * 64 + low6 b1) as Ev by (by apply join_add).
    assert (validRune (joined 6 h (low6 b1))) as Hv by (split; lia). split; [exact Hv|]. split.
    - rewrite append_cases by exact Hv. rewrite (proj2 (Z.leb_gt _ 0x7f)), (proj2 (Z.leb_le _ 0x7ff)) by lia. cbn [take].
      rewrite Z.shiftr_0_r, join_high by done. f_equal; [by apply byt_offset|]. f_equal. by apply tail_byte.
    - cbn [length]. split; [lia|]. split; [lia|]. intros c rest E. rewrite (Hhead _ _ E). lia. }
  destruct (within 0xe0 0xef b0) eqn:H3.
  { apply within_spec in H3. destruct s as [|b1 [|b2 s]]; [by apply Hbad..|]. destruct (within lo hi b1 && continuation b2) eqn:Hc; [|by apply Hbad].
    apply andb_true_iff in Hc as [Hc1%within_spec Hc2]. injection Hd as <- <-. rewrite rune_three.
    assert (0x80 <= lo /\ hi <= 0xbf /\ (Zb b0 = 0xe0 -> 0xa0 <= lo) /\ (Zb b0 = 0xed -> hi <= 0x9f)) as (Hlo & Hhi & He0 & Hed).
    { unfold secondRange in Esec. repeat (case_match; bool_props); simplify_eq; lia. }
    apply low6_spec in Hc2 as [E2 R2]. assert (continuation b1 = true) as Hc1' by (apply within_spec; lia). apply low6_spec in Hc1' as [E1 R1].
    assert (Z.land (Zb b0) 0x0f = Zb b0 - 0xe0) as E0 by (apply (land_offset 4 0xe0 b0); [done|reflexivity|lia]).
    set (h := Z.land (Zb b0) 0x0f) in *. assert (joined 6 h (low6 b1) = h * 64 + low6 b1) as Ev1 by (by apply join_add).
    assert (joined 6 (joined 6 h (low6 b1)) (low6 b2) = (h * 64 + low6 b1) * 64 + low6 b2) as Ev by (rewrite join_add by done; by rewrite Ev1).
    assert (validRune (joined 6 (joined 6 h (low6 b1)) (low6 b2))) as Hv by (split; lia). split; [exact Hv|]. split.
    - rewrite append_cases by exact Hv. rewrite (proj2 (Z.leb_gt _ 0x7f)), (proj2 (Z.leb_gt _ 0x7ff)), (proj2 (Z.leb_le _ 0xffff)) by lia.
      cbn [take]. rewrite !shift6, !Z.shiftr_0_r, join_high by done. f_equal; [by apply byt_offset|]. f_equal; [by apply tail_byte|]. f_equal. by apply tail_byte.
    - cbn [length]. split; [lia|]. split; [lia|]. intros c rest E. rewrite (Hhead _ _ E). lia. }
  destruct (within 0xf0 0xf4 b0) eqn:H4; [|by apply Hbad].
  apply within_spec in H4. destruct s as [|b1 [|b2 [|b3 s]]]; [by apply Hbad..|].
  destruct (within lo hi b1 && continuation b2 && continuation b3) eqn:Hc; [|by apply Hbad].
  apply andb_true_iff in Hc as [[Hc1%within_spec Hc2]%andb_true_iff Hc3]. injection Hd as <- <-. rewrite rune_four.
  assert (0x80 <= lo /\ hi <= 0xbf /\ (Zb b0 = 0xf0 -> 0x90 <= lo) /\ (Zb b0 = 0xf4 -> hi <= 0x8f)) as (Hlo & Hhi & Hf0 & Hf4).
  { unfold secondRange in Esec. repeat (case_match; bool_props); simplify_eq; lia. }
  apply low6_spec in Hc2 as [E2 R2], Hc3 as [E3 R3]. assert (continuation b1 = true) as Hc1' by (apply within_spec; lia).
  apply low6_spec in Hc1' as [E1 R1].
  assert (Z.land (Zb b0) 0x07 = Zb b0 - 0xf0) as E0 by (apply (land_offset 3 0xf0 b0); [done|reflexivity|lia]).
  set (h := Z.land (Zb b0) 0x07) in *. assert (joined 6 h (low6 b1) = h * 64 + low6 b1) as Ev1 by (by apply join_add).
  assert (joined 6 (joined 6 h (low6 b1)) (low6 b2) = (h * 64 + low6 b1) * 64 + low6 b2) as Ev2 by (rewrite join_add by done; by rewrite Ev1).
  set (u := joined 6 (joined 6 h (low6 b1)) (low6 b2)) in *.
  assert (joined 6 u (low6 b3) = u * 64 + low6 b3) as Ev by (by apply join_add).
  assert (validRune (joined 6 u (low6 b3))) as Hv by (split; lia). split; [exact Hv|]. split.
  - rewrite append_cases by exact Hv.
    rewrite (proj2 (Z.leb_gt _ 0x7f)), (proj2 (Z.leb_gt _ 0x7ff)), (proj2 (Z.leb_gt _ 0xffff)) by lia. cbn [take].
    rewrite !shift6, !Z.shiftr_0_r by done. unfold u. change 12 with (6 + 6). rewrite !shift6, !join_high by done.
    f_equal; [by apply byt_offset|]. f_equal; [by apply tail_byte|]. f_equal; [by apply tail_byte|]. f_equal. by apply tail_byte.
  - cbn [length]. split; [lia|]. split; [lia|]. intros c rest E. rewrite (Hhead _ _ E). lia.
Qed.

(** The bytes that follow do not matter. *)
Lemma decode_prefix s r size rest :
  DecodeRune s = (r, size) -> s <> [] -> (r =? RuneError) && (size =? 1)%nat = false -> DecodeRune (take size s ++ rest) = (r, size).
Proof.
  destruct s as [|b0 s]; [done|]. cbn [DecodeRune]. intros Hd _ Hok.
  assert (forall P : Prop, (RuneError, 1%nat) = (r, size) -> P) as Hbad by (intros P [= <- <-]; done).
  destruct (secondRange b0) as [lo hi] eqn:Esec.
  destruct (Zb b0 <? 0x80) eqn:H1; [injection Hd as <- <-; cbn [take app DecodeRune]; by rewrite Esec, H1|].
  destruct (within 0xc2 0xdf b0) eqn:H2.
  { destruct s as [|b1 s]; [by apply Hbad|]. destruct (continuation b1) eqn:Hc1; [|by apply Hbad]. injection Hd as <- <-.
    cbn [take app DecodeRune]. by rewrite Esec, H1, H2, Hc1. }
  destruct (within 0xe0 0xef b0) eqn:H3.
  { destruct s as [|b1 [|b2 s]]; [by apply Hbad..|]. destruct (within lo hi b1 && continuation b2) eqn:Hc; [|by apply Hbad].
    injection Hd as <- <-. cbn [take app DecodeRune]. by rewrite Esec, H1, H2, H3, Hc. }
  destruct (within 0xf0 0xf4 b0) eqn:H4; [|by apply Hbad].
  destruct s as [|b1 [|b2 [|b3 s]]]; [by apply Hbad..|].
  destruct (within lo hi b1 && continuation b2 && continuation b3) eqn:Hc; [|by apply Hbad].
  injection Hd as <- <-. cbn [take app DecodeRune]. by rewrite Esec, H1, H2, H3, H4, Hc.
Qed.

(** ** Valid strings, rune by rune *)

Lemma runesFrom_fuel m n s : (length s <= m)%nat -> (length s <= n)%nat -> runesFrom m s = runesFrom n s.
Proof.
  revert n s. induction m as [|m IH]; intros n [|c s] Hm Hn; cbn [length] in *; try lia; [by destruct n..|].
  destruct n as [|n]; [lia|]. pose proof (DecodeRune_size (c :: s) ltac:(done)) as Hsize. cbn [runesFrom].
  destruct (DecodeRune (c :: s)) as [r size]. cbn in Hsize. f_equal. apply IH; rewrite length_drop; cbn [length]; lia.
Qed.
Lemma Valid_step s r size :
  Valid s = true -> s <> [] -> DecodeRune s = (r, size) ->
  (r =? RuneError) && (size =? 1)%nat = false /\ Valid (drop size s) = true.
Proof.
  unfold Valid, runes. destruct s as [|c s]; [done|]. intros Hv _ E. cbn [length runesFrom] in Hv. rewrite E in Hv. cbn [forallb] in Hv.
  apply andb_true_iff in Hv as [Hok%negb_true_iff Hv]. split; [done|].
  pose proof (DecodeRune_size (c :: s) ltac:(done)) as Hsize. rewrite E in Hsize. cbn in Hsize.
  by rewrite (runesFrom_fuel _ (length s)) by (rewrite ?length_drop; cbn [length]; lia).
Qed.
(** Induction over the runes of a valid string. *)
Lemma valid_ind (P : bytes -> Prop) :
  P [] ->
  (forall s r size, s <> [] -> DecodeRune s = (r, size) -> (r =? RuneError) && (size =? 1)%nat = false ->
     Valid (drop size s) = true -> P (drop size s) -> P s) ->
  forall s, Valid s = true -> P s.
Proof.
  intros Hnil Hstep s. remember (length s) as n eqn:En. assert (length s <= n)%nat as Hn by lia. clear En. revert s Hn.
  induction n as [|n IH]; intros s Hn Hv; [by destruct s; [|cbn in Hn; lia]|].
  destruct (decide (s = [])) as [->|Hne]; [done|]. destruct (DecodeRune s) as [r size] eqn:E.
  destruct (Valid_step s r size Hv Hne E) as [Hok Hv']. apply (Hstep s r size); try done. apply IH; [|done].
  pose proof (DecodeRune_size s Hne) as Hsize. rewrite E in Hsize. cbn in Hsize. rewrite length_drop. destruct s; [done|]. cbn [length] in *. lia.
Qed.

(** ** Decoding an encoding *)

Lemma validRune_error : validRune RuneError.
Proof. unfold validRune, RuneError. lia. Qed.
Lemma DecodeRune_range s : validRune (DecodeRune s).1.
Proof.
  destruct (decide (s = [])) as [->|Hne]; [apply validRune_error|]. destruct (DecodeRune s) as [r size] eqn:E. cbn.
  destruct ((r =? RuneError) && (size =? 1)%nat) eqn:Hok; [|by apply (decode_valid s r size)].
  apply andb_true_iff in Hok as [->%Z.eqb_eq _]. apply validRune_error.
Qed.
(** The first byte of an encoding and the ones that follow. *)
Lemma byte_offset base n z : 0 <= n -> 0 <= z < 2 ^ n -> 0 <= base -> base mod 2 ^ n = 0 -> base + 2 ^ n <= 256 ->
  Zb (byt (base + z)) = base + z /\ Z.land (Zb (byt (base + z))) (Z.ones n) = z.
Proof.
  intros Hn Hz Hb Hm Hle. assert (Zb (byt (base + z)) = base + z) as E by (apply Zb_byt_id; lia). split; [done|].
  rewrite (land_offset n base) by (try done; lia). lia.
Qed.
Lemma low6_tail z : 0 <= z < 64 -> continuation (byt (0x80 + z)) = true /\ low6 (byt (0x80 + z)) = z.
Proof.
  intros Hz. destruct (byte_offset 0x80 6 z) as [E1 E2]; [done..|]. split; [|exact E2].
  apply within_spec. rewrite E1. lia.
Qed.
(** The tail bytes of an encoding are six bits each. *)
Lemma tail_bits r n : continuation (byt (0x80 + Z.land (Z.shiftr r n) 0x3f)) = true /\ low6 (byt (0x80 + Z.land (Z.shiftr r n) 0x3f)) = Z.land (Z.shiftr r n) 0x3f.
Proof. apply low6_tail. apply (low_bound 6). done. Qed.
Lemma bits6 r : 0 <= Z.land r 0x3f < 64.
Proof. by apply (low_bound 6). Qed.
Lemma rune_join r : joined 6 (Z.shiftr r 6) (Z.land (Z.shiftr r 0) 0x3f) = r.
Proof. rewrite Z.shiftr_0_r. by apply (join_parts 6). Qed.
Lemma rune_join_at r n : 0 <= n -> joined 6 (Z.shiftr r (n + 6)) (Z.land (Z.shiftr r n) 0x3f) = Z.shiftr r n.
Proof. intros Hn. rewrite <- (Z.shiftr_shiftr r n 6) by done. by apply (join_parts 6). Qed.
Lemma shiftr_bounds r n m lo hi : 0 <= n -> m = 2 ^ n -> lo * m <= r -> r < (hi + 1) * m -> lo <= Z.shiftr r n <= hi.
Proof.
  intros Hn -> Hlo Hhi. rewrite Z.shiftr_div_pow2 by done. pose proof (Z.pow_pos_nonneg 2 n ltac:(done) Hn).
  split; [apply Z.div_le_lower_bound; lia|]. apply Z.lt_succ_r, Z.div_lt_upper_bound; lia.
Qed.
Lemma decode_three r rest :
  validRune r -> 0x7ff < r <= 0xffff ->
  DecodeRune ([byt (0xe0 + Z.shiftr r (6 + 6)); byt (0x80 + Z.land (Z.shiftr r (0 + 6)) 0x3f); byt (0x80 + Z.land (Z.shiftr r 0) 0x3f)] ++ rest) =
  (r, 3%nat).
Proof.
  intros [Hr Hs] Hsize.
  destruct (shiftr_bounds r (6 + 6) 4096 0 15) as [L1 L2]; [done|done|lia|lia|].
  destruct (byte_offset 0xe0 4 (Z.shiftr r (6 + 6))) as [E0 E1]; [done|cbn; lia|done|done|done|].
  destruct (tail_bits r 0) as [C0 T0]. destruct (tail_bits r (0 + 6)) as [C1 T1]. cbn [app length].
  set (b0 := byt (0xe0 + _)) in *. set (b1 := byt (0x80 + Z.land (Z.shiftr r (0 + 6)) 0x3f)) in *. set (b2 := byt (0x80 + _)) in *.
  assert (Zb b1 = 0x80 + Z.land (Z.shiftr r 6) 0x3f) as V1.
  { unfold b1. change (0 + 6) with 6. apply Zb_byt_id. pose proof (bits6 (Z.shiftr r 6)). lia. }
  pose proof (join_add 6 (Z.shiftr r (6 + 6)) (Z.land (Z.shiftr r 6) 0x3f) ltac:(done) (low_bound 6 _ ltac:(done))) as J.
  rewrite (rune_join_at r 6) in J by done. pose proof (bits6 (Z.shiftr r 6)) as Hlow.
  destruct (shiftr_bounds r 6 64 32 1023) as [M1 M2]; [done|done|lia|lia|].
  assert (~ (0x360 <= Z.shiftr r 6 <= 0x37f)) as Hsur.
  { rewrite Z.shiftr_div_pow2 by done. pose proof (Z.div_mod r (2 ^ 6)). pose proof (Z.mod_pos_bound r (2 ^ 6)). lia. }
  cbn [DecodeRune]. destruct (secondRange b0) as [lo hi] eqn:Esec.
  assert (within lo hi b1 = true) as W1.
  { apply within_spec. unfold secondRange in Esec. rewrite E0 in Esec. repeat (case_match; bool_props); simplify_eq; lia. }
  rewrite (proj2 (Z.ltb_ge _ _)) by lia.
  assert (within 0xc2 0xdf b0 = false) as ->.
  { destruct (within 0xc2 0xdf b0) eqn:Ew; [|done]. apply within_spec in Ew. lia. }
  rewrite (proj2 (within_spec _ _ b0)) by lia. rewrite W1, C0, T0, T1. cbn [andb]. change 0x0f with (Z.ones 4). rewrite E1, rune_three.
  change (0 + 6) with 6. rewrite (rune_join_at r 6) by done. by rewrite rune_join.
Qed.
Lemma decode_four r rest :
  validRune r -> 0xffff < r ->
  DecodeRune ([byt (0xf0 + Z.shiftr r (12 + 6)); byt (0x80 + Z.land (Z.shiftr r (6 + 6)) 0x3f); byt (0x80 + Z.land (Z.shiftr r (0 + 6)) 0x3f);
               byt (0x80 + Z.land (Z.shiftr r 0) 0x3f)] ++ rest) = (r, 4%nat).
Proof.
  intros [Hr Hs] Hsize.
  destruct (shiftr_bounds r (12 + 6) 262144 0 4) as [L1 L2]; [done|done|lia|lia|].
  destruct (byte_offset 0xf0 3 (Z.shiftr r (12 + 6))) as [E0 E1]; [done|cbn; lia|done|done|done|].
  destruct (tail_bits r 0) as [C0 T0]. destruct (tail_bits r (0 + 6)) as [C1 T1]. destruct (tail_bits r (6 + 6)) as [C2 T2]. cbn [app length].
  set (b0 := byt (0xf0 + _)) in *. set (b1 := byt (0x80 + Z.land (Z.shiftr r (6 + 6)) 0x3f)) in *.
  set (b2 := byt (0x80 + Z.land (Z.shiftr r (0 + 6)) 0x3f)) in *. set (b3 := byt (0x80 + _)) in *.
  assert (Zb b1 = 0x80 + Z.land (Z.shiftr r 12) 0x3f) as V1.
  { unfold b1. change (6 + 6) with 12. apply Zb_byt_id. pose proof (bits6 (Z.shiftr r 12)). lia. }
  pose proof (join_add 6 (Z.shiftr r (12 + 6)) (Z.land (Z.shiftr r 12) 0x3f) ltac:(done) (low_bound 6 _ ltac:(done))) as J.
  rewrite (rune_join_at r 12) in J by done. pose proof (bits6 (Z.shiftr r 12)) as Hlow.
  destruct (shiftr_bounds r 12 4096 16 271) as [M1 M2]; [done|done|lia|lia|].
  cbn [DecodeRune]. destruct (secondRange b0) as [lo hi] eqn:Esec.
  assert (within lo hi b1 = true) as W1.
  { apply within_spec. unfold secondRange in Esec. rewrite E0 in Esec. repeat (case_match; bool_props); simplify_eq; lia. }
  rewrite (proj2 (Z.ltb_ge _ _)) by lia.
  assert (within 0xc2 0xdf b0 = false) as ->.
  { destruct (within 0xc2 0xdf b0) eqn:Ew; [|done]. apply within_spec in Ew. lia. }
  assert (within 0xe0 0xef b0 = false) as ->.
  { destruct (within 0xe0 0xef b0) eqn:Ew; [|done]. apply within_spec in Ew. lia. }
  rewrite (proj2 (within_spec _ _ b0)) by lia. rewrite W1, C0, C1, T0, T1, T2. cbn [andb]. change 0x07 with (Z.ones 3). rewrite E1, rune_four.
  change (0 + 6) with 6. change (6 + 6) with 12. rewrite (rune_join_at r 12) by done. change 12 with (6 + 6).
  rewrite (rune_join_at r 6) by done. by rewrite rune_join.
Qed.
Lemma decode_append r rest : validRune r -> DecodeRune (AppendRune [] r ++ rest) = (r, length (AppendRune [] r)).
Proof.
  intros Hv. pose proof Hv as [Hr Hs]. rewrite append_cases by done.
  destruct (Z.leb_spec r 0x7f).
  { cbn [app length]. rewrite DecodeRune_ascii; rewrite Zb_byt_id; lia || done. }
  destruct (Z.leb_spec r 0x7ff).
  { destruct (shiftr_bounds r 6 64 2 31) as [L1 L2]; [done|done|lia|lia|]. destruct (byte_offset 0xc0 5 (Z.shiftr r 6)) as [E0 E1]; [done|cbn; lia|done|done|done|].
    destruct (tail_bits r 0) as [C0 T0]. cbn [app length]. set (b0 := byt (0xc0 + _)) in *. set (b1 := byt (0x80 + _)) in *.
    cbn [DecodeRune]. destruct (secondRange b0). rewrite (proj2 (Z.ltb_ge _ _)) by lia. rewrite (proj2 (within_spec _ _ b0)) by lia.
    rewrite C0, T0. change 0x1f with (Z.ones 5). rewrite E1, rune_two, rune_join. done. }
  destruct (Z.leb_spec r 0xffff); [by apply decode_three|by apply decode_four].
Qed.
