(* ===== verification/Base64.v ===== *)
(** * Base64

    [encoding/base64]'s [StdEncoding] as the wallet writes it, and the lenient
    decoder of [wallet/crypt.go], CPython's state machine: it skips what is not a
    digit and stops at the padding that completes a group. *)

From S2P Require Import Prelude Bits.

(** ** Encoding *)

Definition base64Digit (d : Z) : byte :=
  if d <? 26 then byt (65 + d) else if d <? 52 then byt (71 + d) else if d <? 62 then byt (d - 4)
  else if d =? 62 then x2b else x2f.
Fixpoint base64Encode (s : bytes) : bytes :=
  match s with
  | a :: b :: c :: s =>
      base64Digit (Z.shiftr (Zb a) 2) :: base64Digit (Z.lor (Z.shiftl (Z.land (Zb a) 3) 4) (Z.shiftr (Zb b) 4)) ::
      base64Digit (Z.lor (Z.shiftl (Z.land (Zb b) 15) 2) (Z.shiftr (Zb c) 6)) :: base64Digit (Z.land (Zb c) 63) ::
      base64Encode s
  | [a; b] =>
      [base64Digit (Z.shiftr (Zb a) 2); base64Digit (Z.lor (Z.shiftl (Z.land (Zb a) 3) 4) (Z.shiftr (Zb b) 4));
       base64Digit (Z.shiftl (Z.land (Zb b) 15) 2); x3d]
  | [a] => [base64Digit (Z.shiftr (Zb a) 2); base64Digit (Z.shiftl (Z.land (Zb a) 3) 4); x3d; x3d]
  | [] => []
  end.

(** ** Decoding *)

Definition ErrBase64Count : string := "invalid base64 data: data character count is 1 more than a multiple of 4".
Definition ErrBase64Padding : string := "invalid base64 data: incorrect padding".
Definition pythonBase64Digit (value : byte) : option Z :=
  let v := Zb value in
  if (65 <=? v) && (v <=? 90) then Some (v - 65)
  else if (97 <=? v) && (v <=? 122) then Some (v - 97 + 26)
  else if (48 <=? v) && (v <=? 57) then Some (v - 48 + 52)
  else if v =? 43 then Some 62
  else if v =? 47 then Some 63
  else None.
(** The loop over the input, with [decoded], [quadPosition], [left] and [pads]. *)
Fixpoint decodeLoop (decoded : bytes) (quadPosition left pads : Z) (encoded : bytes) : res bytes :=
  match encoded with
  | [] =>
      if quadPosition =? 0 then Ok decoded
      else if quadPosition =? 1 then Err ErrBase64Count
      else Err ErrBase64Padding
  | value :: encoded =>
      if Zb value =? 61 then
        if 2 <=? quadPosition then
          let pads := pads + 1 in
          if 4 <=? quadPosition + pads then Ok decoded else decodeLoop decoded quadPosition left pads encoded
        else decodeLoop decoded quadPosition left pads encoded
      else
        match pythonBase64Digit value with
        | None => decodeLoop decoded quadPosition left pads encoded
        | Some digit =>
            if quadPosition =? 0 then decodeLoop decoded 1 digit 0 encoded
            else if quadPosition =? 1 then
              decodeLoop (decoded ++ [byt (Z.lor (Z.shiftl left 2) (Z.shiftr digit 4))]) 2 (Z.land digit 15) 0 encoded
            else if quadPosition =? 2 then
              decodeLoop (decoded ++ [byt (Z.lor (Z.shiftl left 4) (Z.shiftr digit 2))]) 3 (Z.land digit 3) 0 encoded
            else decodeLoop (decoded ++ [byt (Z.lor (Z.shiftl left 6) digit)]) 0 0 0 encoded
        end
  end.
Definition decodePythonBase64 (encoded : bytes) : res bytes := decodeLoop [] 0 0 0 encoded.

(** ** Decoding inverts encoding *)

Lemma digit_ranges d :
  0 <= d < 64 ->
  (d < 26 /\ Zb (base64Digit d) = 65 + d) \/ (26 <= d < 52 /\ Zb (base64Digit d) = 71 + d) \/
  (52 <= d < 62 /\ Zb (base64Digit d) = d - 4) \/ (d = 62 /\ Zb (base64Digit d) = 43) \/ (d = 63 /\ Zb (base64Digit d) = 47).
Proof.
  intros Hd. unfold base64Digit. destruct (Z.ltb_spec d 26); [left; rewrite Zb_byt_id; lia|].
  destruct (Z.ltb_spec d 52); [right; left; rewrite Zb_byt_id; lia|].
  destruct (Z.ltb_spec d 62); [right; right; left; rewrite Zb_byt_id; lia|].
  destruct (Z.eqb_spec d 62); [by do 3 right; left|]. do 4 right. split; [lia|done].
Qed.
Lemma digit_decodes d : 0 <= d < 64 -> pythonBase64Digit (base64Digit d) = Some d /\ (Zb (base64Digit d) =? 61) = false.
Proof.
  intros Hd. pose proof (digit_ranges d Hd) as Hr. split; [|apply Z.eqb_neq; lia]. unfold pythonBase64Digit.
  destruct Hr as [[? ->]|[[? ->]|[[? ->]|[[-> ->]|[-> ->]]]]]; [| | |done..].
  all: repeat match goal with |- context [?a <=? ?b] => destruct (Z.leb_spec a b); cbn [andb]; try lia end; f_equal; lia.
Qed.
Lemma base64Digit_ascii d : 0 <= d < 64 -> Zb (base64Digit d) < 0x80.
Proof. intros Hd. pose proof (digit_ranges d Hd). lia. Qed.

(** What the decoder makes of two neighbouring digits. *)
Lemma byte_join n a : 0 <= n -> byt (joined n (Z.shiftr (Zb a) n) (Z.land (Zb a) (Z.ones n))) = a.
Proof. intros Hn. rewrite join_parts by done. apply byt_Zb. Qed.
Lemma digit_join n m a b :
  0 <= n -> 0 <= m -> n + m = 6 ->
  let d := joined m (Z.land (Zb a) (Z.ones n)) (Z.shiftr (Zb b) (8 - m)) in
  byt (joined n (Z.shiftr (Zb a) n) (Z.shiftr d m)) = a /\ Z.land d (Z.ones m) = Z.shiftr (Zb b) (8 - m) /\ 0 <= d < 64.
Proof.
  intros Hn Hm Hnm. cbv zeta. pose proof (Zb_range b).
  pose proof (part_bound (8 - m) m (Zb b) ltac:(lia) ltac:(lia) ltac:(rewrite Zplus_minus; lia)) as Hb.
  rewrite join_high, join_low by done. split; [by apply byte_join|]. split; [done|].
  replace 64 with (2 ^ (n + m)) by (by rewrite Hnm). apply join_bound; try done. by apply low_bound.
Qed.
Lemma first_join a b :
  let d := Z.lor (Z.shiftl (Z.land (Zb a) 3) 4) (Z.shiftr (Zb b) 4) in
  byt (Z.lor (Z.shiftl (Z.shiftr (Zb a) 2) 2) (Z.shiftr d 4)) = a /\ Z.land d 15 = Z.shiftr (Zb b) 4 /\ 0 <= d < 64.
Proof. by apply (digit_join 2 4 a b). Qed.
Lemma second_join b c :
  let d := Z.lor (Z.shiftl (Z.land (Zb b) 15) 2) (Z.shiftr (Zb c) 6) in
  byt (Z.lor (Z.shiftl (Z.shiftr (Zb b) 4) 4) (Z.shiftr d 2)) = b /\ Z.land d 3 = Z.shiftr (Zb c) 6 /\ 0 <= d < 64.
Proof. by apply (digit_join 4 2 b c). Qed.
Lemma ends_join c :
  byt (Z.lor (Z.shiftl (Z.shiftr (Zb c) 6) 6) (Z.land (Zb c) 63)) = c /\
  0 <= Z.shiftr (Zb c) 2 < 64 /\ 0 <= Z.land (Zb c) 63 < 64.
Proof.
  split; [by apply (byte_join 6)|]. split; [|by apply (low_bound 6)].
  pose proof (Zb_range c). by apply (part_bound 2 6).
Qed.

(** One digit is read. *)
Lemma decode_digit decoded quad left pads d rest :
  0 <= d < 64 ->
  decodeLoop decoded quad left pads (base64Digit d :: rest) =
  if quad =? 0 then decodeLoop decoded 1 d 0 rest
  else if quad =? 1 then decodeLoop (decoded ++ [byt (Z.lor (Z.shiftl left 2) (Z.shiftr d 4))]) 2 (Z.land d 15) 0 rest
  else if quad =? 2 then decodeLoop (decoded ++ [byt (Z.lor (Z.shiftl left 4) (Z.shiftr d 2))]) 3 (Z.land d 3) 0 rest
  else decodeLoop (decoded ++ [byt (Z.lor (Z.shiftl left 6) d)]) 0 0 0 rest.
Proof. intros Hd. destruct (digit_decodes d Hd) as [E Ne]. cbn [decodeLoop]. by rewrite Ne, E. Qed.

Ltac digit R := rewrite (decode_digit _ _ _ _ _ _ R); cbn [Z.eqb Pos.eqb].
Lemma decode_group acc a b c rest :
  decodeLoop acc 0 0 0 (base64Encode (a :: b :: c :: rest)) = decodeLoop (acc ++ [a; b; c]) 0 0 0 (base64Encode rest).
Proof.
  destruct (first_join a b) as (E1 & L1 & R1), (second_join b c) as (E2 & L2 & R2), (ends_join c) as (E3 & _ & R3).
  destruct (ends_join a) as (_ & R0 & _). cbn [base64Encode].
  digit R0. digit R1. digit R2. digit R3.
  rewrite E1, L1, E2, L2, E3. by rewrite <- !app_assoc.
Qed.
Lemma decode_pair acc a b : decodeLoop acc 0 0 0 (base64Encode [a; b]) = Ok (acc ++ [a; b]).
Proof.
  destruct (first_join a b) as (E1 & L1 & R1), (second_join b x00) as (E2 & _ & R2), (ends_join a) as (_ & R0 & _).
  change (Z.shiftr (Zb x00) 6) with 0 in *. rewrite Z.lor_0_r in *. cbn [base64Encode].
  digit R0. digit R1. digit R2.
  rewrite E1, L1, E2. cbn. by rewrite <- app_assoc.
Qed.
Lemma decode_single acc a : decodeLoop acc 0 0 0 (base64Encode [a]) = Ok (acc ++ [a]).
Proof.
  destruct (first_join a x00) as (E1 & _ & R1), (ends_join a) as (_ & R0 & _).
  change (Z.shiftr (Zb x00) 4) with 0 in *. rewrite Z.lor_0_r in *. cbn [base64Encode].
  digit R0. digit R1. by rewrite E1.
Qed.
Lemma decode_base64 s : decodePythonBase64 (base64Encode s) = Ok s.
Proof.
  unfold decodePythonBase64. enough (forall n s acc, (length s <= n)%nat -> decodeLoop acc 0 0 0 (base64Encode s) = Ok (acc ++ s)) as Hall
    by (by apply (Hall (length s) s [])).
  clear s. intros n. induction n as [|n IH]; intros [|a [|b [|c s]]] acc Hl; cbn [length] in Hl; try lia.
  1, 2: cbn; by rewrite app_nil_r.
  - apply decode_single.
  - apply decode_pair.
  - rewrite decode_group, IH by lia. by rewrite <- app_assoc.
Qed.

(** An encoded text is ASCII: the digits and the padding. *)
Lemma base64_ascii s : Forall (fun b => Zb b < 0x80) (base64Encode s).
Proof.
  enough (forall n s, (length s <= n)%nat -> Forall (fun b => Zb b < 0x80) (base64Encode s)) as Hall by (by apply (Hall (length s))).
  clear s. intros n. induction n as [|n IH]; intros [|a [|b [|c s]]] Hl; cbn [length] in Hl; try lia; try constructor; cbn [base64Encode].
  all: repeat (constructor; [|]); try done; try apply base64Digit_ascii.
  all: try (apply IH; lia).
  all: try apply ends_join; try apply first_join; try apply second_join.
  all: try (destruct (first_join a x00) as (_ & _ & R); change (Z.shiftr (Zb x00) 4) with 0 in R; by rewrite Z.lor_0_r in R).
  all: try (destruct (second_join b x00) as (_ & _ & R); change (Z.shiftr (Zb x00) 6) with 0 in R; by rewrite Z.lor_0_r in R).
Qed.
