(* ===== verification/AccountCrypt.v ===== *)
(** * The encryption of account secrets and of wallet envelopes

    Model of [wallet/crypt.go] and [wallet/sync_crypto.go]: AES-256 in CBC mode
    with the padding of PKCS 7, under a key that is the double hash of the
    password for a secret of an account, and under one that [scrypt] derives for
    an envelope exchanged between wallets.  [scrypt] is a third-party package and
    an interface here; what a source of random bytes yields is an argument. *)

From S2P Require Import Prelude Digest Aes Utf8 Base64.

Definition ErrInvalidAccountPassword : string := "invalid account password".
Definition ErrInvalidAccountIV : string := "invalid account initialization vector".
Definition ErrAccountUTF8 : string := "account password and value must be valid UTF-8".
Definition ErrCiphertextUTF8 : string := "account password and ciphertext must be valid UTF-8".

(** ** Padding *)

Definition padSecret (plaintext : bytes) : bytes :=
  let paddingLength := (BlockSize - length plaintext mod BlockSize)%nat in
  plaintext ++ repeat (byt (Z.of_nat paddingLength)) paddingLength.
Definition unpadSecret (invalid : string) (value : bytes) : res bytes :=
  match List.last (map Some value) None with
  | None => Err invalid
  | Some b =>
      let paddingLength := Zb b in
      if (paddingLength <? 1) || (Z.of_nat BlockSize <? paddingLength) || (blen value <? paddingLength) then Err invalid
      else
        let content := (length value - Z.to_nat paddingLength)%nat in
        if forallb (fun paddingByte => Byte.eqb paddingByte b) (drop content value) then Ok (take content value) else Err invalid
  end.
(** The whole blocks: a partial one at the end is dropped. *)
Definition wholeBlocks (ciphertext : bytes) : bytes := take (length ciphertext / BlockSize * BlockSize) ciphertext.
Definition cbcOpen (key iv ciphertext : bytes) : bytes := cbcDecrypt (length ciphertext / BlockSize) key iv ciphertext.

(** ** Secrets of an account *)

Section secrets.
Context `{Digests}.

Definition doubleSHA256 (value : bytes) : bytes := sha256 (sha256 value).
Definition unpadAccountSecret (value : bytes) : res bytes := unpadSecret ErrInvalidAccountPassword value.
(** [random] is what reading 16 random bytes answers. *)
Definition EncryptAccountSecret (random : res bytes) (password value : bytes) (initializationVector : option bytes) : res bytes :=
  iv ← match initializationVector with
       | Some iv => Ok iv
       | None => map_err (fun e => "generate account initialization vector: " ++ e)%string random
       end;
  if negb (length iv =? BlockSize)%nat then Err ErrInvalidAccountIV
  else if negb (Valid password) || negb (Valid value) then Err ErrAccountUTF8
  else
    let padded := padSecret value in
    Ok (base64Encode (iv ++ cbcEncrypt (length padded / BlockSize) (doubleSHA256 password) iv padded)).
(** The plaintext and the vector. *)
Definition DecryptAccountSecret (password encoded : bytes) : res (bytes * bytes) :=
  if negb (Valid password) || negb (Valid encoded) then Err ErrCiphertextUTF8
  else
    data ← map_err (fun e => "decode account ciphertext: " ++ e)%string (decodePythonBase64 encoded);
    if (length data <? BlockSize)%nat then Err ErrInvalidAccountIV
    else
      let iv := take BlockSize data in
      let ciphertext := wholeBlocks (drop BlockSize data) in
      plaintext ← unpadAccountSecret (cbcOpen (doubleSHA256 password) iv ciphertext);
      if negb (Valid plaintext) then Err ErrInvalidAccountPassword else Ok (plaintext, iv).
End secrets.

(** ** Envelopes *)

(** [golang.org/x/crypto/scrypt]: deterministic, and with valid parameters it
    yields a key of the length asked for. *)
Class Scrypt := {
  scryptKey : bytes -> bytes -> Z -> Z -> Z -> res bytes;  (* password, salt, N, r, p; 32 bytes *)
  scryptKey_length password salt n r p key : scryptKey password salt n r p = Ok key -> length key = 32%nat;
  scryptKey_valid password salt : exists key, scryptKey password salt 8192 16 1 = Ok key
}.

Definition ErrInvalidWalletPassword : string := "Password is invalid.".
Definition ErrInvalidSyncEnvelope : string := "invalid wallet synchronization envelope".
Definition ErrSyncUTF8 : string := "wallet synchronization password must be valid UTF-8".
Definition walletSyncScryptN : Z := Z.shiftl 1 13.
Definition walletSyncScryptR : Z := 16.
Definition walletSyncScryptP : Z := 1.

Definition padWalletSyncValue (value : bytes) : bytes := padSecret value.
Definition unpadWalletSyncValue (value : bytes) : res bytes := unpadSecret ErrInvalidWalletPassword value.

(** [strings.SplitN] by a byte; [n] is how many more times it may split. *)
Fixpoint splitLoop (separator : byte) (n : nat) (field s : bytes) : list bytes :=
  match n, s with
  | O, _ => [field ++ s]
  | _, [] => [field]
  | S m, c :: s =>
      if Byte.eqb c separator then field :: splitLoop separator m [] s else splitLoop separator n (field ++ [c]) s
  end.
Definition splitN (separator : byte) (n : nat) (s : bytes) : list bytes := splitLoop separator (pred n) [] s.
(** [strings.Trim] with the white space of Python's [bytes]. *)
Definition isBytesSpace (c : byte) : bool := (Zb c =? 32) || (9 <=? Zb c) && (Zb c <=? 13).
Fixpoint trimSpaceLeft (s : bytes) : bytes :=
  match s with c :: rest => if isBytesSpace c then trimSpaceLeft rest else s | [] => [] end.
Definition trimBytes (s : bytes) : bytes := rev (trimSpaceLeft (rev (trimSpaceLeft s))).
Definition isAsciiDigit (c : byte) : bool := (48 <=? Zb c) && (Zb c <=? 57).
(** Digits, with an underscore only between two of them. *)
Fixpoint digitsAndUnderscores (previous : option byte) (s : bytes) : bool :=
  match s with
  | [] => true
  | c :: rest =>
      (isAsciiDigit c ||
       (Zb c =? 95) && match previous, rest with
                       | Some p, next :: _ => isAsciiDigit p && isAsciiDigit next
                       | _, _ => false
                       end) && digitsAndUnderscores (Some c) rest
  end.
Definition ErrPythonBytesInt : string := "invalid literal for int()".
Definition pythonBytesDecimalInteger (value : bytes) : res Z :=
  let value := trimBytes value in
  let '(negative, digits) :=
    match value with
    | c :: rest => if Zb c =? 43 then (false, rest) else if Zb c =? 45 then (true, rest) else (false, value)
    | [] => (false, [])
    end in
  if bool_decide (digits = []) || negb (digitsAndUnderscores None digits) then Err ErrPythonBytesInt
  else
    let n := fold_left (fun n c => 10 * n + (Zb c - 48)) (List.filter (fun c => negb (Zb c =? 95)) digits) 0 in
    Ok (if negative : bool then - n else n).
Definition walletSyncScryptInteger (value : bytes) : res Z :=
  n ← map_err (fun _ => ErrInvalidSyncEnvelope) (pythonBytesDecimalInteger value);
  if (min_i64 <=? n) && (n <=? max_i64) then Ok n else Err ErrInvalidSyncEnvelope.

Section envelopes.
Context `{Scrypt}.

(** [entropy] is what reading 16 bytes answers. *)
Definition betterAESEncrypt (password value : bytes) (entropy : res bytes) : res bytes :=
  if negb (Valid password) then Err ErrSyncUTF8
  else
    iv ← map_err (fun e => "generate wallet synchronization initialization vector: " ++ e)%string entropy;
    key ← map_err (fun e => "derive wallet synchronization key: " ++ e)%string
            (scryptKey password iv walletSyncScryptN walletSyncScryptR walletSyncScryptP);
    let padded := padWalletSyncValue value in
    Ok (base64Encode (lit "s:8192:16:1:" ++ iv ++ cbcEncrypt (length padded / BlockSize) key iv padded)).
Definition BetterAESDecrypt (password encoded : bytes) : res bytes :=
  if negb (Valid password) then Err ErrSyncUTF8
  else
    decoded ← map_err (fun _ => ErrInvalidSyncEnvelope) (decodePythonBase64 encoded);
    match splitN x3a 5 decoded with
    | [_; nText; rText; pText; payload] =>
        n ← walletSyncScryptInteger nText;
        r ← walletSyncScryptInteger rText;
        p ← walletSyncScryptInteger pText;
        if (length payload <? BlockSize)%nat then Err ErrInvalidSyncEnvelope
        else
          let iv := take BlockSize payload in
          key ← map_err (fun _ => ErrInvalidSyncEnvelope) (scryptKey password iv n r p);
          unpadWalletSyncValue (cbcOpen key iv (wholeBlocks (drop BlockSize payload)))
    | _ => Err ErrInvalidSyncEnvelope
    end.
End envelopes.

(** ** Decryption inverts encryption *)

Lemma length_padSecret p : length (padSecret p) = ((length p / BlockSize + 1) * BlockSize)%nat.
Proof.
  unfold padSecret. rewrite length_app, repeat_length.
  pose proof (Nat.mod_upper_bound (length p) BlockSize ltac:(done)). pose proof (Nat.div_mod (length p) BlockSize ltac:(done)).
  unfold BlockSize in *. lia.
Qed.
Lemma unpad_pad invalid p : unpadSecret invalid (padSecret p) = Ok p.
Proof.
  unfold unpadSecret, padSecret. set (n := (BlockSize - length p mod BlockSize)%nat).
  assert (0 < n <= BlockSize)%nat as Hn.
  { pose proof (Nat.mod_upper_bound (length p) BlockSize ltac:(done)). unfold n. lia. }
  assert (List.last (map Some (p ++ repeat (byt (Z.of_nat n)) n)) None = Some (byt (Z.of_nat n))) as ->.
  { destruct n as [|n']; [lia|]. cbn [repeat]. rewrite repeat_cons, app_assoc, map_app. cbn [map]. by rewrite List.last_last. }
  unfold BlockSize in *. rewrite Zb_byt_id by lia.
  destruct (Z.ltb_spec (Z.of_nat n) 1); [lia|]. destruct (Z.ltb_spec (Z.of_nat 16) (Z.of_nat n)); [lia|].
  rewrite blen_app. unfold blen at 2. rewrite repeat_length. destruct (Z.ltb_spec (blen p + Z.of_nat n) (Z.of_nat n)); [pose proof (blen_nonneg p); lia|].
  cbn [orb]. rewrite Nat2Z.id, length_app, repeat_length, Nat.add_sub.
  rewrite drop_app_length, take_app_length.
  assert (forallb (fun b => Byte.eqb b (byt (Z.of_nat n))) (repeat (byt (Z.of_nat n)) n) = true) as ->; [|done].
  apply forallb_forall. intros b Hb%repeat_spec. subst. apply eqb_byte_refl.
Qed.
(** What was sealed is opened. *)
Lemma open_seal key iv p :
  isKey key -> isBlock iv ->
  let sealed := cbcEncrypt (length (padSecret p) / BlockSize) key iv (padSecret p) in
  wholeBlocks sealed = sealed /\ cbcOpen key iv sealed = padSecret p.
Proof.
  intros Hk Hiv. cbv zeta. set (n := (length p / BlockSize + 1)%nat).
  assert (length (padSecret p) = (n * BlockSize)%nat) as Hl by apply length_padSecret. rewrite Hl, Nat.div_mul by done.
  destruct (cbc_roundtrip n key iv (padSecret p) Hk Hiv Hl) as [E Hc]. unfold wholeBlocks, cbcOpen.
  rewrite Hc, Nat.div_mul by done. split; [|done]. apply take_ge. lia.
Qed.

Theorem secret_roundtrip `{Digests} random password value iv :
  Valid password = true -> Valid value = true -> length iv = BlockSize ->
  exists encoded, EncryptAccountSecret random password value (Some iv) = Ok encoded /\
    DecryptAccountSecret password encoded = Ok (value, iv).
Proof.
  intros Hp Hv Hiv. unfold EncryptAccountSecret. cbn [mbind res_bind]. rewrite Hiv, Nat.eqb_refl, Hp, Hv. cbn [negb orb].
  eexists. split; [done|]. unfold DecryptAccountSecret. rewrite Hp, Valid_ascii by apply base64_ascii. cbn [negb orb].
  rewrite decode_base64. cbn [map_err mbind res_bind]. set (sealed := cbcEncrypt _ _ _ _).
  destruct (Nat.ltb_spec (length (iv ++ sealed)) BlockSize) as [Hlt|_]; [rewrite length_app in Hlt; lia|].
  rewrite (take_app_at iv), (drop_app_at iv) by done.
  destruct (open_seal (doubleSHA256 password) iv value) as [E1 E2]; [right; apply sha256_length|done|].
  fold sealed in E1, E2. rewrite E1, E2. unfold unpadAccountSecret. rewrite unpad_pad. cbn [mbind res_bind]. by rewrite Hv.
Qed.

Lemma splitN_field separator n field s rest :
  Forall (fun c => Byte.eqb c separator = false) field ->
  splitLoop separator (S n) s (field ++ separator :: rest) = (s ++ field) :: splitLoop separator n [] rest.
Proof.
  intros Hf. revert s. induction Hf as [|c field Hc _ IH]; intros s; cbn [app splitLoop].
  - by rewrite eqb_byte_refl, app_nil_r.
  - rewrite Hc, IH. by rewrite <- app_assoc.
Qed.
Lemma splitN_rest separator s : splitLoop separator 0 [] s = [s].
Proof. by destruct s. Qed.
Theorem envelope_roundtrip `{Scrypt} password value iv :
  Valid password = true -> length iv = BlockSize ->
  exists envelope, betterAESEncrypt password value (Ok iv) = Ok envelope /\ Forall (fun c => Zb c < 0x80) envelope /\
    BetterAESDecrypt password envelope = Ok value.
Proof.
  intros Hp Hiv. unfold betterAESEncrypt. rewrite Hp. cbn [negb map_err mbind res_bind].
  destruct (scryptKey_valid password iv) as [key Ek]. change (scryptKey password iv walletSyncScryptN walletSyncScryptR walletSyncScryptP) with (scryptKey password iv 8192 16 1).
  rewrite Ek. cbn [map_err mbind res_bind].
  eexists. split; [done|]. split; [apply base64_ascii|]. unfold BetterAESDecrypt. rewrite Hp. cbn [negb].
  rewrite decode_base64. cbn [map_err mbind res_bind]. set (sealed := cbcEncrypt _ _ _ _).
  change (lit "s:8192:16:1:" ++ iv ++ sealed) with
    (lit "s" ++ x3a :: lit "8192" ++ x3a :: lit "16" ++ x3a :: lit "1" ++ x3a :: (iv ++ sealed)).
  unfold splitN. cbn [pred]. rewrite !splitN_field by (repeat constructor). rewrite splitN_rest. cbn [app].
  change (walletSyncScryptInteger (lit "8192")) with (Ok 8192). change (walletSyncScryptInteger (lit "16")) with (Ok 16).
  change (walletSyncScryptInteger (lit "1")) with (Ok 1). cbn [mbind res_bind].
  destruct (Nat.ltb_spec (length (iv ++ sealed)) BlockSize) as [Hlt|_]; [rewrite length_app in Hlt; lia|].
  rewrite (take_app_at iv), (drop_app_at iv) by done. rewrite Ek. cbn [map_err mbind res_bind].
  destruct (open_seal key iv value) as [E1 E2]; [right; by eapply scryptKey_length|done|].
  change (wholeBlocks sealed = sealed) in E1. change (cbcOpen key iv sealed = padSecret value) in E2.
  rewrite E1, E2. apply unpad_pad.
Qed.
