(* ===== verification/Base58.v ===== *)
(** * Base58

    Model of the codecs of [wallet/keys/base58.go] and [dht/identity.go].  They
    differ on an all-zero value: the wallet's decoder returns one byte more than
    was encoded, as the Python helper it follows does.  [big.Int] is [Z];
    [SetBytes] is [be_value] and [Bytes] is [bigBytes]. *)

From S2P Require Import Prelude Digest.

Definition base58Alphabet : bytes :=
  lit "123456789ABCDEFGHJKLMNPQRSTUVWXYZabcdefghijkmnopqrstuvwxyz".
Definition zeroDigit : byte := "1"%byte.
Definition alphabetAt (d : Z) : byte := nth (Z.to_nat d) base58Alphabet zeroDigit.

(** [strings.IndexByte(base58Alphabet, c)] *)
Fixpoint indexByte (l : bytes) (c : byte) : option Z :=
  match l with
  | [] => None
  | x :: l => if Byte.eqb x c then Some 0 else option_map (Z.add 1) (indexByte l c)
  end.

(** [big.Int.Bytes]: big-endian, no leading zero byte. *)
Definition byteLength (n : Z) : nat := if n <=? 0 then 0 else Z.to_nat (Z.log2 n / 8 + 1).
Definition bigBytes (n : Z) : bytes := be_bytes (byteLength n) n.

(** How many of the first elements are [b]. *)
Fixpoint leading (b : byte) (l : bytes) : nat :=
  match l with
  | x :: l => if Byte.eqb x b then S (leading b l) else 0
  | [] => 0
  end.

(** The digits of a number, the last one first: the [QuoRem] loop. *)
Fixpoint encodeDigits (fuel : nat) (n : Z) : bytes :=
  match fuel with
  | O => []
  | S fuel => if 0 <? n then alphabetAt (n mod 58) :: encodeDigits fuel (n / 58) else []
  end.
(** Two digits for a byte are enough: [256 < 58 * 58]. *)
Definition digitFuel (value : bytes) : nat := 2 * length value.

Fixpoint decodeNumber (number : Z) (encoded : bytes) : res Z :=
  match encoded with
  | [] => Ok number
  | c :: encoded =>
      match indexByte base58Alphabet c with
      | None => Err "invalid base58 character"
      | Some digit => decodeNumber (number * 58 + digit) encoded
      end
  end.

(** ** [wallet/keys/base58.go] *)

Definition encodeBase58 (value : bytes) : bytes :=
  let digits := encodeDigits (digitFuel value) (be_value value) in
  rev (digits ++ repeat zeroDigit (leading x00 value)).
Definition decodeBase58 (encoded : bytes) : res bytes :=
  match encoded with
  | [] => Err "base58 string cannot be empty"
  | _ =>
      integer ← decodeNumber 0 encoded;
      let decoded := if integer =? 0 then [x00] else bigBytes integer in
      match leading zeroDigit encoded with
      | O => Ok decoded
      | leadingZeroes => Ok (repeat x00 leadingZeroes ++ decoded)
      end
  end.

Section digests.
Context `{Digests}.

Definition Hash160 (value : bytes) : bytes := ripemd160 (sha256 value).
Definition checksum (payload : bytes) : bytes := take 4 (sha256 (sha256 payload)).
Definition EncodeBase58Check (payload : bytes) : bytes := encodeBase58 (payload ++ checksum payload).
Definition DecodeBase58Check (encoded : bytes) : res bytes :=
  decoded ← decodeBase58 encoded;
  if blen decoded <? 4 then Err "invalid base58 checksum"
  else
    let payload := take (length decoded - 4) decoded in
    if bool_decide (drop (length decoded - 4) decoded = checksum payload) then Ok payload
    else Err "invalid base58 checksum".
End digests.

(** ** [dht/identity.go] *)

Definition HashSize : nat := 48.
Definition encodeNodeIDBase58 (value : bytes) : bytes :=
  let leadingZeroes := leading x00 value in
  rev (encodeDigits (digitFuel value) (be_value value) ++ repeat zeroDigit leadingZeroes).
Definition decodeNodeIDBase58 (value : bytes) : res bytes :=
  number ← decodeNumber 0 value;
  Ok (repeat x00 (leading zeroDigit value) ++ bigBytes number).

Example base58_examples :
  map encodeBase58 [lit "Hello World!"; [x00; x00; x01]; []] = [lit "2NEpo7TZRRrLZSi2U"; lit "112"; []] /\
  decodeBase58 (lit "2NEpo7TZRRrLZSi2U") = Ok (lit "Hello World!") /\
  decodeBase58 (lit "0") = Err "invalid base58 character" /\
  decodeBase58 (lit "11") = Ok [x00; x00; x00] /\ decodeNodeIDBase58 (lit "11") = Ok [x00; x00].
Proof. vm_compute. done. Qed.

(** ** Digits *)

Ltac div_lia := Z.to_euclidean_division_equations; lia.

Lemma alphabet_index d : 0 <= d < 58 -> indexByte base58Alphabet (alphabetAt d) = Some d.
Proof.
  intros Hd.
  assert (Forall (fun d => indexByte base58Alphabet (alphabetAt d) = Some d) (seqZ 0 58)) as Hall.
  { vm_compute. repeat constructor. }
  rewrite Forall_forall in Hall. apply Hall, elem_of_seqZ. lia.
Qed.
Lemma alphabet_zero d : 0 <= d < 58 -> alphabetAt d = zeroDigit -> d = 0.
Proof.
  intros Hd E. pose proof (alphabet_index d Hd) as Hi. rewrite E in Hi. by vm_compute in Hi; injection Hi.
Qed.

Lemma decodeNumber_app n a b :
  decodeNumber n (a ++ b) = (m ← decodeNumber n a; decodeNumber m b).
Proof. revert n. induction a as [|c a IH]; intros n; cbn [app decodeNumber]; [done|]. by destruct (indexByte base58Alphabet c). Qed.
Lemma decodeNumber_zeros n k : decodeNumber 0 (repeat zeroDigit k ++ n) = decodeNumber 0 n.
Proof. induction k as [|k IH]; cbn; [done|]. exact IH. Qed.

Lemma encodeDigits_value fuel n :
  0 <= n < 58 ^ Z.of_nat fuel -> decodeNumber 0 (rev (encodeDigits fuel n)) = Ok n.
Proof.
  revert n. induction fuel as [|fuel IH]; intros n Hn; cbn [encodeDigits].
  - cbn. f_equal. rewrite Z.pow_0_r in Hn. lia.
  - rewrite Nat2Z.inj_succ, Z.pow_succ_r in Hn by lia.
    destruct (Z.ltb_spec 0 n); [|cbn; f_equal; lia].
    cbn [rev]. rewrite decodeNumber_app, IH by div_lia.
    cbn [mbind res_bind decodeNumber]. rewrite alphabet_index by div_lia. f_equal. div_lia.
Qed.
Lemma encodeDigits_top fuel n :
  0 <= n < 58 ^ Z.of_nat fuel -> leading zeroDigit (rev (encodeDigits fuel n)) = 0%nat.
Proof.
  revert n. induction fuel as [|fuel IH]; intros n Hn; cbn [encodeDigits]; [done|].
  rewrite Nat2Z.inj_succ, Z.pow_succ_r in Hn by lia.
  destruct (Z.ltb_spec 0 n); [|done]. cbn [rev].
  specialize (IH (n / 58) ltac:(div_lia)).
  destruct (rev (encodeDigits fuel (n / 58))) as [|c l] eqn:E; cbn in *.
  - rewrite eqb_byte. case_bool_decide as Ez; [|done]. exfalso.
    apply alphabet_zero in Ez; [|div_lia].
    pose proof (encodeDigits_value fuel (n / 58)) as Hv. rewrite E in Hv.
    assert (Ok 0 = Ok (n / 58)) as Hq.
    { apply Hv. div_lia. }
    apply (inj Ok) in Hq. div_lia.
  - by destruct (Byte.eqb c zeroDigit).
Qed.

(** ** Leading zeroes and minimal big-endian bytes *)

Lemma leading_split b l : exists l', l = repeat b (leading b l) ++ l' /\ leading b l' = 0%nat.
Proof.
  induction l as [|x l (l' & E & Hl)]; cbn; [by exists []|]. rewrite eqb_byte.
  case_bool_decide as Hx; [subst; exists l'; cbn; by rewrite <- E|].
  exists (x :: l). split; [done|]. cbn. rewrite eqb_byte. by case_bool_decide.
Qed.
Lemma leading_repeat b k l : leading b (repeat b k ++ l) = (k + leading b l)%nat.
Proof. induction k as [|k IH]; cbn; [done|]. by rewrite eqb_byte_refl, IH. Qed.

Lemma be_value_zeros k l : be_value (repeat x00 k ++ l) = be_value l.
Proof. induction k as [|k IH]; cbn [repeat app]; [done|]. rewrite be_value_cons, IH. cbn. lia. Qed.

Lemma bigBytes_value l : leading x00 l = 0%nat -> bigBytes (be_value l) = l.
Proof.
  intros Hl. unfold bigBytes.
  assert (byteLength (be_value l) = length l) as ->; [|apply be_bytes_value].
  destruct l as [|b l]; [done|]. revert Hl. cbn [leading].
  rewrite eqb_byte. case_bool_decide as Hb; [done|intros _].
  assert (0 < Zb b) as Hpos.
  { pose proof (Zb_range b). destruct (decide (Zb b = 0)) as [E|]; [|lia].
    exfalso. apply Hb. apply (inj Zb). by rewrite E. }
  pose proof (be_value_range (b :: l)) as [_ Hhi]. pose proof (be_value_range l) as [Hlo _].
  rewrite be_value_cons in *. rewrite blen_cons in Hhi. pose proof (blen_nonneg l) as Hn.
  set (v := Zb b * 256 ^ blen l + be_value l) in *.
  assert (256 ^ blen l <= v) as Hv by (unfold v; nia).
  assert (0 < 256 ^ blen l) by (by apply Z.pow_pos_nonneg).
  change 256 with (2 ^ 8) in Hv, Hhi. rewrite <- Z.pow_mul_r in Hv, Hhi by lia.
  apply Z.log2_le_pow2 in Hv; [|lia]. apply Z.log2_lt_pow2 in Hhi; [|lia].
  unfold byteLength. destruct (Z.leb_spec v 0); [lia|]. cbn [length].
  assert (Z.log2 v / 8 = blen l) as -> by div_lia. unfold blen. lia.
Qed.

(** ** Round trips *)

Lemma value_fits value : 0 <= be_value value < 58 ^ Z.of_nat (digitFuel value).
Proof.
  pose proof (be_value_range value) as [? Hv]. split; [done|].
  eapply Z.lt_le_trans; [exact Hv|]. unfold digitFuel, blen.
  rewrite Nat2Z.inj_mul, Z.pow_mul_r by lia. apply Z.pow_le_mono_l. lia.
Qed.

Lemma encode_split value :
  encodeBase58 value = repeat zeroDigit (leading x00 value) ++
    rev (encodeDigits (digitFuel value) (be_value value)).
Proof.
  unfold encodeBase58. rewrite rev_app_distr. f_equal.
  generalize (leading x00 value). intros k. induction k as [|k IH]; [done|].
  cbn [repeat rev]. by rewrite IH, <- repeat_cons.
Qed.
Lemma encode_number value : decodeNumber 0 (encodeBase58 value) = Ok (be_value value).
Proof. rewrite encode_split, decodeNumber_zeros. apply encodeDigits_value, value_fits. Qed.
Lemma encode_leading value : leading zeroDigit (encodeBase58 value) = leading x00 value.
Proof. rewrite encode_split, leading_repeat, encodeDigits_top; [lia|apply value_fits]. Qed.

Lemma nodeID_roundtrip value : decodeNodeIDBase58 (encodeNodeIDBase58 value) = Ok value.
Proof.
  change (encodeNodeIDBase58 value) with (encodeBase58 value).
  unfold decodeNodeIDBase58. rewrite encode_number, encode_leading. cbn [mbind res_bind].
  destruct (leading_split x00 value) as (l & E & Hl). rewrite E at 2 3.
  by rewrite be_value_zeros, bigBytes_value.
Qed.

(** The wallet's decoder: the same, with a byte more after zeroes alone. *)
Lemma base58_roundtrip_value value :
  value <> [] ->
  decodeBase58 (encodeBase58 value) = Ok (if be_value value =? 0 then value ++ [x00] else value).
Proof.
  intros Hne. unfold decodeBase58. rewrite encode_number, encode_leading. cbn [mbind res_bind].
  destruct (leading_split x00 value) as (l & E & Hl).
  assert (forall d, (match leading x00 value with O => Ok d | k => Ok (repeat x00 k ++ d) end)
    = Ok (repeat x00 (leading x00 value) ++ d)) as Hk by (intros d; by destruct (leading x00 value)).
  destruct (encodeBase58 value) as [|c e] eqn:Ee.
  { exfalso. pose proof (encode_number value) as Hv. rewrite Ee in Hv. cbn in Hv. apply (inj Ok) in Hv.
    pose proof (encode_leading value) as Hz. rewrite Ee in Hz. cbn in Hz.
    rewrite <- Hz in E. cbn in E. subst l.
    pose proof (bigBytes_value value Hl) as Hb. rewrite <- Hv in Hb. by subst value. }
  rewrite Hk. clear Hk. f_equal.
  assert (be_value value = be_value l) as Hv by by rewrite E, be_value_zeros.
  rewrite Hv. destruct (Z.eqb_spec (be_value l) 0) as [Hz|].
  - pose proof (bigBytes_value l Hl) as Hb. rewrite Hz in Hb. subst l. by rewrite app_nil_r in E; rewrite <- E.
  - by rewrite bigBytes_value.
Qed.

Section check_theorems.
Context `{Digests}.

Lemma checksum_length payload : length (checksum payload) = 4%nat.
Proof. unfold checksum. rewrite length_take, sha256_length. done. Qed.
Lemma checked_zero a b : be_value (a ++ b) = 0 -> be_value a = 0.
Proof.
  unfold be_value. rewrite rev_app_distr, le_value_app.
  pose proof (le_value_range (rev b)). pose proof (le_value_range (rev a)).
  assert (0 < 256 ^ blen (rev b)) by (apply Z.pow_pos_nonneg; [done|apply blen_nonneg]). nia.
Qed.

(** A payload that is not all zero comes back. *)
Lemma base58Check_roundtrip payload :
  be_value payload <> 0 -> DecodeBase58Check (EncodeBase58Check payload) = Ok payload.
Proof.
  intros Hnz. unfold DecodeBase58Check, EncodeBase58Check.
  rewrite base58_roundtrip_value by (by intros [-> ?]%app_eq_nil).
  destruct (Z.eqb_spec (be_value (payload ++ checksum payload)) 0) as [Hz|_].
  { by apply checked_zero in Hz. }
  cbn [mbind res_bind]. rewrite blen_app, length_app, checksum_length.
  unfold blen at 2. rewrite checksum_length. pose proof (blen_nonneg payload).
  destruct (Z.ltb_spec (blen payload + Z.of_nat 4) 4); [lia|].
  rewrite take_app_at, drop_app_at by lia. by rewrite bool_decide_eq_true_2.
Qed.
End check_theorems.

(** Base58 round trips.  The DHT's node ID codec returns every value it
    encodes; the wallet's returns every value that is not all zeroes, and one zero
    byte more after zeroes alone; and a Base58Check payload that is not all
    zeroes passes its checksum and comes back. *)
Theorem base58_roundtrip `{Digests} value :
  value <> [] ->
  decodeNodeIDBase58 (encodeNodeIDBase58 value) = Ok value /\
  decodeBase58 (encodeBase58 value) = Ok (if be_value value =? 0 then value ++ [x00] else value) /\
  (be_value value <> 0 -> DecodeBase58Check (EncodeBase58Check value) = Ok value).
Proof.
  intros Hne. split_and!; [apply nodeID_roundtrip|by apply base58_roundtrip_value|apply base58Check_roundtrip].
Qed.
Lemma base58_roundtrip_witness :
  decodeBase58 (encodeBase58 [x00; x2a]) = Ok [x00; x2a] /\
  @DecodeBase58Check exampleDigests (@EncodeBase58Check exampleDigests [x00; x2a]) = Ok [x00; x2a].
Proof.
  destruct (@base58_roundtrip exampleDigests [x00; x2a]) as (_ & H2 & H3); [discriminate|].
  split; [exact H2|]. apply H3. discriminate.
Defined.
