(* ===== verification/Keys.v ===== *)
(** * Extended keys and addresses

    Model of [wallet/keys/keys.go] and [wallet/keys/network.go].  The elliptic
    curve is a third-party package (secp256k1): [Secp256k1] is its interface,
    with the laws of the curve the derivation relies on.  A scalar is a [Z]
    below the group order.  [crypto/hmac] is Go's and is defined from FIPS 198. *)

From S2P Require Import Prelude Digest Base58.

(** ** Networks *)

(** A [uint8]: other values than the three constants are not valid. *)
Abbreviation Network := Z (only parsing).
Definition MainNet : Network := 0.
Definition TestNet : Network := 1.
Definition RegTest : Network := 2.
Definition networkIDs : list string := ["lbc_mainnet"; "lbc_testnet"; "lbc_regtest"]%string.
Definition extendedPublicKeyPrefixes : list bytes :=
  map (be_bytes 4) [0x0488b21e; 0x043587cf; 0x043587cf].
Definition extendedPrivateKeyPrefixes : list bytes :=
  map (be_bytes 4) [0x0488ade4; 0x04358394; 0x04358394].

Definition ErrUnknownNetwork : string := "unknown LBRY key network".
(** The loop of [ParseNetwork] from index [network]. *)
Fixpoint findNetwork (ids : list string) (network : Z) (id : string) : res Network :=
  match ids with
  | [] => Err ErrUnknownNetwork
  | candidate :: ids =>
      if String.eqb candidate id then Ok network else findNetwork ids (network + 1) id
  end.
Definition ParseNetwork (id : string) : res Network := findNetwork networkIDs 0 id.

Definition valid (network : Network) : bool := network <? blen networkIDs.
Definition NetworkID (network : Network) : string :=
  (if negb (valid network) then "" else nth (Z.to_nat network) networkIDs "")%string.
Definition PubKeyAddressPrefix (network : Network) : byte :=
  if network =? MainNet then x55
  else if (network =? TestNet) || (network =? RegTest) then x6f else x00.
Definition ScriptAddressPrefix (network : Network) : byte :=
  if network =? MainNet then x7a
  else if (network =? TestNet) || (network =? RegTest) then xc4 else x00.
Definition SecretPrefix (network : Network) : byte := if valid network then x1c else x00.
Definition ExtendedPublicKeyPrefix (network : Network) : bytes :=
  if negb (valid network) then repeat x00 4
  else nth (Z.to_nat network) extendedPublicKeyPrefixes [].
Definition ExtendedPrivateKeyPrefix (network : Network) : bytes :=
  if negb (valid network) then repeat x00 4
  else nth (Z.to_nat network) extendedPrivateKeyPrefixes [].

(** ** The curve *)

(** The order of the group of secp256k1. *)
Definition groupOrder : Z := 0xFFFFFFFFFFFFFFFFFFFFFFFFFFFFFFFEBAAEDCE6AF48A03BBFD25E8CD0364141.

Class Secp256k1 := {
  point : Type;
  pubKey : Z -> point;                     (* PrivateKey.PubKey: the scalar times the base point *)
  addBase : point -> Z -> option point;    (* adds a scalar times the base point; None at infinity *)
  SerializeCompressed : point -> bytes;
  ParsePubKey : bytes -> res point;
  compressed_length p : length (SerializeCompressed p) = 33%nat;
  compressed_prefix p : exists b l, SerializeCompressed p = b :: l /\ (b = x02 \/ b = x03);
  parse_compressed p : ParsePubKey (SerializeCompressed p) = Ok p;
  parse_returns l : ParsePubKey l <> Panic /\ ParsePubKey l <> NoFuel;
  addBase_pubKey k t :
    addBase (pubKey k) t =
    if (k + t) mod groupOrder =? 0 then None else Some (pubKey ((k + t) mod groupOrder))
}.

(** ** HMAC-SHA-512 *)

Section hmac.
Context `{Digests}.

Definition xorPad (pad : Z) (key : bytes) : bytes := map (fun b => byt (Z.lxor (Zb b) pad)) key.
Definition hmacSHA512 (key message : bytes) : bytes :=
  let key := if 128 <? blen key then sha512 key else key in
  let key := key ++ repeat x00 (128 - length key) in
  sha512 (xorPad 0x5c key ++ sha512 (xorPad 0x36 key ++ message)).
End hmac.

(** ** Keys *)

Record keyBase := MkBase {
  network : Network;
  chainCode : bytes;
  childNumber : Z;
  depth : Z
}.
#[local] Set Warnings "-register-all".
Inductive PrivateKey := MkPrivateKey (base : keyBase) (key : Z) (parent : option PrivateKey).
Inductive PublicKey `{Secp256k1} := MkPublicKey (base : keyBase) (key : point) (parent : option PublicKey).
Inductive ExtendedKey `{Secp256k1} :=
| Private (key : PrivateKey)
| Public (key : PublicKey).

Definition chainCodeLength : Z := 32.
Definition extendedKeyLength : Z := 78.
Definition hardenedIndex : Z := 2 ^ 31.

Definition validateMetadata (network : Network) (chainCode : bytes) (childNumber depth : Z)
  : res keyBase :=
  if negb (valid network) then Err ErrUnknownNetwork
  else if negb (blen chainCode =? chainCodeLength) then Err "invalid chain code"
  else if (childNumber <? 0) || (2 ^ 32 <=? childNumber) then Err "invalid child number"
  else if (depth <? 0) || (2 ^ 8 <=? depth) then Err "invalid depth"
  else Ok (MkBase network chainCode childNumber depth).

(** [SetBytes] reduces and reports an overflow. *)
Definition parsePrivateScalar (serialized : bytes) : res Z :=
  if negb (blen serialized =? 32) then Err "invalid private key"
  else
    let value := be_value serialized in
    if (groupOrder <=? value) || (value mod groupOrder =? 0) then Err "invalid private key"
    else Ok value.

Definition basePriv (key : PrivateKey) := let '(MkPrivateKey base _ _) := key in base.
Definition scalar (key : PrivateKey) := let '(MkPrivateKey _ key _) := key in key.
Definition parentPriv (key : PrivateKey) := let '(MkPrivateKey _ _ parent) := key in parent.
Definition PrivateKeyBytes (key : PrivateKey) : bytes := be_bytes 32 (scalar key).

Definition NewPrivateKey (network : Network) (privateKey chainCode : bytes)
    (childNumber depth : Z) (parent : option PrivateKey) : res PrivateKey :=
  base ← validateMetadata network chainCode childNumber depth;
  scalar ← parsePrivateScalar privateKey;
  Ok (MkPrivateKey base scalar parent).

Definition PrivateKeyFromSeed `{Digests} (network : Network) (seed : bytes) : res PrivateKey :=
  let material := hmacSHA512 (lit "Bitcoin seed") seed in
  NewPrivateKey network (take 32 material) (drop 32 material) 0 0 None.

Definition LegacyWIFBytes (key : PrivateKey) : bytes :=
  SecretPrefix (network (basePriv key)) :: PrivateKeyBytes key ++ [x01].

Section keys.
Context `{Digests} `{Secp256k1}.

Definition basePub (key : PublicKey) := let '(MkPublicKey base _ _) := key in base.
Definition pointOf (key : PublicKey) := let '(MkPublicKey _ key _) := key in key.
Definition parentPub (key : PublicKey) := let '(MkPublicKey _ _ parent) := key in parent.

Definition parseCompressedPublicKey (serialized : bytes) : res point :=
  if negb (blen serialized =? 33) then Err "invalid public key"
  else match serialized with
  | b :: _ =>
      if negb (Byte.eqb b x02) && negb (Byte.eqb b x03) then Err "invalid public key"
      else map_err (fun e => "invalid public key: " ++ e)%string (ParsePubKey serialized)
  | [] => Panic
  end.
Definition NewPublicKey (network : Network) (publicKey chainCode : bytes)
    (childNumber depth : Z) (parent : option PublicKey) : res PublicKey :=
  base ← validateMetadata network chainCode childNumber depth;
  parsed ← parseCompressedPublicKey publicKey;
  Ok (MkPublicKey base parsed parent).
Definition PublicKeyFromCompressed (network : Network) (publicKey : bytes) : res PublicKey :=
  NewPublicKey network publicKey (repeat x00 32) 0 0 None.

(** [PrivateKey.PublicKey] *)
Fixpoint publicKey (key : PrivateKey) : PublicKey :=
  let '(MkPrivateKey base key parent) := key in
  MkPublicKey base (pubKey key)
    match parent with Some parent => Some (publicKey parent) | None => None end.

Definition CompressedBytes (key : PublicKey) : bytes := SerializeCompressed (pointOf key).
Definition IdentifierPub (key : PublicKey) : bytes := Hash160 (CompressedBytes key).
Definition IdentifierPriv (key : PrivateKey) : bytes := IdentifierPub (publicKey key).
Definition fingerprint (identifier : bytes) : bytes := take 4 identifier.
Definition parentFingerprintPriv (key : PrivateKey) : bytes :=
  match parentPriv key with Some parent => fingerprint (IdentifierPriv parent) | None => repeat x00 4 end.
Definition parentFingerprintPub (key : PublicKey) : bytes :=
  match parentPub key with Some parent => fingerprint (IdentifierPub parent) | None => repeat x00 4 end.

Definition extendedKeyBytes (base : keyBase) (parentFingerprint version serializedKey : bytes) : bytes :=
  version ++ [byt (depth base)] ++ parentFingerprint ++ be_bytes 4 (childNumber base) ++
  chainCode base ++ serializedKey.
Definition ExtendedKeyBytesPriv (key : PrivateKey) : bytes :=
  extendedKeyBytes (basePriv key) (parentFingerprintPriv key)
    (ExtendedPrivateKeyPrefix (network (basePriv key))) (x00 :: PrivateKeyBytes key).
Definition ExtendedKeyBytesPub (key : PublicKey) : bytes :=
  extendedKeyBytes (basePub key) (parentFingerprintPub key)
    (ExtendedPublicKeyPrefix (network (basePub key))) (CompressedBytes key).
Definition ExtendedKeyString (key : ExtendedKey) : bytes :=
  EncodeBase58Check match key with
                    | Private key => ExtendedKeyBytesPriv key
                    | Public key => ExtendedKeyBytesPub key
                    end.

Definition address (network : Network) (identifier : bytes) : bytes :=
  EncodeBase58Check (PubKeyAddressPrefix network :: identifier).
Definition Address (key : PublicKey) : bytes := address (network (basePub key)) (IdentifierPub key).
Definition AddressFromPublicKeyBytes (network : Network) (publicKey : bytes) : res bytes :=
  if negb (valid network) then Err ErrUnknownNetwork
  else Ok (address network (Hash160 publicKey)).

(** ** Derivation *)

Definition deriveMaterial (base : keyBase) (message : bytes) : bytes * bytes :=
  let material := hmacSHA512 (chainCode base) message in
  (take 32 material, drop 32 material).
Definition derivationTweak (serialized : bytes) : res Z :=
  if negb (blen serialized =? 32) then Err "invalid BIP32 derivation"
  else if groupOrder <=? be_value serialized then Err "invalid BIP32 derivation: invalid child tweak"
  else Ok (be_value serialized).
Definition addPrivateTweak (parent : Z) (serialized : bytes) : res Z :=
  tweak ← derivationTweak serialized;
  let child := (parent + tweak) mod groupOrder in
  if child =? 0 then Err "invalid BIP32 derivation: derived private key is zero" else Ok child.
Definition addPublicTweak (parent : point) (serialized : bytes) : res point :=
  tweak ← derivationTweak serialized;
  match addBase parent tweak with
  | None => Err "invalid BIP32 derivation: derived public key is the point at infinity"
  | Some child => Ok child
  end.

Definition childBase (base : keyBase) (index : Z) (right : bytes) : keyBase :=
  MkBase (network base) right (u32 index) (u8 (depth base + 1)).
(** [PrivateKey.Child] *)
Definition ChildPriv (key : PrivateKey) (index : Z) : res PrivateKey :=
  if (index <? 0) || (2 ^ 32 <=? index) then Err "invalid child number"
  else if depth (basePriv key) =? 255 then Err "invalid depth: child depth exceeds 255"
  else
    let message := (if hardenedIndex <=? index then x00 :: PrivateKeyBytes key
                    else CompressedBytes (publicKey key)) ++ be_bytes 4 (u32 index) in
    let '(left_, right_) := deriveMaterial (basePriv key) message in
    derived ← addPrivateTweak (scalar key) left_;
    Ok (MkPrivateKey (childBase (basePriv key) index right_) derived (Some key)).
(** [PublicKey.Child] *)
Definition ChildPub (key : PublicKey) (index : Z) : res PublicKey :=
  if (index <? 0) || (hardenedIndex <=? index) then Err "invalid child number"
  else if depth (basePub key) =? 255 then Err "invalid depth: child depth exceeds 255"
  else
    let message := CompressedBytes key ++ be_bytes 4 (u32 index) in
    let '(left_, right_) := deriveMaterial (basePub key) message in
    derived ← addPublicTweak (pointOf key) left_;
    Ok (MkPublicKey (childBase (basePub key) index right_) derived (Some key)).

(** ** Parsing *)

Definition ParseExtendedKeyBytes (network : Network) (extended : bytes) : res ExtendedKey :=
  if negb (valid network) then Err ErrUnknownNetwork
  else if negb (blen extended =? extendedKeyLength) then Err "invalid extended key"
  else
    let version := take 4 extended in
    let depth := be_value (take 1 (drop 4 extended)) in
    let childNumber := be_value (take 4 (drop 9 extended)) in
    let chainCode := take 32 (drop 13 extended) in
    let serializedKey := drop 45 extended in
    if bool_decide (version = ExtendedPublicKeyPrefix network) then
      Public <$> NewPublicKey network serializedKey chainCode childNumber depth None
    else if bool_decide (version = ExtendedPrivateKeyPrefix network) then
      match serializedKey with
      | b :: privateKey =>
          if negb (Byte.eqb b x00) then Err "invalid extended key"
          else Private <$> NewPrivateKey network privateKey chainCode childNumber depth None
      | [] => Panic
      end
    else Err "extended key version bytes unrecognised".
Definition ParseExtendedKey (network : Network) (encoded : bytes) : res ExtendedKey :=
  payload ← DecodeBase58Check encoded;
  ParseExtendedKeyBytes network payload.
End keys.

(** ** Validity *)

Definition validBase (base : keyBase) : Prop :=
  0 <= network base < 3 /\ length (chainCode base) = 32%nat /\
  0 <= childNumber base < 2 ^ 32 /\ 0 <= depth base < 2 ^ 8.
Definition validPriv (key : PrivateKey) : Prop :=
  validBase (basePriv key) /\ 0 < scalar key < groupOrder.

Lemma validateMetadata_Ok n c i d base :
  0 <= n -> validateMetadata n c i d = Ok base -> base = MkBase n c i d /\ validBase base.
Proof.
  unfold validateMetadata, valid. intros Hn Hv. repeat case_match; try done. apply (inj Ok) in Hv as <-.
  bool_props. split; [done|]. unfold validBase, chainCodeLength, blen in *. cbn in *. lia.
Qed.
Lemma validateMetadata_valid base :
  validBase base ->
  validateMetadata (network base) (chainCode base) (childNumber base) (depth base) = Ok base.
Proof.
  intros (Hn & Hc & Hi & Hd). unfold validateMetadata, valid, chainCodeLength, blen. rewrite Hc.
  destruct (Z.ltb_spec (network base) (Z.of_nat (length networkIDs))) as [_|Hx]; [|cbn in Hx; lia].
  destruct (Z.ltb_spec (childNumber base) 0); [lia|]. destruct (Z.leb_spec (2 ^ 32) (childNumber base)); [lia|].
  destruct (Z.ltb_spec (depth base) 0); [lia|]. destruct (Z.leb_spec (2 ^ 8) (depth base)); [lia|].
  by destruct base.
Qed.

Lemma parsePrivateScalar_Ok l k : parsePrivateScalar l = Ok k -> k = be_value l /\ 0 < k < groupOrder.
Proof.
  unfold parsePrivateScalar. intros Hp. repeat case_match; try done. apply (inj Ok) in Hp as <-. bool_props.
  pose proof (be_value_range l) as [? _]. rewrite Z.mod_small in * by lia. lia.
Qed.
Lemma parsePrivateScalar_bytes k :
  0 < k < groupOrder -> parsePrivateScalar (be_bytes 32 k) = Ok k.
Proof.
  intros Hk. unfold parsePrivateScalar. unfold blen. rewrite length_be_bytes.
  rewrite be_value_bytes_id by (unfold groupOrder in Hk; lia).
  destruct (Z.leb_spec groupOrder k); [lia|]. rewrite Z.mod_small by lia.
  by destruct (Z.eqb_spec k 0); [lia|].
Qed.

Lemma NewPrivateKey_valid n l c i d parent key :
  0 <= n -> NewPrivateKey n l c i d parent = Ok key -> validPriv key /\ parentPriv key = parent.
Proof.
  intros Hn Hk. unfold NewPrivateKey in Hk. res_inv.
  match goal with H : validateMetadata _ _ _ _ = _ |- _ => apply validateMetadata_Ok in H as [-> ?]; [|done] end.
  match goal with H : parsePrivateScalar _ = _ |- _ => apply parsePrivateScalar_Ok in H as [-> ?] end. done.
Qed.

Section theorems.
Context `{Digests} `{Secp256k1}.

(** ** Derivation *)

Definition validPub (key : PublicKey) : Prop := validBase (basePub key).
Lemma basePub_public key : basePub (publicKey key) = basePriv key.
Proof. by destruct key. Qed.
Lemma pointOf_public key : pointOf (publicKey key) = pubKey (scalar key).
Proof. by destruct key. Qed.

Lemma hmac_length key message : length (hmacSHA512 key message) = 64%nat.
Proof. apply sha512_length. Qed.

(** Adding a tweak commutes with taking the public key. *)
Lemma tweak_commutes k l :
  match addPrivateTweak k l with
  | Ok k' => addPublicTweak (pubKey k) l = Ok (pubKey k') /\ 0 < k' < groupOrder
  | Err _ => exists e, addPublicTweak (pubKey k) l = Err e
  | _ => False
  end.
Proof.
  unfold addPrivateTweak, addPublicTweak.
  destruct (derivationTweak l) as [t|e| |] eqn:Et; cbn [mbind res_bind]; [|by eexists| |].
  2,3: by unfold derivationTweak in Et; repeat case_match.
  rewrite addBase_pubKey. destruct (Z.eqb_spec ((k + t) mod groupOrder) 0); [by eexists|].
  split; [done|]. pose proof (Z.mod_pos_bound (k + t) groupOrder ltac:(done)). lia.
Qed.

Lemma ChildPriv_valid key index child :
  validPriv key -> ChildPriv key index = Ok child ->
  validPriv child /\ parentPriv child = Some key /\
  depth (basePriv child) = depth (basePriv key) + 1 /\ childNumber (basePriv child) = index.
Proof.
  intros [(Hn & Hc & Hi & Hd) Hk] Hch. unfold ChildPriv, deriveMaterial in Hch.
  destruct (Z.ltb_spec index 0), (Z.leb_spec (2 ^ 32) index); try done. cbn [orb] in Hch.
  destruct (Z.eqb_spec (depth (basePriv key)) 255); [done|].
  apply res_bind_Ok in Hch as (k' & Hk' & Hch). apply (inj Ok) in Hch as <-.
  match type of Hk' with addPrivateTweak ?k ?l = _ => pose proof (tweak_commutes k l) as Ht end.
  rewrite Hk' in Ht. destruct Ht as [_ Ht]. unfold validPriv, validBase, childBase, u8. cbn.
  rewrite length_drop, hmac_length, u32_id, Z.mod_small by lia. split_and!; try done; lia.
Qed.

(** What [ChildPriv] and [ChildPub] share below the hardened index. *)
Lemma Child_commutes key index :
  index < hardenedIndex ->
  match ChildPriv key index with
  | Ok child => ChildPub (publicKey key) index = Ok (publicKey child)
  | Err _ => exists e, ChildPub (publicKey key) index = Err e
  | _ => False
  end.
Proof.
  intros Hi. unfold ChildPriv, ChildPub. rewrite basePub_public, pointOf_public.
  destruct (Z.ltb_spec index 0); cbn [orb]; [by eexists|].
  destruct (Z.leb_spec (2 ^ 32) index); [unfold hardenedIndex in Hi; lia|].
  destruct (Z.leb_spec hardenedIndex index); [lia|].
  destruct (depth (basePriv key) =? 255); [by eexists|].
  destruct (deriveMaterial _ _) as [l r].
  pose proof (tweak_commutes (scalar key) l) as Ht.
  destruct (addPrivateTweak (scalar key) l) as [k'| | |]; cbn [mbind res_bind]; [|destruct Ht as [e' Ht]; rewrite Ht; by eexists|done..].
  destruct Ht as [Ht _]. rewrite Ht. by destruct key.
Qed.

(** ** Extended keys *)

Lemma identifier_length key : length (IdentifierPub key) = 20%nat.
Proof. apply ripemd160_length. Qed.
Lemma fingerprint_priv_length key : length (parentFingerprintPriv key) = 4%nat.
Proof.
  unfold parentFingerprintPriv, fingerprint. destruct (parentPriv key); [|done].
  unfold IdentifierPriv. by rewrite length_take, identifier_length.
Qed.
Lemma fingerprint_pub_length key : length (parentFingerprintPub key) = 4%nat.
Proof.
  unfold parentFingerprintPub, fingerprint. destruct (parentPub key); [|done].
  by rewrite length_take, identifier_length.
Qed.

Lemma network_cases (P : Z -> Prop) n : 0 <= n < 3 -> P MainNet -> P TestNet -> P RegTest -> P n.
Proof. intros ????. assert (n = 0 \/ n = 1 \/ n = 2) as [->|[->| ->]] by lia; done. Qed.

(** The fields of a serialized key, by their offsets. *)
Lemma extended_fields base fp version key :
  validBase base -> length fp = 4%nat -> length version = 4%nat -> length key = 33%nat ->
  let extended := extendedKeyBytes base fp version key in
  length extended = 78%nat /\ take 4 extended = version /\
  be_value (take 1 (drop 4 extended)) = depth base /\
  be_value (take 4 (drop 9 extended)) = childNumber base /\
  take 32 (drop 13 extended) = chainCode base /\ drop 45 extended = key.
Proof.
  intros (Hn & Hc & Hi & Hd) Hf Hv Hk extended. unfold extended, extendedKeyBytes. clear extended.
  destruct version as [|v0 [|v1 [|v2 [|v3 [|]]]]]; try done.
  destruct fp as [|f0 [|f1 [|f2 [|f3 [|]]]]]; try done. cbn [app].
  split_and!; [|done| | | |].
  - cbn [length]. rewrite !length_app, length_be_bytes, Hc, Hk. done.
  - cbn [drop take]. unfold be_value; cbn [rev app le_value]. rewrite Zb_byt_id; lia.
  - cbn [drop]. rewrite drop_0, take_app_at by by rewrite length_be_bytes. by apply be_value_bytes_id.
  - change 13%nat with (9 + 4)%nat. rewrite <- drop_drop. cbn [drop]. rewrite drop_0.
    rewrite (drop_app_at (be_bytes 4 (childNumber base))) by by rewrite length_be_bytes.
    by apply take_app_at.
  - change 45%nat with (9 + (4 + 32))%nat. rewrite <- !drop_drop. cbn [drop]. rewrite drop_0.
    rewrite (drop_app_at (be_bytes 4 (childNumber base))) by by rewrite length_be_bytes.
    by apply drop_app_at.
Qed.

(** The key parsed from a serialized one: its parent is not kept. *)
Definition orphan (key : ExtendedKey) : ExtendedKey :=
  match key with
  | Private key => Private (MkPrivateKey (basePriv key) (scalar key) None)
  | Public key => Public (MkPublicKey (basePub key) (pointOf key) None)
  end.
Definition keyNetwork (key : ExtendedKey) : Network :=
  match key with Private key => network (basePriv key) | Public key => network (basePub key) end.
Definition validKey (key : ExtendedKey) : Prop :=
  match key with Private key => validPriv key | Public key => validPub key end.

Lemma prefix_facts n :
  0 <= n < 3 ->
  length (ExtendedPublicKeyPrefix n) = 4%nat /\ length (ExtendedPrivateKeyPrefix n) = 4%nat /\
  ExtendedPrivateKeyPrefix n <> ExtendedPublicKeyPrefix n /\
  be_value (ExtendedPublicKeyPrefix n) <> 0 /\ be_value (ExtendedPrivateKeyPrefix n) <> 0 /\
  valid n = true.
Proof. intros Hn. pattern n. by apply (network_cases _ n Hn); vm_compute. Qed.

Lemma parse_private key :
  validPriv key ->
  ParseExtendedKeyBytes (network (basePriv key)) (ExtendedKeyBytesPriv key) = Ok (orphan (Private key)).
Proof.
  intros [Hb Hk]. pose proof Hb as (Hn & _). destruct (prefix_facts _ Hn) as (_ & Hpl & Hne & _ & _ & Hv).
  destruct (extended_fields (basePriv key) (parentFingerprintPriv key) (ExtendedPrivateKeyPrefix (network (basePriv key)))
    (x00 :: PrivateKeyBytes key)) as (Hlen & Hver & Hd & Hi & Hc & Hs); [done|apply fingerprint_priv_length|done| |].
  { cbn [length]. unfold PrivateKeyBytes. by rewrite length_be_bytes. }
  unfold ParseExtendedKeyBytes, ExtendedKeyBytesPriv, blen.
  rewrite Hv, Hlen, Hver, Hd, Hi, Hc, Hs.
  rewrite bool_decide_eq_false_2 by done. rewrite bool_decide_eq_true_2 by done.
  unfold NewPrivateKey. rewrite validateMetadata_valid by done. cbn -[parsePrivateScalar be_bytes].
  unfold PrivateKeyBytes. by rewrite parsePrivateScalar_bytes.
Qed.
Lemma parse_public key :
  validPub key ->
  ParseExtendedKeyBytes (network (basePub key)) (ExtendedKeyBytesPub key) = Ok (orphan (Public key)).
Proof.
  intros Hb. pose proof Hb as (Hn & _). destruct (prefix_facts _ Hn) as (Hpl & _ & _ & _ & _ & Hv).
  destruct (extended_fields (basePub key) (parentFingerprintPub key) (ExtendedPublicKeyPrefix (network (basePub key)))
    (CompressedBytes key)) as (Hlen & Hver & Hd & Hi & Hc & Hs); [done|apply fingerprint_pub_length|done|apply compressed_length|].
  unfold ParseExtendedKeyBytes, ExtendedKeyBytesPub, blen.
  rewrite Hv, Hlen, Hver, Hd, Hi, Hc, Hs.
  rewrite bool_decide_eq_true_2 by done.
  unfold NewPublicKey. rewrite validateMetadata_valid by done. cbn [mbind res_bind].
  unfold parseCompressedPublicKey, blen, CompressedBytes. rewrite compressed_length.
  destruct (compressed_prefix (pointOf key)) as (b & l & E & Hpre). rewrite E.
  destruct Hpre as [->| ->]; cbn -[ParsePubKey]; rewrite <- E, parse_compressed; done.
Qed.

Lemma extended_nonzero base fp version key :
  be_value version <> 0 -> be_value (extendedKeyBytes base fp version key) <> 0.
Proof. unfold extendedKeyBytes. intros Hv Hz. by apply checked_zero in Hz. Qed.

(** ** Addresses *)

Lemma address_payload n identifier :
  0 <= n < 3 -> DecodeBase58Check (address n identifier) = Ok (PubKeyAddressPrefix n :: identifier).
Proof.
  intros Hn. unfold address. apply base58Check_roundtrip. rewrite be_value_cons.
  pose proof (be_value_range identifier) as [? _].
  assert (0 < Zb (PubKeyAddressPrefix n)) by (pattern n; by apply (network_cases _ n Hn); vm_compute).
  assert (0 < 256 ^ blen identifier) by (apply Z.pow_pos_nonneg; [done|apply blen_nonneg]). nia.
Qed.

(** An extended key survives its text form: parsing the Base58Check string
    of a valid private or public key gives that key, with the parent the format
    does not carry dropped. *)
Theorem extended_key_roundtrip key :
  validKey key -> ParseExtendedKey (keyNetwork key) (ExtendedKeyString key) = Ok (orphan key).
Proof.
  intros Hk. unfold ParseExtendedKey, ExtendedKeyString.
  assert (0 <= keyNetwork key < 3) as Hn by (destruct key; [apply Hk|apply Hk]).
  destruct (prefix_facts _ Hn) as (_ & _ & _ & Hpub & Hpriv & _).
  destruct key as [key|key]; rewrite base58Check_roundtrip by (by apply extended_nonzero); cbn [mbind res_bind].
  - by apply parse_private.
  - by apply parse_public.
Qed.

(** C37: below the hardened index, deriving a child and taking the public key
    commute: the public child of the public key is the public key of the
    private child, one fails exactly when the other does, and private children
    of valid keys are valid keys one level deeper.  A public key has no
    hardened children. *)
Theorem derivation_commutes key index :
  validPriv key ->
  (index < hardenedIndex ->
     match ChildPriv key index with
     | Ok child => ChildPub (publicKey key) index = Ok (publicKey child)
     | Err _ => exists e, ChildPub (publicKey key) index = Err e
     | _ => False
     end) /\
  (forall child, ChildPriv key index = Ok child ->
     validPriv child /\ depth (basePriv child) = depth (basePriv key) + 1 /\
     childNumber (basePriv child) = index) /\
  (hardenedIndex <= index -> exists e, ChildPub (publicKey key) index = Err e).
Proof.
  intros Hk. split_and!; [by apply Child_commutes| |].
  - intros child Hc. by destruct (ChildPriv_valid _ _ _ Hk Hc) as (? & _ & ? & ?).
  - intros Hi. unfold ChildPub. destruct (Z.leb_spec hardenedIndex index); [|lia].
    rewrite orb_true_r. by eexists.
Qed.
End theorems.

(** ** An instance of the interface

    The group of scalars itself, with 1 as the base point: it satisfies the
    laws, and the witnesses compute with it. *)

Module ScalarGroup.
Definition scalars : Type := { z : Z | (0 <=? z) && (z <? groupOrder) = true }.
Lemma reduce_ok z : (0 <=? z mod groupOrder) && (z mod groupOrder <? groupOrder) = true.
Proof.
  pose proof (Z.mod_pos_bound z groupOrder ltac:(done)) as [? ?].
  apply andb_true_iff; split; [by apply Z.leb_le|by apply Z.ltb_lt].
Qed.
Definition reduce (z : Z) : scalars := exist _ (z mod groupOrder) (reduce_ok z).
Definition value (p : scalars) : Z := proj1_sig p.
Definition add (p : scalars) (t : Z) : option scalars :=
  if (value p + t) mod groupOrder =? 0 then None else Some (reduce (value p + t)).
Definition serialize (p : scalars) : bytes := x02 :: be_bytes 32 (value p).
Definition parse (l : bytes) : res scalars :=
  match l with
  | x02 :: l => if be_value l <? groupOrder then Ok (reduce (be_value l)) else Err "not on the curve"
  | _ => Err "not on the curve"
  end.

Lemma value_inj p q : value p = value q -> p = q.
Proof.
  destruct p as [p Hp], q as [q Hq]. cbn. intros ->. f_equal. apply proof_irrel.
Qed.
Lemma value_range p : 0 <= value p < groupOrder.
Proof.
  destruct p as [z Hz]. cbn. by apply andb_true_iff in Hz as [?%Z.leb_le ?%Z.ltb_lt].
Qed.
Lemma parse_serialized p : parse (serialize p) = Ok p.
Proof.
  pose proof (value_range p) as Hp. unfold parse, serialize.
  rewrite be_value_bytes_id by (unfold groupOrder in Hp; lia).
  destruct (Z.ltb_spec (value p) groupOrder); [|lia]. f_equal. apply value_inj. cbn.
  by rewrite Z.mod_small.
Qed.
Lemma add_reduce k t :
  add (reduce k) t =
  if (k + t) mod groupOrder =? 0 then None else Some (reduce ((k + t) mod groupOrder)).
Proof.
  unfold add. cbn [value reduce proj1_sig]. rewrite Zplus_mod_idemp_l.
  destruct (_ =? 0); [done|]. f_equal. apply value_inj. cbn.
  by rewrite Zmod_mod, Zplus_mod_idemp_l.
Qed.
Lemma parse_total l : parse l <> Panic /\ parse l <> NoFuel.
Proof. destruct l as [|[] l]; cbn; try done. by case_match. Qed.

Definition secp256k1 : Secp256k1.
Proof.
  refine {| pubKey := reduce; addBase := add; SerializeCompressed := serialize; ParsePubKey := parse;
            parse_compressed := parse_serialized; addBase_pubKey := add_reduce; parse_returns := parse_total |}.
  - intros p. unfold serialize. cbn [length]. by rewrite length_be_bytes.
  - intros p. eexists _, _. split; [done|by left].
Defined.
End ScalarGroup.

Definition examplePrivateKey : PrivateKey :=
  MkPrivateKey (MkBase MainNet (repeat x07 32) 0 0) 5 None.
Lemma examplePrivateKey_valid : validPriv examplePrivateKey.
Proof. repeat split; by vm_compute. Qed.

Lemma extended_key_roundtrip_witness :
  @ParseExtendedKey exampleDigests ScalarGroup.secp256k1 MainNet
    (@ExtendedKeyString exampleDigests ScalarGroup.secp256k1 (@Private ScalarGroup.secp256k1 examplePrivateKey)) =
  Ok (@Private ScalarGroup.secp256k1 examplePrivateKey).
Proof.
  exact (@extended_key_roundtrip exampleDigests ScalarGroup.secp256k1
    (@Private ScalarGroup.secp256k1 examplePrivateKey) examplePrivateKey_valid).
Defined.

Lemma derivation_commutes_witness :
  validPriv examplePrivateKey /\
  match @ChildPriv exampleDigests ScalarGroup.secp256k1 examplePrivateKey 3 with
  | Ok child => @ChildPub exampleDigests ScalarGroup.secp256k1
                  (@publicKey ScalarGroup.secp256k1 examplePrivateKey) 3 =
                Ok (@publicKey ScalarGroup.secp256k1 child)
  | _ => False
  end.
Proof.
  split; [exact examplePrivateKey_valid|].
  destruct (@derivation_commutes exampleDigests ScalarGroup.secp256k1 examplePrivateKey 3
    examplePrivateKey_valid) as [Hc _].
  specialize (Hc ltac:(done)).
  assert (exists child, @ChildPriv exampleDigests ScalarGroup.secp256k1 examplePrivateKey 3 = Ok child)
    as [child E] by (eexists; vm_compute; reflexivity).
  by rewrite E in Hc |- *.
Defined.
