(* ===== verification/Script.v ===== *)
(** * Transaction scripts: tokenizer and template matching

    Model of [wallet/transaction_script.go].  A script is a byte sequence; the
    tokenizer splits it into opcodes and pushed data, and
    [ParseTransactionOutputScript] / [ParseTransactionInputScript] recognise
    the templates of the wallet.  An offset into [source] is modelled by the
    unread suffix [source[offset:]].  Slices are values here, so
    [cloneTransactionScriptBytes] is the identity and has no counterpart. *)

From S2P Require Import Prelude.

(** ** Opcodes and template names *)

Definition transactionOp0 : byte := x00.
Definition transactionOpPushData1 : byte := x4c.
Definition transactionOpPushData2 : byte := x4d.
Definition transactionOpPushData4 : byte := x4e.
Definition transactionOp1 : byte := x51.
Definition transactionOp16 : byte := x60.
Definition transactionOpReturn : byte := x6a.
Definition transactionOp2Drop : byte := x6d.
Definition transactionOpDrop : byte := x75.
Definition transactionOpDup : byte := x76.
Definition transactionOpEqual : byte := x87.
Definition transactionOpEqualVerify : byte := x88.
Definition transactionOpHash160 : byte := xa9.
Definition transactionOpCheckSig : byte := xac.
Definition transactionOpCheckMultiSig : byte := xae.
Definition transactionOpCheckLockTimeVerify : byte := xb1.
Definition transactionOpClaimName : byte := xb5.
Definition transactionOpSupportClaim : byte := xb6.
Definition transactionOpUpdateClaim : byte := xb7.

Definition TransactionScriptNoScript : string := "no_script".
Definition TransactionScriptPayPubKeyFull : string := "pay_pubkey_full".
Definition TransactionScriptPayPubKeyHash : string := "pay_pubkey_hash".
Definition TransactionScriptPayScriptHash : string := "pay_script_hash".
Definition TransactionScriptPaySegWit : string := "pay_script_hash+segwit".
Definition TransactionScriptReturnData : string := "return_data".
Definition TransactionScriptClaimPubKeyHash : string := "claim_name+pay_pubkey_hash".
Definition TransactionScriptClaimScriptHash : string := "claim_name+pay_script_hash".
Definition TransactionScriptSupportPubKey : string := "support_claim+pay_pubkey_hash".
Definition TransactionScriptSupportScript : string := "support_claim+pay_script_hash".
Definition TransactionScriptSupportDataKey : string := "support_claim+data+pay_pubkey_hash".
Definition TransactionScriptSupportDataHash : string := "support_claim+data+pay_script_hash".
Definition TransactionScriptUpdatePubKey : string := "update_claim+pay_pubkey_hash".
Definition TransactionScriptUpdateScript : string := "update_claim+pay_script_hash".
Definition TransactionInputNoScript : string := "no_script".
Definition TransactionInputPubKey : string := "pubkey".
Definition TransactionInputPubKeyHash : string := "pubkey_hash".
Definition TransactionInputScriptHashTime : string := "script_hash+timelock".
Definition TransactionInputScriptHashMulti : string := "script_hash+multi_sig".
Definition TransactionInputTimeLock : string := "timelock".
Definition TransactionInputMultiSig : string := "multi_sig".

Definition ErrInvalidTransactionScript (what : string) : string :=
  ("invalid wallet transaction script" ++ what)%string.

(** ** Data *)

Record TransactionOutputScript := MkOutputScript {
  out_Source : bytes;
  out_Template : string;
  out_PublicKey : bytes;
  out_PubKeyHash : bytes;
  out_ScriptHash : bytes;
  out_Data : bytes;
  out_ClaimName : bytes;
  out_ClaimID : bytes;
  out_Claim : bytes;
  out_Support : bytes;
  out_HasPubKeyHash : bool;
  out_HasScriptHash : bool;
  out_HasSupportData : bool;
  out_Err : option string
}.

(** The zero struct with a [Source]. *)
Definition outputScriptOf (source : bytes) : TransactionOutputScript :=
  MkOutputScript source "" [] [] [] [] [] [] [] [] false false false None.

(** The nested redeem script; [Height] is a nilable big integer. *)
Record TransactionInputSubscript := MkSubscript {
  sub_Source : bytes;
  sub_Template : string;
  sub_Height : option Z;
  sub_PubKeyHash : bytes;
  sub_SignaturesCount : Z;
  sub_PublicKeys : list bytes;
  sub_PublicKeysCount : Z
}.

Record TransactionInputScript := MkInputScript {
  in_Source : bytes;
  in_Template : string;
  in_Signature : bytes;
  in_PublicKey : bytes;
  in_Signatures : list bytes;
  in_Script : option TransactionInputSubscript;
  in_Err : option string
}.

Definition inputScriptOf (source : bytes) : TransactionInputScript :=
  MkInputScript source "" [] [] [] None None.

(** ** Predicates on output scripts *)

(** [s[len(s)-len(suffix):] == suffix], guarded by the length test. *)
Definition templateEndsWith (s suffix : string) : bool :=
  (String.length suffix <=? String.length s)%nat &&
  String.eqb
    (String.substring (String.length s - String.length suffix) (String.length suffix) s)
    suffix.

Definition noErr (e : option string) : bool := match e with None => true | _ => false end.

Definition IsPayPubKeyHash (s : TransactionOutputScript) : bool :=
  noErr (out_Err s) && templateEndsWith (out_Template s) TransactionScriptPayPubKeyHash.
Definition IsPayScriptHash (s : TransactionOutputScript) : bool :=
  noErr (out_Err s) && templateEndsWith (out_Template s) TransactionScriptPayScriptHash.
Definition IsClaimName (s : TransactionOutputScript) : bool :=
  String.eqb (out_Template s) TransactionScriptClaimPubKeyHash ||
  String.eqb (out_Template s) TransactionScriptClaimScriptHash.
Definition IsUpdateClaim (s : TransactionOutputScript) : bool :=
  String.eqb (out_Template s) TransactionScriptUpdatePubKey ||
  String.eqb (out_Template s) TransactionScriptUpdateScript.
Definition IsSupportClaim (s : TransactionOutputScript) : bool :=
  String.eqb (out_Template s) TransactionScriptSupportPubKey ||
  String.eqb (out_Template s) TransactionScriptSupportScript ||
  String.eqb (out_Template s) TransactionScriptSupportDataKey ||
  String.eqb (out_Template s) TransactionScriptSupportDataHash.
Definition IsSupportData (s : TransactionOutputScript) : bool :=
  String.eqb (out_Template s) TransactionScriptSupportDataKey ||
  String.eqb (out_Template s) TransactionScriptSupportDataHash.
Definition IsClaimInvolved (s : TransactionOutputScript) : bool :=
  IsClaimName s || IsUpdateClaim s || IsSupportClaim s.
Definition HasAddress (s : TransactionOutputScript) : bool :=
  noErr (out_Err s) && (out_HasPubKeyHash s || out_HasScriptHash s).

(** ** Tokens *)

Record transactionScriptToken := Token {
  tok_opcode : byte;
  tok_data : bytes;
  tok_isData : bool
}.
Definition opTok (op : byte) : transactionScriptToken := Token op [] false.
Definition dataTok (d : bytes) : transactionScriptToken := Token x00 d true.

Definition tokenOpcode (t : transactionScriptToken) (op : byte) : bool :=
  negb (tok_isData t) && Byte.eqb (tok_opcode t) op.

Definition tokenData (t : transactionScriptToken) : option bytes :=
  if tok_isData t then Some (tok_data t)
  else if Byte.eqb (tok_opcode t) transactionOp0 then Some []
  else None.

Definition strictTokenData (t : transactionScriptToken) : option bytes :=
  if negb (tok_isData t) then None else Some (tok_data t).

(** The result is a [uint8]. *)
Definition tokenSmallInteger (t : transactionScriptToken) : option Z :=
  if tok_isData t || (Zb (tok_opcode t) <? Zb transactionOp1)
     || (Zb transactionOp16 <? Zb (tok_opcode t))
  then None
  else Some (u8 (Zb (tok_opcode t) - Zb transactionOp1 + 1)).

(** ** Tokenizer *)

(** The [switch opcode] of the loop: the announced length, and the suffix after
    the length bytes. *)
Definition pushLength (opcode : byte) (rest : bytes) : res (Z * bytes) :=
  if Byte.eqb opcode transactionOpPushData1 then
    match rest with
    | [] => Ok (blen rest, rest)
    | b :: rest => Ok (Zb b, rest)
    end
  else if Byte.eqb opcode transactionOpPushData2 then
    if blen rest =? 0 then Ok (0, rest)
    else if blen rest <? 2 then Err (ErrInvalidTransactionScript ": truncated PUSHDATA2")
    else Ok (le_value (take 2 rest), drop 2 rest)
  else if Byte.eqb opcode transactionOpPushData4 then
    if blen rest =? 0 then Ok (0, rest)
    else if blen rest <? 4 then Err (ErrInvalidTransactionScript ": truncated PUSHDATA4")
    else Ok (le_value (take 4 rest), drop 4 rest)
  else Ok (Zb opcode, rest).

Fixpoint tokenizeLoop (fuel : nat) (source : bytes) : res (list transactionScriptToken) :=
  match source with
  | [] => Ok []
  | opcode :: rest =>
      match fuel with
      | O => NoFuel
      | S fuel =>
          if (Zb opcode <? 1) || (Zb transactionOpPushData4 <? Zb opcode) then
            tokens ← tokenizeLoop fuel rest; Ok (opTok opcode :: tokens)
          else
            '(length, rest) ← pushLength opcode rest;
            let length := if blen rest <? length then blen rest else length in
            let n := Z.to_nat length in
            tokens ← tokenizeLoop fuel (drop n rest); Ok (dataTok (take n rest) :: tokens)
      end
  end.

(** Every iteration reads at least its opcode, so [len(source)] iterations are
    enough ([tokenize_returns]). *)
Definition tokenizeTransactionScript (source : bytes) : res (list transactionScriptToken) :=
  tokenizeLoop (length source) source.

(** ** Templates *)

Definition matchPayPubKeyFull (tokens : list transactionScriptToken) : option bytes :=
  match tokens with
  | [t0; t1] => if tokenOpcode t1 transactionOpCheckSig then tokenData t0 else None
  | _ => None
  end.

Definition matchPayPubKeyHash (tokens : list transactionScriptToken) : option bytes :=
  match tokens with
  | [t0; t1; t2; t3; t4] =>
      if tokenOpcode t0 transactionOpDup && tokenOpcode t1 transactionOpHash160
         && tokenOpcode t3 transactionOpEqualVerify && tokenOpcode t4 transactionOpCheckSig
      then tokenData t2 else None
  | _ => None
  end.

Definition matchPayScriptHash (tokens : list transactionScriptToken) : option bytes :=
  match tokens with
  | [t0; t1; t2] =>
      if tokenOpcode t0 transactionOpHash160 && tokenOpcode t2 transactionOpEqual
      then tokenData t1 else None
  | _ => None
  end.

(** The two in-place [len(tokens) == 2] matches of the output parser. *)
Definition matchOpcodeData (op : byte) (tokens : list transactionScriptToken) : option bytes :=
  match tokens with
  | [t0; t1] => if tokenOpcode t0 op then tokenData t1 else None
  | _ => None
  end.

(** The opcode switch of [parseClaimTransactionScript]: the script with the
    claim fields filled in, and [prefixLength].  The slots [t0 .. t5] exist
    because the caller has checked [len(tokens) >= 8], which also makes the
    per-case length tests true. *)
Definition parseClaimPrefix (t0 t1 t2 t3 t4 t5 : transactionScriptToken)
    (source : bytes) : option (TransactionOutputScript * nat) :=
  claimName ← tokenData t1;
  if Byte.eqb (tok_opcode t0) transactionOpClaimName then
    if negb (tokenOpcode t3 transactionOp2Drop) || negb (tokenOpcode t4 transactionOpDrop)
    then None
    else
      claim ← tokenData t2;
      Some (MkOutputScript source "" [] [] [] [] claimName [] claim [] false false false None,
            5%nat)
  else if Byte.eqb (tok_opcode t0) transactionOpSupportClaim then
    claimID ← tokenData t2;
    if tokenOpcode t3 transactionOp2Drop && tokenOpcode t4 transactionOpDrop then
      Some (MkOutputScript source "" [] [] [] [] claimName claimID [] [] false false false None,
            5%nat)
    else if tokenOpcode t4 transactionOp2Drop && tokenOpcode t5 transactionOp2Drop then
      support ← tokenData t3;
      Some (MkOutputScript source "" [] [] [] [] claimName claimID [] support
              false false true None, 6%nat)
    else None
  else if Byte.eqb (tok_opcode t0) transactionOpUpdateClaim then
    if negb (tokenOpcode t4 transactionOp2Drop) || negb (tokenOpcode t5 transactionOp2Drop)
    then None
    else
      claimID ← tokenData t2;
      claim ← tokenData t3;
      Some (MkOutputScript source "" [] [] [] [] claimName claimID claim []
              false false false None, 6%nat)
  else None.

(** Fill in the address part of a claim script and its template. *)
Definition withPubKeyHash (template : string) (hash : bytes) (s : TransactionOutputScript) :=
  MkOutputScript (out_Source s) template (out_PublicKey s) hash (out_ScriptHash s)
    (out_Data s) (out_ClaimName s) (out_ClaimID s) (out_Claim s) (out_Support s)
    true (out_HasScriptHash s) (out_HasSupportData s) (out_Err s).
Definition withScriptHash (template : string) (hash : bytes) (s : TransactionOutputScript) :=
  MkOutputScript (out_Source s) template (out_PublicKey s) (out_PubKeyHash s) hash
    (out_Data s) (out_ClaimName s) (out_ClaimID s) (out_Claim s) (out_Support s)
    (out_HasPubKeyHash s) true (out_HasSupportData s) (out_Err s).

Definition claimPubKeyTemplate (op : byte) (hasSupportData : bool) : string :=
  if Byte.eqb op transactionOpClaimName then TransactionScriptClaimPubKeyHash
  else if Byte.eqb op transactionOpSupportClaim then
    if negb hasSupportData then TransactionScriptSupportPubKey
    else TransactionScriptSupportDataKey
  else if Byte.eqb op transactionOpUpdateClaim then TransactionScriptUpdatePubKey
  else "".
Definition claimScriptTemplate (op : byte) (hasSupportData : bool) : string :=
  if Byte.eqb op transactionOpClaimName then TransactionScriptClaimScriptHash
  else if Byte.eqb op transactionOpSupportClaim then
    if negb hasSupportData then TransactionScriptSupportScript
    else TransactionScriptSupportDataHash
  else if Byte.eqb op transactionOpUpdateClaim then TransactionScriptUpdateScript
  else "".

(** [None] is the answer [false]; the caller then drops the script it passed. *)
Definition parseClaimTransactionScript
    (tokens : list transactionScriptToken) (source : bytes) : option TransactionOutputScript :=
  match tokens with
  | t0 :: t1 :: t2 :: t3 :: t4 :: t5 :: _ =>
      if (length tokens <? 8)%nat || tok_isData t0 then None
      else
        '(script, prefixLength) ← parseClaimPrefix t0 t1 t2 t3 t4 t5 source;
        let suffix := drop prefixLength tokens in
        match matchPayPubKeyHash suffix with
        | Some hash =>
            Some (withPubKeyHash
                    (claimPubKeyTemplate (tok_opcode t0) (out_HasSupportData script)) hash script)
        | None =>
            match matchPayScriptHash suffix with
            | Some hash =>
                Some (withScriptHash
                        (claimScriptTemplate (tok_opcode t0) (out_HasSupportData script))
                        hash script)
            | None => None
            end
        end
  | _ => None
  end.

Definition outputScriptError (source : bytes) (e : string) : TransactionOutputScript :=
  MkOutputScript source "" [] [] [] [] [] [] [] [] false false false (Some e).

(** The template switch of [ParseTransactionOutputScript] on the tokens. *)
Definition parseOutputTokens (source : bytes) (tokens : list transactionScriptToken)
    : TransactionOutputScript :=
  match tokens with
  | [] => MkOutputScript source TransactionScriptNoScript [] [] [] [] [] [] [] []
            false false false None
  | _ =>
    match matchPayPubKeyFull tokens with
    | Some data => MkOutputScript source TransactionScriptPayPubKeyFull data [] [] []
                     [] [] [] [] false false false None
    | None =>
    match matchPayPubKeyHash tokens with
    | Some hash => withPubKeyHash TransactionScriptPayPubKeyHash hash (outputScriptOf source)
    | None =>
    match matchPayScriptHash tokens with
    | Some hash => withScriptHash TransactionScriptPayScriptHash hash (outputScriptOf source)
    | None =>
    match matchOpcodeData transactionOp0 tokens with
    | Some data => withScriptHash TransactionScriptPaySegWit data (outputScriptOf source)
    | None =>
    match matchOpcodeData transactionOpReturn tokens with
    | Some data => MkOutputScript source TransactionScriptReturnData [] [] [] data
                     [] [] [] [] false false false None
    | None =>
    match parseClaimTransactionScript tokens source with
    | Some script => script
    | None => outputScriptError source (ErrInvalidTransactionScript ": no matching output template")
    end end end end end end
  end.

(** The parser never fails: an error is stored in the script. *)
Definition ParseTransactionOutputScript (source : bytes) : res TransactionOutputScript :=
  match tokenizeTransactionScript source with
  | Ok tokens => Ok (parseOutputTokens source tokens)
  | Err e => Ok (outputScriptError source e)
  | Panic => Panic
  | NoFuel => NoFuel
  end.

(** ** Input scripts *)

(** [new(big.Int).SetBytes] of the reversed bytes. *)
Definition littleEndianTransactionInteger (source : bytes) : Z := be_value (rev source).

Definition parseTimeLockSubscript (source : bytes) : option TransactionInputSubscript :=
  match tokenizeTransactionScript source with
  | Ok [t0; t1; t2; t3; t4; t5; t6; t7] =>
      if negb (tokenOpcode t1 transactionOpCheckLockTimeVerify)
         || negb (tokenOpcode t2 transactionOpDrop)
         || negb (tokenOpcode t3 transactionOpDup)
         || negb (tokenOpcode t4 transactionOpHash160)
         || negb (tokenOpcode t6 transactionOpEqualVerify)
         || negb (tokenOpcode t7 transactionOpCheckSig)
      then None
      else
        heightSource ← strictTokenData t0;
        pubKeyHash ← tokenData t5;
        Some (MkSubscript source TransactionInputTimeLock
                (Some (littleEndianTransactionInteger heightSource)) pubKeyHash 0 [] 0)
  | _ => None
  end.

(** [signaturesCount, publicKeys..., publicKeysCount, OP_CHECKMULTISIG] *)
Definition parseMultiSigTokens (source : bytes) (tokens : list transactionScriptToken)
    : option TransactionInputSubscript :=
  let n := length tokens in
  if (n <? 4)%nat then None else
  checkMultiSig ← tokens !! (n - 1)%nat;
  if negb (tokenOpcode checkMultiSig transactionOpCheckMultiSig) then None else
  signaturesCount ← (tokens !! 0%nat) ≫= tokenSmallInteger;
  publicKeysCount ← (tokens !! (n - 2)%nat) ≫= tokenSmallInteger;
  publicKeys ← mapM strictTokenData (take (n - 2 - 1) (drop 1 tokens));
  if (length publicKeys =? 0)%nat then None else
  Some (MkSubscript source TransactionInputMultiSig None [] signaturesCount publicKeys
          publicKeysCount).

Definition parseMultiSigSubscript (source : bytes) : option TransactionInputSubscript :=
  match tokenizeTransactionScript source with
  | Ok tokens => parseMultiSigTokens source tokens
  | _ => None
  end.

Definition matchInputPubKey (tokens : list transactionScriptToken) : option bytes :=
  match tokens with [t0] => tokenData t0 | _ => None end.
Definition matchInputPubKeyHash (tokens : list transactionScriptToken)
    : option (bytes * bytes) :=
  match tokens with
  | [t0; t1] => signature ← tokenData t0; publicKey ← tokenData t1; Some (signature, publicKey)
  | _ => None
  end.
Definition matchInputTimeLock (tokens : list transactionScriptToken)
    : option (bytes * bytes * TransactionInputSubscript) :=
  match tokens with
  | [t0; t1; t2] =>
      signature ← tokenData t0;
      publicKey ← tokenData t1;
      subscriptSource ← strictTokenData t2;
      subscript ← parseTimeLockSubscript subscriptSource;
      Some (signature, publicKey, subscript)
  | _ => None
  end.
Definition matchInputMultiSig (tokens : list transactionScriptToken)
    : option (list bytes * TransactionInputSubscript) :=
  match tokens with
  | t0 :: _ =>
      let n := length tokens in
      if (n <? 3)%nat || negb (tokenOpcode t0 transactionOp0) then None else
      subscriptSource ← (tokens !! (n - 1)%nat) ≫= strictTokenData;
      signatures ← mapM strictTokenData (take (n - 1 - 1) (drop 1 tokens));
      subscript ← parseMultiSigSubscript subscriptSource;
      Some (signatures, subscript)
  | [] => None
  end.

Definition parseInputTokens (source : bytes) (tokens : list transactionScriptToken)
    : TransactionInputScript :=
  match tokens with
  | [] => MkInputScript source TransactionInputNoScript [] [] [] None None
  | _ =>
    match matchInputPubKey tokens with
    | Some signature => MkInputScript source TransactionInputPubKey signature [] [] None None
    | None =>
    match matchInputPubKeyHash tokens with
    | Some (signature, publicKey) =>
        MkInputScript source TransactionInputPubKeyHash signature publicKey [] None None
    | None =>
    match matchInputTimeLock tokens with
    | Some (signature, publicKey, subscript) =>
        MkInputScript source TransactionInputScriptHashTime signature publicKey []
          (Some subscript) None
    | None =>
    match matchInputMultiSig tokens with
    | Some (signatures, subscript) =>
        MkInputScript source TransactionInputScriptHashMulti [] [] signatures
          (Some subscript) None
    | None =>
        MkInputScript source "" [] [] [] None
          (Some (ErrInvalidTransactionScript ": no matching input template"))
    end end end end
  end.

Definition ParseTransactionInputScript (source : bytes) : res TransactionInputScript :=
  match tokenizeTransactionScript source with
  | Ok tokens => Ok (parseInputTokens source tokens)
  | Err e => Ok (MkInputScript source "" [] [] [] None (Some e))
  | Panic => Panic
  | NoFuel => NoFuel
  end.

(** ** The tokenizer terminates and does not depend on spare fuel *)

Lemma pushLength_rest op rest n rest' :
  pushLength op rest = Ok (n, rest') -> 0 <= n /\ (length rest' <= length rest)%nat.
Proof.
  unfold pushLength. intros H.
  pose proof (Zb_range op) as Hop.
  repeat (case_match; try discriminate); simplify_eq; cbn [length];
    rewrite ?length_drop; split; try apply le_value_range; try apply blen_nonneg; try lia.
  apply Zb_range.
Qed.

Lemma pushLength_returns op rest : returns (pushLength op rest).
Proof. unfold pushLength. repeat (case_match; cbn; auto). Qed.

Lemma tokenizeLoop_fuel fuel source :
  (length source <= fuel)%nat ->
  tokenizeLoop fuel source = tokenizeLoop (length source) source.
Proof.
  revert source. induction fuel as [fuel IH] using (well_founded_induction lt_wf).
  intros [|op rest] Hlen; [by destruct fuel|].
  destruct fuel as [|fuel]; cbn [length] in *; [lia|]. cbn [tokenizeLoop].
  destruct (_ || _).
  - by rewrite IH by lia.
  - destruct (pushLength op rest) as [[n rest']| | |] eqn:E; try done.
    apply pushLength_rest in E as [_ Hle]. cbn.
    set (d := drop _ rest').
    assert (length d <= length rest)%nat by (unfold d; rewrite length_drop; lia).
    rewrite (IH fuel) by lia.
    destruct (decide (length rest = fuel)) as [->|]; [by rewrite (IH fuel) by lia|].
    by rewrite (IH (length rest)) by lia.
Qed.

Lemma tokenizeLoop_returns fuel source :
  (length source <= fuel)%nat -> returns (tokenizeLoop fuel source).
Proof.
  revert source. induction fuel as [|fuel IH]; intros [|op rest] Hlen; cbn [length] in *;
    try done; try lia.
  cbn [tokenizeLoop]. destruct (_ || _).
  - apply returns_bind; [apply IH; lia | done].
  - destruct (pushLength op rest) as [[n rest']| | |] eqn:E;
      pose proof (pushLength_returns op rest) as Hr; rewrite E in Hr; try done.
    apply pushLength_rest in E as [_ Hle]. cbn.
    apply returns_bind; [apply IH; rewrite length_drop; lia | done].
Qed.

Lemma tokenize_returns source : returns (tokenizeTransactionScript source).
Proof. by apply tokenizeLoop_returns. Qed.

(** The parsers return on every input. *)
Lemma ParseTransactionOutputScript_Ok source :
  exists s, ParseTransactionOutputScript source = Ok s.
Proof.
  unfold ParseTransactionOutputScript. pose proof (tokenize_returns source).
  destruct (tokenizeTransactionScript source); naive_solver.
Qed.
Lemma ParseTransactionInputScript_Ok source :
  exists s, ParseTransactionInputScript source = Ok s.
Proof.
  unfold ParseTransactionInputScript. pose proof (tokenize_returns source).
  destruct (tokenizeTransactionScript source); naive_solver.
Qed.

(** ** Equations of the tokenizer *)

Definition isPushOpcode (op : byte) : bool :=
  negb ((Zb op <? 1) || (Zb transactionOpPushData4 <? Zb op)).

Lemma tokenize_nil : tokenizeTransactionScript [] = Ok [].
Proof. done. Qed.

Lemma tokenize_opcode op rest :
  isPushOpcode op = false ->
  tokenizeTransactionScript (op :: rest) =
  (tokens ← tokenizeTransactionScript rest; Ok (opTok op :: tokens)).
Proof.
  unfold isPushOpcode, tokenizeTransactionScript. intros H%negb_false_iff.
  cbn [length tokenizeLoop]. by rewrite H.
Qed.

Lemma tokenize_push op rest n d tail :
  isPushOpcode op = true ->
  pushLength op rest = Ok (n, d ++ tail) -> n = blen d ->
  tokenizeTransactionScript (op :: rest) =
  (tokens ← tokenizeTransactionScript tail; Ok (dataTok d :: tokens)).
Proof.
  unfold isPushOpcode, tokenizeTransactionScript. intros H%negb_true_iff Hp ->.
  cbn [length tokenizeLoop]. rewrite H, Hp. cbn.
  apply pushLength_rest in Hp as [_ Hle].
  rewrite blen_app. destruct (Z.ltb_spec (blen d + blen tail) (blen d)) as [Hlt|_].
  { pose proof (blen_nonneg tail). lia. }
  unfold blen at 1 2. rewrite Nat2Z.id.
  rewrite take_app_length, drop_app_length.
  rewrite tokenizeLoop_fuel; [done|]. rewrite length_app in Hle. lia.
Qed.

(** Tokens of an opcode and of a push, as the template matchers see them. *)
Lemma tokenOpcode_opTok a b : tokenOpcode (opTok a) b = Byte.eqb a b.
Proof. done. Qed.
Lemma tokenOpcode_dataTok d b : tokenOpcode (dataTok d) b = false.
Proof. done. Qed.
Lemma tokenData_dataTok d : tokenData (dataTok d) = Some d.
Proof. done. Qed.
Lemma strictTokenData_dataTok d : strictTokenData (dataTok d) = Some d.
Proof. done. Qed.

(** A parsed script keeps its source. *)
Lemma parseOutputTokens_Source source tokens :
  out_Source (parseOutputTokens source tokens) = source.
Proof.
  unfold parseOutputTokens. repeat case_match; try done.
  subst. unfold parseClaimTransactionScript in *.
  repeat (case_match; try discriminate).
  match goal with H : _ ≫= _ = Some _ |- _ => apply bind_Some in H as ([s n] & Hp & H) end.
  assert (out_Source s = source).
  { unfold parseClaimPrefix in Hp.
    repeat (first [case_match | apply bind_Some in Hp as (? & ? & Hp)]; try discriminate);
      by simplify_eq. }
  repeat (case_match; try discriminate); by simplify_eq.
Qed.

Lemma parse_output_Source source s :
  ParseTransactionOutputScript source = Ok s -> out_Source s = source.
Proof.
  unfold ParseTransactionOutputScript. intros H.
  case_match; simplify_eq; [apply parseOutputTokens_Source | done].
Qed.
Lemma parse_input_Source source s :
  ParseTransactionInputScript source = Ok s -> in_Source s = source.
Proof.
  unfold ParseTransactionInputScript, parseInputTokens. intros H.
  repeat (case_match; try discriminate); by simplify_eq.
Qed.
