(* ===== verification/ScriptBuild.v ===== *)
(** * Transaction scripts: generation

    Model of [wallet/transaction_script_build.go].  A
    [transactionScriptBuilder] is the byte sequence written so far; the [Err]
    result of a [Generate] method leaves the caller's script as it was, so a
    method with a pointer receiver returns the new struct on success only. *)

From S2P Require Import Prelude Script.

Definition ErrTransactionScriptGeneration (what : string) : string :=
  ("wallet transaction script generation failed" ++ what)%string.

(** ** Encoders *)

Definition encodeTransactionPushData (data : bytes) : res bytes :=
  let size := blen data in
  if size <? Zb transactionOpPushData1 then Ok ([byt size] ++ data)
  else if size <=? 0xff then Ok ([transactionOpPushData1; byt size] ++ data)
  else if size <=? 0xffff then Ok (transactionOpPushData2 :: le_bytes 2 size ++ data)
  else if size <=? 0xffffffff then Ok (transactionOpPushData4 :: le_bytes 4 size ++ data)
  else Err (ErrTransactionScriptGeneration ": pushed value is larger than uint32").

(** [big.Int.BitLen]: the length of the absolute value in bits. *)
Definition bitLen (z : Z) : Z := if z =? 0 then 0 else Z.log2 (Z.abs z) + 1.

Definition encodeTransactionScriptInteger (value : option Z) : res bytes :=
  match value with
  | None => Err (ErrTransactionScriptGeneration ": script integer is nil")
  | Some value =>
      let byteLength := bitLen value / 8 + 1 in
      let n := Z.to_nat byteLength in
      let bigEndian :=
        if 0 <=? value then be_bytes n value
        else be_bytes n (Z.shiftl 1 (byteLength * 8) + value) in
      encodeTransactionPushData (rev bigEndian)
  end.

Definition encodeTransactionSmallInteger (value : Z) : res byte :=
  if (value <? 1) || (16 <? value)
  then Err (ErrTransactionScriptGeneration ": small integer is outside 1..16")
  else Ok (byt (Zb transactionOp1 + Zb (byt (value - 1)))).

(** ** The builder *)

Definition transactionScriptBuilder := bytes.
Definition builderOpcodes (builder : transactionScriptBuilder) (opcodes : bytes)
  : transactionScriptBuilder := builder ++ opcodes.
Definition builderPush (builder : transactionScriptBuilder) (data : bytes)
  : res transactionScriptBuilder :=
  encoded ← encodeTransactionPushData data; Ok (builder ++ encoded).
Definition builderInteger (builder : transactionScriptBuilder) (value : option Z)
  : res transactionScriptBuilder :=
  encoded ← encodeTransactionScriptInteger value; Ok (builder ++ encoded).
Definition builderSmallInteger (builder : transactionScriptBuilder) (value : Z)
  : res transactionScriptBuilder :=
  encoded ← encodeTransactionSmallInteger value; Ok (builder ++ [encoded]).
(** [for _, item := range items { if err = builder.push(item); err != nil { break } }] *)
Fixpoint builderPushAll (builder : transactionScriptBuilder) (items : list bytes)
  : res transactionScriptBuilder :=
  match items with
  | [] => Ok builder
  | item :: items => builder ← builderPush builder item; builderPushAll builder items
  end.

(** ** Output scripts *)

Definition generateTransactionPayPubKeyHash (builder : transactionScriptBuilder) (hash : bytes)
  : res transactionScriptBuilder :=
  let builder := builderOpcodes builder [transactionOpDup; transactionOpHash160] in
  builder ← builderPush builder hash;
  Ok (builderOpcodes builder [transactionOpEqualVerify; transactionOpCheckSig]).

Definition generateTransactionPayScriptHash (builder : transactionScriptBuilder) (hash : bytes)
  : res transactionScriptBuilder :=
  let builder := builderOpcodes builder [transactionOpHash160] in
  builder ← builderPush builder hash;
  Ok (builderOpcodes builder [transactionOpEqual]).

Definition generateTransactionClaimPrefix (builder : transactionScriptBuilder) (opcode : byte)
    (script : TransactionOutputScript) : res transactionScriptBuilder :=
  let builder := builderOpcodes builder [opcode] in
  builder ← builderPush builder (out_ClaimName script);
  if Byte.eqb opcode transactionOpClaimName then
    builder ← builderPush builder (out_Claim script);
    Ok (builderOpcodes builder [transactionOp2Drop; transactionOpDrop])
  else if Byte.eqb opcode transactionOpSupportClaim then
    builder ← builderPush builder (out_ClaimID script);
    if String.eqb (out_Template script) TransactionScriptSupportDataKey
       || String.eqb (out_Template script) TransactionScriptSupportDataHash then
      builder ← builderPush builder (out_Support script);
      Ok (builderOpcodes builder [transactionOp2Drop; transactionOp2Drop])
    else Ok (builderOpcodes builder [transactionOp2Drop; transactionOpDrop])
  else if Byte.eqb opcode transactionOpUpdateClaim then
    builder ← builderPush builder (out_ClaimID script);
    builder ← builderPush builder (out_Claim script);
    Ok (builderOpcodes builder [transactionOp2Drop; transactionOp2Drop])
  else Err (ErrTransactionScriptGeneration ": unknown claim opcode").

(** A claim prefix followed by the two kinds of address. *)
Definition generateClaimPubKeyHash (opcode : byte) (script : TransactionOutputScript)
  : res transactionScriptBuilder :=
  builder ← generateTransactionClaimPrefix [] opcode script;
  generateTransactionPayPubKeyHash builder (out_PubKeyHash script).
Definition generateClaimScriptHash (opcode : byte) (script : TransactionOutputScript)
  : res transactionScriptBuilder :=
  builder ← generateTransactionClaimPrefix [] opcode script;
  generateTransactionPayScriptHash builder (out_ScriptHash script).

(** The template switch: the built source and the flags
    [hasPubKeyHash], [hasScriptHash], [hasSupportData]. *)
Definition generateOutputTemplate (script : TransactionOutputScript)
  : res (transactionScriptBuilder * (bool * bool * bool)) :=
  let tpl := String.eqb (out_Template script) in
  if tpl TransactionScriptNoScript then
    Err (ErrTransactionScriptGeneration ": no_script output template has no generation opcodes")
  else if tpl TransactionScriptPayPubKeyFull then
    builder ← builderPush [] (out_PublicKey script);
    Ok (builderOpcodes builder [transactionOpCheckSig], (false, false, false))
  else if tpl TransactionScriptPayPubKeyHash then
    builder ← generateTransactionPayPubKeyHash [] (out_PubKeyHash script);
    Ok (builder, (true, false, false))
  else if tpl TransactionScriptPayScriptHash then
    builder ← generateTransactionPayScriptHash [] (out_ScriptHash script);
    Ok (builder, (false, true, false))
  else if tpl TransactionScriptPaySegWit then
    builder ← builderPush (builderOpcodes [] [transactionOp0]) (out_ScriptHash script);
    Ok (builder, (false, true, false))
  else if tpl TransactionScriptReturnData then
    builder ← builderPush (builderOpcodes [] [transactionOpReturn]) (out_Data script);
    Ok (builder, (false, false, false))
  else if tpl TransactionScriptClaimPubKeyHash then
    builder ← generateClaimPubKeyHash transactionOpClaimName script;
    Ok (builder, (true, false, false))
  else if tpl TransactionScriptClaimScriptHash then
    builder ← generateClaimScriptHash transactionOpClaimName script;
    Ok (builder, (false, true, false))
  else if tpl TransactionScriptSupportPubKey then
    builder ← generateClaimPubKeyHash transactionOpSupportClaim script;
    Ok (builder, (true, false, false))
  else if tpl TransactionScriptSupportScript then
    builder ← generateClaimScriptHash transactionOpSupportClaim script;
    Ok (builder, (false, true, false))
  else if tpl TransactionScriptSupportDataKey then
    builder ← generateClaimPubKeyHash transactionOpSupportClaim script;
    Ok (builder, (true, false, true))
  else if tpl TransactionScriptSupportDataHash then
    builder ← generateClaimScriptHash transactionOpSupportClaim script;
    Ok (builder, (false, true, true))
  else if tpl TransactionScriptUpdatePubKey then
    builder ← generateClaimPubKeyHash transactionOpUpdateClaim script;
    Ok (builder, (true, false, false))
  else if tpl TransactionScriptUpdateScript then
    builder ← generateClaimScriptHash transactionOpUpdateClaim script;
    Ok (builder, (false, true, false))
  else Err (ErrTransactionScriptGeneration ": unknown output template").

(** [TransactionOutputScript.Generate] on a non-nil receiver. *)
Definition GenerateOutputScript (script : TransactionOutputScript)
  : res TransactionOutputScript :=
  '(source, (hasPubKeyHash, hasScriptHash, hasSupportData)) ← generateOutputTemplate script;
  Ok (MkOutputScript source (out_Template script) (out_PublicKey script)
        (out_PubKeyHash script) (out_ScriptHash script) (out_Data script)
        (out_ClaimName script) (out_ClaimID script) (out_Claim script) (out_Support script)
        hasPubKeyHash hasScriptHash hasSupportData None).

(** The constructors: clone the arguments into a zero struct and generate. *)
Definition NewPayPubKeyFullOutputScript (publicKey : bytes) :=
  GenerateOutputScript (MkOutputScript [] TransactionScriptPayPubKeyFull publicKey [] [] []
    [] [] [] [] false false false None).
Definition NewPayPubKeyHashOutputScript (pubKeyHash : bytes) :=
  GenerateOutputScript (MkOutputScript [] TransactionScriptPayPubKeyHash [] pubKeyHash [] []
    [] [] [] [] false false false None).
Definition NewPayScriptHashOutputScript (scriptHash : bytes) :=
  GenerateOutputScript (MkOutputScript [] TransactionScriptPayScriptHash [] [] scriptHash []
    [] [] [] [] false false false None).
Definition NewSegWitOutputScript (scriptHash : bytes) :=
  GenerateOutputScript (MkOutputScript [] TransactionScriptPaySegWit [] [] scriptHash []
    [] [] [] [] false false false None).
Definition NewReturnDataOutputScript (data : bytes) :=
  GenerateOutputScript (MkOutputScript [] TransactionScriptReturnData [] [] [] data
    [] [] [] [] false false false None).
Definition NewClaimNamePubKeyHashOutputScript (claimName claim pubKeyHash : bytes) :=
  GenerateOutputScript (MkOutputScript [] TransactionScriptClaimPubKeyHash [] pubKeyHash [] []
    claimName [] claim [] false false false None).
Definition NewClaimNameScriptHashOutputScript (claimName claim scriptHash : bytes) :=
  GenerateOutputScript (MkOutputScript [] TransactionScriptClaimScriptHash [] [] scriptHash []
    claimName [] claim [] false false false None).
Definition NewUpdateClaimPubKeyHashOutputScript (claimName claimID claim pubKeyHash : bytes) :=
  GenerateOutputScript (MkOutputScript [] TransactionScriptUpdatePubKey [] pubKeyHash [] []
    claimName claimID claim [] false false false None).
Definition NewUpdateClaimScriptHashOutputScript (claimName claimID claim scriptHash : bytes) :=
  GenerateOutputScript (MkOutputScript [] TransactionScriptUpdateScript [] [] scriptHash []
    claimName claimID claim [] false false false None).
Definition NewSupportPubKeyHashOutputScript (claimName claimID pubKeyHash : bytes) :=
  GenerateOutputScript (MkOutputScript [] TransactionScriptSupportPubKey [] pubKeyHash [] []
    claimName claimID [] [] false false false None).
Definition NewSupportScriptHashOutputScript (claimName claimID scriptHash : bytes) :=
  GenerateOutputScript (MkOutputScript [] TransactionScriptSupportScript [] [] scriptHash []
    claimName claimID [] [] false false false None).
Definition NewSupportDataPubKeyHashOutputScript (claimName claimID support pubKeyHash : bytes) :=
  GenerateOutputScript (MkOutputScript [] TransactionScriptSupportDataKey [] pubKeyHash [] []
    claimName claimID [] support false false false None).
Definition NewSupportDataScriptHashOutputScript (claimName claimID support scriptHash : bytes) :=
  GenerateOutputScript (MkOutputScript [] TransactionScriptSupportDataHash [] [] scriptHash []
    claimName claimID [] support false false false None).

(** ** Input scripts *)

(** [TransactionInputSubscript.Generate] *)
Definition generateSubscriptSource (script : TransactionInputSubscript)
  : res transactionScriptBuilder :=
  if String.eqb (sub_Template script) TransactionInputTimeLock then
    builder ← builderInteger [] (sub_Height script);
    let builder := builderOpcodes builder
      [transactionOpCheckLockTimeVerify; transactionOpDrop;
       transactionOpDup; transactionOpHash160] in
    builder ← builderPush builder (sub_PubKeyHash script);
    Ok (builderOpcodes builder [transactionOpEqualVerify; transactionOpCheckSig])
  else if String.eqb (sub_Template script) TransactionInputMultiSig then
    builder ← builderSmallInteger [] (sub_SignaturesCount script);
    builder ← builderPushAll builder (sub_PublicKeys script);
    builder ← builderSmallInteger builder (sub_PublicKeysCount script);
    Ok (builderOpcodes builder [transactionOpCheckMultiSig])
  else Err (ErrTransactionScriptGeneration ": unknown input subscript template").

Definition GenerateInputSubscript (script : TransactionInputSubscript)
  : res TransactionInputSubscript :=
  source ← generateSubscriptSource script;
  Ok (MkSubscript source (sub_Template script) (sub_Height script) (sub_PubKeyHash script)
        (sub_SignaturesCount script) (sub_PublicKeys script) (sub_PublicKeysCount script)).

(** [TransactionInputScript.Generate]; a nested script is embedded from its
    [Source] without being regenerated. *)
Definition generateInputSource (script : TransactionInputScript)
  : res transactionScriptBuilder :=
  if String.eqb (in_Template script) TransactionInputNoScript then
    Err (ErrTransactionScriptGeneration ": no_script input template has no generation opcodes")
  else if String.eqb (in_Template script) TransactionInputPubKey then
    builderPush [] (in_Signature script)
  else if String.eqb (in_Template script) TransactionInputPubKeyHash then
    builder ← builderPush [] (in_Signature script);
    builderPush builder (in_PublicKey script)
  else if String.eqb (in_Template script) TransactionInputScriptHashTime then
    match in_Script script with
    | None => Err (ErrTransactionScriptGeneration ": timelock subscript is nil")
    | Some subscript =>
        builder ← builderPush [] (in_Signature script);
        builder ← builderPush builder (in_PublicKey script);
        builderPush builder (sub_Source subscript)
    end
  else if String.eqb (in_Template script) TransactionInputScriptHashMulti then
    match in_Script script with
    | None => Err (ErrTransactionScriptGeneration ": multisig subscript is nil")
    | Some subscript =>
        builder ← builderPushAll (builderOpcodes [] [transactionOp0]) (in_Signatures script);
        builderPush builder (sub_Source subscript)
    end
  else Err (ErrTransactionScriptGeneration ": unknown input template").

Definition GenerateInputScript (script : TransactionInputScript) : res TransactionInputScript :=
  source ← generateInputSource script;
  Ok (MkInputScript source (in_Template script) (in_Signature script) (in_PublicKey script)
        (in_Signatures script) (in_Script script) None).

Definition NewTimeLockInputSubscript (height : option Z) (pubKeyHash : bytes) :=
  GenerateInputSubscript (MkSubscript [] TransactionInputTimeLock height pubKeyHash 0 [] 0).
Definition NewMultiSigInputSubscript (signaturesCount : Z) (publicKeys : list bytes)
    (publicKeysCount : Z) :=
  GenerateInputSubscript
    (MkSubscript [] TransactionInputMultiSig None [] signaturesCount publicKeys publicKeysCount).

Definition NewRedeemPubKeyInputScript (signature : bytes) :=
  GenerateInputScript (MkInputScript [] TransactionInputPubKey signature [] [] None None).
Definition NewRedeemPubKeyHashInputScript (signature publicKey : bytes) :=
  GenerateInputScript (MkInputScript [] TransactionInputPubKeyHash signature publicKey [] None None).
Definition NewRedeemMultiSigScriptHashInputScript (signatures publicKeys : list bytes)
  : res TransactionInputScript :=
  _ ← encodeTransactionSmallInteger (blen signatures);
  _ ← encodeTransactionSmallInteger (blen publicKeys);
  subscript ← NewMultiSigInputSubscript (u8 (blen signatures)) publicKeys (u8 (blen publicKeys));
  GenerateInputScript
    (MkInputScript [] TransactionInputScriptHashMulti [] [] signatures (Some subscript) None).

(** The subscript comes from the height and key hash when both are given, else
    from the script source. *)
Definition timeLockSubscript (height : option Z) (pubKeyHash scriptSource : bytes)
  : res TransactionInputSubscript :=
  let heightGiven := match height with Some h => negb (h =? 0) | None => false end in
  if heightGiven && (0 <? blen pubKeyHash) then NewTimeLockInputSubscript height pubKeyHash
  else if 0 <? blen scriptSource then
    match parseTimeLockSubscript scriptSource with
    | None => Err (ErrTransactionScriptGeneration ": invalid timelock script source")
    | Some parsed => Ok parsed
    end
  else Err (ErrTransactionScriptGeneration
              ": script source or both height and pubkey hash are required").
Definition NewRedeemTimeLockScriptHashInputScript (signature publicKey : bytes)
    (height : option Z) (pubKeyHash scriptSource : bytes) : res TransactionInputScript :=
  subscript ← timeLockSubscript height pubKeyHash scriptSource;
  GenerateInputScript
    (MkInputScript [] TransactionInputScriptHashTime signature publicKey [] (Some subscript) None).
