(* ===== verification/ScriptRoundtrip.v ===== *)
(** * Scripts: generation and parsing agree

    The bytes a [Generate] method writes are described by a list of items
    ([emits]); the tokenizer reads the items back ([tokenize_emits]); and every
    template is recognised from its items.  Together: parsing the source of a
    generated script gives the generated script. *)

From S2P Require Import Prelude Script ScriptBuild.

(** ** Items *)

Inductive item := IOp (op : byte) | IPush (d : bytes).

(** The empty push is written as [OP_0], so it is read back as an opcode. *)
Definition pushTok (d : bytes) : transactionScriptToken :=
  match d with [] => opTok transactionOp0 | _ => dataTok d end.
Definition itemToken (i : item) : transactionScriptToken :=
  match i with IOp op => opTok op | IPush d => pushTok d end.
#[global] Arguments pushTok : simpl never.

Lemma tokenData_push d : tokenData (pushTok d) = Some d.
Proof. by destruct d. Qed.
Lemma tokenData_opTok op :
  tokenData (opTok op) = if Byte.eqb op transactionOp0 then Some [] else None.
Proof. done. Qed.
Lemma strictTokenData_push d : d <> [] -> strictTokenData (pushTok d) = Some d.
Proof. by destruct d. Qed.
Lemma tokenOpcode_push d op : Byte.eqb x00 op = false -> tokenOpcode (pushTok d) op = false.
Proof. by destruct d. Qed.
Lemma tokenSmallInteger_push d : tokenSmallInteger (pushTok d) = None.
Proof. by destruct d. Qed.

Inductive emits : list item -> bytes -> Prop :=
| emits_nil : emits [] []
| emits_op op its e : isPushOpcode op = false -> emits its e -> emits (IOp op :: its) (op :: e)
| emits_push d p its e :
    encodeTransactionPushData d = Ok p -> emits its e -> emits (IPush d :: its) (p ++ e).

Lemma emits_app its e its' e' : emits its e -> emits its' e' -> emits (its ++ its') (e ++ e').
Proof.
  induction 1; intros; cbn; [done | by constructor; auto|].
  rewrite <- app_assoc. constructor; auto.
Qed.

Lemma pushLength_small n rest :
  0 <= n < 76 -> pushLength (byt n) rest = Ok (n, rest).
Proof.
  intros Hn. unfold pushLength. rewrite !eqb_byte.
  assert (forall b, 76 <= Zb b -> byt n <> b) as Hne
    by (intros b Hb <-; rewrite Zb_byt_id in Hb; lia).
  rewrite !bool_decide_eq_false_2 by (by apply Hne).
  by rewrite Zb_byt_id by lia.
Qed.

Lemma take_drop_le n size (d : bytes) :
  take n (le_bytes n size ++ d) = le_bytes n size /\ drop n (le_bytes n size ++ d) = d.
Proof.
  split; [apply take_app_length' | apply drop_app_length']; by rewrite length_le_bytes.
Qed.

Lemma pushLength_wide op n size d :
  (op = transactionOpPushData2 /\ n = 2%nat) \/ (op = transactionOpPushData4 /\ n = 4%nat) ->
  0 <= size < 256 ^ Z.of_nat n ->
  pushLength op (le_bytes n size ++ d) = Ok (size, d).
Proof.
  intros Hop Hsize. destruct (take_drop_le n size d) as [Ht Hd].
  assert (blen (le_bytes n size ++ d) = Z.of_nat n + blen d) as Hl
    by (rewrite blen_app; unfold blen at 1; by rewrite length_le_bytes).
  pose proof (blen_nonneg d).
  destruct Hop as [[-> ->]|[-> ->]]; cbv [pushLength transactionOpPushData1
    transactionOpPushData2 transactionOpPushData4 Byte.eqb]; cbn [Byte.to_bits Bool.eqb andb];
    rewrite Hl, Ht, Hd, le_value_bytes_id by done;
    repeat match goal with
    | |- context [?a =? ?b] => destruct (Z.eqb_spec a b); [lia|]
    | |- context [?a <? ?b] => destruct (Z.ltb_spec a b); [lia|]
    end; done.
Qed.

Lemma tokenize_pushed d p tail :
  encodeTransactionPushData d = Ok p ->
  tokenizeTransactionScript (p ++ tail) =
  (tokens ← tokenizeTransactionScript tail; Ok (itemToken (IPush d) :: tokens)).
Proof.
  unfold encodeTransactionPushData. pose proof (blen_nonneg d) as H0.
  destruct (Z.ltb_spec (blen d) (Zb transactionOpPushData1)) as [H|H]; [|
  destruct (Z.leb_spec (blen d) 0xff); [| destruct (Z.leb_spec (blen d) 0xffff); [|
  destruct (Z.leb_spec (blen d) 0xffffffff); [|done]]]]; intros <-%(inj Ok).
  - change (Zb transactionOpPushData1) with 76 in H. destruct d as [|b d].
    { by apply tokenize_opcode. }
    cbn [app itemToken]. unfold pushTok. rewrite blen_cons in *. apply tokenize_push with (n := 1 + blen d).
    + unfold isPushOpcode. rewrite Zb_byt_id by lia. change (Zb transactionOpPushData4) with 78.
      destruct (Z.ltb_spec (1 + blen d) 1), (Z.ltb_spec 78 (1 + blen d)); try lia; try done.
      pose proof (blen_nonneg d); lia.
    + apply pushLength_small. lia.
    + by rewrite blen_cons.
  - change (Zb transactionOpPushData1) with 76 in H.
    cbn [app]. destruct d as [|b d]; [by rewrite blen_nil in H|].
    cbn [itemToken]. unfold pushTok.
    eapply tokenize_push; [done| |done].
    cbn. rewrite Zb_byt_id by lia. done.
  - cbn [app]. rewrite <- app_assoc.
    destruct d as [|b d]; [by rewrite blen_nil in H|]. cbn [itemToken]. unfold pushTok.
    eapply tokenize_push; [done| |done].
    rewrite pushLength_wide; [done | by left | lia].
  - cbn [app]. rewrite <- app_assoc.
    destruct d as [|b d]; [by rewrite blen_nil in H|]. cbn [itemToken]. unfold pushTok.
    eapply tokenize_push; [done| |done].
    rewrite pushLength_wide; [done | by right | lia].
Qed.

Lemma tokenize_emits its e :
  emits its e -> tokenizeTransactionScript e = Ok (map itemToken its).
Proof.
  induction 1 as [|op its e Hop He IH|d p its e Hp He IH]; [done|..].
  - by rewrite tokenize_opcode, IH.
  - by rewrite (tokenize_pushed d), IH.
Qed.

(** ** What the builder writes *)

Definition builds (b b' : bytes) (its : list item) : Prop :=
  exists e, b' = b ++ e /\ emits its e.

Lemma builds_trans b b' b'' i j : builds b b' i -> builds b' b'' j -> builds b b'' (i ++ j).
Proof.
  intros (e & -> & He) (e' & -> & He'). exists (e ++ e').
  rewrite app_assoc. split; [done | by apply emits_app].
Qed.
Lemma builds_push b d b' : builderPush b d = Ok b' -> builds b b' [IPush d].
Proof.
  unfold builderPush. intros H. res_inv.
  exists (x ++ []). split; [by rewrite app_nil_r | by repeat constructor].
Qed.
Lemma builds_encoded b d p : encodeTransactionPushData d = Ok p -> builds b (b ++ p) [IPush d].
Proof.
  intros H. exists (p ++ []). split; [by rewrite app_nil_r | by repeat constructor].
Qed.
Lemma builds_opcodes b ops :
  forallb (fun op => negb (isPushOpcode op)) ops = true ->
  builds b (builderOpcodes b ops) (map IOp ops).
Proof.
  intros H. exists ops. split; [done|]. induction ops as [|op ops IH]; [constructor|].
  cbn in H. apply andb_true_iff in H as [H%negb_true_iff Hs]. constructor; auto.
Qed.
Lemma builds_pushAll b ds b' : builderPushAll b ds = Ok b' -> builds b b' (map IPush ds).
Proof.
  revert b. induction ds as [|d ds IH]; intros b H; cbn in H; res_inv.
  - exists []. rewrite app_nil_r. split; [done | constructor].
  - apply (builds_trans _ x _ [IPush d]); [by apply builds_push | auto].
Qed.
Lemma builds_emits e its : builds [] e its -> emits its e.
Proof. by intros (? & -> & ?). Qed.


(** Chain the [builds] facts of a generator: the items are written as a
    concatenation with one part per builder call. *)
Ltac builds_leaf :=
  first [ by apply builds_push | by apply builds_pushAll | by apply builds_opcodes | done ].
Ltac builds_chain :=
  first [ builds_leaf | eapply builds_trans; [builds_leaf | builds_chain] ].

Definition pubKeyHashItems (hash : bytes) : list item :=
  map IOp [transactionOpDup; transactionOpHash160] ++ [IPush hash] ++
  map IOp [transactionOpEqualVerify; transactionOpCheckSig].
Definition scriptHashItems (hash : bytes) : list item :=
  map IOp [transactionOpHash160] ++ [IPush hash] ++ map IOp [transactionOpEqual].

Lemma builds_payPubKeyHash b h b' :
  generateTransactionPayPubKeyHash b h = Ok b' -> builds b b' (pubKeyHashItems h).
Proof.
  unfold generateTransactionPayPubKeyHash, pubKeyHashItems. intros H; res_inv. builds_chain.
Qed.
Lemma builds_payScriptHash b h b' :
  generateTransactionPayScriptHash b h = Ok b' -> builds b b' (scriptHashItems h).
Proof.
  unfold generateTransactionPayScriptHash, scriptHashItems. intros H; res_inv. builds_chain.
Qed.

(** The items of a claim prefix. *)
Definition claimItems (op : byte) (s : TransactionOutputScript) : list item :=
  map IOp [op] ++ [IPush (out_ClaimName s)] ++
  (if Byte.eqb op transactionOpClaimName then
     [IPush (out_Claim s)] ++ map IOp [transactionOp2Drop; transactionOpDrop]
   else if Byte.eqb op transactionOpSupportClaim then
     [IPush (out_ClaimID s)] ++
     (if IsSupportData s
      then [IPush (out_Support s)] ++ map IOp [transactionOp2Drop; transactionOp2Drop]
      else map IOp [transactionOp2Drop; transactionOpDrop])
   else [IPush (out_ClaimID s)] ++ [IPush (out_Claim s)] ++
        map IOp [transactionOp2Drop; transactionOp2Drop]).

Lemma builds_claimPrefix b op s b' :
  isPushOpcode op = false ->
  generateTransactionClaimPrefix b op s = Ok b' -> builds b b' (claimItems op s).
Proof.
  unfold generateTransactionClaimPrefix, claimItems. intros Hop H. res_inv.
  eapply builds_trans; [apply builds_opcodes; cbn; by rewrite Hop|].
  eapply builds_trans; [by apply builds_push|]. fold (IsSupportData s) in H.
  repeat (case_match; try discriminate); res_inv; builds_chain.
Qed.

(** ** Output scripts *)

Definition isAny (t : string) (names : list string) : bool := existsb (String.eqb t) names.

(** Which templates use which field. *)
Definition usesPubKeyHash (t : string) : bool :=
  isAny t [TransactionScriptPayPubKeyHash; TransactionScriptClaimPubKeyHash;
           TransactionScriptSupportPubKey; TransactionScriptSupportDataKey;
           TransactionScriptUpdatePubKey].
Definition usesScriptHash (t : string) : bool :=
  isAny t [TransactionScriptPayScriptHash; TransactionScriptPaySegWit;
           TransactionScriptClaimScriptHash; TransactionScriptSupportScript;
           TransactionScriptSupportDataHash; TransactionScriptUpdateScript].
Definition usesClaim (t : string) : bool :=
  isAny t [TransactionScriptClaimPubKeyHash; TransactionScriptClaimScriptHash;
           TransactionScriptUpdatePubKey; TransactionScriptUpdateScript].
Definition usesSupport (t : string) : bool :=
  isAny t [TransactionScriptSupportDataKey; TransactionScriptSupportDataHash].
Definition usesClaimID (t : string) : bool :=
  isAny t [TransactionScriptUpdatePubKey; TransactionScriptUpdateScript;
           TransactionScriptSupportPubKey; TransactionScriptSupportScript;
           TransactionScriptSupportDataKey; TransactionScriptSupportDataHash].
Definition usesClaimName (t : string) : bool := usesClaim t || usesClaimID t.

(** The fields the template does not use are empty, as the constructors leave
    them. *)
Definition onlyTemplateFields (s : TransactionOutputScript) : Prop :=
  let t := out_Template s in
  (isAny t [TransactionScriptPayPubKeyFull] = false -> out_PublicKey s = []) /\
  (usesPubKeyHash t = false -> out_PubKeyHash s = []) /\
  (usesScriptHash t = false -> out_ScriptHash s = []) /\
  (isAny t [TransactionScriptReturnData] = false -> out_Data s = []) /\
  (usesClaimName t = false -> out_ClaimName s = []) /\
  (usesClaimID t = false -> out_ClaimID s = []) /\
  (usesClaim t = false -> out_Claim s = []) /\
  (usesSupport t = false -> out_Support s = []).

(** The items of a template, in the order the builder writes them. *)
Definition outputItems (s : TransactionOutputScript) : list item :=
  let t := out_Template s in
  if String.eqb t TransactionScriptPayPubKeyFull then
    [IPush (out_PublicKey s)] ++ map IOp [transactionOpCheckSig]
  else if String.eqb t TransactionScriptPaySegWit then
    map IOp [transactionOp0] ++ [IPush (out_ScriptHash s)]
  else if String.eqb t TransactionScriptReturnData then
    map IOp [transactionOpReturn] ++ [IPush (out_Data s)]
  else
    (if IsClaimName s then claimItems transactionOpClaimName s
     else if IsSupportClaim s then claimItems transactionOpSupportClaim s
     else if IsUpdateClaim s then claimItems transactionOpUpdateClaim s
     else []) ++
    (if usesPubKeyHash t then pubKeyHashItems (out_PubKeyHash s)
     else scriptHashItems (out_ScriptHash s)).

(** Case analysis on the template of a generated script. *)
Ltac template_cases :=
  repeat match goal with
  | H : context [if String.eqb ?t ?name then _ else _] |- _ =>
      destruct (String.eqb_spec t name) as [->|]
  end.

Lemma generateOutputTemplate_emits s source flags :
  generateOutputTemplate s = Ok (source, flags) ->
  emits (outputItems s) source /\
  flags = (usesPubKeyHash (out_Template s), usesScriptHash (out_Template s),
           usesSupport (out_Template s)).
Proof.
  destruct s as [src t pk pkh sh da cn ci cl su f1 f2 f3 er].
  unfold generateOutputTemplate; cbn [out_Template]; intros H. template_cases; res_inv.
  all: split; [apply builds_emits | done].
  all: unfold generateClaimPubKeyHash, generateClaimScriptHash in *; res_inv.
  all: lazymatch goal with
  | P : generateTransactionClaimPrefix _ _ _ = _, H : generateTransactionPayPubKeyHash _ _ = _ |- _ =>
      by refine (builds_trans _ _ _ _ _ (builds_claimPrefix _ _ _ _ _ P)
                   (builds_payPubKeyHash _ _ _ H))
  | P : generateTransactionClaimPrefix _ _ _ = _, H : generateTransactionPayScriptHash _ _ = _ |- _ =>
      by refine (builds_trans _ _ _ _ _ (builds_claimPrefix _ _ _ _ _ P)
                   (builds_payScriptHash _ _ _ H))
  | H : generateTransactionPayPubKeyHash _ _ = _ |- _ => exact (builds_payPubKeyHash _ _ _ H)
  | H : generateTransactionPayScriptHash _ _ = _ |- _ => exact (builds_payScriptHash _ _ _ H)
  | _ => builds_chain
  end.
Qed.

(** The matchers on the tokens of a generated script. *)
Ltac script_eval :=
  repeat (progress (unfold parseClaimPrefix; cbn -[tokenOpcode tokenData strictTokenData tokenSmallInteger pushTok];
    rewrite ?tokenData_push, ?tokenData_opTok, ?tokenOpcode_opTok,
      ?tokenOpcode_push by reflexivity)).

Lemma parse_outputItems s source flags :
  generateOutputTemplate s = Ok (source, flags) ->
  onlyTemplateFields s ->
  parseOutputTokens source (map itemToken (outputItems s)) =
  MkOutputScript source (out_Template s) (out_PublicKey s)
        (out_PubKeyHash s) (out_ScriptHash s) (out_Data s)
        (out_ClaimName s) (out_ClaimID s) (out_Claim s) (out_Support s)
        (usesPubKeyHash (out_Template s)) (usesScriptHash (out_Template s))
        (usesSupport (out_Template s)) None.
Proof.
  destruct s as [src t pk pkh sh da cn ci cl su f1 f2 f3 er].
  unfold generateOutputTemplate; cbn [out_Template]; intros H. template_cases; res_inv.
  all: unfold onlyTemplateFields; cbn [out_Template out_PublicKey out_PubKeyHash
    out_ScriptHash out_Data out_ClaimName out_ClaimID out_Claim out_Support].
  all: intros (H1 & H2 & H3 & H4 & H5 & H6 & H7 & H8).
  all: repeat match goal with H : _ = false -> _ = [] |- _ =>
         first [specialize (H eq_refl); subst | clear H] end.
  all: clear; script_eval; reflexivity.
Qed.

(** The general round trip for output scripts. *)
Lemma output_script_roundtrip s s' :
  GenerateOutputScript s = Ok s' -> onlyTemplateFields s ->
  ParseTransactionOutputScript (out_Source s') = Ok s'.
Proof.
  unfold GenerateOutputScript. intros H Hf.
  apply res_bind_Ok in H as ([source [[f1 f2] f3]] & Hg & H). res_inv.
  pose proof (generateOutputTemplate_emits _ _ _ Hg) as [He Hflags]. simplify_eq.
  cbn [out_Source]. unfold ParseTransactionOutputScript.
  rewrite (tokenize_emits _ _ He). f_equal. by eapply parse_outputItems.
Qed.

(** ** Input scripts *)

Lemma bitLen_bound v : 0 <= v -> v < 256 ^ (bitLen v / 8 + 1).
Proof.
  intros Hv. unfold bitLen. destruct (Z.eqb_spec v 0) as [->|Hne]; [done|].
  rewrite Z.abs_eq by done. set (L := Z.log2 v + 1).
  pose proof (Z.log2_nonneg v) as Hl0. pose proof (Z.log2_spec v ltac:(lia)) as [_ Hlt].
  change 256 with (2 ^ 8).
  assert (0 <= L / 8) by (apply Z.div_pos; unfold L; lia).
  rewrite <- Z.pow_mul_r by lia.
  eapply Z.lt_le_trans; [exact Hlt|]. apply Z.pow_le_mono_r; [lia|].
  pose proof (Z.div_mod L 8 ltac:(lia)). pose proof (Z.mod_pos_bound L 8 ltac:(lia)). lia.
Qed.

Lemma scriptInteger_spec v p :
  0 <= v -> encodeTransactionScriptInteger (Some v) = Ok p ->
  exists d, d <> [] /\ encodeTransactionPushData d = Ok p /\
            littleEndianTransactionInteger d = v.
Proof.
  intros Hv. cbn [encodeTransactionScriptInteger].
  destruct (Z.leb_spec 0 v); [|lia]. set (n := Z.to_nat _). intros Hp.
  assert (0 <= bitLen v / 8) as Hb.
  { apply Z.div_pos; [|lia]. unfold bitLen. case_match; [lia|].
    pose proof (Z.log2_nonneg (Z.abs v)). lia. }
  exists (rev (be_bytes n v)). split_and!; [|done|].
  - intros He%(f_equal length). rewrite length_rev, length_be_bytes in He. cbn in He. lia.
  - unfold littleEndianTransactionInteger. rewrite rev_involutive. apply be_value_bytes_id.
    pose proof (bitLen_bound v Hv). split; [done|].
    unfold n. rewrite Z2Nat.id by lia. done.
Qed.

Lemma smallInteger_spec v op :
  encodeTransactionSmallInteger v = Ok op ->
  isPushOpcode op = false /\ tokenSmallInteger (opTok op) = Some v /\
  Byte.eqb x00 op = false.
Proof.
  unfold encodeTransactionSmallInteger. intros H. case_match eqn:E; [done|].
  bool_props. apply (inj Ok) in H as <-.
  assert (v = 1 \/ v = 2 \/ v = 3 \/ v = 4 \/ v = 5 \/ v = 6 \/ v = 7 \/ v = 8 \/ v = 9 \/
    v = 10 \/ v = 11 \/ v = 12 \/ v = 13 \/ v = 14 \/ v = 15 \/ v = 16) as Hv by lia.
  repeat destruct Hv as [->|Hv]; subst; by vm_compute.
Qed.

(** What a [TransactionInputSubscript] holds besides its source. *)
Definition subscriptWellFormed (s : TransactionInputSubscript) : Prop :=
  (sub_Template s = TransactionInputTimeLock /\
   (exists h, sub_Height s = Some h /\ 0 <= h) /\
   sub_SignaturesCount s = 0 /\ sub_PublicKeys s = [] /\ sub_PublicKeysCount s = 0) \/
  (sub_Template s = TransactionInputMultiSig /\
   sub_Height s = None /\ sub_PubKeyHash s = [] /\
   sub_PublicKeys s <> [] /\ Forall (fun k => k <> []) (sub_PublicKeys s)).

Definition parseSubscript (template : string) (source : bytes) : option TransactionInputSubscript :=
  if String.eqb template TransactionInputTimeLock then parseTimeLockSubscript source
  else parseMultiSigSubscript source.

Lemma mapM_strict_push ks :
  Forall (fun k => k <> []) ks -> mapM strictTokenData (map pushTok ks) = Some ks.
Proof.
  induction 1 as [|k ks Hk _ IH]; [done|]. cbn. rewrite strictTokenData_push by done.
  cbn. rewrite IH. done.
Qed.

Lemma parseTimeLock_generated h pkh source :
  0 <= h ->
  generateSubscriptSource (MkSubscript [] TransactionInputTimeLock (Some h) pkh 0 [] 0) = Ok source ->
  parseTimeLockSubscript source =
  Some (MkSubscript source TransactionInputTimeLock (Some h) pkh 0 [] 0).
Proof.
  intros Hh. unfold generateSubscriptSource. cbn [sub_Template sub_Height sub_PubKeyHash].
  rewrite String.eqb_refl. intros H. res_inv. unfold builderInteger in *. res_inv.
  destruct (scriptInteger_spec h _ Hh ltac:(eassumption)) as (d & Hd & Hp & Hv).
  assert (emits ([IPush d] ++ map IOp [transactionOpCheckLockTimeVerify; transactionOpDrop;
       transactionOpDup; transactionOpHash160] ++ [IPush pkh] ++
       map IOp [transactionOpEqualVerify; transactionOpCheckSig]) (builderOpcodes x0
      [transactionOpEqualVerify; transactionOpCheckSig])) as He.
  { apply builds_emits. eapply builds_trans.
    - eapply builds_encoded; eassumption.
    - builds_chain. }
  unfold parseTimeLockSubscript. rewrite (tokenize_emits _ _ He).
  script_eval. rewrite strictTokenData_push by done. script_eval. by rewrite Hv.
Qed.

Lemma bracketed_list {A} (a c z : A) l :
  let tokens := a :: l ++ [c; z] in
  tokens !! (length tokens - 1)%nat = Some z /\
  tokens !! (length tokens - 2)%nat = Some c /\
  take (length tokens - 2 - 1) (drop 1 tokens) = l.
Proof.
  cbn [length]. rewrite length_app. cbn [length].
  replace (S (length l + 2) - 1)%nat with (S (length l + 1)) by lia.
  replace (S (length l + 2) - 2)%nat with (S (length l + 0)) by lia.
  replace (S (length l + 0) - 1)%nat with (length l) by lia.
  split_and!.
  - change ((l ++ [c; z]) !! (length l + 1)%nat = Some z).
    by rewrite lookup_app_r, Nat.add_comm, Nat.add_sub by lia.
  - change ((l ++ [c; z]) !! (length l + 0)%nat = Some c).
    by rewrite lookup_app_r, Nat.add_comm, Nat.add_sub by lia.
  - apply take_app_length.
Qed.

Lemma parseMultiSig_tokens source a c n m ks :
  tokenSmallInteger a = Some n -> tokenSmallInteger c = Some m ->
  ks <> [] -> Forall (fun k => k <> []) ks ->
  parseMultiSigTokens source (a :: map pushTok ks ++ [c; opTok transactionOpCheckMultiSig]) =
  Some (MkSubscript source TransactionInputMultiSig None [] n ks m).
Proof.
  intros Ha Hc Hne Hks. unfold parseMultiSigTokens.
  destruct (bracketed_list a c (opTok transactionOpCheckMultiSig) (map pushTok ks))
    as (Hz & Hy & Ht).
  set (tokens := a :: _) in *.
  assert ((length tokens <? 4)%nat = false) as ->.
  { unfold tokens. cbn [length]. rewrite length_app, length_map.
    destruct ks; [done|]. cbn [length]. apply Nat.ltb_ge. lia. }
  rewrite Hz, Hy, Ht. cbn. rewrite Ha, Hc. cbn. rewrite mapM_strict_push by done. cbn.
  by destruct ks.
Qed.

Lemma map_itemToken_push ks : map itemToken (map IPush ks) = map pushTok ks.
Proof. rewrite map_map. done. Qed.

Lemma parseMultiSig_generated n ks m source :
  ks <> [] -> Forall (fun k => k <> []) ks ->
  generateSubscriptSource (MkSubscript [] TransactionInputMultiSig None [] n ks m) = Ok source ->
  parseMultiSigSubscript source =
  Some (MkSubscript source TransactionInputMultiSig None [] n ks m).
Proof.
  intros Hne Hks. unfold generateSubscriptSource.
  cbn [sub_Template sub_Height sub_PubKeyHash sub_SignaturesCount sub_PublicKeys
       sub_PublicKeysCount].
  change (String.eqb TransactionInputMultiSig TransactionInputTimeLock) with false.
  rewrite String.eqb_refl. intros H. res_inv. unfold builderSmallInteger in *. res_inv.
  repeat match goal with H : encodeTransactionSmallInteger _ = Ok _ |- _ =>
    apply smallInteger_spec in H as (? & ? & ?) end.
  rename x2 into cop, x3 into aop.
  assert (emits ([IOp aop] ++ map IPush ks ++ [IOp cop] ++ [IOp transactionOpCheckMultiSig])
            (builderOpcodes (x0 ++ [cop]) [transactionOpCheckMultiSig])) as He.
  { apply builds_emits. eapply builds_trans; [|eapply builds_trans; [by apply builds_pushAll|]].
    - apply (builds_opcodes [] [aop]). cbn. by replace (isPushOpcode aop) with false.
    - eapply builds_trans; [apply (builds_opcodes x0 [cop])|
        apply (builds_opcodes _ [transactionOpCheckMultiSig])]; [|done].
      cbn. by replace (isPushOpcode cop) with false. }
  unfold parseMultiSigSubscript. rewrite (tokenize_emits _ _ He).
  rewrite !map_app, map_itemToken_push. cbn [map app itemToken].
  by apply parseMultiSig_tokens.
Qed.

Lemma generated_source_nonempty s s' :
  GenerateInputSubscript s = Ok s' -> sub_Source s' <> [].
Proof.
  unfold GenerateInputSubscript, generateSubscriptSource, builderOpcodes.
  intros H. res_inv. cbn [sub_Source].
  repeat (case_match; try discriminate); res_inv;
    match goal with |- ?a ++ _ <> [] => by destruct a end.
Qed.

Lemma subscript_roundtrip s s' :
  GenerateInputSubscript s = Ok s' -> subscriptWellFormed s ->
  parseSubscript (sub_Template s) (sub_Source s') = Some s'.
Proof.
  unfold GenerateInputSubscript. intros H Hwf. res_inv. cbn [sub_Source].
  destruct s as [src t h pkh n ks m]. unfold subscriptWellFormed in Hwf; cbn in Hwf |- *.
  destruct Hwf as [(-> & (h' & -> & Hh) & -> & -> & ->)|(-> & -> & -> & Hne & Hks)].
  - by apply parseTimeLock_generated.
  - by apply parseMultiSig_generated.
Qed.

Lemma parse_exclusive source a b :
  parseTimeLockSubscript source = Some a -> parseMultiSigSubscript source = Some b -> False.
Proof.
  unfold parseTimeLockSubscript, parseMultiSigSubscript, parseMultiSigTokens.
  destruct (tokenizeTransactionScript source) as [tokens| | |]; try done.
  intros Ha Hb.
  destruct tokens as [|t0 [|t1 [|t2 [|t3 [|t4 [|t5 [|t6 [|t7 [|]]]]]]]]]; try done.
  assert (tokenOpcode t7 transactionOpCheckSig = true) as H1.
  { destruct (tokenOpcode t7 transactionOpCheckSig); [done|].
    rewrite !orb_true_r in Ha. done. }
  assert (tokenOpcode t7 transactionOpCheckMultiSig = true) as H2.
  { cbn in Hb. by destruct (tokenOpcode t7 transactionOpCheckMultiSig). }
  unfold tokenOpcode in H1, H2. rewrite eqb_byte in H1, H2. bool_props.
  unfold transactionOpCheckSig, transactionOpCheckMultiSig in *. congruence.
Qed.

(** A script of the two nested templates embeds a generated subscript; its
    signatures are not empty, because the parser only takes a data token for a
    signature and the empty push reads back as [OP_0]. *)
Definition inputWellFormed (s : TransactionInputScript) : Prop :=
  let t := in_Template s in
  (t = TransactionInputPubKey /\ in_PublicKey s = [] /\ in_Signatures s = [] /\
   in_Script s = None) \/
  (t = TransactionInputPubKeyHash /\ in_Signatures s = [] /\ in_Script s = None) \/
  (t = TransactionInputScriptHashTime /\ in_Signatures s = [] /\
   exists sub sub', in_Script s = Some sub' /\ sub_Template sub = TransactionInputTimeLock /\
     subscriptWellFormed sub /\ GenerateInputSubscript sub = Ok sub') \/
  (t = TransactionInputScriptHashMulti /\ in_Signature s = [] /\ in_PublicKey s = [] /\
   in_Signatures s <> [] /\ Forall (fun x => x <> []) (in_Signatures s) /\
   exists sub sub', in_Script s = Some sub' /\ sub_Template sub = TransactionInputMultiSig /\
     subscriptWellFormed sub /\ GenerateInputSubscript sub = Ok sub').

Lemma parse_generated_items its src tokens :
  emits its src -> map itemToken its = tokens ->
  ParseTransactionInputScript src = Ok (parseInputTokens src tokens).
Proof.
  intros He <-. unfold ParseTransactionInputScript. by rewrite (tokenize_emits _ _ He).
Qed.

Lemma matchMulti_generated sigs src sub :
  sigs <> [] -> Forall (fun x => x <> []) sigs -> src <> [] ->
  parseMultiSigSubscript src = Some sub ->
  matchInputMultiSig (opTok transactionOp0 :: map pushTok sigs ++ [pushTok src]) =
  Some (sigs, sub).
Proof.
  intros Hne Hs Hsrc Hp. unfold matchInputMultiSig. cbn [length].
  rewrite length_app, length_map. cbn [length].
  destruct (Nat.ltb_spec (S (length sigs + 1)) 3) as [Hlt|_]; [destruct sigs; [done|cbn in Hlt; lia]|].
  cbn [orb]. change (negb (tokenOpcode (opTok transactionOp0) transactionOp0)) with false. cbn [orb].
  replace (S (length sigs + 1) - 1)%nat with (S (length sigs + 0)) by lia.
  replace (S (length sigs + 0) - 1)%nat with (length sigs) by lia.
  assert ((opTok transactionOp0 :: map pushTok sigs ++ [pushTok src]) !! S (length sigs + 0)
          = Some (pushTok src)) as ->.
  { change ((map pushTok sigs ++ [pushTok src]) !! (length sigs + 0)%nat = Some (pushTok src)).
    rewrite lookup_app_r, length_map, Nat.add_comm, Nat.add_sub by (rewrite length_map; lia).
    done. }
  cbn [mbind option_bind]. rewrite strictTokenData_push by done. cbn [drop].
  rewrite drop_0, take_app_length' by (by rewrite length_map).
  rewrite mapM_strict_push by done. cbn. by rewrite Hp.
Qed.

Lemma input_script_roundtrip s s' :
  GenerateInputScript s = Ok s' -> inputWellFormed s ->
  ParseTransactionInputScript (in_Source s') = Ok s'.
Proof.
  destruct s as [src t sg pk sgs sc er].
  unfold GenerateInputScript, generateInputSource, inputWellFormed;
    cbn [in_Template in_Signature in_PublicKey in_Signatures in_Script].
  intros H [(-> & -> & -> & ->)|[(-> & -> & ->)|
    [(-> & -> & sub0 & sub & -> & Ht & Hw & Hg)|(-> & -> & -> & Hne & Hs & sub0 & sub & -> & Ht & Hw & Hg)]]];
    try (pose proof (subscript_roundtrip _ _ Hg Hw) as Hp;
         pose proof (generated_source_nonempty _ _ Hg) as Hn; rewrite Ht in Hp; cbn in Hp).
  all: apply res_bind_Ok in H as (source & Hb & H); cbn in Hb; res_inv; cbn [in_Source].
  - erewrite parse_generated_items; [|apply builds_emits; by apply builds_push|done].
    by script_eval.
  - erewrite parse_generated_items; [|apply builds_emits; builds_chain|done].
    by script_eval.
  - erewrite parse_generated_items; [|apply builds_emits; builds_chain|done].
    unfold parseInputTokens. script_eval. rewrite strictTokenData_push by done.
    cbn. rewrite Hp. done.
  - erewrite parse_generated_items; [|apply builds_emits;
      eapply (builds_trans _ _ _ _ _ (builds_opcodes [] [transactionOp0] eq_refl));
      builds_chain|done].
    rewrite !map_app, map_itemToken_push. cbn [map app itemToken].
    pose proof (matchMulti_generated _ _ _ Hne Hs Hn Hp) as Hm.
    unfold parseInputTokens. rewrite Hm.
    destruct sgs as [|s1 [|s2 sgs]]; [done|..].
    + script_eval. rewrite strictTokenData_push by done. cbn.
      destruct (parseTimeLockSubscript _) eqn:Hx; [exfalso; by eapply parse_exclusive|done].
    + cbn [map app]. by destruct (map pushTok sgs ++ _) as [|? [|]] eqn:E; [by destruct sgs|..].
Qed.

