(* ===== verification/Transaction.v ===== *)
(** * Wallet transactions: wire format, derived fields, sizes

    Model of [wallet/transaction.go] and of the transaction part of
    [wallet/transaction_build.go].  A [transactionReader] is the unread suffix
    [raw[offset:]].  Pointers from an input or output back to its transaction
    ([owner]) have no counterpart: an output is a value that carries the
    transaction ID and hash the code would read through the pointer, and the
    annotation fields filled in by later wallet stages are left out. *)

From S2P Require Import Prelude Digest Hex Script ScriptBuild.

Definition ErrInvalidWalletTransaction (what : string) : string :=
  ("invalid wallet transaction" ++ what)%string.
Definition ErrUnexpectedEOF : string := "unexpected EOF".

(** ** Data *)

Record TransactionOutput := MkOutput {
  o_TransactionID : bytes;
  o_TransactionHash : bytes;         (* [32]byte *)
  o_Position : Z;                    (* uint32 *)
  o_Amount : Z;                      (* uint64 *)
  o_Script : TransactionOutputScript
}.

Record TransactionInput := MkInput {
  i_Position : Z;
  i_PreviousHash : bytes;            (* [32]byte *)
  i_PreviousTxID : bytes;
  i_PreviousIndex : Z;
  i_Sequence : Z;
  i_Coinbase : bytes;
  i_Script : TransactionInputScript;
  i_ResolvedOutput : option TransactionOutput
}.

Record Transaction := MkTransaction {
  t_Raw : bytes;
  t_RawSansSegWit : bytes;
  t_Hash : bytes;
  t_ID : bytes;
  t_Version : Z;
  t_LockTime : Z;
  t_SegWitFlag : Z;
  t_Witnesses : list bytes;
  t_Inputs : list TransactionInput;
  t_Outputs : list TransactionOutput;
  t_Trailing : bytes;
  t_Height : Z;
  t_Position : Z;
  t_IsVerified : bool
}.

Definition zeroHash : bytes := repeat x00 32.
Definition IsCoinbase (input : TransactionInput) : bool :=
  bool_decide (i_PreviousHash input = zeroHash).

(** The script bytes an input is serialized with. *)
Definition inputSource (input : TransactionInput) : bytes :=
  if negb (IsCoinbase input) then in_Source (i_Script input) else i_Coinbase input.

(** ** The reader *)

Definition reader (A : Type) : Type := bytes -> res (A * bytes).

Definition read (size : Z) : reader bytes := fun raw =>
  if (size <? 0) || (blen raw <? size) then Err ErrUnexpectedEOF
  else Ok (take (Z.to_nat size) raw, drop (Z.to_nat size) raw).
Definition read_uint (n : nat) : reader Z := fun raw =>
  '(value, raw) ← read (Z.of_nat n) raw; Ok (le_value value, raw).
Definition read_uint8 : reader Z := read_uint 1.
Definition read_uint16 : reader Z := read_uint 2.
Definition read_uint32 : reader Z := read_uint 4.
Definition read_uint64 : reader Z := read_uint 8.
Definition read_compactSize : reader Z := fun raw =>
  '(prefix, raw) ← read_uint8 raw;
  if prefix =? 0xfd then read_uint16 raw
  else if prefix =? 0xfe then read_uint32 raw
  else if prefix =? 0xff then read_uint64 raw
  else Ok (prefix, raw).
Definition read_varBytes : reader bytes := fun raw =>
  '(length, raw) ← read_compactSize raw;
  if blen raw <? length then Err ErrUnexpectedEOF else read length raw.

Definition transactionParseError (field : string) {A} (m : res A) : res A :=
  map_err (fun e => ErrInvalidWalletTransaction (": " ++ field ++ ": " ++ e)%string) m.

(** ** The writer *)

Definition compactSize (value : Z) : bytes :=
  if value <? 0xfd then [byt value]
  else if value <=? 0xffff then xfd :: le_bytes 2 value
  else if value <=? 0xffffffff then xfe :: le_bytes 4 value
  else xff :: le_bytes 8 value.
Definition varBytes (value : bytes) : bytes := compactSize (blen value) ++ value.

Definition serializeInput (input : TransactionInput) : bytes :=
  i_PreviousHash input ++ le_bytes 4 (i_PreviousIndex input) ++
  varBytes (inputSource input) ++ le_bytes 4 (i_Sequence input).
Definition serializeOutput (output : TransactionOutput) : bytes :=
  le_bytes 8 (o_Amount output) ++ varBytes (out_Source (o_Script output)).

Definition serializeSansSegWit (t : Transaction) : bytes :=
  le_bytes 4 (t_Version t) ++
  compactSize (blen (t_Inputs t)) ++ flat_map serializeInput (t_Inputs t) ++
  compactSize (blen (t_Outputs t)) ++ flat_map serializeOutput (t_Outputs t) ++
  le_bytes 4 (t_LockTime t).

(** ** Parsing *)

Definition parseTransactionInput (index : Z) : reader TransactionInput := fun raw =>
  if 2 ^ 32 - 1 <? index then
    Err (ErrInvalidWalletTransaction ": input position: too many inputs")
  else
    '(previousHash, raw) ← transactionParseError "previous hash" (read 32 raw);
    '(previousIndex, raw) ← transactionParseError "previous output position" (read_uint32 raw);
    '(source, raw) ← transactionParseError "input script" (read_varBytes raw);
    '(sequence, raw) ← transactionParseError "input sequence" (read_uint32 raw);
    let input := MkInput index previousHash (hexEncode (reverseTransactionBytes previousHash))
                   previousIndex sequence [] (inputScriptOf []) None in
    if IsCoinbase input then
      Ok (MkInput index previousHash (hexEncode (reverseTransactionBytes previousHash))
            previousIndex sequence source (inputScriptOf []) None, raw)
    else
      script ← ParseTransactionInputScript source;
      Ok (MkInput index previousHash (hexEncode (reverseTransactionBytes previousHash))
            previousIndex sequence [] script None, raw).

Definition parseTransactionOutput (index : Z) : reader TransactionOutput := fun raw =>
  if 2 ^ 32 - 1 <? index then
    Err (ErrInvalidWalletTransaction ": output position: too many outputs")
  else
    '(amount, raw) ← transactionParseError "output amount" (read_uint64 raw);
    '(source, raw) ← transactionParseError "output script" (read_varBytes raw);
    script ← ParseTransactionOutputScript source;
    Ok (MkOutput [] zeroHash index amount script, raw).

(** [for index := 0; index < count; index++ { ... }] around an item parser; an
    item takes at least one byte, so the length of the suffix is enough fuel
    ([parseItems_returns]). *)
Fixpoint parseItems {A} (fuel : nat) (item : Z -> reader A) (index count : Z) : reader (list A) :=
  fun raw =>
  if negb (index <? count) then Ok ([], raw)
  else match fuel with
  | O => NoFuel
  | S fuel =>
      '(x, raw) ← item index raw;
      '(xs, raw) ← parseItems fuel item (index + 1) count raw;
      Ok (x :: xs, raw)
  end.

Definition parseInputWitnesses (raw : bytes) : res (list bytes * bytes) :=
  '(witnessCount, raw) ← transactionParseError "witness count" (read_compactSize raw);
  parseItems (S (length raw)) (fun _ raw => transactionParseError "witness" (read_varBytes raw))
    0 witnessCount raw.

Section digests.
Context `{Digests}.

Definition doubleSHA256 (m : bytes) : bytes := sha256 (sha256 m).
Definition displayHash (hash : bytes) : bytes := hexEncode (reverseTransactionBytes hash).

(** [Outputs[index].Position = uint32(index); TransactionID = ID; TransactionHash = Hash] *)
Definition attachOutput (id hash : bytes) (index : nat) (o : TransactionOutput) :=
  MkOutput id hash (u32 (Z.of_nat index)) (o_Amount o) (o_Script o).
Definition attachOutputs (id hash : bytes) (outputs : list TransactionOutput) :=
  imap (attachOutput id hash) outputs.

Definition ParseTransaction (raw : bytes) : res Transaction :=
  let full := raw in
  '(version, raw) ← transactionParseError "version" (read_uint32 raw);
  '(inputCount, raw) ← transactionParseError "input count" (read_compactSize raw);
  '(flag, inputCount, raw) ←
    (if inputCount =? 0 then
       '(flag, raw) ← transactionParseError "segwit flag" (read_uint8 raw);
       '(inputCount, raw) ← transactionParseError "segwit input count" (read_compactSize raw);
       Ok (flag, inputCount, raw)
     else Ok (0, inputCount, raw));
  '(inputs, raw) ← parseItems (S (length raw)) parseTransactionInput 0 inputCount raw;
  '(outputCount, raw) ← transactionParseError "output count" (read_compactSize raw);
  '(outputs, raw) ← parseItems (S (length raw)) parseTransactionOutput 0 outputCount raw;
  '(witnesses, raw) ←
    (if negb (flag =? 0) then
       '(ws, raw) ← parseItems (S (length raw)) (fun _ => parseInputWitnesses) 0 inputCount raw;
       Ok (concat ws, raw)
     else Ok ([], raw));
  '(lockTime, trailing) ← transactionParseError "locktime" (read_uint32 raw);
  let parsed := MkTransaction full [] zeroHash [] version lockTime flag witnesses inputs outputs
                  trailing (-2) (-1) false in
  let sansSegWit := if negb (flag =? 0) then serializeSansSegWit parsed else full in
  let hash := doubleSHA256 sansSegWit in
  let id := displayHash hash in
  Ok (MkTransaction full sansSegWit hash id version lockTime flag witnesses inputs
        (attachOutputs id hash outputs) trailing (-2) (-1) false).
End digests.

(** ** Reading back what was written *)

Lemma read_app a r : read (blen a) (a ++ r) = Ok (a, r).
Proof.
  unfold read. rewrite blen_app. pose proof (blen_nonneg a). pose proof (blen_nonneg r).
  destruct (Z.ltb_spec (blen a) 0); [lia|]. destruct (Z.ltb_spec (blen a + blen r) (blen a)); [lia|].
  cbn [orb]. unfold blen. by rewrite Nat2Z.id, take_app_length, drop_app_length.
Qed.
Lemma read_uint_bytes n v r :
  0 <= v < 256 ^ Z.of_nat n -> read_uint n (le_bytes n v ++ r) = Ok (v, r).
Proof.
  intros Hv. unfold read_uint.
  rewrite <- (length_le_bytes n v) at 1. change (Z.of_nat (length (le_bytes n v))) with (blen (le_bytes n v)).
  rewrite read_app. cbn. by rewrite le_value_bytes_id.
Qed.

Lemma read_compactSize_bytes v r :
  0 <= v < 2 ^ 64 -> read_compactSize (compactSize v ++ r) = Ok (v, r).
Proof.
  intros Hv. unfold compactSize, read_compactSize, read_uint8.
  assert (forall b r, read_uint 1 (b :: r) = Ok (Zb b, r)) as H8.
  { intros b r'. rewrite <- (byt_Zb b) at 1.
    apply (read_uint_bytes 1 (Zb b)). pose proof (Zb_range b); lia. }
  destruct (Z.ltb_spec v 0xfd); [|destruct (Z.leb_spec v 0xffff);
    [|destruct (Z.leb_spec v 0xffffffff)]]; cbn [app]; rewrite H8; cbn [mbind res_bind].
  - rewrite Zb_byt_id by lia.
    destruct (Z.eqb_spec v 0xfd); [lia|]. destruct (Z.eqb_spec v 0xfe); [lia|].
    destruct (Z.eqb_spec v 0xff); [lia|done].
  - apply read_uint_bytes. lia.
  - apply read_uint_bytes. lia.
  - apply read_uint_bytes. lia.
Qed.
Lemma read_varBytes_bytes v r :
  blen v < 2 ^ 64 -> read_varBytes (varBytes v ++ r) = Ok (v, r).
Proof.
  intros Hv. pose proof (blen_nonneg v). pose proof (blen_nonneg r).
  unfold varBytes, read_varBytes. rewrite <- app_assoc, read_compactSize_bytes by lia.
  cbn. rewrite blen_app. destruct (Z.ltb_spec (blen v + blen r) (blen v)); [lia|].
  apply read_app.
Qed.

(** What a successful read took, and the range of its value. *)
Lemma read_Ok size raw v r : read size raw = Ok (v, r) -> raw = v ++ r /\ blen v = size.
Proof.
  unfold read. intros H. case_match eqn:E; [done|]. bool_props. simplify_eq.
  rewrite take_drop. split; [done|]. unfold blen in *. rewrite length_take. lia.
Qed.
Lemma read_uint_Ok n raw v r :
  read_uint n raw = Ok (v, r) ->
  0 <= v < 256 ^ Z.of_nat n /\ (length raw = n + length r)%nat.
Proof.
  unfold read_uint. intros H. apply res_bind_Ok in H as ([b r'] & Hr & H). simplify_eq.
  apply read_Ok in Hr as [-> Hb]. rewrite <- Hb. split; [apply le_value_range|].
  rewrite length_app. unfold blen in Hb. lia.
Qed.
Lemma read_compactSize_Ok raw v r :
  read_compactSize raw = Ok (v, r) -> 0 <= v < 2 ^ 64 /\ (length r < length raw)%nat.
Proof.
  unfold read_compactSize, read_uint8, read_uint16, read_uint32, read_uint64. intros H.
  apply res_bind_Ok in H as ([p r'] & Hp & H). apply read_uint_Ok in Hp as [Hp ?].
  repeat case_match; try (apply read_uint_Ok in H as [? ?]); simplify_eq; split; lia.
Qed.
Lemma read_varBytes_Ok raw v r :
  read_varBytes raw = Ok (v, r) -> blen v < 2 ^ 64 /\ (length r < length raw)%nat.
Proof.
  unfold read_varBytes. intros H. apply res_bind_Ok in H as ([n r'] & Hn & H).
  apply read_compactSize_Ok in Hn as [? ?]. case_match; [done|].
  apply read_Ok in H as [-> <-]. rewrite length_app in *. split; lia.
Qed.

Lemma read_returns size raw : returns (read size raw).
Proof. unfold read. by case_match. Qed.
Lemma read_uint_returns n raw : returns (read_uint n raw).
Proof. unfold read_uint. apply returns_bind; [apply read_returns|]. by intros [??]. Qed.
Lemma read_compactSize_returns raw : returns (read_compactSize raw).
Proof.
  unfold read_compactSize. apply returns_bind; [apply read_uint_returns|].
  intros [??] _. repeat case_match; try apply read_uint_returns. done.
Qed.
Lemma read_varBytes_returns raw : returns (read_varBytes raw).
Proof.
  unfold read_varBytes. apply returns_bind; [apply read_compactSize_returns|].
  intros [??] _. case_match; [done | apply read_returns].
Qed.
#[export] Hint Resolve read_returns read_uint_returns read_compactSize_returns
  read_varBytes_returns : go.
Lemma read_uint8_returns raw : returns (read_uint8 raw).
Proof. apply read_uint_returns. Qed.
Lemma read_uint32_returns raw : returns (read_uint32 raw).
Proof. apply read_uint_returns. Qed.
Lemma read_uint64_returns raw : returns (read_uint64 raw).
Proof. apply read_uint_returns. Qed.
#[export] Hint Resolve read_uint8_returns read_uint32_returns read_uint64_returns : go.

(** ** Item loops *)

(** An item parser that takes at least one byte and returns. *)
Definition consuming {A} (item : Z -> reader A) : Prop :=
  forall i raw, returns (item i raw) /\
    forall x r, item i raw = Ok (x, r) -> (length r < length raw)%nat.

Lemma parseItems_returns {A} (item : Z -> reader A) fuel i n raw :
  consuming item -> (length raw < fuel)%nat -> returns (parseItems fuel item i n raw).
Proof.
  intros Hc. revert i raw. induction fuel as [|fuel IH]; intros i raw Hf; [lia|].
  cbn. destruct (i <? n); cbn; [|done]. destruct (Hc i raw) as [Hr Hlt].
  apply returns_bind; [done|]. intros [x r] Hx. apply Hlt in Hx.
  apply returns_bind; [apply IH; lia|]. by intros [??].
Qed.

Lemma parseItems_decreases {A} (item : Z -> reader A) fuel i n raw xs r :
  consuming item -> parseItems fuel item i n raw = Ok (xs, r) ->
  (length r <= length raw)%nat.
Proof.
  intros Hc. revert i raw xs r. induction fuel as [|fuel IH]; intros i raw xs r; cbn;
    destruct (i <? n); cbn; intros H; simplify_eq; try done.
  apply res_bind_Ok in H as ([x r'] & Hx & H). apply res_bind_Ok in H as ([ys r''] & Hy & H).
  simplify_eq. apply Hc in Hx. apply IH in Hy. lia.
Qed.

(** The items of a loop satisfy whatever the item parser guarantees, and there
    are [n - i] of them. *)
Lemma parseItems_Forall {A} (item : Z -> reader A) (P : Z -> A -> Prop) fuel i n raw xs r :
  (forall i raw x r, item i raw = Ok (x, r) -> P i x) ->
  parseItems fuel item i n raw = Ok (xs, r) ->
  (forall k x, xs !! k = Some x -> P (i + Z.of_nat k) x) /\ blen xs = Z.max 0 (n - i).
Proof.
  intros HP. revert i raw xs r. induction fuel as [|fuel IH]; intros i raw xs r; cbn;
    destruct (Z.ltb_spec i n); cbn; intros H'; simplify_eq; try (by split; [intros [|?] | rewrite blen_nil; lia]).
  apply res_bind_Ok in H' as ([x r'] & Hx & H'). apply res_bind_Ok in H' as ([ys r''] & Hy & H').
  simplify_eq. apply IH in Hy as [Hy Hlen]. split; [|rewrite blen_cons; lia].
  intros [|k] z Hz; cbn in Hz; simplify_eq.
  - rewrite Z.add_0_r. by eapply HP.
  - apply Hy in Hz. by replace (i + Z.of_nat (S k)) with (i + 1 + Z.of_nat k) by lia.
Qed.

Lemma parseItems_serialized {A} (item : Z -> reader A) (ser : A -> bytes) xs i fuel r :
  (forall k x r, xs !! k = Some x -> item (i + Z.of_nat k) (ser x ++ r) = Ok (x, r)) ->
  (length xs <= fuel)%nat ->
  parseItems fuel item i (i + blen xs) (flat_map ser xs ++ r) = Ok (xs, r).
Proof.
  revert i fuel. induction xs as [|x xs IH]; intros i fuel Hitem Hf.
  - rewrite blen_nil, Z.add_0_r. destruct fuel; cbn; by rewrite Z.ltb_irrefl.
  - cbn [length] in Hf. destruct fuel as [|fuel]; [lia|]. cbn [flat_map parseItems].
    rewrite blen_cons. pose proof (blen_nonneg xs).
    destruct (Z.ltb_spec i (i + (1 + blen xs))); [|lia]. cbn.
    pose proof (Hitem 0%nat x (flat_map ser xs ++ r) eq_refl) as Hx.
    rewrite Z.add_0_r in Hx. rewrite <- app_assoc, Hx. cbn.
    replace (i + (1 + blen xs)) with (i + 1 + blen xs) by lia.
    rewrite IH; [done| |lia]. intros k y r' Hk.
    replace (i + 1 + Z.of_nat k) with (i + Z.of_nat (S k)) by lia. by apply Hitem.
Qed.

Lemma flat_map_length_ge {A} (ser : A -> bytes) xs :
  (forall x, ser x <> []) -> (length xs <= length (flat_map ser xs))%nat.
Proof.
  intros Hs. induction xs as [|x xs IH]; cbn; [done|].
  rewrite length_app. pose proof (Hs x). destruct (ser x); [done|]. cbn. lia.
Qed.

(** ** The form of parsed inputs and outputs *)

(** An input as [parseTransactionInput] builds it at position [index]. *)
Definition parsedInput (index : Z) (i : TransactionInput) : Prop :=
  i_Position i = index /\ index < 2 ^ 32 /\
  length (i_PreviousHash i) = 32%nat /\
  i_PreviousTxID i = hexEncode (reverseTransactionBytes (i_PreviousHash i)) /\
  0 <= i_PreviousIndex i < 2 ^ 32 /\ 0 <= i_Sequence i < 2 ^ 32 /\
  i_ResolvedOutput i = None /\ blen (inputSource i) < 2 ^ 64 /\
  (if IsCoinbase i then i_Script i = inputScriptOf []
   else i_Coinbase i = [] /\
        ParseTransactionInputScript (in_Source (i_Script i)) = Ok (i_Script i)).

(** An output as [ParseTransaction] leaves it, whatever its transaction ID. *)
Definition parsedOutput (index : Z) (o : TransactionOutput) : Prop :=
  o_Position o = index /\ index < 2 ^ 32 /\ 0 <= o_Amount o < 2 ^ 64 /\
  blen (out_Source (o_Script o)) < 2 ^ 64 /\
  ParseTransactionOutputScript (out_Source (o_Script o)) = Ok (o_Script o).


Ltac wire_inv :=
  repeat match goal with
  | H : (_ ≫= _) = Ok _ |- _ => apply res_bind_Ok in H as ([? ?] & ? & H)
  | H : transactionParseError _ _ = Ok _ |- _ => apply map_err_Ok in H
  | H : Ok _ = Ok _ |- _ => injection H as H; try subst
  end.
Ltac wire_facts :=
  repeat match goal with
  | H : read_uint32 _ = Ok _ |- _ => apply read_uint_Ok in H as [? ?]
  | H : read_uint64 _ = Ok _ |- _ => apply read_uint_Ok in H as [? ?]
  | H : read_uint8 _ = Ok _ |- _ => apply read_uint_Ok in H as [? ?]
  | H : read_varBytes _ = Ok _ |- _ => apply read_varBytes_Ok in H as [? ?]
  | H : read_compactSize _ = Ok _ |- _ => apply read_compactSize_Ok in H as [? ?]
  end.

Lemma parseTransactionInput_Ok index raw i r :
  parseTransactionInput index raw = Ok (i, r) ->
  parsedInput index i /\ (length r < length raw)%nat.
Proof.
  unfold parseTransactionInput. intros H. destruct (Z.ltb_spec (2 ^ 32 - 1) index); [done|].
  wire_inv. wire_facts.
  match goal with H : read 32 _ = Ok _ |- _ => apply read_Ok in H as [-> Hb] end.
  assert (length l = 32%nat) as Hl by (unfold blen in Hb; lia).
  rewrite length_app. unfold parsedInput, inputSource.
  case_match eqn:Hc.
  - injection H as <- <-. unfold IsCoinbase in *; cbn in *. rewrite Hc. cbn.
    split_and!; try done; lia.
  - apply res_bind_Ok in H as (script & Hs & H). injection H as <- <-.
    unfold IsCoinbase in *; cbn in *. rewrite Hc. cbn.
    rewrite (parse_input_Source _ _ Hs). split_and!; try done; lia.
Qed.

Lemma parseTransactionOutput_Ok index raw o r :
  parseTransactionOutput index raw = Ok (o, r) ->
  parsedOutput index o /\ (length r < length raw)%nat.
Proof.
  unfold parseTransactionOutput. intros H. destruct (Z.ltb_spec (2 ^ 32 - 1) index); [done|].
  apply res_bind_Ok in H as ([amount r1] & Ha & H). apply map_err_Ok in Ha.
  apply res_bind_Ok in H as ([source r2] & Hv & H). apply map_err_Ok in Hv.
  apply res_bind_Ok in H as (script & Hs & H). injection H as <- <-. wire_facts.
  unfold parsedOutput; cbn. rewrite (parse_output_Source _ _ Hs).
  split_and!; try done; lia.
Qed.

Lemma parseTransactionInput_consuming : consuming parseTransactionInput.
Proof.
  intros i raw. split; [|intros x r H; by apply parseTransactionInput_Ok in H as [_ ?]].
  unfold parseTransactionInput. case_match; [done|].
  repeat (apply returns_bind; [apply returns_map_err; auto with go|]; intros [??] _).
  case_match; [done|]. match goal with |- context [ParseTransactionInputScript ?x] =>
    by destruct (ParseTransactionInputScript_Ok x) as [s ->] end.
Qed.
Lemma parseTransactionOutput_consuming : consuming parseTransactionOutput.
Proof.
  intros i raw. split; [|intros x r H; by apply parseTransactionOutput_Ok in H as [_ ?]].
  unfold parseTransactionOutput. case_match; [done|].
  repeat (apply returns_bind; [apply returns_map_err; auto with go|]; intros [??] _).
  match goal with |- context [ParseTransactionOutputScript ?x] =>
    by destruct (ParseTransactionOutputScript_Ok x) as [s ->] end.
Qed.

Lemma varBytes_consuming field :
  consuming (fun _ raw => transactionParseError field (read_varBytes raw)).
Proof.
  intros i raw. split; [apply returns_map_err; auto with go|].
  intros x r Hx. apply map_err_Ok, read_varBytes_Ok in Hx as [_ ?]. done.
Qed.

Lemma parse_serializeInput index i r :
  parsedInput index i -> parseTransactionInput index (serializeInput i ++ r) = Ok (i, r).
Proof.
  intros (Hp & Hi & Hh & Ht & Hx & Hs & Hr & Hb & Hc).
  unfold parseTransactionInput, serializeInput, transactionParseError.
  destruct (Z.ltb_spec (2 ^ 32 - 1) index); [lia|].
  assert (32 = blen (i_PreviousHash i)) as Hlen by (unfold blen; lia).
  rewrite <- !app_assoc, Hlen, read_app. cbn [map_err mbind res_bind].
  rewrite (read_uint_bytes 4) by lia. cbn [map_err mbind res_bind].
  rewrite read_varBytes_bytes by done. cbn [map_err mbind res_bind].
  rewrite (read_uint_bytes 4) by lia. cbn [map_err mbind res_bind].
  destruct i as [pos hash txid prev seq cb sc ro].
  cbn [i_Position i_PreviousHash i_PreviousTxID i_PreviousIndex i_Sequence i_Coinbase i_Script
       i_ResolvedOutput] in *; subst.
  unfold inputSource, IsCoinbase in *. cbn [i_PreviousHash i_Script i_Coinbase] in *.
  case_bool_decide; cbn [negb] in *.
  - by rewrite Hc.
  - destruct Hc as [-> Hc]. by rewrite Hc.
Qed.

(** A parsed output before [ParseTransaction] attaches it to the transaction. *)
Definition detach (o : TransactionOutput) : TransactionOutput :=
  MkOutput [] zeroHash (o_Position o) (o_Amount o) (o_Script o).

Lemma serializeOutput_detach o : serializeOutput (detach o) = serializeOutput o.
Proof. done. Qed.

Lemma parse_serializeOutput index o r :
  parsedOutput index o ->
  parseTransactionOutput index (serializeOutput o ++ r) = Ok (detach o, r).
Proof.
  intros (Hp & Hi & Ha & Hb & Hs).
  unfold parseTransactionOutput, serializeOutput, transactionParseError.
  destruct (Z.ltb_spec (2 ^ 32 - 1) index); [lia|].
  rewrite <- !app_assoc, (read_uint_bytes 8) by lia. cbn [map_err mbind res_bind].
  rewrite read_varBytes_bytes by done. cbn [map_err mbind res_bind]. rewrite Hs. cbn.
  unfold detach. by rewrite Hp.
Qed.

Lemma serializeInput_nonempty i : serializeInput i <> [].
Proof.
  unfold serializeInput. intros H%(f_equal length). rewrite !length_app, length_le_bytes in H.
  cbn [length] in H. lia.
Qed.
Lemma serializeOutput_nonempty o : serializeOutput o <> [].
Proof. unfold serializeOutput. intros H%(f_equal length). by rewrite length_app, length_le_bytes in H. Qed.
Lemma compactSize_nonempty v : compactSize v <> [].
Proof. unfold compactSize. by repeat case_match. Qed.

(** ** Whole transactions *)

Definition parsedTransaction (t : Transaction) : Prop :=
  0 <= t_Version t < 2 ^ 32 /\ 0 <= t_LockTime t < 2 ^ 32 /\
  (forall k i, t_Inputs t !! k = Some i -> parsedInput (Z.of_nat k) i) /\
  (forall k o, t_Outputs t !! k = Some o -> parsedOutput (Z.of_nat k) o).

Lemma indexed_count {A} (P : Z -> A -> Prop) (l : list A) :
  (forall k x, l !! k = Some x -> P (Z.of_nat k) x) ->
  (forall i x, P i x -> i < 2 ^ 32) -> blen l < 2 ^ 64.
Proof.
  intros Hl HP. destruct (decide (l = [])) as [->|Hne]; [done|].
  destruct (lookup_lt_is_Some_2 l (length l - 1)) as [x Hx]; [destruct l; [done|cbn; lia]|].
  apply Hl, HP in Hx. unfold blen. lia.
Qed.

Section transaction_theorems.
Context `{Digests}.

Lemma ParseTransaction_returns raw : returns (ParseTransaction raw).
Proof.
  unfold ParseTransaction.
  repeat (apply returns_bind; [apply returns_map_err; auto with go|]; intros [??] _).
  apply returns_bind.
  { case_match; [|done].
    repeat (apply returns_bind; [apply returns_map_err; auto with go|]; intros [??] _). done. }
  intros [[flag count] r] _.
  apply returns_bind; [apply parseItems_returns; [apply parseTransactionInput_consuming|lia]|].
  intros [inputs r1] _.
  apply returns_bind; [apply returns_map_err; auto with go|]. intros [n r2] _.
  apply returns_bind; [apply parseItems_returns; [apply parseTransactionOutput_consuming|lia]|].
  intros [outputs r3] _.
  apply returns_bind.
  { case_match; [|done]. apply returns_bind; [|by intros [??]].
    apply parseItems_returns; [|lia]. intros i r'. split.
    - unfold parseInputWitnesses.
      apply returns_bind; [apply returns_map_err; auto with go|]. intros [m r4] _.
      apply parseItems_returns; [|lia]. apply varBytes_consuming.
    - intros ws r4 Hw. unfold parseInputWitnesses in Hw.
      apply res_bind_Ok in Hw as ([m r5] & Hm & Hw). apply map_err_Ok in Hm.
      apply read_compactSize_Ok in Hm as [_ ?].
      apply parseItems_decreases in Hw; [lia | apply varBytes_consuming]. }
  intros [ws r4] _.
  apply returns_bind; [apply returns_map_err; auto with go|]. by intros [??].
Qed.

Lemma ParseTransaction_parsed raw t : ParseTransaction raw = Ok t -> parsedTransaction t.
Proof.
  unfold ParseTransaction. intros Hp.
  apply res_bind_Ok in Hp as ([version r0] & Hv & Hp). apply map_err_Ok in Hv.
  apply res_bind_Ok in Hp as ([count0 r1] & _ & Hp).
  apply res_bind_Ok in Hp as ([[flag count] r2] & _ & Hp).
  apply res_bind_Ok in Hp as ([inputs r3] & Hi & Hp).
  apply res_bind_Ok in Hp as ([n r4] & _ & Hp).
  apply res_bind_Ok in Hp as ([outputs r5] & Ho & Hp).
  apply res_bind_Ok in Hp as ([ws r6] & _ & Hp).
  apply res_bind_Ok in Hp as ([lockTime r7] & Hl & Hp). apply map_err_Ok in Hl.
  apply (inj Ok) in Hp as <-. wire_facts. unfold parsedTransaction; cbn.
  apply (parseItems_Forall _ parsedInput) in Hi as [Hi _];
    [|intros; by eapply parseTransactionInput_Ok].
  apply (parseItems_Forall _ parsedOutput) in Ho as [Ho _];
    [|intros; by eapply parseTransactionOutput_Ok].
  split_and!; try lia; [done|]. intros k o Hk. unfold attachOutputs in Hk.
  rewrite list_lookup_imap in Hk. apply fmap_Some in Hk as (o' & Hk & ->).
  apply Ho in Hk as (? & ? & ? & ? & ?). unfold parsedOutput, attachOutput; cbn.
  rewrite u32_id by lia. done.
Qed.

(** What parsing the serialization of [t] gives. *)
Definition reparsed (t : Transaction) : Transaction :=
  let raw := serializeSansSegWit t in
  let hash := doubleSHA256 raw in
  let id := displayHash hash in
  MkTransaction raw raw hash id (t_Version t) (t_LockTime t) 0 [] (t_Inputs t)
    (attachOutputs id hash (t_Outputs t)) [] (-2) (-1) false.

Lemma attachOutputs_detach id hash outputs :
  attachOutputs id hash (map detach outputs) = attachOutputs id hash outputs.
Proof. unfold attachOutputs. by rewrite imap_fmap. Qed.

Lemma parse_serialize t :
  parsedTransaction t -> t_Inputs t <> [] ->
  ParseTransaction (serializeSansSegWit t) = Ok (reparsed t).
Proof.
  intros (Hv & Hl & Hi & Ho) Hne.
  pose proof (indexed_count _ _ Hi ltac:(by intros ?? (?&?&?))) as Hni.
  pose proof (indexed_count _ _ Ho ltac:(by intros ?? (?&?&?))) as Hno.
  unfold ParseTransaction, transactionParseError.
  unfold read_uint32.
  eassert (read_uint 4 (serializeSansSegWit t) = Ok (t_Version t, _)) as ->
    by (apply (read_uint_bytes 4); lia).
  cbn [map_err mbind res_bind].
  pose proof (blen_nonneg (t_Inputs t)). pose proof (blen_nonneg (t_Outputs t)).
  rewrite read_compactSize_bytes by lia. cbn [map_err mbind res_bind].
  assert ((blen (t_Inputs t) =? 0) = false) as ->.
  { apply Z.eqb_neq. unfold blen. by destruct (t_Inputs t). }
  cbn [map_err mbind res_bind].
  pose proof (flat_map_length_ge serializeInput (t_Inputs t) serializeInput_nonempty).
  pose proof (flat_map_length_ge serializeOutput (t_Outputs t) serializeOutput_nonempty).
  rewrite (parseItems_serialized parseTransactionInput serializeInput (t_Inputs t) 0).
  2: { intros k x r Hk. by apply parse_serializeInput, Hi. }
  2: { rewrite length_app. lia. }
  cbn [map_err mbind res_bind]. rewrite read_compactSize_bytes by lia.
  cbn [map_err mbind res_bind].
  replace (flat_map serializeOutput (t_Outputs t))
    with (flat_map serializeOutput (map detach (t_Outputs t))) in *
    by (rewrite flat_map_concat_map, map_map, <- flat_map_concat_map; done).
  replace (blen (t_Outputs t)) with (blen (map detach (t_Outputs t))) in *
    by (unfold blen; by rewrite length_map).
  rewrite (parseItems_serialized parseTransactionOutput serializeOutput
    (map detach (t_Outputs t)) 0).
  2: { intros k x r Hk. rewrite list_lookup_fmap in Hk. apply fmap_Some in Hk as (o & Hk & ->).
       exact (parse_serializeOutput _ o r (Ho _ _ Hk)). }
  2: { rewrite length_app, length_map. lia. }
  cbn [map_err mbind res_bind Z.eqb negb].
  rewrite <- (app_nil_r (le_bytes 4 (t_LockTime t))), (read_uint_bytes 4) by lia.
  cbn [map_err mbind res_bind]. unfold reparsed. by rewrite attachOutputs_detach.
Qed.

Lemma serialize_attach id hash outputs :
  flat_map serializeOutput (attachOutputs id hash outputs) = flat_map serializeOutput outputs.
Proof.
  unfold attachOutputs. rewrite !flat_map_concat_map. f_equal.
  apply list_eq. intros k. rewrite !list_lookup_fmap, list_lookup_imap.
  by destruct (outputs !! k).
Qed.
Lemma blen_attach id hash outputs : blen (attachOutputs id hash outputs) = blen outputs.
Proof. unfold blen, attachOutputs. by rewrite length_imap. Qed.
(** ** Segregated witness *)

Lemma parsed_identity raw t :
  ParseTransaction raw = Ok t ->
  t_Raw t = raw /\
  t_RawSansSegWit t = (if negb (t_SegWitFlag t =? 0) then serializeSansSegWit t else raw) /\
  t_Hash t = doubleSHA256 (t_RawSansSegWit t) /\ t_ID t = displayHash (t_Hash t) /\
  t_Outputs t = attachOutputs (t_ID t) (t_Hash t) (t_Outputs t).
Proof.
  unfold ParseTransaction. intros Hp.
  apply res_bind_Ok in Hp as ([version r0] & Hv & Hp).
  apply res_bind_Ok in Hp as ([count0 r1] & _ & Hp).
  apply res_bind_Ok in Hp as ([[flag count] r2] & _ & Hp).
  apply res_bind_Ok in Hp as ([inputs r3] & Hi & Hp).
  apply res_bind_Ok in Hp as ([n r4] & _ & Hp).
  apply res_bind_Ok in Hp as ([outputs r5] & Ho & Hp).
  apply res_bind_Ok in Hp as ([ws r6] & _ & Hp).
  apply res_bind_Ok in Hp as ([lockTime r7] & Hl & Hp).
  apply (inj Ok) in Hp as <-.
  cbn [t_Raw t_RawSansSegWit t_Hash t_ID t_Outputs t_SegWitFlag t_Inputs]. split_and!; try done.
  - case_match; [|done]. unfold serializeSansSegWit.
    cbn [t_Raw t_RawSansSegWit t_Hash t_ID t_Outputs t_SegWitFlag t_Inputs t_Version t_LockTime].
    by rewrite blen_attach, serialize_attach.
  - unfold attachOutputs. rewrite imap_imap. by apply imap_ext.
Qed.
End transaction_theorems.

(** Parsing a transaction always ends, with an error or with a transaction
    whose inputs and outputs are numbered, whose scripts are the parse of their
    sources and whose fields are within their widths. *)
Lemma ParseTransaction_total `{Digests} raw :
  (exists t, ParseTransaction raw = Ok t /\ parsedTransaction t /\ t_Raw t = raw) \/
  exists e, ParseTransaction raw = Err e.
Proof.
  pose proof (ParseTransaction_returns raw) as Hr.
  destruct (ParseTransaction raw) as [t|e| |] eqn:E; [left|right; by exists e|by destruct Hr..].
  exists t. split_and!; [done|by eapply ParseTransaction_parsed|by apply parsed_identity].
Qed.


