(* ===== verification/TransactionBuild.v ===== *)
(** * Building transactions

    Model of [NewTransaction], [AddInputs], [AddOutputs], [ResetDerived],
    [RebuildDerived], the sizes and the sums of [wallet/transaction_build.go].
    A resolved output is the value the code reads through its pointer, so
    [refreshInputPreviousOutput] copies the ID, hash and position it carries. *)

From S2P Require Import Prelude Digest Hex Script ScriptBuild Transaction.

Definition reposition (index : nat) (i : TransactionInput) : TransactionInput :=
  MkInput (u32 (Z.of_nat index)) (i_PreviousHash i) (i_PreviousTxID i) (i_PreviousIndex i)
    (i_Sequence i) (i_Coinbase i) (i_Script i) (i_ResolvedOutput i).

Definition refreshInputPreviousOutput (i : TransactionInput) (output : TransactionOutput)
  : TransactionInput :=
  MkInput (i_Position i) (o_TransactionHash output) (o_TransactionID output)
    (o_Position output) (i_Sequence i) (i_Coinbase i) (i_Script i) (Some output).

Definition refreshInput (index : nat) (i : TransactionInput) : TransactionInput :=
  let i := reposition index i in
  match i_ResolvedOutput i with
  | Some output => refreshInputPreviousOutput i output
  | None => i
  end.

Definition repositionOutput (index : nat) (o : TransactionOutput) : TransactionOutput :=
  MkOutput (o_TransactionID o) (o_TransactionHash o) (u32 (Z.of_nat index))
    (o_Amount o) (o_Script o).

(** The struct with new derived fields, inputs and outputs. *)
Definition withDerived (t : Transaction) (raw sansSegWit hash id : bytes)
    (inputs : list TransactionInput) (outputs : list TransactionOutput) : Transaction :=
  MkTransaction raw sansSegWit hash id (t_Version t) (t_LockTime t) (t_SegWitFlag t)
    (t_Witnesses t) inputs outputs (t_Trailing t) (t_Height t) (t_Position t) (t_IsVerified t).

Definition clearOutput (o : TransactionOutput) : TransactionOutput :=
  MkOutput [] zeroHash (o_Position o) (o_Amount o) (o_Script o).
Definition ResetDerived (t : Transaction) : Transaction :=
  withDerived t [] [] zeroHash [] (t_Inputs t) (map clearOutput (t_Outputs t)).

Section digests.
Context `{Digests}.

(** On [Err] the transaction is left as it was. *)
Definition RebuildDerived (t : Transaction) : res Transaction :=
  if 2 ^ 32 <? blen (t_Inputs t) then Err (ErrInvalidWalletTransaction ": too many inputs")
  else if 2 ^ 32 <? blen (t_Outputs t) then Err (ErrInvalidWalletTransaction ": too many outputs")
  else
    let inputs := imap refreshInput (t_Inputs t) in
    let outputs := imap repositionOutput (t_Outputs t) in
    let raw := serializeSansSegWit
      (withDerived t (t_Raw t) (t_RawSansSegWit t) (t_Hash t) (t_ID t) inputs outputs) in
    let hash := doubleSHA256 raw in
    let id := displayHash hash in
    Ok (withDerived t raw raw hash id inputs
          (map (fun o => MkOutput id hash (o_Position o) (o_Amount o) (o_Script o)) outputs)).

(** [_ = transaction.RebuildDerived()] *)
Definition rebuildOrKeep (t : Transaction) : Transaction :=
  match RebuildDerived t with Ok t' => t' | _ => t end.

Definition NewTransaction : Transaction :=
  rebuildOrKeep (MkTransaction [] [] zeroHash [] 1 0 0 [] [] [] [] (-2) (-1) false).

(** The transaction and the refreshed argument slice. *)
Definition AddInputs (t : Transaction) (inputs : list TransactionInput)
  : Transaction * list TransactionInput :=
  let start := length (t_Inputs t) in
  let inputs := imap (fun index => reposition (start + index)) inputs in
  let t := withDerived t (t_Raw t) (t_RawSansSegWit t) (t_Hash t) (t_ID t)
             (t_Inputs t ++ inputs) (t_Outputs t) in
  let t := rebuildOrKeep (ResetDerived t) in
  (t, drop start (t_Inputs t)).
Definition AddOutputs (t : Transaction) (outputs : list TransactionOutput)
  : Transaction * list TransactionOutput :=
  let start := length (t_Outputs t) in
  let outputs := imap (fun index => repositionOutput (start + index)) outputs in
  let t := withDerived t (t_Raw t) (t_RawSansSegWit t) (t_Hash t) (t_ID t)
             (t_Inputs t) (t_Outputs t ++ outputs) in
  let t := rebuildOrKeep (ResetDerived t) in
  (t, drop start (t_Outputs t)).

(** ** Sizes and sums *)

Definition InputSize (i : TransactionInput) : Z := blen (serializeInput i).
Definition OutputSize (o : TransactionOutput) : Z := blen (serializeOutput o).
(** [Raw == nil] holds exactly after a reset, when [Raw] is empty. *)
Definition Size (t : Transaction) : Z :=
  match t_Raw t with [] => blen (t_Raw (rebuildOrKeep t)) | raw => blen raw end.
Definition sizes {A} (size : A -> Z) (l : list A) : Z := foldr (fun x n => size x + n) 0 l.
Definition BaseSize (t : Transaction) : Z :=
  Size t - sizes InputSize (t_Inputs t) - sizes OutputSize (t_Outputs t).
Definition InputSum (t : Transaction) : Z :=
  fold_left (fun sum i => match i_ResolvedOutput i with
                          | Some o => u64 (sum + o_Amount o)
                          | None => sum end) (t_Inputs t) 0.
Definition OutputSum (t : Transaction) : Z :=
  fold_left (fun sum o => u64 (sum + o_Amount o)) (t_Outputs t) 0.
Definition Fee (t : Transaction) : Z := i64 (i64 (InputSum t) - i64 (OutputSum t)).

(** ** Output and input constructors *)

(** [script, err := New...(); if err != nil { script.Err = err }] *)
Definition outputOf (amount : Z) (script : res TransactionOutputScript) : TransactionOutput :=
  MkOutput [] zeroHash 0 amount
    match script with
    | Ok s => s
    | Err e => MkOutputScript [] "" [] [] [] [] [] [] [] [] false false false (Some e)
    | _ => outputScriptOf []
    end.
Definition NewPayPubKeyHashOutput (amount : Z) (pubKeyHash : bytes) : TransactionOutput :=
  outputOf amount (NewPayPubKeyHashOutputScript pubKeyHash).
Definition NewPayScriptHashOutput (amount : Z) (scriptHash : bytes) : TransactionOutput :=
  outputOf amount (NewPayScriptHashOutputScript scriptHash).
Definition NewReturnDataOutput (data : bytes) : TransactionOutput :=
  outputOf 0 (NewReturnDataOutputScript data).
Definition NewClaimNameOutput (amount : Z) (claimName claim pubKeyHash : bytes)
  : TransactionOutput :=
  outputOf amount (NewClaimNamePubKeyHashOutputScript claimName claim pubKeyHash).
Definition decodeTransactionClaimID (claimID : bytes) : res bytes :=
  decoded ← map_err (fun e => "invalid transaction claim ID: " ++ e)%string (hexDecode claimID);
  Ok (reverseTransactionBytes decoded).
Definition NewUpdateClaimOutput (amount : Z) (claimName claimID claim pubKeyHash : bytes)
  : res TransactionOutput :=
  internalClaimID ← decodeTransactionClaimID claimID;
  script ← NewUpdateClaimPubKeyHashOutputScript claimName internalClaimID claim pubKeyHash;
  Ok (MkOutput [] zeroHash 0 amount script).
Definition NewSupportOutput (amount : Z) (claimName claimID pubKeyHash : bytes)
  : res TransactionOutput :=
  internalClaimID ← decodeTransactionClaimID claimID;
  script ← NewSupportPubKeyHashOutputScript claimName internalClaimID pubKeyHash;
  Ok (MkOutput [] zeroHash 0 amount script).
Definition NewSupportDataOutput (amount : Z) (claimName claimID support pubKeyHash : bytes)
  : res TransactionOutput :=
  internalClaimID ← decodeTransactionClaimID claimID;
  script ← NewSupportDataPubKeyHashOutputScript claimName internalClaimID support pubKeyHash;
  Ok (MkOutput [] zeroHash 0 amount script).
End digests.

(** [TransactionOutput.ClaimID]: the display form of the claim hash.  A new
    claim is identified by HASH160 of its outpoint, an update or a support by
    the claim ID in its script. *)
Definition ErrTransactionHasNoClaimID : string := "transaction output has no claim ID".
Definition hash160 `{Digests} (value : bytes) : bytes := ripemd160 (sha256 value).
Definition ClaimID `{Digests} (o : TransactionOutput) : res bytes :=
  match out_Err (o_Script o) with
  | Some e => Err e
  | None =>
      if IsClaimName (o_Script o) then
        Ok (displayHash (hash160 (o_TransactionHash o ++ be_bytes 4 (o_Position o))))
      else if IsUpdateClaim (o_Script o) || IsSupportClaim (o_Script o) then
        Ok (displayHash (out_ClaimID (o_Script o)))
      else Err ErrTransactionHasNoClaimID
  end.

(** ** The derived fields *)

(** A value whose derived fields describe its other fields, with the inputs and
    outputs numbered and linked: what [RebuildDerived] establishes. *)
Definition derived `{Digests} (t : Transaction) : Prop :=
  t_Raw t = serializeSansSegWit t /\ t_RawSansSegWit t = t_Raw t /\
  t_Hash t = doubleSHA256 (t_Raw t) /\ t_ID t = displayHash (t_Hash t) /\
  (forall k i, t_Inputs t !! k = Some i -> refreshInput k i = i) /\
  (forall k o, t_Outputs t !! k = Some o ->
     o_Position o = Z.of_nat k /\ o_TransactionID o = t_ID t /\ o_TransactionHash o = t_Hash t) /\
  blen (t_Inputs t) <= 2 ^ 32 /\ blen (t_Outputs t) <= 2 ^ 32.

Lemma refreshInput_idem k i : refreshInput k (refreshInput k i) = refreshInput k i.
Proof. destruct i as [??????? [o|]]; done. Qed.
Section derived_theorems.
Context `{Digests}.

Definition tooMany (t : Transaction) : bool :=
  (2 ^ 32 <? blen (t_Inputs t)) || (2 ^ 32 <? blen (t_Outputs t)).

(** Rebuilding succeeds exactly within the count limits, and then the derived
    fields are right and nothing else changed. *)
Lemma RebuildDerived_derived t :
  tooMany t = false ->
  exists t', RebuildDerived t = Ok t' /\ derived t' /\
    t_Inputs t' = imap refreshInput (t_Inputs t) /\
    map o_Script (t_Outputs t') = map o_Script (t_Outputs t) /\
    map o_Amount (t_Outputs t') = map o_Amount (t_Outputs t) /\
    t_Version t' = t_Version t /\ t_LockTime t' = t_LockTime t /\
    t_Witnesses t' = t_Witnesses t.
Proof.
  unfold tooMany. intros Hn. apply orb_false_iff in Hn as [Hi Ho].
  unfold RebuildDerived. rewrite Hi, Ho. eexists. split; [done|].
  apply Z.ltb_ge in Hi, Ho. unfold derived; cbn. split_and!; try done.
  - unfold serializeSansSegWit; cbn. rewrite blen_map. do 4 f_equal.
    by erewrite flat_map_fmap_ext.
  - apply imap_idem, refreshInput_idem.
  - intros k o Hk. rewrite list_lookup_fmap, list_lookup_imap in Hk.
    rewrite <- list_fmap_compose in Hk || idtac.
    destruct (t_Outputs t !! k) as [o'|] eqn:E; [|done]. cbn in Hk. simplify_eq. cbn.
    split_and!; try done. apply u32_id. apply lookup_lt_Some in E. unfold blen in Ho. lia.
  - by rewrite blen_imap.
  - by rewrite blen_map, blen_imap.
  - rewrite map_map. cbn. apply list_eq. intros k. rewrite !list_lookup_fmap, list_lookup_imap.
    by destruct (t_Outputs t !! k).
  - rewrite map_map. cbn. apply list_eq. intros k. rewrite !list_lookup_fmap, list_lookup_imap.
    by destruct (t_Outputs t !! k).
Qed.

Lemma RebuildDerived_fixed t : derived t -> RebuildDerived t = Ok t.
Proof.
  intros (Hraw & Hsans & Hhash & Hid & Hin & Hout & Hni & Hno). unfold RebuildDerived.
  destruct (Z.ltb_spec (2 ^ 32) (blen (t_Inputs t))); [lia|].
  destruct (Z.ltb_spec (2 ^ 32) (blen (t_Outputs t))); [lia|].
  rewrite (imap_fixed refreshInput) by done.
  rewrite (imap_fixed repositionOutput).
  2: { intros k o Hk. destruct (Hout _ _ Hk) as (Hp & _). unfold repositionOutput.
       apply lookup_lt_Some in Hk. unfold blen in *.
       rewrite u32_id, <- Hp by lia. by destruct o. }
  replace (withDerived t (t_Raw t) (t_RawSansSegWit t) (t_Hash t) (t_ID t) (t_Inputs t)
    (t_Outputs t)) with t by by destruct t.
  rewrite <- Hraw, <- Hhash, <- Hid.
  assert (map (fun o => MkOutput (t_ID t) (t_Hash t) (o_Position o) (o_Amount o) (o_Script o))
    (t_Outputs t) = t_Outputs t) as ->.
  { apply list_eq. intros k. rewrite list_lookup_fmap.
    destruct (t_Outputs t !! k) as [o|] eqn:E; cbn; [|done].
    destruct (Hout _ _ E) as (? & <- & <-). by destruct o. }
  rewrite <- Hsans at 2. by destruct t.
Qed.

Lemma AddInputs_spec t inputs t' added :
  blen (t_Inputs t) + blen inputs <= 2 ^ 32 -> blen (t_Outputs t) <= 2 ^ 32 ->
  AddInputs t inputs = (t', added) ->
  derived t' /\ t_Inputs t' = imap refreshInput (t_Inputs t ++ inputs) /\
  added = drop (length (t_Inputs t)) (t_Inputs t') /\
  map o_Script (t_Outputs t') = map o_Script (t_Outputs t) /\
  map o_Amount (t_Outputs t') = map o_Amount (t_Outputs t).
Proof.
  intros Hi Ho Ha. unfold AddInputs in Ha. apply pair_equal_spec in Ha as [Ht <-].
  unfold rebuildOrKeep in Ht.
  match type of Ht with match RebuildDerived ?u with _ => _ end = _ =>
    destruct (RebuildDerived_derived u) as (u' & Hu & Hd & Hin & Hs & Hamt & _) end.
  { unfold tooMany; cbn. rewrite blen_app, blen_imap, blen_map.
    apply orb_false_iff; split; apply Z.ltb_ge; lia. }
  rewrite Hu in Ht. subst u'. split_and!; [done| | |etrans; [exact Hs|]|etrans; [exact Hamt|]].
  - rewrite Hin. cbn. rewrite !imap_app. f_equal. rewrite imap_imap.
    apply imap_ext. intros k i _. cbn.
    destruct i as [??????? [o|]]; done.
  - by unfold rebuildOrKeep; rewrite Hu.
  - cbn. by rewrite map_map.
  - cbn. by rewrite map_map.
Qed.

Lemma AddOutputs_spec t outputs t' added :
  blen (t_Inputs t) <= 2 ^ 32 -> blen (t_Outputs t) + blen outputs <= 2 ^ 32 ->
  AddOutputs t outputs = (t', added) ->
  derived t' /\ t_Inputs t' = imap refreshInput (t_Inputs t) /\
  added = drop (length (t_Outputs t)) (t_Outputs t') /\
  map o_Script (t_Outputs t') = map o_Script (t_Outputs t ++ outputs) /\
  map o_Amount (t_Outputs t') = map o_Amount (t_Outputs t ++ outputs).
Proof.
  intros Hi Ho Ha. unfold AddOutputs in Ha. apply pair_equal_spec in Ha as [Ht <-].
  unfold rebuildOrKeep in Ht.
  match type of Ht with match RebuildDerived ?u with _ => _ end = _ =>
    destruct (RebuildDerived_derived u) as (u' & Hu & Hd & Hin & Hs & Hamt & _) end.
  { unfold tooMany; cbn. rewrite blen_map, blen_app, blen_imap.
    apply orb_false_iff; split; apply Z.ltb_ge; lia. }
  rewrite Hu in Ht. subst u'. split_and!; [done|done| |etrans; [exact Hs|]|etrans; [exact Hamt|]].
  - by unfold rebuildOrKeep; rewrite Hu.
  - cbn. rewrite map_map, !map_app. f_equal. apply list_eq. intros k.
    rewrite !list_lookup_fmap, list_lookup_imap. by destruct (outputs !! k).
  - cbn. rewrite map_map, !map_app. f_equal. apply list_eq. intros k.
    rewrite !list_lookup_fmap, list_lookup_imap. by destruct (outputs !! k).
Qed.

(** ** Sizes *)

Lemma sizes_flat_map {A} (ser : A -> bytes) l :
  sizes (fun x => blen (ser x)) l = blen (flat_map ser l).
Proof. unfold sizes. induction l as [|x l IH]; cbn; [done|]. by rewrite blen_app, IH. Qed.
Lemma Size_derived t : derived t -> Size t = blen (serializeSansSegWit t).
Proof.
  intros (Hraw & _). unfold Size. rewrite <- Hraw. destruct (t_Raw t) eqn:E; [|done].
  symmetry in Hraw. by apply (f_equal length) in Hraw.
Qed.
Lemma BaseSize_derived t :
  derived t ->
  BaseSize t = 8 + blen (compactSize (blen (t_Inputs t))) + blen (compactSize (blen (t_Outputs t))).
Proof.
  intros Hd. unfold BaseSize. rewrite (Size_derived _ Hd).
  change (sizes InputSize) with (sizes (fun i => blen (serializeInput i))).
  change (sizes OutputSize) with (sizes (fun o => blen (serializeOutput o))).
  rewrite (sizes_flat_map serializeInput), (sizes_flat_map serializeOutput).
  unfold serializeSansSegWit.
  rewrite !blen_app, !blen_le_bytes. lia.
Qed.

(** ** Sums: exact when the true sums fit, [Fee] then being their difference. *)

Definition amounts (l : list TransactionOutput) : Z := sizes o_Amount l.
Lemma sizes_nonneg {A} (amount : A -> Z) l :
  (forall x, x ∈ l -> 0 <= amount x) -> 0 <= sizes amount l.
Proof.
  unfold sizes. induction l as [|y l IH]; intros Hp; cbn; [done|].
  assert (0 <= amount y) by (apply Hp; set_solver). unshelve epose proof (IH _); [set_solver|lia].
Qed.
Lemma wrapped_sum {A} (amount : A -> Z) l acc :
  (forall x, x ∈ l -> 0 <= amount x) -> 0 <= acc -> acc + sizes amount l < 2 ^ 64 ->
  fold_left (fun sum x => u64 (sum + amount x)) l acc = acc + sizes amount l.
Proof.
  revert acc. induction l as [|x l IH]; intros acc Hp Ha Hs; [cbn; lia|].
  change (sizes amount (x :: l)) with (amount x + sizes amount l) in *.
  assert (0 <= sizes amount l) by (apply sizes_nonneg; set_solver).
  assert (0 <= amount x) by (apply Hp; set_solver). cbn [fold_left].
  rewrite u64_id by lia. rewrite IH; [lia|set_solver|lia|lia].
Qed.

Definition resolvedAmount (i : TransactionInput) : Z :=
  match i_ResolvedOutput i with Some o => o_Amount o | None => 0 end.

End derived_theorems.


(** Adding inputs or outputs leaves a transaction whose raw bytes, hash and
    ID are those of its fields, whose inputs refer to the outputs they resolve,
    and whose outputs carry its ID; rebuilding it again changes nothing, and the
    size that is not inputs or outputs is eight bytes and the two counts. *)
Theorem building_derives `{Digests} t inputs outputs :
  blen (t_Inputs t) + blen inputs <= 2 ^ 32 -> blen (t_Outputs t) + blen outputs <= 2 ^ 32 ->
  let t1 := fst (AddInputs t inputs) in
  let t2 := fst (AddOutputs t1 outputs) in
  derived t1 /\ derived t2 /\ RebuildDerived t2 = Ok t2 /\
  t_Inputs t1 = imap refreshInput (t_Inputs t ++ inputs) /\
  map o_Amount (t_Outputs t2) = map o_Amount (t_Outputs t) ++ map o_Amount outputs /\
  map o_Script (t_Outputs t2) = map o_Script (t_Outputs t) ++ map o_Script outputs /\
  BaseSize t2 = 8 + blen (compactSize (blen (t_Inputs t2))) + blen (compactSize (blen (t_Outputs t2))).
Proof.
  intros Hi Ho t1 t2. pose proof (blen_nonneg inputs). pose proof (blen_nonneg outputs).
  destruct (AddInputs_spec t inputs t1 (snd (AddInputs t inputs))) as (Hd1 & Hi1 & _ & Hs1 & Ha1);
    [done|lia|apply surjective_pairing|].
  assert (blen (t_Outputs t1) = blen (t_Outputs t)) as Hl1.
  { unfold blen. by rewrite <- (length_map o_Amount), Ha1, length_map. }
  assert (blen (t_Inputs t1) = blen (t_Inputs t) + blen inputs) as Hl1' by by rewrite Hi1, blen_imap, blen_app.
  destruct (AddOutputs_spec t1 outputs t2 (snd (AddOutputs t1 outputs))) as (Hd2 & _ & _ & Hs2 & Ha2);
    [lia|lia|apply surjective_pairing|].
  rewrite map_app, Ha1 in Ha2. rewrite map_app, Hs1 in Hs2.
  split_and!; [done|done|by apply RebuildDerived_fixed|done|done|done|by apply BaseSize_derived].
Qed.

(** Fees are exact.  When every input is resolved and the two sums are below
    2^63, the sums and the fee of the 64-bit code are the mathematical ones. *)
Theorem fee_exact t :
  (forall i, i ∈ t_Inputs t -> exists o, i_ResolvedOutput i = Some o /\ 0 <= o_Amount o) ->
  (forall o, o ∈ t_Outputs t -> 0 <= o_Amount o) ->
  sizes resolvedAmount (t_Inputs t) < 2 ^ 63 -> amounts (t_Outputs t) < 2 ^ 63 ->
  InputSum t = sizes resolvedAmount (t_Inputs t) /\ OutputSum t = amounts (t_Outputs t) /\
  Fee t = sizes resolvedAmount (t_Inputs t) - amounts (t_Outputs t).
Proof.
  intros Hin Hout Hi Ho.
  assert (forall i, i ∈ t_Inputs t -> 0 <= resolvedAmount i) as Hr.
  { intros i Hi'. unfold resolvedAmount. by destruct (Hin i Hi') as (o & -> & ?). }
  assert (InputSum t = sizes resolvedAmount (t_Inputs t)) as E1.
  { unfold InputSum. rewrite <- (Z.add_0_l (sizes resolvedAmount _)), <- wrapped_sum by (done || lia).
    assert (forall acc l, (forall i, i ∈ l -> exists o, i_ResolvedOutput i = Some o /\ 0 <= o_Amount o) ->
      fold_left (fun sum i => match i_ResolvedOutput i with Some o => u64 (sum + o_Amount o) | None => sum end) l acc
      = fold_left (fun sum i => u64 (sum + resolvedAmount i)) l acc) as Hf; [|by apply Hf].
    intros acc l. revert acc. induction l as [|i l IH]; intros acc Hl; cbn; [done|].
    destruct (Hl i ltac:(set_solver)) as (o & Ho' & _). unfold resolvedAmount at 2. rewrite Ho'.
    apply IH. set_solver. }
  assert (OutputSum t = amounts (t_Outputs t)) as E2.
  { unfold OutputSum, amounts. rewrite wrapped_sum; [lia|done|done|]. unfold amounts in Ho. lia. }
  pose proof (sizes_nonneg _ _ Hr). pose proof (sizes_nonneg _ _ Hout) as Hn. change (0 <= amounts (t_Outputs t)) in Hn.
  split_and!; [done|done|]. unfold Fee. rewrite E1, E2, (i64_id (amounts _)), (i64_id (sizes _ _)), i64_id by (unfold min_i64, max_i64; lia). lia.
Qed.

(** ** Witnesses *)

Definition exampleOutput (amount : Z) : TransactionOutput :=
  NewPayPubKeyHashOutput amount (repeat x09 20).
Definition exampleSpend : TransactionInput :=
  MkInput 0 (repeat x01 32) (hexEncode (repeat x01 32)) 1 (2 ^ 32 - 1) []
    (inputScriptOf [x51]) (Some (MkOutput (hexEncode (repeat x01 32)) (repeat x01 32) 1 700 (o_Script (exampleOutput 700)))).
#[local] Existing Instance exampleDigests.
Definition exampleTransaction : Transaction :=
  fst (AddOutputs (fst (AddInputs NewTransaction [exampleSpend])) [exampleOutput 600]).


Lemma building_derives_witness : RebuildDerived exampleTransaction = Ok exampleTransaction.
Proof.
  destruct (building_derives NewTransaction [exampleSpend] [exampleOutput 600]) as (_ & _ & H & _);
    [vm_compute; discriminate..|exact H].
Defined.

Lemma fee_exact_witness : Fee exampleTransaction = 700 - 600.
Proof.
  destruct (fee_exact exampleTransaction) as (_ & _ & H).
  - intros i Hi. vm_compute in Hi. apply list_elem_of_singleton in Hi as ->. eexists. by split; [reflexivity|].
  - intros o Ho. vm_compute in Ho. apply list_elem_of_singleton in Ho as ->. done.
  - vm_compute. reflexivity.
  - vm_compute. reflexivity.
  - rewrite H. vm_compute. reflexivity.
Defined.
