(* ===== verification/Decimal.v ===== *)
(** * Decimal integers: the parts of [strconv] the daemon uses

    [strconv.Itoa], [FormatInt] and [FormatUint] in base ten, and
    [strconv.ParseInt(s, 10, 64)], which [strconv.Atoi] agrees with on a 64-bit
    platform: an optional sign, then decimal digits only. *)

From S2P Require Import Prelude.

Fixpoint digits (fuel : nat) (z : Z) (acc : bytes) : bytes :=
  match fuel with
  | O => acc
  | S fuel =>
      let acc := byt (48 + z mod 10) :: acc in
      if z <? 10 then acc else digits fuel (z / 10) acc
  end.
(** A number of [b] bits has at most [b] digits. *)
Definition FormatUint (z : Z) : bytes := digits (S (Z.to_nat (Z.log2 z))) z [].
Definition FormatInt (z : Z) : bytes := if z <? 0 then lit "-" ++ FormatUint (- z) else FormatUint z.

Definition ErrSyntax : string := "invalid syntax".
Definition ErrRange : string := "value out of range".

Definition decimalDigit (c : byte) : option Z :=
  if (48 <=? Zb c) && (Zb c <=? 57) then Some (Zb c - 48) else None.

(** [ParseUint(s, 10, 64)] from the value [n] of the digits already read. *)
Fixpoint parseDigits (n : Z) (s : bytes) : res Z :=
  match s with
  | [] => Ok n
  | c :: s =>
      match decimalDigit c with
      | None => Err ErrSyntax
      | Some d => if 2 ^ 64 - 1 <? n * 10 + d then Err ErrRange else parseDigits (n * 10 + d) s
      end
  end.
Definition ParseUint (s : bytes) : res Z :=
  match s with [] => Err ErrSyntax | _ => parseDigits 0 s end.
Definition ParseInt (s : bytes) : res Z :=
  match s with
  | [] => Err ErrSyntax
  | c :: rest =>
      let neg := Byte.eqb c "-" in
      un ← ParseUint (if Byte.eqb c "+" || neg then rest else s);
      if negb neg && (2 ^ 63 <=? un) then Err ErrRange
      else if neg && (2 ^ 63 <? un) then Err ErrRange
      else Ok (if neg then - un else un)
  end.

Example ParseInt_examples :
  map ParseInt [lit "0"; lit "-12"; lit "+7"; lit ""; lit "-"; lit "9223372036854775808";
                lit "-9223372036854775808"; lit "1e"] =
  [Ok 0; Ok (-12); Ok 7; Err ErrSyntax; Err ErrSyntax; Err ErrRange; Ok min_i64; Err ErrSyntax].
Proof. vm_compute. reflexivity. Qed.

(** ** Round trip *)

Lemma decimalDigit_byt d : 0 <= d < 10 -> decimalDigit (byt (48 + d)) = Some d.
Proof.
  intros Hd. unfold decimalDigit. rewrite Zb_byt_id by lia.
  destruct (Z.leb_spec 48 (48 + d)); [|lia]. destruct (Z.leb_spec (48 + d) 57); [|lia].
  cbn. f_equal. lia.
Qed.

Lemma parseDigits_app n a b :
  parseDigits n (a ++ b) = (m ← parseDigits n a; parseDigits m b).
Proof.
  revert n. induction a as [|c a IH]; intros n; cbn; [done|].
  repeat case_match; done.
Qed.

Lemma digits_acc fuel z acc : digits fuel z acc = digits fuel z [] ++ acc.
Proof.
  revert z acc. induction fuel as [|fuel IH]; intros z acc; cbn; [done|].
  case_match; [done|]. rewrite IH, (IH _ [_]), <- app_assoc. done.
Qed.

Lemma parseDigits_digits fuel z :
  0 <= z < 2 ^ 64 -> z < 2 ^ Z.of_nat fuel -> parseDigits 0 (digits fuel z []) = Ok z.
Proof.
  revert z. induction fuel as [|fuel IH]; intros z Hz Hf; [cbn in *; f_equal; lia|].
  cbn [digits]. destruct (Z.ltb_spec z 10) as [Hlt|Hge].
  - cbn [parseDigits]. rewrite Z.mod_small, decimalDigit_byt by lia.
    destruct (Z.ltb_spec (2 ^ 64 - 1) (0 * 10 + z)); [lia|]. f_equal; lia.
  - rewrite digits_acc, parseDigits_app.
    rewrite Nat2Z.inj_succ, Z.pow_succ_r in Hf by lia.
    rewrite IH; [| |].
    + cbn [mbind res_bind parseDigits]. rewrite decimalDigit_byt by (apply Z.mod_pos_bound; lia).
      replace (z / 10 * 10 + z mod 10) with z by (pose proof (Z.div_mod z 10); lia).
      destruct (Z.ltb_spec (2 ^ 64 - 1) z); [lia|done].
    + split; [apply Z.div_pos; lia|]. apply Z.div_lt_upper_bound; lia.
    + apply Z.div_lt_upper_bound; lia.
Qed.

Lemma digits_nonempty fuel z acc : (0 < fuel)%nat -> digits fuel z acc <> [].
Proof.
  destruct fuel; [lia|]. intros _. cbn. case_match; [done|].
  rewrite digits_acc. by destruct (digits _ _ []).
Qed.

(** Every byte of a formatted number is a digit. *)
Definition isDigit (c : byte) : bool := (48 <=? Zb c) && (Zb c <=? 57).
Lemma digits_isDigit fuel z acc :
  Forall (fun c => isDigit c = true) acc -> Forall (fun c => isDigit c = true) (digits fuel z acc).
Proof.
  revert z acc. induction fuel as [|fuel IH]; intros z acc Ha; cbn; [done|].
  assert (Forall (fun c => isDigit c = true) (byt (48 + z mod 10) :: acc)).
  { constructor; [|done]. pose proof (Z.mod_pos_bound z 10). unfold isDigit.
    rewrite Zb_byt_id by lia. apply andb_true_iff. split; apply Z.leb_le; lia. }
  case_match; auto.
Qed.
Lemma FormatUint_isDigit z : Forall (fun c => isDigit c = true) (FormatUint z).
Proof. by apply digits_isDigit. Qed.
Lemma FormatUint_cons z : exists c s, FormatUint z = c :: s /\ isDigit c = true.
Proof.
  pose proof (FormatUint_isDigit z) as Hd.
  destruct (FormatUint z) as [|c s] eqn:E; [by apply digits_nonempty in E; [|lia]|].
  inversion Hd; subst. eauto.
Qed.

Lemma ParseUint_Format z : 0 <= z < 2 ^ 64 -> ParseUint (FormatUint z) = Ok z.
Proof.
  intros Hz. unfold ParseUint. destruct (FormatUint_cons z) as (c & s & E & _). rewrite E, <- E.
  apply parseDigits_digits; [done|]. rewrite Nat2Z.inj_succ, Z2Nat.id by apply Z.log2_nonneg.
  destruct (decide (z = 0)) as [->|]; [done|]. apply Z.log2_spec. lia.
Qed.

Lemma isDigit_not_sign c : isDigit c = true -> Byte.eqb c "+" = false /\ Byte.eqb c "-" = false.
Proof. by destruct c. Qed.

Lemma ParseInt_Format z : min_i64 <= z <= max_i64 -> ParseInt (FormatInt z) = Ok z.
Proof.
  unfold min_i64, max_i64. intros Hz. unfold FormatInt. destruct (Z.ltb_spec z 0) as [Hneg|Hpos].
  - change (lit "-" ++ FormatUint (- z)) with ("-"%byte :: FormatUint (- z)).
    unfold ParseInt. rewrite eqb_byte_refl, orb_true_r, ParseUint_Format by lia. cbn -[Z.pow].
    destruct (Z.ltb_spec (2 ^ 63) (- z)); [lia|]. f_equal; lia.
  - destruct (FormatUint_cons z) as (c & s & E & Hd).
    pose proof (ParseUint_Format z ltac:(lia)) as Hp. rewrite E in *.
    apply isDigit_not_sign in Hd as [H1 H2]. unfold ParseInt. rewrite H1, H2. cbn [orb].
    rewrite Hp. cbn -[Z.pow].
    destruct (Z.leb_spec (2 ^ 63) z); [lia|done].
Qed.

Lemma ParseInt_range s z : ParseInt s = Ok z -> min_i64 <= z <= max_i64.
Proof.
  unfold ParseInt, min_i64, max_i64. destruct s as [|c s]; [done|]. intros H.
  apply res_bind_Ok in H as (un & Hu & H).
  assert (0 <= un) as Hun.
  { assert (forall s n m, 0 <= n -> parseDigits n s = Ok m -> 0 <= m) as Hpd.
    { clear. induction s as [|c s IH]; intros n m Hn Hm; cbn in Hm; [congruence|].
      unfold decimalDigit in Hm. destruct ((48 <=? Zb c) && (Zb c <=? 57)) eqn:E; [|done].
      apply andb_true_iff in E as [E1%Z.leb_le E2%Z.leb_le].
      case_match; [done|]. eapply (IH _ m); [|exact Hm]. lia. }
    unfold ParseUint in Hu. 
    destruct (if Byte.eqb c "+" || Byte.eqb c "-" then s else c :: s); [done|].
    eapply Hpd; [|exact Hu]. lia. }
  destruct (Byte.eqb c "-"); cbn -[Z.pow] in H;
    repeat case_match; bool_props; simplify_eq; lia.
Qed.

Lemma parseDigits_returns n s : returns (parseDigits n s).
Proof.
  revert n. induction s as [|c s IH]; intros n; cbn [parseDigits]; [done|].
  destruct (decimalDigit c); [|done]. by case_match.
Qed.
Lemma ParseUint_returns s : returns (ParseUint s).
Proof. destruct s; [done|]. apply parseDigits_returns. Qed.
Lemma ParseInt_returns s : returns (ParseInt s).
Proof.
  unfold ParseInt. destruct s as [|c s]; [done|].
  apply returns_bind; [apply ParseUint_returns|]. intros un _.
  destruct (Byte.eqb c "-"); cbn [negb andb]; by repeat case_match.
Qed.

Lemma FormatInt_inj x y :
  min_i64 <= x <= max_i64 -> min_i64 <= y <= max_i64 -> FormatInt x = FormatInt y -> x = y.
Proof.
  intros Hx Hy E. apply ParseInt_Format in Hx, Hy. rewrite E, Hy in Hx. by apply (inj Ok) in Hx.
Qed.

(** No leading zero. *)
Lemma digits_head fuel z : 0 < z -> z < 2 ^ Z.of_nat fuel -> exists c s, digits fuel z [] = c :: s /\ Zb c <> 48.
Proof.
  revert z. induction fuel as [|fuel IH]; intros z Hz Hf; [cbn in Hf; lia|]. cbn [digits].
  rewrite Nat2Z.inj_succ, Z.pow_succ_r in Hf by lia. destruct (Z.ltb_spec z 10) as [Hlt|Hge].
  - do 2 eexists. split; [done|]. rewrite Z.mod_small, Zb_byt_id by lia. lia.
  - rewrite digits_acc. destruct (IH (z / 10)) as (c & s & -> & Hc).
    + apply Z.div_str_pos. lia.
    + apply Z.div_lt_upper_bound; lia.
    + by do 2 eexists.
Qed.
Lemma FormatInt_natural n :
  0 <= n -> exists c s, FormatInt n = c :: s /\ Forall (fun c => isDigit c = true) (c :: s) /\
    (Zb c = 48 -> s = []).
Proof.
  intros Hn. unfold FormatInt. destruct (Z.ltb_spec n 0); [lia|].
  pose proof (FormatUint_isDigit n) as Hd. destruct (decide (n = 0)) as [->|].
  - exists "0"%byte, []. split; [done|]. by split; [repeat constructor|].
  - unfold FormatUint in *. destruct (digits_head (S (Z.to_nat (Z.log2 n))) n) as (c & s & E & Hc); [lia| |].
    + rewrite Nat2Z.inj_succ, Z2Nat.id by apply Z.log2_nonneg. apply Z.log2_spec. lia.
    + rewrite E in *. exists c, s. by split_and!.
Qed.
