(* ===== verification/PythonInt.v ===== *)
(** * Integers as Python reads them

    [big.Int.SetString] in base ten, and [int(text)] as [wallet/account.go] does
    it: white space around, and underscores between digits. *)

From S2P Require Import Prelude Utf8 Decimal.

Definition ErrPythonInt : string := "invalid literal for int()".

Definition isDecimal (c : byte) : bool := (48 <=? Zb c) && (Zb c <=? 57).
(** Python's underscores: each between digits. *)
Fixpoint underscoresOk (previous : option byte) (s : bytes) : bool :=
  match s with
  | [] => true
  | c :: rest =>
      (if Zb c =? 0x5f then
         match previous, rest with
         | Some p, next :: _ => isDecimal p && isDecimal next
         | _, _ => false
         end
       else true) && underscoresOk (Some c) rest
  end.
(** [big.Int.SetString(s, 10)] *)
Definition bigIntDigits (s : bytes) : option Z :=
  match s with
  | [] => None
  | _ => if forallb isDecimal s then Some (fold_left (fun n c => 10 * n + (Zb c - 48)) s 0) else None
  end.
Definition bigIntString (s : bytes) : option Z :=
  match s with
  | c :: rest =>
      if Zb c =? 0x2d then Z.opp <$> bigIntDigits rest
      else if Zb c =? 0x2b then bigIntDigits rest
      else bigIntDigits s
  | [] => None
  end.
Definition accountPythonIntString (value : bytes) : res Z :=
  let value := TrimSpace value in
  if bool_decide (value = []) || negb (underscoresOk None value) then Err ErrPythonInt
  else match bigIntString (List.filter (fun c => negb (Zb c =? 0x5f)) value) with
       | Some n => Ok n
       | None => Err ErrPythonInt
       end.

(** ** Integers as they are written *)

Lemma fold_all_digits fuel n :
  0 <= n -> n < 2 ^ Z.of_nat fuel -> fold_left (fun n c => 10 * n + (Zb c - 48)) (digits fuel n []) 0 = n.
Proof.
  revert n. induction fuel as [|fuel IH]; intros n Hn Hf; [cbn in *; lia|]. cbn [digits]. pose proof (Z.mod_pos_bound n 10 ltac:(done)).
  destruct (Z.ltb_spec n 10) as [Hlt|Hge].
  - cbn [fold_left]. rewrite Zb_byt_id by lia. rewrite Z.mod_small by lia. lia.
  - rewrite digits_acc, fold_left_app, IH.
    + cbn [fold_left]. rewrite Zb_byt_id by lia. pose proof (Z.div_mod n 10). lia.
    + apply Z.div_pos; lia.
    + rewrite Nat2Z.inj_succ, Z.pow_succ_r in Hf by lia. apply Z.div_lt_upper_bound; lia.
Qed.
Lemma bigIntDigits_FormatUint n : 0 <= n -> bigIntDigits (FormatUint n) = Some n.
Proof.
  intros Hn. destruct (FormatUint_cons n) as (c & s & E & _). unfold bigIntDigits. rewrite E, <- E.
  assert (forallb isDecimal (FormatUint n) = true) as ->.
  { apply forallb_forall. intros d Hd%list_elem_of_In. pose proof (FormatUint_isDigit n) as Hall. rewrite Forall_forall in Hall. by apply Hall. }
  f_equal. apply fold_all_digits; [done|]. rewrite Nat2Z.inj_succ, Z2Nat.id by apply Z.log2_nonneg.
  destruct (decide (n = 0)) as [->|]; [done|]. apply Z.log2_spec. lia.
Qed.
