(* ===== verification/Bencode.v ===== *)
(** * Bencoding, the wire format of the DHT

    Model of [dht/bencode.go].  A Go value of type [any] is a [value]; a Go map
    is an association list with distinct keys, whose order stands for the
    iteration order Go leaves unspecified.  The decoder keeps the code's
    position arithmetic, the wrap-around of [start + length] and the run-time
    panics of [make] included. *)

From S2P Require Import Prelude Hex Decimal.

#[local] Set Warnings "-register-all".

Inductive value :=
| VInt (n : Z)                         (* int *)
| VInt64 (n : Z)                       (* int64 *)
| VUint64 (n : Z)                      (* uint64 *)
| VBytes (b : bytes)                   (* []byte *)
| VString (s : bytes)                  (* string *)
| VList (l : list value)               (* []any *)
| VMap (m : list (bytes * value))      (* map[string]any *)
| VIntMap (m : list (Z * value))       (* map[int]any *)
| VOther (type : string).              (* any other dynamic type *)

Section value_ind.
Variable P : value -> Prop.
Hypothesis HInt : forall n, P (VInt n).
Hypothesis HInt64 : forall n, P (VInt64 n).
Hypothesis HUint64 : forall n, P (VUint64 n).
Hypothesis HBytes : forall b, P (VBytes b).
Hypothesis HString : forall s, P (VString s).
Hypothesis HList : forall l, Forall P l -> P (VList l).
Hypothesis HMap : forall m, Forall (fun e => P e.2) m -> P (VMap m).
Hypothesis HIntMap : forall m, Forall (fun e => P e.2) m -> P (VIntMap m).
Hypothesis HOther : forall t, P (VOther t).
Fixpoint value_nested_ind (v : value) : P v :=
  match v with
  | VInt n => HInt n | VInt64 n => HInt64 n | VUint64 n => HUint64 n
  | VBytes b => HBytes b | VString s => HString s
  | VList l => HList l (list_ind (Forall P) (Forall_nil_2 P)
      (fun v l => Forall_cons_2 P v l (value_nested_ind v)) l)
  | VMap m => HMap m (list_ind (Forall _) (Forall_nil_2 _)
      (fun e l => Forall_cons_2 (fun e => P e.2) e l (value_nested_ind e.2)) m)
  | VIntMap m => HIntMap m (list_ind (Forall _) (Forall_nil_2 _)
      (fun e l => Forall_cons_2 (fun e => P e.2) e l (value_nested_ind e.2)) m)
  | VOther t => HOther t
  end.
End value_ind.

(** ** Go maps *)

Section assoc.
Context {K A : Type} `{EqDecision K}.
(** [v, ok := m[k]] *)
Fixpoint mapLookup (k : K) (m : list (K * A)) : option A :=
  match m with
  | [] => None
  | (k', v) :: m => if decide (k = k') then Some v else mapLookup k m
  end.
(** [m[k] = v] *)
Fixpoint mapInsert (k : K) (v : A) (m : list (K * A)) : list (K * A) :=
  match m with
  | [] => [(k, v)]
  | (k', v') :: m => if decide (k = k') then (k, v) :: m else (k', v') :: mapInsert k v m
  end.
End assoc.

(** ** Encoding *)

Definition bytesLe (a b : bytes) : Prop := Is_true (bytes_leb a b).
#[export] Instance bytesLe_dec a b : Decision (bytesLe a b) := _.
Definition sortStrings (keys : list bytes) : list bytes := merge_sort bytesLe keys.
Definition sortInts (keys : list Z) : list Z := merge_sort Z.le keys.

Definition encInt (n : Z) : bytes := lit "i" ++ FormatInt n ++ lit "e".
Definition encBytes (b : bytes) : bytes := FormatInt (blen b) ++ lit ":" ++ b.

(** [for _, k := range keys { write k; if err := encode(val[k]) ... }], over the
    map with its values encoded. *)
Fixpoint encEntries {K} `{EqDecision K} (encKey : K -> bytes) (m : list (K * res bytes))
    (keys : list K) : res bytes :=
  match keys with
  | [] => Ok []
  | k :: keys =>
      e ← match mapLookup k m with Some e => e | None => Err "bencode: unsupported type <nil>" end;
      rest ← encEntries encKey m keys;
      Ok (encKey k ++ e ++ rest)
  end.
Fixpoint encItems (l : list (res bytes)) : res bytes :=
  match l with
  | [] => Ok []
  | item :: l => e ← item; rest ← encItems l; Ok (e ++ rest)
  end.

Fixpoint bencEncode (v : value) : res bytes :=
  match v with
  | VInt n | VInt64 n | VUint64 n => Ok (encInt n)
  | VBytes b | VString b => Ok (encBytes b)
  | VList l => items ← encItems (map bencEncode l); Ok (lit "l" ++ items ++ lit "e")
  | VMap m =>
      entries ← encEntries encBytes (map (fun e => (e.1, bencEncode e.2)) m)
                  (sortStrings (map fst m));
      Ok (lit "d" ++ entries ++ lit "e")
  | VIntMap m =>
      entries ← encEntries encInt (map (fun e => (e.1, bencEncode e.2)) m)
                  (sortInts (map fst m));
      Ok (lit "d" ++ entries ++ lit "e")
  | VOther type => Err ("bencode: unsupported type " ++ type)
  end.
Definition BencodeEncode (v : value) : res bytes := bencEncode v.

(** ** Decoding *)

(** [bytes.IndexByte] *)
Fixpoint IndexByte (data : bytes) (c : byte) : option nat :=
  match data with
  | [] => None
  | b :: data => if Byte.eqb b c then Some O else S <$> IndexByte data c
  end.

Definition slice (data : bytes) (from to : nat) : bytes := take (to - from) (drop from data).

Definition bencDecodeInt (data : bytes) : res (Z * nat) :=
  match IndexByte data "e" with
  | None => Err "bencode: unterminated integer"
  | Some end_ =>
      n ← map_err (fun e => "bencode: invalid integer: " ++ e)%string
            (ParseInt (slice data 1 end_));
      Ok (n, S end_)
  end.

(** [make([]byte, length)] panics on a negative length and on one the allocator
    cannot satisfy, more than [2 ^ 48] bytes on the 64-bit platforms. *)
Definition makeBytes (length : Z) : res unit :=
  if (length <? 0) || (2 ^ 48 <? length) then Panic else Ok tt.

Definition bencDecodeBytes (data : bytes) : res (bytes * nat) :=
  match IndexByte data ":" with
  | None => Err "bencode: missing colon in string"
  | Some colon =>
      length ← map_err (fun e => "bencode: invalid string length: " ++ e)%string
                 (ParseInt (take colon data));
      let start := S colon in
      let end_ := i64 (Z.of_nat start + length) in
      if blen data <? end_ then Err "bencode: string overflow"
      else
        _ ← makeBytes length;
        Ok (slice data start (Z.to_nat end_), Z.to_nat end_)
  end.

(** The loop of [bencDecodeList]; [decode] is [BencodeDecode] on the next item.
    Each item takes a byte, so the length of the data is enough fuel. *)
Fixpoint listLoop (decode : bytes -> res (value * nat)) (fuel : nat) (data : bytes) (pos : nat)
    (list : list value) : res (value * nat) :=
  match data !! pos with
  | None => Err "bencode: unterminated list"
  | Some c =>
      if Byte.eqb c "e" then Ok (VList list, S pos)
      else match fuel with
      | O => NoFuel
      | S fuel =>
          '(val, n) ← decode (drop pos data);
          listLoop decode fuel data (pos + n) (list ++ [val])
      end
  end.

(** A dictionary key: a byte string, or an integer that becomes its decimal form. *)
Definition decodeKey (data : bytes) : res (bytes * nat) :=
  match data with
  | c :: _ =>
      if Byte.eqb c "i" then
        '(keyInt, n) ← map_err (fun e => "bencode: invalid dict int key: " ++ e)%string
                         (bencDecodeInt data);
        Ok (FormatInt keyInt, n)
      else map_err (fun e => "bencode: invalid dict key: " ++ e)%string (bencDecodeBytes data)
  | [] => Panic
  end.

Fixpoint dictLoop (decode : bytes -> res (value * nat)) (fuel : nat) (data : bytes) (pos : nat)
    (dict : list (bytes * value)) : res (value * nat) :=
  match data !! pos with
  | None => Err "bencode: unterminated dict"
  | Some c =>
      if Byte.eqb c "e" then Ok (VMap dict, S pos)
      else match fuel with
      | O => NoFuel
      | S fuel =>
          '(keyStr, n) ← decodeKey (drop pos data);
          let pos := (pos + n)%nat in
          '(val, n) ← decode (drop pos data);
          dictLoop decode fuel data (pos + n) (mapInsert keyStr val dict)
      end
  end.

Fixpoint decodeFuel (fuel : nat) (data : bytes) : res (value * nat) :=
  match fuel with
  | O => NoFuel
  | S fuel =>
      match data with
      | [] => Err "bencode: empty data"
      | c :: _ =>
          if Byte.eqb c "i" then '(n, used) ← bencDecodeInt data; Ok (VInt64 n, used)
          else if Byte.eqb c "l" then listLoop (decodeFuel fuel) (length data) data 1 []
          else if Byte.eqb c "d" then dictLoop (decodeFuel fuel) (length data) data 1 []
          else if isDigit c then '(b, used) ← bencDecodeBytes data; Ok (VBytes b, used)
          else Err ("bencode: unexpected byte 0x" ++ string_of_list_byte (hexEncode [c]))
      end
  end.
(** The nesting is at most the length of the data. *)
Definition BencodeDecode (data : bytes) : res (value * nat) := decodeFuel (S (length data)) data.

Example decode_examples :
  map BencodeDecode [lit "i42e"; lit "l3:abci-1ee"; lit "di0e1:a1:bi2ee"; lit "3:ab"; lit "x"] =
  [Ok (VInt64 42, 4%nat); Ok (VList [VBytes (lit "abc"); VInt64 (-1)], 11%nat);
   Ok (VMap [(lit "0", VBytes (lit "a")); (lit "b", VInt64 2)], 14%nat);
   Err "bencode: string overflow"; Err "bencode: unexpected byte 0x78"].
Proof. vm_compute. reflexivity. Qed.

(** ** What the decoder consumes; it always stops *)

Lemma IndexByte_lt data c i : IndexByte data c = Some i -> (i < length data)%nat.
Proof.
  revert i. induction data as [|b data IH]; intros i H; [done|]. cbn in H.
  case_match; simplify_eq; [cbn; lia|]. destruct (IndexByte data c) as [j|]; [|done].
  cbn in H. simplify_eq. specialize (IH j eq_refl). cbn; lia.
Qed.
Lemma IndexByte_app a c r : c ∉ a -> IndexByte (a ++ c :: r) c = Some (length a).
Proof.
  induction a as [|b a IH]; intros Ha; cbn; [by rewrite eqb_byte_refl|].
  apply not_elem_of_cons in Ha as [Hne Ha]. rewrite eqb_byte, IH by done.
  by rewrite bool_decide_eq_false_2 by congruence.
Qed.

Lemma bencDecodeInt_consumed data n used :
  bencDecodeInt data = Ok (n, used) -> (1 <= used <= length data)%nat.
Proof.
  unfold bencDecodeInt. destruct (IndexByte data "e") eqn:E; [|done]. intros H.
  apply IndexByte_lt in E. apply res_bind_Ok in H as (m & _ & H). simplify_eq. lia.
Qed.
(** A slice of a Go program fits in its address space. *)
Definition addressable (data : bytes) : Prop := blen data <= 2 ^ 48.
Lemma addressable_drop n data : addressable data -> addressable (drop n data).
Proof. unfold addressable, blen. rewrite length_drop. lia. Qed.

Lemma bencDecodeBytes_Ok data b used :
  addressable data -> bencDecodeBytes data = Ok (b, used) ->
  exists colon length, IndexByte data ":" = Some colon /\ ParseInt (take colon data) = Ok length /\
    0 <= length /\ Z.of_nat used = Z.of_nat (S colon) + length /\ (used <= List.length data)%nat.
Proof.
  unfold bencDecodeBytes, addressable. intros Ha.
  destruct (IndexByte data ":") as [colon|] eqn:E; [|done]. intros H.
  apply IndexByte_lt in E. apply res_bind_Ok in H as (m & Hm & H). apply map_err_Ok in Hm.
  destruct (Z.ltb_spec (blen data) (i64 (Z.of_nat (S colon) + m))); [done|].
  apply res_bind_Ok in H as ([] & Hk & H). simplify_eq. unfold makeBytes in Hk.
  case_match eqn:Hl; [done|]. bool_props. unfold blen in *.
  rewrite i64_id in * by (unfold min_i64, max_i64; lia).
  exists colon, m. split_and!; try done; lia.
Qed.
Lemma bencDecodeBytes_consumed data b used :
  addressable data -> bencDecodeBytes data = Ok (b, used) -> (1 <= used <= length data)%nat.
Proof. intros Ha H. apply bencDecodeBytes_Ok in H as (? & ? & ? & ? & ? & ? & ?); [lia|done]. Qed.

Lemma bencDecodeInt_returns data : returns (bencDecodeInt data).
Proof.
  unfold bencDecodeInt. case_match; [|done].
  apply returns_bind; [apply returns_map_err, ParseInt_returns|done].
Qed.
Lemma bencDecodeBytes_fuel data : bencDecodeBytes data <> NoFuel.
Proof.
  unfold bencDecodeBytes, makeBytes. case_match; [|done].
  pose proof (ParseInt_returns (take n data)).
  destruct (ParseInt _); cbn -[Z.pow]; try done. case_match; [done|]. by case_match.
Qed.

Lemma decodeKey_good data :
  addressable data -> data <> [] -> decodeKey data <> NoFuel /\
  forall k n, decodeKey data = Ok (k, n) -> (1 <= n <= length data)%nat.
Proof.
  intros Ha Hne. unfold decodeKey. destruct data as [|c data]; [done|].
  pose proof (bencDecodeInt_returns (c :: data)). pose proof (bencDecodeBytes_fuel (c :: data)).
  case_match.
  - destruct (bencDecodeInt (c :: data)) as [[n used]| | |] eqn:E; cbn -[length]; try done.
    split; [done|]. intros k m [= <- <-]. by eapply bencDecodeInt_consumed.
  - destruct (bencDecodeBytes (c :: data)) as [[b used]| | |] eqn:E; cbn -[length]; try done.
    split; [done|]. intros k m [= <- <-]. by eapply bencDecodeBytes_consumed.
Qed.

(** A decoder that stops on [data] and consumes at least one byte of it. *)
Definition stops (decode : bytes -> res (value * nat)) (data : bytes) : Prop :=
  decode data <> NoFuel /\ forall v n, decode data = Ok (v, n) -> (1 <= n <= length data)%nat.

Lemma lookup_drop_ne (data : bytes) pos c : data !! pos = Some c -> drop pos data <> [].
Proof. intros H. apply lookup_lt_Some in H. intros E%(f_equal length). rewrite length_drop in E. cbn in E. lia. Qed.

Section loops.
Context (decode : bytes -> res (value * nat)) (data : bytes).
Hypothesis Ha : addressable data.
Hypothesis Hd : forall p, (1 <= p)%nat -> stops decode (drop p data).

Lemma listLoop_good fuel pos acc :
  (1 <= pos)%nat -> (length data <= pos + fuel)%nat ->
  listLoop decode fuel data pos acc <> NoFuel /\
  forall v n, listLoop decode fuel data pos acc = Ok (v, n) -> (1 <= n <= length data)%nat.
Proof.
  revert pos acc. induction fuel as [|fuel IH]; intros pos acc Hp Hf;
    cbn [listLoop]; destruct (data !! pos) as [c|] eqn:E; try done;
    apply lookup_lt_Some in E; (destruct (Byte.eqb c "e");
      [split; [done|]; intros v n [= <- <-]; lia|]); [lia|].
  destruct (Hd pos Hp) as [Hn Hc].
  destruct (decode (drop pos data)) as [[v n]| | |] eqn:Ed; cbn; try done.
  specialize (Hc v n eq_refl). rewrite length_drop in Hc. apply IH; lia.
Qed.

Lemma dictLoop_good fuel pos acc :
  (1 <= pos)%nat -> (length data <= pos + fuel)%nat ->
  dictLoop decode fuel data pos acc <> NoFuel /\
  forall v n, dictLoop decode fuel data pos acc = Ok (v, n) -> (1 <= n <= length data)%nat.
Proof.
  revert pos acc. induction fuel as [|fuel IH]; intros pos acc Hp Hf;
    cbn [dictLoop]; destruct (data !! pos) as [c|] eqn:E; try done;
    pose proof (lookup_drop_ne _ _ _ E) as Hne; apply lookup_lt_Some in E;
    (destruct (Byte.eqb c "e"); [split; [done|]; intros v n [= <- <-]; lia|]); [lia|].
  destruct (decodeKey_good _ (addressable_drop pos _ Ha) Hne) as [Hk Hkc].
  destruct (decodeKey (drop pos data)) as [[k m]| | |] eqn:Ek; cbn; try done.
  specialize (Hkc k m eq_refl). rewrite length_drop in Hkc.
  destruct (Hd (pos + m)%nat ltac:(lia)) as [Hn Hc].
  destruct (decode (drop (pos + m) data)) as [[v n]| | |] eqn:Ed; cbn; try done.
  specialize (Hc v n eq_refl). rewrite length_drop in Hc. apply IH; lia.
Qed.
End loops.

Lemma decodeFuel_stops fuel data :
  addressable data -> (length data < fuel)%nat -> stops (decodeFuel fuel) data.
Proof.
  revert data. induction fuel as [|fuel IH]; intros data Ha Hf; [lia|].
  destruct data as [|c data]; [done|].
  assert (forall p, (1 <= p)%nat -> stops (decodeFuel fuel) (drop p (c :: data))) as Hd.
  { intros p Hp. apply IH; [by apply addressable_drop|]. rewrite length_drop. cbn in *. lia. }
  unfold stops. cbn [decodeFuel].
  destruct (Byte.eqb c "i").
  { pose proof (bencDecodeInt_returns (c :: data)).
    destruct (bencDecodeInt (c :: data)) as [[n used]| | |] eqn:E; cbn -[length]; try done.
    split; [done|]. intros v m [= <- <-]. by eapply bencDecodeInt_consumed. }
  destruct (Byte.eqb c "l"); [apply listLoop_good; auto; lia|].
  destruct (Byte.eqb c "d"); [apply dictLoop_good; auto; lia|].
  destruct (isDigit c); [|done].
  pose proof (bencDecodeBytes_fuel (c :: data)).
  destruct (bencDecodeBytes (c :: data)) as [[b used]| | |] eqn:E; cbn -[length]; try done.
  split; [done|]. intros v m [= <- <-]. by eapply bencDecodeBytes_consumed.
Qed.
Lemma BencodeDecode_stops data : addressable data -> stops BencodeDecode data.
Proof. intros. apply decodeFuel_stops; [done|lia]. Qed.

(** ** Round trip

    The normal form of a value is what decoding its encoding gives: integers
    become [int64], strings become byte slices, integer keys their decimal form,
    and the entries of a map are listed in key order. *)

Definition pick {K} `{EqDecision K} (name : K -> bytes) (m : list (K * value)) (keys : list K)
  : list (bytes * value) :=
  omap (fun k => pair (name k) <$> mapLookup k m) keys.

Fixpoint normal (v : value) : value :=
  match v with
  | VInt n | VInt64 n | VUint64 n => VInt64 n
  | VBytes b | VString b => VBytes b
  | VList l => VList (map normal l)
  | VMap m => VMap (pick id (map (fun e => (e.1, normal e.2)) m) (sortStrings (map fst m)))
  | VIntMap m =>
      VMap (pick FormatInt (map (fun e => (e.1, normal e.2)) m) (sortInts (map fst m)))
  | VOther t => VOther t
  end.

Definition in_i64 (n : Z) : bool := (min_i64 <=? n) && (n <=? max_i64).
Definition shortBytes (b : bytes) : bool := blen b <=? 2 ^ 48.
(** Values the program's own messages are made of: integers within [int64],
    byte strings that fit in memory, distinct map keys, supported types. *)
Fixpoint encodable (v : value) : bool :=
  match v with
  | VInt n | VInt64 n | VUint64 n => in_i64 n
  | VBytes b | VString b => shortBytes b
  | VList l => forallb encodable l
  | VMap m => bool_decide (NoDup (map fst m)) &&
              forallb (fun e => shortBytes e.1 && encodable e.2) m
  | VIntMap m => bool_decide (NoDup (map fst m)) &&
                 forallb (fun e => in_i64 e.1 && encodable e.2) m
  | VOther _ => false
  end.

Lemma in_i64_spec n : in_i64 n = true <-> min_i64 <= n <= max_i64.
Proof. unfold in_i64. rewrite andb_true_iff, !Z.leb_le. done. Qed.

Lemma FormatInt_notin n c : isDigit c = false -> c <> "-"%byte -> c ∉ FormatInt n.
Proof.
  intros Hc Hm. assert (forall z, c ∉ FormatUint z) as Hu.
  { intros z Hin. pose proof (FormatUint_isDigit z) as Hf. rewrite Forall_forall in Hf.
    apply Hf in Hin. congruence. }
  unfold FormatInt. case_match; [|apply Hu].
  change (lit "-" ++ FormatUint (- n)) with ("-"%byte :: FormatUint (- n)).
  by apply not_elem_of_cons.
Qed.

Lemma decode_encInt n rest :
  in_i64 n = true -> bencDecodeInt (encInt n ++ rest) = Ok (n, length (encInt n)).
Proof.
  intros Hn%in_i64_spec. unfold bencDecodeInt, encInt.
  assert (lit "i" ++ FormatInt n ++ lit "e" = (lit "i" ++ FormatInt n) ++ lit "e") as ->
    by by rewrite app_assoc.
  rewrite <- app_assoc. change (lit "e" ++ rest) with ("e"%byte :: rest).
  rewrite IndexByte_app.
  2: { change (lit "i" ++ FormatInt n) with ("i"%byte :: FormatInt n).
       apply not_elem_of_cons. split; [done|]. by apply FormatInt_notin. }
  assert (slice ((lit "i" ++ FormatInt n) ++ "e"%byte :: rest) 1 (length (lit "i" ++ FormatInt n))
    = FormatInt n) as ->.
  { unfold slice. rewrite <- app_assoc. rewrite (drop_app_at (lit "i")) by done.
    apply take_app_at. rewrite length_app. cbn. lia. }
  rewrite ParseInt_Format by done. cbn [map_err mbind res_bind]. f_equal. f_equal.
  rewrite !length_app. cbn. lia.
Qed.

Lemma length_digits fuel z acc : (length (digits fuel z acc) <= fuel + length acc)%nat.
Proof.
  revert z acc. induction fuel as [|fuel IH]; intros z acc; cbn; [lia|].
  case_match; cbn; [lia|]. specialize (IH (z / 10) (byt (48 + z mod 10) :: acc)). cbn in IH. lia.
Qed.

Lemma decode_encBytes b rest :
  shortBytes b = true ->
  bencDecodeBytes (encBytes b ++ rest) = Ok (b, length (encBytes b)).
Proof.
  unfold shortBytes. intros Hb%Z.leb_le. unfold bencDecodeBytes, encBytes.
  pose proof (blen_nonneg b). rewrite <- !app_assoc.
  change (lit ":" ++ b ++ rest) with (":"%byte :: b ++ rest).
  rewrite IndexByte_app by (by apply FormatInt_notin).
  rewrite take_app_length, ParseInt_Format by (unfold min_i64, max_i64; lia).
  cbn [map_err mbind res_bind].
  assert (length (FormatInt (blen b)) <= 50)%nat as Hlen.
  { unfold FormatInt. destruct (Z.ltb_spec (blen b) 0); [lia|].
    unfold FormatUint. pose proof (length_digits (S (Z.to_nat (Z.log2 (blen b)))) (blen b) []).
    assert (Z.log2 (blen b) <= 48); [|cbn in *; lia].
    destruct (decide (blen b = 0)) as [->|]; [done|]. apply Z.log2_le_mono in Hb. done. }
  rewrite i64_id by (unfold min_i64, max_i64; lia).
  assert (blen (FormatInt (blen b) ++ ":"%byte :: b ++ rest)
    = Z.of_nat (S (length (FormatInt (blen b)))) + blen b + blen rest) as ->.
  { rewrite blen_app, blen_cons, blen_app. unfold blen at 1. lia. }
  pose proof (blen_nonneg rest).
  destruct (Z.ltb_spec (Z.of_nat (S (length (FormatInt (blen b)))) + blen b + blen rest)
    (Z.of_nat (S (length (FormatInt (blen b)))) + blen b)); [lia|].
  unfold makeBytes. destruct (Z.ltb_spec (blen b) 0); [lia|].
  destruct (Z.ltb_spec (2 ^ 48) (blen b)); [lia|]. cbn [mbind res_bind orb].
  assert (Z.to_nat (Z.of_nat (S (length (FormatInt (blen b)))) + blen b)
    = (S (length (FormatInt (blen b))) + length b)%nat) as -> by (unfold blen; lia).
  f_equal. f_equal; [|rewrite !length_app; cbn; lia].
  unfold slice. change (":"%byte :: b ++ rest) with (lit ":" ++ b ++ rest).
  rewrite app_assoc, (drop_app_at (FormatInt (blen b) ++ lit ":")).
  - apply take_app_at. lia.
  - rewrite length_app. cbn. lia.
Qed.

(** The first byte of an encoding is never the terminator. *)
Lemma encBytes_head b : exists c s, encBytes b = c :: s /\ isDigit c = true.
Proof.
  unfold encBytes, FormatInt. pose proof (blen_nonneg b).
  destruct (Z.ltb_spec (blen b) 0); [lia|].
  destruct (FormatUint_cons (blen b)) as (c & s & -> & Hc). eauto.
Qed.
Lemma isDigit_tags c : isDigit c = true ->
  Byte.eqb c "e" = false /\ Byte.eqb c "i" = false /\ Byte.eqb c "l" = false /\ Byte.eqb c "d" = false.
Proof. by destruct c. Qed.
Lemma bencEncode_head v e :
  bencEncode v = Ok e -> exists c s, e = c :: s /\ Byte.eqb c "e" = false.
Proof.
  intros H. destruct v; cbn in H; res_inv; try discriminate; try (by eexists _, _);
    (edestruct encBytes_head as (c & tail & -> & Hc); apply isDigit_tags in Hc as (? & _); eauto).
Qed.

Lemma drop_lookup {A} (data a r : list A) pos :
  drop pos data = a ++ r -> forall n, n = length a -> drop (pos + n) data = r.
Proof. intros H n ->. rewrite <- drop_drop, H. by rewrite drop_app_length. Qed.
Lemma drop_head (data r : bytes) pos c : drop pos data = c :: r -> data !! pos = Some c.
Proof. intros H. rewrite <- (Nat.add_0_r pos), <- lookup_drop, H. done. Qed.

Section loops_roundtrip.
Context (decode : bytes -> res (value * nat)) (data rest : bytes).

(** [e] is an encoding that [decode] reads back as [v]. *)
Definition reads (e : bytes) (v : value) : Prop :=
  (exists c s, e = c :: s /\ Byte.eqb c "e" = false) /\
  forall r, decode (e ++ r) = Ok (v, length e).

Lemma listLoop_reads es vs pos acc fuel :
  Forall2 reads es vs -> drop pos data = concat es ++ lit "e" ++ rest ->
  (length es <= fuel)%nat ->
  listLoop decode fuel data pos acc =
    Ok (VList (acc ++ vs), (pos + length (concat es) + 1)%nat).
Proof.
  intros Hes. revert pos acc fuel. induction Hes as [|e v es vs [(c & s & -> & Hc) Hr] Hes IH];
    intros pos acc fuel Hdrop Hf.
  - apply drop_head in Hdrop. destruct fuel; cbn [listLoop]; rewrite Hdrop, eqb_byte_refl, app_nil_r;
      cbn; do 2 f_equal; lia.
  - cbn [length] in Hf. destruct fuel as [|fuel]; [lia|].
    cbn [concat] in Hdrop. rewrite <- app_assoc in Hdrop.
    cbn [listLoop]. rewrite (drop_head _ _ _ _ Hdrop), Hc, Hdrop, Hr. cbn [mbind res_bind].
    rewrite IH; [|by eapply drop_lookup|lia].
    cbn [concat]. rewrite length_app, <- app_assoc. cbn. do 2 f_equal; lia.
Qed.

Definition readsKey (e k : bytes) : Prop :=
  (exists c s, e = c :: s /\ Byte.eqb c "e" = false) /\
  forall r, decodeKey (e ++ r) = Ok (k, length e).

Definition entryBytes (e : bytes * bytes) : bytes := e.1 ++ e.2.
Lemma dictLoop_reads es m pos acc fuel :
  Forall2 (fun e kv => readsKey e.1 kv.1 /\ reads e.2 kv.2) es m ->
  drop pos data = concat (map entryBytes es) ++ lit "e" ++ rest ->
  (length es <= fuel)%nat ->
  dictLoop decode fuel data pos acc =
    Ok (VMap (fold_left (fun d kv => mapInsert kv.1 kv.2 d) m acc),
        (pos + length (concat (map entryBytes es)) + 1)%nat).
Proof.
  intros Hes. revert pos acc fuel.
  induction Hes as [|[ek ev] [k v] es m [[(c & s & Hek & Hc) Hkr] [_ Hr]] Hes IH];
    intros pos acc fuel Hdrop Hf; cbn [fst snd] in *.
  - apply drop_head in Hdrop. destruct fuel; cbn [dictLoop]; rewrite Hdrop, eqb_byte_refl;
      cbn; do 2 f_equal; lia.
  - cbn [length] in Hf. destruct fuel as [|fuel]; [lia|].
    cbn [map concat] in Hdrop. unfold entryBytes at 1 in Hdrop. cbn [fst snd] in Hdrop.
    rewrite <- !app_assoc in Hdrop.
    cbn [dictLoop]. pose proof Hdrop as Hh. rewrite Hek in Hh. rewrite (drop_head _ _ _ _ Hh), Hc.
    rewrite Hdrop, Hkr. cbn [mbind res_bind].
    rewrite (drop_lookup _ _ _ _ Hdrop _ eq_refl), Hr. cbn [mbind res_bind].
    rewrite IH; [| |lia].
    + cbn [map concat fold_left]. unfold entryBytes at 2. cbn [fst snd].
      rewrite !length_app. cbn. do 2 f_equal; lia.
    + eapply drop_lookup; [|done]. eapply drop_lookup; [|done]. exact Hdrop.
Qed.
End loops_roundtrip.

(** Inserting distinct new keys in order builds the list itself. *)
Lemma mapInsert_new {K A} `{EqDecision K} (k : K) (v : A) m :
  k ∉ map fst m -> mapInsert k v m = m ++ [(k, v)].
Proof.
  induction m as [|[k' v'] m IH]; cbn; intros Hk; [done|].
  apply not_elem_of_cons in Hk as [? ?]. rewrite decide_False by done. by rewrite IH.
Qed.
Lemma mapInsert_all {K A} `{EqDecision K} (m acc : list (K * A)) :
  NoDup (map fst (acc ++ m)) ->
  fold_left (fun d kv => mapInsert kv.1 kv.2 d) m acc = acc ++ m.
Proof.
  revert acc. induction m as [|[k v] m IH]; intros acc Hn; cbn; [by rewrite app_nil_r|].
  rewrite map_app in Hn. cbn in Hn. pose proof Hn as Hn'.
  apply NoDup_app in Hn' as (_ & Hd & _).
  rewrite mapInsert_new by (intros Hin; apply (Hd k Hin); by left).
  rewrite IH; [by rewrite <- app_assoc|]. rewrite <- app_assoc, map_app. done.
Qed.

Lemma mapLookup_map {K A B} `{EqDecision K} (f : A -> B) k (m : list (K * A)) :
  mapLookup k (map (fun e => (e.1, f e.2)) m) = f <$> mapLookup k m.
Proof. induction m as [|[k' v] m IH]; cbn; [done|]. by case_decide. Qed.
Lemma mapLookup_Some {K A} `{EqDecision K} (k : K) (v : A) m : mapLookup k m = Some v -> (k, v) ∈ m.
Proof.
  induction m as [|[k' v'] m IH]; cbn; [done|]. case_decide as E; intros H.
  - simplify_eq. by left.
  - right. auto.
Qed.
Lemma mapLookup_is_Some {K A} `{EqDecision K} (k : K) (m : list (K * A)) :
  k ∈ map fst m -> is_Some (mapLookup k m).
Proof.
  induction m as [|[k' v'] m IH]; cbn; [by intros ?%elem_of_nil|].
  intros [->|H]%elem_of_cons; [rewrite decide_True by done; eauto|]. case_decide; eauto.
Qed.

(** [e] is the encoding of [v] and is read back as its normal form. *)
Definition good (e : bytes) (v : value) : Prop :=
  bencEncode v = Ok e /\
  forall fuel r, (length e < fuel)%nat -> decodeFuel fuel (e ++ r) = Ok (normal v, length e).

Lemma good_reads e v fuel : good e v -> (length e < fuel)%nat -> reads (decodeFuel fuel) e (normal v).
Proof. intros [He Hd] Hf. split; [by eapply bencEncode_head | auto]. Qed.

Lemma encItems_good l :
  Forall (fun v => encodable v = true -> exists e, good e v) l -> forallb encodable l = true ->
  exists es, encItems (map bencEncode l) = Ok (concat es) /\ Forall2 good es l.
Proof.
  induction 1 as [|v l Hv Hl IH]; cbn; [by exists []; split; [|constructor]|].
  intros [Hev Hel]%andb_true_iff. destruct (Hv Hev) as [e He]. destruct (IH Hel) as (es & Hes & Hall).
  exists (e :: es). rewrite (proj1 He), Hes. split; [done|by constructor].
Qed.

Lemma concat_length_le (es : list bytes) e : e ∈ es -> (length e <= length (concat es))%nat.
Proof. induction 1; cbn; rewrite length_app; lia. Qed.
Lemma entries_length_le (es : list (bytes * bytes)) e :
  e ∈ es -> (length e.2 <= length (concat (map entryBytes es)))%nat.
Proof. induction 1; cbn; unfold entryBytes at 1; rewrite !length_app; lia. Qed.
Lemma entries_count (es : list (bytes * bytes)) :
  Forall (fun e => e.1 <> []) es -> (length es <= length (concat (map entryBytes es)))%nat.
Proof.
  induction 1 as [|[k v] es Hk _ IH]; cbn [map concat length]; [lia|].
  unfold entryBytes at 1. cbn in *. rewrite !length_app. destruct k; [done|]. cbn; lia.
Qed.

Section map_encoding.
Context {K : Type} `{EqDecision K} (encKey name : K -> bytes) (keyOk : K -> bool).
Hypothesis Hkey : forall k, keyOk k = true -> readsKey (encKey k) (name k).
Hypothesis Hname : forall k k', keyOk k = true -> keyOk k' = true -> name k = name k' -> k = k'.

Lemma encEntries_good (m : list (K * value)) keys :
  Forall (fun e => encodable e.2 = true -> exists b, good b e.2) m ->
  forallb (fun e => keyOk e.1 && encodable e.2) m = true ->
  (forall k, k ∈ keys -> k ∈ map fst m) ->
  exists es, encEntries encKey (map (fun e => (e.1, bencEncode e.2)) m) keys
               = Ok (concat (map entryBytes es)) /\
    Forall2 (fun e kv => readsKey e.1 kv.1 /\ exists v, kv.2 = normal v /\ good e.2 v) es
      (pick name (map (fun e => (e.1, normal e.2)) m) keys) /\
    map fst (pick name (map (fun e => (e.1, normal e.2)) m) keys) = map name keys.
Proof.
  intros Hm Hok. rewrite Forall_forall in Hm. rewrite forallb_forall in Hok.
  unfold pick. induction keys as [|k keys IH]; intros Hin; [by exists []; repeat constructor|].
  destruct IH as (es & He & Hes & Hn); [set_solver|].
  destruct (mapLookup_is_Some k m) as [v Hv]; [apply Hin; by left|].
  pose proof (mapLookup_Some _ _ _ Hv) as Hkv.
  pose proof (Hok _ (proj1 (list_elem_of_In _ _) Hkv)) as [Hk Hev]%andb_true_iff.
  destruct (Hm _ Hkv Hev) as [e Hg]. cbn in *.
  rewrite !mapLookup_map, Hv. cbn [fmap option_fmap option_map].
  exists ((encKey k, e) :: es). rewrite (proj1 Hg), He. split_and!.
  - cbn. unfold entryBytes at 2. cbn. by rewrite <- app_assoc.
  - constructor; [|done]. cbn. eauto.
  - cbn. by f_equal.
Qed.

Lemma key_ok (m : list (K * value)) k :
  forallb (fun e => keyOk e.1 && encodable e.2) m = true -> k ∈ map fst m -> keyOk k = true.
Proof.
  rewrite forallb_forall. intros Hok Hk. apply list_elem_of_In, in_map_iff in Hk as (e & <- & He).
  apply Hok, andb_true_iff in He as [? _]. done.
Qed.

Lemma map_good (m : list (K * value)) keys :
  Forall (fun e => encodable e.2 = true -> exists b, good b e.2) m ->
  NoDup (map fst m) -> forallb (fun e => keyOk e.1 && encodable e.2) m = true ->
  keys ≡ₚ map fst m ->
  exists e, encEntries encKey (map (fun e => (e.1, bencEncode e.2)) m) keys = Ok e /\
    forall rest fuel, (length (lit "d" ++ e ++ lit "e") < fuel)%nat ->
      decodeFuel fuel ((lit "d" ++ e ++ lit "e") ++ rest) =
        Ok (VMap (pick name (map (fun e => (e.1, normal e.2)) m) keys),
            length (lit "d" ++ e ++ lit "e")).
Proof.
  intros Hm Hnd Hok Hp.
  destruct (encEntries_good m keys Hm Hok) as (es & He & Hes & Hn).
  { intros k. by rewrite Hp. }
  eexists. split; [exact He|]. intros rest fuel Hf.
  destruct fuel as [|fuel]; [lia|].
  rewrite !length_app in Hf. change (length (lit "d")) with 1%nat in Hf.
  change (length (lit "e")) with 1%nat in Hf.
  set (kvs := pick name _ keys) in *.
  change ((lit "d" ++ concat (map entryBytes es) ++ lit "e") ++ rest)
    with ("d"%byte :: (concat (map entryBytes es) ++ lit "e") ++ rest).
  cbn [decodeFuel]. cbn [Byte.eqb].
  rewrite (dictLoop_reads (decodeFuel fuel) _ rest es kvs 1).
  - rewrite mapInsert_all.
    { cbn [app]. do 2 f_equal. rewrite !length_app.
      change (length (lit "d")) with 1%nat. change (length (lit "e")) with 1%nat. lia. }
    cbn [app]. rewrite Hn. apply NoDup_fmap_2_strong; [|by rewrite Hp].
    intros k k' Hk Hk'. apply Hname; apply (key_ok m); try done; by rewrite <- Hp.
  - eapply Forall2_impl_in; [exact Hes|]. intros e kv Hin [Hk (v & -> & Hg)].
    split; [done|]. apply good_reads; [done|]. apply entries_length_le in Hin. lia.
  - cbn [drop]. by rewrite <- app_assoc.
  - rewrite entries_count; [cbn; rewrite !length_app; lia|].
    apply Forall_lookup_2. intros i e Hi. eapply Forall2_lookup_l in Hes as (kv & _ & [[? _] _]); [|done].
    destruct H as (c & s & -> & _). done.
Qed.
End map_encoding.

Lemma readsKey_bytes k : shortBytes k = true -> readsKey (encBytes k) (id k).
Proof.
  intros Hk. destruct (encBytes_head k) as (c & s & E & Hc). apply isDigit_tags in Hc as (He & Hi & _).
  split; [eauto|]. intros r. unfold decodeKey. rewrite decode_encBytes by done.
  rewrite E. cbn [app]. by rewrite Hi.
Qed.
Lemma readsKey_int k : in_i64 k = true -> readsKey (encInt k) (FormatInt k).
Proof.
  intros Hk. split; [by eexists _, _|]. intros r. unfold decodeKey. rewrite decode_encInt by done. done.
Qed.

Lemma good_int v n : bencEncode v = Ok (encInt n) -> normal v = VInt64 n -> in_i64 n = true ->
  good (encInt n) v.
Proof.
  intros He Hn Hi. split; [done|]. intros [|fuel] r Hf; [lia|].
  rewrite Hn. change (encInt n ++ r) with ("i"%byte :: (FormatInt n ++ lit "e") ++ r).
  cbn [decodeFuel]. cbn [Byte.eqb].
  change ("i"%byte :: (FormatInt n ++ lit "e") ++ r) with (encInt n ++ r).
  by rewrite decode_encInt.
Qed.
Lemma good_bytes v b : bencEncode v = Ok (encBytes b) -> normal v = VBytes b -> shortBytes b = true ->
  good (encBytes b) v.
Proof.
  intros He Hn Hi. split; [done|]. intros [|fuel] r Hf; [lia|].
  rewrite Hn. destruct (encBytes_head b) as (c & s & E & Hc).
  pose proof (decode_encBytes b r Hi) as Hd. rewrite E in *. cbn [app decodeFuel] in *.
  pose proof (isDigit_tags c Hc) as (_ & -> & -> & ->). by rewrite Hc, Hd.
Qed.

Lemma encode_good v : encodable v = true -> exists e, good e v.
Proof.
  induction v as [n|n|n|b|s|l IH|m IH|m IH|t] using value_nested_ind; intros Hv; cbn [encodable] in Hv.
  1-3: eexists; by apply (good_int _ n).
  1-2: eexists; by apply good_bytes.
  - destruct (encItems_good l IH Hv) as (es & He & Hes).
    exists (lit "l" ++ concat es ++ lit "e"). split; [cbn [bencEncode]; by rewrite He|].
    intros [|fuel] r Hf; [lia|]. rewrite !length_app in Hf.
    change (length (lit "l")) with 1%nat in Hf. change (length (lit "e")) with 1%nat in Hf.
    change ((lit "l" ++ concat es ++ lit "e") ++ r) with ("l"%byte :: (concat es ++ lit "e") ++ r).
    cbn [decodeFuel normal]. cbn [Byte.eqb].
    rewrite (listLoop_reads (decodeFuel fuel) _ r es (map normal l) 1).
    + do 2 f_equal. rewrite !length_app. change (length (lit "l")) with 1%nat.
      change (length (lit "e")) with 1%nat. lia.
    + apply Forall2_fmap_r. eapply Forall2_impl_in; [exact Hes|]. intros e v Hin Hg.
      apply good_reads; [done|]. apply concat_length_le in Hin. lia.
    + cbn [drop]. by rewrite <- app_assoc.
    + cbn [length]. rewrite !length_app.
      assert (length es <= length (concat es))%nat; [|lia].
      clear -Hes. induction Hes as [|e v es l Hg Hes IH]; cbn; [lia|]. rewrite length_app.
      destruct Hg as [(c & s & -> & _)%bencEncode_head _]. cbn; lia.
  - apply andb_true_iff in Hv as [Hnd%bool_decide_eq_true Hok].
    destruct (map_good encBytes id shortBytes readsKey_bytes ltac:(done) m (sortStrings (map fst m)))
      as (e & He & Hd); try done.
    { apply merge_sort_Permutation. }
    exists (lit "d" ++ e ++ lit "e"). split; [cbn [bencEncode]; by rewrite He|].
    intros. by apply Hd.
  - apply andb_true_iff in Hv as [Hnd%bool_decide_eq_true Hok].
    destruct (map_good encInt FormatInt in_i64 readsKey_int) with (m := m) (keys := sortInts (map fst m))
      as (e & He & Hd); try done.
    { intros. apply FormatInt_inj; [by apply in_i64_spec..|done]. }
    { apply merge_sort_Permutation. }
    exists (lit "d" ++ e ++ lit "e"). split; [cbn [bencEncode]; by rewrite He|].
    intros. by apply Hd.
  - done.
Qed.

Lemma encode_decode v :
  encodable v = true ->
  exists e, BencodeEncode v = Ok e /\
    forall rest, BencodeDecode (e ++ rest) = Ok (normal v, length e).
Proof.
  intros (e & He & Hd)%encode_good. exists e. split; [done|]. intros rest.
  apply Hd. rewrite length_app. lia.
Qed.

(** ** Canonical encoding: the iteration order of a map does not matter. *)

Lemma bytes_ltb_trichotomy a b : bytes_ltb a b = false -> bytes_ltb b a = false -> a = b.
Proof.
  revert b. induction a as [|x a IH]; intros [|y b]; cbn; try done.
  destruct (Z.ltb_spec (Zb x) (Zb y)); [done|]. destruct (Z.ltb_spec (Zb y) (Zb x)); [done|].
  intros. f_equal; [apply (inj Zb); lia|]. by apply IH.
Qed.
Lemma bytes_ltb_irrefl a : bytes_ltb a a = false.
Proof. induction a as [|x a IH]; cbn; [done|]. by rewrite Z.ltb_irrefl. Qed.
Lemma bytes_ltb_trans a b c : bytes_ltb a b = true -> bytes_ltb b c = true -> bytes_ltb a c = true.
Proof.
  revert b c. induction a as [|x a IH]; intros [|y b] [|z c]; cbn; try done.
  destruct (Z.ltb_spec (Zb x) (Zb y)), (Z.ltb_spec (Zb y) (Zb x)), (Z.ltb_spec (Zb y) (Zb z)),
    (Z.ltb_spec (Zb z) (Zb y)), (Z.ltb_spec (Zb x) (Zb z)), (Z.ltb_spec (Zb z) (Zb x));
    try done; try lia. apply IH.
Qed.
#[export] Instance bytesLe_total : Total bytesLe.
Proof.
  intros a b. unfold bytesLe, bytes_leb. destruct (bytes_ltb b a) eqn:E; [|by left].
  right. destruct (bytes_ltb a b) eqn:E'; [|done].
  pose proof (bytes_ltb_trans _ _ _ E E') as H. by rewrite bytes_ltb_irrefl in H.
Qed.
#[export] Instance bytesLe_antisymm : AntiSymm (=) bytesLe.
Proof.
  intros a b. unfold bytesLe, bytes_leb. intros H1%Is_true_true H2%Is_true_true.
  apply negb_true_iff in H1, H2. by apply bytes_ltb_trichotomy.
Qed.
#[export] Instance bytesLe_trans : Transitive bytesLe.
Proof.
  intros a b c. unfold bytesLe, bytes_leb. rewrite !Is_true_true, !negb_true_iff. intros H1 H2.
  destruct (bytes_ltb c a) eqn:E; [|done].
  destruct (bytes_ltb b a) eqn:E1; [done|].
  destruct (bytes_ltb a b) eqn:E2.
  - by rewrite (bytes_ltb_trans _ _ _ E E2) in H2.
  - apply bytes_ltb_trichotomy in E1; [|done]. subst. congruence.
Qed.

Lemma sortStrings_perm a b : a ≡ₚ b -> sortStrings a = sortStrings b.
Proof.
  intros H. apply (StronglySorted_unique bytesLe).
  - apply StronglySorted_merge_sort; apply _.
  - apply StronglySorted_merge_sort; apply _.
  - unfold sortStrings. by rewrite !merge_sort_Permutation.
Qed.

Lemma mapLookup_perm {K A} `{EqDecision K} (k : K) (m m' : list (K * A)) :
  m ≡ₚ m' -> NoDup (map fst m) -> mapLookup k m = mapLookup k m'.
Proof.
  induction 1 as [|[k1 v1] m m' Hp IH|[k1 v1] [k2 v2] m|m1 m2 m3 H1 IH1 H2 IH2]; cbn; intros Hn.
  - done.
  - apply NoDup_cons in Hn as [? ?]. case_decide; auto.
  - apply NoDup_cons in Hn as [Hn _]. apply not_elem_of_cons in Hn as [Hn _].
    case_decide; subst; [|done]. by rewrite decide_False by congruence.
  - rewrite IH1 by done. apply IH2. by rewrite <- H1.
Qed.

Lemma encode_map_perm m m' :
  m ≡ₚ m' -> NoDup (map fst m) -> bencEncode (VMap m) = bencEncode (VMap m').
Proof.
  intros Hp Hn. cbn [bencEncode].
  rewrite (sortStrings_perm (map fst m) (map fst m')) by (by rewrite Hp). f_equal.
  set (keys := sortStrings (map fst m')). clearbody keys.
  induction keys as [|k keys IH]; cbn; [done|]. rewrite !mapLookup_map.
  rewrite (mapLookup_perm k m m') by done. by rewrite IH.
Qed.

(** Bencode round trip.  Every value whose integers fit [int64] and whose
    strings are addressable is encoded, and decoding the encoding, with any bytes
    after it, consumes exactly the encoding and gives the value in the decoder's
    form; the encoding of a dictionary does not depend on the iteration order of
    the Go map it comes from. *)
Theorem bencode_roundtrip :
  (forall v rest, encodable v = true ->
     exists e, BencodeEncode v = Ok e /\ BencodeDecode (e ++ rest) = Ok (normal v, length e)) /\
  (forall m m', m ≡ₚ m' -> NoDup (map fst m) -> BencodeEncode (VMap m) = BencodeEncode (VMap m')).
Proof.
  split; [|exact encode_map_perm]. intros v rest Hv. destruct (encode_decode v Hv) as (e & He & Hd). by exists e.
Qed.
Definition exampleValue : value :=
  VMap [(lit "b", VInt 5); (lit "a", VList [VString (lit "x"); VMap []])].
Lemma bencode_roundtrip_witness :
  exists e, BencodeEncode exampleValue = Ok e /\
    BencodeDecode (e ++ lit "tail") = Ok (normal exampleValue, length e).
Proof. apply (proj1 bencode_roundtrip). reflexivity. Defined.

(** C40: decoding ends.  On any datagram the decoder returns a value, an error or
    the panic of Go's allocator, never runs on, and a value consumes at least one
    byte and no more than there are. *)
Theorem bencode_decode_ends data :
  addressable data ->
  match BencodeDecode data with
  | Ok (_, consumed) => (0 < consumed <= length data)%nat
  | Err _ | Panic => True
  | NoFuel => False
  end.
Proof.
  intros Ha. pose proof (BencodeDecode_stops data Ha) as Hs. unfold stops in Hs.
  destruct Hs as [Hn Hs]. destruct (BencodeDecode data) as [[v n]| | |]; try done.
  specialize (Hs v n eq_refl). lia.
Qed.
Lemma bencode_decode_ends_witness :
  BencodeDecode (lit "li1ee") = Ok (VList [VInt64 1], 5%nat) /\ (0 < 5 <= length (lit "li1ee"))%nat.
Proof.
  split; [reflexivity|]. exact (bencode_decode_ends (lit "li1ee") ltac:(vm_compute; discriminate)).
Defined.
