(* ===== verification/Json.v ===== *)
(** * JSON: values, [encoding/json]'s parser and string encoder

    [json] is what [encoding/json] decodes a document into when the target is
    [any] and the decoder keeps numbers as [json.Number], the literal as it was
    written.  An object is the list of its members in the order of the document,
    duplicates included, which is what decoding into a struct goes through.
    [parseJson] is [json.Unmarshal]'s reading of a document, [quoted] is
    [json.Marshal] of a string. *)

From S2P Require Import Prelude Hex Utf8 Decimal Bencode.

Inductive json :=
| JNull
| JBool (b : bool)
| JNumber (literal : bytes)
| JString (s : bytes)
| JArray (l : list json)
| JObject (m : list (bytes * json)).

(** [value, exists := object[key]]: of members with the same key the last counts. *)
Definition member (key : string) (m : list (bytes * json)) : option json := mapLookup (lit key) (rev m).

(** Text of the source with a double quote written as a single one. *)
Definition dq (s : string) : bytes := map (fun c => if decide (c = x27) then x22 else c) (lit s).

(** ** Numbers *)

(** The digits at the front of a literal, their value after [acc], and the rest. *)
Fixpoint digitsAt (acc : Z) (count : nat) (s : bytes) : Z * nat * bytes :=
  match s with
  | c :: rest =>
      if (48 <=? Zb c) && (Zb c <=? 57) then digitsAt (10 * acc + (Zb c - 48)) (S count) rest
      else (acc, count, s)
  | [] => (acc, count, [])
  end.

(** A minus sign in front, and the text after it. *)
Definition minusSign (s : bytes) : bool * bytes :=
  match s with c :: rest => if Zb c =? 45 then (true, rest) else (false, s) | [] => (false, []) end.
(** The sign of a decimal literal, and the natural number and the power of ten
    whose product is its magnitude; [None] for what is no such literal. *)
Definition numberParts (literal : bytes) : option (bool * Z * Z) :=
  let '(negative, unsigned) := minusSign literal in
  let '(whole, n, rest) := digitsAt 0 0 unsigned in
  let '(mantissa, places, rest, ok) :=
    match rest with
    | c :: more =>
        if Zb c =? 46 then let '(mantissa, k, rest) := digitsAt whole 0 more in (mantissa, k, rest, (0 <? k)%nat)
        else (whole, 0%nat, rest, true)
    | [] => (whole, 0%nat, [], true)
    end in
  let finish (exponent : Z) := Some (negative, mantissa, exponent - Z.of_nat places) in
  if negb (ok && (0 <? n)%nat) then None
  else
    match rest with
    | [] => finish 0
    | c :: rest =>
        if negb ((Zb c =? 101) || (Zb c =? 69)) then None
        else
          let '(below, rest) :=
            match rest with
            | c :: more => if Zb c =? 43 then (false, more) else minusSign rest
            | [] => (false, [])
            end in
          let '(e, k, rest) := digitsAt 0 0 rest in
          match rest with
          | [] => if (0 <? k)%nat then finish (if below then - e else e) else None
          | _ => None
          end
    end.

(** [strconv.ParseFloat(literal, 64)] gives zero without an error: the literal
    is zero, or so small that it rounds to zero (below half of the smallest
    subnormal number, [2 ^ -1074], ties to even). *)
Definition roundsToZero (mantissa exponent : Z) : bool :=
  (mantissa =? 0) ||
  (if exponent <? 0 then mantissa * 2 ^ 1075 <=? 10 ^ (- exponent) else false).
Definition floatIsZero (literal : bytes) : bool :=
  match numberParts literal with
  | Some (_, mantissa, exponent) => roundsToZero mantissa exponent
  | None => false
  end.

Example floatIsZero_examples :
  map (fun s => floatIsZero (lit s)) ["0"; "-0.00"; "0e7"; "1"; "0.1"; "1e-400"; "3e-324"; "2e-324"; "x"; "1."]%string
  = [true; true; true; false; false; true; false; true; false; false].
Proof. vm_compute. reflexivity. Qed.

(** ** The parser *)

Definition ErrJsonSyntax : string := "invalid character in JSON".
Definition maxNestingDepth : nat := 10000.

Definition isJsonSpace (c : byte) : bool :=
  (Zb c =? 0x20) || (Zb c =? 0x09) || (Zb c =? 0x0a) || (Zb c =? 0x0d).
Fixpoint skipSpace (s : bytes) : bytes :=
  match s with c :: rest => if isJsonSpace c then skipSpace rest else s | [] => [] end.

(** [getu4]: the value of the escape [\uXXXX] a text starts with. *)
Definition getu4 (s : bytes) : option Z :=
  match s with
  | x5c :: "u"%byte :: a :: b :: c :: d :: _ =>
      w ← unhexDigit a; x ← unhexDigit b; y ← unhexDigit c; z ← unhexDigit d;
      Some (16 * (16 * (16 * w + x) + y) + z)
  | _ => None
  end.
Definition isSurrogate (r : Z) : bool := (0xd800 <=? r) && (r <? 0xe000).
(** [utf16.DecodeRune] *)
Definition decodeSurrogates (r1 r2 : Z) : option Z :=
  if (0xd800 <=? r1) && (r1 <? 0xdc00) && (0xdc00 <=? r2) && (r2 <? 0xe000)
  then Some (Z.lor (Z.shiftl (r1 - 0xd800) 10) (r2 - 0xdc00) + 0x10000)
  else None.

Definition simpleEscape (c : byte) : option byte :=
  match c with
  | x22 => Some x22
  | x5c => Some x5c
  | "/"%byte => Some "/"%byte
  | "b"%byte => Some x08
  | "f"%byte => Some x0c
  | "n"%byte => Some x0a
  | "r"%byte => Some x0d
  | "t"%byte => Some x09
  | _ => None
  end.

(** The text after an opening quote: the string up to the closing one. *)
Fixpoint stringLoop (fuel : nat) (acc s : bytes) : res (bytes * bytes) :=
  match fuel with
  | O => NoFuel
  | S fuel =>
      match s with
      | [] => Err ErrJsonSyntax
      | c :: rest =>
          if Zb c =? 0x22 then Ok (acc, rest)
          else if Zb c =? 0x5c then
            match getu4 s with
            | Some r =>
                let after := drop 6 s in
                if isSurrogate r then
                  match r2 ← getu4 after; decodeSurrogates r r2 with
                  | Some combined => stringLoop fuel (AppendRune acc combined) (drop 6 after)
                  | None => stringLoop fuel (AppendRune acc RuneError) after
                  end
                else stringLoop fuel (AppendRune acc r) after
            | None =>
                match rest with
                | e :: rest =>
                    match simpleEscape e with
                    | Some b => stringLoop fuel (acc ++ [b]) rest
                    | None => Err ErrJsonSyntax
                    end
                | [] => Err ErrJsonSyntax
                end
            end
          else if Zb c <? 0x20 then Err ErrJsonSyntax
          else if Zb c <? 0x80 then stringLoop fuel (acc ++ [c]) rest
          else let '(r, size) := DecodeRune s in stringLoop fuel (AppendRune acc r) (drop size s)
      end
  end.

(** A number literal and the text after it. *)
Fixpoint spanDigits (s : bytes) : bytes * bytes :=
  match s with
  | c :: rest => if isDigit c then let '(d, rest) := spanDigits rest in (c :: d, rest) else ([], s)
  | [] => ([], [])
  end.
Definition wholePart (s : bytes) : option (bytes * bytes) :=
  let '(digits, rest) := spanDigits s in
  match digits with
  | [] => None
  | c :: more =>
      if (Zb c =? 48) then Some ([c], more ++ rest) else Some (digits, rest)
  end.
Definition fractionPart (s : bytes) : option (bytes * bytes) :=
  match s with
  | c :: rest =>
      if Zb c =? 46 then
        match spanDigits rest with ([], _) => None | (digits, rest) => Some (c :: digits, rest) end
      else Some ([], s)
  | [] => Some ([], [])
  end.
Definition exponentPart (s : bytes) : option (bytes * bytes) :=
  match s with
  | c :: rest =>
      if (Zb c =? 101) || (Zb c =? 69) then
        let '(sign, rest) := match rest with
                             | d :: more => if (Zb d =? 43) || (Zb d =? 45) then ([d], more) else ([], rest)
                             | [] => ([], [])
                             end in
        match spanDigits rest with ([], _) => None | (digits, rest) => Some (c :: sign ++ digits, rest) end
      else Some ([], s)
  | [] => Some ([], [])
  end.
Definition numberAt (s : bytes) : option (bytes * bytes) :=
  let '(sign, s) := match s with
                    | c :: rest => if Zb c =? 45 then ([c], rest) else ([], s)
                    | [] => ([], [])
                    end in
  '(whole, s) ← wholePart s;
  '(fraction, s) ← fractionPart s;
  '(exponent, s) ← exponentPart s;
  Some (sign ++ whole ++ fraction ++ exponent, s).

(** [prefix] is the rest of a literal whose first character selects it. *)
Definition literalAt (literal : string) (v : json) (s : bytes) : res (json * bytes) :=
  if decide (take (length (lit literal)) s = lit literal) then Ok (v, drop (length (lit literal)) s)
  else Err ErrJsonSyntax.

(** The elements of an array after [[], and the members of an object after [{],
    at least one of them; [value] reads one value. *)
Fixpoint elementsLoop (value : bytes -> res (json * bytes)) (fuel : nat) (s : bytes)
  : res (list json * bytes) :=
  match fuel with
  | O => NoFuel
  | S fuel =>
      '(v, s) ← value s;
      match skipSpace s with
      | c :: s =>
          if Zb c =? 0x2c then '(l, s) ← elementsLoop value fuel s; Ok (v :: l, s)
          else if Zb c =? 0x5d then Ok ([v], s)
          else Err ErrJsonSyntax
      | [] => Err ErrJsonSyntax
      end
  end.
Fixpoint membersLoop (value : bytes -> res (json * bytes)) (fuel : nat) (s : bytes)
  : res (list (bytes * json) * bytes) :=
  match fuel with
  | O => NoFuel
  | S fuel =>
      match skipSpace s with
      | q :: s =>
          if Zb q =? 0x22 then
            '(key, s) ← stringLoop (S (length s)) [] s;
            match skipSpace s with
            | c :: s =>
                if Zb c =? 0x3a then
                  '(v, s) ← value s;
                  match skipSpace s with
                  | c :: s =>
                      if Zb c =? 0x2c then '(m, s) ← membersLoop value fuel s; Ok ((key, v) :: m, s)
                      else if Zb c =? 0x7d then Ok ([(key, v)], s)
                      else Err ErrJsonSyntax
                  | [] => Err ErrJsonSyntax
                  end
                else Err ErrJsonSyntax
            | [] => Err ErrJsonSyntax
            end
          else Err ErrJsonSyntax
      | [] => Err ErrJsonSyntax
      end
  end.

(** One value; [depth] is the number of arrays and objects around it. *)
Fixpoint parseValue (fuel depth : nat) (s : bytes) : res (json * bytes) :=
  match fuel with
  | O => NoFuel
  | S fuel =>
      match skipSpace s with
      | [] => Err ErrJsonSyntax
      | c :: rest =>
          let deep := (maxNestingDepth <? S depth)%nat in
          if Zb c =? 0x7b then
            if deep then Err ErrJsonSyntax
            else match skipSpace rest with
                 | d :: after =>
                     if Zb d =? 0x7d then Ok (JObject [], after)
                     else '(m, s) ← membersLoop (parseValue fuel (S depth)) (S (length rest)) rest; Ok (JObject m, s)
                 | [] => Err ErrJsonSyntax
                 end
          else if Zb c =? 0x5b then
            if deep then Err ErrJsonSyntax
            else match skipSpace rest with
                 | d :: after =>
                     if Zb d =? 0x5d then Ok (JArray [], after)
                     else '(l, s) ← elementsLoop (parseValue fuel (S depth)) (S (length rest)) rest; Ok (JArray l, s)
                 | [] => Err ErrJsonSyntax
                 end
          else if Zb c =? 0x22 then '(text, s) ← stringLoop (S (length rest)) [] rest; Ok (JString text, s)
          else if Zb c =? 0x74 then literalAt "true" (JBool true) (c :: rest)
          else if Zb c =? 0x66 then literalAt "false" (JBool false) (c :: rest)
          else if Zb c =? 0x6e then literalAt "null" JNull (c :: rest)
          else match numberAt (c :: rest) with
               | Some (literal, s) => Ok (JNumber literal, s)
               | None => Err ErrJsonSyntax
               end
      end
  end.

(** A whole document. *)
Definition parseJson (data : bytes) : res json :=
  '(v, rest) ← parseValue (S (length data)) 0 data;
  match skipSpace rest with [] => Ok v | _ => Err ErrJsonSyntax end.

Example parse_examples :
  parseJson (dq "{'a' : [1, -2.5e+3, null],'\u0041\n':true , 'a':{}}")
    = Ok (JObject [(lit "a", JArray [JNumber (lit "1"); JNumber (lit "-2.5e+3"); JNull]);
                   ([x41; x0a], JBool true); (lit "a", JObject [])]) /\
  parseJson (lit "[1,]") = Err ErrJsonSyntax /\ parseJson (lit "01") = Err ErrJsonSyntax /\
  parseJson (dq "'\ud83d\ude00\ud800x'") = Ok (JString [xf0; x9f; x98; x80; xef; xbf; xbd; x78]).
Proof. vm_compute. split_and!; reflexivity. Qed.

(** ** [json.Marshal] of a string *)

Definition hexLower (d : Z) : byte := hexDigit d.
(** The escape of an ASCII character that [htmlSafeSet] does not hold. *)
Definition htmlSafe (c : byte) : bool :=
  (0x20 <=? Zb c) && negb (bool_decide (c ∈ [x22; x26; x3c; x3e; x5c])).
Definition asciiEscape (c : byte) : bytes :=
  x5c :: match c with
         | x22 => [x22]
         | x5c => [x5c]
         | x08 => lit "b"
         | x0c => lit "f"
         | x0a => lit "n"
         | x0d => lit "r"
         | x09 => lit "t"
         | _ => lit "u00" ++ [hexLower (Zb c / 16); hexLower (Zb c mod 16)]
         end.
Fixpoint escaped (fuel : nat) (s : bytes) : bytes :=
  match fuel, s with
  | S fuel, c :: rest =>
      if Zb c <? 0x80 then (if htmlSafe c then [c] else asciiEscape c) ++ escaped fuel rest
      else
        let '(r, size) := DecodeRune s in
        (if (r =? RuneError) && (size =? 1)%nat then x5c :: lit "ufffd"
         else if (r =? 0x2028) || (r =? 0x2029) then x5c :: lit "u202" ++ [hexLower (Z.land r 15)]
         else take size s) ++ escaped fuel (drop size s)
  | _, _ => []
  end.
Definition quoted (s : bytes) : bytes := x22 :: escaped (length s) s ++ [x22].

Example quoted_examples :
  quoted (lit "a<b" ++ [x0a]) = dq "'a\u003cb\n'" /\
  parseJson (quoted [x22; x5c; xe2; x80; xa8; xff]) = Ok (JString [x22; x5c; xe2; x80; xa8; xef; xbf; xbd]).
Proof. vm_compute. split; reflexivity. Qed.

(** ** Text

    [json.dumps] of Python puts a space after a comma and a colon, [json.Marshal]
    of Go does not: [gap] is what follows them. *)

Section text.
Variable gap : bytes.
(** Elements with a separator between them. *)
Fixpoint separatedBy (l : list bytes) : bytes :=
  match l with
  | [] => []
  | [x] => x
  | x :: l => x ++ x2c :: gap ++ separatedBy l
  end.
Fixpoint jsonText (v : json) : bytes :=
  match v with
  | JNull => lit "null"
  | JBool true => lit "true"
  | JBool false => lit "false"
  | JNumber literal => literal
  | JString s => quoted s
  | JArray l => lit "[" ++ separatedBy (map jsonText l) ++ lit "]"
  | JObject m => lit "{" ++ separatedBy (map (fun e => quoted e.1 ++ x3a :: gap ++ jsonText e.2) m) ++ lit "}"
  end.
End text.
Abbreviation separated := (separatedBy [x20]).
Abbreviation pythonJson := (jsonText [x20]).
Abbreviation goJson := (jsonText []).

(** ** Reading back what was written *)

Definition plainChar (c : byte) : bool := (Zb c <? 0x80) && htmlSafe c.
Definition plainString (s : bytes) : bool := forallb plainChar s.

(** Values without anything to escape, their numbers natural. *)
Inductive plainJson : json -> Prop :=
| PlainNull : plainJson JNull
| PlainBool b : plainJson (JBool b)
| PlainNumber n : 0 <= n -> plainJson (JNumber (FormatInt n))
| PlainString s : plainString s = true -> plainJson (JString s)
| PlainArray l : Forall plainJson l -> plainJson (JArray l)
| PlainObject m : Forall (fun e => plainString e.1 = true /\ plainJson e.2) m -> plainJson (JObject m).

Fixpoint jsonHeight (v : json) : nat :=
  match v with
  | JArray l => S (list_max (map jsonHeight l))
  | JObject m => S (list_max (map (fun e => jsonHeight e.2) m))
  | _ => 0
  end.

Lemma quoted_plain s : plainString s = true -> quoted s = x22 :: s ++ [x22].
Proof.
  intros Hp. unfold quoted. f_equal. f_equal.
  assert (forall fuel, (length s <= fuel)%nat -> escaped fuel s = s) as He; [|by apply He].
  induction s as [|c s IH]; intros [|fuel] Hl; cbn [length escaped] in *; try (done || lia).
  cbn [plainString forallb] in Hp. apply andb_true_iff in Hp as [Hc Hp].
  apply andb_true_iff in Hc as [Hc ->]. rewrite Hc. cbn. f_equal. apply IH; [done|lia].
Qed.

Lemma plainChar_spec c :
  plainChar c = true -> 0x20 <= Zb c < 0x80 /\ Zb c <> 0x22 /\ Zb c <> 0x5c.
Proof.
  unfold plainChar, htmlSafe. intros Hc.
  apply andb_true_iff in Hc as [Hc1 Hc]. apply andb_true_iff in Hc as [Hc2 Hc].
  apply Z.ltb_lt in Hc1. apply Z.leb_le in Hc2. split; [lia|].
  apply negb_true_iff, bool_decide_eq_false in Hc.
  split; intros E; apply Hc; rewrite <- (byt_Zb c), E; vm_compute; repeat constructor.
Qed.

Lemma stringLoop_plain fuel acc s rest :
  plainString s = true -> (length s < fuel)%nat ->
  stringLoop fuel acc (s ++ x22 :: rest) = Ok (acc ++ s, rest).
Proof.
  revert fuel acc. induction s as [|c s IH]; intros fuel acc Hp Hl; (destruct fuel as [|fuel]; [lia|]).
  - cbn. by rewrite app_nil_r.
  - cbn [plainString forallb] in Hp. apply andb_true_iff in Hp as [Hc Hp].
    apply plainChar_spec in Hc as (Hr & H1 & H2). cbn [app stringLoop].
    destruct (Z.eqb_spec (Zb c) 0x22); [lia|]. destruct (Z.eqb_spec (Zb c) 0x5c); [lia|].
    destruct (Z.ltb_spec (Zb c) 0x20); [lia|]. destruct (Z.ltb_spec (Zb c) 0x80); [|lia].
    rewrite IH by (done || cbn in Hl; lia). by rewrite <- app_assoc.
Qed.

(** A number ends where the text does, or at a character no number continues with. *)
Definition endsNumber (rest : bytes) : Prop :=
  match rest with
  | [] => True
  | c :: _ => isDigit c = false /\ Zb c <> 46 /\ Zb c <> 101 /\ Zb c <> 69
  end.
Lemma spanDigits_app d rest :
  Forall (fun c => isDigit c = true) d -> endsNumber rest -> spanDigits (d ++ rest) = (d, rest).
Proof.
  induction 1 as [|c d Hc Hd IH]; intros Hr; cbn [app spanDigits].
  - destruct rest as [|c rest]; cbn; [done|]. by destruct Hr as [-> _].
  - by rewrite Hc, IH.
Qed.
Lemma numberAt_natural n rest :
  0 <= n -> endsNumber rest -> numberAt (FormatInt n ++ rest) = Some (FormatInt n, rest).
Proof.
  intros Hn Hr. destruct (FormatInt_natural n Hn) as (c & s & E & Hd & Hz). rewrite E.
  pose proof (Forall_inv Hd) as Hc. assert (48 <= Zb c <= 57) as Hrange.
  { unfold isDigit in Hc. apply andb_true_iff in Hc as [?%Z.leb_le ?%Z.leb_le]. lia. }
  unfold numberAt. cbn [app]. destruct (Z.eqb_spec (Zb c) 45); [lia|].
  unfold wholePart. change (c :: s ++ rest) with ((c :: s) ++ rest).
  rewrite (spanDigits_app (c :: s) rest Hd Hr).
  assert ((if Zb c =? 48 then Some ([c], s ++ rest) else Some (c :: s, rest)) = Some (c :: s, rest)) as ->.
  { destruct (Z.eqb_spec (Zb c) 48) as [E0|]; [by rewrite (Hz E0)|done]. }
  cbn [mbind option_bind]. unfold fractionPart, exponentPart.
  destruct rest as [|r rest]; cbn; [by rewrite app_nil_r|]. destruct Hr as (_ & H1 & H2 & H3).
  destruct (Z.eqb_spec (Zb r) 46); [lia|]. cbn.
  destruct (Z.eqb_spec (Zb r) 101); [lia|]. destruct (Z.eqb_spec (Zb r) 69); [lia|]. cbn.
  by rewrite app_nil_r.
Qed.

(** What the text of a value starts with. *)
Definition startsValue (text : bytes) : Prop :=
  exists c t, text = c :: t /\ isJsonSpace c = false /\ Zb c <> 0x5d /\ Zb c <> 0x7d.
Lemma jsonText_starts gap v : plainJson v -> startsValue (jsonText gap v).
Proof.
  intros []; cbn [jsonText];
    try (by (do 2 eexists); split; [reflexivity|]; split_and!; [vm_compute; reflexivity|done..]).
  - destruct b; (do 2 eexists); (split; [reflexivity|]); by split_and!.
  - destruct (FormatInt_natural n) as (c & s & -> & Hd & _); [done|]. exists c, s.
    apply Forall_inv in Hd. unfold isDigit in Hd. apply andb_true_iff in Hd as [?%Z.leb_le ?%Z.leb_le].
    split; [done|]. unfold isJsonSpace. split_and!; [|lia..].
    destruct (Z.eqb_spec (Zb c) 0x20), (Z.eqb_spec (Zb c) 0x09), (Z.eqb_spec (Zb c) 0x0a),
      (Z.eqb_spec (Zb c) 0x0d); lia || done.
Qed.
Lemma skipSpace_value text rest : startsValue text -> skipSpace (text ++ rest) = text ++ rest.
Proof. intros (c & t & -> & Hc & _). cbn. by rewrite Hc. Qed.

(** [value] reads [v] back wherever its text stands. *)
Definition readsBack (gap : bytes) (value : bytes -> res (json * bytes)) (v : json) : Prop :=
  forall rest, endsNumber rest -> value (jsonText gap v ++ rest) = Ok (v, rest).
Definition blank (gap : bytes) : Prop := Forall (fun c => isJsonSpace c = true) gap.
Lemma skipSpace_gap gap s : blank gap -> skipSpace (gap ++ s) = skipSpace s.
Proof. induction 1 as [|c gap Hc _ IH]; [done|]. cbn. by rewrite Hc. Qed.

Section loops.
Context (gap : bytes) (gap_blank : blank gap).
Context (value : bytes -> res (json * bytes)) (value_space : forall s, value (gap ++ s) = value s).

Lemma elementsLoop_gap fuel s : elementsLoop value fuel (gap ++ s) = elementsLoop value fuel s.
Proof. destruct fuel; [done|]. cbn [elementsLoop]. by rewrite value_space. Qed.
Lemma membersLoop_gap fuel s : membersLoop value fuel (gap ++ s) = membersLoop value fuel s.
Proof. destruct fuel; [done|]. cbn [membersLoop]. by rewrite skipSpace_gap. Qed.

Lemma elementsLoop_reads l fuel rest :
  Forall (readsBack gap value) l -> l <> [] -> (length l <= fuel)%nat ->
  elementsLoop value fuel (separatedBy gap (map (jsonText gap) l) ++ x5d :: rest) = Ok (l, rest).
Proof.
  intros Hl. revert fuel. induction Hl as [|v l Hv Hl IH]; intros fuel Hne Hf; [done|].
  destruct fuel as [|fuel]; [cbn in Hf; lia|]. cbn [map separatedBy elementsLoop].
  destruct l as [|w l]; cbn [map].
  - rewrite Hv by (by split_and!). cbn. done.
  - rewrite <- !app_assoc, Hv by (by split_and!). cbn [mbind res_bind app].
    change (skipSpace (x2c :: ?t)) with (x2c :: t). cbn iota. change (Zb x2c =? 0x2c) with true. cbn iota.
    change (jsonText gap w :: map (jsonText gap) l) with (map (jsonText gap) (w :: l)).
    rewrite <- app_assoc, elementsLoop_gap, IH by (done || cbn in *; lia). done.
Qed.

Abbreviation memberText := (fun e : bytes * json => quoted e.1 ++ x3a :: gap ++ jsonText gap e.2).
Lemma membersLoop_reads m fuel rest :
  Forall (fun e => plainString e.1 = true /\ readsBack gap value e.2) m -> m <> [] -> (length m <= fuel)%nat ->
  membersLoop value fuel (separatedBy gap (map memberText m) ++ x7d :: rest) = Ok (m, rest).
Proof.
  intros Hm. revert fuel. induction Hm as [|[k v] m [Hk Hv] Hm IH]; intros fuel Hne Hf; [done|].
  destruct fuel as [|fuel]; [cbn in Hf; lia|]. cbn [fst snd] in *.
  assert (forall tail, endsNumber tail ->
    membersLoop value (S fuel) (quoted k ++ x3a :: gap ++ jsonText gap v ++ tail) =
    match skipSpace tail with
    | c :: s =>
        if Zb c =? 0x2c then '(m, s) ← membersLoop value fuel s; Ok ((k, v) :: m, s)
        else if Zb c =? 0x7d then Ok ([(k, v)], s)
        else Err ErrJsonSyntax
    | [] => Err ErrJsonSyntax
    end) as Hone.
  { intros tail Htail. rewrite (quoted_plain k Hk). cbn [membersLoop app skipSpace].
    change (isJsonSpace x22) with false. cbn [negb]. change (Zb x22 =? 0x22) with true. cbn iota.
    rewrite <- app_assoc. cbn [app].
    rewrite stringLoop_plain by (done || rewrite length_app; lia).
    cbn [mbind res_bind app]. change (skipSpace (x3a :: ?t)) with (x3a :: t). cbn iota.
    change (Zb x3a =? 0x3a) with true. cbn iota. by rewrite value_space, Hv. }
  cbn [map separatedBy]. destruct m as [|w m]; cbn [map].
  - cbn [fst snd]. rewrite <- !app_assoc. cbn [app]. rewrite <- app_assoc, Hone by (by split_and!). done.
  - cbn [fst snd]. rewrite <- !app_assoc. cbn [app]. rewrite <- !app_assoc, Hone by (by split_and!).
    change (skipSpace (x2c :: ?t)) with (x2c :: t). cbn iota.
    change (Zb x2c =? 0x2c) with true. cbn iota.
    change (memberText w :: map memberText m) with (map memberText (w :: m)).
    by rewrite membersLoop_gap, IH by (done || cbn in *; lia).
Qed.
End loops.

Lemma separated_length gap l : Forall startsValue l -> (length l <= length (separatedBy gap l))%nat.
Proof.
  induction 1 as [|x l (c & t & -> & _) Hl IH]; [done|]. cbn [separatedBy length].
  destruct l; [cbn; lia|]. rewrite !length_app. cbn [length] in *. rewrite length_app. lia.
Qed.

Lemma separated_starts gap l : Forall startsValue l -> l <> [] -> startsValue (separatedBy gap l).
Proof.
  intros [|x r (c & t & -> & Hc) Hr] Hne; [done|]. destruct r as [|y r]; [by exists c, t|].
  by exists c, (t ++ x2c :: gap ++ separatedBy gap (y :: r)).
Qed.

Lemma height_element v l : v ∈ l -> (jsonHeight v <= list_max (map jsonHeight l))%nat.
Proof.
  intros Hv. assert (Forall (fun k => (k <= list_max (map jsonHeight l))%nat) (map jsonHeight l)) as Hf
    by (by apply list_max_le).
  rewrite Forall_map, Forall_forall in Hf. by apply Hf.
Qed.

Lemma quoted_starts k text : plainString k = true -> startsValue (quoted k ++ text).
Proof. intros Hk. rewrite (quoted_plain k Hk). do 2 eexists. split; [reflexivity|]. by split_and!. Qed.

Lemma parseValue_gap gap fuel depth s :
  blank gap -> parseValue fuel depth (gap ++ s) = parseValue fuel depth s.
Proof. intros Hg. destruct fuel; [done|]. cbn [parseValue]. by rewrite skipSpace_gap. Qed.

Lemma parseValue_reads gap fuel depth v :
  blank gap -> plainJson v -> (jsonHeight v < fuel)%nat -> (depth + jsonHeight v <= maxNestingDepth)%nat ->
  readsBack gap (parseValue fuel depth) v.
Proof.
  intros Hg. revert depth v. induction fuel as [|fuel IH]; intros depth v Hv Hf Hd rest Hr; [lia|].
  cbn [parseValue]. rewrite (skipSpace_value _ _ (jsonText_starts gap v Hv)).
  inversion Hv as [|b|n Hn|s Hs|l Hl|m Hm]; subst; cbn [jsonText jsonHeight] in *.
  - done.
  - by destruct b.
  - pose proof (numberAt_natural n rest Hn Hr) as Hnum.
    destruct (FormatInt_natural n Hn) as (c & s & E & Hdig & _). rewrite E in *. cbn [app] in *.
    apply Forall_inv in Hdig. unfold isDigit in Hdig. apply andb_true_iff in Hdig as [?%Z.leb_le ?%Z.leb_le].
    repeat match goal with |- context [Zb c =? ?k] => destruct (Z.eqb_spec (Zb c) k); [lia|] end.
    by rewrite Hnum.
  - rewrite (quoted_plain s Hs). cbn [app]. change (Zb x22 =? 0x7b) with false.
    change (Zb x22 =? 0x5b) with false. change (Zb x22 =? 0x22) with true. cbn iota.
    rewrite <- app_assoc. cbn [app]. by rewrite stringLoop_plain by (done || rewrite length_app; lia).
  - rewrite <- !app_assoc. change (lit "]" ++ rest) with (x5d :: rest).
    change (lit "[" ++ ?t) with (x5b :: t). cbn iota. change (Zb x5b =? 0x7b) with false.
    change (Zb x5b =? 0x5b) with true. cbn iota.
    destruct (Nat.ltb_spec maxNestingDepth (S depth)); [lia|].
    destruct l as [|w l]; [done|].
    assert (Forall startsValue (map (jsonText gap) (w :: l))) as Hst
      by (apply Forall_map; eapply Forall_impl; [exact Hl|apply jsonText_starts]).
    assert (startsValue (separatedBy gap (map (jsonText gap) (w :: l)))) as Hst'
      by (by apply separated_starts).
    rewrite (skipSpace_value _ _ Hst').
    pose proof (separated_length gap _ Hst) as Hlen. rewrite length_map in Hlen.
    set (text := separatedBy gap (map (jsonText gap) (w :: l)) ++ x5d :: rest).
    assert (elementsLoop (parseValue fuel (S depth)) (S (length text)) text = Ok (w :: l, rest)) as He.
    { apply elementsLoop_reads; [by intros; apply parseValue_gap| |done|unfold text; rewrite length_app; lia].
      apply Forall_forall. intros x Hx. pose proof (height_element x (w :: l) Hx).
      apply IH; [by eapply Forall_forall|lia|lia]. }
    rewrite He. destruct Hst' as (c & t & E & _ & Hc & _). unfold text. rewrite E. cbn [app].
    by destruct (Z.eqb_spec (Zb c) 0x5d).
  - rewrite <- !app_assoc. change (lit "}" ++ rest) with (x7d :: rest).
    change (lit "{" ++ ?t) with (x7b :: t). cbn iota. change (Zb x7b =? 0x7b) with true. cbn iota.
    destruct (Nat.ltb_spec maxNestingDepth (S depth)); [lia|].
    destruct m as [|w m]; [done|].
    set (member := fun e : bytes * json => quoted e.1 ++ x3a :: gap ++ jsonText gap e.2).
    assert (Forall startsValue (map member (w :: m))) as Hst
      by (apply Forall_map; eapply Forall_impl; [exact Hm|intros e [He _]; by apply quoted_starts]).
    assert (startsValue (separatedBy gap (map member (w :: m)))) as Hst'
      by (by apply separated_starts).
    rewrite (skipSpace_value _ _ Hst').
    pose proof (separated_length gap _ Hst) as Hlen. rewrite length_map in Hlen.
    set (text := separatedBy gap (map member (w :: m)) ++ x7d :: rest).
    assert (membersLoop (parseValue fuel (S depth)) (S (length text)) text = Ok (w :: m, rest)) as He.
    { apply membersLoop_reads; [done|by intros; apply parseValue_gap| |done|unfold text; rewrite length_app; lia].
      apply Forall_forall. intros x Hx. pose proof Hm as Hm'. rewrite Forall_forall in Hm'.
      destruct (Hm' x Hx) as [Hk Hp]. split; [done|].
      assert (jsonHeight x.2 <= list_max (map (fun e => jsonHeight e.2) (w :: m)))%nat.
      { assert (Forall (fun k => (k <= list_max (map (fun e => jsonHeight e.2) (w :: m)))%nat)
          (map (fun e => jsonHeight e.2) (w :: m))) as Hf' by (by apply list_max_le).
        rewrite Forall_map, Forall_forall in Hf'. by apply Hf'. }
      apply IH; [done|lia|lia]. }
    rewrite He. destruct Hst' as (c & t & E & _ & _ & Hc). unfold text. rewrite E. cbn [app].
    by destruct (Z.eqb_spec (Zb c) 0x7d).
Qed.


(** A document reads back, in either style. *)
Lemma parseJson_text gap v :
  blank gap -> plainJson v -> (jsonHeight v <= length (jsonText gap v))%nat -> (jsonHeight v <= maxNestingDepth)%nat ->
  parseJson (jsonText gap v) = Ok v.
Proof.
  intros Hg Hv Hl Hd. unfold parseJson. rewrite <- (app_nil_r (jsonText gap v)) at 2.
  by rewrite (parseValue_reads gap _ 0 v Hg Hv) by (done || lia).
Qed.
Lemma parseJson_python v :
  plainJson v -> (jsonHeight v <= length (pythonJson v))%nat -> (jsonHeight v <= maxNestingDepth)%nat ->
  parseJson (pythonJson v) = Ok v.
Proof. apply parseJson_text. by repeat constructor. Qed.

(** ** Parsing ends

    Every value takes at least one character, so the length of the text is fuel enough. *)

Definition consumes {A} (s : bytes) (r : res (A * bytes)) : Prop :=
  match r with Ok (_, rest) => (length rest < length s)%nat | Err _ => True | _ => False end.
Lemma consumes_weaken {A} s s' (r : res (A * bytes)) :
  (length s' <= length s)%nat -> consumes s' r -> consumes s r.
Proof. destruct r as [[a rest]| | |]; cbn; lia || done. Qed.
Lemma consumes_bind {A B} s (m : res (A * bytes)) (k : A * bytes -> res (B * bytes)) :
  consumes s m -> (forall a rest, (length rest < length s)%nat -> consumes s (k (a, rest))) -> consumes s (m ≫= k).
Proof. destruct m as [[a rest]| | |]; cbn; auto. Qed.

Lemma getu4_length s r : getu4 s = Some r -> (6 <= length s)%nat.
Proof. unfold getu4. repeat (case_match; try done); cbn; lia. Qed.
Lemma stringLoop_consumes fuel acc s : (length s < fuel)%nat -> consumes s (stringLoop fuel acc s).
Proof.
  revert acc s. induction fuel as [|fuel IH]; intros acc s Hl; [lia|]. cbn [stringLoop].
  assert (forall acc s', (length s' < length s)%nat -> consumes s (stringLoop fuel acc s')) as Hrec.
  { intros acc' s' Hs. eapply consumes_weaken; [|apply IH; lia]. lia. }
  destruct s as [|c rest]; [done|]. destruct (Zb c =? 0x22); [cbn; lia|].
  destruct (Zb c =? 0x5c).
  - destruct (getu4 (c :: rest)) as [r|] eqn:Eg.
    + apply getu4_length in Eg. cbn [length] in Eg.
      assert ((length (drop 6 (c :: rest)) < length (c :: rest))%nat) as H6 by (rewrite length_drop; cbn; lia).
      destruct (isSurrogate r); [|by apply Hrec].
      destruct (r2 ← getu4 (drop 6 (c :: rest)); decodeSurrogates r r2); [|by apply Hrec].
      apply Hrec. rewrite length_drop. lia.
    + destruct rest as [|e rest]; [done|]. destruct (simpleEscape e); [|done]. apply Hrec. cbn. lia.
  - destruct (Zb c <? 0x20); [done|]. destruct (Zb c <? 0x80); [apply Hrec; cbn; lia|].
    pose proof (DecodeRune_size (c :: rest) ltac:(done)) as Hsize. destruct (DecodeRune (c :: rest)) as [r size].
    apply Hrec. rewrite length_drop. cbn in *. lia.
Qed.

Lemma skipSpace_length s : (length (skipSpace s) <= length s)%nat.
Proof. induction s as [|c s IH]; cbn; [lia|]. destruct (isJsonSpace c); cbn; lia. Qed.
Lemma skipSpace_cons s c rest : skipSpace s = c :: rest -> (length rest < length s)%nat.
Proof. intros E. pose proof (skipSpace_length s) as Hl. rewrite E in Hl. cbn in Hl. lia. Qed.

Lemma spanDigits_length s d rest : spanDigits s = (d, rest) -> length s = (length d + length rest)%nat.
Proof.
  revert d rest. induction s as [|c s IH]; intros d rest; cbn; [by intros [= <- <-]|].
  destruct (isDigit c); [|by intros [= <- <-]]. destruct (spanDigits s) as [d' rest'].
  intros [= <- <-]. cbn. by rewrite (IH _ _ eq_refl).
Qed.
Lemma numberAt_length s literal rest : numberAt s = Some (literal, rest) -> (length rest < length s)%nat.
Proof.
  assert (forall s w rest, wholePart s = Some (w, rest) -> (length rest < length s)%nat) as Hwhole.
  { intros s0 w rest0. unfold wholePart. destruct (spanDigits s0) as [[|c more] r] eqn:E; [done|].
    apply spanDigits_length in E. destruct (Zb c =? 48); intros [= <- <-]; rewrite ?length_app; cbn in E; lia. }
  assert (forall s w rest, fractionPart s = Some (w, rest) -> (length rest <= length s)%nat) as Hfraction.
  { intros s0 w rest0. unfold fractionPart. destruct s0 as [|c s0]; [by intros [= <- <-]|].
    destruct (Zb c =? 46); [|by intros [= <- <-]]. destruct (spanDigits s0) as [[|d ds] r] eqn:E; [done|].
    intros [= <- <-]. apply spanDigits_length in E. cbn in *. lia. }
  assert (forall s w rest, exponentPart s = Some (w, rest) -> (length rest <= length s)%nat) as Hexponent.
  { intros s0 w rest0. unfold exponentPart. destruct s0 as [|c s0]; [by intros [= <- <-]|].
    destruct (_ || _); [|by intros [= <- <-]].
    destruct s0 as [|d more]; [done|]. destruct (_ || _).
    - destruct (spanDigits more) as [[|x xs] r] eqn:E; [done|]. intros [= <- <-]. apply spanDigits_length in E. cbn in *. lia.
    - destruct (spanDigits (d :: more)) as [[|x xs] r] eqn:E; [done|]. intros [= <- <-]. apply spanDigits_length in E. cbn in *. lia. }
  unfold numberAt. intros H.
  assert (exists sign s', (match s with c :: rest => if Zb c =? 45 then ([c], rest) else ([], s) | [] => ([], []) end) = (sign, s') /\
            (length s' <= length s)%nat) as (sign & s' & E & Hs).
  { destruct s as [|c t]; [by exists [], []|]. destruct (Zb c =? 45); eexists _, _; (split; [done|]); cbn; lia. }
  rewrite E in H. destruct (wholePart s') as [[w s1]|] eqn:E1; [|done]. cbn in H.
  destruct (fractionPart s1) as [[f s2]|] eqn:E2; [|done]. cbn in H.
  destruct (exponentPart s2) as [[x s3]|] eqn:E3; [|done]. cbn in H. injection H as _ <-.
  apply Hwhole in E1. apply Hfraction in E2. apply Hexponent in E3. lia.
Qed.
Lemma literalAt_consumes literal v s : lit literal <> [] -> consumes s (literalAt literal v s).
Proof.
  intros Hl. unfold literalAt. destruct (decide _) as [E|]; [|done]. cbn. rewrite length_drop.
  apply (f_equal length) in E. rewrite length_take in E.
  assert (length (lit literal) <> 0%nat) by (by intros ?%length_zero_iff_nil). lia.
Qed.

Section ends.
Context (value : bytes -> res (json * bytes)) (longest : nat).
Context (value_consumes : forall s, (length s <= longest)%nat -> consumes s (value s)).

Lemma elementsLoop_consumes fuel s :
  (length s < fuel)%nat -> (length s <= longest)%nat -> consumes s (elementsLoop value fuel s).
Proof.
  revert s. induction fuel as [|fuel IH]; intros s Hf Hl; [lia|]. cbn [elementsLoop].
  apply consumes_bind; [by apply value_consumes|]. intros v rest Hr.
  destruct (skipSpace rest) as [|c s'] eqn:E; [done|]. apply skipSpace_cons in E.
  destruct (Zb c =? 0x2c); [|destruct (Zb c =? 0x5d); [cbn; lia|done]].
  apply consumes_bind; [|intros; done]. eapply consumes_weaken; [|apply IH; lia]. lia.
Qed.
Lemma membersLoop_consumes fuel s :
  (length s < fuel)%nat -> (length s <= longest)%nat -> consumes s (membersLoop value fuel s).
Proof.
  revert s. induction fuel as [|fuel IH]; intros s Hf Hl; [lia|]. cbn [membersLoop].
  destruct (skipSpace s) as [|q s1] eqn:E; [done|]. apply skipSpace_cons in E. destruct (Zb q =? 0x22); [|done].
  apply consumes_bind; [eapply consumes_weaken; [|apply stringLoop_consumes; lia]; lia|]. intros key rest Hr.
  destruct (skipSpace rest) as [|c s2] eqn:E2; [done|]. apply skipSpace_cons in E2. destruct (Zb c =? 0x3a); [|done].
  apply consumes_bind; [eapply consumes_weaken; [|apply value_consumes; lia]; lia|]. intros v rest2 Hr2.
  destruct (skipSpace rest2) as [|d s3] eqn:E3; [done|]. apply skipSpace_cons in E3.
  destruct (Zb d =? 0x2c); [|destruct (Zb d =? 0x7d); [cbn; lia|done]].
  apply consumes_bind; [|intros; done]. eapply consumes_weaken; [|apply IH; lia]. lia.
Qed.
End ends.

Lemma parseValue_consumes fuel depth s : (length s < fuel)%nat -> consumes s (parseValue fuel depth s).
Proof.
  revert depth s. induction fuel as [|fuel IH]; intros depth s Hl; [lia|]. cbn [parseValue].
  destruct (skipSpace s) as [|c rest] eqn:E; [done|].
  assert (length (c :: rest) <= length s)%nat as Hc by (rewrite <- E; apply skipSpace_length).
  apply skipSpace_cons in E. cbn [length] in Hc.
  assert (forall s', (length s' <= length rest)%nat -> consumes s' (parseValue fuel (S depth) s')) as Hvalue
    by (intros; apply IH; lia).
  destruct (Zb c =? 0x7b).
  { destruct (_ <? _)%nat; [done|]. destruct (skipSpace rest) as [|d after] eqn:E2; [done|]. apply skipSpace_cons in E2.
    destruct (Zb d =? 0x7d); [cbn; lia|]. apply consumes_bind; [|intros; cbn; lia].
    eapply consumes_weaken; [|apply (membersLoop_consumes _ (length rest) Hvalue); lia]. lia. }
  destruct (Zb c =? 0x5b).
  { destruct (_ <? _)%nat; [done|]. destruct (skipSpace rest) as [|d after] eqn:E2; [done|]. apply skipSpace_cons in E2.
    destruct (Zb d =? 0x5d); [cbn; lia|]. apply consumes_bind; [|intros; cbn; lia].
    eapply consumes_weaken; [|apply (elementsLoop_consumes _ (length rest) Hvalue); lia]. lia. }
  destruct (Zb c =? 0x22).
  { apply consumes_bind; [|intros; cbn; lia]. eapply consumes_weaken; [|apply stringLoop_consumes; lia]. lia. }
  destruct (Zb c =? 0x74); [eapply consumes_weaken; [|by apply literalAt_consumes]; cbn; lia|].
  destruct (Zb c =? 0x66); [eapply consumes_weaken; [|by apply literalAt_consumes]; cbn; lia|].
  destruct (Zb c =? 0x6e); [eapply consumes_weaken; [|by apply literalAt_consumes]; cbn; lia|].
  destruct (numberAt (c :: rest)) as [[literal s']|] eqn:En; [|done]. apply numberAt_length in En. cbn in *. lia.
Qed.
Lemma parseJson_returns data : returns (parseJson data).
Proof.
  unfold parseJson. pose proof (parseValue_consumes (S (length data)) 0 data ltac:(lia)) as Hc.
  destruct (parseValue _ _ _) as [[v rest]| | |]; cbn in *; [|done..]. by destruct (skipSpace rest).
Qed.
