(* ===== verification/Float.v ===== *)
(** * Binary floating point, as far as the daemon uses it

    Rounding of positive integers and quotients to the 53 bits of a [float64]
    (or of a [big.Float] of precision 53), ties to even.  The exponents the
    program reaches are far from the limits of the format. *)

From S2P Require Import Prelude.

(** Divide by [2 ^ s], round to nearest, ties to even. *)
Definition shiftRound (p s : Z) : Z :=
  let q := p / 2 ^ s in
  let r := p mod 2 ^ s in
  if (2 ^ s <? 2 * r) || ((2 * r =? 2 ^ s) && Z.odd q) then q + 1 else q.

(** The nearest value with a 53-bit significand to the integer [p >= 0]. *)
Definition round53 (p : Z) : Z :=
  if p <? 2 ^ 53 then p
  else let s := Z.log2 p - 52 in shiftRound p s * 2 ^ s.

(** The integer part of the 53-bit quotient of [a >= 0] by [b > 0]. *)
Definition quo53 (a b : Z) : Z :=
  if a =? 0 then 0
  else
    (* a quotient of at least 54 bits, with a sticky bit for the remainder *)
    let k := Z.max 0 (55 + Z.log2 b - Z.log2 a) in
    let q := a * 2 ^ k / b in
    let sticky := if a * 2 ^ k mod b =? 0 then 0 else 1 in
    round53 (2 * q + sticky) / 2 ^ (k + 1).

Example quo53_examples :
  (quo53 10 3, quo53 (2 ^ 60 + 1) 1, quo53 (3 * 2 ^ 80) 150, quo53 149 150) =
  (3, 2 ^ 60, 24178516392292583997440, 0).
Proof. vm_compute. reflexivity. Qed.

Lemma shiftRound_spec p s :
  0 <= p -> 0 <= s -> p / 2 ^ s <= shiftRound p s <= p / 2 ^ s + 1 /\
  2 * Z.abs (shiftRound p s * 2 ^ s - p) <= 2 ^ s.
Proof.
  intros Hp Hs. unfold shiftRound.
  assert (0 < 2 ^ s) by (apply Z.pow_pos_nonneg; lia).
  pose proof (Z.div_mod p (2 ^ s)) as Hd. pose proof (Z.mod_pos_bound p (2 ^ s)).
  destruct (Z.ltb_spec (2 ^ s) (2 * (p mod 2 ^ s))); cbn [orb].
  - split; [lia|]. rewrite Z.mul_add_distr_r. lia.
  - destruct (Z.eqb_spec (2 * (p mod 2 ^ s)) (2 ^ s)); cbn [andb]; [destruct (Z.odd _)|];
      (split; [lia|]); try rewrite Z.mul_add_distr_r; lia.
Qed.

Lemma round53_exact p : 0 <= p < 2 ^ 53 -> round53 p = p.
Proof. intros. unfold round53. destruct (Z.ltb_spec p (2 ^ 53)); lia. Qed.

(** Half a unit in the last place. *)
Lemma round53_error p : 0 <= p -> 2 ^ 53 * Z.abs (round53 p - p) <= p.
Proof.
  intros Hp. unfold round53. destruct (Z.ltb_spec p (2 ^ 53)); [lia|].
  pose proof (Z.log2_spec p ltac:(lia)) as [Hlo _].
  assert (53 <= Z.log2 p) by (apply Z.log2_le_pow2; lia).
  destruct (shiftRound_spec p (Z.log2 p - 52) ltac:(lia) ltac:(lia)) as [_ He].
  assert (2 ^ Z.log2 p = 2 ^ 52 * 2 ^ (Z.log2 p - 52)) as E by (rewrite <- Z.pow_add_r; [f_equal|..]; lia).
  change (2 ^ 53) with (2 * 2 ^ 52). lia.
Qed.
Lemma round53_nonneg p : 0 <= p -> 0 <= round53 p.
Proof. intros Hp. pose proof (round53_error p Hp). lia. Qed.

(** A value below [2 ^ 53 * k] by more than half a unit stays below it: the
    product of a fraction under one with [k] is under [k]. *)
Lemma round53_below n k :
  0 <= n < 2 ^ 53 -> 0 < k -> round53 (n * k) < 2 ^ 53 * k.
Proof.
  intros Hn Hk. destruct (Z.lt_ge_cases (n * k) (2 ^ 53)) as [Hlt|Hge].
  { rewrite round53_exact by nia. nia. }
  unfold round53. destruct (Z.ltb_spec (n * k) (2 ^ 53)); [lia|].
  set (p := n * k) in *. set (s := Z.log2 p - 52).
  assert (53 <= Z.log2 p) by (apply Z.log2_le_pow2; lia).
  pose proof (Z.log2_spec p ltac:(lia)) as [Hlo Hhi].
  assert (0 < 2 ^ s) by (apply Z.pow_pos_nonneg; lia).
  assert (2 ^ Z.log2 p = 2 ^ 52 * 2 ^ s) as E by (rewrite <- Z.pow_add_r; [f_equal|..]; lia).
  destruct (shiftRound_spec p s ltac:(lia) ltac:(lia)) as [_ He].
  assert (p <= 2 ^ 53 * k - k) by (unfold p; nia).
  (* the result is a multiple of 2^s within half a unit of p <= 2^53 k - k *)
  destruct (Z.lt_ge_cases (shiftRound p s * 2 ^ s) (2 ^ 53 * k)) as [|Hbad]; [done|]. exfalso.
  (* then 2 k <= 2^s, but p >= 2^52 2^s forces k near 2^s / 2 *)
  assert (2 * k <= 2 ^ s) by lia.
  assert (2 ^ 52 * 2 ^ s <= 2 ^ 53 * k - k) by lia.
  nia.
Qed.
