(* ===== verification/JsonValue.v ===== *)
(** * JSON values decoded into [any]

    [json.Unmarshal] into a [map[string]any]: objects become maps, in which a
    later member replaces an earlier one, and numbers become [float64].  A number
    stays the literal that was written; [floatOf] is the [float64] it is read as. *)

From S2P Require Import Prelude Hex Utf8 Decimal Bencode Json Float.

(** ** Numbers *)

(** A finite [float64]: [(-1)^f_Negative * f_Significand / 2 ^ f_Scale]. *)
Record float64 := MkFloat { f_Negative : bool; f_Significand : Z; f_Scale : Z }.

(** [a * 2 ^ k / b] as a fraction. *)
Definition scaled (a b k : Z) : Z * Z := if k <? 0 then (a, b * 2 ^ (- k)) else (a * 2 ^ k, b).
(** The integer nearest to [a / b], ties to even. *)
Definition nearest (a b : Z) : Z :=
  let q := a / b in
  let r := a mod b in
  if (b <? 2 * r) || ((2 * r =? b) && Z.odd q) then q + 1 else q.
(** The scale at which [a / b] has 53 bits, [2 ^ -1074] being the smallest unit. *)
Definition scaleOf (a b : Z) : Z :=
  let k := 53 + Z.log2 b - Z.log2 a in
  let '(n, d) := scaled a b k in
  Z.min 1074 (if 2 ^ 53 * d <=? n then k - 1 else k).
Definition float64Limit : Z := 2 ^ 1024.
(** [strconv.ParseFloat(literal, 64)]; [None] is its range error. *)
Definition floatOf (literal : bytes) : option float64 :=
  match numberParts literal with
  | None => None
  | Some (negative, mantissa, exponent) =>
      if mantissa =? 0 then Some (MkFloat negative 0 0)
      else
        let '(a, b) := if exponent <? 0 then (mantissa, 10 ^ (- exponent)) else (mantissa * 10 ^ exponent, 1) in
        let k := scaleOf a b in
        let '(n, d) := scaled a b k in
        let significand := nearest n d in
        let '(value, unit) := scaled significand 1 (- k) in
        if float64Limit * unit <=? value then None else Some (MkFloat negative significand k)
  end.
(** [value == math.Trunc(value)], and the integer it then is. *)
Definition floatInteger (f : float64) : option Z :=
  let '(n, d) := scaled (f_Significand f) 1 (- f_Scale f) in
  if n mod d =? 0 then Some (if f_Negative f then - (n / d) else n / d) else None.

Example floatOf_examples :
  map (fun s => f ← floatOf (lit s); floatInteger f) ["12"; "-3"; "1e3"; "0.5"; "2.5e1"; "9007199254740993"; "-0"; "0.1e-400"]%string
    = [Some 12; Some (-3); Some 1000; None; Some 25; Some 9007199254740992; Some 0; Some 0] /\
  floatOf (lit "1e309") = None /\ floatOf (lit "1.7976931348623158e308") <> None /\
  floatOf (lit "1.7976931348623159e308") = None /\ floatOf (lit "1.00000000000000000000001") = floatOf (lit "1").
Proof. vm_compute. split_and!; done. Qed.

(** ** Values *)

Definition ErrUnmarshalAny : string := "json: cannot unmarshal number".

(** A value as [any]; a number out of the range of [float64] is an error. *)
Fixpoint anyValue (v : json) : res json :=
  match v with
  | JNumber literal => match floatOf literal with Some _ => Ok v | None => Err ErrUnmarshalAny end
  | JArray l =>
      l ← (fix elements (l : list json) : res (list json) :=
             match l with [] => Ok [] | v :: l => v ← anyValue v; l ← elements l; Ok (v :: l) end) l;
      Ok (JArray l)
  | JObject m =>
      m ← (fix members (acc m : list (bytes * json)) : res (list (bytes * json)) :=
             match m with [] => Ok acc | (k, v) :: m => v ← anyValue v; members (mapInsert k v acc) m end) [] m;
      Ok (JObject m)
  | v => Ok v
  end.
(** [json.Unmarshal(data, &target)] of a [map[string]any] that was nil. *)
Definition unmarshalMap (data : bytes) : res (list (bytes * json)) :=
  v ← parseJson data;
  match v with
  | JNull => Ok []
  | JObject _ =>
      v ← anyValue v;
      match v with JObject m => Ok m | _ => Err ErrUnmarshalAny end
  | _ => Err ErrUnmarshalAny
  end.
(** [data[key]] *)
Definition field (key : string) (m : list (bytes * json)) : option json := mapLookup (lit key) m.

(** [json.Marshal] of a map: the members in the order of their keys. *)
Definition marshalMap (m : list (bytes * json)) : bytes :=
  goJson (JObject (omap (fun k => pair k <$> mapLookup k m) (sortStrings (map fst m)))).

(** ** Numbers the program writes *)

Lemma digitsAt_app acc k a b :
  Forall (fun c => isDigit c = true) a ->
  digitsAt acc k (a ++ b) = let '(v, n, _) := digitsAt acc k a in digitsAt v n b.
Proof.
  intros Ha. revert acc k. induction Ha as [|c a Hc Ha IH]; intros acc k; cbn; [done|].
  unfold isDigit in Hc. rewrite Hc. apply IH.
Qed.
Lemma digitsAt_digits fuel z k :
  0 <= z < 2 ^ Z.of_nat fuel -> (0 < fuel)%nat ->
  exists n, (k < n)%nat /\ digitsAt 0 k (digits fuel z []) = (z, n, []).
Proof.
  revert z k. induction fuel as [|fuel IH]; intros z k Hz Hf; [lia|]. cbn [digits].
  pose proof (Z.mod_pos_bound z 10 ltac:(lia)) as Hm.
  assert (forall v n, digitsAt v n [byt (48 + z mod 10)] = (10 * v + z mod 10, S n, [])) as Hlast.
  { intros v n. cbn [digitsAt]. rewrite Zb_byt_id by lia. rewrite (proj2 (Z.leb_le 48 _)), (proj2 (Z.leb_le _ 57)) by lia.
    cbn [andb]. repeat f_equal. lia. }
  destruct (Z.ltb_spec z 10).
  - exists (S k). split; [lia|]. rewrite Hlast. repeat f_equal. rewrite Z.mod_small; lia.
  - rewrite digits_acc, digitsAt_app by (by apply digits_isDigit).
    rewrite Nat2Z.inj_succ, Z.pow_succ_r in Hz by lia.
    destruct (IH (z / 10) k) as (n & Hn & ->).
    + split; [apply Z.div_pos; lia|]. apply Z.div_lt_upper_bound; lia.
    + destruct fuel; [cbn in Hz; lia|lia].
    + exists (S n). split; [lia|]. rewrite Hlast. repeat f_equal. pose proof (Z.div_mod z 10). lia.
Qed.
Lemma numberParts_natural n : 0 <= n -> numberParts (FormatInt n) = Some (false, n, 0).
Proof.
  intros Hn. destruct (FormatInt_natural n Hn) as (c & s & E & Hd & _).
  assert (minusSign (FormatInt n) = (false, FormatInt n)) as Hsign.
  { rewrite E. unfold minusSign. apply Forall_inv in Hd. unfold isDigit in Hd.
    apply andb_true_iff in Hd as [?%Z.leb_le _]. by destruct (Z.eqb_spec (Zb c) 45); [lia|]. }
  unfold numberParts. rewrite Hsign.
  assert (exists k, (0 < k)%nat /\ digitsAt 0 0 (FormatInt n) = (n, k, [])) as (k & Hk & ->).
  { unfold FormatInt. destruct (Z.ltb_spec n 0); [lia|]. apply digitsAt_digits; [|lia].
    rewrite Nat2Z.inj_succ, Z2Nat.id by apply Z.log2_nonneg. split; [done|].
    destruct (decide (n = 0)) as [->|]; [done|]. apply Z.log2_spec. lia. }
  destruct k as [|k]; [lia|]. cbn. done.
Qed.

(** An integer below [2 ^ 53] is a [float64] and read as itself. *)
Lemma floatOf_natural n :
  0 <= n < 2 ^ 53 -> exists f, floatOf (FormatInt n) = Some f /\ floatInteger f = Some n.
Proof.
  intros [Hn Hmax]. unfold floatOf. rewrite numberParts_natural by done.
  destruct (Z.eqb_spec n 0) as [->|Hne]; [by eexists|]. cbn [Z.ltb]. change (0 <? 0) with false. cbn iota.
  rewrite Z.pow_0_r, Z.mul_1_r.
  pose proof (Z.log2_spec n ltac:(lia)) as [Hlo Hhi].
  assert (0 <= Z.log2 n < 53) as Hlog by (split; [apply Z.log2_nonneg|apply Z.log2_lt_pow2; lia]).
  assert (scaleOf n 1 = 52 - Z.log2 n) as ->.
  { unfold scaleOf, scaled. change (Z.log2 1) with 0. destruct (Z.ltb_spec (53 + 0 - Z.log2 n) 0); [lia|].
    rewrite (proj2 (Z.leb_le (2 ^ 53 * 1) _)); [lia|]. replace (53 + 0 - Z.log2 n) with (53 - Z.log2 n) by lia.
    transitivity (2 ^ Z.log2 n * 2 ^ (53 - Z.log2 n)); [|apply Z.mul_le_mono_nonneg_r; [apply Z.pow_nonneg|]; lia].
    rewrite <- Z.pow_add_r by lia. replace (Z.log2 n + (53 - Z.log2 n)) with 53 by lia. lia. }
  set (k := 52 - Z.log2 n).
  assert (scaled n 1 k = (n * 2 ^ k, 1)) as -> by (unfold scaled; destruct (Z.ltb_spec k 0); [unfold k in *; lia|done]).
  assert (nearest (n * 2 ^ k) 1 = n * 2 ^ k) as ->.
  { unfold nearest. rewrite Z.mod_1_r, Z.div_1_r. cbn. done. }
  assert (0 < 2 ^ k) as Hp by (apply Z.pow_pos_nonneg; unfold k; lia).
  assert (scaled (n * 2 ^ k) 1 (- k) = (n * 2 ^ k, 2 ^ k)) as Es.
  { unfold scaled. destruct (Z.ltb_spec (- k) 0); [by rewrite Z.opp_involutive, Z.mul_1_l|].
    assert (k = 0) as -> by (unfold k in *; lia). by rewrite !Z.mul_1_r. }
  rewrite Es. rewrite (proj2 (Z.leb_gt (float64Limit * 2 ^ k) _)).
  - eexists. split; [done|]. unfold floatInteger. cbn [f_Significand f_Scale f_Negative]. rewrite Es.
    rewrite Z.mod_mul by lia. cbn. by rewrite Z.div_mul by lia.
  - apply Z.mul_lt_mono_pos_r; [lia|]. unfold float64Limit. transitivity (2 ^ 53); [done|]. by apply Z.pow_lt_mono_r.
Qed.
