(* ===== verification/Framing.v ===== *)
(** * Framing of JSON objects on a connection

    The peers of the daemon find the end of a JSON object by counting brackets
    outside of strings.  [Framing] is what the scanners of the blob exchange and
    of the reflector have in common; under it an object that the program writes is
    framed exactly. *)

From S2P Require Import Prelude Decimal Bencode Json.

(** A character that a scanner passes over outside of strings. *)
Definition neutral (c : byte) : bool := negb (bool_decide (c ∈ [x22; x5b; x5d; x7b; x7d])).
Definition closer (c : byte) : byte := if decide (c = x7b) then x7d else x5d.

Lemma neutral_spec c :
  neutral c = true -> Zb c <> 0x22 /\ Zb c <> 0x5b /\ Zb c <> 0x5d /\ Zb c <> 0x7b /\ Zb c <> 0x7d.
Proof. by destruct c. Qed.
(** How many brackets of a kind are open. *)
Definition opens (bracket : byte) (opened : bytes) : Z := Z.of_nat (count_occ Byte.byte_eq_dec opened bracket).
Lemma opens_nonneg b opened : 0 <= opens b opened.
Proof. unfold opens. lia. Qed.

(** [scan opened buffer reader]: the scanner outside of strings in the outer object
    and the brackets [opened] in it, the innermost first; it answers the frame and
    the rest of the reader. *)
Class Framing (limit : Z) (scan : bytes -> bytes -> bytes -> res (bytes * bytes)) : Prop := {
  scan_neutral opened buffer c rest :
    neutral c = true -> blen buffer + 1 < limit -> scan opened buffer (c :: rest) = scan opened (buffer ++ [c]) rest;
  scan_quoted opened buffer s rest :
    plainString s = true -> blen buffer + blen (quoted s) < limit ->
    scan opened buffer (quoted s ++ rest) = scan opened (buffer ++ quoted s) rest;
  scan_open opened buffer c rest :
    c = x7b \/ c = x5b -> blen buffer + 1 < limit ->
    scan opened buffer (c :: rest) = scan (c :: opened) (buffer ++ [c]) rest;
  scan_close opened buffer c rest :
    c = x7b \/ c = x5b -> blen buffer + 1 < limit ->
    scan (c :: opened) buffer (closer c :: rest) = scan opened (buffer ++ [closer c]) rest
}.

Lemma json_nested_ind (P : json -> Prop) :
  P JNull -> (forall b, P (JBool b)) -> (forall literal, P (JNumber literal)) -> (forall s, P (JString s)) ->
  (forall l, Forall P l -> P (JArray l)) -> (forall m, Forall (fun e => P e.2) m -> P (JObject m)) -> forall v, P v.
Proof.
  intros Hn Hb Hnum Hs Ha Ho. fix IH 1. intros [|b|literal|s|l|m]; [done|done|done|done| |].
  - apply Ha. induction l as [|v l IHl]; constructor; [apply IH|apply IHl].
  - apply Ho. induction m as [|[k v] m IHm]; constructor; [apply IH|apply IHm].
Qed.

Ltac lengths := repeat progress rewrite ?blen_app, ?blen_cons, ?blen_nil in *; lia.

Section framing.
Context {limit : Z} {scan : bytes -> bytes -> bytes -> res (bytes * bytes)} `{Framing limit scan}.

(** The scanner goes over [text] and is where it was. *)
Definition passes (text : bytes) : Prop :=
  forall opened buffer rest, blen buffer + blen text < limit ->
    scan opened buffer (text ++ rest) = scan opened (buffer ++ text) rest.

Lemma passes_nil : passes [].
Proof. intros opened buffer rest _. by rewrite app_nil_r. Qed.
Lemma passes_app a b : passes a -> passes b -> passes (a ++ b).
Proof.
  intros Ha Hb opened buffer rest Hl. rewrite blen_app in Hl. pose proof (blen_nonneg b).
  rewrite <- app_assoc, Ha, Hb, <- app_assoc; [done| |lia]. rewrite blen_app. lia.
Qed.
Lemma passes_neutral s : Forall (fun c => neutral c = true) s -> passes s.
Proof.
  induction 1 as [|c s Hc _ IH]; [apply passes_nil|]. change (c :: s) with ([c] ++ s). apply passes_app; [|done].
  intros opened buffer rest Hl. cbn. apply scan_neutral; [done|]. by rewrite blen_cons, blen_nil in Hl.
Qed.
Lemma passes_quoted s : plainString s = true -> passes (quoted s).
Proof. intros Hs opened buffer rest Hl. by apply scan_quoted. Qed.
Lemma passes_bracket c text : c = x7b \/ c = x5b -> passes text -> passes (c :: text ++ [closer c]).
Proof.
  intros Hc Ht opened buffer rest Hl. rewrite blen_cons, blen_app, blen_cons, blen_nil in Hl.
  pose proof (blen_nonneg text). cbn [app]. rewrite scan_open by (done || lia). rewrite <- app_assoc, Ht by lengths.
  cbn [app]. rewrite scan_close by (done || lengths). by rewrite <- !app_assoc.
Qed.
Lemma passes_separated gap l :
  Forall (fun c => neutral c = true) gap -> Forall passes l -> passes (separatedBy gap l).
Proof.
  intros Hg. induction 1 as [|x l Hx Hl IH]; [apply passes_nil|]. destruct l as [|y l]; [done|].
  change (separatedBy gap (x :: y :: l)) with (x ++ [x2c] ++ gap ++ separatedBy gap (y :: l)).
  apply passes_app; [done|]. apply passes_app; [by apply passes_neutral; repeat constructor|].
  apply passes_app; [by apply passes_neutral|done].
Qed.

Lemma digit_neutral c : isDigit c = true -> neutral c = true.
Proof. by destruct c. Qed.
Lemma passes_member gap k text :
  Forall (fun c => neutral c = true) gap -> plainString k = true -> passes text -> passes (quoted k ++ x3a :: gap ++ text).
Proof.
  intros Hg Hk Ht. apply passes_app; [by apply passes_quoted|].
  change (x3a :: gap ++ text) with ([x3a] ++ gap ++ text).
  apply passes_app; [by apply passes_neutral; repeat constructor|]. apply passes_app; [by apply passes_neutral|done].
Qed.
Lemma passes_json gap v :
  Forall (fun c => neutral c = true) gap -> plainJson v -> passes (jsonText gap v).
Proof.
  intros Hg. induction v as [| | | |l IH|m IH] using json_nested_ind; intros Hp; inversion Hp; subst; cbn [jsonText].
  - by apply passes_neutral; repeat constructor.
  - destruct b; by apply passes_neutral; repeat constructor.
  - apply passes_neutral. destruct (FormatInt_natural n) as (c & s & -> & Hd & _); [done|].
    eapply Forall_impl; [exact Hd|]. apply digit_neutral.
  - by apply passes_quoted.
  - apply (passes_bracket x5b); [by right|]. apply passes_separated; [done|].
    apply Forall_fmap, Forall_forall. intros v Hv. rewrite Forall_forall in IH. apply IH; [done|].
    by match goal with HF : Forall plainJson l |- _ => rewrite Forall_forall in HF; apply HF end.
  - apply (passes_bracket x7b); [by left|]. apply passes_separated; [done|].
    apply Forall_fmap, Forall_forall. intros [k v] Hv. cbn [fst snd].
    match goal with HF : Forall (fun e => plainString e.1 = true /\ _) m |- _ =>
      rewrite Forall_forall in HF; destruct (HF _ Hv) as [Hk Hpv] end. cbn [fst snd] in Hk, Hpv.
    rewrite Forall_forall in IH. apply passes_member; [done|done|]. by apply (IH (k, v)).
Qed.
(** The members of an object, between its brackets. *)
Definition membersText (gap : bytes) (m : list (bytes * json)) : bytes :=
  separatedBy gap (map (fun e => quoted e.1 ++ x3a :: gap ++ jsonText gap e.2) m).
Lemma passes_members gap m :
  Forall (fun c => neutral c = true) gap -> plainJson (JObject m) -> passes (membersText gap m).
Proof.
  intros Hg Hp. inversion Hp as [| | | | |? Hm]; subst. apply passes_separated; [done|].
  apply Forall_fmap, Forall_forall. intros [k v] Hv. rewrite Forall_forall in Hm. destruct (Hm _ Hv) as [Hk Hpv]. cbn [fst snd] in *.
  apply passes_member; [done|done|]. by apply passes_json.
Qed.
End framing.
