(* ===== verification/Stream.v ===== *)
(** * Streams: descriptors, creation, decryption

    Model of [blob/descriptor.go] and [blob/creator.go]: the SD blob that
    describes a stream, its validation, the creation of a stream from the content
    of a file, and the decryption of its blobs.  The file system gives the
    content, and the random source is the bytes it will yield. *)

From S2P Require Import Prelude Hex Utf8 Digest Aes Decimal Bencode Json.

#[local] Set Warnings "-register-all".

Definition MaxBlobSize : Z := 2 * 1024 * 1024.
Definition MaxStreamDescriptorSize : Z := MaxBlobSize.
Definition MaxStreamDescriptorBlobs : Z := 12000.
Definition BlobHashLength : Z := 96.
Definition aesBlockSize : Z := Z.of_nat BlockSize.

Record BlobInfo := MkBlob { b_BlobHash : bytes; b_BlobNum : Z; b_IV : bytes; b_Length : Z }.
Record StreamDescriptor := MkDescriptor {
  sd_StreamName : bytes;
  sd_Key : bytes;
  sd_SuggestedFileName : bytes;
  sd_StreamHash : bytes;
  sd_StreamType : bytes;
  sd_Blobs : list BlobInfo
}.

(** ** Hashes *)

Definition ValidHash (blobHash : bytes) : bool :=
  match hexDecode blobHash with Ok b => (length b =? 48)%nat | _ => false end.
(** [strings.ToLower] on a text of ASCII characters, the only ones [ValidHash]
    lets through. *)
Definition lowerByte (c : byte) : byte :=
  if (65 <=? Zb c) && (Zb c <=? 90) then byt (Zb c + 32) else c.
Definition canonicalBlobHash (value : bytes) : bool :=
  (blen value =? BlobHashLength) && bool_decide (value = map lowerByte value) && ValidHash value.

(** ** Decoding the JSON of a descriptor

    [json.Unmarshal] into the struct: members are matched to fields by folded
    name, later ones overwrite, [null] changes nothing, a value of another type
    is an error. *)

Fixpoint foldName (s : bytes) : bytes :=
  match s with
  | xc5 :: xbf :: s => "S"%byte :: foldName s          (* the long s *)
  | xe2 :: x84 :: xaa :: s => "K"%byte :: foldName s   (* the Kelvin sign *)
  | c :: s => (if (97 <=? Zb c) && (Zb c <=? 122) then byt (Zb c - 32) else c) :: foldName s
  | [] => []
  end.
Definition isField (name : string) (key : bytes) : bool :=
  bool_decide (foldName key = foldName (lit name)).

Definition ErrUnmarshal : string := "json: cannot unmarshal".
Definition decodeString (old : bytes) (v : json) : res bytes :=
  match v with JNull => Ok old | JString s => Ok s | _ => Err ErrUnmarshal end.
Definition decodeInt (old : Z) (v : json) : res Z :=
  match v with
  | JNull => Ok old
  | JNumber literal => map_err (fun _ => ErrUnmarshal) (ParseInt literal)
  | _ => Err ErrUnmarshal
  end.

Definition decodeBlobMember (b : BlobInfo) (e : bytes * json) : res BlobInfo :=
  if isField "blob_hash" e.1 then
    s ← decodeString (b_BlobHash b) e.2; Ok (MkBlob s (b_BlobNum b) (b_IV b) (b_Length b))
  else if isField "blob_num" e.1 then
    n ← decodeInt (b_BlobNum b) e.2; Ok (MkBlob (b_BlobHash b) n (b_IV b) (b_Length b))
  else if isField "iv" e.1 then
    s ← decodeString (b_IV b) e.2; Ok (MkBlob (b_BlobHash b) (b_BlobNum b) s (b_Length b))
  else if isField "length" e.1 then
    n ← decodeInt (b_Length b) e.2; Ok (MkBlob (b_BlobHash b) (b_BlobNum b) (b_IV b) n)
  else Ok b.
Fixpoint foldMembers {A B} (f : A -> B -> res A) (a : A) (l : list B) : res A :=
  match l with [] => Ok a | x :: l => a ← f a x; foldMembers f a l end.
Definition decodeBlob (old : BlobInfo) (v : json) : res BlobInfo :=
  match v with
  | JNull => Ok old
  | JObject m => foldMembers decodeBlobMember old m
  | _ => Err ErrUnmarshal
  end.

Definition zeroBlob : BlobInfo := MkBlob [] 0 [] 0.
(** Elements are decoded into those the slice already holds: a second array
    under the same key starts from what the first one left in the memory
    behind the slice, here [backing]. *)
Fixpoint decodeElements (backing : list BlobInfo) (l : list json) : res (list BlobInfo) :=
  match l with
  | [] => Ok []
  | v :: l =>
      b ← decodeBlob (hd zeroBlob backing) v;
      rest ← decodeElements (tl backing) l;
      Ok (b :: rest)
  end.

(** The struct being filled, and the memory behind its slice. *)
Definition decodeState : Type := StreamDescriptor * list BlobInfo.
Definition decodeMember (st : decodeState) (e : bytes * json) : res decodeState :=
  let '(d, backing) := st in
  let 'MkDescriptor name key suggested hash type blobs := d in
  if isField "stream_name" e.1 then
    s ← decodeString name e.2; Ok (MkDescriptor s key suggested hash type blobs, backing)
  else if isField "key" e.1 then
    s ← decodeString key e.2; Ok (MkDescriptor name s suggested hash type blobs, backing)
  else if isField "suggested_file_name" e.1 then
    s ← decodeString suggested e.2; Ok (MkDescriptor name key s hash type blobs, backing)
  else if isField "stream_hash" e.1 then
    s ← decodeString hash e.2; Ok (MkDescriptor name key suggested s type blobs, backing)
  else if isField "stream_type" e.1 then
    s ← decodeString type e.2; Ok (MkDescriptor name key suggested hash s blobs, backing)
  else if isField "blobs" e.1 then
    match e.2 with
    | JNull => Ok (MkDescriptor name key suggested hash type [], [])
    | JArray [] => Ok (MkDescriptor name key suggested hash type [], [])
    | JArray l =>
        decoded ← decodeElements backing l;
        Ok (MkDescriptor name key suggested hash type decoded, decoded ++ drop (length l) backing)
    | _ => Err ErrUnmarshal
    end
  else Ok st.
Definition unmarshalDescriptor (v : json) : res StreamDescriptor :=
  let zero := MkDescriptor [] [] [] [] [] [] in
  match v with
  | JNull => Ok zero
  | JObject m => fst <$> foldMembers decodeMember (zero, []) m
  | _ => Err ErrUnmarshal
  end.

Definition ParseDescriptor (data : bytes) : res StreamDescriptor :=
  if blen data =? 0 then Err "descriptor: empty blob"
  else if MaxStreamDescriptorSize <? blen data then Err "descriptor: size exceeds the resource limit"
  else
    sd ← map_err (fun e => "descriptor: parse: " ++ e)%string (v ← parseJson data; unmarshalDescriptor v);
    if (length (sd_Key sd) =? 0)%nat then Err "descriptor: missing key"
    else if (length (sd_Blobs sd) =? 0)%nat then Err "descriptor: no blobs"
    else Ok sd.

(** ** Encoding *)

Definition marshalBlob (item : BlobInfo) : bytes :=
  if (length (b_BlobHash item) =? 0)%nat then
    dq "{'blob_num': " ++ FormatInt (b_BlobNum item) ++ dq ", 'iv': " ++ quoted (b_IV item) ++
    dq ", 'length': " ++ FormatInt (b_Length item) ++ lit "}"
  else
    dq "{'blob_hash': " ++ quoted (b_BlobHash item) ++ dq ", 'blob_num': " ++ FormatInt (b_BlobNum item) ++
    dq ", 'iv': " ++ quoted (b_IV item) ++ dq ", 'length': " ++ FormatInt (b_Length item) ++ lit "}".
Definition marshalField (field : string * bytes) : bytes :=
  lit ", " ++ x22 :: lit field.1 ++ x22 :: lit ": " ++ quoted field.2.
Definition marshalPythonDescriptor (descriptor : StreamDescriptor) : bytes :=
  dq "{'blobs': [" ++ separated (map marshalBlob (sd_Blobs descriptor)) ++ lit "]" ++
  flat_map marshalField
    [("key"%string, sd_Key descriptor); ("stream_hash"%string, sd_StreamHash descriptor);
     ("stream_name"%string, sd_StreamName descriptor); ("stream_type"%string, sd_StreamType descriptor);
     ("suggested_file_name"%string, sd_SuggestedFileName descriptor)] ++ lit "}".
Definition MarshalDescriptor (descriptor : StreamDescriptor) : bytes := marshalPythonDescriptor descriptor.

(** The encoding without sorted keys; it ends at the terminator. *)
Definition marshalOldBlob (item : BlobInfo) : bytes :=
  dq "{'length': " ++ FormatInt (b_Length item) ++ dq ", 'blob_num': " ++ FormatInt (b_BlobNum item) ++
  (if (length (b_BlobHash item) =? 0)%nat then [] else dq ", 'blob_hash': " ++ quoted (b_BlobHash item)) ++
  dq ", 'iv': " ++ quoted (b_IV item) ++ lit "}".
Fixpoint throughTerminator (blobs : list BlobInfo) : list BlobInfo :=
  match blobs with
  | [] => []
  | b :: blobs => b :: if (length (b_BlobHash b) =? 0)%nat then [] else throughTerminator blobs
  end.
Definition MarshalOldSortDescriptor (descriptor : StreamDescriptor) : bytes :=
  dq "{'stream_name': " ++ quoted (sd_StreamName descriptor) ++ dq ", 'blobs': [" ++
  separated (map marshalOldBlob (throughTerminator (sd_Blobs descriptor))) ++ lit "]" ++
  flat_map marshalField
    [("stream_type"%string, sd_StreamType descriptor); ("key"%string, sd_Key descriptor);
     ("suggested_file_name"%string, sd_SuggestedFileName descriptor);
     ("stream_hash"%string, sd_StreamHash descriptor)] ++ lit "}".

(** ** Blobs *)

Definition pkcs7Unpad (data : bytes) : res bytes :=
  match last data with
  | None => Err "pkcs7: empty data"
  | Some pad =>
      let padLen := Zb pad in
      if (padLen =? 0) || (aesBlockSize <? padLen) || (blen data <? padLen) then Err "pkcs7: invalid padding"
      else
        let size := (length data - Z.to_nat padLen)%nat in
        if forallb (fun b => Byte.eqb b (byt padLen)) (drop size data) then Ok (take size data)
        else Err "pkcs7: inconsistent padding"
  end.

Definition DecryptBlob (encrypted keyHex ivHex : bytes) : res bytes :=
  key ← map_err (fun e => "decrypt: bad key hex: " ++ e)%string (hexDecode keyHex);
  iv ← map_err (fun e => "decrypt: bad iv hex: " ++ e)%string (hexDecode ivHex);
  if negb (length key =? 16)%nat then Err "decrypt: key must be 16 bytes"
  else if negb (length iv =? BlockSize)%nat then Err "decrypt: iv must be 16 bytes"
  else if (length encrypted =? 0)%nat || negb (length encrypted mod BlockSize =? 0)%nat
  then Err "decrypt: data length not aligned to block size"
  else map_err (fun e => "decrypt: " ++ e)%string
         (pkcs7Unpad (cbcDecrypt (length encrypted / BlockSize) key iv encrypted)).

(** The key has the length [aes.NewCipher] wants. *)
Definition encryptStreamBlob (key iv plaintext : bytes) : bytes :=
  let padding := (BlockSize - length plaintext mod BlockSize)%nat in
  let padded := plaintext ++ repeat (byt (Z.of_nat padding)) padding in
  cbcEncrypt (length padded / BlockSize) key iv padded.

Definition ContentBlobs (sd : StreamDescriptor) : list BlobInfo :=
  filter (fun b => 0 < b_Length b /\ b_BlobHash b <> []) (sd_Blobs sd).
Definition TotalSize (sd : StreamDescriptor) : Z :=
  fold_left (fun total b => i64 (total + b_Length b)) (ContentBlobs sd) 0.

(** ** File names *)

(** [filepath.Base] of a path with forward slashes. *)
Fixpoint dropWhile (p : byte -> bool) (s : bytes) : bytes :=
  match s with c :: rest => if p c then dropWhile p rest else s | [] => [] end.
Fixpoint takeWhile (p : byte -> bool) (s : bytes) : bytes :=
  match s with c :: rest => if p c then c :: takeWhile p rest else [] | [] => [] end.
Definition isSlash (c : byte) : bool := Byte.eqb c "/".
Definition filepathBase (path : bytes) : bytes :=
  match path with
  | [] => lit "."
  | _ =>
      match rev (takeWhile (fun c => negb (isSlash c)) (dropWhile isSlash (rev path))) with
      | [] => lit "/"
      | name => name
      end
  end.
(** [filepath.Ext]: from the last dot of the last element. *)
Fixpoint extLoop (acc : bytes) (reversed : bytes) : bytes :=
  match reversed with
  | [] => []
  | c :: rest =>
      if isSlash c then []
      else if Byte.eqb c "." then c :: acc
      else extLoop (c :: acc) rest
  end.
Definition filepathExt (path : bytes) : bytes := extLoop [] (rev path).

(** The class of [illegalFileName], whose matches are removed. *)
Definition illegalFileName (c : byte) : bool :=
  (Zb c <=? 0x1f) || bool_decide (c ∈ lit "<>:/\|?*") || Byte.eqb c x22.
Definition removeIllegal (s : bytes) : bytes := List.filter (fun c => negb (illegalFileName c)) s.
Definition sanitizePublishedFileName (name : bytes) : bytes :=
  let extension := filepathExt name in
  let base := take (length name - length extension) name in
  let base := TrimSpace (removeIllegal base) in
  let extension := TrimSpace (removeIllegal extension) in
  let base := if (length base =? 0)%nat then lit "lbry_download" else base in
  if (1 <? length extension)%nat then base ++ extension else base.

Section digests.
Context `{Digests}.

Definition hashBytes (data : bytes) : bytes := hexEncode (sha384 data).

Definition itemHash (item : BlobInfo) : bytes :=
  sha384 ((if b_Length item =? 0 then [] else b_BlobHash item) ++
          FormatInt (b_BlobNum item) ++ b_IV item ++ FormatInt (b_Length item)).
Definition calculateCreatedStreamHash (descriptor : StreamDescriptor) : bytes :=
  hexEncode (sha384 (sd_StreamName descriptor ++ sd_Key descriptor ++ sd_SuggestedFileName descriptor ++
                     sha384 (flat_map itemHash (sd_Blobs descriptor)))).
Definition CalculateStreamHash (descriptor : StreamDescriptor) : bytes := calculateCreatedStreamHash descriptor.

(** ** Validation *)

Definition validIV (iv : bytes) : bool :=
  match hexDecode iv with Ok b => (blen b =? aesBlockSize) | _ => false end.
(** The checks of the blob at [index], and the total after it. *)
Definition validateItem (last index total : Z) (item : BlobInfo) : res Z :=
  if negb (validIV (b_IV item)) then Err "descriptor: blob iv must be a 16-byte hex value"
  else if negb (b_BlobNum item =? index) then Err "descriptor: stream contains out of order or skipped blobs"
  else if (index <? last) && (b_Length item =? 0) then Err "descriptor: contains zero-length data blob"
  else if (index <? last) && (length (b_BlobHash item) =? 0)%nat then Err "descriptor: data blob has no hash"
  else if (index <? last) && ((b_Length item <? aesBlockSize) || (MaxBlobSize <? b_Length item) ||
                              negb (Z.rem (b_Length item) aesBlockSize =? 0))
  then Err "descriptor: blob length must be AES-aligned"
  else if (index <? last) && negb (canonicalBlobHash (b_BlobHash item))
  then Err "descriptor: data blob has an invalid hash"
  else if index <? last then
    let plainUpperBound := b_Length item - 1 in
    if max_i64 - plainUpperBound <? total then Err "descriptor: stream size exceeds the resource limit"
    else Ok (total + plainUpperBound)
  else Ok total.
Fixpoint validateItems (last index total : Z) (items : list BlobInfo) : res Z :=
  match items with
  | [] => Ok total
  | item :: items => total ← validateItem last index total item; validateItems last (index + 1) total items
  end.

Definition normalizeMetadata (source : bytes) : res bytes :=
  match hexDecode source with
  | Ok decoded =>
      if Valid decoded then Ok (hexEncode decoded)
      else Err "descriptor: invalid hex-encoded stream metadata"
  | _ => Err "descriptor: invalid hex-encoded stream metadata"
  end.

Definition ValidateDescriptor (descriptor : StreamDescriptor) : res unit :=
  match last (sd_Blobs descriptor) with
  | None => Err "descriptor: no blobs"
  | Some terminator =>
      if MaxStreamDescriptorBlobs <? blen (sd_Blobs descriptor)
      then Err "descriptor: blobs exceed the resource limit"
      else if negb (validIV (sd_Key descriptor)) then Err "descriptor: key must be a 16-byte hex value"
      else
        _ ← validateItems (blen (sd_Blobs descriptor) - 1) 0 0 (sd_Blobs descriptor);
        if negb (b_Length terminator =? 0) then Err "descriptor: does not end with a zero-length blob"
        else if negb (length (b_BlobHash terminator) =? 0)%nat
        then Err "descriptor: stream terminator blob should not have a hash"
        else if MaxStreamDescriptorSize <? blen (MarshalDescriptor descriptor)
        then Err "descriptor: encoded size exceeds the resource limit"
        else
          name ← normalizeMetadata (sd_StreamName descriptor);
          suggested ← normalizeMetadata (sd_SuggestedFileName descriptor);
          let normalized := MkDescriptor name (sd_Key descriptor) suggested (sd_StreamHash descriptor)
                              (sd_StreamType descriptor) (sd_Blobs descriptor) in
          if bool_decide (calculateCreatedStreamHash normalized = sd_StreamHash descriptor) then Ok tt
          else Err "descriptor: stream hash does not match stream metadata"
  end.

Definition DecodeDescriptor (sdHash data : bytes) : res StreamDescriptor :=
  if negb (canonicalBlobHash sdHash) then Err "descriptor: invalid sd hash"
  else if (blen data =? 0) || (MaxStreamDescriptorSize <? blen data) then ParseDescriptor data
  else if negb (bool_decide (hashBytes data = sdHash)) then Err "descriptor: sd blob hash does not match"
  else
    descriptor ← ParseDescriptor data;
    _ ← ValidateDescriptor descriptor;
    Ok descriptor.

(** ** Creation *)

Record CreatedStream := MkCreated {
  cs_Descriptor : StreamDescriptor;
  cs_DescriptorBytes : bytes;
  cs_SDHash : bytes;
  cs_Blobs : gmap bytes bytes
}.

(** [io.ReadFull] of [n] bytes. *)
Definition readFull (n : nat) (random : bytes) : res (bytes * bytes) :=
  if (length random <? n)%nat then Err "unexpected EOF" else Ok (take n random, drop n random).

(** The loop over the content; it ends with the blobs, their infos, and the rest
    of the random source. *)
Fixpoint createLoop (fuel : nat) (key content : bytes) (offset blobNum : Z) (random : bytes)
    (blobs : gmap bytes bytes) : res (list BlobInfo * gmap bytes bytes * bytes) :=
  if blen content <=? offset then Ok ([], blobs, random)
  else match fuel with
  | O => NoFuel
  | S fuel =>
      let end_ := Z.min (offset + MaxBlobSize - 1) (blen content) in
      '(iv, random) ← readFull BlockSize random;
      let encrypted := encryptStreamBlob key iv
        (take (Z.to_nat (end_ - offset)) (drop (Z.to_nat offset) content)) in
      let hash := hashBytes encrypted in
      '(infos, blobs, random) ← createLoop fuel key content end_ (blobNum + 1) random (<[hash := encrypted]> blobs);
      Ok (MkBlob hash blobNum (hexEncode iv) (blen encrypted) :: infos, blobs, random)
  end.

Definition dataBlobCount (content : bytes) : Z := Z.quot (blen content + MaxBlobSize - 2) (MaxBlobSize - 1).
Definition CreateStreamDescriptor (filePath : bytes) (file : res bytes) (random : bytes) : res CreatedStream :=
  content ← file;
  if blen content =? 0 then Err "cannot create stream from empty file"
  else if MaxStreamDescriptorBlobs <? dataBlobCount content + 1
  then Err "stream requires too many descriptor entries"
  else
    '(key, random) ← readFull BlockSize random;
    '(infos, created, random) ← createLoop (Z.to_nat (dataBlobCount content)) key content 0 0 random ∅;
    '(terminatorIV, _) ← readFull BlockSize random;
    let blobs := infos ++ [MkBlob [] (blen infos) (hexEncode terminatorIV) 0] in
    let fileName := filepathBase filePath in
    let unhashed := MkDescriptor (hexEncode fileName) (hexEncode key)
      (hexEncode (sanitizePublishedFileName fileName)) [] (lit "lbryfile") blobs in
    let descriptor := MkDescriptor (sd_StreamName unhashed) (sd_Key unhashed) (sd_SuggestedFileName unhashed)
      (calculateCreatedStreamHash unhashed) (sd_StreamType unhashed) blobs in
    _ ← ValidateDescriptor descriptor;
    let data := marshalPythonDescriptor descriptor in
    Ok (MkCreated descriptor data (hashBytes data) created).

(** ** Reading a stream ([blob/reader.go])

    [acquire] is what [Ensure] and [GetLocal] of the blob manager come to: the
    bytes of a blob, or the error of the walk.  The callback runs on a state. *)

Fixpoint walkBlobs {A} (acquire : bytes -> res bytes) (keyHex : bytes) (infos : list BlobInfo)
    (callback : BlobInfo -> bytes -> A -> res A) (a : A) : res A :=
  match infos with
  | [] => Ok a
  | info :: infos =>
      encrypted ← acquire (b_BlobHash info);
      decrypted ← map_err (fun e => "decrypt stream blob: " ++ e)%string
                    (DecryptBlob encrypted keyHex (b_IV info));
      a ← callback info decrypted a;
      walkBlobs acquire keyHex infos callback a
  end.
Definition WalkStreamRange {A} (acquire : bytes -> res bytes) (descriptor : StreamDescriptor) (first end_ : Z)
    (callback : BlobInfo -> bytes -> A -> res A) (a : A) : res A :=
  _ ← ValidateDescriptor descriptor;
  let contentCount := blen (sd_Blobs descriptor) - 1 in
  if (first <? 0) || (end_ <? first) || (contentCount <? end_) then Err "stream blob range is outside the stream"
  else walkBlobs acquire (sd_Key descriptor)
         (take (Z.to_nat (end_ - first)) (drop (Z.to_nat first) (sd_Blobs descriptor))) callback a.
Definition WalkStream {A} (acquire : bytes -> res bytes) (descriptor : StreamDescriptor)
    (callback : BlobInfo -> bytes -> A -> res A) (a : A) : res A :=
  WalkStreamRange acquire descriptor 0 (blen (sd_Blobs descriptor) - 1) callback a.
End digests.

(** ** Blobs decrypt to what was encrypted *)

Lemma pkcs7Unpad_pad p n :
  (1 <= n <= BlockSize)%nat -> pkcs7Unpad (p ++ repeat (byt (Z.of_nat n)) n) = Ok p.
Proof.
  unfold BlockSize. intros Hn. unfold pkcs7Unpad.
  assert (last (p ++ repeat (byt (Z.of_nat n)) n) = Some (byt (Z.of_nat n))) as ->.
  { destruct n as [|n]; [lia|]. rewrite last_app. replace (S n) with (n + 1)%nat by lia.
    by rewrite repeat_app, last_app. }
  rewrite Zb_byt_id by lia.
  destruct (Z.eqb_spec (Z.of_nat n) 0); [lia|]. unfold aesBlockSize, BlockSize.
  destruct (Z.ltb_spec (Z.of_nat 16) (Z.of_nat n)); [lia|].
  unfold blen. rewrite length_app, repeat_length.
  destruct (Z.ltb_spec (Z.of_nat (length p + n)) (Z.of_nat n)); [lia|]. cbn [orb].
  replace (length p + n - Z.to_nat (Z.of_nat n))%nat with (length p) by lia.
  rewrite drop_app_length, take_app_length.
  assert (forallb (fun b => Byte.eqb b (byt (Z.of_nat n))) (repeat (byt (Z.of_nat n)) n) = true) as ->; [|done].
  apply forallb_forall. intros b Hb. apply repeat_spec in Hb as ->. apply eqb_byte_refl.
Qed.

Definition paddedLength (n : nat) : nat := ((n / BlockSize + 1) * BlockSize)%nat.
Lemma encrypt_decrypt key iv p :
  isBlock key -> isBlock iv ->
  DecryptBlob (encryptStreamBlob key iv p) (hexEncode key) (hexEncode iv) = Ok p /\
  length (encryptStreamBlob key iv p) = paddedLength (length p).
Proof.
  intros Hk Hiv. unfold encryptStreamBlob. cbv zeta.
  set (n := (BlockSize - length p mod BlockSize)%nat).
  set (padded := p ++ repeat (byt (Z.of_nat n)) n).
  pose proof (Nat.mod_upper_bound (length p) BlockSize ltac:(done)) as Hm.
  pose proof (Nat.div_mod (length p) BlockSize ltac:(done)) as Hd.
  assert (length padded = ((length p / BlockSize + 1) * BlockSize)%nat) as Hl.
  { unfold padded. rewrite length_app, repeat_length. unfold n, BlockSize in *. lia. }
  rewrite Hl, Nat.div_mul by done.
  destruct (cbc_roundtrip (length p / BlockSize + 1) key iv padded (isBlock_isKey _ Hk) Hiv Hl) as [E Hc].
  split; [|done]. unfold DecryptBlob. rewrite !hexDecode_encode. cbn [map_err mbind res_bind].
  unfold isBlock in Hk, Hiv. rewrite Hk, Hiv. cbn [Nat.eqb negb BlockSize].
  rewrite Hc. destruct (Nat.eqb_spec ((length p / BlockSize + 1) * BlockSize) 0); [unfold BlockSize in *; lia|].
  rewrite Nat.Div0.mod_mul, Nat.div_mul by done. cbn [Nat.eqb negb orb]. rewrite E.
  unfold padded. rewrite pkcs7Unpad_pad; [done|]. unfold n, BlockSize in *. lia.
Qed.

Lemma hexDecode_returns s : returns (hexDecode s).
Proof.
  assert (forall n s, (length s <= n)%nat -> returns (hexDecode s)) as Hn; [|by apply (Hn (length s))].
  clear s. intros n. induction n as [|n IH]; intros [|a [|b s]] Hl; cbn in *; try done; try lia.
  - by destruct (unhexDigit a).
  - destruct (unhexDigit a), (unhexDigit b); try done. apply returns_bind; [apply IH; lia|done].
Qed.
Lemma foldMembers_returns {A B} (f : A -> B -> res A) a l : (forall a x, returns (f a x)) -> returns (foldMembers f a l).
Proof. intros Hf. revert a. induction l as [|x l IH]; intros a; cbn; [done|]. apply returns_bind; [done|]. intros. apply IH. Qed.
Lemma decodeString_returns old v : returns (decodeString old v).
Proof. by destruct v. Qed.
Lemma decodeInt_returns old v : returns (decodeInt old v).
Proof. destruct v; [done|done| |done..]. apply returns_map_err, ParseInt_returns. Qed.
Lemma ValidateDescriptor_returns `{Digests} d : returns (ValidateDescriptor d).
Proof.
  unfold ValidateDescriptor. destruct (last (sd_Blobs d)) as [t|]; [|done].
  destruct (_ <? _); [done|]. destruct (negb _); [done|].
  apply returns_bind.
  - assert (forall blobs l n total, returns (validateItems l n total blobs)) as Hi; [|apply Hi].
    clear. intros blobs. induction blobs as [|b blobs IH]; intros l n total; [done|]. cbn [validateItems]. apply returns_bind; [|intros; apply IH]. unfold validateItem.
    repeat (destruct (negb _) || destruct (_ && _) || destruct (_ <? _)); done.
  - intros _ _. repeat (destruct (negb _); [done|]). destruct (_ <? _); [done|].
    assert (forall s, returns (normalizeMetadata s)) as Hm.
    { intros s. unfold normalizeMetadata. destruct (hexDecode s); try done. by destruct (Valid _). }
    apply returns_bind; [apply Hm|]. intros name _. apply returns_bind; [apply Hm|]. intros suggested _.
    by destruct (bool_decide _).
Qed.

(** ** Creating *)

Section creation.
Context `{Digests}.

(** A piece of the content with the initialisation vector drawn for it. *)
Abbreviation piece := (bytes * bytes)%type.
Definition sealed (key : bytes) (p : piece) : bytes := encryptStreamBlob key p.1 p.2.
Definition infoOf (key : bytes) (n : Z) (p : piece) : BlobInfo :=
  MkBlob (hashBytes (sealed key p)) n (hexEncode p.1) (blen (sealed key p)).
Fixpoint infosFrom (key : bytes) (n : Z) (pieces : list piece) : list BlobInfo :=
  match pieces with [] => [] | p :: pieces => infoOf key n p :: infosFrom key (n + 1) pieces end.
Definition pieceOk (p : piece) : Prop := isBlock p.1 /\ 0 < blen p.2 < MaxBlobSize.
Definition fullPiece (p : piece) : Prop := blen p.2 = MaxBlobSize - 1.

(** Every key of the map is the hash of its blob. *)
Definition hashed (blobs : gmap bytes bytes) : Prop :=
  forall h encrypted, blobs !! h = Some encrypted -> h = hashBytes encrypted.

Lemma readFull_Ok n random a rest :
  readFull n random = Ok (a, rest) -> length a = n /\ random = a ++ rest.
Proof.
  unfold readFull. destruct (Nat.ltb_spec (length random) n); [done|]. intros [= <- <-].
  by rewrite length_take, take_drop, Nat.min_l.
Qed.

Lemma createLoop_spec fuel key content offset n random blobs infos blobs' random' :
  createLoop fuel key content offset n random blobs = Ok (infos, blobs', random') ->
  0 <= offset -> hashed blobs ->
  exists pieces, infos = infosFrom key n pieces /\
    concat (map snd pieces) = drop (Z.to_nat offset) content /\
    Forall pieceOk pieces /\ Forall fullPiece (removelast pieces) /\
    hashed blobs' /\ (forall h, is_Some (blobs !! h) -> is_Some (blobs' !! h)) /\
    Forall (fun p => is_Some (blobs' !! hashBytes (sealed key p))) pieces.
Proof.
  revert offset n random blobs infos blobs' random'.
  induction fuel as [|fuel IH]; intros offset n random blobs infos blobs' random' Hc Ho Hb; cbn [createLoop] in Hc;
    (destruct (Z.leb_spec (blen content) offset);
      [injection Hc as <- <- <-; exists []; unfold blen in *; rewrite drop_ge by lia; by split_and!|]); [done|].
  set (end_ := Z.min (offset + MaxBlobSize - 1) (blen content)) in *.
  apply res_bind_Ok in Hc as ([iv rest] & Hiv & Hc). apply readFull_Ok in Hiv as [Hiv _].
  set (chunk := take (Z.to_nat (end_ - offset)) (drop (Z.to_nat offset) content)) in *.
  apply res_bind_Ok in Hc as ([[infos1 blobs1] random1] & Hrec & [= <- <- <-]).
  assert (offset < end_ <= blen content) as Hend by (unfold end_, MaxBlobSize in *; lia).
  assert (blen chunk = end_ - offset) as Hchunk.
  { unfold chunk, blen in *. rewrite length_take, length_drop. unfold MaxBlobSize in *. lia. }
  apply IH in Hrec as (pieces & -> & Hcat & Hok & Hfull & Hh & Hin & Hall);
    [|unfold MaxBlobSize in *; lia|].
  - exists ((iv, chunk) :: pieces). cbn [infosFrom map concat snd].
    assert (concat (map snd pieces) = [] -> pieces = []) as Hnil.
    { destruct pieces as [|[iv' c'] pieces]; [done|]. inversion Hok as [|? ? [_ Hlen] _]; subst.
      cbn in *. destruct c'; [unfold blen in Hlen; cbn in Hlen; lia|done]. }
    split_and!; try done.
    + rewrite Hcat. unfold chunk.
      rewrite <- (take_drop (Z.to_nat (end_ - offset)) (drop (Z.to_nat offset) content)) at 2.
      rewrite drop_drop. do 2 f_equal. lia.
    + constructor; [|done]. split; [done|]. cbn. rewrite Hchunk. unfold MaxBlobSize in *. lia.
    + destruct pieces as [|p pieces]; [constructor|]. change (removelast ((iv, chunk) :: p :: pieces))
        with ((iv, chunk) :: removelast (p :: pieces)). constructor; [|done].
      unfold fullPiece. cbn [snd]. rewrite Hchunk.
      destruct (decide (end_ = blen content)) as [E|].
      * exfalso. rewrite E in Hcat. unfold blen in Hcat. rewrite Nat2Z.id, drop_all in Hcat. by apply Hnil in Hcat.
      * unfold MaxBlobSize in *. lia.
    + intros h Hs. apply Hin. rewrite lookup_insert_is_Some'. by right.
    + constructor; [|done]. apply Hin. rewrite lookup_insert_is_Some'. by left.
  - intros h e. rewrite lookup_insert_Some. intros [[<- <-]|[_ Hs]]; [done|by apply Hb].
Qed.

(** The count of blobs is enough fuel. *)
Lemma createLoop_returns fuel key content offset n random blobs :
  0 <= offset -> blen content - offset <= Z.of_nat fuel * (MaxBlobSize - 1) ->
  returns (createLoop fuel key content offset n random blobs).
Proof.
  revert offset n random blobs. induction fuel as [|fuel IH]; intros offset n random blobs Ho Hf; cbn [createLoop];
    (destruct (Z.leb_spec (blen content) offset); [done|]); [lia|].
  unfold readFull. destruct (length random <? BlockSize)%nat; [done|]. cbn [mbind res_bind].
  apply returns_bind; [|by intros [[? ?] ?] _]. apply IH; unfold MaxBlobSize in *; lia.
Qed.
End creation.

(** ** The descriptor as JSON *)

Definition blobJson (b : BlobInfo) : json :=
  JObject ((if (length (b_BlobHash b) =? 0)%nat then [] else [(lit "blob_hash", JString (b_BlobHash b))]) ++
           [(lit "blob_num", JNumber (FormatInt (b_BlobNum b))); (lit "iv", JString (b_IV b));
            (lit "length", JNumber (FormatInt (b_Length b)))]).
Definition descriptorJson (d : StreamDescriptor) : json :=
  JObject [(lit "blobs", JArray (map blobJson (sd_Blobs d))); (lit "key", JString (sd_Key d));
           (lit "stream_hash", JString (sd_StreamHash d)); (lit "stream_name", JString (sd_StreamName d));
           (lit "stream_type", JString (sd_StreamType d));
           (lit "suggested_file_name", JString (sd_SuggestedFileName d))].

Lemma marshalBlob_json b : marshalBlob b = pythonJson (blobJson b).
Proof.
  unfold marshalBlob, blobJson.
  change (dq "{'blob_num': ") with (lit "{" ++ quoted (lit "blob_num") ++ lit ": ").
  change (dq "{'blob_hash': ") with (lit "{" ++ quoted (lit "blob_hash") ++ lit ": ").
  change (dq ", 'blob_num': ") with (lit ", " ++ quoted (lit "blob_num") ++ lit ": ").
  change (dq ", 'iv': ") with (lit ", " ++ quoted (lit "iv") ++ lit ": ").
  change (dq ", 'length': ") with (lit ", " ++ quoted (lit "length") ++ lit ": ").
  destruct (length (b_BlobHash b) =? 0)%nat; cbn [app jsonText map separatedBy fst snd];
    repeat change (x3a :: x20 :: ?t) with (lit ": " ++ t); repeat change (x2c :: x20 :: ?t) with (lit ", " ++ t);
    by rewrite <- !app_assoc.
Qed.
Lemma marshal_json d : marshalPythonDescriptor d = pythonJson (descriptorJson d).
Proof.
  unfold marshalPythonDescriptor, descriptorJson. cbn [app jsonText map separatedBy fst snd flat_map].
  repeat change (x3a :: x20 :: ?t) with (lit ": " ++ t). repeat change (x2c :: x20 :: ?t) with (lit ", " ++ t).
  rewrite map_map. rewrite (map_ext _ _ marshalBlob_json).
  change (dq "{'blobs': [") with (lit "{" ++ quoted (lit "blobs") ++ lit ": " ++ lit "[").
  assert (forall k v, quoted (lit k) = x22 :: lit k ++ [x22] ->
            marshalField (k, v) = lit ", " ++ quoted (lit k) ++ lit ": " ++ quoted v) as Hf.
  { intros k v ->. unfold marshalField. cbn [fst snd]. cbn [app]. by rewrite <- app_assoc. }
  rewrite !Hf by reflexivity. rewrite app_nil_r. by rewrite <- !app_assoc.
Qed.

Lemma plainString_hex l : plainString (hexEncode l) = true.
Proof. unfold plainString. induction l as [|b l IH]; [done|]. cbn [hexEncode forallb]. rewrite IH. by destruct b. Qed.
Lemma lower_hex l : map lowerByte (hexEncode l) = hexEncode l.
Proof. induction l as [|b l IH]; [done|]. cbn [hexEncode map]. rewrite IH. f_equal; [|f_equal]; by destruct b. Qed.

Definition plainBlob (b : BlobInfo) : Prop :=
  plainString (b_BlobHash b) = true /\ plainString (b_IV b) = true /\
  0 <= b_BlobNum b <= max_i64 /\ 0 <= b_Length b <= max_i64.
Definition plainDescriptor (d : StreamDescriptor) : Prop :=
  plainString (sd_StreamName d) = true /\ plainString (sd_Key d) = true /\
  plainString (sd_SuggestedFileName d) = true /\ plainString (sd_StreamHash d) = true /\
  plainString (sd_StreamType d) = true /\ Forall plainBlob (sd_Blobs d).

Lemma blobJson_plain b : plainBlob b -> plainJson (blobJson b).
Proof.
  intros (Hh & Hi & Hn & Hl). constructor.
  assert (forall k v, plainString k = true -> plainJson v -> plainString (k, v).1 = true /\ plainJson (k, v).2) as He
    by done.
  destruct (length (b_BlobHash b) =? 0)%nat; repeat constructor; cbn; try done; lia.
Qed.
Lemma descriptorJson_plain d : plainDescriptor d -> plainJson (descriptorJson d).
Proof.
  intros (? & ? & ? & ? & ? & Hb). constructor. repeat constructor; cbn; try done.
  apply Forall_map. eapply Forall_impl; [exact Hb|apply blobJson_plain].
Qed.
Lemma descriptorJson_height d : (jsonHeight (descriptorJson d) <= 3)%nat.
Proof.
  cbn [descriptorJson jsonHeight map snd list_max foldr].
  assert (list_max (map jsonHeight (map blobJson (sd_Blobs d))) <= 1)%nat as Hm; [|unfold list_max in *; cbn in *; lia].
  apply list_max_le, Forall_map, Forall_map, Forall_forall. intros b _. unfold blobJson.
  by destruct (length (b_BlobHash b) =? 0)%nat; cbn; lia.
Qed.

Ltac fields :=
  repeat match goal with
  | |- context [isField ?a (lit ?b)] =>
      let v := eval vm_compute in (isField a (lit b)) in change (isField a (lit b)) with v; cbn iota
  end.
Lemma foldMembers_cons {A B} (f : A -> B -> res A) a x l :
  foldMembers f a (x :: l) = (a ← f a x; foldMembers f a l).
Proof. done. Qed.
Lemma decodeBlob_json b : plainBlob b -> decodeBlob zeroBlob (blobJson b) = Ok b.
Proof.
  intros (_ & _ & Hn & Hl). destruct b as [hash num iv len]. cbn [b_BlobHash b_BlobNum b_IV b_Length] in *.
  assert (forall b0, foldMembers decodeBlobMember b0
    [(lit "blob_num", JNumber (FormatInt num)); (lit "iv", JString iv); (lit "length", JNumber (FormatInt len))]
    = Ok (MkBlob (b_BlobHash b0) num iv len)) as Htail.
  { intros [h0 n0 i0 l0]. cbn [foldMembers]. unfold decodeBlobMember at 1. cbn [fst snd]. fields.
    cbn [decodeInt]. rewrite ParseInt_Format by (unfold min_i64, max_i64 in *; lia). cbn [map_err mbind res_bind].
    unfold decodeBlobMember at 1. cbn [fst snd]. fields. cbn [decodeString mbind res_bind].
    unfold decodeBlobMember at 1. cbn [fst snd]. fields. cbn [decodeInt].
    rewrite ParseInt_Format by (unfold min_i64, max_i64 in *; lia). done. }
  unfold blobJson. cbn [b_BlobHash b_BlobNum b_IV b_Length].
  destruct (Nat.eqb_spec (length hash) 0) as [E|E]; cbn iota; cbn [app];
    change (decodeBlob zeroBlob (JObject ?m)) with (foldMembers decodeBlobMember zeroBlob m).
  - rewrite Htail. cbn. by apply nil_length_inv in E as ->.
  - rewrite foldMembers_cons.
    change (decodeBlobMember zeroBlob (lit "blob_hash", JString hash)) with (Ok (MkBlob hash 0 [] 0)).
    cbn [mbind res_bind]. by rewrite Htail.
Qed.
Lemma decodeElements_json blobs : Forall plainBlob blobs -> decodeElements [] (map blobJson blobs) = Ok blobs.
Proof.
  induction 1 as [|b blobs Hb Hbs IH]; [done|]. cbn [map decodeElements hd tl].
  rewrite decodeBlob_json by done. cbn [mbind res_bind]. by rewrite IH.
Qed.
Lemma decodeMember_blobs d blobs :
  Forall plainBlob blobs -> blobs <> [] ->
  decodeMember (d, []) (lit "blobs", JArray (map blobJson blobs)) =
    Ok (MkDescriptor (sd_StreamName d) (sd_Key d) (sd_SuggestedFileName d) (sd_StreamHash d)
          (sd_StreamType d) blobs, blobs).
Proof.
  intros Hb Hne. destruct d as [name key suggested hash type old]. unfold decodeMember. cbn [fst snd]. fields.
  assert (match map blobJson blobs with [] => Ok (MkDescriptor name key suggested hash type [], [])
          | _ :: _ => decoded ← decodeElements [] (map blobJson blobs);
              Ok (MkDescriptor name key suggested hash type decoded,
                  decoded ++ drop (length (map blobJson blobs)) []) end
        = Ok (MkDescriptor name key suggested hash type blobs, blobs)) as E; [|destruct (map blobJson blobs); apply E].
  rewrite decodeElements_json by done. cbn [mbind res_bind]. rewrite drop_nil, app_nil_r. by destruct blobs.
Qed.
Lemma unmarshal_json d : plainDescriptor d -> sd_Blobs d <> [] -> unmarshalDescriptor (descriptorJson d) = Ok d.
Proof.
  intros (_ & _ & _ & _ & _ & Hb) Hne. destruct d as [name key suggested hash type blobs].
  cbn [sd_Blobs] in *. unfold unmarshalDescriptor, descriptorJson.
  cbn [sd_StreamName sd_Key sd_SuggestedFileName sd_StreamHash sd_StreamType sd_Blobs].
  rewrite foldMembers_cons, decodeMember_blobs by done. reflexivity.
Qed.

Lemma parse_marshal d :
  plainDescriptor d -> sd_Key d <> [] -> sd_Blobs d <> [] ->
  blen (marshalPythonDescriptor d) <= MaxStreamDescriptorSize ->
  ParseDescriptor (marshalPythonDescriptor d) = Ok d.
Proof.
  intros Hp Hk Hb Hs. unfold ParseDescriptor.
  assert (4 <= length (marshalPythonDescriptor d))%nat as Hl.
  { unfold marshalPythonDescriptor. rewrite length_app. cbn [dq lit]. vm_compute (length (dq _)). lia. }
  unfold blen at 1. destruct (Z.eqb_spec (Z.of_nat (length (marshalPythonDescriptor d))) 0); [lia|].
  destruct (Z.ltb_spec MaxStreamDescriptorSize (blen (marshalPythonDescriptor d))); [lia|].
  pose proof (descriptorJson_height d) as Hh. rewrite marshal_json in *.
  rewrite parseJson_python; [|by apply descriptorJson_plain|lia|].
  2: { etrans; [exact Hh|]. apply Nat.leb_le. vm_compute. reflexivity. }
  cbn [mbind res_bind map_err]. rewrite unmarshal_json by done. cbn [map_err mbind res_bind].
  destruct (Nat.eqb_spec (length (sd_Key d)) 0) as [E|]; [by apply nil_length_inv in E|].
  destruct (Nat.eqb_spec (length (sd_Blobs d)) 0) as [E|]; [by apply nil_length_inv in E|]. done.
Qed.

(** ** What a created stream promises *)

Section promises.
Context `{Digests}.

Lemma hashBytes_canonical data : canonicalBlobHash (hashBytes data) = true.
Proof.
  unfold canonicalBlobHash, hashBytes, blen, ValidHash.
  rewrite length_hexEncode, sha384_length, lower_hex, bool_decide_eq_true_2, hexDecode_encode, sha384_length by done.
  done.
Qed.
#[export] Instance hashBytes_collision a b : Decision (hashBytes a = hashBytes b).
Proof. apply _. Defined.

(** Two blobs with the same hash. *)
Definition blobCollision : Prop := exists a b, a <> b /\ sha384 a = sha384 b.

Lemma hashed_lookup (blobs : gmap bytes bytes) e :
  hashed blobs -> is_Some (blobs !! hashBytes e) -> blobs !! hashBytes e = Some e \/ blobCollision.
Proof.
  intros Hh [e' He]. destruct (decide (e' = e)) as [->|Hne]; [by left|right].
  exists e', e. split; [done|]. apply Hh in He. by apply (inj hexEncode) in He.
Qed.
Lemma pieces_lookup (blobs : gmap bytes bytes) key pieces :
  hashed blobs -> Forall (fun p => is_Some (blobs !! hashBytes (sealed key p))) pieces ->
  Forall (fun p => blobs !! hashBytes (sealed key p) = Some (sealed key p)) pieces \/ blobCollision.
Proof.
  intros Hh. induction 1 as [|p pieces Hp Hps [IH|IH]]; [by left| |by right].
  destruct (hashed_lookup blobs (sealed key p) Hh Hp); [left; by constructor|by right].
Qed.

(** What a blob manager that has these blobs answers. *)
Definition fromBlobs (blobs : gmap bytes bytes) (hash : bytes) : res bytes :=
  match blobs !! hash with Some e => Ok e | None => Err "stream blob is unavailable" end.

(** Walking the pieces hands their content to the callback, in order. *)
Fixpoint foldPieces {A : Type} (key : bytes) (n : Z) (pieces : list (bytes * bytes))
    (callback : BlobInfo -> bytes -> A -> res A) (a : A) : res A :=
  match pieces with
  | [] => Ok a
  | p :: pieces => a ← callback (infoOf key n p) p.2 a; foldPieces key (n + 1) pieces callback a
  end.
Lemma walkBlobs_pieces {A : Type} (blobs : gmap bytes bytes) key n pieces (callback : BlobInfo -> bytes -> A -> res A) a :
  isBlock key -> Forall pieceOk pieces ->
  Forall (fun p => blobs !! hashBytes (sealed key p) = Some (sealed key p)) pieces ->
  walkBlobs (fromBlobs blobs) (hexEncode key) (infosFrom key n pieces) callback a
    = foldPieces key n pieces callback a.
Proof.
  intros Hk Hok Hin. revert n a. induction Hok as [|[iv chunk] pieces [Hiv Hlen] Hok IH]; intros n a; [done|].
  inversion Hin as [|? ? Hp Hps]; subst. cbn [infosFrom walkBlobs foldPieces infoOf b_BlobHash b_IV].
  assert (fromBlobs blobs (hashBytes (sealed key (iv, chunk))) = Ok (sealed key (iv, chunk))) as ->
    by (unfold fromBlobs; by rewrite Hp).
  cbn [mbind res_bind]. unfold sealed. cbn [fst snd].
  rewrite (proj1 (encrypt_decrypt key iv chunk Hk Hiv)). cbn [map_err mbind res_bind].
  destruct (callback _ _ a); [|done..]. cbn [mbind res_bind]. by apply IH.
Qed.
Definition appendContent (_ : BlobInfo) (data acc : bytes) : res bytes := Ok (acc ++ data).
Lemma foldPieces_append key n pieces acc :
  foldPieces key n pieces appendContent acc = Ok (acc ++ concat (map snd pieces)).
Proof.
  revert n acc. induction pieces as [|p pieces IH]; intros n acc; cbn; [by rewrite app_nil_r|].
  rewrite IH. cbn. by rewrite <- app_assoc.
Qed.

Lemma length_infosFrom key n pieces : length (infosFrom key n pieces) = length pieces.
Proof. revert n. induction pieces as [|p pieces IH]; intros n; cbn; [done|]. by rewrite IH. Qed.
Lemma paddedLength_bound p : pieceOk p -> 0 < Z.of_nat (paddedLength (length p.2)) <= MaxBlobSize.
Proof.
  intros [_ Hl]. unfold paddedLength, MaxBlobSize, blen in *.
  pose proof (Nat.div_mod (length p.2) BlockSize ltac:(done)).
  pose proof (Nat.mod_upper_bound (length p.2) BlockSize ltac:(done)). unfold BlockSize in *.
  assert (Z.of_nat (length p.2 / 16) < 131072); [|lia].
  rewrite Nat2Z.inj_div. apply Z.div_lt_upper_bound; lia.
Qed.
Lemma infosFrom_plain key n pieces :
  isBlock key -> Forall pieceOk pieces -> 0 <= n -> n + blen pieces <= max_i64 ->
  Forall plainBlob (infosFrom key n pieces).
Proof.
  intros Hk Hok. revert n. induction Hok as [|p pieces Hp Hok IH]; intros n Hn Hm; [constructor|].
  unfold blen in Hm. cbn [length] in Hm. cbn [infosFrom].
  constructor; [|apply IH; unfold blen; lia]. destruct Hp as [Hiv Hl].
  pose proof (paddedLength_bound p (conj Hiv Hl)).
  unfold plainBlob, infoOf. cbn [b_BlobHash b_IV b_BlobNum b_Length]. unfold hashBytes. rewrite !plainString_hex.
  unfold blen, sealed. rewrite (proj2 (encrypt_decrypt key p.1 p.2 Hk Hiv)).
  split_and!; try done; unfold max_i64, MaxBlobSize in *; lia.
Qed.

(** A created stream, taken apart. *)
Lemma createStream_Ok path content random created :
  CreateStreamDescriptor path (Ok content) random = Ok created ->
  exists key pieces iv name suggested,
    isBlock key /\ isBlock iv /\ Forall pieceOk pieces /\ Forall fullPiece (removelast pieces) /\
    pieces <> [] /\ concat (map snd pieces) = content /\
    hashed (cs_Blobs created) /\
    Forall (fun p => is_Some (cs_Blobs created !! hashBytes (sealed key p))) pieces /\
    sd_Key (cs_Descriptor created) = hexEncode key /\
    sd_StreamName (cs_Descriptor created) = hexEncode name /\
    sd_SuggestedFileName (cs_Descriptor created) = hexEncode suggested /\
    sd_StreamType (cs_Descriptor created) = lit "lbryfile" /\
    plainString (sd_StreamHash (cs_Descriptor created)) = true /\
    sd_Blobs (cs_Descriptor created) =
      infosFrom key 0 pieces ++ [MkBlob [] (blen pieces) (hexEncode iv) 0] /\
    ValidateDescriptor (cs_Descriptor created) = Ok tt /\
    cs_DescriptorBytes created = marshalPythonDescriptor (cs_Descriptor created) /\
    cs_SDHash created = hashBytes (cs_DescriptorBytes created).
Proof.
  unfold CreateStreamDescriptor. cbn [mbind res_bind].
  destruct (Z.eqb_spec (blen content) 0) as [|Hne]; [done|].
  destruct (MaxStreamDescriptorBlobs <? dataBlobCount content + 1); [done|].
  intros Hc. apply res_bind_Ok in Hc as ([key random1] & Hkey & Hc). apply readFull_Ok in Hkey as [Hkey _].
  apply res_bind_Ok in Hc as ([[infos blobs] random2] & Hloop & Hc).
  apply res_bind_Ok in Hc as ([iv random3] & Hiv & Hc). apply readFull_Ok in Hiv as [Hiv _].
  apply createLoop_spec in Hloop as (pieces & -> & Hcat & Hok & Hfull & Hh & _ & Hin); [|lia|by intros ? ?].
  apply res_bind_Ok in Hc as ([] & Hv & [= <-]). cbn [cs_Descriptor cs_DescriptorBytes cs_SDHash cs_Blobs].
  cbn [sd_Key sd_StreamName sd_SuggestedFileName sd_StreamType sd_StreamHash sd_Blobs] in *.
  exists key, pieces, iv, (filepathBase path), (sanitizePublishedFileName (filepathBase path)).
  split_and!; try done.
  - intros ->. cbn in Hcat. rewrite drop_0 in Hcat. subst content. by apply Hne.
  - apply plainString_hex.
  - unfold blen. by rewrite length_infosFrom.
Qed.

Lemma create_plain path content random created :
  CreateStreamDescriptor path (Ok content) random = Ok created -> plainDescriptor (cs_Descriptor created).
Proof.
  intros (key & pieces & iv & name & suggested & Hk & Hiv & Hok & _ & _ & _ & _ & _ & Ek & En & Es & Et & Eh & Eb & Hv & _)%createStream_Ok.
  unfold plainDescriptor. rewrite Ek, En, Es, Et, Eb, !plainString_hex. split_and!; try done.
  assert (blen (sd_Blobs (cs_Descriptor created)) <= MaxStreamDescriptorBlobs) as Hmax.
  { unfold ValidateDescriptor in Hv. destruct (last _); [|done].
    by destruct (Z.ltb_spec MaxStreamDescriptorBlobs (blen (sd_Blobs (cs_Descriptor created)))). }
  rewrite Eb, blen_app in Hmax. unfold blen in Hmax. rewrite length_infosFrom in Hmax. cbn [length] in Hmax.
  unfold MaxStreamDescriptorBlobs in Hmax.
  apply Forall_app. split; [apply infosFrom_plain; try done; unfold blen, max_i64; lia|].
  constructor; [|constructor]. unfold plainBlob. cbn [b_BlobHash b_IV b_BlobNum b_Length].
  rewrite plainString_hex. unfold blen, max_i64. split_and!; try done; lia.
Qed.

Lemma create_size path content random created :
  CreateStreamDescriptor path (Ok content) random = Ok created ->
  0 < blen (cs_DescriptorBytes created) <= MaxStreamDescriptorSize.
Proof.
  intros (? & pieces & iv & ? & ? & _ & _ & _ & _ & _ & _ & _ & _ & _ & _ & _ & _ & _ & Eb & Hv & -> & _)%createStream_Ok.
  split.
  - unfold marshalPythonDescriptor. rewrite blen_app. pose proof (blen_nonneg
      (separated (map marshalBlob (sd_Blobs (cs_Descriptor created))))).
    assert (0 < blen (dq "{'blobs': [")) by (vm_compute; reflexivity).
    rewrite blen_app. match goal with |- 0 < _ + (_ + ?x) => assert (0 <= x) by apply blen_nonneg end. lia.
  - unfold ValidateDescriptor in Hv. destruct (last _); [|done].
    destruct (_ <? _); [done|]. destruct (negb _); [done|].
    apply res_bind_Ok in Hv as (t & _ & Hv). destruct (negb _); [done|]. destruct (negb _); [done|].
    by destruct (Z.ltb_spec MaxStreamDescriptorSize (blen (MarshalDescriptor (cs_Descriptor created)))).
Qed.

(** The content blobs are the data blobs: every blob but the terminator. *)
Lemma WalkStream_created {A} path content random created (callback : BlobInfo -> bytes -> A -> res A) a :
  CreateStreamDescriptor path (Ok content) random = Ok created ->
  (exists key pieces, isBlock key /\ Forall pieceOk pieces /\ Forall fullPiece (removelast pieces) /\
     pieces <> [] /\ concat (map snd pieces) = content /\
     (exists terminator, sd_Blobs (cs_Descriptor created) = infosFrom key 0 pieces ++ [terminator]) /\
     WalkStream (fromBlobs (cs_Blobs created)) (cs_Descriptor created) callback a = foldPieces key 0 pieces callback a) \/
  blobCollision.
Proof.
  intros (key & pieces & iv & name & suggested & Hk & Hiv & Hok & Hfull & Hne & Hcat & Hh & Hin & Ek & _ & _ & _ & _ & Eb & Hv & _)%createStream_Ok.
  destruct (pieces_lookup _ key pieces Hh Hin) as [Hlook|]; [left|by right].
  exists key, pieces. split_and!; try done; [by eexists|].
  unfold WalkStream, WalkStreamRange. rewrite Hv, Eb, Ek. cbn [mbind res_bind].
  assert (blen (infosFrom key 0 pieces ++ [MkBlob [] (blen pieces) (hexEncode iv) 0]) - 1 = blen pieces) as ->.
  { rewrite blen_app. unfold blen. rewrite length_infosFrom. cbn [length]. lia. }
  pose proof (blen_nonneg pieces). destruct (Z.ltb_spec (blen pieces) 0); [lia|]. rewrite !Z.ltb_irrefl.
  cbn [orb]. change (Z.to_nat 0) with 0%nat. rewrite drop_0.
  replace (Z.to_nat (blen pieces - 0)) with (length (infosFrom key 0 pieces))
    by (rewrite length_infosFrom; unfold blen; lia).
  rewrite take_app_length. by apply walkBlobs_pieces.
Qed.

(** The SD blob of a created stream decodes to its descriptor. *)
Lemma decode_created path content random created :
  CreateStreamDescriptor path (Ok content) random = Ok created ->
  DecodeDescriptor (cs_SDHash created) (cs_DescriptorBytes created) = Ok (cs_Descriptor created).
Proof.
  intros Hc. pose proof (create_plain _ _ _ _ Hc) as Hp. pose proof (create_size _ _ _ _ Hc) as Hs.
  pose proof Hc as (key & pieces & iv & name & suggested & Hk & _ & _ & _ & _ & _ & _ & _ & Ek & _ & _ & _ & _ & Eb & Hv & Ed & Eh)%createStream_Ok.
  unfold DecodeDescriptor. rewrite Eh, hashBytes_canonical. cbn [negb].
  destruct (Z.eqb_spec (blen (cs_DescriptorBytes created)) 0); [lia|].
  destruct (Z.ltb_spec MaxStreamDescriptorSize (blen (cs_DescriptorBytes created))); [lia|]. cbn [orb].
  rewrite bool_decide_eq_true_2 by done. cbn [negb]. rewrite Ed in *.
  rewrite parse_marshal; [cbn [mbind res_bind]; by rewrite Hv|done| | |lia].
  - rewrite Ek. intros E%(f_equal length). by rewrite length_hexEncode, Hk in E.
  - rewrite Eb. intros E%(f_equal length). rewrite length_app in E. cbn in E. lia.
Qed.

End promises.

(** ** Witness *)

#[local] Existing Instance exampleDigests.
Definition exampleRandom : bytes := map (fun n => byt (7 * Z.of_nat n)) (seq 0 48).
Definition exampleContent : bytes := lit "hello world, twelve".
Definition examplePath : bytes := lit "/tmp/a b?.txt".
Abbreviation exampleCreated := (CreateStreamDescriptor examplePath (Ok exampleContent) exampleRandom).
Lemma example_created : exists created, exampleCreated = Ok created.
Proof. apply isOk_Ok. vm_cast_no_check (eq_refl true). Qed.

