(* ===== verification/StreamServer.v ===== *)
(** * Serving a range of a stream over HTTP

    Model of the data path of [stream/server.go]: the [Range] header, the plan of
    the blobs a range touches, the bytes written for each, and the response of
    [handleSDHash] for a stream the manager knows.  The response writer takes
    every write; the lifecycle of active streams, their cancellation and the
    progress log are not modelled. *)

From S2P Require Import Prelude Hex Digest Aes Decimal Json Stream.

#[local] Set Warnings "-register-all".

Definition errStreamRangeNotSatisfiable : string := "stream range is not satisfiable".
Definition errRangeMalformed : string := "invalid byte range".

Record preparedStreamRange := MkRange { r_start : Z; r_end : Z; r_total : Z }.

(** [strings.IndexByte(header, '=')] and what follows it. *)
Fixpoint afterByte (c : byte) (s : bytes) : option bytes :=
  match s with [] => None | d :: s => if Byte.eqb d c then Some s else afterByte c s end.
(** [strings.Cut] at a byte. *)
Fixpoint cutByte (c : byte) (s : bytes) : option (bytes * bytes) :=
  match s with
  | [] => None
  | d :: s => if Byte.eqb d c then Some ([], s) else '(before, after) ← cutByte c s; Some (d :: before, after)
  end.
Definition containsByte (c : byte) (s : bytes) : bool := existsb (fun d => Byte.eqb d c) s.

(** The size of the content blobs, as the code sums it up. *)
Fixpoint contentTotal (total : Z) (infos : list BlobInfo) : res Z :=
  match infos with
  | [] => Ok total
  | info :: infos =>
      if (b_Length info <=? 0) || (max_i64 - (b_Length info - 1) <? total) then Err "invalid stream size"
      else contentTotal (total + (b_Length info - 1)) infos
  end.

(** The range of the header's text; the total is known. *)
Definition headerRange (header : bytes) (total : Z) : res preparedStreamRange :=
  let header := match header with [] => lit "bytes=0-" | _ => header end in
  let header := default header (afterByte "=" header) in
  match cutByte "-" header with
  | None => Err errRangeMalformed
  | Some (startText, endText) =>
      if containsByte "-" endText then Err errRangeMalformed
      else
        match ParseInt startText with
        | Ok start =>
            if (start <? 0) || (total <=? start) then Err errStreamRangeNotSatisfiable
            else
              end_ ← (match endText with
                      | [] => Ok (total - 1)
                      | _ => map_err (fun _ => errRangeMalformed) (ParseInt endText)
                      end);
              if (end_ <? start) || (total <=? end_) then Err errStreamRangeNotSatisfiable
              else Ok (MkRange start end_ total)
        | _ => Err errStreamRangeNotSatisfiable
        end
  end.

(** The total with the size a claim gives, at most sixteen bytes below it. *)
Definition claimedTotal (total claimSize : Z) : res Z :=
  if 0 <? claimSize then
    if (total <? claimSize) || (16 <? total - claimSize) then Err "claim contains implausible stream size"
    else Ok claimSize
  else Ok total.

Definition prepareStreamRangeWithClaimSize (header : bytes) (descriptor : StreamDescriptor) (claimSize : Z)
  : res preparedStreamRange :=
  total ← contentTotal 0 (ContentBlobs descriptor);
  total ← claimedTotal total claimSize;
  if total <=? 0 then Err errStreamRangeNotSatisfiable
  else headerRange header total.
Definition prepareStreamRange (header : bytes) (descriptor : StreamDescriptor) : res preparedStreamRange :=
  prepareStreamRangeWithClaimSize header descriptor 0.

(** ** The plan *)

Record plannedStreamBlob := MkPlanned { p_index : Z; p_start : Z; p_end : Z }.

Fixpoint planLoop (range : preparedStreamRange) (index position : Z) (infos : list BlobInfo)
  : list plannedStreamBlob :=
  match infos with
  | [] => []
  | info :: infos =>
      let length := i64 (b_Length info - 1) in
      let blobEnd := i64 (position + length) in
      let rest := planLoop range (index + 1) blobEnd infos in
      if (r_start range <? blobEnd) && (position <=? r_end range) then
        MkPlanned index (Z.max (i64 (r_start range - position)) 0)
          (Z.min (i64 (r_end range - position + 1)) length) :: rest
      else rest
  end.
Definition planStreamBlobs (descriptor : StreamDescriptor) (range : preparedStreamRange)
  : res (list plannedStreamBlob) :=
  match sd_Blobs descriptor with
  | [] => Panic
  | blobs =>
      match planLoop range 0 0 (removelast blobs) with
      | [] => Err errStreamRangeNotSatisfiable
      | plan => Ok plan
      end
  end.

(** What is written for a blob: its part of the range, with zeroes where the
    decrypted data is shorter than the descriptor says. *)
Definition writePlannedBlob (data : bytes) (plan : plannedStreamBlob) : bytes :=
  let dataEnd := Z.min (p_end plan) (blen data) in
  let written := if p_start plan <? dataEnd
    then take (Z.to_nat (dataEnd - p_start plan)) (drop (Z.to_nat (p_start plan)) data) else [] in
  let padding := p_end plan - Z.max (p_start plan) (blen data) in
  written ++ (if padding <=? 0 then [] else repeat x00 (Z.to_nat padding)).

(** ** The response *)

Inductive streamResponse :=
| Partial (range : preparedStreamRange) (contentLength : Z) (body : res bytes)
    (* 206 with Content-Range and Content-Length; the body, or why it stopped *)
| NotSatisfiable                    (* 416 *)
| Failed (status : Z) (message : string).

Section digests.
Context `{Digests}.

Definition writeBlob (plan : list plannedStreamBlob) (firstIndex : Z) (info : BlobInfo) (data body : bytes)
  : res bytes :=
  let k := i64 (b_BlobNum info - firstIndex) in
  if k <? 0 then Panic
  else match plan !! Z.to_nat k with
  | None => Panic
  | Some entry => Ok (body ++ writePlannedBlob data entry)
  end.
Definition serveBody (acquire : bytes -> res bytes) (descriptor : StreamDescriptor)
    (plan : list plannedStreamBlob) : res bytes :=
  match plan, last plan with
  | entry :: _, Some final =>
      WalkStreamRange acquire descriptor (p_index entry) (p_index final + 1)
        (writeBlob plan (p_index entry)) []
  | _, _ => Panic
  end.

(** [handleSDHash] once the stream is allowed and its SD blob looked up. *)
Definition handleSDHash (isHead : bool) (header : bytes) (claimSize : Z) (acquire : bytes -> res bytes)
    (sdHash : bytes) : streamResponse :=
  match acquire sdHash with
  | Ok blobData =>
      match DecodeDescriptor sdHash blobData with
      | Ok descriptor =>
          match prepareStreamRangeWithClaimSize header descriptor claimSize with
          | Ok range =>
              match planStreamBlobs descriptor range with
              | Ok plan =>
                  Partial range (i64 (r_end range - r_start range + 1))
                    (if isHead then Ok [] else serveBody acquire descriptor plan)
              | _ => Failed 500 "Malformed stream descriptor."
              end
          | Err e =>
              if decide (e = errStreamRangeNotSatisfiable) then NotSatisfiable
              else Failed 500 "Malformed range header."
          | _ => Failed 500 ""
          end
      | _ => Failed 500 "Malformed stream descriptor."
      end
  | _ => Failed 404 "Blob not found."
  end.
End digests.

(** ** Windows of a text *)

(** The bytes of [l], which starts at [position], from [start] up to [stop]. *)
Definition window (start stop position : Z) (l : bytes) : bytes :=
  drop (Z.to_nat (start - position)) (take (Z.to_nat (stop - position)) l).
Definition slice (start stop : Z) (l : bytes) : bytes := window start stop 0 l.

Lemma window_app start stop position a b :
  start <= stop ->
  window start stop position (a ++ b) = window start stop position a ++ window start stop (position + blen a) b.
Proof.
  intros Hs. unfold window, blen. rewrite take_app, drop_app, length_take. f_equal.
  replace (Z.to_nat (stop - (position + Z.of_nat (length a)))) with (Z.to_nat (stop - position) - length a)%nat by lia.
  destruct (decide (Z.to_nat (stop - position) <= length a)%nat).
  - replace (Z.to_nat (stop - position) - length a)%nat with 0%nat by lia. by rewrite take_0, !drop_nil.
  - f_equal. lia.
Qed.
Lemma length_slice start stop l : 0 <= start <= stop -> stop <= blen l -> blen (slice start stop l) = stop - start.
Proof.
  intros Hs Hl. unfold slice, window, blen in *. rewrite length_drop, length_take. lia.
Qed.

(** [data] cut or extended with zeroes to [n] bytes. *)
Definition fit (n : Z) (data : bytes) : bytes :=
  take (Z.to_nat n) data ++ repeat x00 (Z.to_nat n - length data).
Lemma length_fit n data : length (fit n data) = Z.to_nat n.
Proof. unfold fit. rewrite length_app, length_take, repeat_length. lia. Qed.

Lemma drop_repeat {A} (x : A) m n : drop m (repeat x n) = repeat x (n - m).
Proof. revert n. induction m as [|m IH]; intros [|n]; cbn; try done; by rewrite IH. Qed.
Lemma take_repeat {A} (x : A) m n : take m (repeat x n) = repeat x (Nat.min m n).
Proof. revert n. induction m as [|m IH]; intros [|n]; cbn; try done; by rewrite IH. Qed.

Lemma write_window data index start stop len :
  0 <= start <= stop -> stop <= len ->
  writePlannedBlob data (MkPlanned index start stop) = window start stop 0 (fit len data).
Proof.
  intros Hs Hl. unfold writePlannedBlob, window, fit. cbn [p_start p_end]. rewrite !Z.sub_0_r.
  destruct (Z.le_gt_cases stop (blen data)) as [Hle|Hgt]; unfold blen in *.
  - rewrite Z.min_l by lia. rewrite take_app_le by (rewrite length_take; lia).
    rewrite take_take, Nat.min_l by lia.
    destruct (Z.leb_spec (stop - Z.max start (Z.of_nat (length data))) 0); [|lia]. rewrite app_nil_r.
    rewrite skipn_firstn_comm. destruct (Z.ltb_spec start stop).
    + f_equal. lia.
    + replace (Z.to_nat stop - Z.to_nat start)%nat with 0%nat by lia. by rewrite take_0.
  - rewrite Z.min_r by lia. rewrite (take_ge data) by lia.
    rewrite take_app, (take_ge data), take_repeat, drop_app, drop_repeat by lia.
    rewrite Nat.min_l by lia. f_equal.
    + destruct (Z.ltb_spec start (Z.of_nat (length data))).
      * apply take_ge. rewrite length_drop. lia.
      * symmetry. apply drop_ge. lia.
    + destruct (Z.leb_spec (stop - Z.max start (Z.of_nat (length data))) 0).
      * replace (Z.to_nat stop - length data - (Z.to_nat start - length data))%nat with 0%nat by lia. done.
      * f_equal. lia.
Qed.

(** ** The plan covers the range *)

Section plan.
Context (range : preparedStreamRange).
Abbreviation start := (r_start range).
Abbreviation stop := (r_end range + 1).

(** The bytes a stream shows of a blob: one less than its length. *)
Definition shown (info : BlobInfo) : Z := b_Length info - 1.
Fixpoint shownTotal (infos : list BlobInfo) : Z :=
  match infos with [] => 0 | info :: infos => shown info + shownTotal infos end.
Definition entryOf (index position : Z) (info : BlobInfo) : plannedStreamBlob :=
  MkPlanned index (Z.max (start - position) 0) (Z.min (stop - position) (shown info)).
Definition touched (position : Z) (info : BlobInfo) : Prop :=
  start < position + shown info /\ position <= r_end range.
Fixpoint entriesFrom (index position : Z) (infos : list BlobInfo) : list plannedStreamBlob :=
  match infos with
  | [] => []
  | info :: infos => entryOf index position info :: entriesFrom (index + 1) (position + shown info) infos
  end.
Fixpoint allTouched (position : Z) (infos : list BlobInfo) : Prop :=
  match infos with [] => True | info :: infos => touched position info /\ allTouched (position + shown info) infos end.
Fixpoint noneTouched (position : Z) (infos : list BlobInfo) : Prop :=
  match infos with [] => True | info :: infos => ~ touched position info /\ noneTouched (position + shown info) infos end.

Definition shownOk (info : BlobInfo) : Prop := 1 <= shown info.
Definition inBounds (position : Z) (infos : list BlobInfo) : Prop :=
  0 <= position /\ position + shownTotal infos <= 2 ^ 62 /\ 0 <= start <= r_end range /\ r_end range <= 2 ^ 62.

Lemma shownTotal_nonneg infos : Forall shownOk infos -> 0 <= shownTotal infos.
Proof. induction 1 as [|info infos Hi _ IH]; cbn [shownTotal]; [done|]. unfold shownOk in Hi. lia. Qed.
Lemma inBounds_step position info infos :
  Forall shownOk (info :: infos) -> inBounds position (info :: infos) -> inBounds (position + shown info) infos.
Proof.
  intros Hi (Hp & Hb & Hr). inversion Hi as [|? ? Hi1 Hi2]; subst. unfold shownOk in Hi1.
  unfold inBounds. cbn [shownTotal] in Hb. lia.
Qed.

Lemma planLoop_cons index position info infos :
  Forall shownOk (info :: infos) -> inBounds position (info :: infos) ->
  planLoop range index position (info :: infos) =
    if decide (touched position info) then
      entryOf index position info :: planLoop range (index + 1) (position + shown info) infos
    else planLoop range (index + 1) (position + shown info) infos.
Proof.
  intros Hi (Hp & Hb & Hs & Hr). inversion Hi as [|? ? Hi1 Hi2]; subst. unfold shownOk in Hi1.
  pose proof (shownTotal_nonneg infos Hi2). cbn [shownTotal] in Hb.
  cbn [planLoop]. fold (shown info).
  rewrite (i64_id (shown info)) by (unfold min_i64, max_i64; lia).
  rewrite (i64_id (position + shown info)), (i64_id (start - position)), (i64_id (r_end range - position + 1))
    by (unfold min_i64, max_i64; lia).
  unfold touched, entryOf. replace (r_end range - position + 1) with (stop - position) by lia.
  destruct (Z.ltb_spec start (position + shown info)), (Z.leb_spec position (r_end range)); cbn [andb];
    case_decide; done || lia.
Qed.

(** Past the end nothing is touched; from the start on, the touched blobs come first. *)
Lemma planLoop_past index position infos :
  Forall shownOk infos -> inBounds position infos -> r_end range < position ->
  planLoop range index position infos = [] /\ noneTouched position infos.
Proof.
  intros Hi. revert index position. induction Hi as [|info infos Hi1 Hi2 IH]; intros index position Hb He; [done|].
  rewrite planLoop_cons by (done || by constructor).
  assert (~ touched position info) as Hn by (unfold touched; lia). rewrite decide_False by done.
  unfold shownOk in Hi1. destruct (IH (index + 1) (position + shown info)) as [-> Hr]; [|lia|done].
  apply inBounds_step; [by constructor|done].
Qed.
Lemma planLoop_started index position infos :
  Forall shownOk infos -> inBounds position infos -> start <= position ->
  exists mid post, infos = mid ++ post /\ planLoop range index position infos = entriesFrom index position mid /\
    allTouched position mid /\ noneTouched (position + shownTotal mid) post.
Proof.
  intros Hi. revert index position. induction Hi as [|info infos Hi1 Hi2 IH]; intros index position Hb Hs;
    [by exists [], []|]. pose proof Hi1 as Hi1'. unfold shownOk in Hi1'.
  destruct (Z.le_gt_cases position (r_end range)) as [Hle|Hgt].
  - rewrite planLoop_cons by (done || by constructor).
    assert (touched position info) as Ht by (unfold touched; lia). rewrite decide_True by done.
    destruct (IH (index + 1) (position + shown info)) as (mid & post & -> & -> & Hm & Hp);
      [apply inBounds_step; [by constructor|done]|lia|].
    exists (info :: mid), post. split_and!; try done.
    cbn [shownTotal]. by rewrite Z.add_assoc.
  - destruct (planLoop_past index position (info :: infos)) as [-> Hn]; [by constructor|done|lia|].
    exists [], (info :: infos). cbn [shownTotal]. by rewrite Z.add_0_r.
Qed.
Lemma planLoop_split index position infos :
  Forall shownOk infos -> inBounds position infos ->
  exists pre mid post, infos = pre ++ mid ++ post /\
    planLoop range index position infos = entriesFrom (index + blen pre) (position + shownTotal pre) mid /\
    noneTouched position pre /\ allTouched (position + shownTotal pre) mid /\
    noneTouched (position + shownTotal pre + shownTotal mid) post.
Proof.
  intros Hi. revert index position. induction Hi as [|info infos Hi1 Hi2 IH]; intros index position Hb.
  { by exists [], [], []. }
  pose proof (inBounds_step _ _ _ ltac:(by constructor) Hb) as Hb'. rewrite planLoop_cons by (done || by constructor).
  destruct (decide (touched position info)) as [Ht|Ht].
  - destruct (planLoop_started (index + 1) (position + shown info) infos) as (mid & post & -> & -> & Hm & Hp);
      [done|done|unfold touched in Ht; lia|].
    exists [], (info :: mid), post. cbn [app shownTotal blen]. change (blen []) with 0.
    rewrite !Z.add_0_r. split_and!; try done. by rewrite Z.add_assoc.
  - destruct (IH (index + 1) (position + shown info) Hb') as (pre & mid & post & -> & -> & Hn & Hm & Hp).
    exists (info :: pre), mid, post. cbn [shownTotal]. rewrite blen_cons, !Z.add_assoc.
    split_and!; try done.
Qed.
End plan.

(** ** What is written is the range *)

Definition streamBytes (infos : list BlobInfo) (datas : list bytes) : bytes :=
  concat (zip_with (fun info data => fit (shown info) data) infos datas).

Section served.
Context `{Digests} (range : preparedStreamRange).
Abbreviation start := (r_start range).
Abbreviation stop := (r_end range + 1).

Lemma blen_fit info data : shownOk info -> blen (fit (shown info) data) = shown info.
Proof. unfold shownOk, blen. intros Hs. rewrite length_fit. lia. Qed.

Lemma window_untouched position info data :
  shownOk info -> 0 <= start <= r_end range -> ~ touched range position info ->
  window start stop position (fit (shown info) data) = [].
Proof.
  intros Hs Hr Ht. pose proof (blen_fit info data Hs) as Hl. unfold window.
  destruct (Z.le_gt_cases position (r_end range)).
  - apply drop_ge. rewrite length_take. unfold touched, blen in *. lia.
  - replace (Z.to_nat (stop - position)) with 0%nat by lia. by rewrite take_0, drop_nil.
Qed.
Lemma window_none position infos datas :
  Forall shownOk infos -> 0 <= start <= r_end range -> noneTouched range position infos ->
  window start stop position (streamBytes infos datas) = [].
Proof.
  intros Hi Hr. revert position datas. induction Hi as [|info infos Hi1 Hi2 IH]; intros position datas Hn.
  { unfold streamBytes, window. cbn. by rewrite take_nil, drop_nil. }
  destruct datas as [|data datas]; [unfold streamBytes, window; cbn; by rewrite take_nil, drop_nil|].
  destruct Hn as [Ht Hn]. unfold streamBytes. cbn [zip_with concat]. fold (streamBytes infos datas).
  rewrite window_app, blen_fit by (done || lia).
  rewrite window_untouched by done. by rewrite IH.
Qed.

Lemma write_entry index position info data :
  shownOk info -> 0 <= start <= r_end range -> touched range position info ->
  writePlannedBlob data (entryOf range index position info) = window start stop position (fit (shown info) data).
Proof.
  intros Hs Hr [Ht1 Ht2]. unfold entryOf. unfold shownOk in Hs.
  rewrite (write_window data index _ _ (shown info)) by lia. unfold window. rewrite !Z.sub_0_r.
  f_equal; [lia|]. destruct (Z.le_gt_cases (stop - position) (shown info)).
  - f_equal. lia.
  - rewrite !take_ge; [done|rewrite length_fit; lia..].
Qed.

(** Blobs numbered from [index] on, and a manager that has them. *)
Fixpoint numbered (index : Z) (infos : list BlobInfo) : Prop :=
  match infos with [] => True | info :: infos => b_BlobNum info = index /\ numbered (index + 1) infos end.
Definition readable (acquire : bytes -> res bytes) (key : bytes) (info : BlobInfo) (data : bytes) : Prop :=
  exists encrypted, acquire (b_BlobHash info) = Ok encrypted /\ DecryptBlob encrypted key (b_IV info) = Ok data.

Lemma walk_touched acquire key infos datas plan before first index position acc :
  plan = before ++ entriesFrom range index position infos -> index = first + blen before ->
  0 <= first -> index + blen infos <= 2 ^ 62 ->
  Forall2 (readable acquire key) infos datas -> numbered index infos ->
  Forall shownOk infos -> 0 <= start <= r_end range -> allTouched range position infos ->
  walkBlobs acquire key infos (writeBlob plan first) acc
    = Ok (acc ++ window start stop position (streamBytes infos datas)).
Proof.
  intros Hplan Hindex Hfirst Hbound Hread. revert before index position acc Hplan Hindex Hbound.
  induction Hread as [|info data infos datas (e & He & Hd) Hread IH];
    intros before index position acc Hplan Hindex Hbound Hnum Hok Hr Ht.
  { unfold streamBytes, window. cbn. by rewrite take_nil, drop_nil, app_nil_r. }
  apply Forall_cons_1 in Hok as [Hok1 Hok2]. subst plan index.
  destruct Hnum as [Hnum1 Hnum2], Ht as [Ht1 Ht2]. rewrite blen_cons in Hbound.
  pose proof (blen_nonneg before). pose proof (blen_nonneg infos).
  cbn [walkBlobs]. rewrite He. cbn [mbind res_bind]. rewrite Hd. cbn [map_err mbind res_bind].
  set (plan := before ++ _).
  assert (writeBlob plan first info data acc
          = Ok (acc ++ window start stop position (fit (shown info) data))) as ->.
  { unfold writeBlob. rewrite Hnum1, i64_id by (unfold min_i64, max_i64; lia).
    replace (first + blen before - first) with (blen before) by lia.
    destruct (Z.ltb_spec (blen before) 0); [lia|]. unfold blen, plan. rewrite Nat2Z.id.
    cbn [entriesFrom]. rewrite list_lookup_middle by done. by rewrite write_entry. }
  cbn [mbind res_bind].
  rewrite (IH (before ++ [entryOf range (first + blen before) position info]) (first + blen before + 1)
             (position + shown info)); [| | |lia|done..].
  - unfold streamBytes. cbn [zip_with concat]. fold (streamBytes infos datas).
    rewrite (window_app _ _ _ (fit (shown info) data)), blen_fit by (done || lia). by rewrite <- app_assoc.
  - unfold plan. cbn [entriesFrom]. by rewrite <- app_assoc.
  - rewrite blen_app. cbn. unfold blen. cbn. lia.
Qed.
End served.

(** ** Validated descriptors *)

Section validated.
Context `{Digests}.

Definition dataBlob (info : BlobInfo) : Prop :=
  aesBlockSize <= b_Length info <= MaxBlobSize /\ b_BlobHash info <> [].
Lemma validateItems_spec last index total items t :
  validateItems last index total items = Ok t ->
  numbered index items /\ (forall k info, items !! k = Some info -> index + Z.of_nat k < last -> dataBlob info).
Proof.
  revert index total. induction items as [|item items IH]; intros index total Hv; [by split|].
  cbn [validateItems] in Hv. apply res_bind_Ok in Hv as (t1 & Hi & Hv). apply IH in Hv as [Hn Hd].
  unfold validateItem in Hi. destruct (validIV (b_IV item)); [|done]. cbn [negb] in Hi.
  destruct (Z.eqb_spec (b_BlobNum item) index) as [Hnum|]; [|done]. cbn [negb] in Hi.
  split; [by split|]. intros [|k] info Hk Hlt; cbn in Hk; [|apply (Hd k); [done|lia]].
  injection Hk as <-. rewrite Z.add_0_r in Hlt. unfold dataBlob.
  destruct (Z.ltb_spec index last); [|lia]. cbn [andb] in Hi.
  destruct (Z.eqb_spec (b_Length item) 0); [done|].
  destruct (Nat.eqb_spec (length (b_BlobHash item)) 0) as [|Hh]; [done|].
  destruct (Z.ltb_spec (b_Length item) aesBlockSize); [done|].
  destruct (Z.ltb_spec MaxBlobSize (b_Length item)); [done|].
  split; [lia|]. intros E. by rewrite E in Hh.
Qed.

Lemma ValidateDescriptor_blobs d :
  ValidateDescriptor d = Ok tt ->
  exists datas terminator, sd_Blobs d = datas ++ [terminator] /\ numbered 0 datas /\
    Forall dataBlob datas /\ b_Length terminator = 0 /\ blen datas < MaxStreamDescriptorBlobs.
Proof.
  unfold ValidateDescriptor. destruct (last (sd_Blobs d)) as [t|] eqn:El; [|done].
  apply last_Some in El as [datas Eb]. rewrite Eb.
  destruct (Z.ltb_spec MaxStreamDescriptorBlobs (blen (datas ++ [t]))) as [|Hmax]; [done|].
  destruct (negb (validIV (sd_Key d))); [done|].
  intros Hv. apply res_bind_Ok in Hv as (total & Hi & Hv). apply validateItems_spec in Hi as [Hn Hd].
  destruct (Z.eqb_spec (b_Length t) 0); [|done]. rewrite blen_app in *. change (blen [t]) with 1 in *.
  exists datas, t. split_and!; try done; [| |lia].
  - clear -Hn. revert Hn. generalize 0. induction datas as [|i datas IH]; intros n Hn; [done|].
    destruct Hn as [? ?]. split; [done|by apply IH].
  - apply Forall_lookup. intros k info Hk. apply (Hd k info).
    + by apply lookup_app_l_Some.
    + apply lookup_lt_Some in Hk. unfold blen. lia.
Qed.

Lemma ContentBlobs_data d datas terminator :
  sd_Blobs d = datas ++ [terminator] -> Forall dataBlob datas -> b_Length terminator = 0 -> ContentBlobs d = datas.
Proof.
  intros E Hd Ht. unfold ContentBlobs. rewrite E, filter_app.
  rewrite (filter_cons_False _ terminator), filter_nil, app_nil_r by (intros [? _]; lia).
  clear E. induction Hd as [|info datas [Hl Hh] Hd IH]; [done|].
  rewrite filter_cons_True by (unfold aesBlockSize, BlockSize in Hl; split; [lia|done]). by rewrite IH.
Qed.

Lemma numbered_app index a b : numbered index (a ++ b) -> numbered index a /\ numbered (index + blen a) b.
Proof.
  revert index. induction a as [|info a IH]; intros index Hn.
  - change (blen []) with 0. by rewrite Z.add_0_r.
  - destruct Hn as [Hn1 Hn2]. apply IH in Hn2 as [Ha Hb]. split; [done|]. rewrite blen_cons.
    by replace (index + (1 + blen a)) with (index + 1 + blen a) by lia.
Qed.
Lemma streamBytes_app a b da db :
  length a = length da -> streamBytes (a ++ b) (da ++ db) = streamBytes a da ++ streamBytes b db.
Proof. intros Hl. unfold streamBytes. by rewrite zip_with_app, concat_app. Qed.
Lemma blen_streamBytes infos datas :
  Forall shownOk infos -> length infos = length datas -> blen (streamBytes infos datas) = shownTotal infos.
Proof.
  intros Hi. revert datas. induction Hi as [|info infos Hi1 Hi2 IH]; intros [|data datas] Hl; try done.
  unfold streamBytes. cbn [zip_with concat shownTotal]. fold (streamBytes infos datas).
  rewrite blen_app, blen_fit, IH by (done || cbn in Hl; lia). done.
Qed.
Lemma entriesFrom_last range index position infos :
  infos <> [] -> exists e, last (entriesFrom range index position infos) = Some e /\ p_index e = index + blen infos - 1.
Proof.
  revert index position. induction infos as [|info infos IH]; intros index position Hne; [done|].
  destruct infos as [|info2 infos].
  - eexists. split; [done|]. cbn. unfold blen. cbn. lia.
  - destruct (IH (index + 1) (position + shown info)) as (e & He & Hp); [done|].
    exists e. split; [exact He|]. rewrite Hp, !blen_cons. lia.
Qed.

Lemma dataBlob_shown infos : Forall dataBlob infos -> Forall shownOk infos.
Proof. intros Hf. eapply Forall_impl; [exact Hf|]. intros info [Hl _]. unfold shownOk, shown, aesBlockSize, BlockSize in *. lia. Qed.
Lemma shownTotal_bound infos : Forall dataBlob infos -> 0 <= shownTotal infos <= blen infos * MaxBlobSize.
Proof.
  induction 1 as [|info infos [Hl _] _ IH]; cbn [shownTotal]; [by vm_compute|].
  rewrite blen_cons. unfold shown, aesBlockSize, BlockSize, MaxBlobSize in *. lia.
Qed.
Lemma contentTotal_sum total infos :
  Forall dataBlob infos -> 0 <= total -> total + shownTotal infos <= 2 ^ 62 ->
  contentTotal total infos = Ok (total + shownTotal infos).
Proof.
  intros Hi. revert total. induction Hi as [|info infos [Hl _] Hi IH]; intros total Ht Hb; cbn [contentTotal shownTotal] in *.
  { by rewrite Z.add_0_r. }
  pose proof (shownTotal_bound infos Hi). unfold shown in *.
  unfold aesBlockSize, BlockSize in Hl. destruct (Z.leb_spec (b_Length info) 0); [lia|].
  destruct (Z.ltb_spec (max_i64 - (b_Length info - 1)) total); [unfold max_i64 in *; lia|]. cbn [orb].
  rewrite IH by lia. f_equal. lia.
Qed.

Lemma headerRange_Ok header total range :
  headerRange header total = Ok range -> 0 <= r_start range <= r_end range /\ r_end range < total /\ r_total range = total.
Proof.
  unfold headerRange. intros Hr. destruct (cutByte "-" _) as [[startText endText]|]; [|done].
  destruct (containsByte "-" endText); [done|]. destruct (ParseInt startText) as [start|e| |]; try done.
  destruct (Z.ltb_spec start 0), (Z.leb_spec total start); try done. cbn [orb] in Hr.
  apply res_bind_Ok in Hr as (end_ & _ & Hr).
  destruct (Z.ltb_spec end_ start), (Z.leb_spec total end_); try done. injection Hr as <-. cbn. lia.
Qed.

(** For a range within the shown bytes of a validated descriptor: the plan exists
    and what is served is that range. *)
Lemma serve_range acquire d range infos terminator datas :
  ValidateDescriptor d = Ok tt -> sd_Blobs d = infos ++ [terminator] ->
  numbered 0 infos -> Forall dataBlob infos -> blen infos < MaxStreamDescriptorBlobs ->
  0 <= r_start range <= r_end range -> r_end range < shownTotal infos ->
  Forall2 (readable acquire (sd_Key d)) infos datas ->
  exists plan, planStreamBlobs d range = Ok plan /\
    serveBody acquire d plan = Ok (slice (r_start range) (r_end range + 1) (streamBytes infos datas)).
Proof.
  intros Hv Eb Hnum Hdata Hlen Hr Hend Hread. pose proof (dataBlob_shown infos Hdata) as Hok.
  pose proof (shownTotal_bound infos Hdata) as Hsum. unfold MaxStreamDescriptorBlobs, MaxBlobSize in *.
  assert (inBounds range 0 infos) as Hb by (unfold inBounds; lia).
  destruct (planLoop_split range 0 0 infos Hok Hb) as (pre & mid & post & E & Ep & Hpre & Hmid & Hpost).
  rewrite !Z.add_0_l in *.
  assert (removelast (sd_Blobs d) = infos) as Erl by (rewrite Eb; apply removelast_last).
  subst infos. rewrite !blen_app in Hlen.
  apply Forall2_app_inv_l in Hread as (dpre & drest & Hdpre & Hrest & ->).
  apply Forall2_app_inv_l in Hrest as (dmid & dpost & Hdmid & Hdpost & ->).
  pose proof (Forall2_length _ _ _ Hdpre) as Lpre. pose proof (Forall2_length _ _ _ Hdmid) as Lmid.
  pose proof (Forall2_length _ _ _ Hdpost) as Lpost.
  pose proof Hok as Hok'. apply Forall_app in Hok' as [Okpre Hok']. apply Forall_app in Hok' as [Okmid Okpost].
  assert (slice (r_start range) (r_end range + 1) (streamBytes (pre ++ mid ++ post) (dpre ++ dmid ++ dpost))
          = window (r_start range) (r_end range + 1) (shownTotal pre) (streamBytes mid dmid)) as Eslice.
  { unfold slice. rewrite !streamBytes_app, !window_app, !blen_streamBytes by (done || lia). rewrite !Z.add_0_l.
    rewrite (window_none range 0 pre), (window_none range (shownTotal pre + shownTotal mid) post) by done.
    by rewrite app_nil_r. }
  assert (mid <> []) as Hne.
  { intros ->. assert (blen (slice (r_start range) (r_end range + 1)
      (streamBytes (pre ++ [] ++ post) (dpre ++ dmid ++ dpost))) = r_end range + 1 - r_start range) as Hl.
    { apply length_slice; [lia|]. rewrite blen_streamBytes; [lia|done|]. rewrite !length_app. cbn in *. lia. }
    rewrite Eslice in Hl. unfold streamBytes, window in Hl. cbn in Hl. rewrite take_nil, drop_nil in Hl.
    unfold blen in Hl. cbn in Hl. lia. }
  destruct (entriesFrom_last range (blen pre) (shownTotal pre) mid Hne) as (final & Hfinal & Hindex).
  exists (entriesFrom range (blen pre) (shownTotal pre) mid).
  assert (exists entry rest, entriesFrom range (blen pre) (shownTotal pre) mid = entry :: rest /\ p_index entry = blen pre)
    as (entry & rest & Ecut & Hentry) by (destruct mid; [done|]; by do 2 eexists).
  split.
  - unfold planStreamBlobs. destruct (sd_Blobs d) as [|b0 bs] eqn:Ed; [by destruct (pre ++ mid ++ post)|].
    rewrite Erl, Ep, Ecut. done.
  - rewrite Eslice. unfold serveBody. rewrite Ecut. cbn iota. rewrite <- !Ecut, Hfinal, Hentry, Hindex.
    unfold WalkStreamRange. rewrite Hv. cbn [mbind res_bind]. rewrite Eb.
    pose proof (blen_nonneg pre). pose proof (blen_nonneg mid). pose proof (blen_nonneg post).
    rewrite !blen_app. change (blen [terminator]) with 1.
    assert (0 < blen mid) by (destruct mid; [done|]; rewrite blen_cons; pose proof (blen_nonneg mid); lia).
    destruct (Z.ltb_spec (blen pre) 0); [lia|].
    destruct (Z.ltb_spec (blen pre + blen mid - 1 + 1) (blen pre)); [lia|].
    destruct (Z.ltb_spec (blen pre + (blen mid + blen post) + 1 - 1) (blen pre + blen mid - 1 + 1)); [lia|].
    cbn [orb]. rewrite <- !app_assoc.
    rewrite (drop_app_at pre), (take_app_at mid) by (unfold blen; lia).
    apply numbered_app in Hnum as [_ Hnum]. apply numbered_app in Hnum as [Hnum _]. rewrite Z.add_0_l in Hnum.
    rewrite (walk_touched range acquire (sd_Key d) mid dmid _ [] (blen pre) (blen pre) (shownTotal pre) []);
      [done|done| |lia|lia|done..]. change (blen []) with 0. lia.
Qed.
End validated.

(** ** A published file is served exactly *)

Section published.
Context `{Digests}.

(** A created stream shows the content, followed by at most fifteen zeroes. *)
Lemma streamBytes_pieces key n pieces :
  isBlock key -> Forall pieceOk pieces -> Forall fullPiece (removelast pieces) ->
  exists k, (k <= 15)%nat /\
    streamBytes (infosFrom key n pieces) (map snd pieces) = concat (map snd pieces) ++ repeat x00 k.
Proof.
  intros Hk Hok. revert n. induction Hok as [|p pieces Hp Hok IH]; intros n Hfull.
  { exists 0%nat. split; [lia|done]. }
  assert (shown (infoOf key n p) = Z.of_nat (paddedLength (length p.2)) - 1) as Es.
  { unfold shown, infoOf, sealed, blen. cbn [b_Length]. by rewrite (proj2 (encrypt_decrypt key p.1 p.2 Hk (proj1 Hp))). }
  unfold streamBytes. cbn [infosFrom map zip_with concat]. rewrite Es.
  fold (streamBytes (infosFrom key (n + 1) pieces) (map snd pieces)).
  assert (forall k, Z.of_nat (paddedLength (length p.2)) - 1 = blen p.2 + Z.of_nat k ->
    fit (Z.of_nat (paddedLength (length p.2)) - 1) p.2 = p.2 ++ repeat x00 k) as Hfit.
  { intros k E. unfold fit, blen in *. rewrite take_ge by lia. do 2 f_equal. lia. }
  assert (exists k, (k <= 15)%nat /\ Z.of_nat (paddedLength (length p.2)) - 1 = blen p.2 + Z.of_nat k) as (k & Hk15 & Ek).
  { exists (paddedLength (length p.2) - 1 - length p.2)%nat. unfold paddedLength, blen.
    pose proof (Nat.div_mod (length p.2) BlockSize ltac:(done)).
    pose proof (Nat.mod_upper_bound (length p.2) BlockSize ltac:(done)). unfold BlockSize in *. lia. }
  rewrite (Hfit k Ek). destruct pieces as [|q pieces].
  - exists k. split; [done|]. unfold streamBytes. cbn. by rewrite !app_nil_r.
  - cbn [removelast] in Hfull. apply Forall_cons_1 in Hfull as [Hfull1 Hfull2].
    assert (k = 0%nat) as ->.
    { unfold fullPiece, MaxBlobSize in Hfull1. unfold paddedLength, blen in *.
      pose proof (Nat.div_mod (length p.2) BlockSize ltac:(done)).
      pose proof (Nat.mod_upper_bound (length p.2) BlockSize ltac:(done)). unfold BlockSize in *. lia. }
    destruct (IH (n + 1)) as (k & Hk' & ->); [done|]. exists k. split; [done|].
    cbn [repeat]. rewrite app_nil_r. by rewrite <- app_assoc.
Qed.

Lemma readable_pieces (blobs : gmap bytes bytes) key n pieces :
  isBlock key -> Forall pieceOk pieces ->
  Forall (fun p => blobs !! hashBytes (sealed key p) = Some (sealed key p)) pieces ->
  Forall2 (readable (fromBlobs blobs) (hexEncode key)) (infosFrom key n pieces) (map snd pieces).
Proof.
  intros Hk Hok. revert n. induction Hok as [|p pieces Hp Hok IH]; intros n Hin; [constructor|].
  apply Forall_cons_1 in Hin as [Hin1 Hin2]. cbn [infosFrom map]. constructor; [|by apply IH].
  exists (sealed key p). unfold fromBlobs. cbn [infoOf b_BlobHash b_IV]. rewrite Hin1. split; [done|].
  apply encrypt_decrypt; [done|apply Hp].
Qed.

End published.

(** ** Witness *)

#[local] Existing Instance exampleDigests.
