(* ===== verification/BlobManager.v ===== *)
(** * The blob manager

    Model of [blob/manager.go]: the blobs the daemon holds, in memory or as files
    of the blob directory, and the fetches of missing blobs that concurrent
    callers share.  A critical section of the mutex is one function on the
    manager; [BlobFlights] interleaves them. *)

From stdpp Require Import fin_maps.
From S2P Require Import Prelude Hex Digest Aes Json Stream.

(** The regular files of the blob directory. *)
Abbreviation Disk := (gmap bytes bytes).

(** [blobs]: a nil slice is a blob on disk.  [inFlight] holds pointers to flights. *)
Record BlobManager := MkManager {
  bm_blobs : gmap bytes (option bytes);
  bm_fetch : bool;                     (* a fetcher is set *)
  bm_inFlight : gmap bytes nat;
  bm_blobDir : bytes;
  bm_persist : bool;
  bm_records : bool                    (* a completion store is set *)
}.
Definition withBlobs (blobManager : BlobManager) (blobs : gmap bytes (option bytes)) : BlobManager :=
  MkManager blobs (bm_fetch blobManager) (bm_inFlight blobManager) (bm_blobDir blobManager)
    (bm_persist blobManager) (bm_records blobManager).
Definition withInFlight (blobManager : BlobManager) (inFlight : gmap bytes nat) : BlobManager :=
  MkManager (bm_blobs blobManager) (bm_fetch blobManager) inFlight (bm_blobDir blobManager)
    (bm_persist blobManager) (bm_records blobManager).

Definition NewManager : BlobManager := MkManager ∅ false ∅ [] false false.
Definition NewPersistentManager (blobDir : bytes) : BlobManager := MkManager ∅ false ∅ blobDir true false.
Definition NewConfiguredManager (blobDir : bytes) (saveNewBlobs : bool) : BlobManager :=
  MkManager ∅ false ∅ blobDir saveNewBlobs false.
Definition SetFetcher (blobManager : BlobManager) (fetcher : bool) : BlobManager :=
  MkManager (bm_blobs blobManager) fetcher (bm_inFlight blobManager) (bm_blobDir blobManager)
    (bm_persist blobManager) (bm_records blobManager).
Definition SetCompletionStore (blobManager : BlobManager) (store : bool) : BlobManager :=
  MkManager (bm_blobs blobManager) (bm_fetch blobManager) (bm_inFlight blobManager) (bm_blobDir blobManager)
    (bm_persist blobManager) store.

Definition Has (blobManager : BlobManager) (blobHash : bytes) : bool :=
  bool_decide (is_Some (bm_blobs blobManager !! blobHash)).
Definition CompletedBlobCount (blobManager : BlobManager) : Z := Z.of_nat (size (bm_blobs blobManager)).
Definition CompletedBlobHashes (blobManager : BlobManager) : list bytes :=
  (map_to_list (bm_blobs blobManager)).*1.

(** ** Files *)

(** Where [writePersistent] can fail. *)
Inductive writeStage := CreateTemp | Write | Sync | Chmod | Close | Rename.
#[export] Instance writeStage_eq : EqDecision writeStage.
Proof. solve_decision. Defined.
Definition stageError (stage : writeStage) : string :=
  match stage with
  | CreateTemp => "create temporary blob"
  | Write => "write temporary blob"
  | Sync => "sync temporary blob"
  | Chmod => "set blob permissions"
  | Close => "close temporary blob"
  | Rename => "publish blob"
  end.
(** The directory after each of its system calls, the last one being what
    [writePersistent] leaves, and its result.  [failure] is the call that fails;
    a failed write may leave a part of the data, [written] bytes of it. *)
Definition writePersistent (failure : option writeStage) (written : nat) (disk : Disk)
    (temporaryPath blobHash data : bytes) : list Disk * res unit :=
  let created := <[temporaryPath := []]> disk in
  let partial := <[temporaryPath := take written data]> disk in
  let whole := <[temporaryPath := data]> disk in
  let cleanup := delete temporaryPath disk in
  match failure with
  | Some CreateTemp => ([disk], Err (stageError CreateTemp))
  | Some Write => ([disk; created; partial; cleanup], Err (stageError Write))
  | Some stage => ([disk; created; partial; whole; cleanup], Err (stageError stage))
  | None => ([disk; created; partial; whole; <[blobHash := data]> cleanup], Ok tt)
  end.
Definition leaves (disk : Disk) (states : list Disk) : Disk := default disk (last states).

(** One entry of [os.ReadDir], its [Info] and its [os.ReadFile]. *)
Record dirEntry := MkEntry {
  e_Name : bytes; e_Regular : bool; e_Size : option Z; e_Read : option bytes
}.

Definition ErrBlobSize : string := "blob: size exceeds the resource limit".
Definition ErrBlobHash : string := "blob: hash mismatch".

Section digests.
Context `{Digests}.

Definition loads (entry : dirEntry) : option (bytes * Z) :=
  if negb (e_Regular entry) || negb (canonicalBlobHash (e_Name entry)) then None
  else
    size ← e_Size entry;
    if (size <=? 0) || (MaxBlobSize <? size) then None
    else
      data ← e_Read entry;
      if bool_decide (hashBytes data = e_Name entry) then Some (e_Name entry, blen data) else None.
(** [directory] is what creating and listing the blob directory give. *)
Definition Start (blobManager : BlobManager) (directory : res (list dirEntry)) : BlobManager * res (gmap bytes Z) :=
  if bool_decide (bm_blobDir blobManager = []) then (blobManager, Ok ∅)
  else
    match directory with
    | Ok entries =>
        let loaded := omap loads entries in
        (withBlobs blobManager (foldl (fun blobs e => <[e.1 := None]> blobs) (bm_blobs blobManager) loaded),
         Ok (list_to_map (rev loaded)))
    | Err e => (blobManager, Err e)
    | Panic => (blobManager, Panic)
    | NoFuel => (blobManager, NoFuel)
    end.

(** [get], the file being read after the lock is released. *)
Definition get (blobManager : BlobManager) (disk : Disk) (blobHash : bytes) : option bytes :=
  blobData ← bm_blobs blobManager !! blobHash;
  match blobData with
  | Some data => Some data
  | None =>
      if bool_decide (bm_blobDir blobManager = []) then Some []
      else
        data ← disk !! blobHash;
        if bool_decide (hashBytes data = blobHash) then Some data else None
  end.
Definition GetLocal := get.
(** [Get]: the manager and the directory before and after [Ensure], and what
    [Ensure] returned. *)
Definition Get (before : BlobManager * Disk) (ensured : res unit) (after : BlobManager * Disk)
    (blobHash : bytes) : option bytes :=
  match get before.1 before.2 blobHash with
  | Some data => Some data
  | None => match ensured with Ok _ => get after.1 after.2 blobHash | _ => None end
  end.

(** [Set]; both kinds of blob are stored the same way. *)
Definition Set_ (failure : option writeStage) (written : nat) (temporaryPath : bytes)
    (blobManager : BlobManager) (disk : Disk) (blobHash blobData : bytes) : BlobManager * Disk * res unit :=
  if (blen blobData =? 0) || (MaxBlobSize <? blen blobData) then (blobManager, disk, Err ErrBlobSize)
  else if negb (canonicalBlobHash blobHash) || negb (bool_decide (hashBytes blobData = blobHash)) then
    (blobManager, disk, Err ErrBlobHash)
  else if bm_persist blobManager then
    let '(states, r) := writePersistent failure written disk temporaryPath blobHash blobData in
    match r with
    | Ok _ => (withBlobs blobManager (<[blobHash := None]> (bm_blobs blobManager)), leaves disk states, Ok tt)
    | r => (blobManager, leaves disk states, r)
    end
  else (withBlobs blobManager (<[blobHash := Some blobData]> (bm_blobs blobManager)), disk, Ok tt).

(** [Delete]; [remove] answers the error of [os.Remove] that is not
    [os.ErrNotExist], and the errors are joined. *)
Definition deleteOne (remove : bytes -> option string) (blobManager : BlobManager) (disk : Disk) (blobHash : bytes)
  : BlobManager * Disk * option string :=
  if negb (bool_decide (bm_blobDir blobManager = [])) && canonicalBlobHash blobHash then
    match remove blobHash with
    | Some e => (blobManager, disk, Some e)
    | None => (withBlobs blobManager (delete blobHash (bm_blobs blobManager)), delete blobHash disk, None)
    end
  else (withBlobs blobManager (delete blobHash (bm_blobs blobManager)), disk, None).
Fixpoint Delete (remove : bytes -> option string) (blobManager : BlobManager) (disk : Disk) (blobHashes : list bytes)
  : BlobManager * Disk * list string :=
  match blobHashes with
  | [] => (blobManager, disk, [])
  | blobHash :: blobHashes =>
      let '(blobManager, disk, deleteErr) := deleteOne remove blobManager disk blobHash in
      let '(blobManager, disk, errors) := Delete remove blobManager disk blobHashes in
      (blobManager, disk, match deleteErr with Some e => e :: errors | None => errors end)
  end.

(** [ReadStream]; [get] is the manager's. *)
Fixpoint readBlobs (get : bytes -> option bytes) (key content : bytes) (infos : list BlobInfo) : res bytes :=
  match infos with
  | [] => Ok content
  | blobInfo :: infos =>
      match get (b_BlobHash blobInfo) with
      | None => Err "stream blob is unavailable"
      | Some encrypted =>
          decrypted ← DecryptBlob encrypted key (b_IV blobInfo);
          readBlobs get key (content ++ decrypted) infos
      end
  end.
Definition ReadStream (get : bytes -> option bytes) (sdHash : bytes) : res (StreamDescriptor * bytes) :=
  match get sdHash with
  | None => Err "stream descriptor is unavailable"
  | Some descriptorBytes =>
      descriptor ← DecodeDescriptor sdHash descriptorBytes;
      content ← readBlobs get (sd_Key descriptor) [] (ContentBlobs descriptor);
      Ok (descriptor, content)
  end.

(** The blobs [persistCreatedStream] of [rpc/stream_mutation.go] stores: the SD blob and then the
    others in the order [created] the map is ranged over; [set] is [Set]. *)
Fixpoint setBlobs (set : BlobManager -> Disk -> bytes -> bytes -> BlobManager * Disk * res unit)
    (manager : BlobManager) (disk : Disk) (blobs : list (bytes * bytes)) : BlobManager * Disk * res unit :=
  match blobs with
  | [] => (manager, disk, Ok tt)
  | (hash, data) :: blobs =>
      let '(manager, disk, r) := set manager disk hash data in
      match r with Ok _ => setBlobs set manager disk blobs | r => (manager, disk, r) end
  end.
Definition persistCreatedStream (set : BlobManager -> Disk -> bytes -> bytes -> BlobManager * Disk * res unit)
    (manager : BlobManager) (disk : Disk) (created : CreatedStream) (blobs : list (bytes * bytes))
  : BlobManager * Disk * res unit :=
  setBlobs set manager disk ((cs_SDHash created, cs_DescriptorBytes created) :: blobs).
End digests.

(** ** What every operation keeps *)

Section held.
Context `{Digests}.

(** What the manager says it holds it can give: in memory under its hash, or in
    the directory. *)
Definition heldOk (blobManager : BlobManager) : Prop :=
  (bm_persist blobManager = true -> bm_blobDir blobManager <> []) /\
  forall blobHash v, bm_blobs blobManager !! blobHash = Some v ->
    canonicalBlobHash blobHash = true /\
    match v with
    | Some data => hashBytes data = blobHash /\ 0 < blen data <= MaxBlobSize
    | None => bm_blobDir blobManager <> []
    end.

Lemma withBlobs_id blobManager : withBlobs blobManager (bm_blobs blobManager) = blobManager.
Proof. by destruct blobManager. Qed.

(** [Set] stores the data under its hash, or changes nothing but the temporary file. *)
Lemma Set_spec failure written temporaryPath blobManager disk blobHash data blobManager' disk' r :
  Set_ failure written temporaryPath blobManager disk blobHash data = (blobManager', disk', r) ->
  (r = Ok tt /\ hashBytes data = blobHash /\ 0 < blen data <= MaxBlobSize /\
   if bm_persist blobManager
   then blobManager' = withBlobs blobManager (<[blobHash := None]> (bm_blobs blobManager)) /\
        disk' = <[blobHash := data]> (delete temporaryPath disk)
   else blobManager' = withBlobs blobManager (<[blobHash := Some data]> (bm_blobs blobManager)) /\ disk' = disk) \/
  ((exists e, r = Err e) /\ blobManager' = blobManager /\ (disk' = disk \/ disk' = delete temporaryPath disk)).
Proof.
  unfold Set_. pose proof (blen_nonneg data).
  destruct (Z.eqb_spec (blen data) 0); [intros [= <- <- <-]; right; eauto|].
  destruct (Z.ltb_spec MaxBlobSize (blen data)); [intros [= <- <- <-]; right; eauto|]. cbn [orb].
  destruct (canonicalBlobHash blobHash); [|intros [= <- <- <-]; right; eauto]. cbn [negb orb].
  case_bool_decide; [|intros [= <- <- <-]; right; eauto]. cbn [negb].
  destruct (bm_persist blobManager).
  - destruct failure as [[]|]; cbn; intros [= <- <- <-]; [right; split_and!; [by eexists|done|by auto]..|].
    left. split_and!; [done|done|lia|lia|done|done].
  - intros [= <- <- <-]. left. split_and!; [done|done|lia|lia|done|done].
Qed.

(** Whatever moment a write is cut off at, a file that can be a blob is as it was,
    or the one written and whole. *)
Lemma writePersistent_atomic failure written disk temporaryPath blobHash data :
  canonicalBlobHash temporaryPath = false ->
  Forall (fun d : Disk => forall h, canonicalBlobHash h = true ->
            d !! h = disk !! h \/ h = blobHash /\ d !! h = Some data)
    (writePersistent failure written disk temporaryPath blobHash data).1.
Proof.
  intros Ht. assert (forall h, canonicalBlobHash h = true -> temporaryPath <> h) as Hne by (intros h Hc ->; congruence).
  destruct failure as [[]|]; cbn; rewrite !Forall_cons, Forall_nil; split_and!; try done; intros h Hc; specialize (Hne h Hc);
    rewrite ?lookup_insert_ne, ?lookup_delete_ne by done; auto.
  destruct (decide (h = blobHash)) as [->|]; [by rewrite lookup_insert, decide_True; auto|].
  rewrite lookup_insert_ne, lookup_delete_ne by done. auto.
Qed.

(** [Delete] takes away nothing but the hashes it is given. *)
Lemma deleteOne_spec remove blobManager disk blobHash blobManager' disk' e :
  deleteOne remove blobManager disk blobHash = (blobManager', disk', e) ->
  exists blobs, blobManager' = withBlobs blobManager blobs /\ blobs ⊆ bm_blobs blobManager /\
    forall h, h <> blobHash -> blobs !! h = bm_blobs blobManager !! h /\ disk' !! h = disk !! h.
Proof.
  assert (forall h, h <> blobHash -> delete blobHash (bm_blobs blobManager) !! h = bm_blobs blobManager !! h /\
    delete blobHash disk !! h = disk !! h) as Hd by (intros; by rewrite !lookup_delete_ne).
  unfold deleteOne. destruct (_ && _); [destruct (remove blobHash)|]; intros [= <- <- <-].
  - exists (bm_blobs blobManager). by rewrite withBlobs_id.
  - eexists. split_and!; [done|apply delete_subseteq|done].
  - eexists. split_and!; [done|apply delete_subseteq|]. intros h Hh. split; [by apply Hd|done].
Qed.
Lemma Delete_spec remove blobHashes blobManager disk blobManager' disk' errors :
  Delete remove blobManager disk blobHashes = (blobManager', disk', errors) ->
  exists blobs, blobManager' = withBlobs blobManager blobs /\ blobs ⊆ bm_blobs blobManager /\
    forall h, h ∉ blobHashes -> blobs !! h = bm_blobs blobManager !! h /\ disk' !! h = disk !! h.
Proof.
  revert blobManager disk errors. induction blobHashes as [|blobHash blobHashes IH]; intros blobManager disk errors; cbn [Delete].
  - intros [= <- <- <-]. exists (bm_blobs blobManager). by rewrite withBlobs_id.
  - destruct (deleteOne remove blobManager disk blobHash) as [[m1 d1] e1] eqn:E1.
    destruct (Delete remove m1 d1 blobHashes) as [[m2 d2] e2] eqn:E2. intros [= -> -> <-].
    apply deleteOne_spec in E1 as (b1 & -> & Hs1 & H1'). apply IH in E2 as (b2 & -> & Hs2 & H2').
    exists b2. split_and!; [done|by transitivity b1|]. intros h Hh. apply not_elem_of_cons in Hh as [Hn Hh].
    destruct (H1' h Hn) as [<- <-]. by apply H2'.
Qed.

(** [Start] adds files it has read. *)
Lemma loads_spec entry h n : loads entry = Some (h, n) ->
  h = e_Name entry /\ canonicalBlobHash h = true /\
  exists data, e_Read entry = Some data /\ hashBytes data = h.
Proof.
  unfold loads. destruct (negb (e_Regular entry)); [done|]. cbn [orb].
  destruct (canonicalBlobHash (e_Name entry)) eqn:Ec; [|done]. cbn [negb].
  destruct (e_Size entry) as [size|]; [|done]. cbn. destruct (_ || _); [done|].
  destruct (e_Read entry) as [data|]; [|done]. cbn. case_bool_decide; [|done]. intros [= <- <-]. eauto.
Qed.
Lemma foldl_loaded (loaded : list (bytes * Z)) (blobs : gmap bytes (option bytes)) h :
  foldl (fun blobs e => <[e.1 := None]> blobs) blobs loaded !! h
    = if decide (h ∈ loaded.*1) then Some None else blobs !! h.
Proof.
  revert blobs. induction loaded as [|[h' n] loaded IH]; intros blobs; cbn [foldl fmap list_fmap fst]; [done|].
  rewrite IH. destruct (decide (h ∈ loaded.*1)).
  - rewrite decide_True; [done|]. by apply elem_of_cons; right.
  - destruct (decide (h = h')) as [->|Hne].
    + rewrite lookup_insert, decide_True, decide_True; [done|by apply elem_of_cons; left|done].
    + rewrite lookup_insert_ne by done. rewrite decide_False; [done|]. rewrite elem_of_cons. naive_solver.
Qed.
Lemma Start_spec blobManager directory blobManager' r :
  Start blobManager directory = (blobManager', r) ->
  blobManager' = blobManager \/
  exists entries blobs, directory = Ok entries /\ bm_blobDir blobManager <> [] /\
    blobManager' = withBlobs blobManager blobs /\
    forall h, blobs !! h = bm_blobs blobManager !! h \/
      blobs !! h = Some None /\ canonicalBlobHash h = true /\
      exists entry data, entry ∈ entries /\ e_Name entry = h /\ e_Read entry = Some data /\ hashBytes data = h.
Proof.
  unfold Start. case_bool_decide as Hd; [intros [= <- _]; by left|].
  destruct directory as [entries| | |]; intros [= <- _]; [|by left..]. right.
  exists entries. eexists. split_and!; [done|done|done|]. intros h. rewrite foldl_loaded.
  destruct (decide _) as [Hin|]; [|by left]. right. split; [done|].
  apply list_elem_of_fmap in Hin as ([h' n] & -> & Hin). cbn.
  apply list_elem_of_omap in Hin as (entry & Hentry & Hl). apply loads_spec in Hl as (-> & Hc & data & Hr & Hh).
  split; [done|]. by exists entry, data.
Qed.

Lemma heldOk_new blobManager :
  blobManager = NewManager \/
  (exists blobDir save, blobManager = NewConfiguredManager blobDir save /\ (save = true -> blobDir <> [])) ->
  heldOk blobManager.
Proof. intros [->|(d & s & -> & Hs)]; split; [done|done|done|]. intros ? ? [=]. Qed.
Lemma heldOk_subset blobManager blobs :
  heldOk blobManager -> blobs ⊆ bm_blobs blobManager -> heldOk (withBlobs blobManager blobs).
Proof. intros [Hp Hh] Hs. split; [done|]. intros h v Hv. apply (Hh h v). by eapply lookup_weaken. Qed.
Lemma heldOk_Set failure written temporaryPath blobManager disk blobHash data blobManager' disk' r :
  heldOk blobManager ->
  Set_ failure written temporaryPath blobManager disk blobHash data = (blobManager', disk', r) -> heldOk blobManager'.
Proof.
  intros [Hp Hh] [(_ & Hhash & Hlen & E)|(_ & -> & _)]%Set_spec; [|done].
  assert (canonicalBlobHash blobHash = true) as Hc by (rewrite <- Hhash; apply hashBytes_canonical).
  destruct (bm_persist blobManager) eqn:Ep; destruct E as [-> _]; (split; [cbn; by rewrite Ep|]);
    cbn; intros h v; (destruct (decide (h = blobHash)) as [->|]; [rewrite lookup_insert, decide_True by done|
      rewrite lookup_insert_ne by done; apply Hh]); intros [= <-]; (split; [done|]); [by apply Hp|done].
Qed.
Lemma heldOk_Start blobManager directory blobManager' r :
  heldOk blobManager -> Start blobManager directory = (blobManager', r) -> heldOk blobManager'.
Proof.
  intros [Hp Hh] [->|(entries & blobs & _ & Hd & -> & Hb)]%Start_spec; [done|].
  split; [done|]. cbn. intros h v Hv. destruct (Hb h) as [E|(E & Hc & _)]; rewrite E in Hv; [by apply Hh|].
  injection Hv as <-. done.
Qed.

(** Whatever is on disk, what [get] returns has the hash asked for. *)
Lemma get_hash blobManager disk blobHash data :
  heldOk blobManager -> get blobManager disk blobHash = Some data -> hashBytes data = blobHash.
Proof.
  intros [_ Hh]. unfold get. destruct (bm_blobs blobManager !! blobHash) as [[d|]|] eqn:E; [| |done]; cbn.
  - intros [= ->]. by apply Hh in E as (_ & ? & _).
  - apply Hh in E as [_ Hd]. rewrite bool_decide_eq_false_2 by done.
    destruct (disk !! blobHash) as [d|]; [|done]. cbn. by case_bool_decide; [intros [= <-]|].
Qed.
Lemma get_same blobManager disk blobManager' disk' h :
  bm_blobs blobManager' !! h = bm_blobs blobManager !! h -> bm_blobDir blobManager' = bm_blobDir blobManager ->
  disk' !! h = disk !! h -> get blobManager' disk' h = get blobManager disk h.
Proof. intros E1 E2 E3. unfold get. by rewrite E1, E2, E3. Qed.
Lemma hash_or_collision a b : hashBytes a = hashBytes b -> a = b \/ blobCollision.
Proof.
  intros E. destruct (decide (a = b)) as [|Hne]; [by left|right]. exists a, b. split; [done|].
  by apply (inj hexEncode) in E.
Qed.

Lemma get_stored failure written temporaryPath blobManager disk blobHash data blobManager' disk' :
  heldOk blobManager ->
  Set_ failure written temporaryPath blobManager disk blobHash data = (blobManager', disk', Ok tt) ->
  get blobManager' disk' blobHash = Some data.
Proof.
  intros [Hp _] [(_ & Hh & _ & E)|([? [=]] & _)]%Set_spec. unfold get.
  destruct (bm_persist blobManager) eqn:Ep; destruct E as [-> ->]; cbn; rewrite lookup_insert, decide_True by done; [|done].
  cbn. rewrite bool_decide_eq_false_2 by auto. rewrite lookup_insert, decide_True by done. cbn.
  by rewrite bool_decide_eq_true_2.
Qed.
(** Storing one blob keeps the others. *)
Lemma get_Set_ne failure written temporaryPath blobManager disk blobHash data blobManager' disk' r h :
  temporaryPath <> h -> h <> blobHash ->
  Set_ failure written temporaryPath blobManager disk blobHash data = (blobManager', disk', r) ->
  get blobManager' disk' h = get blobManager disk h.
Proof.
  intros Ht Hne [(_ & _ & _ & E)|(_ & -> & Ed)]%Set_spec.
  - destruct (bm_persist blobManager); destruct E as [-> ->]; apply get_same; cbn;
      rewrite ?lookup_insert_ne, ?lookup_delete_ne by done; done.
  - apply get_same; [done|done|]. destruct Ed as [->| ->]; [done|]. by rewrite lookup_delete_ne.
Qed.
Lemma get_Set failure written temporaryPath blobManager disk blobHash data blobManager' disk' r h d :
  heldOk blobManager -> canonicalBlobHash temporaryPath = false ->
  Set_ failure written temporaryPath blobManager disk blobHash data = (blobManager', disk', r) ->
  get blobManager disk h = Some d -> get blobManager' disk' h = Some d \/ blobCollision.
Proof.
  intros Hok Ht HS Hg. pose proof (get_hash _ _ _ _ Hok Hg) as Hd.
  assert (temporaryPath <> h) as Hne by (intros ->; rewrite <- Hd, hashBytes_canonical in Ht; done).
  destruct (decide (h = blobHash)) as [->|]; [|left; by erewrite get_Set_ne].
  pose proof HS as [(-> & Hh & _)|(_ & -> & Ed)]%Set_spec.
  - rewrite (get_stored _ _ _ _ _ _ _ _ _ Hok HS).
    destruct (hash_or_collision data d) as [->|]; [congruence|by left|by right].
  - left. rewrite <- Hg. apply get_same; [done|done|]. destruct Ed as [->| ->]; [done|]. by rewrite lookup_delete_ne.
Qed.
End held.

(** ** Published streams *)

Section published.
Context `{Digests}.

(** [Set] with what the file system does at each call. *)
Record diskFaults := MkFaults { failureAt : bytes -> option writeStage; writtenAt : bytes -> nat; temporaryAt : bytes -> bytes }.
Definition setWith (faults : diskFaults) (manager : BlobManager) (disk : Disk) (hash data : bytes) :=
  Set_ (failureAt faults hash) (writtenAt faults hash) (temporaryAt faults hash) manager disk hash data.
Definition temporaries (faults : diskFaults) : Prop :=
  forall hash, canonicalBlobHash (temporaryAt faults hash) = false.

Lemma setBlobs_get faults manager disk blobs manager' disk' r :
  temporaries faults -> heldOk manager ->
  setBlobs (setWith faults) manager disk blobs = (manager', disk', r) ->
  heldOk manager' /\
  (forall h d, get manager disk h = Some d -> get manager' disk' h = Some d \/ blobCollision) /\
  (r = Ok tt -> Forall (fun e => get manager' disk' e.1 = Some e.2 \/ blobCollision) blobs).
Proof.
  intros Ht. revert manager disk. induction blobs as [|[hash data] blobs IH]; intros manager disk Hok; cbn [setBlobs].
  - intros [= -> -> <-]. split_and!; [done|by left|by constructor].
  - destruct (setWith faults manager disk hash data) as [[m1 d1] r1] eqn:E.
    pose proof (heldOk_Set _ _ _ _ _ _ _ _ _ _ Hok E) as Hok1.
    pose proof (fun h d => get_Set _ _ _ _ _ _ _ _ _ _ h d Hok (Ht hash) E) as Hkeep.
    destruct r1 as [[]| | |]; [|intros [= <- <- <-]; split_and!; [done|by auto|done]..].
    intros Hs. destruct (IH _ _ Hok1 Hs) as (Hok' & Hk & Hin). split_and!; [done| |].
    + intros h d Hg. destruct (Hkeep h d Hg); [by apply Hk|by right].
    + intros ->. constructor; [|by apply Hin]. apply Hk. exact (get_stored _ _ _ _ _ _ _ _ _ Hok E).
Qed.
(** Without a fault the blobs are stored. *)
Lemma setBlobs_Ok faults manager disk blobs :
  (forall hash, failureAt faults hash = None) ->
  Forall (fun e => hashBytes e.2 = e.1 /\ 0 < blen e.2 <= MaxBlobSize) blobs ->
  (setBlobs (setWith faults) manager disk blobs).2 = Ok tt.
Proof.
  intros Hf. intros Hall. revert manager disk. induction Hall as [|[hash data] blobs [Hh Hlen] Hall IH];
    intros manager disk; cbn [setBlobs]; [done|]. cbn [fst snd] in *.
  unfold setWith at 1, Set_. rewrite Hf. destruct (Z.eqb_spec (blen data) 0); [lia|].
  destruct (Z.ltb_spec MaxBlobSize (blen data)); [lia|]. cbn [orb].
  rewrite bool_decide_eq_true_2 by done. rewrite <- Hh, hashBytes_canonical. cbn [negb orb].
  destruct (bm_persist manager); cbn; apply IH.
Qed.

(** Every blob of a created stream is a sealed piece. *)
Lemma createLoop_sealed fuel key content offset n random blobs infos blobs' random' :
  createLoop fuel key content offset n random blobs = Ok (infos, blobs', random') -> 0 <= offset ->
  forall h e, blobs' !! h = Some e -> blobs !! h = Some e \/ exists p, pieceOk p /\ e = sealed key p.
Proof.
  revert offset n random blobs infos blobs' random'.
  induction fuel as [|fuel IH]; intros offset n random blobs infos blobs' random' Hc Ho h e; cbn [createLoop] in Hc;
    (destruct (Z.leb_spec (blen content) offset); [injection Hc as <- <- <-; by left|]); [done|].
  set (end_ := Z.min (offset + MaxBlobSize - 1) (blen content)) in *.
  apply res_bind_Ok in Hc as ([iv rest] & Hiv & Hc). apply readFull_Ok in Hiv as [Hiv _].
  set (chunk := take (Z.to_nat (end_ - offset)) (drop (Z.to_nat offset) content)) in *.
  apply res_bind_Ok in Hc as ([[infos1 blobs1] random1] & Hrec & [= <- <- <-]).
  assert (0 < blen chunk < MaxBlobSize).
  { unfold chunk, end_, blen, MaxBlobSize in *. rewrite length_take, length_drop. lia. }
  intros He. apply (IH _ _ _ _ _ _ _ Hrec ltac:(unfold end_, MaxBlobSize; lia)) in He as [He|]; [|by right].
  apply lookup_insert_Some in He as [[_ <-]|[_ He]]; [|by left]. right. by exists (iv, chunk).
Qed.
Lemma created_blobs path content random created h e :
  CreateStreamDescriptor path (Ok content) random = Ok created -> cs_Blobs created !! h = Some e ->
  hashBytes e = h /\ 0 < blen e <= MaxBlobSize.
Proof.
  intros Hc He. pose proof Hc as (_ & _ & _ & _ & _ & _ & _ & _ & _ & _ & _ & Hh & _)%createStream_Ok.
  split; [symmetry; by apply Hh|]. unfold CreateStreamDescriptor in Hc. cbn [mbind res_bind] in Hc.
  destruct (blen content =? 0); [done|]. destruct (MaxStreamDescriptorBlobs <? _); [done|].
  apply res_bind_Ok in Hc as ([key random1] & Hkey & Hc). apply readFull_Ok in Hkey as [Hkey _].
  apply res_bind_Ok in Hc as ([[infos blobs] random2] & Hloop & Hc).
  apply res_bind_Ok in Hc as ([iv random3] & _ & Hc). apply res_bind_Ok in Hc as ([] & _ & [= <-]). cbn in He.
  destruct (createLoop_sealed _ _ _ _ _ _ _ _ _ _ Hloop ltac:(lia) h e He) as [Hn|(p & Hp & ->)]; [done|].
  unfold sealed, blen. rewrite (proj2 (encrypt_decrypt key p.1 p.2 Hkey (proj1 Hp))). by apply paddedLength_bound.
Qed.

Lemma readBlobs_pieces get key n pieces content :
  isBlock key -> Forall pieceOk pieces ->
  Forall (fun p => get (hashBytes (sealed key p)) = Some (sealed key p)) pieces ->
  readBlobs get (hexEncode key) content (infosFrom key n pieces) = Ok (content ++ concat (map snd pieces)).
Proof.
  intros Hk Hok. revert n content. induction Hok as [|[iv chunk] pieces [Hiv Hlen] Hok IH]; intros n content Hget;
    [by rewrite app_nil_r|].
  inversion Hget as [|? ? Hp Hps]; subst. cbn [infosFrom readBlobs infoOf b_BlobHash b_IV map concat snd].
  rewrite Hp. unfold sealed. cbn [fst snd]. rewrite (proj1 (encrypt_decrypt key iv chunk Hk Hiv)).
  cbn [mbind res_bind]. rewrite IH by done. by rewrite <- app_assoc.
Qed.
Lemma ContentBlobs_created key pieces iv d :
  isBlock key -> Forall pieceOk pieces ->
  sd_Blobs d = infosFrom key 0 pieces ++ [MkBlob [] (blen pieces) (hexEncode iv) 0] ->
  ContentBlobs d = infosFrom key 0 pieces.
Proof.
  intros Hk Hok E. unfold ContentBlobs. rewrite E, filter_app.
  assert (filter (fun b => 0 < b_Length b /\ b_BlobHash b <> []) [MkBlob [] (blen pieces) (hexEncode iv) 0] = []) as ->.
  { rewrite filter_cons_False; [done|]. cbn. lia. }
  rewrite app_nil_r. clear E. enough (forall n, filter (fun b => 0 < b_Length b /\ b_BlobHash b <> [])
    (infosFrom key n pieces) = infosFrom key n pieces) as He by apply He.
  induction Hok as [|p pieces Hp Hok IH]; intros n; [done|]. cbn [infosFrom]. rewrite filter_cons_True; [by rewrite IH|].
  cbn [infoOf b_Length b_BlobHash]. pose proof (paddedLength_bound p Hp). unfold sealed, blen.
  rewrite (proj2 (encrypt_decrypt key p.1 p.2 Hk (proj1 Hp))). split; [lia|].
  intros E%(f_equal length). unfold hashBytes in E. rewrite length_hexEncode, sha384_length in E. done.
Qed.

Lemma elem_of_infosFrom key n pieces b :
  b ∈ infosFrom key n pieces -> exists k p, p ∈ pieces /\ b = infoOf key k p.
Proof.
  revert n. induction pieces as [|p pieces IH]; intros n; cbn [infosFrom]; [by intros ?%elem_of_nil|].
  intros [->|(k & q & Hq & ->)%IH]%elem_of_cons; [exists n, p|exists k, q]; by split; [constructor|].
Qed.
Lemma pieces_infosFrom key n pieces (P : bytes -> Prop) :
  Forall (fun b => P (b_BlobHash b)) (infosFrom key n pieces) -> Forall (fun p => P (hashBytes (sealed key p))) pieces.
Proof.
  revert n. induction pieces as [|p pieces IH]; intros n; [by constructor|]. cbn [infosFrom].
  inversion 1 as [|? ? Hp Hps]; subst. constructor; [exact Hp|by eapply IH].
Qed.
(** The content blobs of a descriptor are among the blobs created with it. *)
Lemma content_created path content random created :
  CreateStreamDescriptor path (Ok content) random = Ok created ->
  Forall (fun b => exists e, cs_Blobs created !! b_BlobHash b = Some e /\ b_Length b = blen e)
    (ContentBlobs (cs_Descriptor created)) \/ blobCollision.
Proof.
  intros (key & pieces & iv & name & suggested & Hk & _ & Hok & _ & _ & Hcat & Hh & Hin & Ek
    & _ & _ & _ & _ & Eb & _)%createStream_Ok.
  destruct (pieces_lookup _ key pieces Hh Hin) as [Hlook|]; [left|by right].
  rewrite (ContentBlobs_created key pieces iv) by done. apply Forall_forall. intros b (k & p & Hp & ->)%elem_of_infosFrom.
  rewrite Forall_forall in Hlook. by exists (sealed key p); split; [apply Hlook|].
Qed.
(** A manager that gives the SD blob and the content blobs of a created stream reads the stream. *)
Lemma ReadStream_created get path content random created :
  CreateStreamDescriptor path (Ok content) random = Ok created ->
  get (cs_SDHash created) = Some (cs_DescriptorBytes created) ->
  Forall (fun b => get (b_BlobHash b) = cs_Blobs created !! b_BlobHash b) (ContentBlobs (cs_Descriptor created)) ->
  ReadStream get (cs_SDHash created) = Ok (cs_Descriptor created, content) \/ blobCollision.
Proof.
  intros Hc Hsd Hget. pose proof (decode_created _ _ _ _ Hc) as Hdec.
  apply createStream_Ok in Hc as (key & pieces & iv & name & suggested & Hk & _ & Hok & _ & _ & Hcat & Hh & Hin & Ek
    & _ & _ & _ & _ & Eb & _).
  destruct (pieces_lookup _ key pieces Hh Hin) as [Hlook|]; [left|by right].
  unfold ReadStream. rewrite Hsd, Hdec. cbn [mbind res_bind]. rewrite (ContentBlobs_created key pieces iv) in * by done.
  rewrite Ek, readBlobs_pieces; [by rewrite <- Hcat|done|done|].
  apply (pieces_infosFrom _ _ _ (fun h => get h = cs_Blobs created !! h)) in Hget.
  rewrite Forall_forall in Hget, Hlook |- *. intros p Hp. by rewrite Hget, Hlook.
Qed.

(** What publishing stored can be read. *)
Lemma persistCreatedStream_get faults manager disk path content random created order manager' disk' :
  heldOk manager -> temporaries faults ->
  CreateStreamDescriptor path (Ok content) random = Ok created -> order ≡ₚ map_to_list (cs_Blobs created) ->
  persistCreatedStream (setWith faults) manager disk created order = (manager', disk', Ok tt) ->
  (get manager' disk' (cs_SDHash created) = Some (cs_DescriptorBytes created) /\
   forall h e, cs_Blobs created !! h = Some e -> get manager' disk' h = Some e) \/ blobCollision.
Proof.
  intros Hok Ht Hc Hord Hp. destruct (setBlobs_get _ _ _ _ _ _ _ Ht Hok Hp) as (_ & _ & Hin). specialize (Hin eq_refl).
  assert (Forall (fun e => get manager' disk' e.1 = Some e.2)
            ((cs_SDHash created, cs_DescriptorBytes created) :: order) \/ blobCollision) as [Hall|]; [|left|by right].
  { by apply Forall_or_const. }
  inversion Hall as [|? ? Hsd Hblobs]; subst. split; [done|].
  intros h e He. rewrite Forall_forall in Hblobs. apply (Hblobs (h, e)). rewrite Hord. by apply elem_of_map_to_list.
Qed.
Lemma created_sd path content random created :
  CreateStreamDescriptor path (Ok content) random = Ok created ->
  hashBytes (cs_DescriptorBytes created) = cs_SDHash created /\ 0 < blen (cs_DescriptorBytes created) <= MaxBlobSize.
Proof.
  intros Hc. split; [|by apply create_size in Hc].
  by apply createStream_Ok in Hc as (? & ? & ? & ? & ? & _ & _ & _ & _ & _ & _ & _ & _ & _ & _ & _ & _ & _ & _ & _ & _ & ->).
Qed.

Lemma persistCreatedStream_Ok faults manager disk path content random created order :
  (forall hash, failureAt faults hash = None) ->
  CreateStreamDescriptor path (Ok content) random = Ok created -> order ≡ₚ map_to_list (cs_Blobs created) ->
  (persistCreatedStream (setWith faults) manager disk created order).2 = Ok tt.
Proof.
  intros Hf Hc Hord. apply setBlobs_Ok; [done|]. constructor; [by apply created_sd in Hc|].
  rewrite Hord. apply Forall_forall. intros [h e] He%elem_of_map_to_list. by eapply created_blobs.
Qed.

(** A published stream can be read.  The blobs that publishing a stream
    creates, stored in a blob manager in whatever order the map of blobs is ranged
    over and whether the manager keeps them in memory or writes them to files, are
    stored unless a file operation fails; once they are, the manager reads the
    stream back as the descriptor and the content of the file.  The alternative
    is a collision of SHA-384. *)
Theorem published_stream_reads faults manager disk path content random created order manager' disk' r :
  heldOk manager -> temporaries faults ->
  CreateStreamDescriptor path (Ok content) random = Ok created -> order ≡ₚ map_to_list (cs_Blobs created) ->
  persistCreatedStream (setWith faults) manager disk created order = (manager', disk', r) ->
  ((forall hash, failureAt faults hash = None) -> r = Ok tt) /\
  (r = Ok tt ->
   ReadStream (get manager' disk') (cs_SDHash created) = Ok (cs_Descriptor created, content) \/ blobCollision).
Proof.
  intros Hok Ht Hc Hord Hp. split.
  - intros Hf. pose proof (persistCreatedStream_Ok faults manager disk path content random created order Hf Hc Hord) as Hr.
    by rewrite Hp in Hr.
  - intros ->. destruct (persistCreatedStream_get _ _ _ _ _ _ _ _ _ _ Hok Ht Hc Hord Hp) as [[Hsd Hblobs]|]; [|by right].
    destruct (content_created _ _ _ _ Hc) as [Hcontent|]; [|by right]. eapply ReadStream_created; [done|done|].
    eapply Forall_impl; [exact Hcontent|]. intros b (e & He & _). by rewrite He; apply Hblobs.
Qed.
End published.

(** ** Witness *)

#[local] Existing Instance exampleDigests.
Definition noFaults : diskFaults := MkFaults (fun _ => None) (fun _ => 0%nat) (fun _ => lit ".blob-1").
Lemma noFaults_temporaries : temporaries noFaults.
Proof. intros hash. reflexivity. Qed.
Lemma published_stream_reads_witness :
  exists created manager disk, exampleCreated = Ok created /\
    (ReadStream (get manager disk) (cs_SDHash created) = Ok (cs_Descriptor created, exampleContent) \/ blobCollision).
Proof.
  destruct example_created as [created E].
  destruct (persistCreatedStream (setWith noFaults) (NewPersistentManager (lit "/blobfiles")) ∅ created
              (map_to_list (cs_Blobs created))) as [[manager disk] r] eqn:Ep.
  assert (Hok : heldOk (NewPersistentManager (lit "/blobfiles"))).
  { apply heldOk_new. right. exists (lit "/blobfiles"), true. split; [reflexivity|]. intros _ [=]. }
  destruct (published_stream_reads noFaults _ _ examplePath exampleContent exampleRandom created _ _ _ _
              Hok noFaults_temporaries E (reflexivity _) Ep) as [Hr Hread].
  exists created, manager, disk. split; [exact E|]. apply Hread, Hr. reflexivity.
Defined.
