(* ===== verification/BlobFlights.v ===== *)
(** * Concurrent fetches of a blob manager

    Callers of [Ensure] for the same blob share one fetch (a flight).  [step]
    interleaves the critical sections of the callers, of the goroutines that
    fetch, and of whoever else touches the manager or its directory.  The
    invariant says that a blob has at most one fetch that is not cancelled, that a
    flight counts its callers, and that no caller waits in vain. *)

From stdpp Require Import relations fin_maps.
From S2P Require Import Prelude Hex Digest Json Stream BlobManager.

Section flights.
Context `{Digests}.

(** ** Fetching

    A flight is the object its callers share; [done] is closed by setting its
    result.  [g_Stage] is where the goroutine of a flight is. *)

Record fetchFlight := MkFlight { ff_Done : option (res unit); ff_Cancelled : bool; ff_Waiters : Z }.
Inductive stage :=
| Fetching                     (* in the fetcher *)
| Fetched (data : bytes)       (* the fetcher has returned *)
| Stored                       (* [Set] has returned, before [RecordCompletedBlob] *)
| RollingBack (e : string)     (* the record failed, before [Delete] *)
| Left (err : res unit).       (* [fetchAndStore] has returned *)
Record goroutine := MkGoroutine { g_Hash : bytes; g_Stage : stage }.

Record world := MkWorld {
  w_Manager : BlobManager;
  w_Disk : Disk;
  w_Flights : gmap nat fetchFlight;       (* every flight ever made, by address *)
  w_Goroutines : gmap nat goroutine;      (* by the flight they run *)
  w_Callers : gmap nat (bytes * nat);     (* in [waitForFlight]: hash and flight *)
  w_Completed : gset bytes                (* recorded in the completion store *)
}.

Definition cancel (flights : gmap nat fetchFlight) (flight : nat) : gmap nat fetchFlight :=
  alter (fun f => MkFlight (ff_Done f) true (ff_Waiters f)) flight flights.
Definition addWaiters (n : Z) (flights : gmap nat fetchFlight) (flight : nat) : gmap nat fetchFlight :=
  alter (fun f => MkFlight (ff_Done f) (ff_Cancelled f) (ff_Waiters f + n)) flight flights.
Definition waitersOf (flights : gmap nat fetchFlight) (flight : nat) : Z :=
  match flights !! flight with Some f => ff_Waiters f | None => 0 end.

(** [Ensure] up to [waitForFlight]: it returns, or joins a flight, or starts one
    at the address [fresh]. *)
Inductive entered := Returns (r : res unit) | Joins (flight : nat) | StartsFlight (flight : nat).
Definition Ensure (fresh : nat) (blobManager : BlobManager) (flights : gmap nat fetchFlight) (blobHash : bytes)
  : BlobManager * gmap nat fetchFlight * entered :=
  if negb (ValidHash blobHash) then (blobManager, flights, Returns (Err "invalid blob hash"))
  else if Has blobManager blobHash then (blobManager, flights, Returns (Ok tt))
  else
    let start (inFlight : gmap bytes nat) :=
      if negb (bm_fetch blobManager) then
        (withInFlight blobManager inFlight, flights, Returns (Err "no fetcher is configured for blob"))
      else
        (withInFlight blobManager (<[blobHash := fresh]> inFlight), <[fresh := MkFlight None false 1]> flights,
         StartsFlight fresh) in
    match bm_inFlight blobManager !! blobHash with
    | Some flight =>
        if 0 <? waitersOf flights flight
        then (blobManager, addWaiters 1 flights flight, Joins flight)
        else start (delete blobHash (bm_inFlight blobManager))
    | None => start (bm_inFlight blobManager)
    end.

(** [waitForFlight] when the context of the caller ends. *)
Definition giveUp (blobManager : BlobManager) (flights : gmap nat fetchFlight) (blobHash : bytes) (flight : nat)
  : gmap nat fetchFlight :=
  if bool_decide (bm_inFlight blobManager !! blobHash = Some flight) then
    let flights := addWaiters (-1) flights flight in
    if waitersOf flights flight =? 0 then cancel flights flight else flights
  else flights.

(** The last critical section of the goroutine. *)
Definition finish (blobManager : BlobManager) (flights : gmap nat fetchFlight) (blobHash : bytes) (flight : nat)
    (err : res unit) : BlobManager * gmap nat fetchFlight :=
  (if bool_decide (bm_inFlight blobManager !! blobHash = Some flight)
   then withInFlight blobManager (delete blobHash (bm_inFlight blobManager)) else blobManager,
   alter (fun f => MkFlight (Some err) true (ff_Waiters f)) flight flights).

(** [fetchAndStore] after the fetcher returned data, up to the completion
    record: the next stage of the goroutine. *)
Definition storeFetched (failure : option writeStage) (written : nat) (temporaryPath : bytes)
    (blobManager : BlobManager) (disk : Disk) (blobHash data : bytes) : BlobManager * Disk * stage :=
  if negb (bool_decide (hashBytes data = blobHash)) then (blobManager, disk, Left (Err ErrBlobHash))
  else
    let '(blobManager, disk, r) := Set_ failure written temporaryPath blobManager disk blobHash data in
    (blobManager, disk, match r with Ok _ => Stored | r => Left r end).

(** [Stop] *)
Definition Stop (blobManager : BlobManager) (flights : gmap nat fetchFlight) : BlobManager * gmap nat fetchFlight :=
  (withInFlight (withBlobs blobManager ∅) ∅,
   foldr (fun flight flights => cancel flights flight) flights (map_to_list (bm_inFlight blobManager)).*2).

(** ** Interleavings *)

Inductive move :=
| Call (caller : nat) (blobHash : bytes) (e : entered)
| Answer (caller : nat) (err : res unit)
| Leave (caller : nat)
| Receive (flight : nat)
| Store (flight : nat)
| Record_ (flight : nat)
| Rollback (blobHash : bytes)
| Finish (flight : nat)
| SetBlob (blobHash : bytes)
| DeleteBlobs (blobHashes : list bytes)
| StartManager
| StopManager
| Configure
| Outside (disk : Disk).

Definition stageAt (w : world) (flight : nat) (blobHash : bytes) (s : stage) : Prop :=
  w_Goroutines w !! flight = Some (MkGoroutine blobHash s).
Definition toStage (w : world) (flight : nat) (blobHash : bytes) (s : stage) : gmap nat goroutine :=
  <[flight := MkGoroutine blobHash s]> (w_Goroutines w).

Inductive step : move -> world -> world -> Prop :=
| StepCall w caller blobHash fresh blobManager flights e :
    w_Callers w !! caller = None -> w_Flights w !! fresh = None ->
    Ensure fresh (w_Manager w) (w_Flights w) blobHash = (blobManager, flights, e) ->
    step (Call caller blobHash e) w
      (MkWorld blobManager (w_Disk w) flights
         match e with
         | StartsFlight flight => toStage w flight blobHash Fetching
         | _ => w_Goroutines w
         end
         match e with
         | Returns _ => w_Callers w
         | Joins flight | StartsFlight flight => <[caller := (blobHash, flight)]> (w_Callers w)
         end (w_Completed w))
| StepAnswer w caller blobHash flight f err :
    w_Callers w !! caller = Some (blobHash, flight) -> w_Flights w !! flight = Some f -> ff_Done f = Some err ->
    step (Answer caller err) w
      (MkWorld (w_Manager w) (w_Disk w) (w_Flights w) (w_Goroutines w) (delete caller (w_Callers w)) (w_Completed w))
| StepLeave w caller blobHash flight :
    w_Callers w !! caller = Some (blobHash, flight) ->
    step (Leave caller) w
      (MkWorld (w_Manager w) (w_Disk w) (giveUp (w_Manager w) (w_Flights w) blobHash flight) (w_Goroutines w)
         (delete caller (w_Callers w)) (w_Completed w))
| StepReceive w flight blobHash (r : bytes + string) :
    stageAt w flight blobHash Fetching ->
    step (Receive flight) w
      (MkWorld (w_Manager w) (w_Disk w) (w_Flights w)
         (toStage w flight blobHash match r with inl data => Fetched data | inr e => Left (Err e) end)
         (w_Callers w) (w_Completed w))
| StepStore w flight blobHash data failure written temporaryPath blobManager disk s :
    stageAt w flight blobHash (Fetched data) -> canonicalBlobHash temporaryPath = false ->
    storeFetched failure written temporaryPath (w_Manager w) (w_Disk w) blobHash data = (blobManager, disk, s) ->
    step (Store flight) w
      (MkWorld blobManager disk (w_Flights w) (toStage w flight blobHash s) (w_Callers w) (w_Completed w))
| StepNoRecord w flight blobHash :
    stageAt w flight blobHash Stored -> bm_records (w_Manager w) = false ->
    step (Record_ flight) w
      (MkWorld (w_Manager w) (w_Disk w) (w_Flights w) (toStage w flight blobHash (Left (Ok tt)))
         (w_Callers w) (w_Completed w))
| StepRecord w flight blobHash :
    stageAt w flight blobHash Stored -> bm_records (w_Manager w) = true ->
    step (Record_ flight) w
      (MkWorld (w_Manager w) (w_Disk w) (w_Flights w) (toStage w flight blobHash (Left (Ok tt)))
         (w_Callers w) ({[blobHash]} ∪ w_Completed w))
| StepRecordFails w flight blobHash e :
    stageAt w flight blobHash Stored -> bm_records (w_Manager w) = true ->
    step (Record_ flight) w
      (MkWorld (w_Manager w) (w_Disk w) (w_Flights w) (toStage w flight blobHash (RollingBack e))
         (w_Callers w) (w_Completed w))
| StepRollback w flight blobHash e remove blobManager disk errors :
    stageAt w flight blobHash (RollingBack e) ->
    Delete remove (w_Manager w) (w_Disk w) [blobHash] = (blobManager, disk, errors) ->
    step (Rollback blobHash) w
      (MkWorld blobManager disk (w_Flights w) (toStage w flight blobHash (Left (Err e))) (w_Callers w) (w_Completed w))
| StepFinish w flight blobHash err blobManager flights :
    stageAt w flight blobHash (Left err) ->
    finish (w_Manager w) (w_Flights w) blobHash flight err = (blobManager, flights) ->
    step (Finish flight) w
      (MkWorld blobManager (w_Disk w) flights (delete flight (w_Goroutines w)) (w_Callers w) (w_Completed w))
| StepSet w blobHash data failure written temporaryPath blobManager disk r :
    canonicalBlobHash temporaryPath = false ->
    Set_ failure written temporaryPath (w_Manager w) (w_Disk w) blobHash data = (blobManager, disk, r) ->
    step (SetBlob blobHash) w
      (MkWorld blobManager disk (w_Flights w) (w_Goroutines w) (w_Callers w) (w_Completed w))
| StepDelete w remove blobHashes blobManager disk errors :
    Delete remove (w_Manager w) (w_Disk w) blobHashes = (blobManager, disk, errors) ->
    step (DeleteBlobs blobHashes) w
      (MkWorld blobManager disk (w_Flights w) (w_Goroutines w) (w_Callers w) (w_Completed w))
| StepStart w directory blobManager r :
    (forall entries, directory = Ok entries ->
       Forall (fun entry => e_Read entry = w_Disk w !! e_Name entry \/ e_Read entry = None) entries) ->
    Start (w_Manager w) directory = (blobManager, r) ->
    step StartManager w
      (MkWorld blobManager (w_Disk w) (w_Flights w) (w_Goroutines w) (w_Callers w) (w_Completed w))
| StepStop w blobManager flights :
    Stop (w_Manager w) (w_Flights w) = (blobManager, flights) ->
    step StopManager w
      (MkWorld blobManager (w_Disk w) flights (w_Goroutines w) (w_Callers w) (w_Completed w))
| StepConfigure w fetcher records :
    step Configure w
      (MkWorld (SetCompletionStore (SetFetcher (w_Manager w) fetcher) records) (w_Disk w) (w_Flights w)
         (w_Goroutines w) (w_Callers w) (w_Completed w))
| StepOutside w disk :
    step (Outside disk) w
      (MkWorld (w_Manager w) disk (w_Flights w) (w_Goroutines w) (w_Callers w) (w_Completed w)).

Inductive run : list move -> world -> world -> Prop :=
| RunNil w : run [] w w
| RunCons m ms w w1 w2 : step m w w1 -> run ms w1 w2 -> run (m :: ms) w w2.

(** The managers of [NewManager] and [NewConfiguredManager]; one that writes
    files has a directory. *)
Definition initial (blobManager : BlobManager) (disk : Disk) : world := MkWorld blobManager disk ∅ ∅ ∅ ∅.
Definition newManager (blobManager : BlobManager) : Prop :=
  blobManager = NewManager \/
  exists blobDir save, blobManager = NewConfiguredManager blobDir save /\ (save = true -> blobDir <> []).
Definition reachable (w : world) : Prop :=
  exists blobManager disk ms, newManager blobManager /\ run ms (initial blobManager disk) w.

(** ** The blobs *)

(** The moves that may take a blob away. *)
Definition removes (m : move) (w : world) (blobHash : bytes) : Prop :=
  match m with
  | DeleteBlobs blobHashes => blobHash ∈ blobHashes
  | Rollback h => blobHash = h
  | StopManager => True
  | Outside disk => disk !! blobHash <> w_Disk w !! blobHash
  | _ => False
  end.

Lemma Ensure_manager fresh blobManager flights blobHash blobManager' flights' e :
  Ensure fresh blobManager flights blobHash = (blobManager', flights', e) ->
  exists inFlight, blobManager' = withInFlight blobManager inFlight.
Proof.
  assert (blobManager = withInFlight blobManager (bm_inFlight blobManager)) as Hid by by destruct blobManager.
  unfold Ensure. destruct (negb (ValidHash _)); [intros [= <- _ _]; by eexists|].
  destruct (Has _ _); [intros [= <- _ _]; by eexists|].
  destruct (bm_inFlight blobManager !! blobHash); [destruct (0 <? _); [intros [= <- _ _]; by eexists|]|];
    (destruct (negb _); intros [= <- _ _]; by eexists).
Qed.
Lemma finish_manager blobManager flights blobHash flight err blobManager' flights' :
  finish blobManager flights blobHash flight err = (blobManager', flights') ->
  exists inFlight, blobManager' = withInFlight blobManager inFlight.
Proof.
  assert (blobManager = withInFlight blobManager (bm_inFlight blobManager)) as Hid by by destruct blobManager.
  unfold finish. case_bool_decide; intros [= <- _]; by eexists.
Qed.
(** What [storeFetched] does is [Set]. *)
Lemma storeFetched_Set failure written temporaryPath blobManager disk blobHash data blobManager' disk' s :
  storeFetched failure written temporaryPath blobManager disk blobHash data = (blobManager', disk', s) ->
  (blobManager' = blobManager /\ disk' = disk /\ exists e, s = Left (Err e)) \/
  exists r, Set_ failure written temporaryPath blobManager disk blobHash data = (blobManager', disk', r) /\
    s = match r with Ok _ => Stored | r => Left r end.
Proof.
  unfold storeFetched. destruct (negb _); [intros [= <- <- <-]; left; eauto|].
  destruct (Set_ _ _ _ _ _ _ _) as [[m d] r]. intros [= <- <- <-]. right. eauto.
Qed.

Lemma step_held m w w' : step m w w' -> heldOk (w_Manager w) -> heldOk (w_Manager w').
Proof.
  intros Hs Hok. destruct Hs; cbn [w_Manager w_Disk] in *; try done.
  - match goal with HE : Ensure _ _ _ _ = _ |- _ => by apply Ensure_manager in HE as [? ->] end.
  - match goal with HS : storeFetched _ _ _ _ _ _ _ = _ |- _ => apply storeFetched_Set in HS as [(-> & _)|(? & HS & _)] end;
      [done|by eapply heldOk_Set].
  - match goal with HD : Delete _ _ _ _ = _ |- _ => apply Delete_spec in HD as (? & -> & ? & _) end.
    by apply heldOk_subset.
  - match goal with HF : finish _ _ _ _ _ = _ |- _ => by apply finish_manager in HF as [? ->] end.
  - by eapply heldOk_Set.
  - match goal with HD : Delete _ _ _ _ = _ |- _ => apply Delete_spec in HD as (? & -> & ? & _) end.
    by apply heldOk_subset.
  - by eapply heldOk_Start.
  - match goal with HS : Stop _ _ = _ |- _ => injection HS as <- <- end. split; [apply Hok|]. intros ? ? [=].
Qed.
Lemma run_held ms w w' : run ms w w' -> heldOk (w_Manager w) -> heldOk (w_Manager w').
Proof. induction 1; [done|]. intros. by eapply IHrun, step_held. Qed.
Lemma reachable_held w : reachable w -> heldOk (w_Manager w).
Proof. intros (m & disk & ms & Hnew & Hrun). eapply run_held; [exact Hrun|]. by apply heldOk_new. Qed.

(** A blob stays until a move takes it away. *)
Lemma step_keeps m w w' h data :
  step m w w' -> heldOk (w_Manager w) -> ~ removes m w h ->
  get (w_Manager w) (w_Disk w) h = Some data -> get (w_Manager w') (w_Disk w') h = Some data \/ blobCollision.
Proof.
  intros Hs Hok Hn Hg. destruct Hs; cbn [w_Manager w_Disk removes] in *; try (by left).
  - match goal with HE : Ensure _ _ _ _ = _ |- _ => apply Ensure_manager in HE as [? ->] end. by left.
  - match goal with HS : storeFetched _ _ _ _ _ _ _ = _ |- _ => apply storeFetched_Set in HS as [(-> & -> & _)|(? & HS & _)] end;
      [by left|]. by eapply get_Set.
  - match goal with HD : Delete _ _ _ _ = _ |- _ => apply Delete_spec in HD as (? & -> & _ & Hsame) end.
    left. rewrite <- Hg. destruct (Hsame h) as [E1 E2]; [by rewrite list_elem_of_singleton|]. by apply get_same.
  - match goal with HF : finish _ _ _ _ _ = _ |- _ => apply finish_manager in HF as [? ->] end. by left.
  - by eapply get_Set.
  - match goal with HD : Delete _ _ _ _ = _ |- _ => apply Delete_spec in HD as (? & -> & _ & Hsame) end.
    left. rewrite <- Hg. destruct (Hsame h) as [E1 E2]; [done|]. by apply get_same.
  - match goal with HS : Start _ _ = _ |- _ => apply Start_spec in HS as [->|(entries & blobs & -> & Hd & -> & Hb)] end;
      [by left|].
    destruct (Hb h) as [E|(E & _ & entry & d & Hin & <- & Hr & Hh)]; [left; rewrite <- Hg; by apply get_same|].
    match goal with HF : forall entries, _ |- _ => specialize (HF _ eq_refl); rewrite Forall_forall in HF;
      destruct (HF entry Hin) as [E'|E'] end; [|congruence].
    unfold get. cbn. rewrite E. cbn. rewrite bool_decide_eq_false_2 by done. rewrite <- E', Hr. cbn.
    rewrite bool_decide_eq_true_2 by done. pose proof (get_hash _ _ _ _ Hok Hg) as Hh'.
    destruct (hash_or_collision d data) as [->|]; [congruence|by left|by right].
  - left. rewrite <- Hg. apply get_same; [done|done|]. destruct (decide (disk !! h = w_Disk w !! h)); [done|]. by destruct Hn.
Qed.


(** ** The flights *)

(** How many callers wait on a flight. *)
Definition waitingOn (flight : nat) (e : nat * (bytes * nat)) : Prop := e.2.2 = flight.
#[local] Instance waitingOn_dec flight e : Decision (waitingOn flight e).
Proof. unfold waitingOn. apply _. Defined.
Definition waiting (callers : gmap nat (bytes * nat)) (flight : nat) : Z :=
  Z.of_nat (size (filter (waitingOn flight) callers)).

Lemma waiting_insert callers caller h f g :
  callers !! caller = None ->
  waiting (<[caller := (h, f)]> callers) g = waiting callers g + (if decide (f = g) then 1 else 0).
Proof.
  intros Hn. unfold waiting. destruct (decide (f = g)) as [->|Hne].
  - rewrite map_filter_insert_True by done. rewrite map_size_insert_None; [lia|].
    rewrite map_lookup_filter_None. by left.
  - rewrite map_filter_insert_False by done. rewrite delete_id by done. lia.
Qed.
Lemma waiting_delete callers caller h f g :
  callers !! caller = Some (h, f) ->
  waiting (delete caller callers) g = waiting callers g - (if decide (f = g) then 1 else 0).
Proof.
  intros Hs. rewrite <- (insert_delete_id callers caller (h, f) Hs) at 2.
  rewrite waiting_insert by (by rewrite lookup_delete, decide_True). lia.
Qed.
Lemma waiting_pos callers caller h f : callers !! caller = Some (h, f) -> 0 < waiting callers f.
Proof.
  intros Hs. pose proof (waiting_delete callers caller h f f Hs) as E. rewrite decide_True in E by done.
  unfold waiting in *. lia.
Qed.

Record flightsOk (w : world) : Prop := {
  (* a flight of the map runs for its blob, counts its callers, and is cancelled
     exactly when it has none *)
  flights_listed h f : bm_inFlight (w_Manager w) !! h = Some f ->
    exists fl s, w_Flights w !! f = Some fl /\ ff_Done fl = None /\ stageAt w f h s /\
      ff_Waiters fl = waiting (w_Callers w) f /\ ff_Cancelled fl = (ff_Waiters fl =? 0);
  (* a goroutine has not closed [done]; it is cancelled unless its flight is the map's *)
  flights_running f h s : stageAt w f h s ->
    exists fl, w_Flights w !! f = Some fl /\ ff_Done fl = None /\
      (ff_Cancelled fl = false -> bm_inFlight (w_Manager w) !! h = Some f);
  (* a caller waits for something *)
  flights_waited c h f : w_Callers w !! c = Some (h, f) ->
    exists fl, w_Flights w !! f = Some fl /\ (is_Some (ff_Done fl) \/ exists s, stageAt w f h s)
}.

Lemma flightsOk_initial blobManager disk : newManager blobManager -> flightsOk (initial blobManager disk).
Proof.
  intros Hn. assert (bm_inFlight blobManager = ∅) as E by (destruct Hn as [->|(? & ? & -> & _)]; done).
  split; cbn.
  - intros h f. rewrite E. done.
  - intros f h s. unfold stageAt. cbn. done.
  - done.
Qed.

(** Moves that touch neither flights, callers nor the hash a goroutine works for. *)
Lemma flightsOk_same w w' :
  flightsOk w -> bm_inFlight (w_Manager w') = bm_inFlight (w_Manager w) ->
  w_Flights w' = w_Flights w -> w_Callers w' = w_Callers w ->
  g_Hash <$> w_Goroutines w' = g_Hash <$> w_Goroutines w -> flightsOk w'.
Proof.
  intros [Hl Hr Hw] Ei Ef Ec Eg.
  assert (forall a b f h s, g_Hash <$> w_Goroutines a = g_Hash <$> w_Goroutines b -> stageAt a f h s ->
    exists s', stageAt b f h s') as Hst.
  { unfold stageAt. intros a b f h s E Hs. apply (f_equal (lookup f)) in E. rewrite !lookup_fmap, Hs in E. cbn in E.
    destruct (w_Goroutines b !! f) as [[h' s']|]; [|done]. cbn in E. injection E as ->. by exists s'. }
  split.
  - intros h f. rewrite Ei. intros (fl & s & Hf & Hd & (s' & Hs)%(Hst w w') & Hc)%Hl; [|done].
    exists fl, s'. rewrite Ef, Ec. done.
  - intros f h s (s' & Hs)%(Hst w' w); [|done]. rewrite Ef, Ei. by eapply Hr.
  - intros c h f. rewrite Ec. intros (fl & Hf & Hd)%Hw. rewrite Ef. exists fl. split; [done|].
    destruct Hd as [Hd|[s Hs]]; [by left|right]. by apply (Hst w w') in Hs.
Qed.
Lemma goroutines_stage w f h s s' :
  stageAt w f h s -> g_Hash <$> toStage w f h s' = g_Hash <$> w_Goroutines w.
Proof.
  intros Hs. unfold toStage. rewrite fmap_insert. cbn. apply insert_id. rewrite lookup_fmap.
  unfold stageAt in Hs. by rewrite Hs.
Qed.

Lemma lookup_alter_Some' (flights : gmap nat fetchFlight) k i fl f :
  flights !! i = Some fl -> alter k f flights !! i = Some (if decide (f = i) then k fl else fl).
Proof. intros Hf. destruct (decide (f = i)) as [->|Hne]; [by rewrite lookup_alter_eq, Hf|by rewrite lookup_alter_ne]. Qed.

Lemma alter_insert_at (flights : gmap nat fetchFlight) k f fl :
  flights !! f = Some fl -> alter k f flights = <[f := k fl]> flights.
Proof.
  intros Hf. apply map_eq. intros i. destruct (decide (f = i)) as [->|Hne];
    [by rewrite lookup_alter_eq, Hf, lookup_insert, decide_True|by rewrite lookup_alter_ne, lookup_insert_ne].
Qed.

(** A flight nobody waits for leaves the map. *)
Lemma flightsOk_drop w h f :
  flightsOk w -> bm_inFlight (w_Manager w) !! h = Some f -> ~ 0 < waitersOf (w_Flights w) f ->
  flightsOk (MkWorld (withInFlight (w_Manager w) (delete h (bm_inFlight (w_Manager w)))) (w_Disk w) (w_Flights w)
               (w_Goroutines w) (w_Callers w) (w_Completed w)).
Proof.
  intros [Hl Hr Hw] Hf Hn. split; cbn.
  - intros h' f' [_ Hh]%lookup_delete_Some. by apply Hl.
  - intros f' h' s Hs. destruct (Hr _ _ _ Hs) as (fl & E & Hd & Hc). exists fl. split_and!; [done|done|].
    intros Hcan. pose proof (Hc Hcan) as Hh. rewrite lookup_delete_ne; [done|]. intros ->.
    destruct (Hl _ _ Hh) as (fl' & _ & E' & _ & _ & Hwt & Hc'). rewrite E in E'. injection E' as <-.
    assert (f' = f) as -> by congruence. unfold waitersOf in Hn. rewrite E in Hn.
    rewrite Hcan in Hc'. symmetry in Hc'. apply Z.eqb_neq in Hc'. unfold waiting in Hwt. lia.
  - done.
Qed.
(** A caller joins the flight of the map. *)
Lemma flightsOk_join w caller h f :
  flightsOk w -> bm_inFlight (w_Manager w) !! h = Some f -> 0 < waitersOf (w_Flights w) f ->
  w_Callers w !! caller = None ->
  flightsOk (MkWorld (w_Manager w) (w_Disk w) (addWaiters 1 (w_Flights w) f) (w_Goroutines w)
               (<[caller := (h, f)]> (w_Callers w)) (w_Completed w)).
Proof.
  intros [Hl Hr Hw] Hf Hn Hfresh. unfold addWaiters. split; cbn.
  - intros h' f' Hh. destruct (Hl _ _ Hh) as (fl & s & E & Hd & Hs & Hwt & Hc).
    eexists. exists s. split; [by apply lookup_alter_Some'|]. rewrite waiting_insert by done.
    unfold waitersOf in Hn. destruct (decide (f = f')) as [<-|]; cbn; [|split_and!; [done|done|lia|done]].
    rewrite E in Hn. split_and!; [done|done|lia|]. rewrite Hc.
    destruct (Z.eqb_spec (ff_Waiters fl) 0), (Z.eqb_spec (ff_Waiters fl + 1) 0); lia.
  - intros f' h' s Hs. destruct (Hr _ _ _ Hs) as (fl & E & Hd & Hc).
    eexists. split; [by apply lookup_alter_Some'|]. by destruct (decide _).
  - intros c h' f' [[_ [= <- <-]]|[_ Hc]]%lookup_insert_Some.
    + destruct (Hl _ _ Hf) as (fl & s & E & _ & Hs & _). eexists. split; [by apply lookup_alter_Some'|]. right. by exists s.
    + destruct (Hw _ _ _ Hc) as (fl & E & Hd). eexists. split; [by apply lookup_alter_Some'|]. by destruct (decide _).
Qed.
(** A caller starts one. *)
Lemma flightsOk_start w caller h fresh :
  flightsOk w -> bm_inFlight (w_Manager w) !! h = None -> w_Flights w !! fresh = None -> w_Callers w !! caller = None ->
  flightsOk (MkWorld (withInFlight (w_Manager w) (<[h := fresh]> (bm_inFlight (w_Manager w)))) (w_Disk w)
               (<[fresh := MkFlight None false 1]> (w_Flights w)) (toStage w fresh h Fetching)
               (<[caller := (h, fresh)]> (w_Callers w)) (w_Completed w)).
Proof.
  intros [Hl Hr Hw] Hf Hfresh Hcaller.
  assert (forall f h s, stageAt w f h s -> f <> fresh) as Hne.
  { intros f h' s (fl & E & _)%Hr ->. congruence. }
  assert (waiting (w_Callers w) fresh = 0) as Hnone.
  { unfold waiting. rewrite map_empty_filter_2; [done|]. intros c [h' f'] Hc.
    unfold waitingOn. cbn. intros ->. apply Hw in Hc as (fl & E & _). congruence. }
  split; cbn.
  - intros h' f' [[<- <-]|[Hh' Hh]]%lookup_insert_Some.
    + exists (MkFlight None false 1), Fetching. rewrite lookup_insert, decide_True by done.
      split_and!; [done|done| | |done].
      * unfold stageAt, toStage. cbn. by rewrite lookup_insert, decide_True.
      * cbn. rewrite waiting_insert, decide_True, Hnone by done. done.
    + destruct (Hl _ _ Hh) as (fl & s & E & Hd & Hs & Hwt & Hc). exists fl, s.
      assert (fresh <> f') by (intros ->; congruence). rewrite lookup_insert_ne, waiting_insert, decide_False by done.
      split_and!; [done|done| |lia|done]. unfold stageAt, toStage. cbn. by rewrite lookup_insert_ne.
  - intros f' h' s. unfold stageAt, toStage. cbn. intros [[<- [= <- <-]]|[Hf' Hs]]%lookup_insert_Some.
    + exists (MkFlight None false 1). rewrite lookup_insert, decide_True by done. split_and!; [done|done|]. intros _.
      by rewrite lookup_insert, decide_True.
    + destruct (Hr _ _ _ Hs) as (fl & E & Hd & Hc). exists fl. rewrite lookup_insert_ne by done.
      split_and!; [done|done|]. intros Hcan. apply Hc in Hcan. rewrite lookup_insert_ne; [done|]. intros ->. congruence.
  - intros c h' f' [[_ [= <- <-]]|[_ Hc]]%lookup_insert_Some.
    + exists (MkFlight None false 1). rewrite lookup_insert, decide_True by done. split; [done|]. right. exists Fetching.
      unfold stageAt, toStage. cbn. by rewrite lookup_insert, decide_True.
    + destruct (Hw _ _ _ Hc) as (fl & E & Hd). exists fl. assert (fresh <> f') by (intros ->; congruence).
      rewrite lookup_insert_ne by done. split; [done|]. destruct Hd as [|[s Hs]]; [by left|right]. exists s.
      unfold stageAt, toStage. cbn. by rewrite lookup_insert_ne.
Qed.

Lemma flightsOk_call w caller h fresh blobManager flights e :
  flightsOk w -> w_Callers w !! caller = None -> w_Flights w !! fresh = None ->
  Ensure fresh (w_Manager w) (w_Flights w) h = (blobManager, flights, e) ->
  flightsOk (MkWorld blobManager (w_Disk w) flights
               match e with StartsFlight flight => toStage w flight h Fetching | _ => w_Goroutines w end
               match e with
               | Returns _ => w_Callers w
               | Joins flight | StartsFlight flight => <[caller := (h, flight)]> (w_Callers w)
               end (w_Completed w)).
Proof.
  intros Hok Hc Hf. unfold Ensure.
  destruct (negb (ValidHash h)); [intros [= <- <- <-]; by apply (flightsOk_same w)|].
  destruct (Has (w_Manager w) h); [intros [= <- <- <-]; by apply (flightsOk_same w)|].
  destruct (bm_inFlight (w_Manager w) !! h) as [f|] eqn:E.
  - destruct (Z.ltb_spec 0 (waitersOf (w_Flights w) f)); [intros [= <- <- <-]; by apply flightsOk_join|].
    pose proof (flightsOk_drop w h f Hok E ltac:(lia)) as Hdrop.
    destruct (negb (bm_fetch (w_Manager w))); intros [= <- <- <-]; [done|].
    apply (flightsOk_start _ caller h fresh) in Hdrop; cbn in *; [done| |done|done].
    by rewrite lookup_delete, decide_True.
  - destruct (negb (bm_fetch (w_Manager w))); intros [= <- <- <-]; [by apply (flightsOk_same w)|].
    by apply flightsOk_start.
Qed.

Lemma flightsOk_answer w caller h f fl err :
  flightsOk w -> w_Callers w !! caller = Some (h, f) -> w_Flights w !! f = Some fl -> ff_Done fl = Some err ->
  flightsOk (MkWorld (w_Manager w) (w_Disk w) (w_Flights w) (w_Goroutines w) (delete caller (w_Callers w)) (w_Completed w)).
Proof.
  intros [Hl Hr Hw] Hc Hf Hd. split; cbn; [|done|].
  - intros h' f' Hh. destruct (Hl _ _ Hh) as (fl' & s & E & Hd' & Hs & Hwt & Hcan). exists fl', s.
    assert (f <> f') by (intros ->; congruence).
    rewrite (waiting_delete _ _ _ _ f' Hc), decide_False by done. split_and!; [done|done|done|lia|done].
  - intros c h' f' [_ Hc']%lookup_delete_Some. by apply Hw in Hc'.
Qed.
Lemma flightsOk_leave w caller h f :
  flightsOk w -> w_Callers w !! caller = Some (h, f) ->
  flightsOk (MkWorld (w_Manager w) (w_Disk w) (giveUp (w_Manager w) (w_Flights w) h f) (w_Goroutines w)
               (delete caller (w_Callers w)) (w_Completed w)).
Proof.
  intros [Hl Hr Hw] Hc. destruct (Hw _ _ _ Hc) as (fl & Ef & Hwait). unfold giveUp. case_bool_decide as Hin.
  - destruct (Hl _ _ Hin) as (fl' & s & E & Hd & Hs & Hwt & Hcan). rewrite Ef in E. injection E as <-.
    pose proof (waiting_pos _ _ _ _ Hc) as Hpos.
    set (fl1 := MkFlight (ff_Done fl) (ff_Waiters fl + -1 =? 0) (ff_Waiters fl + -1)).
    assert ((if waitersOf (addWaiters (-1) (w_Flights w) f) f =? 0 then cancel (addWaiters (-1) (w_Flights w) f) f
             else addWaiters (-1) (w_Flights w) f) = <[f := fl1]> (w_Flights w)) as ->.
    { assert (addWaiters (-1) (w_Flights w) f = <[f := MkFlight (ff_Done fl) (ff_Cancelled fl) (ff_Waiters fl + -1)]> (w_Flights w)) as ->.
      { exact (alter_insert_at _ _ f fl Ef). }
      unfold waitersOf, cancel, fl1. rewrite lookup_insert, decide_True by done. cbn [ff_Waiters].
      destruct (Z.eqb_spec (ff_Waiters fl + -1) 0) as [E0|].
      - rewrite alter_insert_eq. cbn. by rewrite E0.
      - f_equal. f_equal. rewrite Hcan. apply Z.eqb_neq. lia. }
    split; cbn.
    + intros h' f' Hh. destruct (decide (f = f')) as [<-|Hne].
      * exists fl1, s. rewrite lookup_insert, decide_True by done. rewrite (waiting_delete _ _ _ _ f Hc), decide_True by done.
        destruct (Hl _ _ Hh) as (fl' & s' & E & _ & Hs' & _). unfold stageAt in *. rewrite Hs in Hs'. injection Hs' as <- _.
        cbn. split_and!; [done|done|done|lia|done].
      * destruct (Hl _ _ Hh) as (fl' & s' & E & Hd' & Hs' & Hwt' & Hcan'). exists fl', s'. rewrite lookup_insert_ne by done.
        rewrite (waiting_delete _ _ _ _ f' Hc), decide_False by done. split_and!; [done|done|done|lia|done].
    + intros f' h' s' Hs'. destruct (decide (f = f')) as [<-|Hne].
      * exists fl1. rewrite lookup_insert, decide_True by done. cbn. split_and!; [done|done|]. intros _.
        unfold stageAt in *. cbn in Hs'. rewrite Hs in Hs'. by injection Hs' as <- _.
      * rewrite lookup_insert_ne by done. by eapply Hr.
    + intros c h' f' [_ Hc']%lookup_delete_Some. destruct (Hw _ _ _ Hc') as (fl' & E & Hd').
      destruct (decide (f = f')) as [<-|Hne]; [|exists fl'; by rewrite lookup_insert_ne].
      exists fl1. rewrite lookup_insert, decide_True by done. split; [done|]. rewrite Ef in E. by injection E as <-.
  - split; cbn; [|done|].
    + intros h' f' Hh. destruct (Hl _ _ Hh) as (fl' & s' & E & Hd' & Hs' & Hwt' & Hcan'). exists fl', s'.
      assert (f <> f') as Hne.
      { intros <-. destruct Hwait as [[? Hd]|[s Hs]]; [congruence|].
        unfold stageAt in *. rewrite Hs in Hs'. injection Hs' as <- _. done. }
      rewrite (waiting_delete _ _ _ _ f' Hc), decide_False by done. split_and!; [done|done|done|lia|done].
    + intros c h' f' [_ Hc']%lookup_delete_Some. by apply Hw in Hc'.
Qed.

Lemma flightsOk_finish w h f err :
  flightsOk w -> stageAt w f h (Left err) ->
  flightsOk (MkWorld (finish (w_Manager w) (w_Flights w) h f err).1 (w_Disk w)
               (finish (w_Manager w) (w_Flights w) h f err).2 (delete f (w_Goroutines w)) (w_Callers w) (w_Completed w)).
Proof.
  intros [Hl Hr Hw] Hs. unfold finish. cbn [fst snd].
  set (fl1 := fun fl => MkFlight (Some err) true (ff_Waiters fl)).
  assert (forall h' f', bm_inFlight (if bool_decide (bm_inFlight (w_Manager w) !! h = Some f)
             then withInFlight (w_Manager w) (delete h (bm_inFlight (w_Manager w))) else w_Manager w) !! h' = Some f' ->
           bm_inFlight (w_Manager w) !! h' = Some f' /\ f' <> f) as Hin.
  { intros h' f' Hh. assert (bm_inFlight (w_Manager w) !! h' = Some f') as Hh'.
    { case_bool_decide; [|done]. cbn in Hh. by apply lookup_delete_Some in Hh as [_ Hh]. }
    split; [done|]. intros ->. destruct (Hl _ _ Hh') as (_ & s & _ & _ & Hs' & _).
    unfold stageAt in *. rewrite Hs in Hs'. injection Hs' as <- _. rewrite bool_decide_eq_true_2 in Hh by done.
    cbn in Hh. by rewrite lookup_delete, decide_True in Hh. }
  split; cbn.
  - intros h' f' [Hh Hne]%Hin. destruct (Hl _ _ Hh) as (fl & s & E & Hd & Hs' & Hwt & Hc). exists fl, s.
    rewrite lookup_alter_ne by done. split_and!; try done. unfold stageAt. cbn. by rewrite lookup_delete_ne.
  - intros f' h' s. unfold stageAt. cbn. intros [Hne Hs']%lookup_delete_Some.
    destruct (Hr _ _ _ Hs') as (fl & E & Hd & Hc). exists fl. rewrite lookup_alter_ne by done. split_and!; [done|done|].
    intros Hcan. apply Hc in Hcan. case_bool_decide as Hin'; [|done]. cbn. rewrite lookup_delete_ne; [done|]. intros ->. congruence.
  - intros c h' f' Hc. destruct (Hw _ _ _ Hc) as (fl & E & Hd). eexists. split; [by apply lookup_alter_Some'|].
    destruct (decide (f = f')) as [<-|Hne]; [by left; eexists|]. destruct Hd as [|[s Hs']]; [by left|right].
    exists s. unfold stageAt. cbn. by rewrite lookup_delete_ne.
Qed.

Lemma lookup_cancelAll flights cancelled f :
  foldr (fun flight flights => cancel flights flight) flights cancelled !! f
    = (fun fl => MkFlight (ff_Done fl) (ff_Cancelled fl || bool_decide (f ∈ cancelled)) (ff_Waiters fl)) <$> flights !! f.
Proof.
  assert (forall fl, fl = MkFlight (ff_Done fl) (ff_Cancelled fl) (ff_Waiters fl)) as Heta by by intros [].
  induction cancelled as [|g cancelled IH]; cbn.
  - destruct (flights !! f) as [[]|]; cbn; [|done]. by rewrite orb_false_r.
  - unfold cancel at 1. destruct (decide (g = f)) as [->|Hne].
    + rewrite lookup_alter_eq, IH. destruct (flights !! f); cbn; [|done]. rewrite bool_decide_eq_true_2 by (apply elem_of_cons; by left).
      by rewrite orb_true_r.
    + rewrite lookup_alter_ne by done. rewrite IH. destruct (flights !! f); cbn; [|done]. do 3 f_equal.
      apply bool_decide_ext. rewrite elem_of_cons. naive_solver.
Qed.
Lemma flightsOk_stop w :
  flightsOk w ->
  flightsOk (MkWorld (Stop (w_Manager w) (w_Flights w)).1 (w_Disk w) (Stop (w_Manager w) (w_Flights w)).2
               (w_Goroutines w) (w_Callers w) (w_Completed w)).
Proof.
  intros [Hl Hr Hw]. unfold Stop. cbn [fst snd]. split; cbn.
  - done.
  - intros f h s Hs. destruct (Hr _ _ _ Hs) as (fl & E & Hd & Hc). eexists.
    rewrite lookup_cancelAll, E. cbn. split_and!; [done|done|]. intros [Hcan Hnot]%orb_false_iff.
    apply bool_decide_eq_false in Hnot. destruct Hnot. apply list_elem_of_fmap. exists (h, f). split; [done|].
    apply elem_of_map_to_list. by apply Hc.
  - intros c h f Hc. destruct (Hw _ _ _ Hc) as (fl & E & Hd). rewrite lookup_cancelAll, E. eexists. by split.
Qed.

Lemma step_flights m w w' : step m w w' -> flightsOk w -> flightsOk w'.
Proof.
  intros Hs Hok. destruct Hs; cbn [w_Manager w_Disk] in *.
  - by eapply flightsOk_call.
  - by eapply flightsOk_answer.
  - by apply flightsOk_leave.
  - apply (flightsOk_same w); [done..|]. by eapply goroutines_stage.
  - match goal with HS : storeFetched _ _ _ _ _ _ _ = _ |- _ => apply storeFetched_Set in HS as [(-> & -> & _)|(r & HS & _)] end;
      (apply (flightsOk_same w); [done| |done|done|by eapply goroutines_stage]); [done|].
    match goal with HS : Set_ _ _ _ _ _ _ _ = _ |- _ => apply Set_spec in HS as [(_ & _ & _ & E)|(_ & -> & _)] end; [|done].
    by destruct (bm_persist _); destruct E as [-> _].
  - apply (flightsOk_same w); [done..|]. by eapply goroutines_stage.
  - apply (flightsOk_same w); [done..|]. by eapply goroutines_stage.
  - apply (flightsOk_same w); [done..|]. by eapply goroutines_stage.
  - match goal with HD : Delete _ _ _ _ = _ |- _ => apply Delete_spec in HD as (? & -> & _) end.
    apply (flightsOk_same w); [done..|]. by eapply goroutines_stage.
  - match goal with HF : finish _ _ _ _ _ = _ |- _ => pose proof (flightsOk_finish w _ _ _ Hok ltac:(eassumption)) as Hfin;
      rewrite HF in Hfin end. done.
  - apply (flightsOk_same w); [done| |done..]. cbn.
    match goal with HS : Set_ _ _ _ _ _ _ _ = _ |- _ => apply Set_spec in HS as [(_ & _ & _ & E)|(_ & -> & _)] end; [|done].
    by destruct (bm_persist _); destruct E as [-> _].
  - match goal with HD : Delete _ _ _ _ = _ |- _ => apply Delete_spec in HD as (? & -> & _) end. by apply (flightsOk_same w).
  - match goal with HS : Start _ _ = _ |- _ => apply Start_spec in HS as [->|(? & ? & _ & _ & -> & _)] end; by apply (flightsOk_same w).
  - match goal with HS : Stop _ _ = _ |- _ => pose proof (flightsOk_stop w Hok) as Hst; rewrite HS in Hst end. done.
  - by apply (flightsOk_same w).
  - by apply (flightsOk_same w).
Qed.
Lemma reachable_flights w : reachable w -> flightsOk w.
Proof.
  intros (m & disk & ms & Hnew & Hrun). pose proof (flightsOk_initial m disk Hnew) as Hok.
  induction Hrun as [|? ? ? ? ? Hs _ IH]; [done|]. by eapply IH, step_flights.
Qed.

(** Concurrent callers share one fetch.  In every interleaving, at most one
    fetch of a blob is not cancelled; the flight that the manager lists for a blob
    counts exactly the callers that wait for it, and is cancelled exactly when
    the last of them has given up; and a caller that asks for a blob others wait
    for joins their flight. *)
Theorem single_flight w :
  reachable w ->
  (forall h f g s t fl gl, stageAt w f h s -> stageAt w g h t ->
     w_Flights w !! f = Some fl -> ff_Cancelled fl = false -> w_Flights w !! g = Some gl -> ff_Cancelled gl = false -> f = g) /\
  (forall h f, bm_inFlight (w_Manager w) !! h = Some f ->
     exists fl, w_Flights w !! f = Some fl /\ ff_Waiters fl = waiting (w_Callers w) f /\
       (ff_Cancelled fl = true <-> forall c h', w_Callers w !! c <> Some (h', f))) /\
  (forall h f c fresh, bm_inFlight (w_Manager w) !! h = Some f -> w_Callers w !! c = Some (h, f) ->
     ValidHash h = true -> Has (w_Manager w) h = false ->
     Ensure fresh (w_Manager w) (w_Flights w) h = (w_Manager w, addWaiters 1 (w_Flights w) f, Joins f)).
Proof.
  intros [Hl Hr Hw]%reachable_flights. split_and!.
  - intros h f g s t fl gl Hf Hg Ef Hcf Eg Hcg. apply Hr in Hf as (fl' & E & _ & Hf). apply Hr in Hg as (gl' & E' & _ & Hg).
    assert (fl' = fl /\ gl' = gl) as [-> ->] by (split; congruence). specialize (Hf Hcf). specialize (Hg Hcg). congruence.
  - intros h f Hh. destruct (Hl _ _ Hh) as (fl & s & E & _ & _ & Hwt & Hcan). exists fl. split_and!; [done|done|].
    rewrite Hcan, Hwt, Z.eqb_eq. split.
    + intros H0 c h' Hc%waiting_pos. lia.
    + intros Hnone. unfold waiting. rewrite map_empty_filter_2; [done|]. intros c [h' f'] Hc Hf. unfold waitingOn in Hf. cbn in Hf. rewrite Hf in Hc. by eapply Hnone.
  - intros h f c fresh Hh Hc Hv Hhas. unfold Ensure. rewrite Hv, Hhas, Hh. cbn [negb].
    destruct (Hl _ _ Hh) as (fl & s & E & _ & _ & Hwt & _). apply waiting_pos in Hc. unfold waitersOf. rewrite E, Hwt.
    by destruct (Z.ltb_spec 0 (waiting (w_Callers w) f)); [|lia].
Qed.

(** ** Answers *)

(** A caller and the goroutine it waits for. *)
Definition awaits (w : world) (c : nat) (h : bytes) (f : nat) (s : stage) : Prop :=
  stageAt w f h s /\ w_Callers w !! c = Some (h, f) /\ is_Some (w_Flights w !! f).
Definition ownMove (c : nat) (h : bytes) (f : nat) (m : move) : Prop :=
  match m with
  | Receive g | Store g | Record_ g | Finish g => g = f
  | Rollback h' => h' = h
  | Answer c' _ => c' = c
  | _ => False
  end.
(** The goroutine runs to its end and the caller returns, in at most [n] moves. *)
Definition answered (n : nat) (w : world) (c : nat) (h : bytes) (f : nat) : Prop :=
  exists ms w' err, run (ms ++ [Answer c err]) w w' /\ (S (length ms) <= n)%nat /\ Forall (ownMove c h f) ms.

Lemma answered_step m n w w' c h f :
  step m w w' -> ownMove c h f m -> answered n w' c h f -> answered (S n) w c h f.
Proof.
  intros Hs Hm (ms & w2 & err & Hr & Hn & Hall). exists (m :: ms), w2, err. split_and!; cbn; [by econstructor|lia|by constructor].
Qed.
Lemma awaits_toStage w m disk completed c h f s s' :
  awaits w c h f s -> awaits (MkWorld m disk (w_Flights w) (toStage w f h s') (w_Callers w) completed) c h f s'.
Proof. intros (_ & Hc & Hf). split; [|done]. unfold stageAt, toStage. cbn. by rewrite lookup_insert, decide_True. Qed.

Lemma left_run w c h f err :
  awaits w c h f (Left err) ->
  exists w', run [Finish f; Answer c err] w w' /\ bm_blobs (w_Manager w') = bm_blobs (w_Manager w) /\
    bm_blobDir (w_Manager w') = bm_blobDir (w_Manager w) /\ w_Disk w' = w_Disk w.
Proof.
  intros (Hs & Hc & [fl Hf]). eexists. split.
  - eapply RunCons; [by eapply StepFinish|]. eapply RunCons; [|constructor].
    eapply (StepAnswer _ c h f (MkFlight (Some err) true (ff_Waiters fl))); [done| |done].
    cbn. by rewrite lookup_alter_eq, Hf.
  - cbn. unfold finish. by case_bool_decide.
Qed.
Lemma answered_left w c h f err : awaits w c h f (Left err) -> answered 2 w c h f.
Proof. intros (w' & Hr & _)%left_run. exists [Finish f], w', err. split_and!; [done|done|by repeat constructor]. Qed.
Lemma answered_rollingBack w c h f e : awaits w c h f (RollingBack e) -> answered 3 w c h f.
Proof.
  intros Ha. destruct (Delete (fun _ => None) (w_Manager w) (w_Disk w) [h]) as [[m d] errors] eqn:E.
  eapply (answered_step (Rollback h)); [eapply StepRollback; [apply Ha|exact E]|done|].
  eapply answered_left, awaits_toStage, Ha.
Qed.
Lemma answered_stored w c h f : awaits w c h f Stored -> answered 3 w c h f.
Proof.
  intros Ha. destruct (bm_records (w_Manager w)) eqn:E;
    (eapply (answered_step (Record_ f)); [|done|eapply answered_left, awaits_toStage, Ha]);
    [by eapply StepRecord, E; apply Ha|by eapply StepNoRecord, E; apply Ha].
Qed.
Lemma answered_fetched w c h f data : awaits w c h f (Fetched data) -> answered 4 w c h f.
Proof.
  intros Ha. destruct (storeFetched None 0 [] (w_Manager w) (w_Disk w) h data) as [[m d] s] eqn:E.
  eapply (answered_step (Store f)); [eapply StepStore; [apply Ha| |exact E]; done|done|].
  apply (awaits_toStage w m d (w_Completed w) c h f _ s) in Ha.
  assert (s = Stored \/ exists r, s = Left r) as [->|[r ->]].
  { apply storeFetched_Set in E as [(_ & _ & e & ->)|(r & _ & ->)]; [right; eauto|]. destruct r; eauto. }
  - by apply answered_stored in Ha.
  - apply answered_left in Ha as (ms & w' & err & Hr & Hn & Hall). exists ms, w', err. split_and!; [done|lia|done].
Qed.
Lemma answered_fetching w c h f : awaits w c h f Fetching -> answered 5 w c h f.
Proof.
  intros Ha. eapply (answered_step (Receive f)); [eapply (StepReceive _ _ _ (inl [])), Ha|done|].
  eapply answered_fetched, awaits_toStage, Ha.
Qed.

(** C27: no caller of [Ensure] waits in vain.  In every reachable state, a caller
    that waits has an answer at most five moves away, all of them moves of the
    goroutine of its flight and its own; and while that goroutine is still in the
    fetcher, a fetch that yields the blob leads, when the write and the record
    succeed, to the answer without an error, and the blob can then be read. *)
Theorem ensure_answers w c h f :
  reachable w -> w_Callers w !! c = Some (h, f) ->
  answered 5 w c h f /\
  forall data, stageAt w f h Fetching -> hashBytes data = h -> 0 < blen data <= MaxBlobSize ->
    exists ms w', run (ms ++ [Answer c (Ok tt)]) w w' /\ get (w_Manager w') (w_Disk w') h = Some data.
Proof.
  intros Hreach Hc. pose proof (reachable_held _ Hreach) as Hok. destruct (reachable_flights _ Hreach) as [_ _ Hw].
  destruct (Hw _ _ _ Hc) as (fl & Hf & Hstage). split.
  - destruct Hstage as [[err Hd]|[s Hs]].
    + exists [], (MkWorld (w_Manager w) (w_Disk w) (w_Flights w) (w_Goroutines w) (delete c (w_Callers w)) (w_Completed w)), err.
      split_and!; [|cbn; lia|constructor]. econstructor; [by eapply StepAnswer|constructor].
    + assert (awaits w c h f s) as Ha by (split_and!; [done|done|by eexists]).
      assert (forall m n, (m <= n)%nat -> answered m w c h f -> answered n w c h f) as Hmono.
      { intros m n Hle (ms & w' & err & Hr & Hn & Hall). exists ms, w', err. split_and!; [done|lia|done]. }
      destruct s; [by apply answered_fetching|eapply (Hmono 4%nat), answered_fetched, Ha; lia|eapply (Hmono 3%nat), answered_stored, Ha; lia|
        eapply (Hmono 3%nat), answered_rollingBack, Ha; lia|eapply (Hmono 2%nat), answered_left, Ha; lia].
  - intros data Hs Hh Hlen. assert (awaits w c h f Fetching) as Ha by (split_and!; [done|done|by eexists]).
    destruct (Set_ None 0 [] (w_Manager w) (w_Disk w) h data) as [[m d] r] eqn:HS.
    assert (r = Ok tt) as ->.
    { pose proof (setBlobs_Ok (MkFaults (fun _ => None) (fun _ => 0%nat) (fun _ => [])) (w_Manager w) (w_Disk w) [(h, data)]) as E.
      cbn in E. unfold setWith in E. cbn in E. rewrite HS in E. destruct r as [[]| | |]; [done|..]; (apply E; [done|by constructor]). }
    pose proof (get_stored _ _ _ _ _ _ _ _ _ Hok HS) as Hget.
    assert (storeFetched None 0 [] (w_Manager w) (w_Disk w) h data = (m, d, Stored)) as Hstore.
    { unfold storeFetched. rewrite bool_decide_eq_true_2 by done. cbn [negb]. by rewrite HS. }
    pose proof (awaits_toStage w (w_Manager w) (w_Disk w) (w_Completed w) c h f _ (Fetched data) Ha) as Ha1.
    pose proof (awaits_toStage _ m d (w_Completed w) c h f _ Stored Ha1) as Ha2.
    set (w2 := MkWorld m d _ _ _ _) in Ha2.
    assert (exists w3, step (Record_ f) w2 w3 /\ awaits w3 c h f (Left (Ok tt)) /\ w_Manager w3 = m /\ w_Disk w3 = d)
      as (w3 & Hrec & Ha3 & Em & Ed).
    { destruct (bm_records m) eqn:E; eexists; (split; [|split; [eapply awaits_toStage, Ha2|done]]);
        [eapply StepRecord, E; apply Ha2|eapply StepNoRecord, E; apply Ha2]. }
    apply left_run in Ha3 as (w4 & Hr & Eb & Ebd & Ed'). exists [Receive f; Store f; Record_ f; Finish f], w4. split.
    + cbn [app]. eapply RunCons; [eapply (StepReceive _ _ _ (inl data)), Hs|].
      eapply RunCons; [eapply StepStore; [apply Ha1| |exact Hstore]; done|]. eapply RunCons; [exact Hrec|exact Hr].
    + rewrite <- Hget. apply get_same; congruence.
Qed.
End flights.

(** ** Runs *)

Section runs.
Context `{Digests} (data : bytes) (Hlen : 0 < blen data <= MaxBlobSize).
Let h : bytes := hashBytes data.

Lemma hashBytes_valid d : ValidHash (hashBytes d) = true.
Proof. pose proof (hashBytes_canonical d) as Hc. unfold canonicalBlobHash in Hc. by apply andb_true_iff in Hc as [_ ->]. Qed.
Lemma Ensure_starts fresh m flights d :
  bm_blobs m !! hashBytes d = None -> bm_fetch m = true ->
  (forall f, bm_inFlight m !! hashBytes d = Some f -> waitersOf flights f = 0) ->
  Ensure fresh m flights (hashBytes d)
    = (withInFlight m (<[hashBytes d := fresh]> (bm_inFlight m)), <[fresh := MkFlight None false 1]> flights, StartsFlight fresh).
Proof.
  intros Hb Hf Hi. unfold Ensure, Has. rewrite hashBytes_valid, Hb, Hf. cbn [negb].
  rewrite bool_decide_eq_false_2 by (by intros [? [=]]).
  destruct (bm_inFlight m !! hashBytes d) as [f|]; [|done]. rewrite Hi by done. by rewrite insert_delete_eq.
Qed.
Lemma storeFetched_memory failure written temporaryPath m disk d :
  bm_persist m = false -> 0 < blen d <= MaxBlobSize ->
  storeFetched failure written temporaryPath m disk (hashBytes d) d
    = (withBlobs m (<[hashBytes d := Some d]> (bm_blobs m)), disk, Stored).
Proof.
  intros Hp Hd. unfold storeFetched, Set_. rewrite bool_decide_eq_true_2, hashBytes_canonical, Hp by done. cbn [negb orb].
  destruct (Z.eqb_spec (blen d) 0); [lia|]. by destruct (Z.ltb_spec MaxBlobSize (blen d)); [lia|].
Qed.

Definition configured (blobs : gmap bytes (option bytes)) (inFlight : gmap bytes nat) : BlobManager :=
  MkManager blobs true inFlight [] false true.
Definition newFlight : fetchFlight := MkFlight None false 1.
(** One caller, its flight in the fetcher. *)
Definition oneCaller : world :=
  MkWorld (configured ∅ {[h := 0%nat]}) ∅ {[0%nat := newFlight]} {[0%nat := MkGoroutine h Fetching]} {[1%nat := (h, 0%nat)]} ∅.
Lemma oneCaller_run : exists ms, run ms (initial NewManager ∅) oneCaller.
Proof.
  eexists. eapply RunCons; [apply (StepConfigure _ true true)|].
  eapply RunCons; [eapply (StepCall _ 1 h 0); [done|done|by apply Ensure_starts]|]. constructor.
Qed.

Lemma run_cons_eq m ms w w1 w1' w2 : step m w w1' -> w1' = w1 -> run ms w1 w2 -> run (m :: ms) w w2.
Proof. intros Hs <-. by apply RunCons. Qed.

(** A fetch whose last caller has given up goes on: while its blob is being
    stored a new caller starts a second fetch, which stores and records the blob
    and answers.  Then the record of the first fails, for its context has ended,
    and its rollback deletes the blob: it is recorded as complete, its caller was
    told that it is there, nobody deleted it, and it is gone. *)
Lemma late_rollback_loses_blob :
  exists ms w, run ms (initial NewManager ∅) w /\ Answer 2 (Ok tt) ∈ ms /\
    (forall hashes, DeleteBlobs hashes ∉ ms) /\ StopManager ∉ ms /\
    h ∈ w_Completed w /\ get (w_Manager w) (w_Disk w) h = None.
Proof.
  pose (ms := [Configure; Call 1 h (StartsFlight 0); Receive 0; Leave 1; Call 2 h (StartsFlight 1); Receive 1; Store 0; Store 1;
    Record_ 1; Finish 1; Answer 2 (Ok tt); Record_ 0; Rollback h]).
  pose (abandoned := MkFlight None true 0). pose (done_ := MkFlight (Some (Ok tt)) true 1).
  pose (fl1 := {[0%nat := newFlight]} : gmap nat fetchFlight).
  pose (fl2 := <[1%nat := newFlight]> {[0%nat := abandoned]} : gmap nat fetchFlight).
  pose (fl3 := <[1%nat := done_]> {[0%nat := abandoned]} : gmap nat fetchFlight).
  pose (one := fun s => {[0%nat := MkGoroutine h s]} : gmap nat goroutine).
  pose (both := fun s t => <[1%nat := MkGoroutine h t]> (one s)).
  pose (held := {[h := Some data]} : gmap bytes (option bytes)).
  pose (waits := fun c f => {[c%nat := (h, f%nat)]} : gmap nat (bytes * nat)).
  pose (e := "context canceled"%string).
  exists ms, (MkWorld (configured ∅ ∅) ∅ fl3 (one (Left (Err e))) ∅ {[h]}).
  assert (forall f g : nat, <[h := f]> ({[h := g]} : gmap bytes nat) = {[h := f]}) as Eins by (intros; apply insert_insert_eq).
  assert (forall f : nat, delete h ({[h := f]} : gmap bytes nat) = ∅) as Edel by (intros; apply delete_singleton_eq).
  assert (<[h := Some data]> held = held) as Eheld by apply insert_insert_eq.
  assert (delete h held = ∅) as Eheld' by apply delete_singleton_eq.
  assert (forall b i, storeFetched None 0 [] (configured b i) ∅ h data = (configured (<[h := Some data]> b) i, ∅, Stored)) as Estore
    by (intros; by apply storeFetched_memory).
  split_and!.
  - eapply (run_cons_eq _ _ _ (MkWorld (configured ∅ ∅) ∅ ∅ ∅ ∅ ∅)); [apply (StepConfigure _ true true)|done|].
    eapply (run_cons_eq _ _ _ oneCaller); [eapply (StepCall _ 1 h 0); [done|done|by apply Ensure_starts]|done|].
    eapply (run_cons_eq _ _ _ (MkWorld (configured ∅ {[h := 0%nat]}) ∅ fl1 (one (Fetched data)) (waits 1%nat 0%nat) ∅));
      [by apply (StepReceive _ 0 h (inl data))|done|].
    eapply (run_cons_eq _ _ _ (MkWorld (configured ∅ {[h := 0%nat]}) ∅ {[0%nat := abandoned]} (one (Fetched data)) ∅ ∅));
      [by apply (StepLeave _ 1 h 0)|unfold giveUp; cbn; by rewrite lookup_singleton, decide_True, bool_decide_eq_true_2|].
    eapply (run_cons_eq _ _ _ (MkWorld (configured ∅ {[h := 1%nat]}) ∅ fl2 (both (Fetched data) Fetching) (waits 2%nat 1%nat) ∅));
      [eapply (StepCall _ 2 h 1); [done|done|apply Ensure_starts; [done|done|]]|cbn; by rewrite Eins|].
    { cbn. intros f. rewrite lookup_singleton, decide_True by done. by intros [= <-]. }
    eapply (run_cons_eq _ _ _ (MkWorld (configured ∅ {[h := 1%nat]}) ∅ fl2 (both (Fetched data) (Fetched data)) (waits 2%nat 1%nat) ∅));
      [by apply (StepReceive _ 1 h (inl data))|done|].
    eapply (run_cons_eq _ _ _ (MkWorld (configured held {[h := 1%nat]}) ∅ fl2 (both Stored (Fetched data)) (waits 2%nat 1%nat) ∅));
      [eapply (StepStore _ 0 h data None 0 []); [done|done|apply Estore]|done|].
    eapply (run_cons_eq _ _ _ (MkWorld (configured held {[h := 1%nat]}) ∅ fl2 (both Stored Stored) (waits 2%nat 1%nat) ∅));
      [eapply (StepStore _ 1 h data None 0 []); [done|done|apply Estore]|cbn; by rewrite Eheld|].
    eapply (run_cons_eq _ _ _ (MkWorld (configured held {[h := 1%nat]}) ∅ fl2 (both Stored (Left (Ok tt))) (waits 2%nat 1%nat) {[h]}));
      [by apply (StepRecord _ 1 h)|f_equal; apply union_empty_r_L|].
    eapply (run_cons_eq _ _ _ (MkWorld (configured held ∅) ∅ fl3 (one Stored) (waits 2%nat 1%nat) {[h]}));
      [by apply (StepFinish _ 1 h (Ok tt))|unfold finish; cbn; rewrite lookup_singleton, decide_True, bool_decide_eq_true_2 by done;
         cbn; by rewrite Edel|].
    eapply (run_cons_eq _ _ _ (MkWorld (configured held ∅) ∅ fl3 (one Stored) ∅ {[h]}));
      [by apply (StepAnswer _ 2 h 1 done_)|done|].
    eapply (run_cons_eq _ _ _ (MkWorld (configured held ∅) ∅ fl3 (one (RollingBack e)) ∅ {[h]}));
      [by apply (StepRecordFails _ 0 h)|done|].
    eapply (run_cons_eq _ _ _ (MkWorld (configured ∅ ∅) ∅ fl3 (one (Left (Err e))) ∅ {[h]}));
      [by eapply (StepRollback _ 0 h e (fun _ => None))|cbn; by rewrite Eheld'|constructor].
  - unfold ms. rewrite !elem_of_cons. tauto.
  - intros hashes. unfold ms. rewrite !elem_of_cons, elem_of_nil. naive_solver.
  - unfold ms. rewrite !elem_of_cons, elem_of_nil. naive_solver.
  - set_solver.
  - done.
Qed.
End runs.

(** ** Witnesses *)

#[local] Existing Instance exampleDigests.
Definition exampleBlob : bytes := lit "encrypted".
Lemma example_reachable : reachable (oneCaller exampleBlob).
Proof. destruct (oneCaller_run exampleBlob) as [ms Hr]. exists NewManager, ∅, ms. split; [by left|done]. Qed.

Lemma single_flight_witness :
  reachable (oneCaller exampleBlob) /\
  exists fl, w_Flights (oneCaller exampleBlob) !! 0%nat = Some fl /\
    ff_Waiters fl = waiting (w_Callers (oneCaller exampleBlob)) 0.
Proof.
  split; [exact example_reachable|].
  destruct (proj1 (proj2 (single_flight _ example_reachable)) (hashBytes exampleBlob) 0%nat (lookup_singleton_eq _ _))
    as (fl & Hf & Hw & _).
  exists fl. split; [exact Hf|exact Hw].
Defined.
Lemma ensure_answers_witness :
  reachable (oneCaller exampleBlob) /\ answered 5 (oneCaller exampleBlob) 1 (hashBytes exampleBlob) 0.
Proof.
  split; [exact example_reachable|].
  exact (proj1 (ensure_answers _ _ _ _ example_reachable (lookup_singleton_eq 1%nat (hashBytes exampleBlob, 0%nat)))).
Defined.
