(* ===== verification/PeerExchange.v ===== *)
(** * Blob exchange between peers

    Model of [peer/server.go] and [blob/exchange.go]: the server that answers
    requests for blobs on a connection, and the client that downloads a blob from
    a peer.  A connection is the bytes that arrive on it, ended by the error of
    the next read, and the bytes that were written to it.  [blob/network_fetcher.go]
    races the peers it discovers. *)

From S2P Require Import Prelude Hex Utf8 Digest Aes Decimal Bencode Json JsonValue Framing Stream BlobManager.

Definition MaxRequestSize : Z := 1200.
Definition MaxBlobResponseHeaderSize : Z := 64 * 1024.

(** ** The server *)

(** The local variables of [readJSONRequest]. *)
Record scanState := MkScan {
  sc_Request : bytes; sc_Depth : Z; sc_ArrayDepth : Z; sc_InString : bool; sc_Escaped : bool; sc_Started : bool
}.
(** One byte of a request: a new state, the end of the request, or an error. *)
Inductive scanned := More (st : scanState) | Whole (request : bytes) | Bad (e : string).
Definition ErrRequestSize : string := "peer request exceeds the limit".
Definition ErrBrackets : string := "peer request has mismatched JSON brackets".
Definition scanByte (limit : Z) (st : scanState) (value : byte) : scanned :=
  let 'MkScan request depth arrayDepth inString escaped started := st in
  let request := request ++ [value] in
  if limit <=? blen request then Bad ErrRequestSize
  else if negb started then
    if isJsonSpace value then More (MkScan request depth arrayDepth inString escaped started)
    else if negb (Zb value =? 0x7b) then Bad "peer request is not a JSON object"
    else More (MkScan request 1 arrayDepth inString escaped true)
  else if escaped then More (MkScan request depth arrayDepth inString false started)
  else if inString && (Zb value =? 0x5c) then More (MkScan request depth arrayDepth inString true started)
  else if Zb value =? 0x22 then More (MkScan request depth arrayDepth (negb inString) escaped started)
  else if inString then More (MkScan request depth arrayDepth inString escaped started)
  else if Zb value =? 0x7b then More (MkScan request (depth + 1) arrayDepth inString escaped started)
  else if Zb value =? 0x7d then
    if (depth =? 1) && negb (arrayDepth =? 0) then Bad ErrBrackets
    else if depth - 1 =? 0 then Whole request
    else More (MkScan request (depth - 1) arrayDepth inString escaped started)
  else if Zb value =? 0x5b then More (MkScan request depth (arrayDepth + 1) inString escaped started)
  else if Zb value =? 0x5d then
    if arrayDepth =? 0 then Bad ErrBrackets
    else More (MkScan request depth (arrayDepth - 1) inString escaped started)
  else More (MkScan request depth arrayDepth inString escaped started).
Fixpoint scanRequest (limit : Z) (st : scanState) (reader : bytes) : res (bytes * bytes) :=
  match reader with
  | [] => Err "EOF"
  | value :: reader =>
      match scanByte limit st value with
      | More st => scanRequest limit st reader
      | Whole request => Ok (request, reader)
      | Bad e => Err e
      end
  end.
(** The request and what is left in the reader. *)
Definition readJSONRequest (reader : bytes) (limit : Z) : res (bytes * bytes) :=
  scanRequest limit (MkScan [] 0 0 false false false) reader.

Fixpoint stringItems (items : list json) : option (list bytes) :=
  match items with
  | [] => Some []
  | JString s :: items => l ← stringItems items; Some (s :: l)
  | _ => None
  end.
Definition stringsFromJSON (value : json) : option (list bytes) :=
  match value with JArray items => stringItems items | _ => None end.

Section server.
Variables (paymentAddress : bytes) (getLocal : bytes -> option bytes).

Definition getAvailableBlobs (requestedBlobs : list bytes) : list bytes :=
  List.filter (fun h => if getLocal h is Some _ then true else false) requestedBlobs.
Definition getBlobDataPaymentRate : bytes := lit "RATE_ACCEPTED".
Definition getRequestedBlob (requestedBlob : bytes) : option (json * bytes) :=
  blobData ← getLocal requestedBlob;
  Some (JObject [(lit "blob_hash", JString requestedBlob); (lit "length", JNumber (FormatInt (blen blobData)))], blobData).
(** A nil slice of strings is marshaled as null. *)
Definition stringsJSON (l : list bytes) : json :=
  match l with [] => JNull | l => JArray (map JString l) end.

(** The response to the members of a request and the blob that follows it;
    [None] where the handler returns.  The [json.Marshal] of these values does not fail. *)
Definition respond (data : list (bytes * json)) : option (bytes * bytes) :=
  let addressPart := match field "lbrycrd_address" data with
                     | Some _ => [(lit "lbrycrd_address", JString paymentAddress)]
                     | None => []
                     end in
  blobsPart ← match field "requested_blobs" data with
              | Some requestedBlobsValue =>
                  requestedBlobs ← stringsFromJSON requestedBlobsValue;
                  Some [(lit "available_blobs", stringsJSON (getAvailableBlobs requestedBlobs))]
              | None => Some []
              end;
  ratePart ← match field "blob_data_payment_rate" data with
             | Some (JNumber _) => Some [(lit "blob_data_payment_rate", JString getBlobDataPaymentRate)]
             | Some _ => None
             | None => Some []
             end;
  '(incomingPart, blobData) ← match field "requested_blob" data with
                              | Some (JString requestedBlob) =>
                                  match getRequestedBlob requestedBlob with
                                  | Some (incomingBlob, blobData) => Some ([(lit "incoming_blob", incomingBlob)], blobData)
                                  | None => Some ([], [])
                                  end
                              | Some _ => None
                              | None => Some ([], [])
                              end;
  let recognized := existsb (fun key => if field key data is Some _ then true else false)
    ["lbrycrd_address"; "requested_blobs"; "blob_data_payment_rate"; "requested_blob"]%string in
  if recognized then Some (marshalMap (addressPart ++ blobsPart ++ ratePart ++ incomingPart), blobData) else None.
End server.

(** [handleConnection]: the responses and blobs written on a connection on which
    [reader] arrives.  [getLocal n] is the blob manager while the request number
    [n] is answered; [writable n] says whether the writes of that answer succeed. *)
Fixpoint handleRequests (fuel : nat) (paymentAddress : bytes) (getLocal : nat -> bytes -> option bytes)
    (writable : nat -> bool) (n : nat) (reader : bytes) : res (list (bytes * bytes)) :=
  match fuel with
  | O => NoFuel
  | S fuel =>
      match readJSONRequest reader MaxRequestSize with
      | Ok (request, reader) =>
          match unmarshalMap request with
          | Ok data =>
              match respond paymentAddress (getLocal n) data with
              | Some answer =>
                  if writable n then
                    answers ← handleRequests fuel paymentAddress getLocal writable (S n) reader;
                    Ok (answer :: answers)
                  else Ok []
              | None => Ok []
              end
          | NoFuel => NoFuel
          | _ => Ok []
          end
      | NoFuel => NoFuel
      | _ => Ok []
      end
  end.
Definition handleConnection (paymentAddress : bytes) (getLocal : nat -> bytes -> option bytes) (writable : nat -> bool)
    (reader : bytes) : res (list (bytes * bytes)) :=
  handleRequests (S (length reader)) paymentAddress getLocal writable 0 reader.
(** The bytes a list of answers puts on the connection. *)
Definition written (answers : list (bytes * bytes)) : bytes := concat (map (fun a => a.1 ++ a.2) answers).

(** ** The client *)

Record IncomingBlob := MkIncoming { in_BlobHash : bytes; in_Length : Z }.
(** The fields of [BlobResponse] that are read. *)
Record BlobResponse := MkResponse { resp_IncomingBlob : option IncomingBlob; resp_Error : bytes }.

(** [json.Marshal] of the [BlobRequest]. *)
Definition blobRequest (blobHash : bytes) : bytes :=
  goJson (JObject [(lit "requested_blobs", JArray [JString blobHash]);
                   (lit "blob_data_payment_rate", JNumber (lit "0"));
                   (lit "requested_blob", JString blobHash)]).

(** The loop over the bytes of the response header: the header and the rest. *)
Record headerState := MkHeader { hd_Buffer : bytes; hd_Depth : Z; hd_InString : bool; hd_Escaped : bool }.
Inductive headerStep := HeaderMore (st : headerState) | HeaderWhole (jsonBuf : bytes) | HeaderBad (e : string).
Definition headerByte (st : headerState) (b : byte) : headerStep :=
  let 'MkHeader jsonBuf depth inString escaped := st in
  let jsonBuf := jsonBuf ++ [b] in
  if MaxBlobResponseHeaderSize <? blen jsonBuf then HeaderBad "blob: response header exceeds the limit"
  else if escaped then HeaderMore (MkHeader jsonBuf depth inString false)
  else if (Zb b =? 0x5c) && inString then HeaderMore (MkHeader jsonBuf depth inString true)
  else if Zb b =? 0x22 then HeaderMore (MkHeader jsonBuf depth (negb inString) escaped)
  else if inString then HeaderMore (MkHeader jsonBuf depth inString escaped)
  else if Zb b =? 0x7b then HeaderMore (MkHeader jsonBuf (depth + 1) inString escaped)
  else if Zb b =? 0x7d then
    if depth - 1 =? 0 then HeaderWhole jsonBuf else HeaderMore (MkHeader jsonBuf (depth - 1) inString escaped)
  else HeaderMore (MkHeader jsonBuf depth inString escaped).
Fixpoint readHeader (st : headerState) (reader : bytes) : res (bytes * bytes) :=
  match reader with
  | [] => Err "blob: read response: EOF"
  | b :: reader =>
      match headerByte st b with
      | HeaderMore st => readHeader st reader
      | HeaderWhole jsonBuf => Ok (jsonBuf, reader)
      | HeaderBad e => Err e
      end
  end.

Definition decodeIncomingMember (incoming : IncomingBlob) (e : bytes * json) : res IncomingBlob :=
  if isField "blob_hash" e.1 then s ← decodeString (in_BlobHash incoming) e.2; Ok (MkIncoming s (in_Length incoming))
  else if isField "length" e.1 then n ← decodeInt (in_Length incoming) e.2; Ok (MkIncoming (in_BlobHash incoming) n)
  else Ok incoming.
(** A pointer to the struct: [null] makes it nil, an object fills the struct it
    points to or a new one. *)
Definition decodeIncoming (old : option IncomingBlob) (v : json) : res (option IncomingBlob) :=
  match v with
  | JNull => Ok None
  | JObject m => incoming ← foldMembers decodeIncomingMember (default (MkIncoming [] 0) old) m; Ok (Some incoming)
  | _ => Err ErrUnmarshal
  end.
(** The strings of [available_blobs] are not used; they must be strings. *)
Definition decodeStrings (v : json) : res unit :=
  match v with
  | JNull => Ok tt
  | JArray l => if forallb (fun v => match v with JNull | JString _ => true | _ => false end) l then Ok tt else Err ErrUnmarshal
  | _ => Err ErrUnmarshal
  end.
Definition decodeResponseMember (resp : BlobResponse) (e : bytes * json) : res BlobResponse :=
  if isField "available_blobs" e.1 then _ ← decodeStrings e.2; Ok resp
  else if isField "blob_data_payment_rate" e.1 then _ ← decodeString [] e.2; Ok resp
  else if isField "incoming_blob" e.1 then
    incoming ← decodeIncoming (resp_IncomingBlob resp) e.2; Ok (MkResponse incoming (resp_Error resp))
  else if isField "error" e.1 then
    error ← decodeString (resp_Error resp) e.2; Ok (MkResponse (resp_IncomingBlob resp) error)
  else Ok resp.
Definition unmarshalResponse (v : json) : res BlobResponse :=
  match v with
  | JNull => Ok (MkResponse None [])
  | JObject m => foldMembers decodeResponseMember (MkResponse None []) m
  | _ => Err ErrUnmarshal
  end.

Definition validateIncomingBlob (incoming : IncomingBlob) (requestedHash : bytes) : res unit :=
  if negb (bool_decide (in_BlobHash incoming = requestedHash)) then Err "blob: peer offered unexpected blob"
  else if (in_Length incoming <=? 0) || (MaxBlobSize <? in_Length incoming)
  then Err "blob: peer length exceeds the resource limit"
  else Ok tt.
(** [blobHash[:12]] *)
Definition hashPrefix {A} (blobHash : bytes) (k : res A) : res A := if blen blobHash <? 12 then Panic else k.

Section client.
Context `{Digests}.

(** [DownloadBlobContext] once it is connected; [reader] is what the peer sends. *)
Definition DownloadBlob (blobHash reader : bytes) : res bytes :=
  '(jsonBuf, reader) ← readHeader (MkHeader [] 0 false false) reader;
  resp ← map_err (fun e => "blob: parse response: " ++ e)%string (v ← parseJson jsonBuf; unmarshalResponse v);
  if negb (bool_decide (resp_Error resp = [])) then Err "blob: peer error"
  else match resp_IncomingBlob resp with
       | None => hashPrefix blobHash (Err "blob: peer has no data")
       | Some incoming =>
           _ ← validateIncomingBlob incoming blobHash;
           if blen reader <? in_Length incoming then Err "blob: read blob data: unexpected EOF"
           else
             let blobData := take (Z.to_nat (in_Length incoming)) reader in
             if bool_decide (hashBytes blobData = blobHash) then Ok blobData
             else hashPrefix blobHash (Err "blob: hash mismatch")
       end.

(** ** Racing the peers

    [NetworkFetcher]'s loop: a batch of peers from a source, the result of a
    download, or the end of the context.  [fs_Dialed] are the addresses for which
    a download was started, in order. *)

Record discoveredPeer := MkPeer { dp_Address : bytes; dp_Usable : bool }.
Inductive fetchEvent :=
| Batch (peers : list discoveredPeer) (err : option string)
| Result (r : res bytes)
| Done.
Record fetchState := MkFetch { fs_Dialed : list bytes; fs_Active : Z; fs_Finished : Z; fs_LastErr : option string }.
Definition dialPeer (st : fetchState) (peer : discoveredPeer) : fetchState :=
  if negb (dp_Usable peer) then st
  else if bool_decide (dp_Address peer ∈ fs_Dialed st) then st
  else MkFetch (fs_Dialed st ++ [dp_Address peer]) (fs_Active st + 1) (fs_Finished st) (fs_LastErr st).
Inductive fetched := Continue (st : fetchState) | Answered (r : res bytes).
Definition fetchOn (st : fetchState) (event : fetchEvent) : fetched :=
  match event with
  | Done => Answered (Err "context canceled")
  | Batch peers err =>
      let st := MkFetch (fs_Dialed st) (fs_Active st) (fs_Finished st + 1)
                  (match err with Some e => Some e | None => fs_LastErr st end) in
      Continue (fold_left dialPeer peers st)
  | Result (Ok data) => Answered (Ok data)
  | Result r =>
      Continue (MkFetch (fs_Dialed st) (fs_Active st - 1) (fs_Finished st) (match r with Err e => Some e | _ => fs_LastErr st end))
  end.
Fixpoint fetchLoop (sources : Z) (blobHash : bytes) (st : fetchState) (events : list fetchEvent) : option (res bytes) :=
  if (fs_Finished st <? sources) || (0 <? fs_Active st) then
    match events with
    | [] => None     (* it waits *)
    | event :: events =>
        match fetchOn st event with
        | Answered r => Some r
        | Continue st => fetchLoop sources blobHash st events
        end
    end
  else Some (hashPrefix blobHash (Err ("all peer sources failed for blob: " ++ default "no usable peers found" (fs_LastErr st)))%string).
(** [sources] counts the kinds of sources that are configured. *)
Definition NetworkFetcher (sources : Z) (blobHash : bytes) (events : list fetchEvent) : option (res bytes) :=
  if negb (ValidHash blobHash) then Some (Err "invalid blob hash")
  else if sources =? 0 then Some (Err "no blob peer sources are configured")
  else fetchLoop sources blobHash (MkFetch [] 0 0 None) events.
End client.

(** ** Framing *)

Definition serverScan (limit : Z) (opened buffer reader : bytes) : res (bytes * bytes) :=
  scanRequest limit (MkScan buffer (1 + opens x7b opened) (opens x5b opened) false false true) reader.
Lemma scanRequest_string limit depth arrayDepth s buffer rest :
  plainString s = true -> blen buffer + blen s < limit ->
  scanRequest limit (MkScan buffer depth arrayDepth true false true) (s ++ rest)
    = scanRequest limit (MkScan (buffer ++ s) depth arrayDepth true false true) rest.
Proof.
  revert buffer. induction s as [|c s IH]; intros buffer Hp Hl; [by rewrite app_nil_r|].
  cbn [plainString forallb] in Hp. apply andb_true_iff in Hp as [Hc Hp]. apply plainChar_spec in Hc as (_ & Hq & Hb).
  pose proof (blen_nonneg s). cbn [app scanRequest]. unfold scanByte.
  destruct (Z.leb_spec limit (blen (buffer ++ [c]))); [lengths|]. cbn [negb].
  destruct (Z.eqb_spec (Zb c) 0x5c); [lia|]. destruct (Z.eqb_spec (Zb c) 0x22); [lia|]. cbn [andb].
  rewrite IH by (done || lengths). by rewrite <- app_assoc.
Qed.
#[export] Instance server_framing limit : Framing limit (serverScan limit).
Proof.
  split; intros opened buffer.
  - intros c rest (? & ? & ? & ? & ?)%neutral_spec Hl. unfold serverScan. cbn [scanRequest]. unfold scanByte.
    destruct (Z.leb_spec limit (blen (buffer ++ [c]))); [lengths|]. cbn [negb andb].
    by rewrite !(proj2 (Z.eqb_neq (Zb c) _)) by done.
  - intros s rest Hs Hl. unfold serverScan. rewrite quoted_plain in * by done.
    assert (blen (x22 :: s ++ [x22]) = blen s + 2) as E by lengths. pose proof (blen_nonneg s).
    change ((x22 :: s ++ [x22]) ++ rest) with (x22 :: (s ++ [x22]) ++ rest). cbn [scanRequest]. unfold scanByte at 1.
    destruct (Z.leb_spec limit (blen (buffer ++ [x22]))); [lengths|]. cbn [negb andb]. cbn.
    rewrite <- app_assoc, scanRequest_string by (done || lengths). cbn [app scanRequest]. unfold scanByte at 1.
    destruct (Z.leb_spec limit (blen (((buffer ++ [x22]) ++ s) ++ [x22]))); [lengths|]. cbn. by rewrite <- !app_assoc.
  - intros c rest Hc Hl. unfold serverScan. cbn [scanRequest]. unfold scanByte.
    destruct (Z.leb_spec limit (blen (buffer ++ [c]))); [lengths|]. unfold opens.
    destruct Hc as [-> | ->]; cbn; do 2 f_equal; lia.
  - intros c rest Hc Hl. unfold serverScan. cbn [scanRequest]. unfold scanByte.
    destruct (Z.leb_spec limit (blen (buffer ++ [closer c]))); [lengths|].
    pose proof (opens_nonneg x7b opened). pose proof (opens_nonneg x5b opened). unfold opens in *.
    destruct Hc as [-> | ->]; cbn [closer decide]; cbn -[Z.add Z.sub Z.eqb Z.of_nat].
    + destruct (Z.eqb_spec (1 + Z.of_nat (S (count_occ Byte.byte_eq_dec opened x7b))) 1); [lia|]. cbn [andb].
      destruct (Z.eqb_spec (1 + Z.of_nat (S (count_occ Byte.byte_eq_dec opened x7b)) - 1) 0); [lia|]. do 2 f_equal; lia.
    + destruct (Z.eqb_spec (Z.of_nat (S (count_occ Byte.byte_eq_dec opened x5b))) 0); [lia|]. do 2 f_equal; lia.
Qed.
Lemma goJson_object m : goJson (JObject m) = x7b :: membersText [] m ++ [x7d].
Proof. reflexivity. Qed.
Lemma readJSONRequest_object m rest limit :
  plainJson (JObject m) -> blen (goJson (JObject m)) < limit ->
  readJSONRequest (goJson (JObject m) ++ rest) limit = Ok (goJson (JObject m), rest).
Proof.
  intros Hp. rewrite goJson_object. intros Hl. pose proof (blen_nonneg (membersText [] m)).
  assert (forall buffer reader, serverScan limit [] buffer (x7d :: reader)
            = if limit <=? blen (buffer ++ [x7d]) then Err ErrRequestSize else Ok (buffer ++ [x7d], reader)) as Hend.
  { intros buffer reader. unfold serverScan. cbn [scanRequest]. unfold scanByte. by destruct (limit <=? _). }
  transitivity (serverScan limit [] [x7b] (membersText [] m ++ x7d :: rest)).
  - unfold readJSONRequest, serverScan. cbn [app scanRequest]. unfold scanByte at 1.
    destruct (Z.leb_spec limit (blen ([] ++ [x7b]))); [lengths|]. cbn. by rewrite <- app_assoc.
  - rewrite (passes_members (limit := limit) [] m (Forall_nil_2 _) Hp) by lengths. rewrite Hend.
    destruct (Z.leb_spec limit (blen (([x7b] ++ membersText [] m) ++ [x7d]))); [lengths|]. done.
Qed.

Definition clientLimit : Z := MaxBlobResponseHeaderSize + 1.
Definition clientScan (opened buffer reader : bytes) : res (bytes * bytes) :=
  readHeader (MkHeader buffer (1 + opens x7b opened) false false) reader.
Lemma readHeader_string depth s buffer rest :
  plainString s = true -> blen buffer + blen s < clientLimit ->
  readHeader (MkHeader buffer depth true false) (s ++ rest) = readHeader (MkHeader (buffer ++ s) depth true false) rest.
Proof.
  unfold clientLimit. revert buffer. induction s as [|c s IH]; intros buffer Hp Hl; [by rewrite app_nil_r|].
  cbn [plainString forallb] in Hp. apply andb_true_iff in Hp as [Hc Hp]. apply plainChar_spec in Hc as (_ & Hq & Hb).
  pose proof (blen_nonneg s). cbn [app readHeader]. unfold headerByte.
  destruct (Z.ltb_spec MaxBlobResponseHeaderSize (blen (buffer ++ [c]))); [lengths|].
  destruct (Z.eqb_spec (Zb c) 0x5c); [lia|]. destruct (Z.eqb_spec (Zb c) 0x22); [lia|]. cbn [andb].
  rewrite IH by (done || lengths). by rewrite <- app_assoc.
Qed.
#[export] Instance client_framing : Framing clientLimit clientScan.
Proof.
  unfold clientLimit. split; intros opened buffer.
  - intros c rest (? & ? & ? & ? & ?)%neutral_spec Hl. unfold clientScan. cbn [readHeader]. unfold headerByte.
    destruct (Z.ltb_spec MaxBlobResponseHeaderSize (blen (buffer ++ [c]))); [lengths|]. rewrite andb_false_r.
    by rewrite !(proj2 (Z.eqb_neq (Zb c) _)) by done.
  - intros s rest Hs Hl. unfold clientScan. rewrite quoted_plain in * by done. pose proof (blen_nonneg s).
    assert (blen (x22 :: s ++ [x22]) = blen s + 2) as E by lengths.
    change ((x22 :: s ++ [x22]) ++ rest) with (x22 :: (s ++ [x22]) ++ rest). cbn [readHeader]. unfold headerByte at 1.
    destruct (Z.ltb_spec MaxBlobResponseHeaderSize (blen (buffer ++ [x22]))); [lengths|]. cbn.
    rewrite <- app_assoc, readHeader_string by (done || (unfold clientLimit; lengths)). cbn [app readHeader]. unfold headerByte at 1.
    destruct (Z.ltb_spec MaxBlobResponseHeaderSize (blen (((buffer ++ [x22]) ++ s) ++ [x22]))); [lengths|]. cbn.
    by rewrite <- !app_assoc.
  - intros c rest Hc Hl. unfold clientScan. cbn [readHeader]. unfold headerByte.
    destruct (Z.ltb_spec MaxBlobResponseHeaderSize (blen (buffer ++ [c]))); [lengths|]. unfold opens.
    destruct Hc as [-> | ->]; cbn; do 2 f_equal; lia.
  - intros c rest Hc Hl. unfold clientScan. cbn [readHeader]. unfold headerByte.
    destruct (Z.ltb_spec MaxBlobResponseHeaderSize (blen (buffer ++ [closer c]))); [lengths|].
    pose proof (opens_nonneg x7b opened). unfold opens in *.
    destruct Hc as [-> | ->]; cbn [closer decide]; cbn -[Z.add Z.sub Z.eqb Z.of_nat].
    + destruct (Z.eqb_spec (1 + Z.of_nat (S (count_occ Byte.byte_eq_dec opened x7b)) - 1) 0); [lia|]. do 2 f_equal; lia.
    + do 2 f_equal; lia.
Qed.
Lemma readHeader_object m rest :
  plainJson (JObject m) -> blen (goJson (JObject m)) <= MaxBlobResponseHeaderSize ->
  readHeader (MkHeader [] 0 false false) (goJson (JObject m) ++ rest) = Ok (goJson (JObject m), rest).
Proof.
  intros Hp. rewrite goJson_object. intros Hl. pose proof (blen_nonneg (membersText [] m)).
  assert (forall buffer reader, blen buffer < MaxBlobResponseHeaderSize ->
            clientScan [] buffer (x7d :: reader) = Ok (buffer ++ [x7d], reader)) as Hend.
  { intros buffer reader Hb. unfold clientScan. cbn [readHeader]. unfold headerByte.
    by destruct (Z.ltb_spec MaxBlobResponseHeaderSize (blen (buffer ++ [x7d]))); [lengths|]. }
  transitivity (clientScan [] [x7b] (membersText [] m ++ x7d :: rest)).
  - unfold clientScan. cbn [app readHeader]. unfold headerByte at 1.
    destruct (Z.ltb_spec MaxBlobResponseHeaderSize (blen ([] ++ [x7b]))); [lengths|]. cbn. by rewrite <- app_assoc.
  - rewrite (passes_members (limit := clientLimit) [] m (Forall_nil_2 _) Hp) by (unfold clientLimit; lengths). by rewrite Hend by lengths.
Qed.

(** ** The client against the server *)

Section exchange.
Context `{Digests}.

(** What a client gets from a server that answers its one request. *)
Definition exchange (paymentAddress : bytes) (getLocal : bytes -> option bytes) (blobHash : bytes) : res bytes :=
  answers ← handleConnection paymentAddress (fun _ => getLocal) (fun _ => true) (blobRequest blobHash);
  DownloadBlob blobHash (written answers).

Definition requestMembers (h : bytes) : list (bytes * json) :=
  [(lit "requested_blobs", JArray [JString h]); (lit "blob_data_payment_rate", JNumber (lit "0")); (lit "requested_blob", JString h)].
Definition responseMembers (h : bytes) (n : Z) : list (bytes * json) :=
  [(lit "available_blobs", JArray [JString h]); (lit "blob_data_payment_rate", JString getBlobDataPaymentRate);
   (lit "incoming_blob", JObject [(lit "blob_hash", JString h); (lit "length", JNumber (FormatInt n))])].
Definition noBlobMembers : list (bytes * json) :=
  [(lit "available_blobs", JNull); (lit "blob_data_payment_rate", JString getBlobDataPaymentRate)].

Lemma digits_length fuel z acc : (length (digits fuel z acc) <= fuel + length acc)%nat.
Proof. revert z acc. induction fuel as [|fuel IH]; intros z acc; cbn; [lia|]. case_match; [cbn; lia|]. etransitivity; [apply IH|cbn; lia]. Qed.
Lemma FormatInt_length n : 0 <= n < 2 ^ 63 -> blen (FormatInt n) <= 64.
Proof.
  intros Hn. unfold FormatInt, FormatUint, blen. destruct (Z.ltb_spec n 0); [lia|].
  pose proof (digits_length (S (Z.to_nat (Z.log2 n))) n []) as Hd. cbn [length] in Hd.
  assert (Z.log2 n < 63); [|lia]. destruct (decide (n = 0)) as [->|]; [done|]. apply Z.log2_lt_pow2; lia.
Qed.

Lemma plain_request h : plainString h = true -> plainJson (JObject (requestMembers h)).
Proof.
  intros Hh. constructor. repeat constructor; try done. change (lit "0") with (FormatInt 0). by constructor.
Qed.
Lemma plain_response h n : plainString h = true -> 0 <= n -> plainJson (JObject (responseMembers h n)).
Proof. intros Hh Hn. constructor. repeat constructor; done. Qed.
Lemma plain_noBlob : plainJson (JObject noBlobMembers).
Proof. constructor. repeat constructor; done. Qed.

Lemma goJson_parse m :
  plainJson (JObject m) -> (jsonHeight (JObject m) <= 2)%nat -> parseJson (goJson (JObject m)) = Ok (JObject m).
Proof.
  intros Hp Hh. apply parseJson_text; [by apply Forall_nil|done| |].
  - rewrite goJson_object. cbn [length]. rewrite length_app. cbn [length]. lia.
  - etransitivity; [exact Hh|]. by apply Nat.leb_le.
Qed.

Lemma request_size h : plainString h = true -> blen h <= 500 -> blen (blobRequest h) < MaxRequestSize.
Proof.
  intros Hh Hl. unfold blobRequest, MaxRequestSize. cbn [jsonText map separatedBy fst snd]. rewrite !quoted_plain by done.
  cbn. lengths.
Qed.
Lemma response_size h n :
  plainString h = true -> blen h <= 500 -> 0 <= n < 2 ^ 63 -> blen (goJson (JObject (responseMembers h n))) <= MaxBlobResponseHeaderSize.
Proof.
  intros Hh Hl Hn%FormatInt_length. unfold MaxBlobResponseHeaderSize, responseMembers. cbn [jsonText map separatedBy fst snd].
  rewrite !quoted_plain by done. cbn -[FormatInt]. lengths.
Qed.

Lemma unmarshal_request h : plainString h = true -> unmarshalMap (blobRequest h) = Ok (requestMembers h).
Proof.
  intros Hh. unfold unmarshalMap, blobRequest. change (JObject _) with (JObject (requestMembers h)).
  rewrite goJson_parse; [reflexivity|by apply plain_request|]. cbn. lia.
Qed.
Lemma respond_request paymentAddress getLocal h :
  respond paymentAddress getLocal (requestMembers h)
    = match getLocal h with
      | Some data => Some (goJson (JObject (responseMembers h (blen data))), data)
      | None => Some (goJson (JObject noBlobMembers), [])
      end.
Proof.
  assert (field "lbrycrd_address" (requestMembers h) = None) as E1 by reflexivity.
  assert (field "requested_blobs" (requestMembers h) = Some (JArray [JString h])) as E2 by reflexivity.
  assert (field "blob_data_payment_rate" (requestMembers h) = Some (JNumber (lit "0"))) as E3 by reflexivity.
  assert (field "requested_blob" (requestMembers h) = Some (JString h)) as E4 by reflexivity.
  unfold respond. cbn [existsb]. rewrite E1, E2, E3, E4. cbn [mbind option_bind stringsFromJSON stringItems orb app].
  unfold getRequestedBlob, getAvailableBlobs. cbn [List.filter]. destruct (getLocal h) as [data|]; reflexivity.
Qed.
Lemma serve_request paymentAddress getLocal h :
  plainString h = true -> blen h <= 500 ->
  handleConnection paymentAddress (fun _ => getLocal) (fun _ => true) (blobRequest h)
    = Ok [match getLocal h with
          | Some data => (goJson (JObject (responseMembers h (blen data))), data)
          | None => (goJson (JObject noBlobMembers), [])
          end].
Proof.
  intros Hh Hl. unfold handleConnection. cbn [handleRequests].
  pose proof (readJSONRequest_object (requestMembers h) [] MaxRequestSize (plain_request h Hh) (request_size h Hh Hl)) as E.
  rewrite app_nil_r in E. change (goJson (JObject (requestMembers h))) with (blobRequest h) in E. rewrite E.
  rewrite unmarshal_request by done. rewrite respond_request.
  assert (forall k, handleRequests (length (blobRequest h)) paymentAddress (fun _ => getLocal) (fun _ => true) k [] = Ok []) as Hend by done.
  destruct (getLocal h); by rewrite Hend.
Qed.

Lemma unmarshal_response h n :
  0 <= n <= max_i64 -> unmarshalResponse (JObject (responseMembers h n)) = Ok (MkResponse (Some (MkIncoming h n)) []).
Proof.
  intros Hn. assert (ParseInt (FormatInt n) = Ok n) as Hp by (apply ParseInt_Format; unfold min_i64; lia).
  assert (decodeInt 0 (JNumber (FormatInt n)) = Ok n) as Hd by (unfold decodeInt; by rewrite Hp).
  set (number := JNumber (FormatInt n)) in *.
  assert (decodeIncomingMember (MkIncoming h 0) (lit "length", number) = Ok (MkIncoming h n)) as Hm.
  { transitivity (v ← decodeInt 0 number; Ok (MkIncoming h v)); [reflexivity|by rewrite Hd]. }
  assert (decodeIncoming None (JObject [(lit "blob_hash", JString h); (lit "length", number)])
            = Ok (Some (MkIncoming h n))) as Hi.
  { transitivity (i ← (i ← decodeIncomingMember (MkIncoming h 0) (lit "length", number); Ok i); Ok (Some i));
      [reflexivity|by rewrite Hm]. }
  transitivity (i ← decodeIncoming None (JObject [(lit "blob_hash", JString h); (lit "length", number)]);
                Ok (MkResponse i [])); [|by rewrite Hi].
  unfold unmarshalResponse, responseMembers. fold number. cbn [foldMembers].
  assert (forall r, decodeResponseMember r (lit "available_blobs", JArray [JString h]) = Ok r) as E1 by reflexivity.
  assert (forall r s, decodeResponseMember r (lit "blob_data_payment_rate", JString s) = Ok r) as E2 by reflexivity.
  rewrite E1. cbn [mbind res_bind]. rewrite E2. cbn [mbind res_bind].
  set (incoming := JObject _).
  transitivity (r ← (i ← decodeIncoming None incoming; Ok (MkResponse i [])); Ok r); [reflexivity|].
  by destruct (decodeIncoming None incoming).
Qed.

(** A response whose header has been read and decoded. *)
Lemma DownloadBlob_offer h reader text v h' n data rest :
  readHeader (MkHeader [] 0 false false) reader = Ok (text, data ++ rest) -> parseJson text = Ok v ->
  unmarshalResponse v = Ok (MkResponse (Some (MkIncoming h' n)) []) ->
  h' = h -> n = blen data -> hashBytes data = h -> 0 < blen data <= MaxBlobSize -> DownloadBlob h reader = Ok data.
Proof.
  intros Hr Hp Hu -> -> Hhash Hlen. unfold DownloadBlob. rewrite Hr. cbn [mbind res_bind]. rewrite Hp. cbn [mbind res_bind].
  rewrite Hu. cbn [map_err mbind res_bind resp_Error resp_IncomingBlob]. rewrite (bool_decide_eq_true_2 ([] = [])) by done.
  unfold validateIncomingBlob. cbn [negb in_BlobHash in_Length]. rewrite (bool_decide_eq_true_2 (h = h)) by done.
  destruct (Z.leb_spec (blen data) 0); [lia|]. destruct (Z.ltb_spec MaxBlobSize (blen data)); [lia|].
  cbn [negb orb mbind res_bind]. destruct (Z.ltb_spec (blen (data ++ rest)) (blen data)) as [Hlt|]; [pose proof (blen_nonneg rest); lengths|].
  unfold blen. rewrite Nat2Z.id, take_app_length. by rewrite bool_decide_eq_true_2.
Qed.
Lemma DownloadBlob_nothing h reader text v rest :
  readHeader (MkHeader [] 0 false false) reader = Ok (text, rest) -> parseJson text = Ok v ->
  unmarshalResponse v = Ok (MkResponse None []) -> 12 <= blen h -> DownloadBlob h reader = Err "blob: peer has no data".
Proof.
  intros Hr Hp Hu Hh. unfold DownloadBlob. rewrite Hr. cbn [mbind res_bind]. rewrite Hp. cbn [mbind res_bind].
  rewrite Hu. cbn [map_err mbind res_bind resp_Error resp_IncomingBlob]. rewrite (bool_decide_eq_true_2 ([] = [])) by done.
  cbn [negb]. unfold hashPrefix. by destruct (Z.ltb_spec (blen h) 12); [lia|].
Qed.

Lemma exchange_blob paymentAddress getLocal h data :
  plainString h = true -> blen h <= 500 -> getLocal h = Some data -> hashBytes data = h -> 0 < blen data <= MaxBlobSize ->
  exchange paymentAddress getLocal h = Ok data.
Proof.
  intros Hh Hl Hg Hhash Hlen. assert (0 <= blen data < 2 ^ 63) as Hn by (unfold MaxBlobSize in *; lia).
  unfold exchange. rewrite serve_request, Hg by done. cbn [mbind res_bind].
  unfold written. cbn [map concat fst snd]. rewrite app_nil_r.
  eapply (DownloadBlob_offer h _ _ _ h (blen data) data []); [| | |done..].
  - rewrite app_nil_r. apply readHeader_object; [apply plain_response; [done|lia]|apply response_size; [done|lia|lia]].
  - apply goJson_parse; [apply plain_response; [done|lia]|cbn; lia].
  - apply unmarshal_response. unfold max_i64. lia.
Qed.
Lemma exchange_missing paymentAddress getLocal h :
  plainString h = true -> 12 <= blen h <= 500 -> getLocal h = None ->
  exchange paymentAddress getLocal h = Err "blob: peer has no data".
Proof.
  intros Hh Hl Hg. unfold exchange. rewrite serve_request, Hg by (done || lia). cbn [mbind res_bind].
  unfold written. cbn [map concat fst snd].
  assert (blen (goJson (JObject noBlobMembers)) <= MaxBlobResponseHeaderSize) as Hsize by (apply Z.leb_le; by vm_compute).
  eapply DownloadBlob_nothing; [| | |lia].
  - rewrite app_nil_r. by apply (readHeader_object noBlobMembers [] plain_noBlob Hsize).
  - apply goJson_parse; [apply plain_noBlob|cbn; lia].
  - reflexivity.
Qed.

(** ** Any peer *)

Lemma readHeader_returns st reader : returns (readHeader st reader).
Proof. revert st. induction reader as [|b reader IH]; intros st; cbn; [done|]. destruct (headerByte st b); [apply IH|done..]. Qed.
Lemma unmarshalResponse_returns v : returns (unmarshalResponse v).
Proof.
  destruct v; try done. apply foldMembers_returns. clear. intros resp [k v]. unfold decodeResponseMember. cbn [fst snd].
  destruct (isField _ k); [apply returns_bind; [|done]; destruct v; try done; cbn; by destruct (forallb _ _)|].
  destruct (isField _ k); [apply returns_bind; [apply decodeString_returns|done]|].
  destruct (isField _ k).
  - apply returns_bind; [|done]. destruct v; try done. apply returns_bind; [|done]. apply foldMembers_returns.
    intros incoming [k' v']. unfold decodeIncomingMember. cbn [fst snd].
    destruct (isField _ k'); [apply returns_bind; [apply decodeString_returns|done]|].
    destruct (isField _ k'); [apply returns_bind; [apply decodeInt_returns|done]|done].
  - destruct (isField _ k); [apply returns_bind; [apply decodeString_returns|done]|done].
Qed.
Lemma DownloadBlob_returns h reader : 12 <= blen h -> returns (DownloadBlob h reader).
Proof.
  intros Hh. assert (forall A (m : res A), returns m -> returns (hashPrefix h m)) as Hpre.
  { intros A m Hm. unfold hashPrefix. by destruct (Z.ltb_spec (blen h) 12); [lia|]. }
  unfold DownloadBlob. apply returns_bind; [apply readHeader_returns|]. intros [jsonBuf rest] _.
  apply returns_bind.
  { apply returns_map_err, returns_bind; [apply parseJson_returns|]. intros v _. apply unmarshalResponse_returns. }
  intros resp _. destruct (negb _); [done|]. destruct (resp_IncomingBlob resp); [|by apply Hpre].
  apply returns_bind.
  { unfold validateIncomingBlob. destruct (negb _); [done|]. by destruct (_ || _). }
  intros _ _. destruct (_ <? _); [done|]. destruct (bool_decide _); [done|by apply Hpre].
Qed.
Lemma DownloadBlob_Ok h reader data :
  DownloadBlob h reader = Ok data -> hashBytes data = h /\ 0 < blen data <= MaxBlobSize.
Proof.
  unfold DownloadBlob. intros ([jsonBuf rest] & _ & Hd)%res_bind_Ok. apply res_bind_Ok in Hd as (resp & _ & Hd).
  destruct (negb _); [done|]. destruct (resp_IncomingBlob resp) as [incoming|]; [|unfold hashPrefix in Hd; by destruct (_ <? _)].
  apply res_bind_Ok in Hd as ([] & Hv & Hd).
  destruct (Z.ltb_spec (blen rest) (in_Length incoming)); [done|]. case_bool_decide as Hh; [|unfold hashPrefix in Hd; by destruct (_ <? _)].
  injection Hd as <-. split; [done|]. unfold validateIncomingBlob in Hv. destruct (negb _); [done|].
  destruct (Z.leb_spec (in_Length incoming) 0); [done|]. destruct (Z.ltb_spec MaxBlobSize (in_Length incoming)); [done|].
  unfold blen in *. rewrite length_take. lia.
Qed.

Lemma dialPeer_fold st peers :
  NoDup (fs_Dialed st) -> NoDup (fs_Dialed (fold_left dialPeer peers st)) /\
  fs_Active (fold_left dialPeer peers st) - blen (fs_Dialed (fold_left dialPeer peers st)) = fs_Active st - blen (fs_Dialed st) /\
  fs_Finished (fold_left dialPeer peers st) = fs_Finished st.
Proof.
  revert st. induction peers as [|peer peers IH]; intros st Hd; cbn; [done|].
  unfold dialPeer at 2 4 6 8. destruct (negb (dp_Usable peer)); [by apply IH|]. case_bool_decide as Hin; [by apply IH|].
  destruct (IH (MkFetch (fs_Dialed st ++ [dp_Address peer]) (fs_Active st + 1) (fs_Finished st) (fs_LastErr st))) as (? & E & ?).
  - cbn. apply NoDup_app. split_and!; [done| |apply NoDup_singleton]. intros x Hx ->%list_elem_of_singleton. done.
  - cbn [fs_Active fs_Dialed] in E. rewrite blen_app, blen_cons, blen_nil in E. split_and!; [done|lia|done].
Qed.

Lemma fetchLoop_Ok sources h st events data :
  fetchLoop sources h st events = Some (Ok data) -> Result (Ok data) ∈ events.
Proof.
  assert (forall e, @hashPrefix bytes h (Err e) <> Ok data) as Hpre by (intros e; unfold hashPrefix; by destruct (_ <? _)).
  revert st. induction events as [|event events IH]; intros st; cbn [fetchLoop];
    (destruct (_ || _); [|intros [= E]; by apply Hpre in E]); [done|].
  rewrite elem_of_cons. destruct event as [peers err|r|]; cbn [fetchOn]; [intros Hf; right; by eapply IH| |by intros [=]].
  destruct r; [intros [= ->]; by left|intros Hf; right; by eapply IH..].
Qed.

Lemma scanRequest_consumes limit st reader : consumes reader (scanRequest limit st reader).
Proof.
  revert st. induction reader as [|c reader IH]; intros st; cbn [scanRequest]; [done|].
  destruct (scanByte limit st c); [|cbn; lia|done]. eapply consumes_weaken; [|apply IH]. cbn. lia.
Qed.
Lemma anyValue_returns v : returns (anyValue v).
Proof.
  induction v as [| | | |l IH|m IH] using json_nested_ind; cbn [anyValue]; try done; [by destruct (floatOf _)|..].
  - apply returns_bind; [|done]. induction IH as [|v l Hv _ IHl]; [done|]. apply returns_bind; [done|]. intros. by apply returns_bind.
  - apply returns_bind; [|done]. generalize (@nil (bytes * json)). induction IH as [|[k v] m Hv _ IHm]; intros acc; [done|].
    apply returns_bind; [done|]. intros. apply IHm.
Qed.
Lemma unmarshalMap_returns data : returns (unmarshalMap data).
Proof.
  unfold unmarshalMap. apply returns_bind; [apply parseJson_returns|]. intros v _. destruct v; try done.
  apply returns_bind; [apply anyValue_returns|]. by intros [].
Qed.
Lemma respond_blob paymentAddress getLocal data header blobData :
  respond paymentAddress getLocal data = Some (header, blobData) -> blobData = [] \/ exists h, getLocal h = Some blobData.
Proof.
  unfold respond. intros (blobsPart & _ & Hr)%bind_Some. apply bind_Some in Hr as (ratePart & _ & Hr).
  apply bind_Some in Hr as ([incomingPart b] & Hb & Hr). destruct (existsb _ _); [|done]. injection Hr as _ <-.
  destruct (field "requested_blob" data) as [[]|]; try done; [|injection Hb as _ <-; by left].
  unfold getRequestedBlob in Hb. destruct (getLocal s) as [d|] eqn:E; cbn in Hb; injection Hb as _ <-; [right; by exists s|by left].
Qed.
Lemma handleRequests_spec fuel paymentAddress getLocal writable n reader :
  (length reader < fuel)%nat ->
  exists answers, handleRequests fuel paymentAddress getLocal writable n reader = Ok answers /\
    Forall (fun a => a.2 = [] \/ exists k h, getLocal k h = Some a.2) answers.
Proof.
  revert n reader. induction fuel as [|fuel IH]; intros n reader Hl; [lia|]. cbn [handleRequests].
  pose proof (scanRequest_consumes MaxRequestSize (MkScan [] 0 0 false false false) reader) as Hc.
  unfold readJSONRequest. destruct (scanRequest _ _ _) as [[request rest]| | |]; cbn in Hc; [|by eexists|done..].
  pose proof (unmarshalMap_returns request) as Hu. destruct (unmarshalMap request) as [data| | |]; [|by eexists|done..].
  destruct (respond paymentAddress (getLocal n) data) as [[header blobData]|] eqn:Er; [|by eexists].
  destruct (writable n); [|by eexists].
  destruct (IH (S n) rest ltac:(lia)) as (answers & -> & Hall). eexists. split; [done|]. constructor; [|done]. cbn.
  apply respond_blob in Er as [|[h Hh]]; [by left|right; eauto].
Qed.

(** Neither side of the exchange can be made to break its promise.  Whatever
    bytes a peer sends, a download of a blob ends, without a panic for a hash of
    at least twelve characters, and what it returns has the hash that was asked
    for and a legal size; so the race over the peers answers only verified
    blobs, whatever was discovered and in whatever order the downloads end, and
    dials no address twice; and whatever bytes a client sends, the server's
    handler ends and every blob it writes is one that the blob manager gave. *)
Theorem exchange_safe :
  (forall h reader, 12 <= blen h -> returns (DownloadBlob h reader)) /\
  (forall h reader data, DownloadBlob h reader = Ok data -> hashBytes data = h /\ 0 < blen data <= MaxBlobSize) /\
  (forall sources h events data,
     (forall r, Result r ∈ events -> exists reader, r = DownloadBlob h reader) ->
     NetworkFetcher sources h events = Some (Ok data) -> hashBytes data = h /\ 0 < blen data <= MaxBlobSize) /\
  (forall st event st', fetchOn st event = Continue st' -> NoDup (fs_Dialed st) -> NoDup (fs_Dialed st')) /\
  (forall paymentAddress getLocal writable reader, exists answers,
     handleConnection paymentAddress getLocal writable reader = Ok answers /\
     Forall (fun a => a.2 = [] \/ exists n h, getLocal n h = Some a.2) answers).
Proof.
  split_and!.
  - intros. by apply DownloadBlob_returns.
  - intros h reader data. apply DownloadBlob_Ok.
  - intros sources h events data Hev. unfold NetworkFetcher. destruct (negb _); [done|]. destruct (sources =? 0); [done|].
    intros Hf%fetchLoop_Ok. destruct (Hev _ Hf) as [reader Hr]. by eapply DownloadBlob_Ok.
  - intros st event st' Hf Hd. destruct event as [peers err|[]|]; cbn in Hf; try done; injection Hf as <-; try done.
    by apply dialPeer_fold.
  - intros. apply handleRequests_spec. lia.
Qed.
End exchange.
