(* ===== verification/Routing.v ===== *)
(** * The Kademlia routing table

    Model of the identifiers, the XOR metric and [RoutingTable] of
    [dht/node.go].  An ID is the [HashSize] bytes of a Go array, an IP address
    the bytes of a [net.IP].  The table's mutex makes each operation atomic, so
    an operation is a function on the table; [time.Now()] is its argument [now]. *)

From S2P Require Import Prelude.

Definition HashSize : nat := 48.
Definition K : nat := 8.

(** ** [net.IP] *)

Definition v4InV6Prefix : bytes := repeat x00 10 ++ [xff; xff].
Definition To4 (ip : bytes) : option bytes :=
  if (length ip =? 4)%nat then Some ip
  else if ((length ip =? 16)%nat && bool_decide (take 12 ip = v4InV6Prefix))
  then Some (drop 12 ip) else None.
(** [net.IPv4(a, b, c, d)] *)
Definition IPv4 (quad : bytes) : bytes := v4InV6Prefix ++ quad.
Definition IPEqual (ip x : bytes) : bool :=
  if (length ip =? length x)%nat then bool_decide (ip = x)
  else if ((length ip =? 4) && (length x =? 16))%nat then
    bool_decide (take 12 x = v4InV6Prefix) && bool_decide (ip = drop 12 x)
  else if ((length ip =? 16) && (length x =? 4))%nat then
    bool_decide (take 12 ip = v4InV6Prefix) && bool_decide (drop 12 ip = x)
  else false.

(** ** Peers and distances *)

Record Peer := MkPeer {
  p_ID : bytes;
  p_IP : bytes;
  p_UDPPort : Z;
  p_TCPPort : Z;
  p_LastSeen : Z
}.
#[export] Instance Peer_eq_dec : EqDecision Peer.
Proof. solve_decision. Defined.

Definition Distance (a b : bytes) : bytes := zip_with (fun x y => byt (Z.lxor (Zb x) (Zb y))) a b.
Fixpoint DistanceLess (a b : bytes) : bool :=
  match a, b with
  | x :: a, y :: b =>
      if Zb x <? Zb y then true else if Zb y <? Zb x then false else DistanceLess a b
  | _, _ => false
  end.

(** ** The table *)

Record RoutingTable := MkTable {
  rt_selfID : bytes;
  rt_buckets : list (list Peer);
  rt_failures : gmap bytes Z
}.
Definition NewRoutingTable (selfID : bytes) : RoutingTable :=
  MkTable selfID (repeat [] (HashSize * 8)) ∅.

(** The first bit set, from the most significant one. *)
Definition firstBit (b : byte) : option Z :=
  (fun bit => 7 - bit) <$> find (fun bit => Z.testbit (Zb b) bit) [7; 6; 5; 4; 3; 2; 1; 0].
Fixpoint firstBitFrom (i : Z) (dist : bytes) : Z :=
  match dist with
  | [] => Z.of_nat HashSize * 8 - 1
  | b :: dist => match firstBit b with Some bit => i * 8 + bit | None => firstBitFrom (i + 1) dist end
  end.
Definition bucketIndex (rt : RoutingTable) (nodeID : bytes) : nat :=
  Z.to_nat (firstBitFrom 0 (Distance (rt_selfID rt) nodeID)).

(** Take the first peer with an ID out of a bucket. *)
Fixpoint takePeer (id : bytes) (peers : list Peer) : option (Peer * list Peer) :=
  match peers with
  | [] => None
  | p :: peers =>
      if decide (p_ID p = id) then Some (p, peers)
      else match takePeer id peers with Some (q, rest) => Some (q, p :: rest) | None => None end
  end.

Definition sameEndpoint (p existing : Peer) : bool :=
  bool_decide (p_UDPPort existing = p_UDPPort p) && IPEqual (p_IP existing) (p_IP p).
(** Another node's contact at the endpoint of [p]. *)
Definition displaced (p existing : Peer) : bool :=
  negb (bool_decide (p_ID existing = p_ID p)) && sameEndpoint p existing.

Definition getBucket (rt : RoutingTable) (idx : nat) : list Peer := default [] (rt_buckets rt !! idx).
Definition setBucket (rt : RoutingTable) (idx : nat) (peers : list Peer) (failures : gmap bytes Z)
  : RoutingTable :=
  MkTable (rt_selfID rt) (<[idx := peers]> (rt_buckets rt)) failures.

(** The loop over all buckets: displaced contacts go, and their failure counts. *)
Definition displace (rt : RoutingTable) (p : Peer) : RoutingTable :=
  MkTable (rt_selfID rt)
    (map (List.filter (fun e => negb (displaced p e))) (rt_buckets rt))
    (fold_left (fun failures e => delete (p_ID e) failures)
       (List.filter (displaced p) (concat (rt_buckets rt))) (rt_failures rt)).

Definition rejectedPeer (rt : RoutingTable) (p : Peer) : bool :=
  bool_decide (p_ID p = rt_selfID rt) || bool_decide (To4 (p_IP p) = None) ||
  (p_UDPPort p <=? 0) || (65535 <? p_UDPPort p).

Definition AddPeer (now : Z) (rt : RoutingTable) (p : Peer) : RoutingTable * bool :=
  if rejectedPeer rt p then (rt, false)
  else
    let rt := displace rt p in
    let idx := bucketIndex rt (p_ID p) in
    let bucket := getBucket rt idx in
    match takePeer (p_ID p) bucket with
    | Some (existing, rest) =>
        let updated := MkPeer (p_ID existing) (p_IP p) (p_UDPPort p)
          (if 0 <? p_TCPPort p then p_TCPPort p else p_TCPPort existing) now in
        (setBucket rt idx (rest ++ [updated]) (delete (p_ID p) (rt_failures rt)), true)
    | None =>
        if (length bucket <? K)%nat then
          let p := MkPeer (p_ID p) (p_IP p) (p_UDPPort p) (p_TCPPort p) now in
          (setBucket rt idx (bucket ++ [p]) (delete (p_ID p) (rt_failures rt)), true)
        else (rt, false)
    end.

Definition RemovePeer (rt : RoutingTable) (nodeID : bytes) : RoutingTable * bool :=
  let idx := bucketIndex rt nodeID in
  let failures := delete nodeID (rt_failures rt) in
  match takePeer nodeID (getBucket rt idx) with
  | Some (_, rest) => (setBucket rt idx rest failures, true)
  | None => (MkTable (rt_selfID rt) (rt_buckets rt) failures, false)
  end.

Definition MarkFailure (rt : RoutingTable) (nodeID : bytes) : RoutingTable * bool :=
  let count := default 0 (rt_failures rt !! nodeID) + 1 in
  if count <? 2 then
    (MkTable (rt_selfID rt) (rt_buckets rt) (<[nodeID := count]> (rt_failures rt)), false)
  else RemovePeer rt nodeID.

Definition PeerCount (rt : RoutingTable) : nat :=
  fold_left (fun count bucket => (count + length bucket)%nat) (rt_buckets rt) O.

(** [sort.Slice] on distances; the IDs of a table are distinct, so distances
    are too, and every sorting algorithm gives the same list. *)
Definition closer (key : bytes) (p q : Peer) : Prop :=
  Is_true (negb (DistanceLess (Distance key (p_ID q)) (Distance key (p_ID p)))).
#[export] Instance closer_dec key p q : Decision (closer key p q) := _.
Definition ClosestPeers (rt : RoutingTable) (key : bytes) (n : nat) : list Peer :=
  take n (merge_sort (closer key) (concat (rt_buckets rt))).

(** ** The metric *)

Lemma Distance_comm a b : Distance a b = Distance b a.
Proof.
  revert b. induction a as [|x a IH]; intros [|y b]; cbn; try done.
  unfold Distance in IH. by rewrite IH, Z.lxor_comm.
Qed.
Lemma lxor_byte x y : 0 <= Z.lxor (Zb x) (Zb y) < 256.
Proof.
  pose proof (Zb_range x). pose proof (Zb_range y).
  assert (0 <= Z.lxor (Zb x) (Zb y)) as Hp by (apply Z.lxor_nonneg; lia). split; [done|].
  destruct (decide (Z.lxor (Zb x) (Zb y) = 0)) as [->|]; [done|].
  apply (Z.log2_lt_pow2 _ 8); [lia|].
  pose proof (Z.log2_lxor (Zb x) (Zb y) ltac:(lia) ltac:(lia)).
  assert (Z.log2 (Zb x) < 8).
  { destruct (decide (Zb x = 0)) as [->|]; [done|]. apply Z.log2_lt_pow2; lia. }
  assert (Z.log2 (Zb y) < 8).
  { destruct (decide (Zb y = 0)) as [->|]; [done|]. apply Z.log2_lt_pow2; lia. }
  lia.
Qed.
Lemma Distance_inj key a b :
  length a = length key -> length b = length key -> Distance key a = Distance key b -> a = b.
Proof.
  revert a b. induction key as [|k key IH]; intros [|x a] [|y b]; cbn; try done.
  intros Ha Hb [=E1 E2]. f_equal; [|apply IH; (lia || done)].
  apply (f_equal Zb) in E1. rewrite !Zb_byt_id in E1 by apply lxor_byte.
  apply (f_equal (Z.lxor (Zb k))) in E1.
  rewrite <- !Z.lxor_assoc, !Z.lxor_nilpotent, !Z.lxor_0_l in E1. by apply (inj Zb).
Qed.
Lemma length_Distance a b : length a = length b -> length (Distance a b) = length a.
Proof. intros. unfold Distance. rewrite length_zip_with. lia. Qed.

(** The order of distances is the order of the big-endian integers. *)
Lemma DistanceLess_value a b :
  length a = length b -> DistanceLess a b = (be_value a <? be_value b).
Proof.
  revert b. induction a as [|x a IH]; intros [|y b]; cbn [length DistanceLess]; try done.
  intros H. injection H as H. rewrite !be_value_cons, IH by done.
  pose proof (be_value_range a). pose proof (be_value_range b).
  assert (blen a = blen b) as E by (unfold blen; by rewrite H). rewrite E in *.
  destruct (Z.ltb_spec (Zb x) (Zb y)); [symmetry; apply Z.ltb_lt; nia|].
  destruct (Z.ltb_spec (Zb y) (Zb x)); [symmetry; apply Z.ltb_ge; nia|].
  assert (Zb x = Zb y) as -> by lia.
  apply eq_true_iff_eq. rewrite !Z.ltb_lt. lia.
Qed.

(** ** Buckets are common prefix lengths *)

Lemma firstBit_log2 b : firstBit b = if Zb b =? 0 then None else Some (7 - Z.log2 (Zb b)).
Proof. by destruct b. Qed.

Lemma firstBitFrom_value dist i :
  i + blen dist = Z.of_nat HashSize ->
  firstBitFrom i dist = Z.of_nat HashSize * 8 - 1 - Z.log2 (be_value dist).
Proof.
  revert i. induction dist as [|b dist IH]; intros i Hi; cbn [firstBitFrom]; [done|].
  rewrite blen_cons in Hi. rewrite firstBit_log2, be_value_cons.
  pose proof (Zb_range b). pose proof (be_value_range dist). pose proof (blen_nonneg dist).
  destruct (Z.eqb_spec (Zb b) 0) as [->|]; [rewrite IH by lia; by rewrite Z.mul_0_l, Z.add_0_l|].
  assert (256 ^ blen dist = 2 ^ (8 * blen dist)) as E by (rewrite Z.pow_mul_r by lia; done).
  assert (Z.log2 (Zb b * 256 ^ blen dist + be_value dist) = Z.log2 (Zb b) + 8 * blen dist) as ->.
  { apply Z.log2_unique; [pose proof (Z.log2_nonneg (Zb b)); lia|].
    pose proof (Z.log2_spec (Zb b) ltac:(lia)) as [Hlo Hhi].
    pose proof (Z.log2_nonneg (Zb b)).
    replace (Z.succ (Z.log2 (Zb b) + 8 * blen dist))
      with (Z.succ (Z.log2 (Zb b)) + 8 * blen dist) by lia.
    rewrite !Z.pow_add_r, <- E by lia. rewrite E in *.
    assert (0 < 2 ^ (8 * blen dist)) by (apply Z.pow_pos_nonneg; lia). nia. }
  lia.
Qed.

Definition isId (id : bytes) : Prop := length id = HashSize.

Lemma bucketIndex_value rt id :
  isId (rt_selfID rt) -> isId id ->
  Z.of_nat (bucketIndex rt id) =
    Z.of_nat HashSize * 8 - 1 - Z.log2 (be_value (Distance (rt_selfID rt) id)) /\
  (bucketIndex rt id < HashSize * 8)%nat.
Proof.
  unfold isId. intros Hs Hi. unfold bucketIndex.
  assert (length (Distance (rt_selfID rt) id) = HashSize) as Hl by (rewrite length_Distance; congruence).
  rewrite firstBitFrom_value by (unfold blen; lia).
  pose proof (be_value_range (Distance (rt_selfID rt) id)) as Hr. unfold blen in Hr. rewrite Hl in Hr.
  set (v := be_value _) in *.
  assert (0 <= Z.log2 v < 384) as Hlog.
  { split; [apply Z.log2_nonneg|]. destruct (decide (v = 0)) as [->|]; [done|].
    apply Z.log2_lt_pow2; [lia|]. change (256 ^ Z.of_nat HashSize) with (2 ^ 384) in Hr. lia. }
  change (Z.of_nat HashSize * 8 - 1) with 383. change (HashSize * 8)%nat with 384%nat. lia.
Qed.

(** ** Endpoints *)

Definition endpoint (p : Peer) : option bytes * Z := (To4 (p_IP p), p_UDPPort p).

Lemma IPEqual_To4 ip x :
  To4 ip <> None -> To4 x <> None -> IPEqual ip x = bool_decide (To4 ip = To4 x).
Proof.
  unfold To4, IPEqual. intros Hi Hx.
  destruct (Nat.eqb_spec (length ip) 4) as [Ei|Ni], (Nat.eqb_spec (length x) 4) as [Ex|Nx];
    [|destruct (Nat.eqb_spec (length x) 16) as [Ex|]; [|done]
     |destruct (Nat.eqb_spec (length ip) 16) as [Ei|]; [|done]
     |destruct (Nat.eqb_spec (length ip) 16) as [Ei|]; [|done];
      destruct (Nat.eqb_spec (length x) 16) as [Ex|]; [|done]];
    rewrite Ei, Ex in *; cbn [Nat.eqb andb] in *.
  - apply bool_decide_ext. split; congruence.
  - case_bool_decide as Hp; [|done]. cbn. apply bool_decide_ext. split; congruence.
  - case_bool_decide as Hp; [|done]. cbn. apply bool_decide_ext. split; congruence.
  - case_bool_decide as Hp; [|done]. case_bool_decide as Hq; [|done]. apply bool_decide_ext. split.
    + congruence.
    + intros [=E]. rewrite <- (take_drop 12 ip), <- (take_drop 12 x). congruence.
Qed.

Lemma displaced_spec p e :
  To4 (p_IP p) <> None -> To4 (p_IP e) <> None ->
  displaced p e = false <-> (endpoint e = endpoint p -> p_ID e = p_ID p).
Proof.
  intros Hp He. unfold displaced, sameEndpoint, endpoint. rewrite IPEqual_To4 by done.
  rewrite andb_false_iff, negb_false_iff, andb_false_iff, !bool_decide_eq_false, bool_decide_eq_true.
  split.
  - intros [|[|]] [= E1 E2]; congruence.
  - intros Hx. destruct (decide (p_ID e = p_ID p)); [by left|]. right.
    destruct (decide (p_UDPPort e = p_UDPPort p)); [|by left]. right. intros E.
    destruct n. apply Hx. congruence.
Qed.

(** ** The invariant *)

Definition peerOk (rt : RoutingTable) (i : nat) (p : Peer) : Prop :=
  isId (p_ID p) /\ p_ID p <> rt_selfID rt /\ bucketIndex rt (p_ID p) = i /\
  To4 (p_IP p) <> None /\ 0 < p_UDPPort p <= 65535.
Definition bucketOk (rt : RoutingTable) (i : nat) (b : list Peer) : Prop :=
  (length b <= K)%nat /\ NoDup (map p_ID b) /\ Forall (peerOk rt i) b.
Definition tableOk (rt : RoutingTable) : Prop :=
  isId (rt_selfID rt) /\ length (rt_buckets rt) = (HashSize * 8)%nat /\
  (forall i b, rt_buckets rt !! i = Some b -> bucketOk rt i b) /\
  (forall p q, p ∈ concat (rt_buckets rt) -> q ∈ concat (rt_buckets rt) ->
     endpoint p = endpoint q -> p_ID p = p_ID q).

Lemma elem_of_concat {A} (x : A) ls : x ∈ concat ls <-> exists i l, ls !! i = Some l /\ x ∈ l.
Proof.
  induction ls as [|l ls IH]; cbn.
  - split; [by intros ?%elem_of_nil|intros (i & l & Hi & _); by rewrite lookup_nil in Hi].
  - rewrite elem_of_app, IH. split.
    + intros [Hx|(i & k & Hi & Hx)]; [by exists O, l | by exists (S i), k].
    + intros ([|i] & k & Hi & Hx); cbn in Hi; simplify_eq; [by left|right; eauto].
Qed.

Lemma NoDup_map_filter {A B} (f : A -> B) (P : A -> bool) l :
  NoDup (map f l) -> NoDup (map f (List.filter P l)).
Proof.
  induction l as [|x l IH]; cbn; [done|]. intros [Hx Hn]%NoDup_cons. case_match; [|auto].
  cbn. constructor; [|auto]. intros Hin. apply Hx. apply list_elem_of_In, in_map_iff in Hin as (y & <- & Hy).
  apply filter_In in Hy as [Hy _]. apply list_elem_of_In. by apply in_map.
Qed.
Lemma filter_length_le' {A} (P : A -> bool) l : (length (List.filter P l) <= length l)%nat.
Proof. induction l as [|x l IH]; cbn; [lia|]. case_match; cbn; lia. Qed.
Lemma elem_of_lfilter {A} (P : A -> bool) (x : A) l :
  x ∈ List.filter P l <-> x ∈ l /\ P x = true.
Proof. rewrite !list_elem_of_In. apply filter_In. Qed.

(** Operations look at the ID of the node only through the bucket numbers. *)
Lemma bucketOk_self rt rt' i b :
  rt_selfID rt' = rt_selfID rt -> bucketOk rt i b -> bucketOk rt' i b.
Proof. unfold bucketOk, peerOk, bucketIndex. by intros ->. Qed.

Lemma displace_ok rt p :
  tableOk rt -> To4 (p_IP p) <> None ->
  tableOk (displace rt p) /\
  forall e, e ∈ concat (rt_buckets (displace rt p)) -> endpoint e = endpoint p -> p_ID e = p_ID p.
Proof.
  intros (Hs & Hl & Hb & He) Hp. cbn.
  assert (forall e, e ∈ concat (map (List.filter (fun e => negb (displaced p e))) (rt_buckets rt)) ->
    e ∈ concat (rt_buckets rt) /\ displaced p e = false) as Hin.
  { intros e (i & l & Hi & Hx)%elem_of_concat. rewrite list_lookup_fmap in Hi.
    apply fmap_Some in Hi as (b & Hi & ->). apply elem_of_lfilter in Hx as [Hx Hd].
    apply negb_true_iff in Hd. split; [apply elem_of_concat; eauto | done]. }
  split; [split_and!|].
  - done.
  - cbn. by rewrite length_map.
  - cbn. intros i b Hi. rewrite list_lookup_fmap in Hi. apply fmap_Some in Hi as (b' & Hi & ->).
    apply (bucketOk_self rt); [done|]. destruct (Hb _ _ Hi) as (Hk & Hn & Ha).
    split_and!; [pose proof (filter_length_le' (fun e => negb (displaced p e)) b'); lia
      |by apply NoDup_map_filter|].
    rewrite Forall_forall in *. intros e [Hx _]%elem_of_lfilter. auto.
  - cbn. intros a b [Ha _]%Hin [Hb' _]%Hin. by apply He.
  - intros e [Hx Hd]%Hin. apply displaced_spec; [done| |done].
    apply elem_of_concat in Hx as (i & l & Hi & Hx). destruct (Hb _ _ Hi) as (_ & _ & Ha).
    rewrite Forall_forall in Ha. by apply Ha in Hx as (_ & _ & _ & ? & _).
Qed.

Lemma elem_of_insert_bucket (bs : list (list Peer)) idx b x :
  x ∈ concat (<[idx := b]> bs) -> x ∈ concat bs \/ x ∈ b.
Proof.
  intros (i & l & Hi & Hx)%elem_of_concat.
  apply list_lookup_insert_Some in Hi as [(-> & -> & _)|[_ Hi]]; [by right|].
  left. apply elem_of_concat. eauto.
Qed.

(** Replacing a bucket by peers of the table, and at most one new contact that
    nobody else shares an endpoint with. *)
Lemma setBucket_ok rt idx b failures (new : option Peer) :
  tableOk rt -> bucketOk rt idx b ->
  (forall p, p ∈ b -> p ∈ concat (rt_buckets rt) \/ new = Some p) ->
  (forall n q, new = Some n -> q ∈ concat (rt_buckets rt) -> endpoint q = endpoint n -> p_ID q = p_ID n) ->
  tableOk (setBucket rt idx b failures).
Proof.
  intros (Hs & Hl & Hb & He) Hnb Hin Hnew. unfold setBucket. split_and!; cbn; [done| | |].
  - by rewrite length_insert.
  - intros i b' Hi. apply list_lookup_insert_Some in Hi as [(-> & -> & _)|[_ Hi]];
      apply (bucketOk_self rt); auto.
  - intros p q Hp Hq Hpq.
    assert (p ∈ concat (rt_buckets rt) \/ new = Some p) as [Hp'|Hp'].
    { apply elem_of_insert_bucket in Hp as [|]; [by left|auto]. }
    all: assert (q ∈ concat (rt_buckets rt) \/ new = Some q) as [Hq'|Hq'] by
      (apply elem_of_insert_bucket in Hq as [|]; [by left|auto]).
    + auto.
    + by apply (Hnew q p).
    + symmetry. by apply (Hnew p q).
    + congruence.
Qed.

Lemma takePeer_Some id peers p rest :
  takePeer id peers = Some (p, rest) -> p_ID p = id /\ peers ≡ₚ p :: rest.
Proof.
  revert rest. induction peers as [|q peers IH]; intros rest H; cbn in H; [done|].
  case_decide; [by simplify_eq|]. destruct (takePeer id peers) as [[p' rest']|]; [|done].
  simplify_eq. destruct (IH _ eq_refl) as [? Hp]. split; [done|]. rewrite Hp. constructor.
Qed.
Lemma takePeer_None id peers : takePeer id peers = None -> id ∉ map p_ID peers.
Proof.
  induction peers as [|q peers IH]; cbn; [by intros _ ?%elem_of_nil|].
  case_decide; [done|]. destruct (takePeer id peers) as [[]|]; [done|]. intros _.
  apply not_elem_of_cons. split; [congruence|auto].
Qed.

Lemma getBucket_ok rt idx :
  tableOk rt -> bucketOk rt idx (getBucket rt idx) /\
  forall p, p ∈ getBucket rt idx -> p ∈ concat (rt_buckets rt).
Proof.
  intros (_ & _ & Hb & _). unfold getBucket. destruct (rt_buckets rt !! idx) as [b|] eqn:E; cbn.
  - split; [auto|]. intros p Hp. apply elem_of_concat. eauto.
  - split; [|by intros ? ?%elem_of_nil]. split_and!; [cbn; lia|constructor|constructor].
Qed.

Lemma bucketOk_perm rt i b b' : b ≡ₚ b' -> bucketOk rt i b -> bucketOk rt i b'.
Proof.
  intros Hp (Hk & Hn & Ha). split_and!.
  - by rewrite <- Hp.
  - by rewrite <- Hp.
  - by rewrite <- Hp.
Qed.

Lemma rejectedPeer_false rt p :
  rejectedPeer rt p = false ->
  p_ID p <> rt_selfID rt /\ To4 (p_IP p) <> None /\ 0 < p_UDPPort p <= 65535.
Proof. unfold rejectedPeer. intros H. bool_props. split_and!; try done; lia. Qed.

Lemma AddPeer_ok now rt p : tableOk rt -> isId (p_ID p) -> tableOk (AddPeer now rt p).1.
Proof.
  intros Hok Hid. unfold AddPeer. destruct (rejectedPeer rt p) eqn:Hr; [done|].
  apply rejectedPeer_false in Hr as (Hself & Hip & Hport).
  destruct (displace_ok rt p Hok Hip) as [Hd Hu].
  set (rt' := displace rt p) in *. set (idx := bucketIndex rt' (p_ID p)).
  destruct (getBucket_ok rt' idx Hd) as [Hb Hin].
  destruct (takePeer (p_ID p) (getBucket rt' idx)) as [[existing rest]|] eqn:Et.
  - apply takePeer_Some in Et as [He Hp]. cbn.
    apply (bucketOk_perm _ _ _ _ Hp) in Hb. destruct Hb as (Hk & Hn & Ha).
    set (updated := MkPeer _ _ _ _ _).
    apply (setBucket_ok rt' _ _ _ (Some updated)); [done| | |].
    + apply (bucketOk_perm _ _ (updated :: rest)); [by rewrite Permutation_app_comm|].
      split_and!; [cbn in *; lia|exact Hn|]. inversion Ha as [|? ? Hpe Hrest]; subst.
      constructor; [|done]. unfold peerOk in *; cbn. destruct Hpe as (? & ? & ? & _). done.
    + intros q [Hq|Hq%list_elem_of_singleton]%elem_of_app; [left; apply Hin|by right; subst].
      rewrite Hp. by right.
    + intros n q [= <-] Hq. cbn. rewrite He. by apply Hu.
  - pose proof (takePeer_None _ _ Et) as Hnew.
    destruct (Nat.ltb_spec (length (getBucket rt' idx)) K); [|done]. cbn.
    set (added := MkPeer _ _ _ _ _).
    apply (setBucket_ok rt' _ _ _ (Some added)); [done| | |].
    + destruct Hb as (Hk & Hn & Ha).
      apply (bucketOk_perm _ _ (added :: getBucket rt' idx)); [by rewrite Permutation_app_comm|].
      split_and!; [cbn; lia|by constructor|]. constructor; [|done]. done.
    + intros q [Hq|Hq%list_elem_of_singleton]%elem_of_app; [left; by apply Hin|by right; subst].
    + intros n q [= <-] Hq. by apply Hu.
Qed.

Lemma failures_ok rt failures :
  tableOk rt -> tableOk (MkTable (rt_selfID rt) (rt_buckets rt) failures).
Proof.
  intros (Hs & Hl & Hb & He). by split_and!.
Qed.

Lemma RemovePeer_ok rt id : tableOk rt -> tableOk (RemovePeer rt id).1.
Proof.
  intros Hok. unfold RemovePeer. destruct (getBucket_ok rt (bucketIndex rt id) Hok) as [Hb Hin].
  destruct (takePeer id _) as [[q rest]|] eqn:E; cbn; [|by apply failures_ok].
  apply takePeer_Some in E as [_ Hp]. apply (setBucket_ok rt _ _ _ None); [done| | |done].
  - apply (bucketOk_perm _ _ _ _ Hp) in Hb. destruct Hb as (Hk & Hn & Ha).
    cbn in *. apply NoDup_cons in Hn as [_ ?]. inversion Ha; subst. split_and!; [lia|done|done].
  - intros p Hq. left. apply Hin. rewrite Hp. by right.
Qed.

Lemma MarkFailure_ok rt id : tableOk rt -> tableOk (MarkFailure rt id).1.
Proof.
  intros Hok. unfold MarkFailure. case_match; [by apply failures_ok | by apply RemovePeer_ok].
Qed.

Lemma NewRoutingTable_ok selfID : isId selfID -> tableOk (NewRoutingTable selfID).
Proof.
  intros Hs. unfold NewRoutingTable. split_and!; cbn [rt_selfID rt_buckets]; [done| | |].
  - by rewrite repeat_length.
  - intros i b Hi. apply list_elem_of_lookup_2 in Hi.
    apply list_elem_of_In, repeat_spec in Hi as ->.
    split_and!; [cbn; lia|constructor|constructor].
  - intros p q Hp. apply elem_of_concat in Hp as (i & l & Hi & Hp).
    apply list_elem_of_lookup_2, list_elem_of_In, repeat_spec in Hi as ->.
    by apply elem_of_nil in Hp.
Qed.

(** The tables a node can hold: any sequence of operations from the empty one. *)
Inductive tableStep : RoutingTable -> RoutingTable -> Prop :=
| step_add now rt p : isId (p_ID p) -> tableStep rt (AddPeer now rt p).1
| step_remove rt id : tableStep rt (RemovePeer rt id).1
| step_failure rt id : tableStep rt (MarkFailure rt id).1.
Definition reachableTable (selfID : bytes) (rt : RoutingTable) : Prop :=
  rtc tableStep (NewRoutingTable selfID) rt.

Lemma reachable_ok selfID rt : isId selfID -> reachableTable selfID rt -> tableOk rt.
Proof.
  intros Hs Hr. assert (tableOk (NewRoutingTable selfID)) as H0 by by apply NewRoutingTable_ok.
  unfold reachableTable in Hr. induction Hr as [|rt1 rt2 rt3 Hstep Hrest IH]; [done|].
  apply IH. destruct Hstep; [by apply AddPeer_ok|by apply RemovePeer_ok|by apply MarkFailure_ok].
Qed.

(** ** What the operations do *)

Lemma setBucket_bucket rt idx b failures :
  length (rt_buckets rt) = (HashSize * 8)%nat -> (idx < HashSize * 8)%nat ->
  getBucket (setBucket rt idx b failures) idx = b.
Proof.
  intros Hl Hi. unfold getBucket, setBucket. cbn. rewrite list_lookup_insert_eq by lia. done.
Qed.

(** A peer that is added is the most recent of its bucket; one that is not was
    invalid, or its bucket is full of other nodes. *)
Lemma AddPeer_spec now rt p rt' added :
  tableOk rt -> isId (p_ID p) -> AddPeer now rt p = (rt', added) ->
  let idx := bucketIndex rt (p_ID p) in
  if added then
    exists q older, getBucket rt' idx = older ++ [q] /\
      p_ID q = p_ID p /\ p_IP q = p_IP p /\ p_UDPPort q = p_UDPPort p /\ p_LastSeen q = now /\
      (0 < p_TCPPort p -> p_TCPPort q = p_TCPPort p) /\
      rt_failures rt' !! p_ID p = None
  else rejectedPeer rt p = true /\ rt' = rt \/
       length (getBucket rt' idx) = K /\ p_ID p ∉ map p_ID (getBucket rt' idx).
Proof.
  intros Hok Hid. unfold AddPeer. destruct (rejectedPeer rt p) eqn:Hr; [intros [= <- <-]; by left|].
  apply rejectedPeer_false in Hr as (Hself & Hip & Hport).
  destruct (displace_ok rt p Hok Hip) as [Hd Hu]. change (bucketIndex rt) with (bucketIndex (displace rt p)).
  set (rt1 := displace rt p) in *. cbv zeta. set (idx := bucketIndex rt1 (p_ID p)).
  assert (idx < HashSize * 8)%nat as Hidx by (apply bucketIndex_value; [apply Hd|done]).
  pose proof (proj1 (proj2 Hd)) as Hlen.
  destruct (takePeer (p_ID p) (getBucket rt1 idx)) as [[existing rest]|] eqn:Et.
  - apply takePeer_Some in Et as [He _]. intros [= <- <-]. eexists _, rest.
    split; [by apply setBucket_bucket|]. cbn. split_and!; try done.
    + intros Ht. destruct (Z.ltb_spec 0 (p_TCPPort p)); [done|lia].
    + apply lookup_delete_eq.
  - pose proof (takePeer_None _ _ Et) as Hnew.
    destruct (getBucket_ok rt1 idx Hd) as [(Hk & _) _].
    destruct (Nat.ltb_spec (length (getBucket rt1 idx)) K) as [Hlt|Hge]; intros [= <- <-].
    + eexists _, _. split; [by apply setBucket_bucket|]. cbn. split_and!; try done.
      apply lookup_delete_eq.
    + right. split; [lia|done].
Qed.

Lemma RemovePeer_gone rt id :
  tableOk rt -> isId id ->
  (forall p, p ∈ concat (rt_buckets (RemovePeer rt id).1) -> p_ID p <> id) /\
  rt_failures (RemovePeer rt id).1 !! id = None.
Proof.
  intros Hok Hid. destruct (RemovePeer_ok rt id Hok) as (_ & _ & Hb' & _).
  assert (bucketIndex rt id < HashSize * 8)%nat as Hidx by (apply bucketIndex_value; [apply Hok|done]).
  pose proof (proj1 (proj2 Hok)) as Hlen.
  assert (id ∉ map p_ID (getBucket (RemovePeer rt id).1 (bucketIndex rt id))) as Hgone.
  { unfold RemovePeer. destruct (takePeer id _) as [[q rest]|] eqn:E.
    - cbn [fst]. rewrite setBucket_bucket by done. apply takePeer_Some in E as [<- Hp].
      destruct (getBucket_ok rt (bucketIndex rt (p_ID q)) Hok) as [(_ & Hn & _) _].
      rewrite Hp in Hn. by apply NoDup_cons in Hn as [? _].
    - by apply takePeer_None in E. }
  split.
  - intros p Hp Heq. apply elem_of_concat in Hp as (i & l & Hi & Hp).
    destruct (Hb' _ _ Hi) as (_ & _ & Ha). rewrite Forall_forall in Ha.
    destruct (Ha _ Hp) as (_ & _ & Hix & _).
    assert (i = bucketIndex rt id) as ->.
    { rewrite <- Hix, Heq. unfold bucketIndex, RemovePeer. by repeat case_match. }
    apply Hgone. unfold getBucket. rewrite Hi. cbn. rewrite <- Heq.
    apply list_elem_of_In, in_map, list_elem_of_In, Hp.
  - unfold RemovePeer. repeat case_match; cbn; apply lookup_delete_eq.
Qed.

(** A contact is dropped by its second failure without a success in between. *)
Lemma MarkFailure_twice rt id :
  tableOk rt -> isId id -> rt_failures rt !! id = None ->
  rt_buckets (MarkFailure rt id).1 = rt_buckets rt /\
  let rt2 := (MarkFailure (MarkFailure rt id).1 id).1 in
  (forall p, p ∈ concat (rt_buckets rt2) -> p_ID p <> id) /\ rt_failures rt2 !! id = None.
Proof.
  intros Hok Hid Hf.
  assert (MarkFailure rt id =
    (MkTable (rt_selfID rt) (rt_buckets rt) (<[id := 1]> (rt_failures rt)), false)) as E1
    by (unfold MarkFailure; by rewrite Hf).
  rewrite E1. cbn [fst]. split; [done|]. cbv zeta.
  unfold MarkFailure. cbn [rt_failures]. rewrite lookup_insert_eq.
  apply RemovePeer_gone; [by apply failures_ok|done].
Qed.

(** ** Closest peers *)

Definition distanceValue (key : bytes) (p : Peer) : Z := be_value (Distance key (p_ID p)).

Lemma closer_value key p q :
  isId key -> isId (p_ID p) -> isId (p_ID q) ->
  closer key p q <-> distanceValue key p <= distanceValue key q.
Proof.
  unfold isId. intros Hk Hp Hq. unfold closer, distanceValue.
  rewrite DistanceLess_value by (rewrite !length_Distance; congruence).
  rewrite Is_true_true, negb_true_iff, Z.ltb_ge. done.
Qed.

Lemma be_value_inj a b : length a = length b -> be_value a = be_value b -> a = b.
Proof. intros Hl E. rewrite <- (be_bytes_value a), <- (be_bytes_value b). congruence. Qed.
Lemma distanceValue_inj key p q :
  isId key -> isId (p_ID p) -> isId (p_ID q) ->
  distanceValue key p = distanceValue key q -> p_ID p = p_ID q.
Proof.
  unfold isId. intros Hk Hp Hq E. apply (Distance_inj key); [congruence|congruence|].
  apply be_value_inj; [|done]. rewrite !length_Distance; congruence.
Qed.

Lemma table_ids rt p : tableOk rt -> p ∈ concat (rt_buckets rt) -> isId (p_ID p).
Proof.
  intros (_ & _ & Hb & _) (i & l & Hi & Hp)%elem_of_concat. destruct (Hb _ _ Hi) as (_ & _ & Ha).
  rewrite Forall_forall in Ha. by apply Ha in Hp as (? & _).
Qed.

Lemma NoDup_concat {A B} (f : A -> B) (g : B -> nat) ls off :
  (forall i l, ls !! i = Some l -> NoDup (map f l) /\ forall x, x ∈ l -> g (f x) = (off + i)%nat) ->
  NoDup (map f (concat ls)).
Proof.
  revert off. induction ls as [|l ls IH]; intros off Hls; cbn; [constructor|].
  rewrite map_app. apply NoDup_app. split_and!.
  - by apply (Hls 0%nat).
  - intros b Hb Hb'. apply list_elem_of_In, in_map_iff in Hb as (x & <- & Hx%list_elem_of_In).
    apply list_elem_of_In, in_map_iff in Hb' as (y & Hxy & Hy%list_elem_of_In).
    apply elem_of_concat in Hy as (i & k & Hi & Hy).
    destruct (Hls 0%nat l eq_refl) as [_ H0]. destruct (Hls (S i) k Hi) as [_ H1].
    apply H0 in Hx. apply H1 in Hy. rewrite Hxy in Hy. lia.
  - apply (IH (S off)). intros i k Hi. destruct (Hls (S i) k Hi) as [? Hx]. split; [done|].
    intros x Hin. apply Hx in Hin. lia.
Qed.
Lemma table_NoDup rt : tableOk rt -> NoDup (map p_ID (concat (rt_buckets rt))).
Proof.
  intros (_ & _ & Hb & _). apply (NoDup_concat _ (bucketIndex rt) _ 0). intros i l Hi.
  destruct (Hb _ _ Hi) as (_ & Hn & Ha). split; [done|]. intros x Hx. rewrite Forall_forall in Ha.
  by apply Ha in Hx as (_ & _ & ? & _).
Qed.

Lemma PeerCount_length rt : PeerCount rt = length (concat (rt_buckets rt)).
Proof.
  unfold PeerCount. assert (forall bs n,
    fold_left (fun count (b : list Peer) => (count + length b)%nat) bs n = (n + length (concat bs))%nat)
    as H by (induction bs as [|b bs IH]; intros n; cbn; [lia|]; rewrite IH, length_app; lia).
  by rewrite H.
Qed.

Definition strictlyCloser (key : bytes) (p q : Peer) : Prop :=
  distanceValue key p < distanceValue key q.

Lemma sorted_strict key l :
  isId key -> Forall (fun p => isId (p_ID p)) l -> NoDup (map p_ID l) ->
  StronglySorted (closer key) l -> StronglySorted (strictlyCloser key) l.
Proof.
  intros Hk Hi Hn Hs. induction Hs as [|p l Hs IH Hp]; [constructor|].
  inversion Hi; subst. apply NoDup_cons in Hn as [Hn Hn']. constructor; [auto|].
  rewrite Forall_forall in *. intros q Hq. assert (isId (p_ID q)) by auto.
  pose proof (proj1 (closer_value key p q Hk ltac:(done) ltac:(done)) (Hp q Hq)).
  unfold strictlyCloser. destruct (Z.eq_dec (distanceValue key p) (distanceValue key q)) as [E|]; [|lia].
  apply distanceValue_inj in E; [|done..]. destruct Hn. rewrite E.
  apply list_elem_of_In, in_map, list_elem_of_In, Hq.
Qed.

Lemma closer_total key : Total (closer key).
Proof.
  intros p q. unfold closer. destruct (DistanceLess (Distance key (p_ID q)) (Distance key (p_ID p))) eqn:E;
    [right|by left].
  destruct (DistanceLess (Distance key (p_ID p)) (Distance key (p_ID q))) eqn:E'; [|done]. exfalso.
  revert E E'. generalize (Distance key (p_ID p)) (Distance key (p_ID q)). clear.
  induction l as [|x a IH]; intros [|y b]; cbn; try done.
  destruct (Z.ltb_spec (Zb x) (Zb y)), (Z.ltb_spec (Zb y) (Zb x)); try done; try lia. apply IH.
Qed.

Lemma Sorted_on_values key l :
  isId key -> Forall (fun p => isId (p_ID p)) l -> Sorted (closer key) l -> StronglySorted (closer key) l.
Proof.
  intros Hk Hi Hs. induction Hs as [|p l Hs IH Hhd]; [constructor|]. inversion Hi; subst.
  constructor; [auto|]. specialize (IH ltac:(done)).
  destruct l as [|q l]; [constructor|]. inversion Hhd; subst. constructor; [done|].
  inversion IH as [|? ? Hs' Hq]; subst. rewrite Forall_forall in *. intros r Hr.
  pose proof (Hq r Hr) as Hqr.
  assert (isId (p_ID q) /\ isId (p_ID r)) as [? ?] by (split; [apply H2; by left|apply H2; by right]).
  rewrite closer_value in * by done. lia.
Qed.

Lemma ClosestPeers_closest rt key n :
  tableOk rt -> isId key ->
  let result := ClosestPeers rt key n in
  let all := concat (rt_buckets rt) in
  length result = (n `min` PeerCount rt)%nat /\
  StronglySorted (strictlyCloser key) result /\
  (forall p, p ∈ result -> p ∈ all) /\
  (forall p q, p ∈ all -> p ∉ result -> q ∈ result -> strictlyCloser key q p).
Proof.
  intros Hok Hk. cbv zeta. unfold ClosestPeers. rewrite PeerCount_length.
  set (all := concat (rt_buckets rt)).
  pose proof (merge_sort_Permutation (closer key) all) as Hp.
  assert (StronglySorted (strictlyCloser key) (merge_sort (closer key) all)) as Hs.
  { assert (Forall (fun p => isId (p_ID p)) (merge_sort (closer key) all)) as Hids.
    { rewrite Hp. apply Forall_forall. intros p. by apply table_ids. }
    apply sorted_strict; [done|done|rewrite Hp; by apply table_NoDup|].
    apply Sorted_on_values; [done|done|]. apply Sorted_merge_sort, closer_total. }
  set (l := merge_sort (closer key) all) in *. split_and!.
  - rewrite length_take. by rewrite Hp.
  - rewrite <- (take_drop n l) in Hs. by eapply StronglySorted_app_1_l in Hs.
  - intros p Hin. rewrite <- Hp. eapply elem_of_take in Hin as (i & Hi & _). by eapply list_elem_of_lookup_2.
  - intros p q Hin Hnot Hq. rewrite <- Hp, <- (take_drop n l) in Hin.
    apply elem_of_app in Hin as [|Hin]; [done|]. rewrite <- (take_drop n l) in Hs.
    eapply StronglySorted_app_1_elem_of in Hs; eauto.
Qed.

(** ** What the table promises *)

(** C36: the routing invariant.  In every table a node can reach, each of the 384
    buckets holds at most [K] peers, with distinct IDs that belong there, never the
    node's own, each with an IPv4 address and a port; and no two IDs share an
    endpoint. *)
Theorem routing_invariant selfID rt :
  isId selfID -> reachableTable selfID rt -> tableOk rt.
Proof. apply reachable_ok. Qed.

(** [AddPeer] refreshes or admits a valid peer at the tail of its bucket with
    its failures forgotten, keeping a known TCP port when none is given; it
    changes nothing for a peer it rejects, and otherwise leaves a full bucket
    that does not hold the peer. *)
Theorem add_peer now rt p rt' added :
  tableOk rt -> isId (p_ID p) -> AddPeer now rt p = (rt', added) ->
  let idx := bucketIndex rt (p_ID p) in
  if added then
    exists q older, getBucket rt' idx = older ++ [q] /\
      p_ID q = p_ID p /\ p_IP q = p_IP p /\ p_UDPPort q = p_UDPPort p /\ p_LastSeen q = now /\
      (0 < p_TCPPort p -> p_TCPPort q = p_TCPPort p) /\
      rt_failures rt' !! p_ID p = None
  else rejectedPeer rt p = true /\ rt' = rt \/
       length (getBucket rt' idx) = K /\ p_ID p ∉ map p_ID (getBucket rt' idx).
Proof. apply AddPeer_spec. Qed.

(** One failure keeps a peer and a second one in a row removes it: after it no
    bucket holds the ID and nothing is counted against it. *)
Theorem second_failure_removes rt id :
  tableOk rt -> isId id -> rt_failures rt !! id = None ->
  rt_buckets (MarkFailure rt id).1 = rt_buckets rt /\
  let rt2 := (MarkFailure (MarkFailure rt id).1 id).1 in
  (forall p, p ∈ concat (rt_buckets rt2) -> p_ID p <> id) /\ rt_failures rt2 !! id = None.
Proof. apply MarkFailure_twice. Qed.

(** [ClosestPeers] returns the [n] known peers nearest to the key by XOR
    distance, nearest first, and every peer it leaves out is farther than each
    it returns. *)
Theorem closest_peers rt key n :
  tableOk rt -> isId key ->
  let result := ClosestPeers rt key n in
  let all := concat (rt_buckets rt) in
  length result = (n `min` PeerCount rt)%nat /\
  StronglySorted (strictlyCloser key) result /\
  (forall p, p ∈ result -> p ∈ all) /\
  (forall p q, p ∈ all -> p ∉ result -> q ∈ result -> strictlyCloser key q p).
Proof. apply ClosestPeers_closest. Qed.

(** ** Witnesses *)

Definition exampleID (b : byte) : bytes := b :: repeat x00 47.
Definition examplePeer (b : byte) : Peer := MkPeer (exampleID b) [x0a; x00; x00; b] 4444 3333 0.
Definition exampleTable : RoutingTable :=
  (AddPeer 1 (AddPeer 1 (NewRoutingTable (exampleID x00)) (examplePeer x05)).1 (examplePeer x90)).1.
Lemma exampleTable_reachable : reachableTable (exampleID x00) exampleTable.
Proof.
  apply (rtc_l _ _ (AddPeer 1 (NewRoutingTable (exampleID x00)) (examplePeer x05)).1); [by constructor|].
  apply (rtc_l _ _ exampleTable); [by constructor|]. apply rtc_refl.
Qed.
Lemma exampleTable_ok : tableOk exampleTable.
Proof. by apply (reachable_ok (exampleID x00)), exampleTable_reachable. Qed.

Lemma routing_invariant_witness : tableOk exampleTable /\ PeerCount exampleTable = 2%nat.
Proof.
  split; [|vm_compute; reflexivity].
  apply (routing_invariant (exampleID x00)); [reflexivity|exact exampleTable_reachable].
Defined.
Lemma add_peer_witness :
  exists q older, getBucket (AddPeer 7 exampleTable (examplePeer x06)).1 5 = older ++ [q] /\ p_LastSeen q = 7.
Proof.
  destruct (AddPeer 7 exampleTable (examplePeer x06)) as [rt' added] eqn:E.
  pose proof (add_peer 7 exampleTable (examplePeer x06) rt' added exampleTable_ok eq_refl E) as H.
  assert (added = true /\ bucketIndex exampleTable (p_ID (examplePeer x06)) = 5%nat) as [-> Hi].
  { apply (f_equal snd) in E. vm_compute in E. subst added. vm_compute. split; reflexivity. }
  rewrite Hi in H. destruct H as (q & older & Hb & _ & _ & _ & Hl & _). exists q, older. split; [exact Hb|exact Hl].
Defined.
Lemma second_failure_removes_witness :
  rt_failures (MarkFailure (MarkFailure exampleTable (exampleID x05)).1 (exampleID x05)).1 !! exampleID x05 = None.
Proof.
  apply (second_failure_removes exampleTable (exampleID x05) exampleTable_ok); vm_compute; reflexivity.
Defined.
Lemma closest_peers_witness :
  length (ClosestPeers exampleTable (exampleID x04) 1) = 1%nat /\
  forall p q, p ∈ concat (rt_buckets exampleTable) -> p ∉ ClosestPeers exampleTable (exampleID x04) 1 ->
    q ∈ ClosestPeers exampleTable (exampleID x04) 1 -> strictlyCloser (exampleID x04) q p.
Proof.
  destruct (closest_peers exampleTable (exampleID x04) 1 exampleTable_ok eq_refl) as (Hl & _ & _ & H).
  split; [rewrite Hl; vm_compute; reflexivity|exact H].
Defined.
