(* ===== verification/DhtNode.v ===== *)
(** * The DHT node: datagrams, tokens, announcements

    Model of the request side of [Node] in [dht/node.go].  [handleMessage] is
    one step of the read loop: from the node, the time [n.now()] gives, the
    datagram and its sender, to the node afterwards and the datagram it sends
    back, if any.  The code reads and writes one key of its maps at a time under
    its mutex, so a datagram is one step.  A channel with room for one response
    is an option.  Times are nanoseconds. *)

From S2P Require Import Prelude Digest Hex Decimal Bencode Routing.

Definition RPCIDSize : Z := 20.
Definition MsgSizeLimit : Z := 1400.
Definition TokenSize : Z := 48.
Definition ProtocolVersion : Z := 1.
Definition CompactAddrSize : Z := 4 + 2 + 48.
Definition AnnouncementExpiration : Z := 24 * 3600 * 10 ^ 9.

Definition TYPE_REQUEST : Z := 0.
Definition TYPE_RESPONSE : Z := 1.
Definition TYPE_ERROR : Z := 2.

(** [time.Time{}], the value of an absent map entry. *)
Definition zeroTime : Z := -62135596800 * 10 ^ 9.

Record UDPAddr := MkAddr { a_IP : bytes; a_Port : Z; a_Zone : bytes }.

Record pendingRPC := MkPending { pr_address : UDPAddr; pr_response : option value }.

Record Node := MkNode {
  n_ID : bytes;
  n_routing : RoutingTable;
  n_pending : gmap bytes pendingRPC;
  n_announcements : gmap bytes (gmap bytes Peer);
  n_announcementTimes : gmap bytes (gmap bytes Z);
  n_announcementOrder : list bytes;
  n_running : bool;
  n_tokenSecret : bytes
}.

(** [NewNodeWithID] with the random secret it draws; [running] from [Start] to [Stop]. *)
Definition NewNodeWithID (id secret : bytes) : Node :=
  MkNode id (NewRoutingTable id) ∅ ∅ ∅ [] false secret.
Definition setRunning (n : Node) (running : bool) : Node :=
  MkNode (n_ID n) (n_routing n) (n_pending n) (n_announcements n) (n_announcementTimes n)
    (n_announcementOrder n) running (n_tokenSecret n).
Definition setRouting (n : Node) (rt : RoutingTable) : Node :=
  MkNode (n_ID n) rt (n_pending n) (n_announcements n) (n_announcementTimes n)
    (n_announcementOrder n) (n_running n) (n_tokenSecret n).
Definition setPending (n : Node) (pending : gmap bytes pendingRPC) : Node :=
  MkNode (n_ID n) (n_routing n) pending (n_announcements n) (n_announcementTimes n)
    (n_announcementOrder n) (n_running n) (n_tokenSecret n).
Definition setAnnouncements (n : Node) (a : gmap bytes (gmap bytes Peer))
    (t : gmap bytes (gmap bytes Z)) (order : list bytes) : Node :=
  MkNode (n_ID n) (n_routing n) (n_pending n) a t order (n_running n) (n_tokenSecret n).

(** ** Helpers on decoded values *)

Definition toBencInt (v : option value) : Z :=
  match v with Some (VInt64 n) => n | Some (VInt n) => n | _ => 0 end.
Definition toBytes (v : option value) : bytes :=
  match v with Some (VBytes b) => b | Some (VString s) => s | _ => [] end.
Definition getBencList (m : list (bytes * value)) (key : bytes) : list value :=
  match mapLookup key m with Some (VList l) => l | _ => [] end.
Definition getBencInt (m : list (bytes * value)) (key : bytes) : Z := toBencInt (mapLookup key m).
Definition getBencBytes (m : list (bytes * value)) (key : bytes) : bytes := toBytes (mapLookup key m).
Definition getKeywordArguments (args : list value) : option (list (bytes * value)) :=
  match last args with Some (VMap m) => Some m | _ => None end.

Definition sameUDPAddress (expected actual : UDPAddr) : bool :=
  bool_decide (a_Port expected = a_Port actual) && bool_decide (a_Zone expected = a_Zone actual) &&
  IPEqual (a_IP expected) (a_IP actual).

Definition peersToContactList (peers : list Peer) : list value :=
  omap (fun p => match To4 (p_IP p) with
                 | Some ip4 => Some (VList [VBytes (p_ID p); VBytes ip4; VInt (p_UDPPort p)])
                 | None => None
                 end) peers.

(** [copy] into a zeroed array of [n] bytes. *)
Definition padded (n : nat) (b : bytes) : bytes := take n b ++ repeat x00 (n - length b).
Definition CompactAddr (p : Peer) : bytes :=
  padded 4 (default [] (To4 (p_IP p))) ++ be_bytes 2 (p_TCPPort p) ++ padded 48 (p_ID p).
(** The parts of a compact address; indexing past its end panics. *)
Definition ParseCompactAddr (b : bytes) : res (bytes * Z * bytes) :=
  if (length b <? 54)%nat then Panic
  else Ok (IPv4 (take 4 b), be_value (take 2 (drop 4 b)), take 48 (drop 6 b)).

Definition extractBlobPeers (response : list (bytes * value)) (key : bytes) : res (list Peer) :=
  match mapLookup (lit "3") response with
  | Some (VMap payload) =>
      match mapLookup key payload with
      | Some (VList encoded) =>
          foldr (fun item rest =>
            rest ← rest;
            let compact := toBytes (Some item) in
            if negb (blen compact =? CompactAddrSize) then Ok rest
            else
              '(ip, port, nodeID) ← ParseCompactAddr compact;
              if bool_decide (To4 ip = None) || (port <=? 0) || (65535 <? port) then Ok rest
              else Ok (MkPeer nodeID ip 0 port zeroTime :: rest)) (Ok []) encoded
      | _ => Ok []
      end
  | _ => Ok []
  end.

Record DHTMessage := MkMessage {
  m_Type : Z;
  m_RPCID : bytes;
  m_NodeID : bytes;
  m_Payload : bytes;
  m_Arguments : list value
}.

Definition authenticatedRequestArguments (message : DHTMessage) : list value :=
  if negb (bool_decide (m_Payload message = lit "store")) ||
     negb (length (m_NodeID message) =? HashSize)%nat ||
     (length (m_Arguments message) <? 4)%nat
  then m_Arguments message
  else <[3%nat := VBytes (m_NodeID message)]> (m_Arguments message).

(** [sendMessage]: the datagram, when the node runs and it fits. *)
Definition encodeMessage (n : Node) (type : Z) (rpcID : bytes) (payload : value) : res bytes :=
  BencodeEncode (VIntMap [(0, VInt64 type); (1, VBytes rpcID); (2, VBytes (n_ID n)); (3, payload)]).
Definition sendMessage (n : Node) (type : Z) (rpcID : bytes) (payload : value) : res bytes :=
  data ← encodeMessage n type rpcID payload;
  if MsgSizeLimit <? blen data then Err "dht: datagram exceeds 1400 bytes"
  else if n_running n then Ok data else Err "dht: node stopped".

Section node.
Context `{Digests}.

Definition makeToken (n : Node) (ip : bytes) : bytes :=
  sha384 (n_tokenSecret n ++ default [] (To4 ip)).

(** [mismatch |= token[i] ^ expected[i]] *)
Fixpoint mismatch (acc : Z) (token expected : bytes) : Z :=
  match token, expected with
  | x :: token, y :: expected => mismatch (Z.lor acc (Z.lxor (Zb x) (Zb y))) token expected
  | _, _ => acc
  end.
Definition verifyToken (n : Node) (token ip : bytes) : bool :=
  let expected := makeToken n ip in
  if negb (length token =? length expected)%nat then false
  else mismatch 0 token expected =? 0.

(** ** Request handlers *)

Definition handlePing : res value := Ok (VString (lit "pong")).

(** [args[0]] as a key. *)
Definition keyArgument (args : list value) : res bytes :=
  match args with
  | [] => Err "Needs arguments"
  | v :: _ =>
      let key := toBytes (Some v) in
      if negb (length key =? HashSize)%nat then Err "Key fails length" else Ok key
  end.

Definition handleFindNode (n : Node) (args : list value) : res value :=
  key ← keyArgument args;
  Ok (VList (peersToContactList (ClosestPeers (n_routing n) key K))).

Definition getAnnouncements (n : Node) (key : bytes) : gmap bytes Peer :=
  default ∅ (n_announcements n !! key).
Definition getTimes (n : Node) (key : bytes) : gmap bytes Z :=
  default ∅ (n_announcementTimes n !! key).

(** The compact addresses of the live providers of a blob, sorted. *)
Definition announced (now : Z) (n : Node) (key : bytes) : list bytes :=
  sortStrings (omap (fun e =>
      if now <? default zeroTime (getTimes n key !! e.1) + AnnouncementExpiration
      then Some (CompactAddr e.2) else None)
    (map_to_list (getAnnouncements n key))).

Definition pageCount (announced : list bytes) : Z :=
  if 0 <? blen announced then blen announced / (Z.of_nat K + 1) + 1 else 0.
(** The providers of page [page], when the code puts any in the response. *)
Definition providersPage (page : Z) (announced : list bytes) : option (list bytes) :=
  if page <=? blen announced / Z.of_nat K then
    let start := page * Z.of_nat K in
    if start <? blen announced then
      let end_ := Z.min (start + Z.of_nat K) (blen announced) in
      Some (take (Z.to_nat (end_ - start)) (drop (Z.to_nat start) announced))
    else None
  else None.

Definition handleFindValue (now : Z) (n : Node) (from : UDPAddr) (args : list value) : res value :=
  key ← keyArgument args;
  let page :=
    match getKeywordArguments args with
    | Some kw => Z.max 0 (toBencInt (mapLookup (lit "p") kw))
    | None => 0
    end in
  let live := announced now n key in
  let resp := [(lit "token", VString (makeToken n (a_IP from)));
               (lit "protocolVersion", VInt ProtocolVersion)] in
  let resp := if page =? 0 then
      resp ++ [(lit "contacts", VList (peersToContactList (ClosestPeers (n_routing n) key K)))]
    else resp in
  let resp := resp ++ [(lit "p", VInt64 (pageCount live))] in
  Ok (VMap (match providersPage page live with
            | Some providers => mapInsert key (VList (map VBytes providers)) resp
            | None => resp
            end)).

Definition handleStore (now : Z) (n : Node) (from : UDPAddr) (args : list value)
  : Node * res value :=
  match args with
  | a0 :: a1 :: a2 :: a3 :: _ :: _ =>
      let blobHash := toBytes (Some a0) in
      let token := toBytes (Some a1) in
      let port := toBencInt (Some a2) in
      let publisher := toBytes (Some a3) in
      if negb (length blobHash =? HashSize)%nat || negb (blen token =? TokenSize) ||
         negb (length publisher =? HashSize)%nat
      then (n, Err "invalid store arguments")
      else if (port <=? 0) || (65535 <? port) then (n, Err "invalid tcp port")
      else if negb (verifyToken n token (a_IP from)) then (n, Err "Invalid token")
      else
        let peer := MkPeer publisher (a_IP from) (a_Port from) port zeroTime in
        let order := match n_announcements n !! blobHash with
                     | Some _ => n_announcementOrder n
                     | None => n_announcementOrder n ++ [blobHash]
                     end in
        (setAnnouncements n
           (<[blobHash := <[publisher := peer]> (getAnnouncements n blobHash)]> (n_announcements n))
           (<[blobHash := <[publisher := now]>
                (match n_announcements n !! blobHash with Some _ => getTimes n blobHash | None => ∅ end)]>
              (n_announcementTimes n))
           order, Ok (VString (lit "OK")))
  | _ => (n, Err "store needs five arguments")
  end.

Definition handleMethod (now : Z) (n : Node) (from : UDPAddr) (method : bytes) (args : list value)
  : Node * res value :=
  if bool_decide (method = lit "ping") then (n, handlePing)
  else if bool_decide (method = lit "findNode") then (n, handleFindNode n args)
  else if bool_decide (method = lit "findValue") then (n, handleFindValue now n from args)
  else if bool_decide (method = lit "store") then handleStore now n from args
  else (n, Err "Unknown method").

(** The reply datagram; a failed send is dropped. *)
Definition reply (n : Node) (type : Z) (rpcID : bytes) (payload : value) : option bytes :=
  match sendMessage n type rpcID payload with Ok data => Some data | _ => None end.

Definition handleRequest (now : Z) (n : Node) (from : UDPAddr) (message : DHTMessage)
  : res (Node * option bytes) :=
  let '(n, result) :=
    handleMethod now n from (m_Payload message) (authenticatedRequestArguments message) in
  match result with
  | Ok payload => Ok (n, reply n TYPE_RESPONSE (m_RPCID message) payload)
  | Err e => Ok (n, reply n TYPE_ERROR (m_RPCID message) (VBytes (lit e)))
  | Panic => Panic
  | NoFuel => NoFuel
  end.

(** A response or error datagram: only a peer with a pending request to it is
    believed, and it enters the routing table. *)
Definition handleReply (now : Z) (n : Node) (from : UDPAddr) (msg : value) (message : DHTMessage)
  : Node :=
  match n_pending n !! m_RPCID message with
  | Some pending =>
      if sameUDPAddress (pr_address pending) from then
        let rt := (AddPeer now (n_routing n)
                     (MkPeer (padded 48 (m_NodeID message)) (a_IP from) (a_Port from) 0 zeroTime)).1 in
        let response := match pr_response pending with Some r => Some r | None => Some msg end in
        setPending (setRouting n rt)
          (<[m_RPCID message := MkPending (pr_address pending) response]> (n_pending n))
      else n
  | None => n
  end.

(** The checks on a decoded datagram. *)
Definition decodeMessage (decoded : value) : option DHTMessage :=
  match decoded with
  | VMap msg =>
      match mapLookup (lit "0") msg, mapLookup (lit "1") msg, mapLookup (lit "2") msg with
      | Some (VInt64 type), Some (VBytes rpcID), Some (VBytes nodeID) =>
          if (type <? TYPE_REQUEST) || (TYPE_ERROR <? type) || negb (blen rpcID =? RPCIDSize) ||
             negb (length nodeID =? HashSize)%nat
          then None
          else
            let arguments := getBencList msg (lit "4") in
            if type =? TYPE_REQUEST then
              match mapLookup (lit "3") msg with
              | Some (VBytes (c :: method)) => Some (MkMessage type rpcID nodeID (c :: method) arguments)
              | _ => None
              end
            else Some (MkMessage type rpcID nodeID [] arguments)
      | _, _, _ => None
      end
  | _ => None
  end.

(** [Ok (n', out)]: the node after the datagram, and its answer.  [Panic] ends
    the process: nothing recovers in the read loop. *)
Definition handleMessage (now : Z) (n : Node) (data : bytes) (from : option UDPAddr)
  : res (Node * option bytes) :=
  match from with
  | None => Ok (n, None)
  | Some from =>
      if (blen data =? 0) || (MsgSizeLimit <? blen data) then Ok (n, None)
      else
        match BencodeDecode data with
        | Panic => Panic
        | NoFuel => NoFuel
        | Err _ => Ok (n, None)
        | Ok (decoded, consumed) =>
            if negb (consumed =? length data)%nat then Ok (n, None)
            else match decodeMessage decoded with
            | None => Ok (n, None)
            | Some message =>
                if m_Type message =? TYPE_REQUEST then handleRequest now n from message
                else Ok (handleReply now n from decoded message, None)
            end
        end
  end.

(** ** Expiry *)

Definition expiredAt (now ts : Z) : bool := ts + AnnouncementExpiration <? now.
(** One key of [expireAnnouncements]: the providers that stay. *)
Definition expireKey (now : Z) (n : Node) (hash : bytes) : Node :=
  let stale := map fst (filter (fun e => expiredAt now (default zeroTime (getTimes n hash !! e.1)) = true)
                          (map_to_list (getAnnouncements n hash))) in
  let providers := foldr delete (getAnnouncements n hash) stale in
  let timestamps := foldr delete (getTimes n hash) stale in
  if decide (providers = ∅) then
    setAnnouncements n (delete hash (n_announcements n)) (delete hash (n_announcementTimes n))
      (n_announcementOrder n)
  else
    setAnnouncements n (<[hash := providers]> (n_announcements n))
      (<[hash := timestamps]> (n_announcementTimes n)) (n_announcementOrder n).
Definition expireAnnouncements (now : Z) (n : Node) : Node :=
  let '(n', active) :=
    fold_left (fun '(m, active) hash =>
      let m := expireKey now m hash in
      (m, match n_announcements m !! hash with Some _ => active ++ [hash] | None => active end))
      (n_announcementOrder n) (n, []) in
  setAnnouncements n' (n_announcements n') (n_announcementTimes n') active.

Definition StoredBlobHashes (n : Node) : list bytes :=
  filter (fun hash => 0 < size (getAnnouncements n hash))%nat (n_announcementOrder n).
End node.

(** ** The invariant of a node *)

Definition providersOk (h : bytes) (a : gmap bytes Peer) (t : gmap bytes Z) : Prop :=
  isId h /\ a <> ∅ /\ dom a = dom t /\
  forall id p, a !! id = Some p -> p_ID p = id /\ isId id /\ 0 < p_TCPPort p <= 65535.

Definition nodeOk (n : Node) : Prop :=
  isId (n_ID n) /\ rt_selfID (n_routing n) = n_ID n /\ tableOk (n_routing n) /\
  NoDup (n_announcementOrder n) /\
  (forall h, h ∈ n_announcementOrder n <-> is_Some (n_announcements n !! h)) /\
  (forall h, match n_announcements n !! h, n_announcementTimes n !! h with
             | Some a, Some t => providersOk h a t
             | None, None => True
             | _, _ => False
             end).

Lemma AddPeer_selfID now rt p : rt_selfID (AddPeer now rt p).1 = rt_selfID rt.
Proof. unfold AddPeer, displace. by repeat case_match. Qed.
Lemma isId_padded b : isId b -> padded 48 b = b.
Proof.
  unfold isId, padded, HashSize. intros Hb. rewrite Hb, take_ge by lia. by rewrite app_nil_r.
Qed.

(** ** Tokens *)

Section node_theorems.
Context `{Digests}.

Lemma mismatch_zero token expected acc :
  length token = length expected -> 0 <= acc ->
  mismatch acc token expected = 0 <-> acc = 0 /\ token = expected.
Proof.
  revert expected acc. induction token as [|x token IH]; intros [|y expected] acc Hl Ha; cbn in *;
    try lia; [tauto|].
  pose proof (lxor_byte x y). rewrite IH; [|lia|by apply Z.lor_nonneg; lia].
  rewrite Z.lor_eq_0_iff, Z.lxor_eq_0_iff. split.
  - intros [[-> E] ->]. split; [done|]. f_equal. by apply (inj Zb).
  - intros [-> [= -> ->]]. done.
Qed.
Lemma verifyToken_iff n token ip : verifyToken n token ip = true <-> token = makeToken n ip.
Proof.
  unfold verifyToken. destruct (Nat.eqb_spec (length token) (length (makeToken n ip))) as [E|N]; cbn.
  - rewrite Z.eqb_eq, mismatch_zero by (done || lia). tauto.
  - split; [done|congruence].
Qed.

(** ** Datagrams *)

Lemma decodeMessage_nodeID v m : decodeMessage v = Some m -> isId (m_NodeID m).
Proof.
  unfold decodeMessage. intros Hd. repeat (case_match; try done); bool_props;
    match goal with E : (_ =? _)%nat = true |- _ => apply Nat.eqb_eq in E end; by simplify_eq.
Qed.

Lemma handleStore_cases now n from args n' result :
  handleStore now n from args = (n', result) ->
  n' = n \/
  exists blobHash token port publisher a2 rest,
    args = [blobHash; token; a2; publisher] ++ rest /\ rest <> [] /\
    port = toBencInt (Some a2) /\ 0 < port <= 65535 /\
    isId (toBytes (Some blobHash)) /\ isId (toBytes (Some publisher)) /\
    toBytes (Some token) = makeToken n (a_IP from) /\
    n' = setAnnouncements n
      (<[toBytes (Some blobHash) := <[toBytes (Some publisher) :=
          MkPeer (toBytes (Some publisher)) (a_IP from) (a_Port from) port zeroTime]>
          (getAnnouncements n (toBytes (Some blobHash)))]> (n_announcements n))
      (<[toBytes (Some blobHash) := <[toBytes (Some publisher) := now]>
          (match n_announcements n !! toBytes (Some blobHash) with
           | Some _ => getTimes n (toBytes (Some blobHash)) | None => ∅ end)]> (n_announcementTimes n))
      (match n_announcements n !! toBytes (Some blobHash) with
       | Some _ => n_announcementOrder n
       | None => n_announcementOrder n ++ [toBytes (Some blobHash)] end).
Proof.
  unfold handleStore. intros Hs.
  destruct args as [|a0 [|a1 [|a2 [|a3 [|a4 rest]]]]]; try (injection Hs as <- _; by left).
  cbv zeta in Hs.
  destruct (negb (length (toBytes (Some a0)) =? HashSize)%nat || negb (blen (toBytes (Some a1)) =? TokenSize) ||
         negb (length (toBytes (Some a3)) =? HashSize)%nat) eqn:E1; [injection Hs as <- _; by left|].
  destruct ((toBencInt (Some a2) <=? 0) || (65535 <? toBencInt (Some a2))) eqn:E2;
    [injection Hs as <- _; by left|].
  destruct (verifyToken n (toBytes (Some a1)) (a_IP from)) eqn:E3; cbn [negb] in Hs;
    [|injection Hs as <- _; by left].
  injection Hs as <- _. right. bool_props. apply verifyToken_iff in E3.
  repeat match goal with E : (_ =? _)%nat = true |- _ => apply Nat.eqb_eq in E end.
  exists a0, a1, (toBencInt (Some a2)), a3, a2, (a4 :: rest). split_and!; try done; lia.
Qed.

Lemma nodeOk_lookup n h a :
  nodeOk n -> n_announcements n !! h = Some a ->
  exists t, n_announcementTimes n !! h = Some t /\ providersOk h a t.
Proof.
  intros (_ & _ & _ & _ & _ & Hp) Ha. specialize (Hp h). rewrite Ha in Hp.
  destruct (n_announcementTimes n !! h); [eauto|done].
Qed.

Lemma handleStore_ok now n from args n' result :
  nodeOk n -> handleStore now n from args = (n', result) -> nodeOk n'.
Proof.
  intros Hok [->|(b & tok & port & pub & a2 & rest & _ & _ & _ & Hport & Hb & Hpub & _ & ->)]%handleStore_cases;
    [done|].
  set (h := toBytes (Some b)) in *. set (id := toBytes (Some pub)) in *.
  clearbody h id. destruct (Hok) as (Hid & Hself & Ht & Hnd & Ho & Hp). split_and!; cbn; try done.
  - destruct (n_announcements n !! h) eqn:E; [done|]. apply NoDup_app. split_and!; [done| |].
    + intros x Hx Hx'%list_elem_of_singleton. rewrite Hx', Ho, E in Hx. by destruct Hx.
    + apply NoDup_singleton.
  - intros x. rewrite lookup_insert_is_Some. destruct (n_announcements n !! h) eqn:E.
    + rewrite Ho. destruct (decide (h = x)) as [<-|]; [rewrite E; split; [by left|eauto]|]. intuition eauto.
    + rewrite elem_of_app, list_elem_of_singleton, Ho. destruct (decide (h = x)) as [<-|]; intuition eauto.
  - intros x. destruct (decide (h = x)) as [<-|].
    + rewrite !lookup_insert_eq. unfold getAnnouncements, getTimes.
      destruct (n_announcements n !! h) as [a|] eqn:E; cbn.
      * destruct (nodeOk_lookup _ _ _ Hok E) as (t & -> & _ & _ & Hdom & Ha). cbn.
        split_and!; [done|apply insert_non_empty|by rewrite !dom_insert_L, Hdom|].
        intros i p [[<- <-]|[_ Hi]]%lookup_insert_Some; [done|eauto].
      * split_and!; [done|apply insert_non_empty|by rewrite !dom_insert_L|].
        intros i p [[<- <-]|[_ Hi]]%lookup_insert_Some; [done|]. by rewrite lookup_empty in Hi.
    + rewrite !lookup_insert_ne by done. apply Hp.
Qed.

Lemma handleMethod_cases now n from method args n' result :
  handleMethod now n from method args = (n', result) ->
  n' = n \/ method = lit "store" /\ handleStore now n from args = (n', result).
Proof.
  unfold handleMethod. repeat case_bool_decide; intros Hm; try (injection Hm as <- _; by left).
  by right.
Qed.

Lemma handleReply_ok now n from msg m :
  nodeOk n -> isId (m_NodeID m) -> nodeOk (handleReply now n from msg m).
Proof.
  intros Hok Hm. unfold handleReply. repeat case_match; try done.
  all: destruct Hok as (Hid & Hself & Ht & Hrest); split_and!; cbn; try done; try apply Hrest;
    [by rewrite AddPeer_selfID|apply AddPeer_ok; [done|]; cbn; by rewrite isId_padded].
Qed.

Lemma handleMessage_cases now n data from n' out :
  handleMessage now n data from = Ok (n', out) ->
  n' = n \/
  exists addr decoded m, from = Some addr /\ BencodeDecode data = Ok (decoded, length data) /\
    decodeMessage decoded = Some m /\
    (m_Type m = TYPE_REQUEST /\ m_Payload m = lit "store" /\
       (exists result, handleStore now n addr (authenticatedRequestArguments m) = (n', result)) \/
     m_Type m <> TYPE_REQUEST /\ n' = handleReply now n addr decoded m).
Proof.
  unfold handleMessage. destruct from as [addr|]; [|intros [= <- _]; by left].
  case_match; [intros [= <- _]; by left|].
  destruct (BencodeDecode data) as [[decoded consumed]| | |]; try done; [|intros [= <- _]; by left].
  destruct (Nat.eqb_spec consumed (length data)) as [->|]; cbn [negb]; [|intros [= <- _]; by left].
  destruct (decodeMessage decoded) as [m|] eqn:Ed; [|intros [= <- _]; by left].
  destruct (Z.eqb_spec (m_Type m) TYPE_REQUEST) as [Et|Et]; intros Hm.
  - unfold handleRequest in Hm.
    destruct (handleMethod now n addr (m_Payload m) (authenticatedRequestArguments m))
      as [n1 result] eqn:Eh.
    apply handleMethod_cases in Eh as [->|[Hs Eh]].
    + destruct result; simplify_eq; by left.
    + right. exists addr, decoded, m. split_and!; try done. left. split_and!; try done.
      destruct result; simplify_eq; eauto.
  - injection Hm as <- _. right. exists addr, decoded, m. split_and!; try done. by right.
Qed.

Lemma handleMessage_ok now n data from n' out :
  nodeOk n -> handleMessage now n data from = Ok (n', out) -> nodeOk n'.
Proof.
  intros Hok [->|(addr & v & m & _ & _ & Hm & [(_ & _ & result & Hs)|[_ ->]])]%handleMessage_cases.
  - done.
  - by eapply handleStore_ok.
  - apply handleReply_ok; [done|]. by eapply decodeMessage_nodeID.
Qed.

Lemma authenticated_store m b tok a2 pub rest :
  m_Payload m = lit "store" -> isId (m_NodeID m) ->
  authenticatedRequestArguments m = [b; tok; a2; pub] ++ rest -> rest <> [] ->
  pub = VBytes (m_NodeID m).
Proof.
  unfold authenticatedRequestArguments, isId. intros -> Hl. rewrite Hl.
  rewrite bool_decide_eq_true_2 by done. cbn [negb orb]. rewrite Nat.eqb_refl. cbn [negb orb].
  destruct (Nat.ltb_spec (length (m_Arguments m)) 4) as [Hs|Hs].
  - intros E Hr. rewrite E in Hs. destruct rest; [done|]. cbn in Hs. lia.
  - intros E _. apply (f_equal (fun l => l !! 3%nat)) in E.
    rewrite list_lookup_insert_eq in E by lia. cbn in E. by simplify_eq.
Qed.

(** Who can make a node store an announcement, and which one. *)
Lemma stored_announcement now n data from n' out h id p :
  handleMessage now n data from = Ok (n', out) -> getAnnouncements n' h !! id = Some p ->
  getAnnouncements n h !! id = Some p \/
  exists addr decoded m b tok port rest,
    from = Some addr /\ BencodeDecode data = Ok (decoded, length data) /\
    decodeMessage decoded = Some m /\ m_Type m = TYPE_REQUEST /\ m_Payload m = lit "store" /\
    m_NodeID m = id /\
    authenticatedRequestArguments m = [b; tok; port; VBytes id] ++ rest /\
    h = toBytes (Some b) /\ toBytes (Some tok) = makeToken n (a_IP addr) /\
    0 < toBencInt (Some port) <= 65535 /\
    p = MkPeer id (a_IP addr) (a_Port addr) (toBencInt (Some port)) zeroTime.
Proof.
  intros [->|(addr & v & m & -> & Hv & Hm & [(Ht & Hs & result & Hst)|[_ ->]])]%handleMessage_cases Hp.
  - by left.
  - apply handleStore_cases in Hst as [->|(b & tok & port & pub & a2 & rest & Hargs & Hr & -> & Hport &
      Hb & Hpub & Htok & ->)]; [by left|].
    pose proof (authenticated_store _ _ _ _ _ _ Hs (decodeMessage_nodeID _ _ Hm) Hargs Hr) as ->.
    unfold getAnnouncements at 1 in Hp. cbn in Hp.
    destruct (decide (h = toBytes (Some b))) as [->|].
    + rewrite lookup_insert_eq in Hp. cbn in Hp.
      apply lookup_insert_Some in Hp as [[<- <-]|[_ Hp]]; [right|by left].
      by exists addr, v, m, b, tok, a2, rest.
    + rewrite lookup_insert_ne in Hp by done. by left.
  - left. revert Hp. unfold handleReply, getAnnouncements. by repeat case_match.
Qed.

(** The routing table learns from a datagram only when it answers a request
    pending at the sender's address. *)
Lemma learned_peer now n data from n' out :
  handleMessage now n data from = Ok (n', out) -> n_routing n' <> n_routing n ->
  exists addr rpcID pending id,
    from = Some addr /\ n_pending n !! rpcID = Some pending /\
    sameUDPAddress (pr_address pending) addr = true /\
    n_routing n' = (AddPeer now (n_routing n) (MkPeer id (a_IP addr) (a_Port addr) 0 zeroTime)).1.
Proof.
  intros [->|(addr & v & m & -> & Hv & Hm & [(Ht & Hs & result & Hst)|[_ ->]])]%handleMessage_cases Hne.
  - done.
  - apply handleStore_cases in Hst as [->|(b & tok & port & pub & a2 & rest & ? & ? & ? & ? & ? & ? & ? & ->)];
      by destruct Hne.
  - unfold handleReply in *. destruct (n_pending n !! m_RPCID m) as [pending|] eqn:E; [|done].
    destruct (sameUDPAddress (pr_address pending) addr) eqn:Es; [|done].
    exists addr, (m_RPCID m), pending, (padded 48 (m_NodeID m)). done.
Qed.
End node_theorems.

(** ** Expiry *)

Section expiry.
Context (now : Z).

(** The entries of a key that are kept, in terms of the maps before the sweep. *)
Definition live (n : Node) (h id : bytes) : bool :=
  negb (expiredAt now (default zeroTime (getTimes n h !! id))).

Lemma lookup_foldr_delete {A} (ks : list bytes) (m : gmap bytes A) id :
  foldr delete m ks !! id = if decide (id ∈ ks) then None else m !! id.
Proof.
  induction ks as [|k ks IH]; cbn [foldr].
  - rewrite decide_False by apply not_elem_of_nil. done.
  - destruct (decide (id = k)) as [->|Hne].
    + rewrite lookup_delete_eq, decide_True by by left. done.
    + rewrite lookup_delete_ne, IH by done. apply decide_ext. rewrite elem_of_cons. tauto.
Qed.

Lemma stale_spec (n : Node) h id :
  id ∈ map fst (filter (fun e => expiredAt now (default zeroTime (getTimes n h !! e.1)) = true)
                 (map_to_list (getAnnouncements n h))) <->
  is_Some (getAnnouncements n h !! id) /\ live n h id = false.
Proof.
  unfold live. rewrite list_elem_of_In, in_map_iff. split.
  - intros ([k p] & <- & Hin). apply list_elem_of_In, list_elem_of_filter in Hin as [He Hin]. cbn in *.
    apply elem_of_map_to_list in Hin. rewrite He. split; [by exists p|done].
  - intros [[p Hp] He]. exists (id, p). split; [done|]. apply list_elem_of_In, list_elem_of_filter.
    split; [cbn; by destruct (expiredAt _ _)|]. by apply elem_of_map_to_list.
Qed.

Definition keptProviders (n : Node) (h : bytes) : gmap bytes Peer :=
  foldr delete (getAnnouncements n h)
    (map fst (filter (fun e => expiredAt now (default zeroTime (getTimes n h !! e.1)) = true)
                (map_to_list (getAnnouncements n h)))).
Definition keptTimes (n : Node) (h : bytes) : gmap bytes Z :=
  foldr delete (getTimes n h)
    (map fst (filter (fun e => expiredAt now (default zeroTime (getTimes n h !! e.1)) = true)
                (map_to_list (getAnnouncements n h)))).

Lemma keptProviders_lookup n h id p :
  keptProviders n h !! id = Some p <-> getAnnouncements n h !! id = Some p /\ live n h id = true.
Proof.
  unfold keptProviders. rewrite lookup_foldr_delete. destruct (decide _) as [Hs|Hs];
    rewrite stale_spec in Hs.
  - destruct Hs as [_ Hs]. split; [done|]. intros [_ Hl]. congruence.
  - split.
    + intros Hp. split; [done|]. destruct (live n h id) eqn:E; [done|]. destruct Hs. eauto.
    + by intros [? _].
Qed.

Lemma keptProviders_absent n h : n_announcements n !! h = None -> keptProviders n h = ∅.
Proof.
  intros Hn. apply map_empty. intros id. destruct (keptProviders n h !! id) as [p|] eqn:E; [|done].
  apply keptProviders_lookup in E as [E _]. unfold getAnnouncements in E. by rewrite Hn in E.
Qed.
Lemma keptTimes_lookup n h id ts :
  keptTimes n h !! id = Some ts <->
  getTimes n h !! id = Some ts /\ ~ (is_Some (getAnnouncements n h !! id) /\ live n h id = false).
Proof.
  unfold keptTimes. rewrite lookup_foldr_delete, <- stale_spec. destruct (decide _) as [Hs|Hs]; [|tauto].
  split; [done|]. tauto.
Qed.

Lemma expireKey_announcements n h h' :
  n_announcements (expireKey now n h) !! h' =
    if decide (h' = h) then (if decide (keptProviders n h = ∅) then None else Some (keptProviders n h))
    else n_announcements n !! h'.
Proof.
  unfold expireKey. cbv zeta. fold (keptProviders n h). fold (keptTimes n h).
  destruct (decide (keptProviders n h = ∅)); cbn; destruct (decide (h' = h)) as [->|].
  - apply lookup_delete_eq.
  - by apply lookup_delete_ne.
  - apply lookup_insert_eq.
  - by apply lookup_insert_ne.
Qed.
Lemma expireKey_times n h h' :
  n_announcementTimes (expireKey now n h) !! h' =
    if decide (h' = h) then (if decide (keptProviders n h = ∅) then None else Some (keptTimes n h))
    else n_announcementTimes n !! h'.
Proof.
  unfold expireKey. cbv zeta. fold (keptProviders n h). fold (keptTimes n h).
  destruct (decide (keptProviders n h = ∅)); cbn; destruct (decide (h' = h)) as [->|].
  - apply lookup_delete_eq.
  - by apply lookup_delete_ne.
  - apply lookup_insert_eq.
  - by apply lookup_insert_ne.
Qed.
Lemma expireKey_rest n h :
  n_ID (expireKey now n h) = n_ID n /\ n_routing (expireKey now n h) = n_routing n /\
  n_pending (expireKey now n h) = n_pending n /\ n_running (expireKey now n h) = n_running n /\
  n_tokenSecret (expireKey now n h) = n_tokenSecret n.
Proof. unfold expireKey. cbv zeta. by case_decide. Qed.

Definition sweep (hashes : list bytes) (n : Node) (active : list bytes) : Node * list bytes :=
  fold_left (fun '(m, active) hash =>
      let m := expireKey now m hash in
      (m, match n_announcements m !! hash with Some _ => active ++ [hash] | None => active end))
    hashes (n, active).

(** Sweeping a list of distinct keys treats each as [expireKey] would alone. *)
Lemma sweep_spec hashes n active :
  NoDup hashes ->
  let '(m, active') := sweep hashes n active in
  (forall h, n_announcements m !! h =
     if decide (h ∈ hashes) then (if decide (keptProviders n h = ∅) then None else Some (keptProviders n h))
     else n_announcements n !! h) /\
  (forall h, n_announcementTimes m !! h =
     if decide (h ∈ hashes) then (if decide (keptProviders n h = ∅) then None else Some (keptTimes n h))
     else n_announcementTimes n !! h) /\
  active' = active ++ filter (fun h => keptProviders n h <> ∅) hashes /\
  n_ID m = n_ID n /\ n_routing m = n_routing n /\
  n_pending m = n_pending n /\ n_running m = n_running n /\ n_tokenSecret m = n_tokenSecret n.
Proof.
  revert n active. induction hashes as [|h hs IH]; intros n active Hnd.
  { cbn. split_and!; try done. by rewrite app_nil_r. }
  apply NoDup_cons in Hnd as [Hh Hnd]. unfold sweep. cbn [fold_left]. fold (sweep hs).
  set (n1 := expireKey now n h). specialize (IH n1).
  change (fold_left _ hs ?x) with (sweep hs x.1 x.2). cbn [fst snd].
  set (active1 := match n_announcements n1 !! h with Some _ => _ | None => _ end).
  specialize (IH active1 Hnd). destruct (sweep hs n1 active1) as [m active'].
  destruct IH as (Ha & Ht & Hact & Hid & Hr & Hpe & Hru & Hto).
  destruct (expireKey_rest n h) as (Hid1 & Hr1 & Hpe1 & Hru1 & Hto1). fold n1 in Hid1, Hr1, Hpe1, Hru1, Hto1.
  assert (forall h', h' <> h -> keptProviders n1 h' = keptProviders n h' /\ keptTimes n1 h' = keptTimes n h')
    as Hkept.
  { intros h' Hne. unfold keptProviders, keptTimes, getAnnouncements, getTimes, n1.
    rewrite expireKey_announcements, expireKey_times, !decide_False by done. done. }
  split_and!; try congruence.
  - intros h'. rewrite Ha. destruct (decide (h' ∈ hs)) as [Hin|Hout].
    + assert (h' <> h) as Hne by set_solver. rewrite (proj1 (Hkept _ Hne)).
      rewrite (decide_True (P := h' ∈ h :: hs)) by by right. done.
    + unfold n1. rewrite expireKey_announcements. destruct (decide (h' = h)) as [->|].
      * rewrite (decide_True (P := h ∈ h :: hs)) by by left. done.
      * rewrite (decide_False (P := h' ∈ h :: hs)) by set_solver. done.
  - intros h'. rewrite Ht. destruct (decide (h' ∈ hs)) as [Hin|Hout].
    + assert (h' <> h) as Hne by set_solver. rewrite (proj1 (Hkept _ Hne)), (proj2 (Hkept _ Hne)).
      rewrite (decide_True (P := h' ∈ h :: hs)) by by right. done.
    + unfold n1. rewrite expireKey_times. destruct (decide (h' = h)) as [->|].
      * rewrite (decide_True (P := h ∈ h :: hs)) by by left. done.
      * rewrite (decide_False (P := h' ∈ h :: hs)) by set_solver. done.
  - rewrite Hact. unfold active1, n1. rewrite expireKey_announcements, decide_True by done.
    assert (filter (fun h' => keptProviders n1 h' <> ∅) hs = filter (fun h' => keptProviders n h' <> ∅) hs) as E.
    { clear -Hh Hkept. induction hs as [|x hs IH]; [done|]. rewrite !filter_cons.
      rewrite (proj1 (Hkept x ltac:(set_solver))). rewrite IH by set_solver. done. }
    fold n1. rewrite E, filter_cons. destruct (decide (keptProviders n h = ∅)) as [He|He].
    + rewrite decide_False by tauto. done.
    + rewrite decide_True by done. by rewrite <- app_assoc.
Qed.
End expiry.

Lemma keptProviders_sub now n h a t :
  n_announcements n !! h = Some a -> n_announcementTimes n !! h = Some t -> providersOk h a t ->
  keptProviders now n h <> ∅ -> providersOk h (keptProviders now n h) (keptTimes now n h).
Proof.
  intros Ha Ht (Hid & _ & Hdom & Hp) Hne. split_and!; [done|done| |].
  - apply set_eq. intros id. rewrite !elem_of_dom.
    assert (is_Some (getAnnouncements n h !! id) <-> is_Some (getTimes n h !! id)) as Hiff.
    { unfold getAnnouncements, getTimes. rewrite Ha, Ht. cbn. by rewrite <- !elem_of_dom, Hdom. }
    unfold is_Some. setoid_rewrite keptProviders_lookup. setoid_rewrite keptTimes_lookup. split.
    + intros (p & Hp' & Hl). destruct (proj1 Hiff) as [ts Hts]; [by exists p|]. exists ts.
      split; [done|]. intros [_ E]. congruence.
    + intros (ts & Hts & Hl). destruct (proj2 Hiff) as [p Hp']; [by exists ts|]. exists p.
      split; [done|]. destruct (live now n h id) eqn:E; [done|]. destruct Hl. split; [by exists p|done].
  - intros id p [Hl _]%keptProviders_lookup. apply Hp. unfold getAnnouncements in Hl. by rewrite Ha in Hl.
Qed.

(** Expiry keeps exactly the announcements that are not past their time, and the
    node stays well formed. *)
Lemma expireAnnouncements_spec now n :
  nodeOk n ->
  let n' := expireAnnouncements now n in
  nodeOk n' /\ n_routing n' = n_routing n /\ n_pending n' = n_pending n /\
  forall h id p, getAnnouncements n' h !! id = Some p <->
    getAnnouncements n h !! id = Some p /\
    exists ts, getTimes n h !! id = Some ts /\ now <= ts + AnnouncementExpiration.
Proof.
  intros Hok. cbv zeta. pose proof Hok as (Hid & Hself & Ht & Hnd & Ho & Hp).
  unfold expireAnnouncements. pose proof (sweep_spec now (n_announcementOrder n) n [] Hnd) as Hs.
  unfold sweep in Hs. destruct (fold_left _ _ _) as [m active].
  destruct Hs as (Ha & Htm & -> & E1 & E2 & E3 & E4 & E5). cbn [app].
  assert (forall h, n_announcements m !! h =
    if decide (keptProviders now n h = ∅) then None else Some (keptProviders now n h)) as Ha'.
  { intros h. rewrite Ha. destruct (decide (h ∈ n_announcementOrder n)) as [|Hh]; [done|].
    rewrite Ho, <- eq_None_not_Some in Hh. rewrite Hh, decide_True; [done|].
    by apply keptProviders_absent. }
  split_and!; cbn; try congruence.
  - split_and!; cbn; try congruence.
    + by apply NoDup_filter.
    + intros h. rewrite list_elem_of_filter, Ha', Ho. destruct (decide _) as [E|E].
      * split; [by intros []|by intros []].
      * split; [eauto|]. intros _. split; [done|]. apply not_eq_None_Some. intros En. apply E.
        by apply keptProviders_absent.
    + intros h. rewrite Ha', Htm. specialize (Hp h).
      destruct (n_announcements n !! h) as [a|] eqn:Ea.
      * rewrite (decide_True (P := h ∈ _)) by (apply Ho; rewrite Ea; eauto).
        destruct (decide (keptProviders now n h = ∅)); [done|].
        destruct (n_announcementTimes n !! h) as [t|] eqn:Et; [|done]. by eapply keptProviders_sub.
      * rewrite (decide_False (P := h ∈ _)) by (rewrite Ho, Ea; by intros []).
        rewrite decide_True by by apply keptProviders_absent. done.
  - intros h id p. unfold getAnnouncements at 1. cbn. rewrite Ha'.
    assert (default ∅ (if decide (keptProviders now n h = ∅) then None else Some (keptProviders now n h))
      = keptProviders now n h) as -> by by destruct (decide _) as [->|].
    rewrite keptProviders_lookup. unfold live, expiredAt. split; intros [Hl He]; (split; [done|]).
    + unfold getAnnouncements in Hl. destruct (n_announcements n !! h) as [a|] eqn:Ea; [|done].
      destruct (nodeOk_lookup _ _ _ Hok Ea) as (t & Et & _ & _ & Hdom & _).
      unfold getTimes in *. rewrite Et in *. cbn in *.
      assert (is_Some (t !! id)) as [ts Hts] by (apply elem_of_dom; rewrite <- Hdom; apply elem_of_dom; eauto).
      exists ts. split; [done|]. rewrite Hts in He. cbn in He. bool_props. done.
    + destruct He as (ts & -> & Hts). cbn. apply negb_true_iff, Z.ltb_ge. done.
Qed.

(** ** Reachable nodes *)

(** What a running node goes through: datagrams at any time from anyone, sweeps,
    start and stop, requests registered and forgotten, contacts observed and failed. *)
Inductive nodeStep `{Digests} : Node -> Node -> Prop :=
| node_datagram now n data from n' out :
    handleMessage now n data from = Ok (n', out) -> nodeStep n n'
| node_sweep now n : nodeStep n (expireAnnouncements now n)
| node_running n running : nodeStep n (setRunning n running)
| node_pending n pending : nodeStep n (setPending n pending)
| node_observe now n p : isId (p_ID p) -> nodeStep n (setRouting n (AddPeer now (n_routing n) p).1)
| node_failure n id : nodeStep n (setRouting n (MarkFailure (n_routing n) id).1).

Lemma MarkFailure_selfID rt id : rt_selfID (MarkFailure rt id).1 = rt_selfID rt.
Proof. unfold MarkFailure, RemovePeer. by repeat case_match. Qed.
Lemma setRouting_ok n rt :
  nodeOk n -> rt_selfID rt = n_ID n -> tableOk rt -> nodeOk (setRouting n rt).
Proof. intros (Hid & Hself & Ht & Hrest) Hs Hok. split_and!; try done; apply Hrest. Qed.

Lemma NewNode_ok id secret : isId id -> nodeOk (NewNodeWithID id secret).
Proof.
  intros Hid. split_and!; try done.
  - by apply NewRoutingTable_ok.
  - constructor.
  - intros h. cbn. rewrite lookup_empty. split; [by intros ?%elem_of_nil|by intros []].
Qed.

Lemma nodeStep_ok `{Digests} n n' : nodeStep n n' -> nodeOk n -> nodeOk n'.
Proof.
  intros [now0 n0 data from n1 out Hm|now0 n0|n0 r|n0 p|now0 n0 p Hp|n0 id] Hok.
  - by eapply handleMessage_ok.
  - by apply expireAnnouncements_spec.
  - done.
  - done.
  - pose proof Hok as (_ & Hself & Ht & _). apply setRouting_ok; [done| |by apply AddPeer_ok].
    by rewrite AddPeer_selfID.
  - pose proof Hok as (_ & Hself & Ht & _). apply setRouting_ok; [done| |by apply MarkFailure_ok].
    by rewrite MarkFailure_selfID.
Qed.

(** ** Provider pages *)

Lemma providersPage_slice page l :
  0 <= page ->
  default [] (providersPage page l) = take K (drop (Z.to_nat page * K) l).
Proof.
  intros Hp. unfold providersPage, K. pose proof (blen_nonneg l).
  change (Z.of_nat 8) with 8.
  replace (Z.to_nat (page * 8)) with (Z.to_nat page * 8)%nat by lia.
  destruct (Z.leb_spec page (blen l / 8)) as [Hle|Hgt].
  - destruct (Z.ltb_spec (page * 8) (blen l)) as [Hlt|Hge]; cbn [default from_option id].
    + destruct (Z.le_gt_cases (page * 8 + 8) (blen l)).
      * f_equal. lia.
      * rewrite !take_ge; [done| |]; rewrite length_drop; unfold blen in *; lia.
    + rewrite drop_ge; [done|]. unfold blen in *. lia.
  - cbn. rewrite drop_ge; [done|]. unfold blen in *.
    pose proof (Z.div_mod (Z.of_nat (length l)) 8). pose proof (Z.mod_pos_bound (Z.of_nat (length l)) 8). lia.
Qed.

Lemma pages_chunks (l : list bytes) n k :
  (length l <= n * K + k * K)%nat ->
  concat (map (fun i => take K (drop (i * K) l)) (seq k n)) = drop (k * K) l.
Proof.
  revert k. induction n as [|n IH]; intros k Hl; cbn [seq map concat].
  - rewrite drop_ge; [done|]. lia.
  - rewrite IH by lia. replace (S k * K)%nat with (k * K + K)%nat by lia.
    rewrite <- drop_drop. apply take_drop.
Qed.

(** The pages from 0 on list every provider once, in order. *)
Lemma pages_all l :
  concat (map (fun i => default [] (providersPage (Z.of_nat i) l)) (seq 0 (S (length l / K)))) = l.
Proof.
  etrans; [|exact (pages_chunks l (S (length l / K)) 0 ltac:(
    pose proof (Nat.div_mod (length l) K ltac:(done)); pose proof (Nat.mod_upper_bound (length l) K ltac:(done)); lia))].
  f_equal. apply map_ext. intros i. rewrite providersPage_slice by lia. by rewrite Nat2Z.id.
Qed.

(** ** Compact addresses *)

Lemma CompactAddr_roundtrip p ip4 :
  To4 (p_IP p) = Some ip4 -> isId (p_ID p) -> 0 <= p_TCPPort p < 2 ^ 16 ->
  ParseCompactAddr (CompactAddr p) = Ok (IPv4 ip4, p_TCPPort p, p_ID p).
Proof.
  intros Hip Hid Hport. unfold CompactAddr. rewrite Hip, isId_padded by done. cbn [default from_option id].
  assert (length ip4 = 4%nat) as H4.
  { unfold To4 in Hip. destruct (Nat.eqb_spec (length (p_IP p)) 4); [by simplify_eq|].
    destruct (Nat.eqb_spec (length (p_IP p)) 16) as [E|]; [|done]. cbn in Hip. case_bool_decide; [|done].
    simplify_eq. rewrite length_drop, E. done. }
  unfold isId, HashSize in Hid.
  assert (padded 4 ip4 = ip4) as ->.
  { unfold padded. rewrite H4, take_ge by lia. by rewrite app_nil_r. }
  unfold ParseCompactAddr. rewrite !length_app, length_be_bytes, H4, Hid. cbn [Nat.ltb Nat.leb Nat.add].
  rewrite (take_app_at ip4) by done. rewrite (drop_app_at ip4) by done.
  rewrite (take_app_at (be_bytes 2 _)) by by rewrite length_be_bytes.
  rewrite app_assoc, (drop_app_at (ip4 ++ be_bytes 2 _)) by by rewrite length_app, length_be_bytes, H4.
  rewrite be_value_bytes_id, take_ge by lia. done.
Qed.

(** ** What a node promises *)

(** The node invariant.  Whatever datagrams arrive, from anyone and in any
    order, between sweeps, starts, requests and contacts, a node keeps a
    well-formed routing table under its own ID, and its announcements list, per
    blob, publishers with valid IDs and TCP ports, each with a time. *)
Theorem node_invariant `{Digests} id secret n :
  isId id -> rtc nodeStep (NewNodeWithID id secret) n -> nodeOk n.
Proof.
  intros Hid Hr. pose proof (NewNode_ok id secret Hid) as H0.
  induction Hr as [|n1 n2 n3 Hs Hr IH]; [done|]. by apply IH, (nodeStep_ok n1).
Qed.

(** C31: only a token holder can announce.  When a datagram makes a blob's provider
    list hold a publisher it did not hold, the datagram is a [store] request whose
    sender is the publisher, whose token is the one this node issues for the
    sender's address, and the provider recorded is that address with the port
    asked for. *)
Theorem announcements_authenticated `{Digests} now n data from n' out h id p :
  handleMessage now n data from = Ok (n', out) -> getAnnouncements n' h !! id = Some p ->
  getAnnouncements n h !! id = Some p \/
  exists addr decoded m b tok port rest,
    from = Some addr /\ BencodeDecode data = Ok (decoded, length data) /\
    decodeMessage decoded = Some m /\ m_Type m = TYPE_REQUEST /\ m_Payload m = lit "store" /\
    m_NodeID m = id /\
    authenticatedRequestArguments m = [b; tok; port; VBytes id] ++ rest /\
    h = toBytes (Some b) /\ toBytes (Some tok) = makeToken n (a_IP addr) /\
    0 < toBencInt (Some port) <= 65535 /\
    p = MkPeer id (a_IP addr) (a_Port addr) (toBencInt (Some port)) zeroTime.
Proof. apply stored_announcement. Qed.

(** Only answers to this node's own requests teach it contacts: a datagram
    that changes the routing table answers a pending request and comes from the
    address the request went to, and the change is the addition of its sender. *)
Theorem contacts_solicited `{Digests} now n data from n' out :
  handleMessage now n data from = Ok (n', out) -> n_routing n' <> n_routing n ->
  exists addr rpcID pending id,
    from = Some addr /\ n_pending n !! rpcID = Some pending /\
    sameUDPAddress (pr_address pending) addr = true /\
    n_routing n' = (AddPeer now (n_routing n) (MkPeer id (a_IP addr) (a_Port addr) 0 zeroTime)).1.
Proof. apply learned_peer. Qed.

(** A sweep keeps exactly the announcements no older than 24 hours, and the
    rest of the node as it is. *)
Theorem sweep_keeps_live n now :
  nodeOk n ->
  let n' := expireAnnouncements now n in
  nodeOk n' /\ n_routing n' = n_routing n /\ n_pending n' = n_pending n /\
  forall h id p, getAnnouncements n' h !! id = Some p <->
    getAnnouncements n h !! id = Some p /\
    exists ts, getTimes n h !! id = Some ts /\ now <= ts + AnnouncementExpiration.
Proof. apply expireAnnouncements_spec. Qed.

(** The providers a client reads that asks for page 0 and then for the pages up to
    the page count of the answer, as [FindValue] does. *)
Definition pagesRead (l : list bytes) : list bytes :=
  concat (map (fun i => default [] (providersPage (Z.of_nat i) l)) (seq 0 (S (Z.to_nat (pageCount l))))).

Lemma pages_prefix (l : list bytes) n :
  concat (map (fun i => take K (drop (i * K) l)) (seq 0 n)) = take (n * K) l.
Proof.
  transitivity (drop (0 * K) (take (n * K) l)); [|done].
  rewrite <- (pages_chunks (take (n * K) l) n 0) by (rewrite length_take; lia).
  f_equal. apply map_ext_in. intros i Hi%in_seq.
  rewrite skipn_firstn_comm, take_take. f_equal. unfold K. lia.
Qed.

(** Paging through providers.  Up to 88 providers the pages 0 to the answered
    page count list every one once, in order.  With 89 the page count falls short:
    the pages 0 to 11 hold them all, but the count is 10, so the last is never
    asked for. *)
Theorem provider_pages l :
  concat (map (fun i => default [] (providersPage (Z.of_nat i) l)) (seq 0 (S (length l / K)))) = l /\
  (blen l <= 88 -> pagesRead l = l) /\
  (blen l = 89 -> pageCount l = 10 /\ pagesRead l = take 88 l /\ providersPage 11 l = Some (drop 88 l)).
Proof.
  split; [apply pages_all|].
  assert (pagesRead l = take (S (Z.to_nat (pageCount l)) * K) l) as E.
  { unfold pagesRead. rewrite <- pages_prefix. f_equal. apply map_ext. intros i.
    rewrite providersPage_slice by lia. by rewrite Nat2Z.id. }
  rewrite E. unfold pageCount, K, blen. split; intros Hl.
  - apply take_ge. destruct (Z.ltb_spec 0 (Z.of_nat (length l))); [|lia].
    change (Z.of_nat 8 + 1) with 9. Z.to_euclidean_division_equations; lia.
  - rewrite Hl. split; [done|]. split; [done|]. unfold providersPage, K, blen. rewrite Hl. cbn -[take drop].
    f_equal. apply take_ge. rewrite length_drop. change (Pos.to_nat 88) with 88%nat. lia.
Qed.


(** ** Witnesses *)

#[local] Existing Instance exampleDigests.
Definition exampleNode : Node := NewNodeWithID (exampleID x00) (lit "secret").
Definition exampleSender : UDPAddr := MkAddr [x0a; x00; x00; x07] 4444 [].
Definition exampleDatagram (from : byte) (method : bytes) (args : list value) : bytes :=
  match BencodeEncode (VMap [(lit "0", VInt 0); (lit "1", VBytes (repeat x01 20));
                             (lit "2", VBytes (exampleID from)); (lit "3", VBytes method);
                             (lit "4", VList args)]) with
  | Ok data => data
  | _ => []
  end.
Definition exampleStore : bytes :=
  exampleDatagram x07 (lit "store")
    [VBytes (exampleID x44); VBytes (makeToken exampleNode [x0a; x00; x00; x07]); VInt 3333;
     VBytes (exampleID x07); VInt 0].
Definition exampleStored : Node :=
  match handleMessage 5 exampleNode exampleStore (Some exampleSender) with Ok (n, _) => n | _ => exampleNode end.
(** The answer that a pending request waits for. *)
Definition exampleAsking : Node :=
  setPending exampleNode (<[repeat x01 20 := MkPending exampleSender None]> ∅).
Definition exampleAnswer : bytes :=
  match BencodeEncode (VMap [(lit "0", VInt 1); (lit "1", VBytes (repeat x01 20));
                             (lit "2", VBytes (exampleID x07)); (lit "3", VString (lit "pong"))]) with
  | Ok data => data
  | _ => []
  end.

Lemma exampleStored_eq :
  exists out, handleMessage 5 exampleNode exampleStore (Some exampleSender) = Ok (exampleStored, out) /\
    getAnnouncements exampleStored (exampleID x44) !! exampleID x07 =
      Some (MkPeer (exampleID x07) [x0a; x00; x00; x07] 4444 3333 zeroTime).
Proof.
  unfold exampleStored.
  destruct (handleMessage 5 exampleNode exampleStore (Some exampleSender)) as [[n out]| | |] eqn:E;
    [|exfalso; revert E; vm_compute; discriminate..].
  exists out. split; [reflexivity|].
  apply (f_equal (fun r => match r with
    | Ok (n, _) => getAnnouncements n (exampleID x44) !! exampleID x07 | _ => None end)) in E.
  rewrite <- E. vm_compute. reflexivity.
Qed.

Lemma node_invariant_witness : nodeOk exampleStored.
Proof.
  destruct exampleStored_eq as (out & E & _).
  apply (node_invariant (exampleID x00) (lit "secret")); [reflexivity|].
  apply (rtc_l _ _ exampleStored); [by eapply node_datagram|apply rtc_refl].
Defined.
Lemma announcements_authenticated_witness :
  exists tok, toBytes (Some tok) = makeToken exampleNode [x0a; x00; x00; x07].
Proof.
  destruct exampleStored_eq as (out & E & Hp).
  destruct (announcements_authenticated _ _ _ _ _ _ _ _ _ E Hp)
    as [H|(addr & d & m & b & tok & port & rest & Ha & _ & _ & _ & _ & _ & _ & _ & Ht & _)].
  - vm_compute in H. discriminate H.
  - exists tok. rewrite Ht. by injection Ha as <-.
Defined.
Lemma contacts_solicited_witness :
  exists addr, Some exampleSender = Some addr /\
    exists n out, handleMessage 5 exampleAsking exampleAnswer (Some exampleSender) = Ok (n, out) /\
      PeerCount (n_routing n) = 1%nat.
Proof.
  destruct (handleMessage 5 exampleAsking exampleAnswer (Some exampleSender)) as [[n out]| | |] eqn:E;
    [|exfalso; revert E; vm_compute; discriminate..].
  assert (PeerCount (n_routing n) = 1%nat) as Hc.
  { apply (f_equal (fun r => match r with Ok (n, _) => PeerCount (n_routing n) | _ => O end)) in E.
    rewrite <- E. vm_compute. reflexivity. }
  destruct (contacts_solicited 5 exampleAsking exampleAnswer (Some exampleSender) n out E)
    as (addr & _ & _ & _ & Ha & _).
  - intros En. rewrite En in Hc. vm_compute in Hc. discriminate Hc.
  - exists addr. split; [exact Ha|]. exists n, out. split; [reflexivity|exact Hc].
Defined.
Lemma sweep_keeps_live_witness :
  getAnnouncements (expireAnnouncements 6 exampleStored) (exampleID x44) !! exampleID x07 =
    Some (MkPeer (exampleID x07) [x0a; x00; x00; x07] 4444 3333 zeroTime).
Proof.
  destruct exampleStored_eq as (out & E & Hp).
  assert (nodeOk exampleStored) as Hok.
  { eapply nodeStep_ok; [by eapply node_datagram|]. apply NewNode_ok. reflexivity. }
  destruct (sweep_keeps_live exampleStored 6 Hok) as (_ & _ & _ & H).
  apply H. split; [exact Hp|]. exists 5. split; [vm_compute; reflexivity|vm_compute; discriminate].
Defined.
Lemma provider_pages_witness :
  pagesRead (map (fun i => [byt (Z.of_nat i)]) (seq 0 88)) = map (fun i => [byt (Z.of_nat i)]) (seq 0 88) /\
  pageCount (repeat [x00] 89) = 10.
Proof.
  split.
  - refine (proj1 (proj2 (provider_pages _)) _). vm_compute. intros [=].
  - refine (proj1 (proj2 (proj2 (provider_pages _)) _)). reflexivity.
Defined.
