(* ===== verification/BackgroundDownloader.v ===== *)
(** * The background downloader

    Model of [backgrounddownloader/manager.go]: a node caches streams whose hash
    is close to its own identity, one at a time, while there is room for them.
    The blob store it downloads into is an interface; the blob manager with the
    blob exchange behind it is an instance. *)

From stdpp Require Import relations.
From S2P Require Import Prelude Hex Digest Aes Json Stream BlobManager BlobFlights PeerExchange Routing.

Definition MinimumFreeSpaceMB : Z := 10.
Definition MinimumPrefixBits : Z := 8.
Definition HashSize : nat := 48.

(** ** The blob store *)

Class BlobStore (W : Type) := {
  store_Has : W -> bytes -> bool;
  store_Ensure : W -> bytes -> W * res unit;
  store_GetLocal : W -> bytes -> option bytes
}.
(** What the downloader may rely on in states that [store_ok] admits: an ensured
    blob is held, nothing is lost, and the bytes have their hash. *)
Class BlobStoreLaws `{Digests} W `{BlobStore W} := {
  store_ok : W -> Prop;
  ensure_ok w h w' r : store_ok w -> store_Ensure w h = (w', r) -> store_ok w';
  ensure_has w h w' : store_ok w -> store_Ensure w h = (w', Ok tt) -> store_Has w' h = true;
  ensure_keeps w h w' r h' : store_ok w -> store_Ensure w h = (w', r) -> store_Has w h' = true -> store_Has w' h' = true;
  ensure_keeps_data w h w' r h' data :
    store_ok w -> store_Ensure w h = (w', r) -> store_GetLocal w h' = Some data ->
    store_GetLocal w' h' = Some data \/ blobCollision;
  local_hash w h data : store_ok w -> store_GetLocal w h = Some data -> hashBytes data = h
}.

(** ** Choosing a stream *)

Definition LeadingZeros8 (x : Z) : Z := if x =? 0 then 8 else 7 - Z.log2 x.
(** Both arrays have [HashSize] bytes. *)
Fixpoint collidingFrom (matching : Z) (first second : bytes) : Z :=
  match first, second with
  | a :: first, b :: second =>
      let difference := Z.lxor (Zb a) (Zb b) in
      if difference =? 0 then collidingFrom (matching + 8) first second
      else matching + LeadingZeros8 difference
  | _, _ => matching
  end.
Definition CollidingPrefixBits (first second : bytes) : Z := collidingFrom 0 first second.

(** [bd_Worker] is the stream being downloaded; [ongoing] is whether there is one. *)
Record Manager := MkDownloader {
  bd_Running : bool; bd_Worker : option bytes; bd_SpaceAvailable : option Z; bd_LowSpace : bool; bd_LowSpaceKnown : bool
}.
Definition ongoing (manager : Manager) : bool := if bd_Worker manager is Some _ then true else false.
(** Of the hashes that the node stores, the first that is not held and near enough. *)
Fixpoint chooseStream (has : bytes -> bool) (nodeID : bytes) (hashes : list bytes) : option bytes :=
  match hashes with
  | [] => None
  | hash :: hashes =>
      let hashText := hexEncode hash in
      if has hashText then chooseStream has nodeID hashes
      else if CollidingPrefixBits nodeID hash <? MinimumPrefixBits then chooseStream has nodeID hashes
      else Some hashText
  end.
Definition poll (manager : Manager) (freeSpace : res Z) (has : bytes -> bool) (nodeID : bytes) (hashes : list bytes)
  : res Manager :=
  available ← freeSpace;
  let manager := MkDownloader (bd_Running manager) (bd_Worker manager) (Some available)
                   (available <=? MinimumFreeSpaceMB) true in
  if available <=? MinimumFreeSpaceMB then Ok manager
  else if ongoing manager then Ok manager
  else match chooseStream has nodeID hashes with
       | Some hashText =>
           Ok (MkDownloader (bd_Running manager) (Some hashText) (bd_SpaceAvailable manager) (bd_LowSpace manager) true)
       | None => Ok manager
       end.
Definition finishDownload (manager : Manager) : Manager :=
  MkDownloader (bd_Running manager) None (bd_SpaceAvailable manager) (bd_LowSpace manager) (bd_LowSpaceKnown manager).
Definition stopped (manager : Manager) : Manager :=
  MkDownloader false None (bd_SpaceAvailable manager) (bd_LowSpace manager) (bd_LowSpaceKnown manager).

(** [Start] of a manager that has its dependencies; [node] is whether there is a
    DHT node. *)
Definition Start (node : bool) (manager : Manager) : Manager :=
  if bd_Running manager || negb node then manager
  else MkDownloader true (bd_Worker manager) (bd_SpaceAvailable manager) (bd_LowSpace manager) (bd_LowSpaceKnown manager).
(** [run]: what the loop selects on, and one round of it.  A cancelled loop, and
    one whose poll failed, wait for the worker. *)
Inductive event :=
| Tick (freeSpace : res Z) (has : bytes -> bool) (nodeID : bytes) (hashes : list bytes)
| Finished
| Cancelled.
Definition onEvent (manager : Manager) (e : event) : Manager :=
  match e with
  | Tick freeSpace has nodeID hashes =>
      match poll manager freeSpace has nodeID hashes with Ok manager => manager | _ => stopped manager end
  | Finished => finishDownload manager
  | Cancelled => stopped manager
  end.

(** ** Downloading a stream *)

Section download.
Context `{Digests} {W : Type} `{BlobStore W}.

(** The blobs of a descriptor but the last, with the count and the size so far. *)
Fixpoint ensureBlobs (w : W) (items : list BlobInfo) (count size : Z) : W * (Z * Z * res unit) :=
  match items with
  | [] => (w, (count, size, Ok tt))
  | item :: items =>
      let '(w, r) := store_Ensure w (b_BlobHash item) in
      match r with
      | Ok _ => ensureBlobs w items (count + 1) (i64 (size + b_Length item))
      | r => (w, (count, size, map_err (fun e => "download stream blob: " ++ e)%string r))
      end
  end.
(** [downloadStream]: the count of blobs, their size, and the error. *)
Definition downloadStream (w : W) (sdHash : bytes) : W * (Z * Z * res unit) :=
  let '(w, r) := store_Ensure w sdHash in
  match r with
  | Ok _ =>
      match store_GetLocal w sdHash with
      | None => (w, (0, 0, Err "downloaded stream descriptor is unavailable"))
      | Some descriptorData =>
          match DecodeDescriptor sdHash descriptorData with
          | Ok descriptor => ensureBlobs w (removelast (sd_Blobs descriptor)) 1 (blen descriptorData)
          | Err e => (w, (1, blen descriptorData, Err e))
          | Panic => (w, (1, blen descriptorData, Panic))
          | NoFuel => (w, (1, blen descriptorData, NoFuel))
          end
      end
  | r => (w, (0, 0, map_err (fun e => "download stream descriptor: " ++ e)%string r))
  end.
End download.

(** ** The blob manager as a blob store

    [Ensure] by a caller that nobody joins; [network] is what the fetcher answers. *)

Section store.
Context `{Digests} (faults : diskFaults) (network : bytes -> res bytes).

Definition ensureAlone (store : BlobManager * Disk) (blobHash : bytes) : BlobManager * Disk * res unit :=
  let '(blobManager, disk) := store in
  if negb (ValidHash blobHash) then (blobManager, disk, Err "invalid blob hash")
  else if Has blobManager blobHash then (blobManager, disk, Ok tt)
  else if negb (bm_fetch blobManager) then (blobManager, disk, Err "no fetcher is configured for blob")
  else
    match network blobHash with
    | Ok data =>
        let '(blobManager, disk, s) :=
          storeFetched (failureAt faults blobHash) (writtenAt faults blobHash) (temporaryAt faults blobHash)
            blobManager disk blobHash data in
        (blobManager, disk, match s with Left err => err | _ => Ok tt end)
    | Err e => (blobManager, disk, Err e)
    | Panic => (blobManager, disk, Panic)
    | NoFuel => (blobManager, disk, NoFuel)
    end.
#[export] Instance managerStore : BlobStore (BlobManager * Disk) := {|
  store_Has store h := Has store.1 h;
  store_Ensure := ensureAlone;
  store_GetLocal store h := get store.1 store.2 h
|}.
End store.

(** ** Near streams *)

Lemma collidingFrom_add m a b : collidingFrom m a b = m + collidingFrom 0 a b.
Proof.
  revert m b. induction a as [|x a IH]; intros m [|y b]; cbn [collidingFrom]; try lia.
  destruct (_ =? 0); [|lia]. rewrite (IH (m + 8)), (IH (0 + 8)). lia.
Qed.
Lemma LeadingZeros8_spec d k n r :
  0 < d < 256 -> 0 <= k <= 8 * (n + 1) -> 0 <= n -> 0 <= r < 256 ^ n ->
  (k <= LeadingZeros8 d <-> d * 256 ^ n + r < 2 ^ (8 * (n + 1) - k)).
Proof.
  intros Hd Hk Hn Hr. unfold LeadingZeros8. destruct (Z.eqb_spec d 0); [lia|].
  assert (256 ^ n = 2 ^ (8 * n)) as E by (rewrite Z.pow_mul_r by lia; done).
  pose proof (Z.log2_spec d ltac:(lia)) as [Hlo Hhi].
  assert (0 <= Z.log2 d < 8) as Hlog by (split; [apply Z.log2_nonneg|apply Z.log2_lt_pow2; lia]).
  assert (0 < 2 ^ (8 * n)) by (apply Z.pow_pos_nonneg; lia). rewrite E in *. split.
  - intros Hle. assert (d + 1 <= 2 ^ (8 - k)).
    { enough (2 ^ Z.succ (Z.log2 d) <= 2 ^ (8 - k)) by lia. apply Z.pow_le_mono_r; lia. }
    replace (8 * (n + 1) - k) with ((8 - k) + 8 * n) by lia. rewrite Z.pow_add_r by lia. nia.
  - intros Hlt. destruct (Z.le_gt_cases k (7 - Z.log2 d)) as [|Hgt]; [done|exfalso].
    assert (2 ^ (8 * (n + 1) - k) <= 2 ^ Z.log2 d * 2 ^ (8 * n)); [|nia].
    rewrite <- Z.pow_add_r by lia. apply Z.pow_le_mono_r; lia.
Qed.
(** The prefix in common has [k] bits exactly when the distance leaves them zero. *)
Lemma CollidingPrefixBits_spec a b k :
  length a = length b -> 0 <= k <= 8 * blen a ->
  (k <= CollidingPrefixBits a b <-> be_value (Distance a b) < 2 ^ (8 * blen a - k)).
Proof.
  unfold CollidingPrefixBits. revert b k. induction a as [|x a IH]; intros [|y b] k Hl Hk; cbn [length] in Hl; try lia.
  - rewrite blen_nil in Hk. assert (k = 0) as -> by lia. by split.
  - injection Hl as Hl. rewrite blen_cons in *. pose proof (blen_nonneg a).
    change (Distance (x :: a) (y :: b)) with (byt (Z.lxor (Zb x) (Zb y)) :: Distance a b).
    assert (blen (Distance a b) = blen a) as Elen by (unfold blen, Distance; by rewrite length_zip_with, Hl, Nat.min_id).
    pose proof (be_value_range (Distance a b)) as Hr. rewrite be_value_cons, Elen in *.
    rewrite Zb_byt_id by apply lxor_byte. pose proof (lxor_byte x y). cbn [collidingFrom].
    destruct (Z.eqb_spec (Z.lxor (Zb x) (Zb y)) 0) as [->|Hne].
    + rewrite collidingFrom_add, Z.mul_0_l, Z.add_0_l. destruct (Z.le_gt_cases 8 k).
      * replace (8 * (1 + blen a) - k) with (8 * blen a - (k - 8)) by lia.
        pose proof (IH b (k - 8) Hl ltac:(lia)). lia.
      * split; [|pose proof (IH b 0 Hl ltac:(lia)) as [_ Hzero]; intros _; cut (0 <= collidingFrom 0 a b); [lia|];
          apply Hzero; rewrite Z.sub_0_r, Z.pow_mul_r by lia; apply Hr].
        intros _. eapply Z.lt_le_trans; [apply Hr|]. change 256 with (2 ^ 8). rewrite <- Z.pow_mul_r by lia.
        apply Z.pow_le_mono_r; lia.
    + rewrite Z.add_0_l. replace (1 + blen a) with (blen a + 1) by lia. apply LeadingZeros8_spec; lia.
Qed.

(** ** One download at a time *)

Lemma chooseStream_spec has nodeID hashes hashText :
  chooseStream has nodeID hashes = Some hashText <->
  exists before hash after, hashes = before ++ hash :: after /\ hashText = hexEncode hash /\
    has hashText = false /\ MinimumPrefixBits <= CollidingPrefixBits nodeID hash /\
    Forall (fun h => has (hexEncode h) = true \/ CollidingPrefixBits nodeID h < MinimumPrefixBits) before.
Proof.
  induction hashes as [|h hashes IH]; cbn [chooseStream].
  - split; [done|]. by intros ([|] & ? & ? & [=] & _).
  - assert (has (hexEncode h) = true \/ CollidingPrefixBits nodeID h < MinimumPrefixBits ->
      ((exists before hash after, hashes = before ++ hash :: after /\ hashText = hexEncode hash /\
         has hashText = false /\ MinimumPrefixBits <= CollidingPrefixBits nodeID hash /\
         Forall (fun h => has (hexEncode h) = true \/ CollidingPrefixBits nodeID h < MinimumPrefixBits) before) <->
       (exists before hash after, h :: hashes = before ++ hash :: after /\ hashText = hexEncode hash /\
         has hashText = false /\ MinimumPrefixBits <= CollidingPrefixBits nodeID hash /\
         Forall (fun h => has (hexEncode h) = true \/ CollidingPrefixBits nodeID h < MinimumPrefixBits) before))) as Hskip.
    { intros Hh. split.
      - intros (before & hash & after & -> & Hrest). exists (h :: before), hash, after. cbn. naive_solver.
      - intros ([|h' before] & hash & after & [= -> ->] & -> & Hhas & Hbits & Hall); [exfalso; destruct Hh; [congruence|lia]|].
        apply Forall_cons in Hall as [_ Hall]. exists before, hash, after. done. }
    destruct (has (hexEncode h)) eqn:Ehas; [rewrite IH; apply Hskip; by left|].
    destruct (Z.ltb_spec (CollidingPrefixBits nodeID h) MinimumPrefixBits); [rewrite IH; apply Hskip; by right|].
    split.
    + intros [= <-]. by exists [], h, hashes.
    + intros ([|h' before] & hash & after & [= -> ->] & -> & Hhas & Hbits & Hall); [done|].
      apply Forall_cons in Hall as [[Hh|Hh] _]; [congruence|lia].
Qed.

(** ** What a download leaves *)

Section complete.
Context `{BlobStoreLaws}.

Lemma ensureBlobs_spec w items count size w' count' size' :
  store_ok w -> ensureBlobs w items count size = (w', (count', size', Ok tt)) ->
  store_ok w' /\ count' = count + blen items /\
  Forall (fun item => store_Has w' (b_BlobHash item) = true) items /\
  (forall h, store_Has w h = true -> store_Has w' h = true) /\
  (forall h data, store_GetLocal w h = Some data -> store_GetLocal w' h = Some data \/ blobCollision).
Proof.
  revert w count size. induction items as [|item items IH]; intros w count size Hok; cbn [ensureBlobs].
  - intros [= -> -> ->]. rewrite blen_nil. split_and!; [done|lia|constructor|done|by left].
  - destruct (store_Ensure w (b_BlobHash item)) as [w1 r] eqn:E. destruct r as [[]| | |]; try done. intros Hrec.
    pose proof (ensure_ok _ _ _ _ Hok E) as Hok1. destruct (IH _ _ _ Hok1 Hrec) as (Hok' & Hc & Hall & Hk & Hd).
    rewrite blen_cons. split_and!; [done|lia| | |].
    + constructor; [|done]. apply Hk. exact (ensure_has _ _ _ Hok E).
    + intros h Hh. apply Hk. exact (ensure_keeps _ _ _ _ _ Hok E Hh).
    + intros h data Hg. destruct (ensure_keeps_data _ _ _ _ _ _ Hok E Hg); [by apply Hd|by right].
Qed.
Lemma downloadStream_spec w sdHash w' count size :
  store_ok w -> downloadStream w sdHash = (w', (count, size, Ok tt)) ->
  store_ok w' /\ store_Has w' sdHash = true /\
  exists data descriptor, DecodeDescriptor sdHash data = Ok descriptor /\ hashBytes data = sdHash /\
    (store_GetLocal w' sdHash = Some data \/ blobCollision) /\
    count = 1 + blen (removelast (sd_Blobs descriptor)) /\
    Forall (fun item => store_Has w' (b_BlobHash item) = true) (removelast (sd_Blobs descriptor)).
Proof.
  intros Hok. unfold downloadStream. destruct (store_Ensure w sdHash) as [w1 r] eqn:E. destruct r as [[]| | |]; try done.
  pose proof (ensure_ok _ _ _ _ Hok E) as Hok1. pose proof (ensure_has _ _ _ Hok E) as Hhas.
  destruct (store_GetLocal w1 sdHash) as [data|] eqn:Eg; [|done].
  destruct (DecodeDescriptor sdHash data) as [descriptor| | |] eqn:Ed; try done.
  intros (Hok' & -> & Hall & Hk & Hd)%ensureBlobs_spec; [|done].
  split_and!; [done|by apply Hk|]. exists data, descriptor. split_and!; [done|exact (local_hash _ _ _ Hok1 Eg)|by apply Hd|done|done].
Qed.
End complete.

Section managerLaws.
Context `{Digests} (faults : diskFaults) (network : bytes -> res bytes) (Hfaults : temporaries faults).

Lemma ensureAlone_cases store blobHash m' d' r :
  ensureAlone faults network store blobHash = (m', d', r) ->
  ((m', d') = store /\ (r = Ok tt -> Has store.1 blobHash = true)) \/
  exists data, network blobHash = Ok data /\ Has store.1 blobHash = false /\
    setWith faults store.1 store.2 blobHash data = (m', d', r).
Proof.
  destruct store as [m d]. unfold ensureAlone. destruct (negb (ValidHash blobHash)); [intros [= <- <- <-]; by left|].
  destruct (Has m blobHash) eqn:Eh; [intros [= <- <- <-]; by left|].
  destruct (negb (bm_fetch m)); [intros [= <- <- <-]; by left|].
  destruct (network blobHash) as [data| | |]; [|intros [= <- <- <-]; by left..].
  destruct (storeFetched _ _ _ _ _ _ _) as [[m1 d1] s] eqn:Es. intros [= <- <- <-].
  apply storeFetched_Set in Es as [(-> & -> & e & ->)|(r1 & HS & ->)]; [by left|right].
  exists data. split_and!; [done|done|]. unfold setWith. cbn [fst snd]. rewrite HS. by destruct r1 as [[]| | |].
Qed.
Lemma Has_Set m d h data m' d' r h' :
  setWith faults m d h data = (m', d', r) -> Has m h' = true -> Has m' h' = true.
Proof.
  intros [(_ & _ & _ & E)|(_ & -> & _)]%Set_spec; [|done]. unfold Has. rewrite !bool_decide_eq_true.
  destruct (bm_persist m); destruct E as [-> _]; cbn; rewrite lookup_insert_is_Some'; by right.
Qed.
Lemma Has_stored m d h data m' d' : setWith faults m d h data = (m', d', Ok tt) -> Has m' h = true.
Proof.
  intros [(_ & _ & _ & E)|([? [=]] & _)]%Set_spec. unfold Has. rewrite bool_decide_eq_true.
  destruct (bm_persist m); destruct E as [-> _]; cbn; rewrite lookup_insert_is_Some'; by left.
Qed.

Definition managerLaws : @BlobStoreLaws _ _ (managerStore faults network).
Proof.
  refine {| store_ok := fun store : BlobManager * Disk => heldOk store.1 |}.
  - intros w h [m' d'] r Hok [[<- _]|(data & _ & _ & HS)]%ensureAlone_cases; [done|]. by eapply heldOk_Set.
  - intros w h [m' d'] Hok [[<- Hh]|(data & _ & _ & HS)]%ensureAlone_cases; [by apply Hh|]. by eapply Has_stored.
  - intros w h [m' d'] r h' Hok [[<- _]|(data & _ & _ & HS)]%ensureAlone_cases; [done|]. by eapply Has_Set.
  - intros w h [m' d'] r h' data Hok [[<- _]|(data' & _ & _ & HS)]%ensureAlone_cases; [by left|].
    intros Hg. by eapply (get_Set _ _ _ _ _ _ _ _ _ _ _ _ Hok (Hfaults h) HS).
  - intros [m d] h data Hok. by apply get_hash.
Defined.
End managerLaws.

(** ** A stream from one node to another *)

Section transfer.
Context `{Digests} (faults : diskFaults) (network : bytes -> res bytes) (Hfaults : temporaries faults).

(** [Ensure] alone is a run of the moves of [BlobFlights]: the caller starts a
    flight, the goroutine runs to its end, the caller is answered. *)
Definition alone (blobHash : bytes) (blobManager : BlobManager) (disk : Disk) (s : stage) : world :=
  MkWorld (withInFlight blobManager {[blobHash := 0%nat]}) disk {[0%nat := newFlight]}
    {[0%nat := MkGoroutine blobHash s]} {[1%nat := (blobHash, 0%nat)]} ∅.
Lemma alone_toStage h m d s s' : toStage (alone h m d s) 0 h s' = w_Goroutines (alone h m d s').
Proof. unfold toStage, alone. cbn. apply insert_insert_eq. Qed.
Lemma alone_left h m d err :
  exists w, run [Finish 0; Answer 1 err] (alone h m d (Left err)) w /\
    bm_blobs (w_Manager w) = bm_blobs m /\ w_Disk w = d.
Proof.
  destruct (left_run (alone h m d (Left err)) 1 h 0 err) as (w & Hr & Eb & _ & Ed); [split_and!; [done|done|by eexists]|].
  by exists w.
Qed.
Lemma alone_receive h m d (r : bytes + string) :
  step (Receive 0) (alone h m d Fetching) (alone h m d match r with inl data => Fetched data | inr e => Left (Err e) end).
Proof.
  pose proof (StepReceive (alone h m d Fetching) 0 h r eq_refl) as Hs. rewrite alone_toStage in Hs. exact Hs.
Qed.
Lemma Ensure_inFlight fresh m flights h :
  bm_inFlight m = ∅ ->
  Ensure fresh m flights h =
    if negb (ValidHash h) then (m, flights, Returns (Err "invalid blob hash"))
    else if Has m h then (m, flights, Returns (Ok tt))
    else if negb (bm_fetch m) then (m, flights, Returns (Err "no fetcher is configured for blob"))
    else (withInFlight m {[h := fresh]}, <[fresh := newFlight]> flights, StartsFlight fresh).
Proof.
  intros Hi. unfold Ensure. rewrite Hi, lookup_empty.
  assert (withInFlight m ∅ = m) as -> by (rewrite <- Hi; by destruct m). done.
Qed.
Lemma ensureAlone_run blobManager disk blobHash blobManager' disk' r :
  bm_inFlight blobManager = ∅ -> bm_records blobManager = false -> returns (network blobHash) ->
  ensureAlone faults network (blobManager, disk) blobHash = (blobManager', disk', r) ->
  exists ms w, run ms (initial blobManager disk) w /\
    (Answer 1 r ∈ ms \/ Call 1 blobHash (Returns r) ∈ ms) /\
    bm_blobs (w_Manager w) = bm_blobs blobManager' /\ w_Disk w = disk'.
Proof.
  intros Hi Hrec Hnet. unfold ensureAlone.
  pose proof (Ensure_inFlight 0 blobManager ∅ blobHash Hi) as E.
  assert (forall e, Ensure 0 blobManager ∅ blobHash = (blobManager, ∅, Returns e) ->
    exists ms w, run ms (initial blobManager disk) w /\
      (Answer 1 e ∈ ms \/ Call 1 blobHash (Returns e) ∈ ms) /\
      bm_blobs (w_Manager w) = bm_blobs blobManager /\ w_Disk w = disk) as Hreturns.
  { intros e Ee. exists [Call 1 blobHash (Returns e)], (initial blobManager disk).
    split_and!; [|right; apply elem_of_cons; by left|done|done].
    eapply RunCons; [|constructor]. by apply (StepCall (initial blobManager disk) 1 blobHash 0 blobManager ∅ (Returns e)). }
  destruct (negb (ValidHash blobHash)); [intros [= <- <- <-]; by apply Hreturns|].
  destruct (Has blobManager blobHash); [intros [= <- <- <-]; by apply Hreturns|].
  destruct (negb (bm_fetch blobManager)); [intros [= <- <- <-]; by apply Hreturns|].
  assert (step (Call 1 blobHash (StartsFlight 0)) (initial blobManager disk) (alone blobHash blobManager disk Fetching)) as Hcall
    by by apply (StepCall (initial blobManager disk) 1 blobHash 0 _ _ (StartsFlight 0)).
  assert (forall ms m d err, (forall w, run [Finish 0; Answer 1 err] (alone blobHash m d (Left err)) w ->
              run (ms ++ [Finish 0; Answer 1 err]) (alone blobHash blobManager disk Fetching) w) ->
    exists ms w, run ms (initial blobManager disk) w /\
      (Answer 1 err ∈ ms \/ Call 1 blobHash (Returns err) ∈ ms) /\ bm_blobs (w_Manager w) = bm_blobs m /\ w_Disk w = d) as Hend.
  { intros ms m d err Hr. destruct (alone_left blobHash m d err) as (w & Hl & Eb & Ed).
    exists (Call 1 blobHash (StartsFlight 0) :: ms ++ [Finish 0; Answer 1 err]), w.
    split_and!; [|left; rewrite elem_of_cons, elem_of_app, !elem_of_cons; tauto|done|done].
    eapply RunCons; [exact Hcall|]. by apply Hr. }
  destruct (network blobHash) as [data|e| |]; [|intros [= <- <- <-]|done..].
  - destruct (storeFetched _ _ _ blobManager disk blobHash data) as [[m d] s] eqn:Es. intros [= <- <- <-].
    assert (step (Store 0) (alone blobHash blobManager disk (Fetched data)) (alone blobHash m d s)) as Hstore.
    { pose proof (fun bm dk st Hs => StepStore (alone blobHash blobManager disk (Fetched data)) 0 blobHash data
        (failureAt faults blobHash) (writtenAt faults blobHash) (temporaryAt faults blobHash) bm dk st eq_refl (Hfaults blobHash) Hs) as Hs.
      specialize (Hs (withInFlight m {[blobHash := 0%nat]}) d s). rewrite alone_toStage in Hs. apply Hs. clear Hs.
      cbn [w_Manager w_Disk alone]. unfold storeFetched, Set_ in *. destruct (negb _); [by injection Es as <- <- <-|].
      destruct (_ || _); [by injection Es as <- <- <-|]. destruct (_ || _); [by injection Es as <- <- <-|]. cbn in *.
      destruct (bm_persist blobManager); [|by injection Es as <- <- <-].
      destruct (writePersistent _ _ _ _ _ _) as [states [| | |]]; by injection Es as <- <- <-. }
    assert (s = Stored \/ exists r, s = Left r) as [->|[r ->]].
    { apply storeFetched_Set in Es as [(_ & _ & e & ->)|(r & _ & ->)]; [right; eauto|]. destruct r; eauto. }
    + assert (bm_records m = false) as Hrec'.
      { apply storeFetched_Set in Es as [(-> & _)|(r & [(_ & _ & _ & Eb)|(_ & -> & _)]%Set_spec & _)]; [done| |done].
        by destruct (bm_persist blobManager); destruct Eb as [-> _]. }
      pose proof (StepNoRecord (alone blobHash m d Stored) 0 blobHash eq_refl Hrec') as Hrecord. rewrite alone_toStage in Hrecord.
      apply (Hend [Receive 0; Store 0; Record_ 0]). intros w Hr. cbn [app].
      eapply RunCons; [by apply (alone_receive _ _ _ (inl data))|]. eapply RunCons; [exact Hstore|]. by eapply RunCons.
    + apply (Hend [Receive 0; Store 0]). intros w Hr. cbn [app].
      eapply RunCons; [by apply (alone_receive _ _ _ (inl data))|]. by eapply RunCons.
  - apply (Hend [Receive 0]). intros w Hr. cbn [app]. eapply RunCons; [by apply (alone_receive _ _ _ (inr e))|done].
Qed.

(** ** The whole way

    A downloader whose files are intact, whose writes succeed, and whose fetcher
    asks a peer that has the blobs. *)

Definition ready (store : BlobManager * Disk) : Prop :=
  heldOk store.1 /\ bm_fetch store.1 = true /\
  forall h, Has store.1 h = true -> is_Some (get store.1 store.2 h).
(** The peer's blob. *)
Definition offers (h data : bytes) : Prop :=
  network h = Ok data /\ hashBytes data = h /\ 0 < blen data <= MaxBlobSize.

Context (Hwrites : forall h, failureAt faults h = None).

Lemma get_Has m d h data : get m d h = Some data -> Has m h = true.
Proof. unfold get, Has. destruct (bm_blobs m !! h); [by intros|done]. Qed.
Lemma hash_plain data : plainString (hashBytes data) = true.
Proof. apply plainString_hex. Qed.
Lemma ensureAlone_gets store h data :
  ready store -> offers h data ->
  exists store', ensureAlone faults network store h = (store', Ok tt) /\ ready store' /\
    (get store'.1 store'.2 h = Some data \/ blobCollision) /\
    (forall h' d, get store.1 store.2 h' = Some d -> get store'.1 store'.2 h' = Some d).
Proof.
  destruct store as [m d]. intros (Hok & Hf & Hintact) (Hnet & Hh & Hlen). cbn [fst snd] in *. unfold ensureAlone.
  assert (ValidHash h = true) as -> by (rewrite <- Hh; apply hashBytes_valid). cbn [negb]. destruct (Has m h) eqn:Ehas.
  - exists (m, d). split_and!; [done|done| |done]. destruct (Hintact h Ehas) as [data' Hg]. cbn. rewrite Hg.
    pose proof (get_hash _ _ _ _ Hok Hg) as Hh'. destruct (hash_or_collision data' data) as [->|]; [congruence|by left|by right].
  - rewrite Hf, Hnet. cbn [negb]. unfold storeFetched. rewrite bool_decide_eq_true_2 by done. cbn [negb].
    pose proof (setBlobs_Ok faults m d [(h, data)] Hwrites ltac:(by constructor)) as HS. cbn [setBlobs] in HS.
    unfold setWith in HS. destruct (Set_ _ _ _ m d h data) as [[m' d'] r] eqn:E.
    assert (r = Ok tt) as -> by (destruct r as [[]| | |]; done).
    exists (m', d'). cbn [fst snd]. pose proof (get_stored _ _ _ _ _ _ _ _ _ Hok E) as Hget.
    assert (forall h', canonicalBlobHash h' = true -> h' <> h -> get m' d' h' = get m d h') as Hother.
    { intros h' Hc Hne. eapply get_Set_ne; [|exact Hne|exact E]. intros <-. specialize (Hfaults h). congruence. }
    assert (bm_fetch m' = true) as Hf'.
    { apply Set_spec in E as [(_ & _ & _ & E)|(_ & -> & _)]; [|done]. by destruct (bm_persist m); destruct E as [-> _]. }
    split_and!; [done| |by left|].
    + split_and!; [by eapply heldOk_Set|done|]. cbn. intros h' Hhas'. destruct (decide (h' = h)) as [->|Hne]; [by rewrite Hget|].
      assert (bm_blobs m' !! h' = bm_blobs m !! h') as Eb.
      { pose proof E as [(_ & _ & _ & Es)|(_ & -> & _)]%Set_spec; [|done].
        destruct (bm_persist m); destruct Es as [-> _]; cbn; by rewrite lookup_insert_ne. }
      unfold Has in Hhas'. apply bool_decide_eq_true in Hhas'. rewrite Eb in Hhas'. destruct Hhas' as [v Hv].
      rewrite Hother; [|by eapply (proj2 Hok)|done]. apply Hintact. unfold Has. apply bool_decide_eq_true. by rewrite Hv.
    + intros h' d0 Hg. rewrite Hother; [done| |].
      * rewrite <- (get_hash _ _ _ _ Hok Hg). apply hashBytes_canonical.
      * intros ->. apply get_Has in Hg. congruence.
Qed.

#[local] Existing Instance managerStore.
Lemma ensureBlobs_gets store items count size :
  ready store -> Forall (fun item => exists data, offers (b_BlobHash item) data) items ->
  exists store' size', @ensureBlobs _ (managerStore faults network) store items count size
      = (store', (count + blen items, size', Ok tt)) /\ ready store' /\
    Forall (fun item => forall data, offers (b_BlobHash item) data ->
              get store'.1 store'.2 (b_BlobHash item) = Some data \/ blobCollision) items /\
    (forall h d, get store.1 store.2 h = Some d -> get store'.1 store'.2 h = Some d).
Proof.
  intros Hready Hall. revert store count size Hready.
  induction Hall as [|item items [data Hoff] _ IH]; intros store count size Hready; cbn [ensureBlobs].
  - exists store, size. rewrite blen_nil, Z.add_0_r. by split_and!.
  - destruct (ensureAlone_gets store (b_BlobHash item) data Hready Hoff) as (store1 & E & Hready1 & Hg1 & Hk1).
    cbn [store_Ensure managerStore]. rewrite E.
    destruct (IH store1 (count + 1) (i64 (size + b_Length item)) Hready1) as (store' & size' & -> & Hready' & Hg & Hk).
    exists store', size'. rewrite blen_cons, Z.add_assoc. split_and!; [done|done| |by auto].
    constructor; [|done]. intros data' (Hnet & _). destruct Hoff as (Hnet' & _). assert (data' = data) as -> by congruence.
    destruct Hg1 as [Hg1|]; [left; by apply Hk|by right].
Qed.
End transfer.


(** ** When it downloads *)

(** A poll starts a download only if none is running and there is room, of a
    stream that is not held and shares at least a byte with the identity of the
    node: its distance is below [2 ^ 376].  It starts one if such a stream is stored. *)
Theorem poll_spec manager available has nodeID hashes :
  exists manager', poll manager (Ok available) has nodeID hashes = Ok manager' /\
    bd_SpaceAvailable manager' = Some available /\
    match bd_Worker manager with
    | Some worker => bd_Worker manager' = Some worker
    | None =>
        match bd_Worker manager' with
        | Some hashText =>
            MinimumFreeSpaceMB < available /\
            exists hash, hash ∈ hashes /\ hashText = hexEncode hash /\ has hashText = false /\
              (length nodeID = HashSize -> length hash = HashSize -> be_value (Distance nodeID hash) < 2 ^ 376)
        | None =>
            available <= MinimumFreeSpaceMB \/
            forall hash, hash ∈ hashes -> has (hexEncode hash) = true \/ CollidingPrefixBits nodeID hash < MinimumPrefixBits
        end
    end.
Proof.
  unfold poll. cbn [mbind res_bind]. destruct (Z.leb_spec available MinimumFreeSpaceMB) as [Hlow|Hroom].
  { eexists. split_and!; [done|done|]. cbn. destruct (bd_Worker manager); [done|by left]. }
  unfold ongoing. cbn [bd_Worker]. destruct (bd_Worker manager) as [worker|] eqn:Ew.
  { eexists. split_and!; [done|done|]. done. }
  destruct (chooseStream has nodeID hashes) as [hashText|] eqn:Ec; eexists; (split_and!; [done|done|]); cbn.
  - split; [done|]. apply chooseStream_spec in Ec as (before & hash & after & -> & -> & Hhas & Hbits & _).
    exists hash. split_and!; [set_solver|done|done|]. intros Hn Hh.
    apply (CollidingPrefixBits_spec nodeID hash MinimumPrefixBits) in Hbits; [|congruence|].
    + unfold blen in Hbits. by rewrite Hn in Hbits.
    + unfold blen, MinimumPrefixBits. rewrite Hn. done.
  - right. induction hashes as [|h hashes IH]; [by intros ? ?%not_elem_of_nil|]. cbn [chooseStream] in Ec.
    destruct (has (hexEncode h)) eqn:Eh; [|destruct (Z.ltb_spec (CollidingPrefixBits nodeID h) MinimumPrefixBits); [|done]];
      intros hash [->|Hin]%elem_of_cons; auto.
Qed.

(** ** Witness *)

#[local] Existing Instance exampleDigests.
Lemma example_ready : ready (SetFetcher NewManager true, ∅).
Proof. split_and!; [split; [done|by intros ? ? [=]]|done|by intros h]. Qed.
