(* ===== verification/DiskSpace.v ===== *)
(** * Disk space

    Model of [diskspace/manager.go] and of what it calls in
    [database/managed_streams.go]: how much of the disk the blobs use, and which
    blobs are deleted when it is too much.  The tables are those of the daemon's
    database; a statement is a function on them. *)

From stdpp Require Import sorting.
From S2P Require Import Prelude Hex Digest Aes Json Stream BlobManager BackgroundDownloader.

Definition megabyte : Z := 1024 * 1024.

(** ** The tables *)

(** A row of [blob], the columns that announcing uses left out. *)
Record BlobRow := MkBlobRow { br_Length : Z; br_Finished : bool; br_AddedOn : Z; br_IsMine : bool }.
(** [stream] has a stream hash and the hash of its descriptor, [stream_blob] a
    stream hash and the hash of a blob, null for the terminator, [file] a stream
    hash, null for a torrent, and whether its status is stopped. *)
Record ManagedTables := MkTables {
  t_Blob : gmap bytes BlobRow;
  t_Stream : list (bytes * bytes);
  t_StreamBlob : list (bytes * option bytes);
  t_File : list (option bytes * bool)
}.

(** [blob LEFT JOIN stream_blob USING (blob_hash)]: a row of [blob] with each
    stream it is in, or once with null. *)
Record JoinedRow := MkJoined { j_Hash : bytes; j_Row : BlobRow; j_Stream : option bytes }.
Definition streamsOf (tables : ManagedTables) (hash : bytes) : list bytes :=
  omap (fun e : bytes * option bytes => if bool_decide (e.2 = Some hash) then Some e.1 else None) (t_StreamBlob tables).
Definition leftJoin (tables : ManagedTables) : list JoinedRow :=
  flat_map (fun e : bytes * BlobRow =>
              match streamsOf tables e.1 with
              | [] => [MkJoined e.1 e.2 None]
              | streams => map (fun s => MkJoined e.1 e.2 (Some s)) streams
              end) (map_to_list (t_Blob tables)).
Definition sumLengths (rows : list JoinedRow) : Z := foldr Z.add 0 (map (fun j => br_Length (j_Row j)) rows).

(** Finished blobs that are not descriptors. *)
Definition counted (tables : ManagedTables) (j : JoinedRow) : bool :=
  negb (bool_decide (j_Hash j ∈ map snd (t_Stream tables))) && br_Finished (j_Row j).
Definition inNetwork (j : JoinedRow) : bool := if j_Stream j is None then true else false.
Definition storedBlobUsage (tables : ManagedTables) (network : bool) : Z :=
  sumLengths (List.filter (fun j => counted tables j && Bool.eqb (inNetwork j) network) (leftJoin tables)).

Record BlobDiskUsage := MkUsage { u_Total : Z; u_Network : Z; u_Content : Z; u_Private : Z }.
Definition StoredBlobDiskUsage (tables : ManagedTables) : BlobDiskUsage :=
  let rows := List.filter (counted tables) (leftJoin tables) in
  let mine j := br_IsMine (j_Row j) in
  MkUsage (sumLengths rows) (sumLengths (List.filter inNetwork rows))
    (sumLengths (List.filter (fun j => negb (inNetwork j) && negb (mine j)) rows)) (sumLengths (List.filter mine rows)).

(** ** Candidates *)

Record storedBlobCandidate := MkCandidate { c_Hash : bytes; c_Length : Z; c_AddedOn : Z }.
Definition candidateOf (hash : bytes) (row : BlobRow) : storedBlobCandidate :=
  MkCandidate hash (br_Length row) (br_AddedOn row).
Definition hasFile (tables : ManagedTables) (streamHash : bytes) : list unit :=
  omap (fun f : option bytes * bool => if bool_decide (f.1 = Some streamHash) then Some tt else None) (t_File tables).
Inductive candidateQuery := NetworkBlobs | ContentBlobsQuery | Descriptors.
Definition candidateRows (tables : ManagedTables) (query : candidateQuery) : list storedBlobCandidate :=
  match query with
  | NetworkBlobs =>
      map (fun j => candidateOf (j_Hash j) (j_Row j))
        (List.filter (fun j => inNetwork j && negb (br_IsMine (j_Row j)) && br_Finished (j_Row j)) (leftJoin tables))
  | ContentBlobsQuery =>
      flat_map (fun j =>
                  match j_Stream j with
                  | Some streamHash =>
                      if negb (br_IsMine (j_Row j)) && br_Finished (j_Row j) then
                        flat_map (fun s : bytes * bytes =>
                                    if bool_decide (s.1 = streamHash)
                                    then map (fun _ => candidateOf (j_Hash j) (j_Row j)) (hasFile tables streamHash) else [])
                          (t_Stream tables)
                      else []
                  | None => []
                  end) (leftJoin tables)
  | Descriptors =>
      flat_map (fun s : bytes * bytes =>
                  match t_Blob tables !! s.2 with
                  | Some row => if br_IsMine row then [] else map (fun _ => candidateOf s.2 row) (hasFile tables s.1)
                  | None => []
                  end) (t_Stream tables)
  end.
Definition candidateOrder (query : candidateQuery) (c d : storedBlobCandidate) : Prop :=
  match query with
  | NetworkBlobs => c_Length d < c_Length c \/ (c_Length c = c_Length d /\ c_AddedOn c <= c_AddedOn d)
  | ContentBlobsQuery => c_AddedOn c < c_AddedOn d \/ (c_AddedOn c = c_AddedOn d /\ c_Length c <= c_Length d)
  | Descriptors => c_AddedOn c <= c_AddedOn d
  end.
(** SQLite returns the rows sorted, and otherwise in an order of its choice. *)
Class CandidateOrder := {
  orderCandidates : candidateQuery -> list storedBlobCandidate -> list storedBlobCandidate;
  orderCandidates_perm query rows : orderCandidates query rows ≡ₚ rows;
  orderCandidates_sorted query rows : StronglySorted (candidateOrder query) (orderCandidates query rows)
}.

(** ** Cleaning *)

Section clean.
Context `{CandidateOrder}.

Definition queryStoredBlobCandidates (tables : ManagedTables) (query : candidateQuery) : list storedBlobCandidate :=
  orderCandidates query (candidateRows tables query).
Definition storedBlobCandidates (tables : ManagedTables) (network : bool) : list storedBlobCandidate :=
  if network then queryStoredBlobCandidates tables NetworkBlobs
  else queryStoredBlobCandidates tables ContentBlobsQuery ++ queryStoredBlobCandidates tables Descriptors.

(** Candidates up to the one that makes enough room. *)
Fixpoint takeCandidates (available : Z) (candidates : list storedBlobCandidate) : list bytes :=
  match candidates with
  | [] => []
  | candidate :: candidates =>
      let available := i64 (available + Z.quot (c_Length candidate) megabyte) in
      c_Hash candidate :: (if 0 <=? available then [] else takeCandidates available candidates)
  end.
Definition cleanup (tables : ManagedTables) (network : bool) (limit : Z) : list bytes :=
  if negb network && (limit =? 0) then []
  else
    let available := i64 (limit - Z.quot (storedBlobUsage tables network) megabyte) in
    if network && (0 <=? available) then []
    else takeCandidates available (storedBlobCandidates tables network).
Definition stopFiles (tables : ManagedTables) : ManagedTables :=
  MkTables (t_Blob tables) (t_Stream tables) (t_StreamBlob tables) (map (fun f => (f.1, true)) (t_File tables)).
Definition deleteBlobRow (tables : ManagedTables) (hash : bytes) : ManagedTables :=
  MkTables (delete hash (t_Blob tables)) (t_Stream tables) (t_StreamBlob tables) (t_File tables).
(** The statements that delete the rows; [fails n] is the error of the [n]th. *)
Fixpoint deleteRows (fails : nat -> option string) (n : nat) (tables : ManagedTables) (hashes : list bytes)
  : ManagedTables * option string :=
  match hashes with
  | [] => (tables, None)
  | hash :: hashes =>
      match fails n with
      | Some e => (tables, Some e)
      | None => deleteRows fails (S n) (deleteBlobRow tables hash) hashes
      end
  end.
Definition joinErrors (errors : list string) : string := String.concat "; " errors.

Section digests.
Context `{Digests}.
(** [CleanManagedBlobs], whose queries succeed; the statements after them are
    numbered in the order they are executed, [remove] is the removal of files. *)
Definition CleanManagedBlobs (fails : nat -> option string) (remove : bytes -> option string)
    (tables : ManagedTables) (manager : BlobManager) (disk : Disk) (contentLimitMB networkLimitMB : Z)
  : ManagedTables * BlobManager * Disk * res Z :=
  let deleted := cleanup tables false contentLimitMB ++ cleanup tables true networkLimitMB in
  match fails 0%nat with
  | Some e => (tables, manager, disk, Err e)
  | None =>
      match (match deleted with [] => None | _ => fails 1%nat end) with
      | Some e => (tables, manager, disk, Err e)
      | None =>
          let tables := match deleted with [] => tables | _ => stopFiles tables end in
          let '(manager, disk, errors) := Delete remove manager disk deleted in
          match errors with
          | [] =>
              match deleteRows fails 2 tables deleted with
              | (tables, Some e) => (tables, manager, disk, Err e)
              | (tables, None) =>
                  match fails (2 + length deleted)%nat with
                  | Some e => (tables, manager, disk, Err e)
                  | None => (tables, manager, disk, Ok (blen deleted))
                  end
              end
          | errors => (tables, manager, disk, Err (joinErrors errors))
          end
      end
  end.
End digests.
End clean.

(** ** The manager *)

Record Manager := MkManager {
  d_ContentLimit : Z; d_NetworkLimit : Z; d_Running : bool; d_Cached : option BlobDiskUsage
}.
Definition New (contentLimitMB networkLimitMB : Z) : Manager := MkManager contentLimitMB networkLimitMB false None.
Definition setRunning (running : bool) (manager : Manager) : Manager :=
  MkManager (d_ContentLimit manager) (d_NetworkLimit manager) running (d_Cached manager).
Definition setCached (cached : option BlobDiskUsage) (manager : Manager) : Manager :=
  MkManager (d_ContentLimit manager) (d_NetworkLimit manager) (d_Running manager) cached.
(** [stored] is what reading the usage from the store gives. *)
Definition Usage (manager : Manager) (stored : res BlobDiskUsage) (cached : bool) : Manager * res BlobDiskUsage :=
  match (if cached then d_Cached manager else None) with
  | Some usage => (manager, Ok usage)
  | None =>
      match stored with
      | Ok usage => (setCached (Some usage) manager, Ok usage)
      | r => (manager, r)
      end
  end.
(** [Clean]: [pause] is the answer of the download controller, [clean] the store's. *)
Definition Clean (manager : Manager) (pause : res unit) (clean : res Z) : Manager * res Z :=
  match pause with
  | Ok _ => (setCached None manager, clean)
  | Err e => (manager, Err e)
  | Panic => (manager, Panic)
  | NoFuel => (manager, NoFuel)
  end.
Definition FreeSpaceMB (manager : Manager) (stored : res BlobDiskUsage) (network : bool) : Manager * res Z :=
  let '(manager, r) := Usage manager stored false in
  (manager,
   usage ← r;
   let '(used, limit) :=
     if network then (Z.quot (u_Network usage) megabyte, d_NetworkLimit manager)
     else (Z.quot (u_Content usage) megabyte, d_ContentLimit manager) in
   let available := i64 (limit - used) in
   Ok (if 0 <? available then available else 0)).

(** ** What is cleaned *)

Lemma leftJoin_row tables j : j ∈ leftJoin tables -> t_Blob tables !! j_Hash j = Some (j_Row j).
Proof.
  unfold leftJoin. rewrite list_elem_of_In, in_flat_map. intros ([h row] & Hin & Hj).
  apply list_elem_of_In, elem_of_map_to_list in Hin. cbn [fst snd] in Hj.
  destruct (streamsOf tables h) as [|s streams]; [by destruct Hj as [<-|[]]|].
  apply in_map_iff in Hj as (s' & <- & _). done.
Qed.
(** A candidate is a blob of the table that is not the user's own. *)
Definition foreign (tables : ManagedTables) (hash : bytes) : Prop :=
  exists row, t_Blob tables !! hash = Some row /\ br_IsMine row = false.
Lemma candidateRows_foreign tables query c : c ∈ candidateRows tables query -> foreign tables (c_Hash c).
Proof.
  destruct query; cbn [candidateRows]; rewrite list_elem_of_In.
  - intros (j & <- & Hj)%in_map_iff. apply filter_In in Hj as [Hin Hb%andb_true_iff]. destruct Hb as [Hb _].
    apply andb_true_iff in Hb as [_ Hm%negb_true_iff]. exists (j_Row j). split; [|done]. by apply leftJoin_row, list_elem_of_In.
  - intros (j & Hin & Hc)%in_flat_map. destruct (j_Stream j) as [streamHash|]; [|done].
    destruct (br_IsMine (j_Row j)) eqn:Em; [done|]. cbn [negb andb] in Hc. destruct (br_Finished (j_Row j)); [|done].
    apply in_flat_map in Hc as (s & _ & Hc). case_bool_decide; [|done]. apply in_map_iff in Hc as (? & <- & _).
    exists (j_Row j). split; [|done]. by apply leftJoin_row, list_elem_of_In.
  - intros (s & _ & Hc)%in_flat_map. destruct (t_Blob tables !! s.2) as [row|] eqn:E; [|done].
    destruct (br_IsMine row) eqn:Em; [done|]. apply in_map_iff in Hc as (? & <- & _). by exists row.
Qed.

Section cleaned.
Context `{CandidateOrder}.

Lemma query_foreign tables query c : c ∈ queryStoredBlobCandidates tables query -> foreign tables (c_Hash c).
Proof. unfold queryStoredBlobCandidates. rewrite orderCandidates_perm. apply candidateRows_foreign. Qed.
Lemma candidates_foreign tables network c : c ∈ storedBlobCandidates tables network -> foreign tables (c_Hash c).
Proof. unfold storedBlobCandidates. destruct network; rewrite ?elem_of_app; intros; [|destruct_or?]; by eapply query_foreign. Qed.

(** The room there is after deleting candidates. *)
Definition freed (available : Z) (candidates : list storedBlobCandidate) : Z :=
  fold_left (fun a c => i64 (a + Z.quot (c_Length c) megabyte)) candidates available.
(** The candidates taken are the first ones, no more than are needed, and enough
    if there are enough. *)
Lemma takeCandidates_spec available candidates :
  exists n, takeCandidates available candidates = map c_Hash (take n candidates) /\
    (forall k, (0 < k < n)%nat -> freed available (take k candidates) < 0) /\
    (0 <= freed available (take n candidates) \/ (length candidates <= n)%nat) /\
    (candidates <> [] -> (0 < n)%nat).
Proof.
  revert available. induction candidates as [|c candidates IH]; intros available; cbn [takeCandidates].
  - exists 0%nat. split_and!; [done|lia|by right|done].
  - set (a := i64 (available + Z.quot (c_Length c) megabyte)). destruct (Z.leb_spec 0 a) as [Ha|Ha].
    + exists 1%nat. split_and!; [by destruct candidates|lia|left; by destruct candidates|lia].
    + destruct (IH a) as (n & -> & Hk & Hend & _). exists (S n). split_and!; [done| | |lia].
      * intros [|[|k]] Hlt; [lia|by destruct candidates|]. cbn [take freed fold_left]. apply (Hk (S k)). lia.
      * destruct Hend; [by left|right; cbn; lia].
Qed.
Lemma cleanup_foreign tables network limit h : h ∈ cleanup tables network limit -> foreign tables h.
Proof.
  unfold cleanup. destruct (_ && _); [by intros ?%not_elem_of_nil|]. destruct (_ && _); [by intros ?%not_elem_of_nil|].
  destruct (takeCandidates_spec (i64 (limit - Z.quot (storedBlobUsage tables network) megabyte)) (storedBlobCandidates tables network))
    as (n & -> & _). intros (c & -> & Hc)%list_elem_of_fmap. eapply candidates_foreign.
  rewrite <- (take_drop n (storedBlobCandidates tables network)). apply elem_of_app. by left.
Qed.

Lemma deleteRows_spec fails n tables hashes tables' e :
  deleteRows fails n tables hashes = (tables', e) ->
  (forall h, h ∉ hashes -> t_Blob tables' !! h = t_Blob tables !! h) /\
  (e = None -> forall h, h ∈ hashes -> t_Blob tables' !! h = None).
Proof.
  revert n tables. induction hashes as [|hash hashes IH]; intros n tables; cbn [deleteRows].
  - intros [= <- <-]. split; [done|by intros _ h ?%not_elem_of_nil].
  - destruct (fails n); [intros [= <- <-]; by split|]. intros Hd. pose proof (IH _ _ Hd) as [Hother Hgone]. split.
    + intros h [Hne Hh]%not_elem_of_cons. rewrite Hother by done. cbn. by rewrite lookup_delete_ne.
    + intros -> h Hin. destruct (decide (h ∈ hashes)) as [|Hn]; [by apply Hgone|].
      apply elem_of_cons in Hin as [->|]; [|done]. rewrite Hother by done. cbn. by rewrite lookup_delete, decide_True.
Qed.

End cleaned.

(** The content blobs are not spared when they are within their limit: with a
    limit set, one candidate is deleted however much room there is. *)
Lemma content_within_limit_cleaned `{CandidateOrder} tables limit :
  limit <> 0 -> storedBlobCandidates tables false <> [] -> cleanup tables false limit <> [].
Proof.
  intros Hl Hc. unfold cleanup. cbn [negb andb]. rewrite (proj2 (Z.eqb_neq _ _) Hl).
  set (available := i64 _). destruct (takeCandidates_spec available (storedBlobCandidates tables false)) as (n & -> & _ & _ & Hn).
  specialize (Hn Hc). destruct n; [lia|]. by destruct (storedBlobCandidates tables false).
Qed.

(** The background downloader leaves the limit of network blobs its ten megabytes. *)
Lemma polled_within_limit manager usage downloader has nodeID hashes downloader' worker :
  let '(_, freeSpace) := FreeSpaceMB manager (Ok usage) true in
  poll downloader freeSpace has nodeID hashes = Ok downloader' ->
  bd_Worker downloader = None -> bd_Worker downloader' = Some worker ->
  min_i64 <= d_NetworkLimit manager - Z.quot (u_Network usage) megabyte <= max_i64 ->
  Z.quot (u_Network usage) megabyte + MinimumFreeSpaceMB < d_NetworkLimit manager.
Proof.
  unfold FreeSpaceMB. cbn [Usage mbind res_bind setCached d_NetworkLimit]. intros Hp Hw Hw' Hr.
  rewrite i64_id in Hp by done. set (available := d_NetworkLimit manager - _) in *.
  destruct (poll_spec downloader (if 0 <? available then available else 0) has nodeID hashes) as (downloader2 & Hp' & _ & Hs).
  cbn in Hp, Hp'. rewrite Hp in Hp'. injection Hp' as <-. rewrite Hw, Hw' in Hs. destruct Hs as [Hs _].
  unfold available, MinimumFreeSpaceMB in *. destruct (Z.ltb_spec 0 (d_NetworkLimit manager - Z.quot (u_Network usage) megabyte)); lia.
Qed.

(** ** Witness *)

#[local] Instance candidateOrder_dec query c d : Decision (candidateOrder query c d).
Proof. destruct query; cbn; apply _. Defined.
#[local] Instance candidateOrder_total query : Total (candidateOrder query).
Proof. intros c d. destruct query; cbn; lia. Qed.
#[local] Instance candidateOrder_trans query : Transitive (candidateOrder query).
Proof. intros c d e. destruct query; cbn; lia. Qed.
#[local] Instance exampleCandidateOrder : CandidateOrder.
Proof.
  refine {| orderCandidates := fun query => merge_sort (candidateOrder query) |}.
  - intros query rows. apply merge_sort_Permutation.
  - intros query rows. apply StronglySorted_merge_sort; apply _.
Defined.
#[local] Existing Instance exampleDigests.

(** A blob of the user's and two of the network's, no room for network blobs. *)
Definition exampleTables : ManagedTables :=
  MkTables (list_to_map [(lit "own", MkBlobRow (2 * megabyte) true 1 true); (lit "first", MkBlobRow megabyte true 2 false);
                         (lit "second", MkBlobRow (2 * megabyte) true 3 false)]) [] [] [].
