(* ===== verification/Reflector.v ===== *)
(** * The reflector

    Model of [reflector/server.go] and [reflector/client.go]: a node uploads a
    stream it holds to a server, which takes the blobs of descriptors it has
    verified.  The server is a machine that consumes the bytes of a connection and
    waits where the next read would block; the client runs against any peer that
    answers bytes with bytes. *)

From S2P Require Import Prelude Hex Utf8 Digest Aes Decimal Bencode Json JsonValue Framing Stream BlobManager PeerExchange.

Definition maxClientResponseSize : Z := 2000000.
Definition MaxInt32 : Z := 2 ^ 31 - 1.

(** ** Messages *)

(** The local variables of [readJSONMessage]; [fr_Stack] has the innermost bracket first. *)
Record frameState := MkFrame {
  fr_Frame : bytes; fr_Stack : bytes; fr_Started : bool; fr_InString : bool; fr_Escaped : bool
}.
Inductive frameStep := FrameMore (st : frameState) | FrameWhole (frame : bytes) | FrameBad (e : string).
Definition frameByte (maximum : Z) (st : frameState) (value : byte) : frameStep :=
  let 'MkFrame frame stack started inString escaped := st in
  if maximum <? blen frame + 1 then FrameBad "reflector: JSON message exceeds the limit"
  else
    let frame := frame ++ [value] in
    if negb started then
      if isJsonSpace value then FrameMore (MkFrame frame stack started inString escaped)
      else if negb (Zb value =? 0x7b) then FrameBad "reflector: control message must be a JSON object"
      else FrameMore (MkFrame frame (value :: stack) true inString escaped)
    else if escaped then FrameMore (MkFrame frame stack started inString false)
    else if inString && (Zb value =? 0x5c) then FrameMore (MkFrame frame stack started inString true)
    else if Zb value =? 0x22 then FrameMore (MkFrame frame stack started (negb inString) escaped)
    else if inString then FrameMore (MkFrame frame stack started inString escaped)
    else if (Zb value =? 0x7b) || (Zb value =? 0x5b) then FrameMore (MkFrame frame (value :: stack) started inString escaped)
    else if (Zb value =? 0x7d) || (Zb value =? 0x5d) then
      let want := if Zb value =? 0x5d then x5b else x7b in
      match stack with
      | top :: stack =>
          if negb (Byte.eqb top want) then FrameBad "reflector: mismatched JSON delimiter"
          else match stack with
               | [] => FrameWhole frame
               | _ => FrameMore (MkFrame frame stack started inString escaped)
               end
      | [] => FrameBad "reflector: mismatched JSON delimiter"
      end
    else FrameMore (MkFrame frame stack started inString escaped).
(** The frame and the rest; [None] where the reader blocks. *)
Fixpoint scanFrame (maximum : Z) (st : frameState) (reader : bytes) : option (res (bytes * bytes)) :=
  match reader with
  | [] => None
  | value :: reader =>
      match frameByte maximum st value with
      | FrameMore st => scanFrame maximum st reader
      | FrameWhole frame => Some (Ok (frame, reader))
      | FrameBad e => Some (Err e)
      end
  end.
Definition readJSONMessage (maximum : Z) (reader : bytes) : option (res (list (bytes * json) * bytes)) :=
  r ← scanFrame maximum (MkFrame [] [] false false false) reader;
  Some ('(frame, reader) ← r;
        data ← map_err (fun e => "reflector: invalid control message: " ++ e)%string (unmarshalMap (TrimSpace frame));
        Ok (data, reader)).
Definition readControlMessage : bytes -> option (res (list (bytes * json) * bytes)) := readJSONMessage MaxBlobResponseHeaderSize.

Definition exactInteger (value : float64) (minimum maximum : Z) : option Z :=
  n ← floatInteger value;
  if (n <? minimum) || (maximum <? n) then None else Some n.
(** [value.(float64)], a number of a decoded message being in range. *)
Definition floatValue (v : json) : option float64 :=
  match v with JNumber literal => floatOf literal | _ => None end.
(** [json.Encoder.Encode] *)
Definition encodeMessage (m : list (bytes * json)) : bytes := marshalMap m ++ [x0a].

(** ** The server *)

(** Where the handler is: before a control message, or reading a blob of a known
    size; then whether it has returned. *)
Inductive phase :=
| Control
| Receiving (descriptor : bool) (blobHash : bytes) (size : Z)
| Returned.
Record server := MkServer {
  sv_Version : Z; sv_Expected : gmap bytes Z; sv_Phase : phase; sv_Manager : BlobManager; sv_Disk : Disk
}.
Definition newServer (manager : BlobManager) (disk : Disk) : server := MkServer (-1) ∅ Control manager disk.
Definition withPhase (sv : server) (p : phase) : server :=
  MkServer (sv_Version sv) (sv_Expected sv) p (sv_Manager sv) (sv_Disk sv).

Section server.
Context `{Digests} (faults : diskFaults).

Definition storeVerifiedBlob (manager : BlobManager) (disk : Disk) (blobHash data : bytes) : BlobManager * Disk * res unit :=
  if negb (bool_decide (hashBytes data = blobHash)) then (manager, disk, Err "reflector: blob hash mismatch")
  else setWith faults manager disk blobHash data.

(** A decoded control message: the server afterwards and what it writes. *)
Definition onVersion (sv : server) (data : list (bytes * json)) : server * bytes :=
  match v ← field "version" data; f ← floatValue v; exactInteger f 0 MaxInt32 with
  | Some version =>
      (MkServer version (sv_Expected sv) Control (sv_Manager sv) (sv_Disk sv),
       encodeMessage [(lit "version", JNumber (FormatInt version))])
  | None => (withPhase sv Returned, [])
  end.
Definition onBlob (sv : server) (hashValue sizeValue : json) : server * bytes :=
  match hashValue, floatValue sizeValue with
  | JString blobHash, Some blobSizeNumber =>
      match exactInteger blobSizeNumber 1 MaxBlobSize with
      | Some blobSize =>
          if negb (ValidHash blobHash) || negb (bool_decide (sv_Expected sv !! blobHash = Some blobSize))
          then (withPhase sv Returned, [])
          else
            match get (sv_Manager sv) (sv_Disk sv) blobHash with
            | Some existing =>
                if blen existing =? blobSize then (withPhase sv Control, encodeMessage [(lit "send_blob", JBool false)])
                else (withPhase sv (Receiving false blobHash blobSize), encodeMessage [(lit "send_blob", JBool true)])
            | None => (withPhase sv (Receiving false blobHash blobSize), encodeMessage [(lit "send_blob", JBool true)])
            end
      | None => (withPhase sv Returned, [])
      end
  | _, _ => (withPhase sv Returned, [])
  end.
(** The blobs of a descriptor are expected from now on. *)
Definition expect (expected : gmap bytes Z) (items : list BlobInfo) : gmap bytes Z :=
  fold_left (fun expected item => <[b_BlobHash item := b_Length item]> expected) items expected.
Definition onSDBlob (sv : server) (hashValue sizeValue : json) : server * bytes :=
  match hashValue, floatValue sizeValue with
  | JString sdBlobHash, Some sdBlobSizeNumber =>
      match exactInteger sdBlobSizeNumber 1 MaxStreamDescriptorSize with
      | Some sdBlobSize =>
          if negb (ValidHash sdBlobHash) then (withPhase sv Returned, [])
          else
            let send := (withPhase sv (Receiving true sdBlobHash sdBlobSize), encodeMessage [(lit "send_sd_blob", JBool true)]) in
            match get (sv_Manager sv) (sv_Disk sv) sdBlobHash with
            | Some existing =>
                if blen existing =? sdBlobSize then
                  match DecodeDescriptor sdBlobHash existing with
                  | Ok descriptor =>
                      let needed := List.filter (fun h => negb (Has (sv_Manager sv) h)) (map b_BlobHash (ContentBlobs descriptor)) in
                      (MkServer (sv_Version sv) (expect (sv_Expected sv) (ContentBlobs descriptor)) Control (sv_Manager sv) (sv_Disk sv),
                       encodeMessage [(lit "send_sd_blob", JBool false); (lit "needed_blobs", JArray (map JString needed))])
                  | _ => (withPhase sv Returned, [])
                  end
                else send
            | None => send
            end
      | None => (withPhase sv Returned, [])
      end
  | _, _ => (withPhase sv Returned, [])
  end.
Definition onControl (sv : server) (data : list (bytes * json)) : server * bytes :=
  if sv_Version sv =? -1 then onVersion sv data
  else match field "blob_hash" data, field "blob_size" data with
       | Some hashValue, Some sizeValue => onBlob sv hashValue sizeValue
       | _, _ =>
           match field "sd_blob_hash" data, field "sd_blob_size" data with
           | Some hashValue, Some sizeValue =>
               if 1 <=? sv_Version sv then onSDBlob sv hashValue sizeValue else (withPhase sv Returned, [])
           | _, _ => (withPhase sv Returned, [])
           end
       end.
(** The bytes of a blob have arrived. *)
Definition onData (sv : server) (descriptor : bool) (blobHash data : bytes) : server * bytes :=
  let received := if descriptor then "received_sd_blob"%string else "received_blob"%string in
  let finish (expected : gmap bytes Z) (stored : BlobManager * Disk * res unit) : server * bytes :=
    let '(manager, disk, r) := stored in
    let ok := isOk r in
    (MkServer (sv_Version sv) expected (if ok then Control else Returned) manager disk,
     encodeMessage [(lit received, JBool ok)]) in
  if descriptor then
    match DecodeDescriptor blobHash data with
    | Ok d => finish (expect (sv_Expected sv) (ContentBlobs d)) (storeVerifiedBlob (sv_Manager sv) (sv_Disk sv) blobHash data)
    | Err e => finish (sv_Expected sv) (sv_Manager sv, sv_Disk sv, Err e)
    | Panic => finish (sv_Expected sv) (sv_Manager sv, sv_Disk sv, Panic)
    | NoFuel => finish (sv_Expected sv) (sv_Manager sv, sv_Disk sv, NoFuel)
    end
  else finish (sv_Expected sv) (storeVerifiedBlob (sv_Manager sv) (sv_Disk sv) blobHash data).

(** One step of the handler; [None] where it waits for more bytes. *)
Definition serverStep (sv : server) (reader : bytes) : option (server * bytes * bytes) :=
  match sv_Phase sv with
  | Control =>
      r ← readControlMessage reader;
      match r with
      | Ok (data, reader) => let '(sv, out) := onControl sv data in Some (sv, reader, out)
      | _ => Some (withPhase sv Returned, reader, [])
      end
  | Receiving descriptor blobHash size =>
      if blen reader <? size then None
      else
        let '(sv, out) := onData sv descriptor blobHash (take (Z.to_nat size) reader) in
        Some (sv, drop (Z.to_nat size) reader, out)
  | Returned => None
  end.
(** [handleConnection] on the bytes that have arrived: the server, what is left in
    the reader, and what was written. *)
Fixpoint handleConnection (fuel : nat) (sv : server) (reader : bytes) : option (server * bytes * bytes) :=
  match serverStep sv reader with
  | None => Some (sv, reader, [])
  | Some (sv, reader, out) =>
      match fuel with
      | O => None
      | S fuel =>
          '(sv, reader, more) ← handleConnection fuel sv reader;
          Some (sv, reader, out ++ more)
      end
  end.
End server.

(** ** The client *)

Section client.
(** A peer that answers the bytes it is sent; [cn_Reader] is what it has sent and
    the client has not read. *)
Context {P : Type} (peer : P -> bytes -> P * bytes).
Record connection := MkConnection { cn_Peer : P; cn_Reader : bytes }.
Definition write (conn : connection) (data : bytes) : connection :=
  let '(p, out) := peer (cn_Peer conn) data in MkConnection p (cn_Reader conn ++ out).
(** A read that would block ends with the deadline. *)
Definition readResponse (conn : connection) : connection * res (list (bytes * json)) :=
  match readJSONMessage maxClientResponseSize (cn_Reader conn) with
  | None => (conn, Err "i/o timeout")
  | Some (Ok (response, reader)) => (MkConnection (cn_Peer conn) reader, Ok response)
  | Some (Err e) => (conn, Err e)
  | Some Panic => (conn, Panic)
  | Some NoFuel => (conn, NoFuel)
  end.
Definition reflectorResponse (conn : connection) (request : list (bytes * json)) : connection * res (list (bytes * json)) :=
  readResponse (write conn (marshalMap request)).
(** [response[field].(bool)] *)
Definition boolField (name : string) (response : list (bytes * json)) : option bool :=
  match field name response with Some (JBool b) => Some b | _ => None end.
Definition decodeReceipt (conn : connection) (name : string) : connection * res unit :=
  let '(conn, r) := readResponse conn in
  (conn, response ← r; if default false (boolField name response) then Ok tt else Err "reflector: blob was not acknowledged").
Definition stringList (value : option json) : list bytes :=
  match value with
  | Some (JArray items) => omap (fun item => match item with JString text => Some text | _ => None end) items
  | _ => []
  end.
(** [int(value)] *)
Definition floatTrunc (f : float64) : Z :=
  let '(n, d) := scaled (f_Significand f) 1 (- f_Scale f) in
  if f_Negative f then - (n / d) else n / d.

Definition missing (name : string) : string := "reflector: missing " ++ name ++ " response".
(** The loop over the blobs the server needs, [reflected] being those it has received. *)
Fixpoint sendBlobs (get : bytes -> option bytes) (conn : connection) (reflected needed : list bytes)
  : connection * list bytes * res unit :=
  match needed with
  | [] => (conn, reflected, Ok tt)
  | hash :: needed =>
      match get hash with
      | None => sendBlobs get conn reflected needed
      | Some data =>
          let '(conn, r) := reflectorResponse conn
            [(lit "blob_hash", JString hash); (lit "blob_size", JNumber (FormatInt (blen data)))] in
          match r with
          | Ok response =>
              match boolField "send_blob" response with
              | None => (conn, reflected, Err (missing "send_blob"))
              | Some false => sendBlobs get conn reflected needed
              | Some true =>
                  let '(conn, r) := decodeReceipt (write conn data) "received_blob" in
                  match r with
                  | Ok _ => sendBlobs get conn (reflected ++ [hash]) needed
                  | r => (conn, reflected, r)
                  end
              end
          | Err e => (conn, reflected, Err e)
          | Panic => (conn, reflected, Panic)
          | NoFuel => (conn, reflected, NoFuel)
          end
      end
  end.
(** The upload after the handshake. *)
Definition sendStream (get : bytes -> option bytes) (conn : connection) (sdHash descriptorData : bytes)
    (descriptor : StreamDescriptor) : connection * list bytes * res unit :=
  let '(conn, r) := reflectorResponse conn
    [(lit "sd_blob_hash", JString sdHash); (lit "sd_blob_size", JNumber (FormatInt (blen descriptorData)))] in
  match r with
  | Ok response =>
      match boolField "send_sd_blob" response with
      | None => (conn, [], Err (missing "send_sd_blob"))
      | Some send =>
          let '(conn, r) := if send : bool then decodeReceipt (write conn descriptorData) "received_sd_blob" else (conn, Ok tt) in
          match r with
          | Ok _ =>
              let reflected := if send : bool then [sdHash] else [] in
              let needed := match stringList (field "needed_blobs" response) with
                            | [] => if send : bool then map b_BlobHash (ContentBlobs descriptor) else []
                            | needed => needed
                            end in
              sendBlobs get conn reflected needed
          | r => (conn, [], r)
          end
      end
  | Err e => (conn, [], Err e)
  | Panic => (conn, [], Panic)
  | NoFuel => (conn, [], NoFuel)
  end.
(** [ReflectStream]; [get] is [Get] of the blob manager, [dial] the new connection. *)
Definition ReflectStream `{Digests} (get : bytes -> option bytes) (dial : res P) (sdHash : bytes)
  : option connection * list bytes * res unit :=
  match get sdHash with
  | None => (None, [], Err "reflector: descriptor is unavailable")
  | Some descriptorData =>
      match DecodeDescriptor sdHash descriptorData, dial with
      | Ok descriptor, Ok p =>
          let '(conn, r) := reflectorResponse (MkConnection p []) [(lit "version", JNumber (FormatInt 1))] in
          match r with
          | Ok handshake =>
              match v ← field "version" handshake; floatValue v with
              | Some version =>
                  if floatTrunc version =? 1 then
                    let '(conn, reflected, r) := sendStream get conn sdHash descriptorData descriptor in
                    (Some conn, reflected, r)
                  else (Some conn, [], Err "reflector: incompatible protocol version")
              | None => (Some conn, [], Err "reflector: incompatible protocol version")
              end
          | Err e => (Some conn, [], Err e)
          | Panic => (Some conn, [], Panic)
          | NoFuel => (Some conn, [], NoFuel)
          end
      | Ok _, r => (None, [], _ ← r; Ok tt)
      | r, _ => (None, [], _ ← r; Ok tt)
      end
  end.
End client.

(** The server as the peer: its state and what it has not consumed. *)
Section reacts.
Context `{Digests} (faults : diskFaults).
Definition serverPeer (p : server * bytes) (data : bytes) : server * bytes * bytes :=
  let '(sv, pending) := p in
  match handleConnection faults (S (length (pending ++ data))) sv (pending ++ data) with
  | Some (sv, rest, out) => (sv, rest, out)
  | None => (sv, pending ++ data, [])
  end.
End reacts.

(** ** What an upload can do *)

Section safety.
Context `{Digests} (faults : diskFaults).

(** A verified descriptor lists a blob of this hash and size. *)
Definition described (blobHash : bytes) (size : Z) : Prop :=
  exists sd text d item, DecodeDescriptor sd text = Ok d /\ item ∈ ContentBlobs d /\
    b_BlobHash item = blobHash /\ b_Length item = size.
(** What the server may take: the data of the hash, legal in size, that is a
    descriptor or that a descriptor lists. *)
Definition accepted (blobHash data : bytes) : Prop :=
  hashBytes data = blobHash /\ 0 < blen data <= MaxBlobSize /\
  (described blobHash (blen data) \/ exists d, DecodeDescriptor blobHash data = Ok d).

Definition serverOk (sv : server) : Prop :=
  heldOk (sv_Manager sv) /\
  (forall h n, sv_Expected sv !! h = Some n -> described h n) /\
  match sv_Phase sv with
  | Receiving true h size => 1 <= size
  | Receiving false h size => 1 <= size /\ described h size
  | _ => True
  end.
(** From one state of the manager to a later one. *)
Definition takes (sv sv' : server) : Prop :=
  forall h,
    (get (sv_Manager sv') (sv_Disk sv') h = get (sv_Manager sv) (sv_Disk sv) h \/
     exists data, get (sv_Manager sv') (sv_Disk sv') h = Some data /\ accepted h data) /\
    (Has (sv_Manager sv') h = true -> Has (sv_Manager sv) h = true \/ exists data, accepted h data).

Lemma takes_same sv sv' : sv_Manager sv' = sv_Manager sv -> sv_Disk sv' = sv_Disk sv -> takes sv sv'.
Proof. intros E1 E2 h. rewrite E1, E2. by split; left. Qed.
Lemma takes_trans a b c : takes a b -> takes b c -> takes a c.
Proof.
  intros Hab Hbc h. destruct (Hab h) as [Ha1 Ha2], (Hbc h) as [Hb1 Hb2]. split.
  - destruct Hb1 as [->|]; [exact Ha1|by right].
  - intros [?|?]%Hb2; [by apply Ha2|by right].
Qed.

Lemma readControlMessage_consumes reader data rest :
  readControlMessage reader = Some (Ok (data, rest)) -> (length rest < length reader)%nat.
Proof.
  unfold readControlMessage, readJSONMessage. intros ([[frame rest']| | |] & Hs & [= E])%bind_Some; [|done..].
  cbn [mbind res_bind] in E. apply res_bind_Ok in E as (m & _ & [= -> ->]). clear -Hs.
  revert Hs. generalize (MkFrame [] [] false false false). induction reader as [|c reader IH]; intros st; cbn [scanFrame]; [done|].
  destruct (frameByte _ st c); [|intros [= _ ->]; cbn; lia|done]. intros Hs%IH. cbn. lia.
Qed.
Lemma exactInteger_spec f lo hi n : exactInteger f lo hi = Some n -> lo <= n <= hi.
Proof.
  unfold exactInteger. intros (m & _ & Hm)%bind_Some. destruct (Z.ltb_spec m lo), (Z.ltb_spec hi m); cbn in Hm; try done.
  injection Hm as <-. lia.
Qed.
Lemma expect_described expected sd text d h n :
  (forall h n, expected !! h = Some n -> described h n) -> DecodeDescriptor sd text = Ok d ->
  expect expected (ContentBlobs d) !! h = Some n -> described h n.
Proof.
  intros He Hd. assert (Forall (fun item => described (b_BlobHash item) (b_Length item)) (ContentBlobs d)) as Hall.
  { apply Forall_forall. intros item Hi. by exists sd, text, d, item. }
  unfold expect. revert expected He. induction Hall as [|item items Hi _ IH]; intros expected He; [apply He|].
  cbn [fold_left]. apply IH. intros h' n'. rewrite lookup_insert. case_decide as E; [intros [= <-]; by rewrite <- E|apply He].
Qed.
Lemma onControl_ok sv data :
  serverOk sv ->
  serverOk (onControl sv data).1 /\ takes sv (onControl sv data).1.
Proof.
  intros (Hm & He & Hp).
  assert (forall p, p = Control \/ p = Returned -> serverOk (withPhase sv p) /\ takes sv (withPhase sv p)) as Hplain.
  { intros p [-> | ->]; (split; [by split_and!|by apply takes_same]). }
  unfold onControl. destruct (_ =? -1).
  - unfold onVersion. destruct (mbind _ _) as [version|]; [|by apply Hplain; right]. split; [by split_and!|by apply takes_same].
  - destruct (field "blob_hash" data) as [hv|], (field "blob_size" data) as [sz|].
    1: { unfold onBlob. destruct hv, (floatValue sz) as [f|]; try (apply Hplain; by right).
      destruct (exactInteger f 1 MaxBlobSize) as [size|] eqn:Hs; [|apply Hplain; by right]. apply exactInteger_spec in Hs.
      destruct (ValidHash s); [|apply Hplain; by right]. case_bool_decide as Hexp; [|apply Hplain; by right]. cbn [negb orb].
      assert (serverOk (withPhase sv (Receiving false s size)) /\ takes sv (withPhase sv (Receiving false s size))).
      { split; [|by apply takes_same]. split; [done|split; [done|split; [lia|by apply He]]]. }
      destruct (get _ _ _) as [existing|]; [|done]. destruct (_ =? _); [by apply Hplain; left|done]. }
    all: destruct (field "sd_blob_hash" data) as [sdv|], (field "sd_blob_size" data) as [sdz|]; try (apply Hplain; by right);
      destruct (1 <=? sv_Version sv); try (apply Hplain; by right); unfold onSDBlob;
      destruct sdv, (floatValue sdz) as [f|]; try (apply Hplain; by right);
      destruct (exactInteger f 1 MaxStreamDescriptorSize) as [size|] eqn:Hs; try (apply Hplain; by right);
      apply exactInteger_spec in Hs; destruct (ValidHash s); try (apply Hplain; by right); cbn [negb];
      assert (serverOk (withPhase sv (Receiving true s size)) /\ takes sv (withPhase sv (Receiving true s size)))
        by (split; [split; [done|split; [done|cbn; lia]]|by apply takes_same]);
      destruct (get _ _ _) as [existing|]; try done; destruct (_ =? _); try done;
      destruct (DecodeDescriptor s existing) as [d| | |] eqn:Hd; try (apply Hplain; by right);
      (split; [|by apply takes_same]); (split; [done|split; [|done]]); intros h n; by apply (expect_described _ s existing).
Qed.

Lemma storeVerifiedBlob_ok sv sv' blobHash data manager disk r :
  temporaries faults -> heldOk (sv_Manager sv) ->
  described blobHash (blen data) \/ (exists d, DecodeDescriptor blobHash data = Ok d) ->
  storeVerifiedBlob faults (sv_Manager sv) (sv_Disk sv) blobHash data = (manager, disk, r) ->
  sv_Manager sv' = manager -> sv_Disk sv' = disk -> heldOk manager /\ takes sv sv'.
Proof.
  intros Ht Hm Hd Hs E1 E2. unfold storeVerifiedBlob in Hs. case_bool_decide as Hh; cbn [negb] in Hs;
    [|injection Hs as <- <- <-; split; [done|by apply takes_same]].
  assert (heldOk manager) as Hm' by (unfold setWith in Hs; by eapply heldOk_Set in Hs). split; [done|].
  intros h. rewrite E1, E2. pose proof Hs as Hsp. apply Set_spec in Hsp.
  assert (h <> blobHash -> bm_blobs manager !! h = bm_blobs (sv_Manager sv) !! h) as Hother.
  { intros Hne. destruct Hsp as [(_ & _ & _ & E)|(_ & -> & _)]; [|done].
    destruct (bm_persist (sv_Manager sv)); destruct E as [-> _]; cbn; by rewrite lookup_insert_ne. }
  assert (accepted blobHash data \/ manager = sv_Manager sv) as Hacc.
  { destruct Hsp as [(_ & _ & Hlen & _)|(_ & -> & _)]; [left; exact (conj Hh (conj Hlen Hd))|by right]. }
  split.
  - destruct (decide (h = temporaryAt faults blobHash)) as [->|Hne].
    + assert (forall m d, heldOk m -> get m d (temporaryAt faults blobHash) = None) as Hnone; [|left; by rewrite !Hnone].
      intros m d [_ Hb]. unfold get. destruct (bm_blobs m !! _) as [v|] eqn:E; [|done].
      apply Hb in E as [Hc _]. by rewrite Ht in Hc.
    + destruct (decide (h = blobHash)) as [->|Hneq]; [|left; by eapply (get_Set_ne _ _ (temporaryAt faults blobHash))].
      destruct r as [[]|e| |]; [right; exists data|left..].
      * destruct Hsp as [(_ & _ & Hlen & _)|([? [=]] & _)]. split; [exact (get_stored _ _ _ _ _ _ _ _ _ Hm Hs)|exact (conj Hh (conj Hlen Hd))].
      * destruct Hsp as [([=] & _)|(_ & -> & Ed)]. apply get_same; [done|done|]. destruct Ed as [->| ->]; [done|]. by rewrite lookup_delete_ne.
      * by destruct Hsp as [([=] & _)|([? [=]] & _)].
      * by destruct Hsp as [([=] & _)|([? [=]] & _)].
  - unfold Has. destruct (decide (h = blobHash)) as [->|Hneq]; [|rewrite Hother by done; by left].
    destruct Hacc as [| ->]; [right; by exists data|by left].
Qed.
Lemma onData_ok sv descriptor h data size :
  temporaries faults -> serverOk sv -> sv_Phase sv = Receiving descriptor h size -> blen data = size ->
  serverOk (onData faults sv descriptor h data).1 /\ takes sv (onData faults sv descriptor h data).1.
Proof.
  intros Ht (Hm & He & Hp) Ep El. rewrite Ep in Hp. unfold onData. destruct descriptor.
  - destruct (DecodeDescriptor h data) as [d| | |] eqn:Hd; cbn [fst];
      [|split; [done|by apply takes_same]..].
    destruct (storeVerifiedBlob _ _ _ _ _) as [[manager disk] r] eqn:Hs.
    destruct (storeVerifiedBlob_ok sv (MkServer (sv_Version sv) (expect (sv_Expected sv) (ContentBlobs d))
                (if isOk r then Control else Returned) manager disk) _ _ _ _ _ Ht Hm (or_intror (ex_intro _ d Hd)) Hs)
      as [Hm' Htake]; [done|done|]. cbn [fst]. split; [|done].
    split; [done|split]; [intros h' n; by apply (expect_described _ h data)|by destruct r].
  - destruct Hp as [_ Hdes]. destruct (storeVerifiedBlob _ _ _ _ _) as [[manager disk] r] eqn:Hs. rewrite <- El in Hdes.
    destruct (storeVerifiedBlob_ok sv (MkServer (sv_Version sv) (sv_Expected sv)
                (if isOk r then Control else Returned) manager disk) _ _ _ _ _ Ht Hm (or_introl Hdes) Hs)
      as [Hm' Htake]; [done|done|]. cbn [fst]. split; [|done].
    split; [done|split; [done|by destruct r]].
Qed.
Lemma serverStep_ok sv reader sv' rest out :
  temporaries faults -> serverOk sv -> serverStep faults sv reader = Some (sv', rest, out) ->
  serverOk sv' /\ takes sv sv' /\ (length rest < length reader \/ sv_Phase sv' = Returned /\ length rest <= length reader)%nat.
Proof.
  intros Ht Hok. unfold serverStep. destruct (sv_Phase sv) as [|descriptor h size|] eqn:Ep; [| |done].
  - intros (r & Hr & Hs)%bind_Some. destruct r as [[data reader']| | |].
    2-4: injection Hs as <- <- _; destruct Hok as (Hm & He & _);
      (split; [done|split; [by apply takes_same|right; split; [done|lia]]]).
    apply readControlMessage_consumes in Hr. pose proof (onControl_ok sv data Hok) as [Hok' Htake].
    destruct (onControl sv data) as [sv1 out1]. injection Hs as <- <- _. split_and!; [done|done|by left].
  - destruct (Z.ltb_spec (blen reader) size) as [|Hl]; [done|].
    assert (1 <= size) as Hpos by (destruct Hok as (_ & _ & Hp); rewrite Ep in Hp; by destruct descriptor; [|destruct Hp]).
    assert (blen (take (Z.to_nat size) reader) = size) as El by (unfold blen in *; rewrite length_take; lia).
    pose proof (onData_ok sv descriptor h _ size Ht Hok Ep El) as [Hok' Htake].
    destruct (onData _ _ _ _ _) as [sv1 out1]. intros [= <- <- _]. split_and!; [done|done|left]. rewrite length_drop. unfold blen in *. lia.
Qed.
Lemma handleConnection_ok fuel sv reader :
  temporaries faults -> serverOk sv -> (length reader < fuel)%nat ->
  exists sv' rest out, handleConnection faults fuel sv reader = Some (sv', rest, out) /\ serverOk sv' /\ takes sv sv' /\
    serverStep faults sv' rest = None.
Proof.
  intros Ht. revert sv reader. induction fuel as [|fuel IH]; intros sv reader Hok Hl; [lia|]. cbn [handleConnection].
  destruct (serverStep faults sv reader) as [[[sv1 reader1] out1]|] eqn:Es;
    [|exists sv, reader, []; by split_and!; [|done|apply takes_same|]].
  destruct (serverStep_ok _ _ _ _ _ Ht Hok Es) as (Hok1 & Ht1 & [Hlt|[Hret Hle]]).
  - destruct (IH sv1 reader1 Hok1 ltac:(lia)) as (sv' & rest & out & -> & Hok' & Ht' & Hend).
    do 3 eexists. split; [reflexivity|]. split_and!; [done|by eapply takes_trans|done].
  - assert (serverStep faults sv1 reader1 = None) as Hn by (unfold serverStep; by rewrite Hret).
    assert (handleConnection faults fuel sv1 reader1 = Some (sv1, reader1, [])) as -> by (destruct fuel; cbn; by rewrite Hn).
    do 3 eexists. split; [reflexivity|]. by split_and!.
Qed.

(** The reflector takes only what was announced and verified.  Whatever bytes
    a client sends and wherever they stop, the handler has answered all it can of
    them; the blob manager still gives what it holds; and every blob is what it
    was before, or data of its hash, legal in size, which is a valid descriptor
    itself or has the size that a descriptor verified under its own hash gives
    it.  Nothing else becomes held. *)
Theorem upload_safe manager disk reader :
  heldOk manager -> temporaries faults ->
  exists sv rest out,
    handleConnection faults (S (length reader)) (newServer manager disk) reader = Some (sv, rest, out) /\
    serverStep faults sv rest = None /\ heldOk (sv_Manager sv) /\ takes (newServer manager disk) sv.
Proof.
  intros Hm Ht. assert (serverOk (newServer manager disk)) as Hok by (split_and!; by intros).
  destruct (handleConnection_ok (S (length reader)) _ reader Ht Hok ltac:(lia)) as (sv & rest & out & E & (Hm' & _) & Htake & Hend).
  by exists sv, rest, out.
Qed.
End safety.

(** ** Witness *)

#[local] Existing Instance exampleDigests.
Definition exampleUpload : bytes := marshalMap [(lit "version", JNumber (lit "1"))] ++ marshalMap [(lit "blob_hash", JString (lit "00")); (lit "blob_size", JNumber (lit "3"))] ++ lit "abc".
Lemma upload_safe_witness :
  exists sv rest out,
    handleConnection noFaults (S (length exampleUpload)) (newServer (NewPersistentManager (lit "/blobfiles")) ∅) exampleUpload
      = Some (sv, rest, out) /\ heldOk (sv_Manager sv).
Proof.
  assert (Hok : heldOk (NewPersistentManager (lit "/blobfiles"))).
  { apply heldOk_new. right. exists (lit "/blobfiles"), true. split; [reflexivity|]. intros _ [=]. }
  destruct (upload_safe noFaults _ ∅ exampleUpload Hok noFaults_temporaries) as (sv & rest & out & E & _ & Hh & _).
  exists sv, rest, out. split; [exact E|exact Hh].
Defined.
