(* ===== verification/Upload.v ===== *)
(** * Uploading a stream

    The client of [reflector/client.go] against the server of
    [reflector/server.go], both from [Reflector]: their messages, the steps of the
    exchange, and what the server holds at the end. *)

From S2P Require Import Prelude Hex Utf8 Digest Aes Decimal Bencode Json JsonValue Framing Stream BlobManager PeerExchange Reflector.

(** ** Messages are framed *)

Definition reflectorScan (maximum : Z) (opened buffer reader : bytes) : res (bytes * bytes) :=
  default (Err "blocked") (scanFrame maximum (MkFrame buffer (opened ++ [x7b]) true false false) reader).
Lemma scanFrame_string maximum stack s buffer rest :
  plainString s = true -> blen buffer + blen s <= maximum ->
  scanFrame maximum (MkFrame buffer stack true true false) (s ++ rest)
    = scanFrame maximum (MkFrame (buffer ++ s) stack true true false) rest.
Proof.
  revert buffer. induction s as [|c s IH]; intros buffer Hp Hl; [by rewrite app_nil_r|].
  cbn [plainString forallb] in Hp. apply andb_true_iff in Hp as [Hc Hp]. apply plainChar_spec in Hc as (_ & Hq & Hb).
  pose proof (blen_nonneg s). cbn [app scanFrame]. unfold frameByte.
  destruct (Z.ltb_spec maximum (blen buffer + 1)); [lengths|]. cbn [negb].
  destruct (Z.eqb_spec (Zb c) 0x5c); [lia|]. destruct (Z.eqb_spec (Zb c) 0x22); [lia|]. cbn [andb].
  rewrite IH by (done || lengths). by rewrite <- app_assoc.
Qed.
#[export] Instance reflector_framing maximum : Framing (maximum + 1) (reflectorScan maximum).
Proof.
  split; intros opened buffer.
  - intros c rest (? & ? & ? & ? & ?)%neutral_spec Hl. unfold reflectorScan. cbn [scanFrame]. unfold frameByte.
    destruct (Z.ltb_spec maximum (blen buffer + 1)); [lengths|]. cbn [negb andb].
    by rewrite !(proj2 (Z.eqb_neq (Zb c) _)) by done.
  - intros s rest Hs Hl. unfold reflectorScan. rewrite quoted_plain in * by done.
    assert (blen (x22 :: s ++ [x22]) = blen s + 2) as E by lengths. pose proof (blen_nonneg s).
    change ((x22 :: s ++ [x22]) ++ rest) with (x22 :: (s ++ [x22]) ++ rest). cbn [scanFrame]. unfold frameByte at 1.
    destruct (Z.ltb_spec maximum (blen buffer + 1)); [lengths|]. cbn.
    rewrite <- app_assoc, scanFrame_string by (done || lengths). cbn [app scanFrame]. unfold frameByte at 1.
    destruct (Z.ltb_spec maximum (blen ((buffer ++ [x22]) ++ s) + 1)); [lengths|]. cbn. by rewrite <- !app_assoc.
  - intros c rest Hc Hl. unfold reflectorScan. cbn [scanFrame]. unfold frameByte.
    destruct (Z.ltb_spec maximum (blen buffer + 1)); [lengths|]. by destruct Hc as [-> | ->].
  - intros c rest Hc Hl. unfold reflectorScan. cbn [scanFrame]. unfold frameByte.
    destruct (Z.ltb_spec maximum (blen buffer + 1)); [lengths|].
    by destruct Hc as [-> | ->], opened.
Qed.

Lemma trimRight_object s : TrimSpace (x7b :: s ++ [x7d]) = x7b :: s ++ [x7d].
Proof.
  apply (TrimSpace_ends x7b x7d _ (x7b :: s)); reflexivity.
Qed.
Lemma TrimSpace_newline s : TrimSpace (x0a :: s) = TrimSpace s.
Proof. unfold TrimSpace at 1. cbn [length trimLeft]. by rewrite DecodeRune_ascii by done. Qed.

(** An object, after the newline of the message before it. *)
Definition newlines (gap : bytes) : Prop := gap = [] \/ gap = [x0a].
Lemma unblocked {A} e (r : option (res A)) x : default (Err e) r = Ok x -> r = Some (Ok x).
Proof. destruct r as [r|]; cbn; [by intros ->|done]. Qed.
Lemma scanFrame_object maximum gap m rest :
  newlines gap -> plainJson (JObject m) -> 1 + blen (goJson (JObject m)) <= maximum ->
  scanFrame maximum (MkFrame [] [] false false false) (gap ++ goJson (JObject m) ++ rest)
    = Some (Ok (gap ++ goJson (JObject m), rest)).
Proof.
  intros Hgap Hp. rewrite goJson_object. intros Hl. pose proof (blen_nonneg (membersText [] m)).
  assert (0 <= blen gap <= 1) as Hg by (destruct Hgap as [-> | ->]; done).
  assert (scanFrame maximum (MkFrame [] [] false false false) (gap ++ (x7b :: membersText [] m ++ [x7d]) ++ rest)
    = scanFrame maximum (MkFrame (gap ++ [x7b]) [x7b] true false false) (membersText [] m ++ x7d :: rest)) as ->.
  { assert (scanFrame maximum (MkFrame [] [] false false false) (gap ++ (x7b :: membersText [] m ++ [x7d]) ++ rest)
      = scanFrame maximum (MkFrame gap [] false false false) ((x7b :: membersText [] m ++ [x7d]) ++ rest)) as ->.
    { destruct Hgap as [-> | ->]; [done|]. cbn [app scanFrame]. unfold frameByte at 1.
      destruct (Z.ltb_spec maximum (blen (@nil byte) + 1)); [lengths|]. done. }
    cbn [app scanFrame]. unfold frameByte at 1. destruct (Z.ltb_spec maximum (blen gap + 1)); [lengths|]. cbn. by rewrite <- app_assoc. }
  pose proof (passes_members (limit := maximum + 1) (scan := reflectorScan maximum) [] m (Forall_nil_2 _) Hp
    [] (gap ++ [x7b]) (x7d :: rest) ltac:(lengths)) as E.
  apply (unblocked "blocked").
  unfold reflectorScan in E. cbn [app] in E. rewrite E. cbn [scanFrame]. unfold frameByte at 1.
  destruct (Z.ltb_spec maximum (blen ((gap ++ [x7b]) ++ membersText [] m) + 1)); [lengths|].
  cbn. by rewrite <- !app_assoc.
Qed.
Lemma readJSONMessage_object maximum gap m m' rest :
  newlines gap -> plainJson (JObject m) -> 1 + blen (goJson (JObject m)) <= maximum ->
  unmarshalMap (goJson (JObject m)) = Ok m' ->
  readJSONMessage maximum (gap ++ goJson (JObject m) ++ rest) = Some (Ok (m', rest)).
Proof.
  intros Hgap Hp Hl Hu. unfold readJSONMessage. rewrite scanFrame_object by done. cbn [mbind option_bind res_bind].
  assert (TrimSpace (gap ++ goJson (JObject m)) = goJson (JObject m)) as ->; [|by rewrite Hu].
  rewrite goJson_object. destruct Hgap as [-> | ->]; cbn [app]; rewrite ?TrimSpace_newline; apply trimRight_object.
Qed.

(** ** One message *)

Lemma anyValue_member k v v' : anyValue v = Ok v' -> anyValue (JObject [(k, v)]) = Ok (JObject [(k, v')]).
Proof. intros E. cbn [anyValue]. by rewrite E. Qed.
Lemma anyValue_two k1 k2 v1 v2 :
  k1 <> k2 -> anyValue v1 = Ok v1 -> anyValue v2 = Ok v2 ->
  anyValue (JObject [(k1, v1); (k2, v2)]) = Ok (JObject [(k1, v1); (k2, v2)]).
Proof.
  intros Hne E1 E2. cbn [anyValue]. rewrite E1. cbn [mbind res_bind]. rewrite E2. cbn [mbind res_bind mapInsert].
  by rewrite decide_False by done.
Qed.
Lemma anyValue_number n : 0 <= n < 2 ^ 53 -> anyValue (JNumber (FormatInt n)) = Ok (JNumber (FormatInt n)).
Proof. intros (f & E & _)%floatOf_natural. cbn [anyValue]. by rewrite E. Qed.
Lemma anyValue_strings l : anyValue (JArray (map JString l)) = Ok (JArray (map JString l)).
Proof.
  cbn [anyValue]. match goal with |- context [?f (map JString l)] => enough (f (map JString l) = Ok (map JString l)) as -> by done end.
  induction l as [|s l IH]; [done|]. cbn [map anyValue mbind res_bind]. by rewrite IH.
Qed.
Lemma unmarshalMap_object m m' :
  plainJson (JObject m) -> (jsonHeight (JObject m) <= 2)%nat -> anyValue (JObject m) = Ok (JObject m') ->
  unmarshalMap (goJson (JObject m)) = Ok m'.
Proof. intros Hp Hh Ha. unfold unmarshalMap. rewrite goJson_parse by done. cbn [mbind res_bind]. by rewrite Ha. Qed.

(** A message of one side: what is written, and what the other side decodes. *)
Record message (maximum : Z) (m : list (bytes * json)) : Prop := {
  message_plain : plainJson (JObject m);
  message_size : 1 + blen (goJson (JObject m)) <= maximum;
  message_decodes : unmarshalMap (goJson (JObject m)) = Ok m;
  message_marshal : marshalMap m = goJson (JObject m)
}.
Lemma read_message maximum gap m rest :
  newlines gap -> message maximum m -> readJSONMessage maximum (gap ++ marshalMap m ++ rest) = Some (Ok (m, rest)).
Proof. intros Hg []. rewrite message_marshal0. by apply readJSONMessage_object. Qed.

Definition versionMessage : list (bytes * json) := [(lit "version", JNumber (FormatInt 1))].
Definition blobMessage (h : bytes) (n : Z) : list (bytes * json) :=
  [(lit "blob_hash", JString h); (lit "blob_size", JNumber (FormatInt n))].
Definition sdBlobMessage (h : bytes) (n : Z) : list (bytes * json) :=
  [(lit "sd_blob_hash", JString h); (lit "sd_blob_size", JNumber (FormatInt n))].
Definition answerMessage (key : string) (b : bool) : list (bytes * json) := [(lit key, JBool b)].
Definition neededMessage (needed : list bytes) : list (bytes * json) :=
  [(lit "needed_blobs", JArray (map JString needed)); (lit "send_sd_blob", JBool false)].

Lemma version_message maximum : 100 <= maximum -> message maximum versionMessage.
Proof.
  intros Hm. split; [by repeat constructor| |by vm_compute|by vm_compute].
  transitivity 14; [by vm_compute|]. lia.
Qed.
Lemma two_message maximum k1 k2 h n :
  k1 <> k2 -> plainString k1 = true -> plainString k2 = true ->
  sortStrings [k1; k2] = [k1; k2] -> blen k1 + blen k2 <= 50 -> plainString h = true -> blen h <= 200 ->
  0 <= n < 2 ^ 53 -> 500 <= maximum -> message maximum [(k1, JString h); (k2, JNumber (FormatInt n))].
Proof.
  intros Hne Hk1 Hk2 Hsort Hk Hh Hlen Hn Hm.
  assert (plainJson (JObject [(k1, JString h); (k2, JNumber (FormatInt n))])) as Hp.
  { constructor. repeat constructor; try done; cbn; lia. }
  split; [done| | |].
  - pose proof (FormatInt_length n ltac:(lia)). rewrite goJson_object. unfold membersText.
    cbn [map separatedBy fst snd jsonText app]. rewrite !quoted_plain by done. lengths.
  - apply unmarshalMap_object; [done|cbn; lia|]. by apply anyValue_two; [..|apply anyValue_number].
  - unfold marshalMap. cbn [map fst]. rewrite Hsort. cbn [omap list_omap mapLookup].
    rewrite (decide_True (P := k1 = k1)), (decide_False (P := k2 = k1)), (decide_True (P := k2 = k2)) by done. done.
Qed.
Lemma blob_message maximum h n :
  500 <= maximum -> plainString h = true -> blen h <= 200 -> 0 <= n < 2 ^ 53 -> message maximum (blobMessage h n).
Proof. intros. by apply two_message. Qed.
Lemma sdBlob_message maximum h n :
  500 <= maximum -> plainString h = true -> blen h <= 200 -> 0 <= n < 2 ^ 53 -> message maximum (sdBlobMessage h n).
Proof. intros. by apply two_message. Qed.
Lemma answer_message maximum key b :
  100 <= maximum -> plainString (lit key) = true -> blen (lit key) <= 50 -> message maximum (answerMessage key b).
Proof.
  intros Hm Hk Hl. assert (plainJson (JObject (answerMessage key b))) as Hp by (by repeat constructor).
  split; [done| | |].
  - rewrite goJson_object. unfold membersText. cbn [map separatedBy fst snd jsonText answerMessage app].
    rewrite quoted_plain by done. assert (blen (lit "true") = 4) by done. assert (blen (lit "false") = 5) by done.
    destruct b; lengths.
  - apply unmarshalMap_object; [done|cbn; lia|]. by apply anyValue_member.
  - unfold marshalMap, answerMessage. cbn -[lit decide]. by rewrite decide_True by done.
Qed.
Lemma strings_length l :
  Forall (fun h => plainString h = true /\ blen h <= 96) l ->
  blen (separatedBy [] (map (jsonText []) (map JString l))) <= 99 * Z.of_nat (length l).
Proof.
  induction 1 as [|h l [Hh Hlen] _ IH]; [by vm_compute|]. cbn [map]. destruct l as [|h' l].
  - cbn [map separatedBy jsonText length]. rewrite quoted_plain by done. lengths.
  - cbn [map] in *. cbn [separatedBy jsonText app] in *. rewrite quoted_plain at 1 by done. cbn [length] in *. lengths.
Qed.
Lemma needed_message needed :
  Forall (fun h => plainString h = true /\ blen h <= 96) needed -> Z.of_nat (length needed) <= MaxStreamDescriptorBlobs ->
  message maxClientResponseSize (neededMessage needed).
Proof.
  intros Hall Hlen. pose proof (strings_length needed Hall) as Hs.
  assert (plainJson (JObject (neededMessage needed))) as Hp.
  { constructor. repeat constructor. cbn. apply Forall_fmap. eapply Forall_impl; [exact Hall|]. cbn. intros h [? _]. by constructor. }
  split; [done| | |done].
  - rewrite goJson_object. unfold membersText, neededMessage, maxClientResponseSize, MaxStreamDescriptorBlobs in *.
    cbn [map separatedBy fst snd jsonText app]. rewrite !quoted_plain by done. cbn [map] in *.
    assert (blen (lit "needed_blobs") = 12) as E1 by done. assert (blen (lit "send_sd_blob") = 12) as E2 by done.
    assert (blen (lit "false") = 5) as E3 by done.
    assert (blen (lit "[") = 1) as E4 by done. assert (blen (lit "]") = 1) as E5 by done. lengths.
  - apply unmarshalMap_object; [done| |apply anyValue_two; [done|apply anyValue_strings|done]].
    cbn. assert (list_max (map jsonHeight (map JString needed)) <= 0)%nat; [|lia].
    apply list_max_le. rewrite map_map. clear. induction needed; by constructor.
Qed.

(** ** One step of the exchange *)

Section steps.
Context `{Digests} (faults : diskFaults).

Definition idle (sv : server) : Prop := serverStep faults sv [] = None.
Lemma idle_control sv : sv_Phase sv = Control -> idle sv.
Proof. intros E. unfold idle, serverStep. by rewrite E. Qed.
Lemma idle_receiving sv descriptor h size : sv_Phase sv = Receiving descriptor h size -> 0 < size -> idle sv.
Proof. intros E Hs. unfold idle, serverStep. rewrite E. by destruct (Z.ltb_spec (blen (@nil byte)) size); [|rewrite blen_nil in *; lia]. Qed.

Lemma serverPeer_step sv data sv' out :
  serverStep faults sv data = Some (sv', [], out) -> idle sv' -> serverPeer faults (sv, []) data = (sv', [], out).
Proof.
  intros Hs Hi. unfold serverPeer. cbn [app handleConnection]. rewrite Hs.
  assert (handleConnection faults (length data) sv' [] = Some (sv', [], [])) as ->
    by (destruct (length data); cbn [handleConnection]; by rewrite Hi).
  cbn. by rewrite app_nil_r.
Qed.
(** The server answers a control message, or takes the bytes of a blob. *)
Lemma peer_message sv m sv' out :
  sv_Phase sv = Control -> message MaxBlobResponseHeaderSize m -> onControl sv m = (sv', out) -> idle sv' ->
  serverPeer faults (sv, []) (marshalMap m) = (sv', [], out).
Proof.
  intros Hp Hm Hc Hi. apply serverPeer_step; [|done]. unfold serverStep. rewrite Hp.
  pose proof (read_message MaxBlobResponseHeaderSize [] m [] (or_introl eq_refl) Hm) as E.
  cbn [app] in E. rewrite app_nil_r in E. unfold readControlMessage. rewrite E. cbn [mbind option_bind]. by rewrite Hc.
Qed.
Lemma peer_data sv descriptor h data sv' out :
  sv_Phase sv = Receiving descriptor h (blen data) -> onData faults sv descriptor h data = (sv', out) -> idle sv' ->
  serverPeer faults (sv, []) data = (sv', [], out).
Proof.
  intros Hp Hd Hi. apply serverPeer_step; [|done]. unfold serverStep. rewrite Hp, Z.ltb_irrefl.
  unfold blen. rewrite Nat2Z.id, firstn_all, Hd. by rewrite drop_all.
Qed.

(** The client's end of the connection, with the newline of the last answer unread. *)
Definition conn (sv : server) (gap : bytes) : connection := MkConnection (sv, @nil byte) gap.
Lemma request_answer sv gap m sv' out answer :
  newlines gap -> sv_Phase sv = Control -> message MaxBlobResponseHeaderSize m -> onControl sv m = (sv', out) -> idle sv' ->
  out = encodeMessage answer -> message maxClientResponseSize answer ->
  reflectorResponse (serverPeer faults) (conn sv gap) m = (conn sv' [x0a], Ok answer).
Proof.
  intros Hg Hp Hm Hc Hi -> Ha. unfold reflectorResponse, write. cbn [conn cn_Peer cn_Reader].
  rewrite (peer_message sv m sv' _ Hp Hm Hc Hi). unfold readResponse, encodeMessage. cbn [cn_Reader cn_Peer].
  by rewrite read_message.
Qed.
Lemma data_receipt sv descriptor h data sv' key :
  sv_Phase sv = Receiving descriptor h (blen data) ->
  onData faults sv descriptor h data = (sv', encodeMessage (answerMessage key true)) -> idle sv' ->
  plainString (lit key) = true -> blen (lit key) <= 50 ->
  decodeReceipt (write (serverPeer faults) (conn sv [x0a]) data) key = (conn sv' [x0a], Ok tt).
Proof.
  intros Hp Hd Hi Hk Hl. unfold write. cbn [conn cn_Peer cn_Reader]. rewrite (peer_data sv descriptor h data sv' _ Hp Hd Hi).
  unfold decodeReceipt, readResponse, encodeMessage. cbn [cn_Reader cn_Peer].
  rewrite read_message; [|by right|by apply answer_message].
  unfold boolField, field, answerMessage. cbn [mapLookup mbind res_bind]. by rewrite decide_True by done.
Qed.
End steps.

(** ** The blobs *)

Section upload.
Context `{Digests} (faults : diskFaults).
Context (Hfaults : temporaries faults) (Hwrites : forall h, failureAt faults h = None).

(** The server between two messages of an upload: what it holds it can give, and
    it expects the blobs of [items]. *)
Record uploading (items : gmap bytes Z) (sv : server) : Prop := {
  up_held : heldOk (sv_Manager sv);
  up_intact h : Has (sv_Manager sv) h = true -> is_Some (get (sv_Manager sv) (sv_Disk sv) h);
  up_version : sv_Version sv = 1;
  up_phase : sv_Phase sv = Control;
  up_expected h n : items !! h = Some n -> sv_Expected sv !! h = Some n
}.
Definition keeps (sv sv' : server) : Prop :=
  forall h d, get (sv_Manager sv) (sv_Disk sv) h = Some d -> get (sv_Manager sv') (sv_Disk sv') h = Some d.

Lemma exactInteger_natural n lo hi :
  0 <= n < 2 ^ 53 -> lo <= n <= hi -> exists f, floatValue (JNumber (FormatInt n)) = Some f /\ exactInteger f lo hi = Some n.
Proof.
  intros (f & E & Ei)%floatOf_natural Hr. exists f. split; [done|]. unfold exactInteger. rewrite Ei. cbn [mbind option_bind].
  destruct (Z.ltb_spec n lo), (Z.ltb_spec hi n); try lia. done.
Qed.
Lemma withPhase_same sv p : sv_Phase sv = p -> withPhase sv p = sv.
Proof. intros <-. by destruct sv. Qed.

(** Storing the right data of a blob that the server does not have. *)
Lemma stored_upload items sv h data expected manager disk r :
  uploading items sv -> hashBytes data = h -> 0 < blen data <= MaxBlobSize ->
  get (sv_Manager sv) (sv_Disk sv) h = None -> (forall h n, items !! h = Some n -> expected !! h = Some n) ->
  storeVerifiedBlob faults (sv_Manager sv) (sv_Disk sv) h data = (manager, disk, r) ->
  r = Ok tt /\ uploading items (MkServer 1 expected Control manager disk) /\
  keeps sv (MkServer 1 expected Control manager disk) /\ get manager disk h = Some data.
Proof.
  intros [Hh Hi Hv Hp He] Hd Hlen Hnone Hexp. unfold storeVerifiedBlob. rewrite bool_decide_eq_true_2 by done. cbn [negb]. intros Hs.
  pose proof (setBlobs_Ok faults (sv_Manager sv) (sv_Disk sv) [(h, data)] Hwrites ltac:(by constructor)) as HS. cbn [setBlobs] in HS.
  rewrite Hs in HS. assert (r = Ok tt) as -> by (destruct r as [[]| | |]; done).
  unfold setWith in Hs. pose proof (get_stored _ _ _ _ _ _ _ _ _ Hh Hs) as Hget.
  assert (forall h', canonicalBlobHash h' = true -> h' <> h -> get manager disk h' = get (sv_Manager sv) (sv_Disk sv) h') as Hother.
  { intros h' Hc Hne. eapply get_Set_ne; [|exact Hne|exact Hs]. intros <-. specialize (Hfaults h). congruence. }
  assert (heldOk manager) as Hh' by (by eapply heldOk_Set in Hs). split_and!; [done| | |done].
  - split; cbn; try done. intros h' Hhas. destruct (decide (h' = h)) as [->|Hne]; [by rewrite Hget|].
    assert (bm_blobs manager !! h' = bm_blobs (sv_Manager sv) !! h') as Eb.
    { apply Set_spec in Hs as [(_ & _ & _ & E)|(_ & -> & _)]; [|done].
      destruct (bm_persist (sv_Manager sv)); destruct E as [-> _]; cbn; by rewrite lookup_insert_ne. }
    assert (canonicalBlobHash h' = true) as Hc.
    { unfold Has in Hhas. destruct (bm_blobs manager !! h') as [v|] eqn:E; [|done]. by apply Hh' in E as [? _]. }
    rewrite Hother by done. apply Hi. unfold Has in *. by rewrite <- Eb.
  - intros h' d Hg. cbn. destruct (decide (h' = h)) as [->|Hne]; [congruence|].
    rewrite Hother; [done| |done]. rewrite <- (get_hash _ _ _ _ Hh Hg). apply hashBytes_canonical.
Qed.
Lemma onControl_blob items sv h data :
  uploading items sv -> items !! h = Some (blen data) -> hashBytes data = h -> 0 < blen data <= MaxBlobSize ->
  onControl sv (blobMessage h (blen data))
    = match get (sv_Manager sv) (sv_Disk sv) h with
      | Some existing =>
          if blen existing =? blen data then (sv, encodeMessage (answerMessage "send_blob" false))
          else (withPhase sv (Receiving false h (blen data)), encodeMessage (answerMessage "send_blob" true))
      | None => (withPhase sv (Receiving false h (blen data)), encodeMessage (answerMessage "send_blob" true))
      end.
Proof.
  intros [Hh Hi Hv Hp He] Hitem Hd Hlen. unfold onControl. rewrite Hv. change (1 =? -1) with false. cbn iota.
  assert (field "blob_hash" (blobMessage h (blen data)) = Some (JString h)) as -> by reflexivity.
  assert (field "blob_size" (blobMessage h (blen data)) = Some (JNumber (FormatInt (blen data)))) as -> by reflexivity.
  unfold onBlob. destruct (exactInteger_natural (blen data) 1 MaxBlobSize) as (f & -> & ->); [unfold MaxBlobSize in *; lia|lia|].
  assert (ValidHash h = true) as -> by (pose proof (hashBytes_canonical data) as Hc; rewrite Hd in Hc;
    unfold canonicalBlobHash in Hc; by apply andb_true_iff in Hc as [_ ->]).
  rewrite bool_decide_eq_true_2 by (by apply He). cbn [negb orb]. by rewrite (withPhase_same sv Control).
Qed.

Lemma hash_small h data : hashBytes data = h -> plainString h = true /\ blen h <= 96.
Proof.
  intros <-. split; [apply plainString_hex|]. unfold blen, hashBytes. rewrite length_hexEncode, sha384_length. done.
Qed.
Lemma upload_blob items sv getC h data reflected needed :
  uploading items sv -> items !! h = Some (blen data) -> hashBytes data = h -> 0 < blen data <= MaxBlobSize ->
  getC h = Some data ->
  (exists sv' reflected',
     sendBlobs (serverPeer faults) getC (conn sv [x0a]) reflected (h :: needed)
       = sendBlobs (serverPeer faults) getC (conn sv' [x0a]) reflected' needed /\
     uploading items sv' /\ keeps sv sv' /\ get (sv_Manager sv') (sv_Disk sv') h = Some data) \/ blobCollision.
Proof.
  intros Hup Hitem Hd Hlen Hc. pose proof Hup as [Hh Hi Hv Hp He]. destruct (hash_small h data Hd) as [Hplain Hsmall].
  assert (message MaxBlobResponseHeaderSize (blobMessage h (blen data))) as Hm
    by (apply blob_message; [done|done|lia|unfold MaxBlobSize in *; lia]).
  assert (forall b, message maxClientResponseSize (answerMessage "send_blob" b)) as Ha by (intros; by apply answer_message).
  pose proof (onControl_blob items sv h data Hup Hitem Hd Hlen) as Hon.
  assert (forall b, boolField "send_blob" (answerMessage "send_blob" b) = Some b) as Hbool by reflexivity.
  assert (marshalMap [(lit "blob_hash", JString h); (lit "blob_size", JNumber (FormatInt (blen data)))]
    = marshalMap (blobMessage h (blen data))) as Hreq by reflexivity.
  cbn [sendBlobs]. rewrite Hc. fold (blobMessage h (blen data)).
  destruct (get (sv_Manager sv) (sv_Disk sv) h) as [existing|] eqn:Hg.
  - destruct (hash_or_collision existing data) as [->|]; [by rewrite (get_hash _ _ _ _ Hh Hg)| |by right]. left.
    rewrite Z.eqb_refl in Hon.
    rewrite (request_answer faults sv [x0a] _ sv _ (answerMessage "send_blob" false) (or_intror eq_refl) Hp Hm Hon) by
      (try done; by apply idle_control).
    rewrite Hbool. exists sv, reflected. split_and!; [done|done|by intros ? ?|done].
  - left. set (sv1 := withPhase sv (Receiving false h (blen data))) in *.
    assert (idle faults sv1) as Hidle by (by eapply idle_receiving; [done|lia]).
    rewrite (request_answer faults sv [x0a] _ sv1 _ (answerMessage "send_blob" true) (or_intror eq_refl) Hp Hm Hon) by done.
    rewrite Hbool. destruct (storeVerifiedBlob faults (sv_Manager sv) (sv_Disk sv) h data) as [[manager disk] r] eqn:Hs.
    destruct (stored_upload items sv h data (sv_Expected sv) manager disk r Hup Hd Hlen Hg He Hs) as (-> & Hup' & Hk & Hg').
    set (sv' := MkServer 1 (sv_Expected sv) Control manager disk) in *.
    assert (onData faults sv1 false h data = (sv', encodeMessage (answerMessage "received_blob" true))) as Hdata.
    { unfold onData, sv1. cbn [withPhase sv_Manager sv_Disk sv_Expected sv_Version]. rewrite Hs, Hv. cbn -[encodeMessage lit]. reflexivity. }
    rewrite (data_receipt faults sv1 false h data sv' "received_blob") by (done || by apply idle_control).
    exists sv', (reflected ++ [h]). by split_and!.
Qed.
(** The loop over the blobs leaves every one with the server. *)
Lemma upload_blobs items getC blobs sv reflected needed :
  uploading items sv ->
  (forall h, h ∈ needed -> exists data, blobs h = Some data /\ getC h = Some data /\ items !! h = Some (blen data) /\
     hashBytes data = h /\ 0 < blen data <= MaxBlobSize) ->
  (exists sv' reflected',
     sendBlobs (serverPeer faults) getC (conn sv [x0a]) reflected needed = (conn sv' [x0a], reflected', Ok tt) /\
     uploading items sv' /\ keeps sv sv' /\
     forall h, h ∈ needed -> get (sv_Manager sv') (sv_Disk sv') h = blobs h) \/ blobCollision.
Proof.
  intros Hup Hall. revert sv reflected Hup. induction needed as [|h needed IH]; intros sv reflected Hup.
  - left. exists sv, reflected. split_and!; [done|done|by intros ? ?|]. by intros h ?%elem_of_nil.
  - destruct (Hall h ltac:(constructor)) as (data & Hb & Hc & Hitem & Hd & Hlen).
    destruct (upload_blob items sv getC h data reflected needed Hup Hitem Hd Hlen Hc)
      as [(sv1 & reflected1 & -> & Hup1 & Hk1 & Hg1)|]; [|by right].
    destruct (IH (fun h' Hh' => Hall h' ltac:(by constructor)) sv1 reflected1 Hup1)
      as [(sv2 & reflected2 & -> & Hup2 & Hk2 & Hg2)|]; [left|by right].
    exists sv2, reflected2. split_and!; [done|done|by intros ? ? ?%Hk1%Hk2|].
    intros h' [->|Hin]%elem_of_cons; [|by apply Hg2]. rewrite Hb. by apply Hk2.
Qed.

(** ** The descriptor *)

Lemma expect_weaken a b items :
  (forall h n, a !! h = Some n -> b !! h = Some n) -> forall h n : _, expect a items !! h = Some n -> expect b items !! h = Some n.
Proof.
  unfold expect. revert a b. induction items as [|item items IH]; intros a b Hab; [done|]. cbn [fold_left]. apply IH.
  intros h n. rewrite !lookup_insert. case_decide; [done|apply Hab].
Qed.
Lemma expect_lookup (sizes : bytes -> Z) a items h :
  Forall (fun b => b_Length b = sizes (b_BlobHash b)) items ->
  h ∈ map b_BlobHash items \/ a !! h = Some (sizes h) -> expect a items !! h = Some (sizes h).
Proof.
  unfold expect. intros Hall. revert a. induction Hall as [|b items Hb _ IH]; intros a; cbn [map fold_left].
  - by intros [?%elem_of_nil|].
  - intros Hin. apply IH. rewrite lookup_insert. case_decide as E; [right; by rewrite Hb, E|].
    destruct Hin as [[->|?]%elem_of_cons|]; [done|by left|by right].
Qed.
Lemma stringList_strings l : stringList (Some (JArray (map JString l))) = l.
Proof. cbn. induction l as [|s l IH]; [done|]. cbn. by rewrite IH. Qed.

(** The first message of the upload and the descriptor itself. *)
Lemma onControl_sd sv sd text :
  uploading ∅ sv -> hashBytes text = sd -> 0 < blen text <= MaxStreamDescriptorSize ->
  onControl sv (sdBlobMessage sd (blen text)) = onSDBlob sv (JString sd) (JNumber (FormatInt (blen text))).
Proof.
  intros [Hh Hi Hv Hp He] Hd Hlen. unfold onControl. rewrite Hv. change (1 =? -1) with false. cbn iota.
  assert (field "blob_hash" (sdBlobMessage sd (blen text)) = None) as -> by reflexivity.
  assert (field "sd_blob_hash" (sdBlobMessage sd (blen text)) = Some (JString sd)) as -> by reflexivity.
  assert (field "sd_blob_size" (sdBlobMessage sd (blen text)) = Some (JNumber (FormatInt (blen text)))) as -> by reflexivity.
  done.
Qed.
Lemma upload_descriptor sv getC sd text d :
  uploading ∅ sv -> hashBytes text = sd -> 0 < blen text <= MaxStreamDescriptorSize -> DecodeDescriptor sd text = Ok d ->
  Z.of_nat (length (ContentBlobs d)) <= MaxStreamDescriptorBlobs ->
  Forall (fun b => plainString (b_BlobHash b) = true /\ blen (b_BlobHash b) <= 96) (ContentBlobs d) ->
  (exists sv' reflected needed,
     sendStream (serverPeer faults) getC (conn sv [x0a]) sd text d
       = sendBlobs (serverPeer faults) getC (conn sv' [x0a]) reflected needed /\
     uploading (expect ∅ (ContentBlobs d)) sv' /\ keeps sv sv' /\ get (sv_Manager sv') (sv_Disk sv') sd = Some text /\
     (forall h, h ∈ needed -> h ∈ map b_BlobHash (ContentBlobs d)) /\
     (forall h, h ∈ map b_BlobHash (ContentBlobs d) -> h ∈ needed \/ Has (sv_Manager sv') h = true)) \/ blobCollision.
Proof.
  intros Hup Hd Hlen Hdec Hmax Hplain. pose proof Hup as [Hh Hi Hv Hp He]. destruct (hash_small sd text Hd) as [Hsp Hss].
  assert (message MaxBlobResponseHeaderSize (sdBlobMessage sd (blen text))) as Hm
    by (apply sdBlob_message; [done|done|lia|unfold MaxStreamDescriptorSize, MaxBlobSize in *; lia]).
  pose proof (onControl_sd sv sd text Hup Hd Hlen) as Hon. unfold onSDBlob in Hon.
  destruct (exactInteger_natural (blen text) 1 MaxStreamDescriptorSize) as (f & Ef & Ex);
    [unfold MaxStreamDescriptorSize, MaxBlobSize in *; lia|lia|]. rewrite Ef, Ex in Hon.
  assert (ValidHash sd = true) as Hvalid by (pose proof (hashBytes_canonical text) as Hc; rewrite Hd in Hc;
    unfold canonicalBlobHash in Hc; by apply andb_true_iff in Hc as [_ ->]). rewrite Hvalid in Hon. cbn [negb] in Hon.
  assert (forall h n, expect ∅ (ContentBlobs d) !! h = Some n -> expect (sv_Expected sv) (ContentBlobs d) !! h = Some n) as Hexp
    by (apply expect_weaken; by intros).
  unfold sendStream. fold (sdBlobMessage sd (blen text)).
  destruct (get (sv_Manager sv) (sv_Disk sv) sd) as [existing|] eqn:Hg.
  - destruct (hash_or_collision existing text) as [->|]; [by rewrite (get_hash _ _ _ _ Hh Hg)| |by right]. left.
    rewrite Z.eqb_refl, Hdec in Hon. set (needed := List.filter _ _) in Hon.
    set (sv' := MkServer _ _ _ _ _) in Hon.
    assert (needed ⊆ map b_BlobHash (ContentBlobs d)) as Hsub by (intros h; unfold needed; rewrite !list_elem_of_In, filter_In; by intros [? _]).
    assert (message maxClientResponseSize (neededMessage needed)) as Ha.
    { apply needed_message.
      - apply Forall_forall. intros h (b & -> & Hb)%Hsub%list_elem_of_fmap. rewrite Forall_forall in Hplain. by apply Hplain.
      - pose proof (filter_length_le (fun h => negb (Has (sv_Manager sv) h)) (map b_BlobHash (ContentBlobs d))) as Hle.
        rewrite length_map in Hle. fold needed in Hle. lia. }
    rewrite (request_answer faults sv [x0a] _ sv' _ (neededMessage needed) (or_intror eq_refl) Hp Hm Hon) by
      (reflexivity || done || by apply idle_control).
    assert (boolField "send_sd_blob" (neededMessage needed) = Some false) as -> by reflexivity.
    assert (field "needed_blobs" (neededMessage needed) = Some (JArray (map JString needed))) as -> by reflexivity.
    rewrite stringList_strings. exists sv', [], needed. split_and!; [by destruct needed| |by intros ? ?|done|done|].
    + by split.
    + intros h Hin. destruct (Has (sv_Manager sv) h) eqn:E; [by right|left].
      unfold needed. rewrite list_elem_of_In, filter_In, <- list_elem_of_In, E. done.
  - left. set (sv1 := withPhase sv (Receiving true sd (blen text))) in *.
    assert (idle faults sv1) as Hidle by (by eapply idle_receiving; [done|lia]).
    assert (message maxClientResponseSize (answerMessage "send_sd_blob" true)) as Ha by (by apply answer_message).
    rewrite (request_answer faults sv [x0a] _ sv1 _ (answerMessage "send_sd_blob" true) (or_intror eq_refl) Hp Hm Hon) by done.
    assert (boolField "send_sd_blob" (answerMessage "send_sd_blob" true) = Some true) as -> by reflexivity.
    assert (field "needed_blobs" (answerMessage "send_sd_blob" true) = None) as -> by reflexivity.
    destruct (storeVerifiedBlob faults (sv_Manager sv) (sv_Disk sv) sd text) as [[manager disk] r] eqn:Hs.
    assert (uploading (expect ∅ (ContentBlobs d)) (MkServer 1 (expect (sv_Expected sv) (ContentBlobs d)) Control (sv_Manager sv) (sv_Disk sv)))
      as Hup0 by (by split).
    destruct (stored_upload _ _ sd text _ manager disk r Hup0 Hd Hlen Hg Hexp Hs) as (-> & Hup' & Hk & Hg').
    set (sv' := MkServer 1 _ Control manager disk) in *.
    assert (onData faults sv1 true sd text = (sv', encodeMessage (answerMessage "received_sd_blob" true))) as Hdata.
    { unfold onData, sv1. cbn [withPhase sv_Manager sv_Disk sv_Expected sv_Version]. rewrite Hdec, Hs, Hv.
      cbn -[encodeMessage lit]. reflexivity. }
    rewrite (data_receipt faults sv1 true sd text sv' "received_sd_blob") by (done || by apply idle_control).
    exists sv', [sd], (map b_BlobHash (ContentBlobs d)). split_and!; [done|done|done|done|done|by left].
Qed.

(** ** The stream *)

Lemma content_count path content random created :
  CreateStreamDescriptor path (Ok content) random = Ok created ->
  Z.of_nat (length (ContentBlobs (cs_Descriptor created))) <= MaxStreamDescriptorBlobs.
Proof.
  intros (key & pieces & iv & name & suggested & _ & _ & _ & _ & _ & _ & _ & _ & _ & _ & _ & _ & _ & _ & Hv & _)%createStream_Ok.
  unfold ValidateDescriptor in Hv. destruct (last _); [|done].
  destruct (Z.ltb_spec MaxStreamDescriptorBlobs (blen (sd_Blobs (cs_Descriptor created)))); [done|].
  pose proof (length_filter (fun b => 0 < b_Length b /\ b_BlobHash b <> []) (sd_Blobs (cs_Descriptor created))).
  unfold ContentBlobs, blen in *. lia.
Qed.
Lemma handshake manager disk :
  reflectorResponse (serverPeer faults) (MkConnection (newServer manager disk, []) []) [(lit "version", JNumber (FormatInt 1))]
    = (conn (MkServer 1 ∅ Control manager disk) [x0a], Ok versionMessage).
Proof.
  apply (request_answer faults (newServer manager disk) [] versionMessage _ (encodeMessage versionMessage));
    [by left|done|by apply version_message| |by apply idle_control|done|by apply version_message].
  reflexivity.
Qed.

End upload.

(** ** Witness *)

#[local] Existing Instance exampleDigests.
Definition clientGet (created : CreatedStream) (h : bytes) : option bytes :=
  match cs_Blobs created !! h with
  | Some e => Some e
  | None => if decide (h = cs_SDHash created) then Some (cs_DescriptorBytes created) else None
  end.
Lemma example_sd_apart : match exampleCreated with
  | Ok created => bool_decide (cs_Blobs created !! cs_SDHash created = None) | _ => false end = true.
Proof. vm_cast_no_check (eq_refl true). Qed.
