(* ===== verification/ComponentGraph.v ===== *)
(** * The component graph

    Model of [componentgraph/graph.go] and [componentgraph/legacy.go]: the
    stages in which the daemon starts and stops its components.  A graph is the
    finite map of the code; where the code ranges over a Go map it sorts what it
    collects, so the unspecified iteration order does not show. *)

From stdpp Require Import gmap sets fin_sets strings relations.
From S2P Require Import Prelude.

Open Scope string_scope.
Open Scope Z_scope.

Record Component := MkComponent { c_Name : string; c_DependsOn : list string }.
Record Dependency := MkDependency { d_Component : string; d_Required : string }.

Inductive GraphError :=
| DefinitionError (message : string)
| MissingDependenciesError (dependencies : list Dependency)
| CycleError (components : list string).

(** The verb [%q], for names without characters to escape. *)
Definition quoted (name : string) : string :=
  let quote := String (Ascii.ascii_of_nat 34) "" in quote ++ name ++ quote.

Abbreviation Graph := (gmap string Component).

Definition New (components : list Component) : GraphError + Graph :=
  fold_left (fun acc component =>
      match acc with
      | inl e => inl e
      | inr graph =>
          if decide (c_Name component = "") then inl (DefinitionError "component name is empty")
          else match graph !! c_Name component with
          | Some _ =>
              inl (DefinitionError ("component " ++ quoted (c_Name component) ++ " is defined more than once"))
          | None => inr (<[c_Name component := component]> graph)
          end
      end) components (inr ∅).

Definition sortNames (names : list string) : list string := merge_sort String.le names.

Definition dependencyLe (a b : Dependency) : Prop :=
  if decide (d_Component a = d_Component b) then String.le (d_Required a) (d_Required b)
  else String.le (d_Component a) (d_Component b).
#[export] Instance dependencyLe_dec a b : Decision (dependencyLe a b).
Proof. unfold dependencyLe. case_decide; apply _. Defined.

(** [Components()]: all of them, by name. *)
Definition Components (graph : Graph) : list Component :=
  omap (fun name => graph !! name) (sortNames (map fst (map_to_list graph))).

Definition activeComponents (graph : Graph) (skipped : list string) : Graph :=
  filter (fun e => e.1 ∉ skipped) graph.

Definition missingDependencies (active : Graph) : list Dependency :=
  flat_map (fun '(name, component) =>
    omap (fun required => match active !! required with
                          | Some _ => None
                          | None => Some (MkDependency name required)
                          end) (c_DependsOn component)) (map_to_list active).

(** The names of one stage: every dependency is already staged. *)
Definition readyStage (remaining : Graph) (staged : gset string) : list string :=
  omap (fun '(name, component) =>
          if forallb (fun required => bool_decide (required ∈ staged)) (c_DependsOn component)
          then Some name else None) (map_to_list remaining).

(** The dependencies of a component; of an absent one, the zero [Component]. *)
Definition dependsOn (remaining : Graph) (name : string) : list string :=
  match remaining !! name with Some component => c_DependsOn component | None => [] end.

(** The loop over the dependencies in [dependencyReaches]; the map [visited] is
    shared by the recursive calls, so each call returns it. *)
Fixpoint anyReaches (recurse : string -> gset string -> res (bool * gset string))
    (target : string) (remaining : Graph) (dependencies : list string) (visited : gset string)
  : res (bool * gset string) :=
  match dependencies with
  | [] => Ok (false, visited)
  | dependency :: dependencies =>
      if decide (dependency = target) then Ok (true, visited)
      else match remaining !! dependency with
      | None => anyReaches recurse target remaining dependencies visited
      | Some _ =>
          '(found, visited) ← recurse dependency visited;
          if found : bool then Ok (true, visited)
          else anyReaches recurse target remaining dependencies visited
      end
  end.
Fixpoint dependencyReaches (fuel : nat) (target : string) (remaining : Graph) (current : string)
    (visited : gset string) : res (bool * gset string) :=
  if decide (current ∈ visited) then Ok (false, visited)
  else match fuel with
  | O => NoFuel
  | S fuel =>
      anyReaches (dependencyReaches fuel target remaining) target remaining
        (dependsOn remaining current) ({[current]} ∪ visited)
  end.

Fixpoint cycleLoop (remaining : Graph) (names : list string) : res (list string) :=
  match names with
  | [] => Ok []
  | name :: names =>
      '(found, _) ← dependencyReaches (size remaining) name remaining name ∅;
      rest ← cycleLoop remaining names;
      Ok (if found : bool then name :: rest else rest)
  end.
Definition cycleMembers (remaining : Graph) : res (list string) :=
  cycleLoop remaining (map fst (map_to_list remaining)).

Fixpoint stagesLoop (fuel : nat) (remaining : Graph) (staged : gset string)
  : res (GraphError + list (list string)) :=
  if decide (remaining = ∅) then Ok (inr [])
  else match fuel with
  | O => NoFuel
  | S fuel =>
      match readyStage remaining staged with
      | [] => cycle ← cycleMembers remaining; Ok (inl (CycleError (sortNames cycle)))
      | names =>
          let stage := sortNames names in
          let remaining := foldr delete remaining stage in
          rest ← stagesLoop fuel remaining (list_to_set stage ∪ staged);
          Ok (match rest with inr stages => inr (stage :: stages) | inl e => inl e end)
      end
  end.

Definition StartStages (graph : Graph) (skipped : list string)
  : res (GraphError + list (list string)) :=
  let active := activeComponents graph skipped in
  match missingDependencies active with
  | [] => stagesLoop (size active) active ∅
  | missing => Ok (inl (MissingDependenciesError (merge_sort dependencyLe missing)))
  end.

Definition StopStages (graph : Graph) (skipped : list string)
  : res (GraphError + list (list string)) :=
  stages ← StartStages graph skipped;
  Ok (match stages with inr stages => inr (rev stages) | inl e => inl e end).

Definition legacyDefinitions : list Component :=
  [MkComponent "database" [];
   MkComponent "wallet" ["database"];
   MkComponent "wallet_server_payments" ["wallet"];
   MkComponent "blob_manager" ["database"];
   MkComponent "dht" ["upnp"; "database"];
   MkComponent "hash_announcer" ["dht"; "database"];
   MkComponent "file_manager" ["blob_manager"; "database"; "wallet"];
   MkComponent "background_downloader" ["database"; "blob_manager"; "disk_space"];
   MkComponent "disk_space" ["database"; "blob_manager"];
   MkComponent "libtorrent_component" [];
   MkComponent "peer_protocol_server" ["upnp"; "blob_manager"; "wallet"];
   MkComponent "upnp" [];
   MkComponent "exchange_rate_manager" [];
   MkComponent "tracker_announcer_component" ["file_manager"]].
Definition legacyGraph : Graph :=
  match New legacyDefinitions with inr graph => graph | inl _ => ∅ end.

Example legacy_stages :
  StartStages legacyGraph ["wallet_server_payments"] = Ok (inr
    [["database"; "exchange_rate_manager"; "libtorrent_component"; "upnp"];
     ["blob_manager"; "dht"; "wallet"];
     ["disk_space"; "file_manager"; "hash_announcer"; "peer_protocol_server"];
     ["background_downloader"; "tracker_announcer_component"]]).
Proof. vm_compute. reflexivity. Qed.

(** ** Reaching along dependencies *)

Section reaching.
Context (remaining : Graph).

(** An edge of the graph that remains. *)
Definition dependsEdge (x y : string) : Prop :=
  y ∈ dependsOn remaining x /\ is_Some (remaining !! y).
Definition reachesPlus : string -> string -> Prop := tc dependsEdge.

(** What a search that found nothing leaves behind: the newly visited nodes
    are not adjacent to the target, and their successors are visited. *)
Definition closedUnder (target : string) (before after : gset string) (u : string) : Prop :=
  u ∈ after -> u ∉ before ->
  (target ∉ dependsOn remaining u) /\ forall w, dependsEdge u w -> w ∈ after.

Definition searchSpec (target current : string) (V : gset string) (r : res (bool * gset string)) : Prop :=
  exists found V', r = Ok (found, V') /\ V ⊆ V' /\ current ∈ V' /\
    (found = true -> tc (fun x y => y ∈ dependsOn remaining x) current target) /\
    (found = false -> forall u, closedUnder target V V' u).

Lemma dependencyReaches_spec fuel target current V :
  is_Some (remaining !! current) -> (size (dom remaining ∖ V) <= fuel)%nat ->
  searchSpec target current V (dependencyReaches fuel target remaining current V).
Proof.
  revert current V. induction fuel as [|fuel IH]; intros current V Hcur Hf;
    cbn [dependencyReaches]; destruct (decide (current ∈ V)) as [Hin|Hout].
  1,3: exists false, V; split_and!; try done; intros _ u Hu Hn; done.
  { apply elem_of_dom in Hcur. apply Nat.le_0_r, size_empty_iff in Hf. set_solver. }
  assert (size (dom remaining ∖ ({[current]} ∪ V)) <= fuel)%nat as Hf'.
  { assert (dom remaining ∖ ({[current]} ∪ V) ⊂ dom remaining ∖ V) as Hsub.
    { apply elem_of_dom in Hcur. set_solver. }
    apply subset_size in Hsub. lia. }
  (* the loop over the dependencies *)
  enough (forall ds W, (forall d, d ∈ ds -> d ∈ dependsOn remaining current) ->
    {[current]} ∪ V ⊆ W ->
    (forall u, u <> current -> closedUnder target V W u) ->
    (forall d, d ∈ dependsOn remaining current -> d ∉ ds ->
       d <> target /\ (is_Some (remaining !! d) -> d ∈ W)) ->
    searchSpec target current V
      (anyReaches (dependencyReaches fuel target remaining) target remaining ds W)) as Hloop.
  { apply Hloop; [done|done| |done]. intros u Hu Hin Hn. set_solver. }
  induction ds as [|d ds IHds]; intros W Hds HW Hclosed Hdone; cbn [anyReaches].
  - exists false, W. split_and!; [done|set_solver|set_solver|done|]. intros _ u Hu Hn.
    destruct (decide (u = current)) as [->|Hne]; [|by apply Hclosed].
    split.
    + intros Ht. destruct (Hdone target Ht) as [? _]; [apply not_elem_of_nil|done].
    + intros w [Hw Hw']. apply Hdone; [done|apply not_elem_of_nil|done].
  - destruct (decide (d = target)) as [->|Hdt].
    { exists true, W. split_and!; [done|set_solver|set_solver| |done]. intros _.
      apply tc_once, Hds. by left. }
    destruct (remaining !! d) as [cd|] eqn:Ed.
    + assert (size (dom remaining ∖ W) <= fuel)%nat as HfW.
      { etrans; [|exact Hf']. apply subseteq_size. set_solver. }
      destruct (IH d W ltac:(by rewrite Ed) HfW) as (found & W' & -> & HWW & HdW & Ht & Hfa).
      cbn [mbind res_bind]. destruct found.
      * exists true, W'. split_and!; [done|set_solver|set_solver| |done]. intros _.
        eapply tc_l; [apply Hds; by left|by apply Ht].
      * apply IHds; [set_solver|set_solver| |].
        -- intros u Hne Hu Hn. destruct (decide (u ∈ W)) as [HuW|HuW].
           ++ destruct (Hclosed u Hne HuW Hn) as [? Hs]. split; [done|]. intros w Hw. set_solver.
           ++ by apply (Hfa eq_refl).
        -- intros d' Hd' Hn. destruct (decide (d' = d)) as [->|]; [by split|].
           destruct (Hdone d' Hd') as [? Hw]; [by apply not_elem_of_cons|]. set_solver.
    + apply IHds; [set_solver|done|done|]. intros d' Hd' Hn.
      destruct (decide (d' = d)) as [->|]; [split; [done|rewrite Ed; by intros []]|].
      apply Hdone; [done|]. by apply not_elem_of_cons.
Qed.

(** The search from a component finds a name exactly when it depends on it. *)
Lemma reaches_iff current target :
  is_Some (remaining !! current) ->
  exists found V, dependencyReaches (size remaining) target remaining current ∅ = Ok (found, V) /\
    ((found = true) <-> tc (fun x y => y ∈ dependsOn remaining x) current target).
Proof.
  intros Hn. assert (size (dom remaining ∖ ∅) <= size remaining)%nat as Hf.
  { rewrite difference_empty_L, size_dom. done. }
  destruct (dependencyReaches_spec (size remaining) target current ∅ Hn Hf)
    as (found & V & -> & _ & Hin & Ht & Hfa).
  exists found, V. split; [done|]. split; [done|]. intros Hc. destruct found; [done|]. exfalso.
  specialize (Hfa eq_refl).
  assert (forall x y, tc (fun x y => y ∈ dependsOn remaining x) x y -> x ∈ V -> y = target -> False) as Hno.
  { clear Hc. intros x y Hxy. induction Hxy as [x y Hy|x w y Hw Hxy IH]; intros Hx ->.
    - destruct (Hfa x Hx) as [? _]; [set_solver|done].
    - destruct (Hfa x Hx) as [_ Hs]; [set_solver|]. apply IH; [|done]. apply Hs. split; [done|].
      assert (exists z, z ∈ dependsOn remaining w) as [z Hz] by (inversion Hxy; eauto).
      unfold dependsOn in Hz. destruct (remaining !! w); [done|by apply elem_of_nil in Hz]. }
  by eapply Hno.
Qed.
End reaching.

(** ** The stages *)

Definition dep (graph : Graph) (x y : string) : Prop := y ∈ dependsOn graph x.

Lemma elem_of_readyStage remaining staged name :
  name ∈ readyStage remaining staged <->
  exists c, remaining !! name = Some c /\ forall d, d ∈ c_DependsOn c -> d ∈ staged.
Proof.
  unfold readyStage. rewrite list_elem_of_omap. split.
  - intros ([n c] & Hin%elem_of_map_to_list & Hc). destruct (forallb _ _) eqn:E; [|done].
    simplify_eq. exists c. split; [done|]. intros d Hd. rewrite forallb_forall in E.
    apply list_elem_of_In, E in Hd. by apply bool_decide_eq_true in Hd.
  - intros (c & Hc & Hd). exists (name, c). split; [by apply elem_of_map_to_list|].
    assert (forallb (fun required => bool_decide (required ∈ staged)) (c_DependsOn c) = true) as ->; [|done].
    apply forallb_forall. intros d Hin%list_elem_of_In. by apply bool_decide_eq_true, Hd.
Qed.
Lemma NoDup_readyStage remaining staged : NoDup (readyStage remaining staged).
Proof.
  unfold readyStage. pose proof (NoDup_fst_map_to_list remaining) as Hn. revert Hn.
  generalize (map_to_list remaining). intros l.
  induction l as [|[n c] l IH]; cbn; [constructor|]. intros [Hn Hd]%NoDup_cons.
  assert (forall x, x ∈ omap (fun '(name, component) =>
    if forallb (fun required => bool_decide (required ∈ staged)) (c_DependsOn component)
    then Some name else None) l -> x ∈ l.*1) as Hsub'.
  { clear -l. intros x ([n c] & Hin & Hc)%list_elem_of_omap. case_match; simplify_eq.
    apply list_elem_of_fmap. by exists (x, c). }
  destruct (forallb _ _); [constructor; [|by apply IH]|by apply IH]. intros Hin. apply Hn, Hsub', Hin.
Qed.
Lemma elem_of_sortNames n l : n ∈ sortNames l <-> n ∈ l.
Proof. unfold sortNames. by rewrite merge_sort_Permutation. Qed.
Lemma lookup_foldr_delete_names {A} (m : gmap string A) (ks : list string) k :
  foldr delete m ks !! k = if decide (k ∈ ks) then None else m !! k.
Proof.
  induction ks as [|x ks IH]; cbn [foldr].
  - rewrite decide_False by apply not_elem_of_nil. done.
  - destruct (decide (k = x)) as [->|Hne].
    + rewrite lookup_delete_eq, decide_True by by left. done.
    + rewrite lookup_delete_ne, IH by done. apply decide_ext. rewrite elem_of_cons. tauto.
Qed.

Section stages.
Context (active : Graph).
(** No dependency is missing. *)
Hypothesis Hclosed : forall x y, dep active x y -> is_Some (active !! y).

(** Where the loop stands: what remains of the graph, and what is staged. *)
Record loopState (remaining : Graph) (staged : gset string) : Prop := {
  ls_split : forall n, if decide (n ∈ staged) then remaining !! n = None
                       else remaining !! n = active !! n;
  ls_staged : forall x y, x ∈ staged -> dep active x y -> y ∈ staged;
  ls_acyclic : forall x, x ∈ staged -> ~ tc (dep active) x x
}.

Lemma staged_reach remaining staged x y :
  loopState remaining staged -> tc (dep active) x y -> x ∈ staged -> y ∈ staged.
Proof. intros Hs. induction 1; intros Hx; [|apply IHtc]; by eapply ls_staged. Qed.

Lemma remaining_dependsOn remaining staged x :
  loopState remaining staged -> x ∉ staged -> dependsOn remaining x = dependsOn active x.
Proof.
  intros Hs Hx. pose proof (ls_split _ _ Hs x) as Hl. rewrite decide_False in Hl by done.
  unfold dependsOn. by rewrite Hl.
Qed.

Lemma cycle_remains remaining staged x y :
  loopState remaining staged -> y ∉ staged -> tc (dep active) x y ->
  tc (dep remaining) x y.
Proof.
  intros Hs Hy. induction 1 as [x y Hxy|x w y Hxw Hwy IH].
  - apply tc_once. unfold dep. rewrite (remaining_dependsOn _ staged); [done|done|].
    intros Hx. by apply Hy, (ls_staged _ _ Hs x).
  - eapply tc_l; [|by apply IH]. unfold dep. rewrite (remaining_dependsOn _ staged); [done|done|].
    intros Hx. apply Hy. eapply staged_reach; [done|exact Hwy|]. by apply (ls_staged _ _ Hs x).
Qed.

Lemma remaining_cycle remaining staged x y :
  loopState remaining staged -> tc (dep remaining) x y -> tc (dep active) x y.
Proof.
  intros Hs. assert (forall a b, dep remaining a b -> dep active a b) as Hd.
  { intros a b Hab. unfold dep, dependsOn in *. pose proof (ls_split _ _ Hs a) as Hl.
    case_decide; rewrite Hl in Hab; [by apply elem_of_nil in Hab|done]. }
  induction 1; [apply tc_once; auto | eapply tc_l; eauto].
Qed.

Lemma cycleLoop_spec remaining names :
  (forall n, n ∈ names -> is_Some (remaining !! n)) ->
  exists cycle, cycleLoop remaining names = Ok cycle /\
    forall n, n ∈ cycle <-> n ∈ names /\ tc (dep remaining) n n.
Proof.
  induction names as [|x names IH]; intros Hin; cbn.
  - exists []. split; [done|]. intros n. rewrite elem_of_nil. tauto.
  - destruct (reaches_iff remaining x x (Hin x ltac:(by left))) as (found & V & -> & Hf).
    destruct IH as (cycle & Hc & Hn); [intros n Hx; apply Hin; by right|].
    cbn [mbind res_bind]. rewrite Hc. cbn [mbind res_bind]. eexists. split; [done|].
    fold (dep remaining) in Hf. intros n. destruct found.
    + rewrite !elem_of_cons, Hn. split; [intros [->|[? ?]]|intros [[->|?] ?]]; tauto.
    + rewrite elem_of_cons, Hn. split; [tauto|]. intros [[->|?] Ht]; [|tauto].
      by apply Hf in Ht.
Qed.
Lemma cycleMembers_spec remaining :
  exists cycle, cycleMembers remaining = Ok cycle /\
    forall n, n ∈ cycle <-> tc (dep remaining) n n.
Proof.
  destruct (cycleLoop_spec remaining (map fst (map_to_list remaining))) as (cycle & Hc & Hn).
  { intros n Hx. apply list_elem_of_fmap in Hx as ([k c] & -> & Hx). apply elem_of_map_to_list in Hx. eauto. }
  exists cycle. split; [done|]. intros n. rewrite Hn. split; [tauto|]. intros Ht. split; [|done].
  assert (exists y, dep remaining n y) as [y Hy] by (inversion Ht; eauto).
  unfold dep, dependsOn in Hy. destruct (remaining !! n) as [c|] eqn:E; [|by apply elem_of_nil in Hy].
  apply list_elem_of_fmap. exists (n, c). split; [done|]. by apply elem_of_map_to_list.
Qed.

Lemma tc_has_dep remaining x y : tc (dep remaining) x y -> is_Some (remaining !! x).
Proof.
  intros Ht. assert (exists z, dep remaining x z) as [z Hz] by (inversion Ht; eauto).
  unfold dep, dependsOn in Hz. destruct (remaining !! x); [done|by apply elem_of_nil in Hz].
Qed.

#[local] Instance tc_dep_dec remaining x y : Decision (tc (dep remaining) x y).
Proof.
  destruct (remaining !! x) as [c|] eqn:E.
  - destruct (dependencyReaches (size remaining) y remaining x ∅) as [[[] V]| | |] eqn:Er.
    1: left.
    2: right.
    3-5: exfalso.
    all: destruct (reaches_iff remaining x y ltac:(by rewrite E)) as (f & W & Hf & Hiff).
    all: rewrite Er in Hf; try discriminate Hf; apply (inj Ok) in Hf; simplify_eq.
    + by apply Hiff.
    + by intros ?%Hiff.
  - right. intros Ht%tc_has_dep. rewrite E in Ht. by destruct Ht.
Defined.

(** When no component is ready, some component depends on itself. *)
Lemma stuck_cycle remaining staged :
  loopState remaining staged -> remaining <> ∅ -> readyStage remaining staged = [] ->
  exists n, tc (dep remaining) n n.
Proof.
  intros Hs Hne Hr.
  assert (Transitive (fun x y => tc (dep remaining) y x)) by (intros a b c Hab Hbc; by etrans).
  destruct (minimal_exists_elem_of_L (fun x y => tc (dep remaining) y x) (dom remaining)) as (x & Hx & Hm).
  - by rewrite dom_empty_iff_L.
  - apply elem_of_dom in Hx as [c Hc].
    assert (exists d, d ∈ c_DependsOn c /\ d ∉ staged) as (d & Hd & Hns).
    { destruct (forallb (fun d => bool_decide (d ∈ staged)) (c_DependsOn c)) eqn:E.
      - assert (x ∈ readyStage remaining staged) as Hin.
        { apply elem_of_readyStage. exists c. split; [done|]. intros d Hd%list_elem_of_In.
          rewrite forallb_forall in E. by apply E, bool_decide_eq_true in Hd. }
        rewrite Hr in Hin. by apply elem_of_nil in Hin.
      - apply not_true_iff_false in E. rewrite forallb_forall in E.
        destruct (decide (Exists (fun d => d ∉ staged) (c_DependsOn c))) as [Hex|Hnex].
        + by apply Exists_exists in Hex.
        + destruct E. intros d Hd. apply bool_decide_eq_true. apply dec_stable. intros Hn.
          apply Hnex, Exists_exists. exists d. split; [by apply list_elem_of_In|done]. }
    assert (dep remaining x d) as Hxd by (unfold dep, dependsOn; by rewrite Hc).
    exists x. etrans; [by apply tc_once|]. apply Hm; [|by apply tc_once].
    apply elem_of_dom. pose proof (ls_split _ _ Hs d) as Hl. rewrite decide_False in Hl by done.
    rewrite Hl. eapply Hclosed.  pose proof (ls_split _ _ Hs x) as Hlx. unfold dep, dependsOn in *. case_decide; [congruence|].
    rewrite <- Hlx, Hc. done.
Qed.

(** Each stage is sorted and not empty, and what a component in it depends on
    was staged before. *)
Fixpoint stagesOk (staged : gset string) (stages : list (list string)) : Prop :=
  match stages with
  | [] => True
  | stage :: stages =>
      stage <> [] /\ Sorted String.le stage /\
      (forall x y, x ∈ stage -> dep active x y -> y ∈ staged) /\
      stagesOk (list_to_set stage ∪ staged) stages
  end.

Lemma loopState_step remaining staged stage :
  loopState remaining staged ->
  (forall n, n ∈ stage <-> n ∈ readyStage remaining staged) ->
  loopState (foldr delete remaining stage) (list_to_set stage ∪ staged) /\
  (forall x y, x ∈ stage -> dep active x y -> y ∈ staged).
Proof.
  intros Hs Hst.
  assert (forall x, x ∈ stage -> x ∉ staged /\ forall y, dep active x y -> y ∈ staged) as Hready.
  { intros x Hx%Hst. apply elem_of_readyStage in Hx as (c & Hc & Hd).
    pose proof (ls_split _ _ Hs x) as Hl. case_decide; [congruence|]. split; [done|].
    intros y Hy. unfold dep, dependsOn in Hy. rewrite <- Hl, Hc in Hy. auto. }
  split; [|by intros x y Hx; apply Hready]. constructor.
  - intros n. rewrite lookup_foldr_delete_names. pose proof (ls_split _ _ Hs n) as Hl.
    destruct (decide (n ∈ stage)).
    + by rewrite decide_True by set_solver.
    + destruct (decide (n ∈ staged)); [by rewrite decide_True by set_solver|].
      rewrite decide_False; [done|]. rewrite elem_of_union, elem_of_list_to_set. tauto.
  - intros x y Hx Hxy. apply elem_of_union in Hx as [Hx%elem_of_list_to_set|Hx].
    + apply elem_of_union_r. by apply (Hready x).
    + apply elem_of_union_r. by eapply ls_staged.
  - intros x Hx Hxx. apply elem_of_union in Hx as [Hx%elem_of_list_to_set|Hx]; [|by eapply ls_acyclic].
    destruct (Hready x Hx) as [Hn Hd]. inversion Hxx as [? ? Hy|? y ? Hxy Hyx]; subst.
    + by apply Hn, Hd.
    + apply Hn. eapply staged_reach; [done|exact Hyx|]. by apply Hd.
Qed.

Lemma stagesLoop_spec fuel remaining staged :
  loopState remaining staged -> (size remaining <= fuel)%nat ->
  match stagesLoop fuel remaining staged with
  | Ok (inr stages) =>
      NoDup (concat stages) /\ (forall n, n ∈ concat stages <-> is_Some (remaining !! n)) /\
      stagesOk staged stages /\ forall n, ~ tc (dep active) n n
  | Ok (inl (CycleError cycle)) =>
      cycle <> [] /\ forall n, n ∈ cycle <-> tc (dep active) n n
  | _ => False
  end.
Proof.
  revert remaining staged. induction fuel as [|fuel IH]; intros remaining staged Hs Hf;
    cbn [stagesLoop]; (destruct (decide (remaining = ∅)) as [->|Hne];
    [split_and!; [constructor| |done|]|]).
  1,4: intros n; cbn; rewrite elem_of_nil, lookup_empty; split; [done|by intros []].
  1,3: intros n Hn; assert (n ∉ staged) as Hns by (intros Hin; by apply (ls_acyclic _ _ Hs n));
       apply (cycle_remains _ _ _ _ Hs Hns), tc_has_dep in Hn; rewrite lookup_empty in Hn; by destruct Hn.
  { destruct Hne. apply map_size_empty_iff. lia. }
  destruct (readyStage remaining staged) as [|s0 names] eqn:Er.
  - destruct (cycleMembers_spec remaining) as (cycle & -> & Hc). cbn [mbind res_bind].
    destruct (stuck_cycle _ _ Hs Hne Er) as [x Hx]. split.
    + intros Hnil. apply Hc in Hx. rewrite <- elem_of_sortNames, Hnil in Hx. by apply elem_of_nil in Hx.
    + intros n. rewrite elem_of_sortNames, Hc. split; [by apply (remaining_cycle _ staged)|].
      intros Hn. eapply cycle_remains; [done| |done]. intros Hin. by apply (ls_acyclic _ _ Hs n).
  - set (stage := sortNames (s0 :: names)).
    assert (forall n, n ∈ stage <-> n ∈ readyStage remaining staged) as Hst
      by (intros n; unfold stage; by rewrite elem_of_sortNames, Er).
    destruct (loopState_step _ _ stage Hs Hst) as [Hs' Hdeps].
    assert (stage <> []) as Hstne.
    { intros E. assert (s0 ∈ stage) as Hin by (apply elem_of_sortNames; by left).
      rewrite E in Hin. by apply elem_of_nil in Hin. }
    assert (size (foldr delete remaining stage) < size remaining)%nat as Hlt.
    { rewrite <- !size_dom. apply subset_size. apply strict_spec_alt. split.
      - intros n. rewrite !elem_of_dom, lookup_foldr_delete_names. by case_decide; [intros []|].
      - intros E. assert (s0 ∈ dom remaining) as Hin.
        { apply elem_of_dom. assert (s0 ∈ readyStage remaining staged) as Hr by (rewrite Er; by left).
          apply elem_of_readyStage in Hr as (c & -> & _). done. }
        rewrite <- E, elem_of_dom, lookup_foldr_delete_names in Hin.
        rewrite decide_True in Hin by (apply elem_of_sortNames; by left). by destruct Hin. }
    specialize (IH (foldr delete remaining stage) (list_to_set stage ∪ staged) Hs' ltac:(lia)).
    destruct (stagesLoop fuel _ _) as [[[|?|cycle]|stages]|?| |]; try done.
    cbn [mbind res_bind]. destruct IH as (Hnd & Hin & Hok & Hac). split_and!; try done.
    + cbn [concat]. apply NoDup_app. split_and!; [| |done].
      * unfold stage, sortNames. rewrite merge_sort_Permutation, <- Er. apply NoDup_readyStage.
      * intros n Hn Hn'. apply Hin in Hn'. rewrite lookup_foldr_delete_names, decide_True in Hn' by done.
        by destruct Hn'.
    + intros n. cbn [concat]. rewrite elem_of_app, Hin, lookup_foldr_delete_names.
      destruct (decide (n ∈ stage)) as [Hn|Hn].
      * split; [|by left]. intros _. apply Hst, elem_of_readyStage in Hn as (c & -> & _). done.
      * split; [by intros [|]|by right].
    + cbn [stagesOk]. split_and!; try done. apply Sorted_merge_sort. apply _.
Qed.
End stages.

Lemma missingDependencies_nil active :
  missingDependencies active = [] <-> forall x y, dep active x y -> is_Some (active !! y).
Proof.
  split.
  - intros Hm x y Hxy. unfold dep, dependsOn in Hxy. destruct (active !! x) as [c|] eqn:E;
      [|by apply elem_of_nil in Hxy].
    destruct (active !! y) as [|] eqn:Ey; [done|]. exfalso.
    assert (MkDependency x y ∈ missingDependencies active) as Hin; [|rewrite Hm in Hin; by apply elem_of_nil in Hin].
    unfold missingDependencies. apply list_elem_of_In, in_flat_map. exists (x, c).
    split; [by apply list_elem_of_In, elem_of_map_to_list|]. apply list_elem_of_In, list_elem_of_omap.
    exists y. split; [done|]. by rewrite Ey.
  - intros Hc. destruct (missingDependencies active) as [|[x y] l] eqn:E; [done|]. exfalso.
    assert (MkDependency x y ∈ missingDependencies active) as Hin by (rewrite E; by left).
    unfold missingDependencies in Hin. apply list_elem_of_In, in_flat_map in Hin as ([n c] & Hn & Hin).
    apply list_elem_of_In, elem_of_map_to_list in Hn.
    apply list_elem_of_In, list_elem_of_omap in Hin as (d & Hd & Hm).
    destruct (active !! d) eqn:Ed; [done|]. simplify_eq.
    destruct (Hc x y) as [z Hz]; [unfold dep, dependsOn; by rewrite Hn|]. congruence.
Qed.

Lemma initial_loopState active : loopState active active ∅.
Proof.
  constructor; [|set_solver|set_solver]. intros n. rewrite decide_False by set_solver. done.
Qed.

(** The answer of [StartStages] in all cases: the stages, a missing dependency,
    or the components on a cycle. *)
Lemma StartStages_spec graph skipped :
  let active := activeComponents graph skipped in
  match StartStages graph skipped with
  | Ok (inr stages) =>
      NoDup (concat stages) /\ (forall n, n ∈ concat stages <-> is_Some (active !! n)) /\
      stagesOk active ∅ stages /\ forall n, ~ tc (dep active) n n
  | Ok (inl (MissingDependenciesError missing)) =>
      missing <> [] /\ missing ≡ₚ missingDependencies active
  | Ok (inl (CycleError cycle)) => cycle <> [] /\ forall n, n ∈ cycle <-> tc (dep active) n n
  | _ => False
  end.
Proof.
  cbv zeta. unfold StartStages. set (active := activeComponents graph skipped).
  destruct (missingDependencies active) as [|m ms] eqn:E.
  - pose proof (stagesLoop_spec active (proj1 (missingDependencies_nil active) E) (size active) active ∅
      (initial_loopState active) ltac:(lia)) as Hs.
    by destruct (stagesLoop _ _ _) as [[[]|]| | |].
  - split; [|apply merge_sort_Permutation]. intros Hn.
    pose proof (merge_sort_Permutation dependencyLe (m :: ms)) as Hp. rewrite Hn in Hp.
    by apply Permutation_nil in Hp.
Qed.

