(* ===== verification/PythonRandom.v ===== *)
(** * The random source of coin selection

    Model of [wallet/coin_selection_python_random.go], the MT19937 generator
    that reproduces CPython's [random.Random], and of the interface
    [coinSelectionRandom] of [wallet/coin_selection.go] that the selector is
    written against.  A [Float64] is represented by its numerator over [2 ^ 53],
    which is exact for both implementations of the interface. *)

From S2P Require Import Prelude Float.

(** [coinSelectionRandom]: a source of multiples of [2 ^ -53] in [[0, 1)]. *)
Class CoinSelectionRandom (R : Type) := {
  Float64 : R -> Z * R;
  Float64_range : forall r, 0 <= fst (Float64 r) < 2 ^ 53
}.

Definition coinSelectionMTSize : nat := 624.
Definition coinSelectionMTPeriod : nat := 397.

Record coinSelectionPythonRandom := MkRandom { mt_state : list Z; mt_index : nat }.

Definition at_ (state : list Z) (i : nat) : Z := nth i state 0.
Definition mul32 (a b : Z) : Z := u32 (a * b).
Definition add32 (a b : Z) : Z := u32 (a + b).
Definition sub32 (a b : Z) : Z := u32 (a - b).
(** [previous ^ (previous >> 30)] *)
Definition mix30 (previous : Z) : Z := Z.lxor previous (Z.shiftr previous 30).

(** [state[i] = 1812433253 * mix30(state[i-1]) + i], from [index] on. *)
Fixpoint seedFrom (previous : Z) (index count : nat) : list Z :=
  match count with
  | O => []
  | S count =>
      let next := add32 (mul32 1812433253 (mix30 previous)) (Z.of_nat index) in
      next :: seedFrom next (S index) count
  end.
Definition initialState : list Z :=
  19650218 :: seedFrom 19650218 1 (coinSelectionMTSize - 1).

(** [stateIndex++; if stateIndex >= size { state[0] = state[size-1]; stateIndex = 1 }] *)
Definition advance (state : list Z) (stateIndex : nat) : list Z * nat :=
  if (coinSelectionMTSize <=? S stateIndex)%nat
  then (<[0%nat := at_ state (coinSelectionMTSize - 1)]> state, 1%nat)
  else (state, S stateIndex).

Fixpoint mixKey (iterations : nat) (key : list Z) (state : list Z) (stateIndex keyIndex : nat)
  : list Z * nat :=
  match iterations with
  | O => (state, stateIndex)
  | S iterations =>
      let previous := at_ state (stateIndex - 1) in
      let value := add32 (add32 (Z.lxor (at_ state stateIndex) (mul32 (mix30 previous) 1664525))
                     (at_ key keyIndex)) (Z.of_nat keyIndex) in
      let '(state, stateIndex) := advance (<[stateIndex := value]> state) stateIndex in
      let keyIndex := if (length key <=? S keyIndex)%nat then O else S keyIndex in
      mixKey iterations key state stateIndex keyIndex
  end.
Fixpoint mixIndex (iterations : nat) (state : list Z) (stateIndex : nat) : list Z :=
  match iterations with
  | O => state
  | S iterations =>
      let previous := at_ state (stateIndex - 1) in
      let value := sub32 (Z.lxor (at_ state stateIndex) (mul32 (mix30 previous) 1566083941))
                     (Z.of_nat stateIndex) in
      let '(state, stateIndex) := advance (<[stateIndex := value]> state) stateIndex in
      mixIndex iterations state stateIndex
  end.

Definition newCoinSelectionPythonRandom (key : list Z) : coinSelectionPythonRandom :=
  let '(state, stateIndex) :=
    mixKey (Nat.max coinSelectionMTSize (length key)) key initialState 1 0 in
  let state := mixIndex (coinSelectionMTSize - 1) state stateIndex in
  MkRandom (<[0%nat := 0x80000000]> state) coinSelectionMTSize.

(** The key of a 64-bit seed: its low word, and its high word unless zero. *)
Definition seedKey (magnitude : Z) : list Z :=
  let high := Z.shiftr magnitude 32 in
  if high =? 0 then [u32 magnitude] else [u32 magnitude; high].
(** [uint64(-(seed + 1)) + 1] is the magnitude of every negative [int64]. *)
Definition newCoinSelectionPythonRandomFromInt (seed : Z) : coinSelectionPythonRandom :=
  newCoinSelectionPythonRandom
    (seedKey (if seed <? 0 then u64 (u64 (i64 (- (i64 (seed + 1)))) + 1) else seed)).

(** From a string, given as its runes. *)
Definition stringHash (seed : list Z) : Z :=
  let hash := match seed with first :: _ => u64 (Z.shiftl first 7) | [] => 0 end in
  let hash := fold_left (fun hash character => Z.lxor (u64 (1000003 * hash)) character) seed hash in
  Z.lxor hash (blen seed).
Definition newCoinSelectionPythonRandomFromRunes (seed : list Z) : coinSelectionPythonRandom :=
  newCoinSelectionPythonRandom (seedKey (stringHash seed)).

(** One pass over the state when all its words are used. *)
Fixpoint twist (count : nat) (index : nat) (state : list Z) : list Z :=
  match count with
  | O => state
  | S count =>
      let next := if (S index =? coinSelectionMTSize)%nat then O else S index in
      let period := (index + coinSelectionMTPeriod)%nat in
      let period := if (coinSelectionMTSize <=? period)%nat then (period - coinSelectionMTSize)%nat
                    else period in
      let value := Z.lor (Z.land (at_ state index) 0x80000000) (Z.land (at_ state next) 0x7fffffff) in
      let word := Z.lxor (at_ state period) (Z.shiftr value 1) in
      let word := if negb (Z.land value 1 =? 0) then Z.lxor word 0x9908b0df else word in
      twist count (S index) (<[index := word]> state)
  end.

Definition Uint32 (random : coinSelectionPythonRandom) : Z * coinSelectionPythonRandom :=
  let random := if (coinSelectionMTSize <=? mt_index random)%nat
                then MkRandom (twist coinSelectionMTSize 0 (mt_state random)) 0 else random in
  let value := at_ (mt_state random) (mt_index random) in
  let random := MkRandom (mt_state random) (S (mt_index random)) in
  let value := Z.lxor value (Z.shiftr value 11) in
  let value := Z.lxor value (Z.land (u32 (Z.shiftl value 7)) 0x9d2c5680) in
  let value := Z.lxor value (Z.land (u32 (Z.shiftl value 15)) 0xefc60000) in
  let value := Z.lxor value (Z.shiftr value 18) in
  (u32 value, random).

(** [float64(high*67108864 + low) / 9007199254740992] *)
Definition pythonFloat64 (random : coinSelectionPythonRandom) : Z * coinSelectionPythonRandom :=
  let '(a, random) := Uint32 random in
  let '(b, random) := Uint32 random in
  (Z.shiftr a 5 * 67108864 + Z.shiftr b 6, random).

(** The first outputs of CPython's [random.Random(1)], [Random(-5)] and
    [Random(1099511627783)], times [2 ^ 53]. *)
Example python_random :
  map (fun seed => fst (pythonFloat64 (newCoinSelectionPythonRandomFromInt seed)))
    [1; -5; 1099511627783] = [1210245519433057; 5610599681987424; 5527752211776145].
Proof. vm_compute. reflexivity. Qed.

Lemma Uint32_range random : 0 <= fst (Uint32 random) < 2 ^ 32.
Proof. unfold Uint32. cbn [fst]. apply u32_range. Qed.

#[export, refine] Instance pythonRandom : CoinSelectionRandom coinSelectionPythonRandom :=
  { Float64 := pythonFloat64 }.
Proof.
  intros random. unfold pythonFloat64.
  destruct (Uint32 random) as [a r] eqn:Ea. destruct (Uint32 r) as [b r'] eqn:Eb. cbn [fst].
  pose proof (Uint32_range random) as Ha. rewrite Ea in Ha.
  pose proof (Uint32_range r) as Hb. rewrite Eb in Hb. cbn [fst] in *.
  rewrite !Z.shiftr_div_pow2 by lia. change (2 ^ 5) with 32. change (2 ^ 6) with 64.
  pose proof (Z.div_mod a 32). pose proof (Z.mod_pos_bound a 32).
  pose proof (Z.div_mod b 64). pose proof (Z.mod_pos_bound b 64). lia.
Defined.

(** [int(random.Float64() * float64(index + 1))] *)
Definition swapIndex (numerator : Z) (index : Z) : Z := round53 (numerator * (index + 1)) / 2 ^ 53.

(** The rounded product never reaches [index + 1], so the swap is in range. *)
Lemma swapIndex_range numerator index :
  0 <= numerator < 2 ^ 53 -> 0 <= index -> 0 <= swapIndex numerator index <= index.
Proof.
  intros Hn Hi. unfold swapIndex. split.
  - apply Z.div_pos; [|lia]. apply round53_nonneg. lia.
  - pose proof (round53_below numerator (index + 1) Hn ltac:(lia)) as Hb.
    apply Z.div_lt_upper_bound in Hb; lia.
Qed.
