(* ===== verification/CoinSelection.v ===== *)
(** * Coin selection

    Model of [wallet/coin_selection.go].  The selector is written against the
    interface [CoinSelectionRandom] of PythonRandom.v.  The caller's slice is
    reordered by the code, so a strategy returns it with the selector and the
    selection; indexing a slice out of range is a panic. *)

From S2P Require Import Prelude Digest Hex Script ScriptBuild Transaction Float PythonRandom.

Definition CoinSelectionMaximumTries : Z := 100000.

Record TransactionSpendable := MkSpendable {
  s_Input : TransactionInput;
  s_EffectiveAmount : Z
}.
Record CoinSelectionEstimator := MkEstimator {
  e_Spendable : TransactionSpendable;
  e_Fee : Z;
  e_Height : Z
}.
Definition amount (e : CoinSelectionEstimator) : Z := s_EffectiveAmount (e_Spendable e).

Record CoinSelector (R : Type) := MkSelector {
  sel_Target : Z;
  sel_CostOfChange : Z;
  sel_ExactMatch : bool;
  sel_Tries : Z;
  sel_random : R
}.
Arguments MkSelector {_}.
Arguments sel_Target {_}.
Arguments sel_CostOfChange {_}.
Arguments sel_ExactMatch {_}.
Arguments sel_Tries {_}.
Arguments sel_random {_}.

Definition NewCoinSelectorWithSeed (target costOfChange seed : Z)
  : CoinSelector coinSelectionPythonRandom :=
  MkSelector target costOfChange false 0 (newCoinSelectionPythonRandomFromInt seed).

Definition coinSelectionAvailable (estimators : list CoinSelectionEstimator) : Z :=
  fold_left (fun available e => i64 (available + amount e)) estimators 0.

(** [sort.SliceStable] by decreasing effective amount. *)
Fixpoint insertStable (e : CoinSelectionEstimator) (l : list CoinSelectionEstimator)
  : list CoinSelectionEstimator :=
  match l with
  | [] => [e]
  | x :: l => if amount e <? amount x then x :: insertStable e l else e :: x :: l
  end.
Definition sortStable (l : list CoinSelectionEstimator) : list CoinSelectionEstimator :=
  foldr insertStable [] l.

(** [estimators[index]] *)
Definition estimatorAt (estimators : list CoinSelectionEstimator) (index : nat)
  : res CoinSelectionEstimator :=
  match estimators !! index with Some e => Ok e | None => Panic end.

(** ** Branch and bound *)

(** The variables of the search; [currentSelection] is a stack, its last element
    first, so that the index of its top is the length of its tail. *)
Record search := MkSearch {
  b_value : Z;
  b_available : Z;
  b_selection : list bool;
  b_bestWaste : Z;
  b_best : list bool
}.

(** [for len(cs) > 0 && !cs[len(cs)-1] { pop; available += ... }] *)
Fixpoint unwind (estimators : list CoinSelectionEstimator) (selection : list bool) (available : Z)
  : res (list bool * Z) :=
  match selection with
  | false :: selection =>
      e ← estimatorAt estimators (length selection);
      unwind estimators selection (i64 (available + amount e))
  | _ => Ok (selection, available)
  end.

Section selector.
Context {R : Type} `{CoinSelectionRandom R}.

Inductive turn := Continue (st : search) | Break (st : search).

(** One iteration of the search loop. *)
Definition branchStep (target costOfChange : Z) (estimators : list CoinSelectionEstimator)
    (st : search) : res turn :=
  let outside := (i64 (b_value st + b_available st) <? target) ||
                 (i64 (target + costOfChange) <? b_value st) in
  let found := negb outside && (target <=? b_value st) in
  let newWaste := i64 (b_value st - target) in
  let st := if found && (newWaste <=? b_bestWaste st)
            then MkSearch (b_value st) (b_available st) (b_selection st) newWaste
                   (rev (b_selection st))
            else st in
  if outside || found then
    '(selection, available) ← unwind estimators (b_selection st) (b_available st);
    match selection with
    | [] => Ok (Break (MkSearch (b_value st) available [] (b_bestWaste st) (b_best st)))
    | _ :: selection =>
        e ← estimatorAt estimators (length selection);
        Ok (Continue (MkSearch (i64 (b_value st - amount e)) available (false :: selection)
                        (b_bestWaste st) (b_best st)))
    end
  else
    let index := length (b_selection st) in
    estimator ← estimatorAt estimators index;
    let available := i64 (b_available st - amount estimator) in
    skip ← match b_selection st with
           | false :: _ =>
               previous ← estimatorAt estimators (index - 1);
               Ok ((amount estimator =? amount previous) && (e_Fee estimator =? e_Fee previous))
           | _ => Ok false
           end;
    Ok (Continue (
      if skip : bool
      then MkSearch (b_value st) available (false :: b_selection st) (b_bestWaste st) (b_best st)
      else MkSearch (i64 (b_value st + amount estimator)) available (true :: b_selection st)
             (b_bestWaste st) (b_best st))).

(** [fuel] is [CoinSelectionMaximumTries - selector.Tries]: running out of it
    is the loop condition, not a failure of the model. *)
Fixpoint branchLoop (fuel : nat) (target costOfChange : Z)
    (estimators : list CoinSelectionEstimator) (st : search) (tries : Z) : res (search * Z) :=
  match fuel with
  | O => Ok (st, tries)
  | S fuel =>
      turn ← branchStep target costOfChange estimators st;
      match turn with
      | Break st => Ok (st, tries + 1)
      | Continue st => branchLoop fuel target costOfChange estimators st (tries + 1)
      end
  end.

(** The estimators a selection includes. *)
Fixpoint included (selection : list bool) (estimators : list CoinSelectionEstimator)
  : list CoinSelectionEstimator :=
  match selection, estimators with
  | include :: selection, e :: estimators =>
      if include : bool then e :: included selection estimators else included selection estimators
  | _, _ => []
  end.

(** The state of a strategy's call: the selector and the caller's slice
    afterwards, and the selection. *)
Abbreviation outcome :=
  (CoinSelector R * list CoinSelectionEstimator * list CoinSelectionEstimator)%type.

Definition BranchAndBound (selector : CoinSelector R) (estimators : list CoinSelectionEstimator)
    (available : Z) : res outcome :=
  let estimators := sortStable estimators in
  '(st, tries) ← branchLoop (Z.to_nat (CoinSelectionMaximumTries - sel_Tries selector))
    (sel_Target selector) (sel_CostOfChange selector) estimators
    (MkSearch 0 available [] (sel_CostOfChange selector) []) (sel_Tries selector);
  Ok match b_best st with
     | [] => (MkSelector (sel_Target selector) (sel_CostOfChange selector)
                (sel_ExactMatch selector) tries (sel_random selector), estimators, [])
     | best => (MkSelector (sel_Target selector) (sel_CostOfChange selector)
                  true tries (sel_random selector), estimators, included best estimators)
     end.

(** ** Closest match *)

Fixpoint closestLoop (target : Z) (best : option (CoinSelectionEstimator * Z))
    (estimators : list CoinSelectionEstimator) : option (CoinSelectionEstimator * Z) :=
  match estimators with
  | [] => best
  | e :: estimators =>
      if amount e <? target then closestLoop target best estimators
      else
        let change := i64 (amount e - target) in
        let better := match best with None => true | Some (_, smallest) => change <? smallest end in
        closestLoop target (if better then Some (e, change) else best) estimators
  end.
Definition ClosestMatch (selector : CoinSelector R) (estimators : list CoinSelectionEstimator)
  : outcome :=
  (selector, estimators,
   match closestLoop (i64 (sel_Target selector + sel_CostOfChange selector)) None estimators with
   | Some (e, _) => [e]
   | None => []
   end).

(** ** Random draw *)

(** [estimators[i], estimators[j] = estimators[j], estimators[i]] *)
Definition swap (i j : nat) (l : list CoinSelectionEstimator) : res (list CoinSelectionEstimator) :=
  a ← estimatorAt l i; b ← estimatorAt l j; Ok (<[j := a]> (<[i := b]> l)).
(** The shuffle from [index] down to 1. *)
Fixpoint shuffle (index : nat) (random : R) (l : list CoinSelectionEstimator)
  : res (R * list CoinSelectionEstimator) :=
  match index with
  | O => Ok (random, l)
  | S below =>
      let '(fraction, random) := Float64 random in
      l ← swap index (Z.to_nat (swapIndex fraction (Z.of_nat index))) l;
      shuffle below random l
  end.
Fixpoint drawLoop (target : Z) (selection : list CoinSelectionEstimator) (total : Z)
    (estimators : list CoinSelectionEstimator) : list CoinSelectionEstimator :=
  match estimators with
  | [] => []
  | e :: estimators =>
      let selection := selection ++ [e] in
      let total := i64 (total + amount e) in
      if target <=? total then selection else drawLoop target selection total estimators
  end.
Definition RandomDraw (selector : CoinSelector R) (estimators : list CoinSelectionEstimator)
  : res outcome :=
  '(random, shuffled) ← shuffle (length estimators - 1) (sel_random selector) estimators;
  Ok (MkSelector (sel_Target selector) (sel_CostOfChange selector) (sel_ExactMatch selector)
        (sel_Tries selector) random, shuffled,
      drawLoop (i64 (sel_Target selector + sel_CostOfChange selector)) [] 0 shuffled).

(** ** Strategies *)

Definition Standard (selector : CoinSelector R) (estimators : list CoinSelectionEstimator)
    (available : Z) : res outcome :=
  '(selector, estimators, selection) ← BranchAndBound selector estimators available;
  match selection with
  | _ :: _ => Ok (selector, estimators, selection)
  | [] =>
      match ClosestMatch selector estimators with
      | (selector, estimators, e :: selection) => Ok (selector, estimators, e :: selection)
      | (selector, estimators, []) => RandomDraw selector estimators
      end
  end.

(** The confirmed estimators are a new slice: the caller's keeps its order. *)
Definition OnlyConfirmed (selector : CoinSelector R) (estimators : list CoinSelectionEstimator)
  : res outcome :=
  let confirmed := List.filter (fun e => 0 <? e_Height e) estimators in
  match confirmed with
  | [] => Ok (selector, estimators, [])
  | _ =>
      let confirmedAvailable := coinSelectionAvailable confirmed in
      if confirmedAvailable <? sel_Target selector then Ok (selector, estimators, [])
      else
        '(selector, _, selection) ← Standard selector confirmed confirmedAvailable;
        Ok (selector, estimators, selection)
  end.

Definition PreferConfirmed (selector : CoinSelector R) (estimators : list CoinSelectionEstimator)
    (available : Z) : res outcome :=
  '(selector, estimators, selection) ← OnlyConfirmed selector estimators;
  match selection with
  | _ :: _ => Ok (selector, estimators, selection)
  | [] => Standard selector estimators available
  end.

Definition Select (selector : CoinSelector R) (estimators : list CoinSelectionEstimator)
    (strategy : string) : res outcome :=
  match estimators with
  | [] => Ok (selector, estimators, [])
  | _ =>
      let available := coinSelectionAvailable estimators in
      if available <? sel_Target selector then Ok (selector, estimators, [])
      else if String.eqb strategy "" || String.eqb strategy "standard" then
        Standard selector estimators available
      else if String.eqb strategy "prefer_confirmed" then PreferConfirmed selector estimators available
      else if String.eqb strategy "only_confirmed" then OnlyConfirmed selector estimators
      else if String.eqb strategy "branch_and_bound" then BranchAndBound selector estimators available
      else if String.eqb strategy "closest_match" then Ok (ClosestMatch selector estimators)
      else if String.eqb strategy "random_draw" then RandomDraw selector estimators
      else Err ("unknown coin selection strategy: " ++ strategy)
  end.
End selector.

(** A coin of a given effective amount, to try the definitions on. *)
Definition exampleInput : TransactionInput :=
  MkInput 0 zeroHash [] 0 0 [] (inputScriptOf []) None.
Definition exampleCoin (value height : Z) : CoinSelectionEstimator :=
  MkEstimator (MkSpendable exampleInput value) 0 height.

Example select_examples :
  map (fun '(target, strategy) =>
      match Select (NewCoinSelectorWithSeed target 5 1)
              (map (fun v => exampleCoin v v) [10; 30; 25; 7; 40]) strategy with
      | Ok (_, _, selection) => Some (map amount selection)
      | _ => None
      end) [(47, ""); (33, "standard"); (113, ""); (20, "closest_match"); (60, "random_draw"); (1, "x")]%string =
  [Some [30; 10; 7]; Some [25; 10]; Some []; Some [25]; Some [30; 40]; None].
Proof. vm_compute. reflexivity. Qed.

(** ** Sums *)

Definition sumAmounts (l : list CoinSelectionEstimator) : Z := foldr (fun e n => amount e + n) 0 l.
Definition sumAbs (l : list CoinSelectionEstimator) : Z := foldr (fun e n => Z.abs (amount e) + n) 0 l.

(** Amounts the program deals with: nothing overflows. *)
Definition fits (target costOfChange : Z) (l : list CoinSelectionEstimator) : Prop :=
  0 <= costOfChange /\ Z.abs target + costOfChange + sumAbs l <= max_i64.

Lemma sumAmounts_app a b : sumAmounts (a ++ b) = sumAmounts a + sumAmounts b.
Proof. unfold sumAmounts. induction a as [|x a IH]; cbn in *; lia. Qed.
Lemma sumAbs_app a b : sumAbs (a ++ b) = sumAbs a + sumAbs b.
Proof. unfold sumAbs. induction a as [|x a IH]; cbn in *; lia. Qed.
Lemma sumAmounts_cons e l : sumAmounts (e :: l) = amount e + sumAmounts l.
Proof. done. Qed.
Lemma sumAbs_cons e l : sumAbs (e :: l) = Z.abs (amount e) + sumAbs l.
Proof. done. Qed.
Lemma sumAbs_nonneg l : 0 <= sumAbs l.
Proof. induction l as [|x l IH]; [done|]. rewrite sumAbs_cons. lia. Qed.
Lemma sum_le_abs l : Z.abs (sumAmounts l) <= sumAbs l.
Proof. induction l as [|x l IH]; [done|]. rewrite sumAmounts_cons, sumAbs_cons. lia. Qed.
#[export] Instance sumAmounts_perm : Proper ((≡ₚ) ==> (=)) sumAmounts.
Proof. intros a b Hp. induction Hp; rewrite ?sumAmounts_cons; lia. Qed.
#[export] Instance sumAbs_perm : Proper ((≡ₚ) ==> (=)) sumAbs.
Proof. intros a b Hp. induction Hp; rewrite ?sumAbs_cons; lia. Qed.
Lemma sumAbs_submseteq a b : a ⊆+ b -> sumAbs a <= sumAbs b.
Proof.
  intros (k & Hk)%submseteq_Permutation. rewrite Hk, sumAbs_app. pose proof (sumAbs_nonneg k). lia.
Qed.
Lemma fits_submseteq t c a b : a ⊆+ b -> fits t c b -> fits t c a.
Proof. intros Hs [? ?]. pose proof (sumAbs_submseteq _ _ Hs). split; lia. Qed.

Lemma wrapped_total l acc :
  Z.abs acc + sumAbs l <= max_i64 ->
  fold_left (fun available e => i64 (available + amount e)) l acc = acc + sumAmounts l.
Proof.
  revert acc. induction l as [|e l IH]; intros acc Hb; [cbn; lia|].
  rewrite sumAbs_cons in Hb. pose proof (sumAbs_nonneg l). cbn [fold_left].
  rewrite i64_id by (unfold min_i64, max_i64 in *; lia). rewrite IH by lia.
  rewrite sumAmounts_cons. lia.
Qed.
Lemma available_sum t c l : fits t c l -> coinSelectionAvailable l = sumAmounts l.
Proof.
  intros [? ?]. unfold coinSelectionAvailable. rewrite wrapped_total by (cbn; lia). lia.
Qed.

(** ** The sort *)

Lemma insertStable_perm e l : insertStable e l ≡ₚ e :: l.
Proof.
  induction l as [|x l IH]; cbn; [done|]. case_match; [|done]. rewrite IH. constructor.
Qed.
Lemma sortStable_perm l : sortStable l ≡ₚ l.
Proof. unfold sortStable. induction l as [|e l IH]; cbn; [done|]. by rewrite insertStable_perm, IH. Qed.

Definition notSmaller (a b : CoinSelectionEstimator) : Prop := amount b <= amount a.
Lemma sortStable_sorted l : StronglySorted notSmaller (sortStable l).
Proof.
  unfold sortStable. induction l as [|e l IH]; cbn; [constructor|].
  set (s := foldr _ _ _) in *. clearbody s. induction IH as [|x s Hs IHs Hx]; cbn.
  - repeat constructor.
  - destruct (Z.ltb_spec (amount e) (amount x)).
    + constructor; [done|]. rewrite insertStable_perm. constructor; [unfold notSmaller; lia|done].
    + constructor; [by constructor|]. constructor; [done|].
      eapply Forall_impl; [exact Hx|]. unfold notSmaller. intros. lia.
Qed.
(** Coins of equal amounts keep their order. *)
Lemma sortStable_stable l v :
  List.filter (fun e => amount e =? v) (sortStable l) = List.filter (fun e => amount e =? v) l.
Proof.
  unfold sortStable. induction l as [|e l IH]; cbn [foldr List.filter]; [done|]. rewrite <- IH.
  set (s := foldr _ _ _). clearbody s. clear IH. induction s as [|x s IH]; cbn [insertStable List.filter]; [done|].
  destruct (Z.ltb_spec (amount e) (amount x)); cbn [List.filter]; [|done].
  rewrite IH. destruct (Z.eqb_spec (amount x) v), (Z.eqb_spec (amount e) v); done || lia.
Qed.

(** ** Branch and bound *)

Lemma included_sublist sel es : included sel es `sublist_of` es.
Proof.
  revert es. induction sel as [|b sel IH]; intros [|e es]; cbn; try apply sublist_nil_l.
  destruct b; by constructor.
Qed.
Lemma included_drop sel es :
  (length sel <= length es)%nat -> included sel es ++ drop (length sel) es `sublist_of` es.
Proof.
  revert es. induction sel as [|b sel IH]; intros [|e es] Hl; cbn in *; [done|done|lia|].
  specialize (IH es ltac:(lia)). destruct b; cbn; by constructor.
Qed.
Lemma included_snoc sel es e b :
  es !! length sel = Some e -> included (sel ++ [b]) es = included sel es ++ (if b then [e] else []).
Proof.
  revert es. induction sel as [|c sel IH]; intros [|x es] He; cbn in *; simplify_eq.
  - by destruct b.
  - rewrite IH by done. by destruct c.
Qed.

Section search_proofs.
Context (target costOfChange : Z) (es : list CoinSelectionEstimator).
Hypothesis Hfits : fits target costOfChange es.

Definition chosen (stack : list bool) : Z := sumAmounts (included (rev stack) es).
Definition left_ (stack : list bool) : Z := sumAmounts (drop (length stack) es).

Definition bestOk (st : search) : Prop :=
  b_best st = [] \/
  target <= sumAmounts (included (b_best st) es) <= target + costOfChange.
Definition searchOk (st : search) : Prop :=
  (length (b_selection st) <= length es)%nat /\ b_value st = chosen (b_selection st) /\
  b_available st = left_ (b_selection st) /\ bestOk st.

Lemma chosen_bound stack : Z.abs (chosen stack) <= sumAbs es.
Proof.
  unfold chosen. etrans; [apply sum_le_abs|]. apply sumAbs_submseteq.
  apply sublist_submseteq, included_sublist.
Qed.
Lemma left_bound stack : Z.abs (left_ stack) <= sumAbs es.
Proof.
  unfold left_. etrans; [apply sum_le_abs|]. apply sumAbs_submseteq.
  apply sublist_submseteq, sublist_drop.
Qed.
Lemma chosen_left stack : (length stack <= length es)%nat -> Z.abs (chosen stack + left_ stack) <= sumAbs es.
Proof.
  unfold chosen, left_. intros Hl. rewrite <- sumAmounts_app. etrans; [apply sum_le_abs|].
  apply sumAbs_submseteq, sublist_submseteq. rewrite <- length_rev. by apply included_drop; rewrite length_rev.
Qed.

Lemma push_sums stack e :
  es !! length stack = Some e ->
  left_ (false :: stack) = left_ stack - amount e /\ left_ (true :: stack) = left_ stack - amount e /\
  chosen (false :: stack) = chosen stack /\ chosen (true :: stack) = chosen stack + amount e.
Proof.
  intros He. unfold left_, chosen. cbn [length rev].
  rewrite !(included_snoc _ _ e) by by rewrite length_rev. rewrite app_nil_r, sumAmounts_app.
  rewrite (drop_S es e (length stack) He), !sumAmounts_cons. cbn. lia.
Qed.

Lemma unwind_spec stack :
  (length stack <= length es)%nat ->
  exists stack', unwind es stack (left_ stack) = Ok (stack', left_ stack') /\
    (length stack' <= length stack)%nat /\ chosen stack' = chosen stack /\
    (stack' = [] \/ exists s, stack' = true :: s).
Proof.
  induction stack as [|b stack IH]; intros Hl; cbn [unwind]; [by exists []; auto|].
  destruct b; [exists (true :: stack); split_and!; eauto|]. cbn [length] in Hl.
  destruct (lookup_lt_is_Some_2 es (length stack) ltac:(lia)) as [e He].
  unfold estimatorAt. rewrite He. cbn [mbind res_bind].
  destruct (push_sums stack e He) as (Hl0 & _ & Hc0 & _).
  pose proof (left_bound stack). destruct Hfits as [? ?].
  replace (left_ (false :: stack) + amount e) with (left_ stack) by lia.
  rewrite i64_id by (unfold min_i64, max_i64 in *; lia).
  destruct (IH ltac:(lia)) as (s' & -> & ? & ? & ?). exists s'. split_and!; [done|cbn; lia|congruence|done].
Qed.

Lemma branchStep_ok st :
  searchOk st ->
  exists t, branchStep target costOfChange es st = Ok t /\
    searchOk (match t with Continue st => st | Break st => st end).
Proof.
  intros (Hlen & Hval & Hav & Hbest). destruct Hfits as [Hc Hf].
  pose proof (chosen_bound (b_selection st)) as Hcb. pose proof (chosen_left _ Hlen) as Hcl.
  unfold branchStep. rewrite Hval, Hav.
  rewrite (i64_id (chosen (b_selection st) + left_ (b_selection st))) by (unfold min_i64, max_i64 in *; lia).
  rewrite (i64_id (target + costOfChange)) by (unfold min_i64, max_i64 in *; lia).
  rewrite (i64_id (chosen (b_selection st) - target)) by (unfold min_i64, max_i64 in *; lia).
  set (outside := (chosen (b_selection st) + left_ (b_selection st) <? target)
    || (target + costOfChange <? chosen (b_selection st))).
  set (found := negb outside && (target <=? chosen (b_selection st))).
  set (st1 := if found && (chosen (b_selection st) - target <=? b_bestWaste st) then _ else st).
  assert (b_selection st1 = b_selection st /\ b_value st1 = chosen (b_selection st) /\
    b_available st1 = left_ (b_selection st)) as (Es & Ev & Ea) by (unfold st1; by case_match).
  assert (bestOk st1) as Hbest1.
  { unfold st1. case_match eqn:E; [|done]. right.
    change (target <= chosen (b_selection st) <= target + costOfChange).
    unfold found, outside in E. bool_props. lia. }
  clearbody st1. rewrite Es, Ev, Ea.
  destruct (outside || found) eqn:Eb.
  - destruct (unwind_spec _ Hlen) as (stack & -> & Hls & Hcs & [->|[s ->]]); cbn [mbind res_bind].
    + eexists. split; [done|]. unfold searchOk. cbn [b_selection b_value b_available].
      split_and!; [cbn; lia|by rewrite Hcs|done|done].
    + cbn [length] in Hls. destruct (lookup_lt_is_Some_2 es (length s) ltac:(lia)) as [e He].
      unfold estimatorAt. rewrite He. cbn [mbind res_bind]. eexists. split; [done|].
      destruct (push_sums s e He) as (Hl0 & Hl1 & Hc0 & Hc1).
      pose proof (chosen_bound s). rewrite <- Hcs, Hc1.
      rewrite i64_id by (unfold min_i64, max_i64 in *; lia). unfold searchOk.
      cbn [b_selection b_value b_available length]. split_and!; [lia|lia|lia|done].
  - apply orb_false_iff in Eb as [Eo Ef]. unfold found in Ef. rewrite Eo in Ef. cbn in Ef.
    unfold outside in Eo. bool_props.
    assert (length (b_selection st) < length es)%nat as Hlt.
    { destruct (decide (length (b_selection st) < length es)%nat); [done|]. exfalso.
      assert (left_ (b_selection st) = 0); [|lia]. unfold left_. rewrite drop_ge by lia. done. }
    destruct (lookup_lt_is_Some_2 es _ Hlt) as [e He].
    assert (estimatorAt es (length (b_selection st)) = Ok e) as Hat by (unfold estimatorAt; by rewrite He).
    cbv zeta. rewrite Hat. cbn [mbind res_bind].
    destruct (push_sums _ e He) as (Hl0 & Hl1 & Hc0 & Hc1).
    pose proof (left_bound (true :: b_selection st)). pose proof (chosen_bound (true :: b_selection st)).
    rewrite (i64_id (left_ (b_selection st) - amount e)) by (unfold min_i64, max_i64 in *; lia).
    rewrite (i64_id (chosen (b_selection st) + amount e)) by (unfold min_i64, max_i64 in *; lia).
    assert (exists skip : bool, match b_selection st with
           | false :: _ =>
               previous ← estimatorAt es (length (b_selection st) - 1);
               Ok ((amount e =? amount previous) && (e_Fee e =? e_Fee previous))
           | _ => Ok false end = Ok skip) as [skip ->].
    { destruct (b_selection st) as [|[] s]; [by eexists..|]. cbn [length] in *.
      destruct (lookup_lt_is_Some_2 es (length s) ltac:(lia)) as [x Hx].
      unfold estimatorAt. rewrite Nat.sub_1_r. cbn [Nat.pred]. rewrite Hx. by eexists. }
    cbn [mbind res_bind]. eexists. split; [done|]. unfold searchOk.
    destruct skip; cbn [b_selection b_value b_available length]; split_and!; done || lia.
Qed.

Lemma branchLoop_ok fuel st tries :
  searchOk st -> exists st' tries', branchLoop fuel target costOfChange es st tries = Ok (st', tries') /\
    searchOk st'.
Proof.
  revert st tries. induction fuel as [|fuel IH]; intros st tries Hst; cbn; [by eexists _, _|].
  destruct (branchStep_ok st Hst) as (t & -> & Ht). cbn. destruct t; [by apply IH|by eexists _, _].
Qed.
End search_proofs.

(** ** What the strategies return *)

Section strategies.
Context {R : Type} `{CoinSelectionRandom R}.
Implicit Types selector : CoinSelector R.

Definition sameTarget (a b : CoinSelector R) : Prop :=
  sel_Target a = sel_Target b /\ sel_CostOfChange a = sel_CostOfChange b.
(** A call that returns: the slice permuted, coins of the slice selected, none
    twice, and worth at least the target when any are. *)
Definition sound (selector : CoinSelector R) (es : list CoinSelectionEstimator)
    (r : res (CoinSelector R * list CoinSelectionEstimator * list CoinSelectionEstimator)) : Prop :=
  exists selector' es' selection, r = Ok (selector', es', selection) /\
    sameTarget selector' selector /\ es' ≡ₚ es /\ selection ⊆+ es /\
    (selection <> [] -> sel_Target selector <= sumAmounts selection).

Lemma BranchAndBound_spec selector es available :
  fits (sel_Target selector) (sel_CostOfChange selector) es -> available = sumAmounts es ->
  exists selector' selection,
    BranchAndBound selector es available = Ok (selector', sortStable es, selection) /\
    sameTarget selector' selector /\ selection `sublist_of` sortStable es /\
    (selection <> [] -> sel_ExactMatch selector' = true /\
       sel_Target selector <= sumAmounts selection <= sel_Target selector + sel_CostOfChange selector).
Proof.
  intros Hf ->. unfold BranchAndBound.
  assert (fits (sel_Target selector) (sel_CostOfChange selector) (sortStable es)) as Hf'.
  { eapply fits_submseteq; [|exact Hf]. by rewrite sortStable_perm. }
  edestruct (branchLoop_ok (sel_Target selector) (sel_CostOfChange selector) (sortStable es) Hf')
    as (st & tries & -> & Hst); [|cbn [mbind res_bind]].
  - unfold searchOk. cbn [b_selection b_value b_available length]. split_and!; [lia|done| |by left].
    unfold left_. cbn. by rewrite sortStable_perm.
  - destruct Hst as (_ & _ & _ & Hb). destruct (b_best st) as [|b best] eqn:E.
    + eexists _, _. split; [done|]. split_and!; [done|apply sublist_nil_l|done].
    + eexists _, _. split; [done|]. split_and!; [done|apply included_sublist|]. intros _.
      split; [done|]. destruct Hb as [Hb|Hb]; rewrite E in Hb; done.
Qed.

Lemma BranchAndBound_sound selector es available :
  fits (sel_Target selector) (sel_CostOfChange selector) es -> available = sumAmounts es ->
  sound selector es (BranchAndBound selector es available).
Proof.
  intros Hf Ha. destruct (BranchAndBound_spec selector es available Hf Ha)
    as (selector' & selection & -> & Ht & Hs & Hb).
  exists selector', (sortStable es), selection. split_and!; [done|done|apply sortStable_perm| |].
  - rewrite <- (sortStable_perm es). by apply sublist_submseteq.
  - intros Hne. by apply Hb.
Qed.

Lemma closestLoop_spec target es best :
  Z.abs target + sumAbs es <= max_i64 ->
  (forall e c, best = Some (e, c) -> target <= amount e /\ c = amount e - target) ->
  match closestLoop target best es with
  | Some (e, c) =>
      (best = Some (e, c) \/ e ∈ es) /\ target <= amount e /\
      (forall x, x ∈ es -> target <= amount x -> amount e <= amount x) /\
      (forall x c', best = Some (x, c') -> amount e <= amount x)
  | None => best = None /\ forall x, x ∈ es -> amount x < target
  end.
Proof.
  revert best. induction es as [|x es IH]; intros best Hf Hb; cbn [closestLoop].
  - destruct best as [[e c]|]; [|by split; [|intros ? ?%elem_of_nil]].
    destruct (Hb e c eq_refl) as [? ?]. split_and!; [by left|done|by intros ? ?%elem_of_nil|].
    by intros x c' [= -> ->].
  - rewrite sumAbs_cons in Hf. pose proof (sumAbs_nonneg es).
    destruct (Z.ltb_spec (amount x) target).
    + specialize (IH best ltac:(lia) Hb). destruct (closestLoop target best es) as [[e c]|].
      * destruct IH as (Hin & Ht & Hmin & Hbest). split_and!; [|done| |done].
        -- destruct Hin; [by left|right; by right].
        -- intros y [->|Hy]%elem_of_cons; [lia|by apply Hmin].
      * destruct IH as [-> Hno]. split; [done|]. by intros y [->|Hy]%elem_of_cons; [|apply Hno].
    + rewrite i64_id by (unfold min_i64, max_i64 in *; lia).
      set (better := match best with None => true | Some (_, smallest) => amount x - target <? smallest end).
      set (best' := if better then Some (x, amount x - target) else best).
      specialize (IH best' ltac:(lia)). unfold best' in IH |- *.
      assert (forall e c, best = Some (e, c) -> if better then amount x <= amount e else amount e <= amount x) as Hcmp.
      { intros e c ->. unfold better. cbv iota. destruct (Hb e c eq_refl) as [? ->].
        destruct (Z.ltb_spec (amount x - target) (amount e - target)); lia. }
      assert (best = None -> better = true) as Hnone by (intros ->; done).
      clearbody better. destruct better.
      * specialize (IH ltac:(intros e c [= <- <-]; lia)).
        destruct (closestLoop target _ es) as [[e c]|]; [|by destruct IH].
        destruct IH as (Hin & Ht & Hmin & Hbest). specialize (Hbest x _ eq_refl). split_and!; [|done| |].
        -- right. destruct Hin as [[= <- <-]|]; [by left|by right].
        -- intros y [->|Hy]%elem_of_cons; [done|by apply Hmin].
        -- intros y c' E. specialize (Hcmp y c' E). cbn in Hcmp. lia.
      * specialize (IH Hb). destruct best as [[b cb]|]; [|by discriminate Hnone].
        destruct (closestLoop target _ es) as [[e c]|]; [|by destruct IH].
        destruct IH as (Hin & Ht & Hmin & Hbest). split_and!; [|done| |done].
        -- destruct Hin; [by left|right; by right].
        -- intros y [->|Hy]%elem_of_cons Hty; [|by apply Hmin].
           specialize (Hbest b cb eq_refl). specialize (Hcmp b cb eq_refl). cbn in Hcmp. lia.
Qed.

(** The coin of least excess over the target and the cost of change. *)
Lemma ClosestMatch_spec selector es :
  fits (sel_Target selector) (sel_CostOfChange selector) es ->
  exists selection, ClosestMatch selector es = (selector, es, selection) /\
    match selection with
    | [e] => e ∈ es /\ sel_Target selector + sel_CostOfChange selector <= amount e /\
        forall x, x ∈ es -> sel_Target selector + sel_CostOfChange selector <= amount x -> amount e <= amount x
    | [] => forall x, x ∈ es -> amount x < sel_Target selector + sel_CostOfChange selector
    | _ => False
    end.
Proof.
  intros [Hc Hf]. unfold ClosestMatch. pose proof (sumAbs_nonneg es). eexists. split; [done|].
  rewrite i64_id by (unfold min_i64, max_i64 in *; lia).
  pose proof (closestLoop_spec (sel_Target selector + sel_CostOfChange selector) es None
    ltac:(lia) ltac:(done)) as Hs.
  destruct (closestLoop _ _ _) as [[e c]|].
  - destruct Hs as ([|Hin] & Ht & Hmin & _); [done|]. by split_and!.
  - by destruct Hs.
Qed.

Lemma swap_perm i j l : (i < length l)%nat -> (j < length l)%nat ->
  exists l', swap i j l = Ok l' /\ l' ≡ₚ l.
Proof.
  intros Hi Hj. unfold swap, estimatorAt.
  destruct (lookup_lt_is_Some_2 l i Hi) as [a Ha], (lookup_lt_is_Some_2 l j Hj) as [b Hb].
  rewrite Ha, Hb. cbn [mbind res_bind]. eexists. split; [done|].
  by apply Permutation_insert_swap.
Qed.
End strategies.

Section draw.
Context {R : Type} `{CoinSelectionRandom R}.
Implicit Types selector : CoinSelector R.

Lemma shuffle_spec index (random : R) l :
  (index < length l)%nat \/ index = O ->
  exists random' l', shuffle index random l = Ok (random', l') /\ l' ≡ₚ l.
Proof.
  revert random l. induction index as [|index IH]; intros random l Hi; cbn [shuffle]; [by eexists _, _|].
  destruct Hi as [Hi|]; [|done].
  pose proof (Float64_range random) as Hr. destruct (Float64 random) as [fraction random'].
  cbn [fst] in Hr. pose proof (swapIndex_range fraction (Z.of_nat (S index)) Hr ltac:(lia)).
  destruct (swap_perm (S index) (Z.to_nat (swapIndex fraction (Z.of_nat (S index)))) l) as (l' & -> & Hp);
    [done|lia|]. cbn [mbind res_bind].
  destruct (IH random' l') as (r'' & l'' & -> & Hp'); [left; rewrite Hp; lia|].
  eexists _, _. split; [done|]. by rewrite Hp'.
Qed.

Lemma drawLoop_spec target sel total l :
  total = sumAmounts sel -> Z.abs total + sumAbs l <= max_i64 ->
  let r := drawLoop target sel total l in
  (r = [] \/ (r `prefix_of` sel ++ l /\ target <= sumAmounts r)) /\
  (r = [] -> Forall (fun e => 0 <= amount e) l -> l <> [] -> total + sumAmounts l < target).
Proof.
  revert sel total. induction l as [|e l IH]; intros sel total Ht Hf; cbn [drawLoop].
  { split; [by left|done]. }
  rewrite sumAbs_cons in Hf. pose proof (sumAbs_nonneg l).
  rewrite i64_id by (unfold min_i64, max_i64 in *; lia).
  assert (total + amount e = sumAmounts (sel ++ [e])) as E by (rewrite sumAmounts_app; cbn; lia).
  destruct (Z.leb_spec target (total + amount e)) as [Hle|Hgt].
  - split; [right; split; [|lia]|].
    + exists l. by rewrite <- app_assoc.
    + intros Hn. destruct sel; done.
  - destruct (IH (sel ++ [e]) (total + amount e) E ltac:(lia)) as [Hr Hl]. cbv zeta. split.
    + by rewrite <- app_assoc in Hr.
    + intros Hn Hpos _. inversion Hpos; subst. rewrite sumAmounts_cons.
      destruct l as [|x l]; [cbn; lia|]. specialize (Hl Hn ltac:(done) ltac:(done)). lia.
Qed.

(** A draw is a prefix of the shuffled coins worth the target and the cost of
    change; nothing is drawn only when all the coins together fall short. *)
Lemma RandomDraw_spec selector es :
  fits (sel_Target selector) (sel_CostOfChange selector) es ->
  exists (selector' : CoinSelector R) shuffled selection,
    RandomDraw selector es = Ok (selector', shuffled, selection) /\
    sameTarget selector' selector /\ shuffled ≡ₚ es /\ selection `prefix_of` shuffled /\
    (selection <> [] -> sel_Target selector + sel_CostOfChange selector <= sumAmounts selection) /\
    (selection = [] -> Forall (fun e => 0 <= amount e) es -> es <> [] ->
       sumAmounts es < sel_Target selector + sel_CostOfChange selector).
Proof.
  intros [Hc Hf]. unfold RandomDraw. pose proof (sumAbs_nonneg es).
  destruct (shuffle_spec (length es - 1) (sel_random selector) es) as (r & l & -> & Hp).
  { destruct es; [by right|left; cbn; lia]. }
  cbn [mbind res_bind]. rewrite i64_id by (unfold min_i64, max_i64 in *; lia).
  destruct (drawLoop_spec (sel_Target selector + sel_CostOfChange selector) [] 0 l eq_refl
    ltac:(rewrite Hp; cbn; lia)) as [Hd Hl].
  eexists _, l, _. split; [done|]. split_and!; [done|done| | |].
  - destruct Hd as [->|[? _]]; [apply prefix_nil|done].
  - intros Hne. by destruct Hd as [|[_ ?]].
  - intros Hn Hpos Hne. rewrite <- Hp.
    assert (l <> []) as Hln by (intros ->; by apply Permutation_nil_l in Hp).
    specialize (Hl Hn ltac:(by rewrite Hp) Hln). lia.
Qed.

Lemma RandomDraw_sound selector es :
  fits (sel_Target selector) (sel_CostOfChange selector) es ->
  sound selector es (RandomDraw selector es).
Proof.
  intros Hf. destruct (RandomDraw_spec selector es Hf) as (s' & l & sel & -> & Ht & Hp & Hs & Hb & _).
  exists s', l, sel. split_and!; [done|done|done| |].
  - rewrite <- Hp. destruct Hs as [k ->]. by apply submseteq_inserts_r.
  - intros Hne. specialize (Hb Hne). destruct Hf. lia.
Qed.

Lemma ClosestMatch_sound selector es :
  fits (sel_Target selector) (sel_CostOfChange selector) es ->
  sound selector es (Ok (ClosestMatch selector es)).
Proof.
  intros Hf. destruct (ClosestMatch_spec selector es Hf) as (sel & -> & Hs).
  exists selector, es, sel. destruct Hf as [Hc _].
  destruct sel as [|e [|]]; [..|done]; split_and!; try done.
  - apply submseteq_nil_l.
  - destruct Hs as [Hin _]. by apply singleton_submseteq_l.
  - intros _. cbn. lia.
Qed.

Lemma sound_fits (s s' : CoinSelector R) es es' :
  sameTarget s' s -> es' ≡ₚ es -> fits (sel_Target s) (sel_CostOfChange s) es ->
  fits (sel_Target s') (sel_CostOfChange s') es'.
Proof. intros [-> ->] Hp Hf. eapply fits_submseteq; [|exact Hf]. by rewrite Hp. Qed.
Lemma sound_trans (s s' : CoinSelector R) es es' r :
  sameTarget s' s -> es' ≡ₚ es -> sound s' es' r -> sound s es r.
Proof.
  intros [Ht Hc] Hp (s2 & es2 & sel & -> & [Ht2 Hc2] & Hp2 & Hs & Hb).
  exists s2, es2, sel. split_and!; [done|split; congruence|by rewrite Hp2|by rewrite <- Hp|].
  by rewrite <- Ht.
Qed.

Lemma Standard_sound selector es available :
  fits (sel_Target selector) (sel_CostOfChange selector) es -> available = sumAmounts es ->
  sound selector es (Standard selector es available).
Proof.
  intros Hf Ha. unfold Standard.
  destruct (BranchAndBound_sound selector es available Hf Ha) as (s1 & es1 & sel1 & -> & Ht1 & Hp1 & Hs1 & Hb1).
  cbn [mbind res_bind]. destruct sel1 as [|e1 sel1]; [|by eexists _, _, _].
  pose proof (sound_fits _ _ _ _ Ht1 Hp1 Hf) as Hf1.
  destruct (ClosestMatch_sound s1 es1 Hf1) as (s2 & es2 & sel2 & E & Ht2 & Hp2 & Hs2 & Hb2).
  apply (inj Ok) in E. rewrite E. destruct sel2 as [|e2 sel2].
  - apply (sound_trans _ s1 _ es1); [done|done|]. apply (sound_trans _ s2 _ es2); [done|done|].
    apply RandomDraw_sound. by eapply sound_fits.
  - apply (sound_trans _ s1 _ es1); [done|done|]. by eexists _, _, _.
Qed.

Lemma filter_sublist {A} (P : A -> bool) l : List.filter P l `sublist_of` l.
Proof. induction l as [|x l IH]; cbn; [done|]. case_match; by constructor. Qed.

Lemma OnlyConfirmed_sound selector es :
  fits (sel_Target selector) (sel_CostOfChange selector) es ->
  sound selector es (OnlyConfirmed selector es).
Proof.
  intros Hf. unfold OnlyConfirmed. set (confirmed := List.filter _ es).
  assert (confirmed ⊆+ es) as Hc by apply sublist_submseteq, filter_sublist.
  assert (sound selector es (Ok (selector, es, []))) as Hnone.
  { exists selector, es, []. split_and!; [done|done|done|apply submseteq_nil_l|done]. }
  clearbody confirmed. destruct confirmed as [|c0 cs] eqn:E; [done|]. rewrite <- E in *. clear E.
  case_match; [done|].
  pose proof (fits_submseteq _ _ _ _ Hc Hf) as Hfc.
  destruct (Standard_sound selector confirmed (coinSelectionAvailable confirmed) Hfc
    ltac:(by eapply available_sum)) as (s & es' & sel & -> & Ht & _ & Hs & Hb).
  cbn [mbind res_bind]. exists s, es, sel. split_and!; [done|done|done|by etrans|done].
Qed.

Lemma Select_sound selector es strategy :
  fits (sel_Target selector) (sel_CostOfChange selector) es ->
  sound selector es (Select selector es strategy) \/
  exists e, Select selector es strategy = Err e.
Proof.
  intros Hf. unfold Select.
  assert (sound selector es (Ok (selector, es, []))) as Hnone.
  { exists selector, es, []. split_and!; [done|done|done|apply submseteq_nil_l|done]. }
  pose proof (available_sum _ _ _ Hf) as Ha.
  destruct es as [|e0 es0] eqn:E; [by left|]. rewrite <- E in *. clear E.
  repeat (case_match; [left|]); [done| | | | | | |by right; eexists].
  - by apply Standard_sound.
  - unfold PreferConfirmed.
    destruct (OnlyConfirmed_sound selector es Hf) as (s1 & es1 & sel1 & -> & Ht1 & Hp1 & Hs1 & Hb1).
    cbn [mbind res_bind]. destruct sel1; [|by eexists _, _, _].
    apply (sound_trans _ s1 _ es1); [done|done|]. apply Standard_sound; [by eapply sound_fits|].
    by rewrite Ha, Hp1.
  - by apply OnlyConfirmed_sound.
  - by apply BranchAndBound_sound.
  - by apply ClosestMatch_sound.
  - by apply RandomDraw_sound.
Qed.

(** With enough for the target and a change output, the standard strategy
    never comes back empty-handed. *)
Lemma Standard_funded selector es available :
  fits (sel_Target selector) (sel_CostOfChange selector) es -> available = sumAmounts es ->
  Forall (fun e => 0 <= amount e) es -> es <> [] ->
  sel_Target selector + sel_CostOfChange selector <= sumAmounts es ->
  exists selector' es' selection,
    Standard selector es available = Ok (selector', es', selection) /\ selection <> [].
Proof.
  intros Hf Ha Hpos Hne Hfund. unfold Standard.
  destruct (BranchAndBound_sound selector es available Hf Ha) as (s1 & es1 & sel1 & -> & Ht1 & Hp1 & Hs1 & Hb1).
  cbn [mbind res_bind]. destruct sel1 as [|e1 sel1]; [|by eexists _, _, _].
  pose proof (sound_fits _ _ _ _ Ht1 Hp1 Hf) as Hf1.
  destruct (ClosestMatch_sound s1 es1 Hf1) as (s2 & es2 & sel2 & E & Ht2 & Hp2 & Hs2 & Hb2).
  apply (inj Ok) in E. rewrite E. destruct sel2 as [|e2 sel2]; [|by eexists _, _, _].
  pose proof (sound_fits _ _ _ _ Ht2 Hp2 Hf1) as Hf2.
  destruct (RandomDraw_spec s2 es2 Hf2) as (s3 & l & sel & -> & Ht3 & Hp3 & _ & _ & Hempty).
  eexists _, _, _. split; [done|]. intros Hn. specialize (Hempty Hn).
  assert (es2 ≡ₚ es) as Hp by by rewrite Hp2.
  assert (es2 <> []) as Hne2 by (intros ->; by apply Permutation_nil_l in Hp).
  specialize (Hempty ltac:(by rewrite Hp) Hne2). rewrite Hp in Hempty. destruct Ht1 as [Ht1 Hc1], Ht2 as [Ht2 Hc2]. lia.
Qed.
End draw.

(** ** What a selection promises *)

(** C38: branch and bound.  On amounts that do not overflow, the search returns a
    subsequence of the coins, sorted by value, and when it returns any their
    value is between the target and the target plus the cost of change. *)
Theorem branch_and_bound_exact `{CoinSelectionRandom R} (selector : CoinSelector R) es :
  fits (sel_Target selector) (sel_CostOfChange selector) es ->
  exists selector' selection,
    BranchAndBound selector es (coinSelectionAvailable es) = Ok (selector', sortStable es, selection) /\
    sameTarget selector' selector /\ selection `sublist_of` sortStable es /\
    (selection <> [] -> sel_ExactMatch selector' = true /\
       sel_Target selector <= sumAmounts selection <= sel_Target selector + sel_CostOfChange selector).
Proof. intros Hf. apply BranchAndBound_spec; [done|by eapply available_sum]. Qed.

(** Coin selection is sound.  Under every strategy name a selection returns,
    uses each coin of the pool at most once, leaves the pool a permutation of what
    it was, and is worth at least the target unless it is empty; an unknown name
    is an error. *)
Theorem selection_sound `{CoinSelectionRandom R} (selector : CoinSelector R) es strategy :
  fits (sel_Target selector) (sel_CostOfChange selector) es ->
  sound selector es (Select selector es strategy) \/
  exists e, Select selector es strategy = Err e.
Proof. apply Select_sound. Qed.

(** Coin selection is complete.  With coins worth the target and a change
    output, none of them negative, the standard strategy always selects some. *)
Theorem selection_funded `{CoinSelectionRandom R} (selector : CoinSelector R) es :
  fits (sel_Target selector) (sel_CostOfChange selector) es ->
  Forall (fun e => 0 <= amount e) es -> es <> [] ->
  sel_Target selector + sel_CostOfChange selector <= sumAmounts es ->
  exists selector' es' selection,
    Standard selector es (coinSelectionAvailable es) = Ok (selector', es', selection) /\ selection <> [].
Proof. intros Hf. apply Standard_funded; [done|by eapply available_sum]. Qed.

Definition exampleSelector (target : Z) : CoinSelector coinSelectionPythonRandom :=
  NewCoinSelectorWithSeed target 5 1.
Definition exampleCoins : list CoinSelectionEstimator :=
  map (fun v => exampleCoin v 1) [10; 30; 25; 7; 40].
Lemma branch_and_bound_exact_witness :
  exists selector selection, BranchAndBound (exampleSelector 47) exampleCoins (coinSelectionAvailable exampleCoins)
    = Ok (selector, sortStable exampleCoins, selection) /\ selection `sublist_of` sortStable exampleCoins.
Proof.
  destruct (branch_and_bound_exact (exampleSelector 47) exampleCoins) as (s & sel & E & _ & Hs & _);
    [split; vm_compute; discriminate|].
  exists s, sel. split; [exact E|exact Hs].
Defined.
Lemma selection_sound_witness :
  sound (exampleSelector 33) exampleCoins (Select (exampleSelector 33) exampleCoins "standard").
Proof.
  destruct (selection_sound (exampleSelector 33) exampleCoins "standard") as [H|[e E]].
  - split; vm_compute; discriminate.
  - exact H.
  - exfalso. revert E. vm_compute. discriminate.
Defined.
Lemma selection_funded_witness :
  exists selector es selection,
    Standard (exampleSelector 100) exampleCoins (coinSelectionAvailable exampleCoins) = Ok (selector, es, selection) /\
    selection <> [].
Proof.
  apply (selection_funded (exampleSelector 100) exampleCoins).
  - split; vm_compute; discriminate.
  - repeat constructor; vm_compute; discriminate.
  - discriminate.
  - vm_compute. discriminate.
Defined.
