(* ===== verification/HeaderStorage.v ===== *)
(** * Header storage

    The interface [headerStorage] of [wallet/header_storage.go] as a class: the
    operations, and the laws the headers rely on, stated about the bytes a store
    holds.  [memoryHeaderStorage], the in-memory implementation, is an instance.
    A read that reaches the end of the data returns the bytes before it, as
    [ReadAt] does together with [io.EOF], which its callers ignore. *)

From S2P Require Import Prelude.

Class HeaderStorage (S : Type) := {
  contents : S -> bytes;
  Size : S -> Z;
  ReadAt : S -> nat -> Z -> res bytes;
  WriteAt : S -> bytes -> Z -> res S;
  Resize : S -> Z -> res S;

  Size_contents : forall s, Size s = blen (contents s);
  ReadAt_contents : forall s n offset, 0 <= offset ->
    ReadAt s n offset = Ok (take n (drop (Z.to_nat offset) (contents s)));
  (** A write within the data replaces bytes, one past it extends the data. *)
  WriteAt_contents : forall s source offset,
    0 <= offset <= blen (contents s) -> offset + blen source <= max_i64 ->
    exists s', WriteAt s source offset = Ok s' /\
      contents s' = take (Z.to_nat offset) (contents s) ++ source ++
                    drop (Z.to_nat offset + length source) (contents s);
  Resize_contents : forall s size, 0 <= size <= max_i64 ->
    exists s', Resize s size = Ok s' /\
      contents s' = take (Z.to_nat size) (contents s) ++
                    repeat x00 (Z.to_nat size - length (contents s))
}.

(** ** [memoryHeaderStorage] *)

Definition memoryHeaderStorage : Type := bytes.
Definition newMemoryHeaderStorage : memoryHeaderStorage := [].

Definition memorySize (data : memoryHeaderStorage) : Z := blen data.
Definition memoryReadAt (data : memoryHeaderStorage) (n : nat) (offset : Z) : res bytes :=
  if offset <? 0 then Err "negative header storage offset"
  else if (n =? 0)%nat then Ok []
  else if blen data <=? offset then Ok []
  else Ok (take n (drop (Z.to_nat offset) data)).
Definition memoryResize (data : memoryHeaderStorage) (size : Z) : res memoryHeaderStorage :=
  if (size <? 0) || (max_i64 <? size) then Err "invalid in-memory header storage size"
  else
    let current := blen data in
    if size <? current then Ok (take (Z.to_nat size) data)
    else if current <? size then Ok (data ++ repeat x00 (Z.to_nat (size - current)))
    else Ok data.
(** [copy(data[offset:end], source)], once the data reaches [end]. *)
Definition memoryWriteAt (data : memoryHeaderStorage) (source : bytes) (offset : Z)
  : res memoryHeaderStorage :=
  if offset <? 0 then Err "negative header storage offset"
  else
    let end_ := i64 (offset + blen source) in
    if (end_ <? offset) || (max_i64 <? end_) then Err "header storage size exceeds the Go integer range"
    else
      data ← (if memorySize data <? end_ then memoryResize data end_ else Ok data);
      Ok (take (Z.to_nat offset) data ++ source ++ drop (Z.to_nat end_) data).

#[export, refine] Instance memoryStorage : HeaderStorage memoryHeaderStorage :=
  { contents data := data; Size := memorySize; ReadAt := memoryReadAt;
    WriteAt := memoryWriteAt; Resize := memoryResize }.
Proof.
  - done.
  - intros s n offset Ho. unfold memoryReadAt. destruct (Z.ltb_spec offset 0); [lia|].
    destruct (Nat.eqb_spec n 0) as [->|]; [by rewrite take_0|].
    destruct (Z.leb_spec (blen s) offset); [|done].
    rewrite drop_ge by (unfold blen in *; lia). by rewrite take_nil.
  - intros s source offset Ho Hm. unfold memoryWriteAt, memorySize.
    pose proof (blen_nonneg source). pose proof (blen_nonneg s).
    destruct (Z.ltb_spec offset 0); [lia|]. rewrite i64_id by (unfold min_i64, max_i64 in *; lia).
    destruct (Z.ltb_spec (offset + blen source) offset); [lia|].
    destruct (Z.ltb_spec max_i64 (offset + blen source)); [lia|]. cbn [orb].
    assert (Z.to_nat (offset + blen source) = (Z.to_nat offset + length source)%nat) as E
      by (unfold blen; lia).
    destruct (Z.ltb_spec (blen s) (offset + blen source)).
    + unfold memoryResize. destruct (Z.ltb_spec (offset + blen source) 0); [lia|].
      destruct (Z.ltb_spec max_i64 (offset + blen source)); [lia|]. cbn [orb].
      destruct (Z.ltb_spec (offset + blen source) (blen s)); [lia|].
      destruct (Z.ltb_spec (blen s) (offset + blen source)); [|lia]. cbn [mbind res_bind].
      eexists. split; [done|]. unfold blen in *. rewrite E.
      rewrite take_app_le by lia. do 2 f_equal.
      rewrite (drop_ge s) by lia. apply drop_ge. rewrite length_app, repeat_length. lia.
    + cbn [mbind res_bind]. eexists. split; [done|]. by rewrite E.
  - intros s size Hs. unfold memoryResize. destruct (Z.ltb_spec size 0); [lia|].
    destruct (Z.ltb_spec max_i64 size); [lia|]. cbn [orb]. unfold blen in *.
    destruct (Z.ltb_spec size (Z.of_nat (length s))).
    + eexists. split; [done|]. replace (Z.to_nat size - length s)%nat with 0%nat by lia.
      cbn. by rewrite app_nil_r.
    + rewrite take_ge by lia. destruct (Z.ltb_spec (Z.of_nat (length s)) size).
      * eexists. split; [done|]. do 2 f_equal. lia.
      * eexists. split; [done|]. replace (Z.to_nat size - length s)%nat with 0%nat by lia.
        cbn. by rewrite app_nil_r.
Defined.
