(* ===== verification/BlockHeader.v ===== *)
(** * Block headers: wire form, hashes, difficulty

    Model of the pure part of [wallet/headers.go]: [BlockHeader] and its 112
    bytes, the header and proof-of-work hashes, [ArithUint256] with its compact
    form, and [NextBlockTarget]. *)

From S2P Require Import Prelude Digest Hex Float.

Definition HeaderSize : nat := 112.

Record BlockHeader := MkHeader {
  bh_Version : Z;
  bh_PreviousHash : bytes;
  bh_MerkleRoot : bytes;
  bh_ClaimTrieRoot : bytes;
  bh_Timestamp : Z;
  bh_Bits : Z;
  bh_Nonce : Z;
  bh_BlockHeight : Z
}.

Definition SerializeHeader (header : BlockHeader) : res bytes :=
  previous ← map_err (fun e => "previous block hash: " ++ e)%string
               (decodeReversedHeaderHash (bh_PreviousHash header));
  merkle ← map_err (fun e => "merkle root: " ++ e)%string
             (decodeReversedHeaderHash (bh_MerkleRoot header));
  claimTrie ← map_err (fun e => "claim trie root: " ++ e)%string
                (decodeReversedHeaderHash (bh_ClaimTrieRoot header));
  Ok (le_bytes 4 (bh_Version header) ++ previous ++ merkle ++ claimTrie ++
      le_bytes 4 (bh_Timestamp header) ++ le_bytes 4 (bh_Bits header) ++
      le_bytes 4 (bh_Nonce header)).

(** [serialized[from:to]] *)
Definition field (from to : nat) (serialized : bytes) : bytes := take (to - from) (drop from serialized).

Definition ErrInvalidHeaderLength : string := "invalid header length".
Definition DeserializeHeader (height : Z) (serialized : bytes) : res BlockHeader :=
  if (length serialized <? HeaderSize)%nat then Err ErrInvalidHeaderLength
  else Ok (MkHeader
    (le_value (field 0 4 serialized))
    (encodeReversedHeaderHash (field 4 36 serialized))
    (encodeReversedHeaderHash (field 36 68 serialized))
    (encodeReversedHeaderHash (field 68 100 serialized))
    (le_value (field 100 104 serialized))
    (le_value (field 104 108 serialized))
    (le_value (field 108 112 serialized))
    height).

Definition uint256Modulus : Z := 2 ^ 256.
Definition defaultMaxTarget : Z := 2 ^ 240 - 1.
Definition regtestMaxTarget : Z := 2 ^ 255 - 1.

(** ** [ArithUint256] *)

Definition ArithUint256FromCompact (compact : Z) : Z :=
  let size := Z.shiftr compact 24 in
  let word := Z.land compact 0x007fffff in
  if size <=? 3 then Z.shiftr word (8 * (3 - size)) else Z.shiftl word (8 * (size - 3)).

(** [len(Text(2)) + 1]: one more than the number of binary digits. *)
Definition Bits (value : Z) : Z := (if value =? 0 then 1 else Z.log2 value + 1) + 1.

Definition calculateCompact (negative : bool) (value : Z) : Z :=
  let size := (Bits value + 7) / 8 in
  let compact := if size <=? 3 then u64 (Z.shiftl (u64 value) (8 * (3 - size)))
                 else u64 (Z.shiftr value (8 * (size - 3))) in
  let '(compact, size) :=
    if negb (Z.land compact 0x00800000 =? 0) then (Z.shiftr compact 8, size + 1) else (compact, size) in
  let compact := Z.lor compact (u64 (Z.shiftl (u64 size) 24)) in
  let compact := if negative && negb (Z.land compact 0x007fffff =? 0)
                 then Z.lor compact 0x00800000 else compact in
  u32 compact.
Definition Compact (value : Z) : Z := calculateCompact false value.
Definition Negative (value : Z) : Z := calculateCompact true value.

Definition Multiply (value multiplier : Z) : Z := (value * multiplier) mod uint256Modulus.
(** For the positive divisors of the program; both operands are first rounded to
    53 bits, and a divisor of at most 53 bits is exact. *)
Definition Divide (value divisor : Z) : Z := quo53 (round53 value) (round53 divisor).

Definition NextBlockTarget (maxTarget targetTimespan : Z) (previous current : option BlockHeader) : Z :=
  match current with
  | None => maxTarget
  | Some current =>
      let previous := match previous with Some previous => previous | None => current end in
      let actualTimespan := bh_Timestamp current - bh_Timestamp previous in
      let modulatedTimespan := targetTimespan + Z.quot (actualTimespan - targetTimespan) 8 in
      let minimumTimespan := targetTimespan - Z.quot targetTimespan 8 in
      let maximumTimespan := targetTimespan + Z.quot targetTimespan 2 in
      let clampedTimespan := Z.max minimumTimespan (Z.min modulatedTimespan maximumTimespan) in
      let target := ArithUint256FromCompact (bh_Bits current) in
      let newTarget := Divide (Multiply target clampedTimespan) targetTimespan in
      if maxTarget <? newTarget then maxTarget else newTarget
  end.

Section digests.
Context `{Digests}.

(** [nil] hashes to the display form of the zero hash. *)
Definition HashHeader (serialized : option bytes) : bytes :=
  match serialized with
  | None => repeat "0"%byte 64
  | Some serialized => encodeReversedHeaderHash (sha256 (sha256 serialized))
  end.

Definition HeaderHashToPoWHash (headerHash : bytes) : res bytes :=
  decoded ← hexDecode headerHash;
  let wide := sha512 (rev decoded) in
  let half := (length wide / 2)%nat in
  let combined := ripemd160 (take half wide) ++ ripemd160 (drop half wide) in
  Ok (encodeReversedHeaderHash (sha256 (sha256 combined))).

(** [SetString(s, 16)] on lower-case hexadecimal digits. *)
Fixpoint hexValue (acc : Z) (s : bytes) : option Z :=
  match s with
  | [] => Some acc
  | c :: s => d ← unhexDigit c; hexValue (16 * acc + d) s
  end.
Definition ProofOfWork (headerHash : bytes) : res Z :=
  powHash ← HeaderHashToPoWHash headerHash;
  match hexValue 0 powHash with
  | Some value => Ok value
  | None => Err "proof-of-work hash is not hexadecimal"
  end.
End digests.

(** ** Round trips of the wire form *)

Lemma field_app a b from to :
  from = length a -> length b = (to - from)%nat -> forall r, field from to (a ++ b ++ r) = b.
Proof.
  intros -> Hb r. unfold field. rewrite drop_app_length, <- Hb. apply take_app_length.
Qed.

Lemma field_head b n r : length b = n -> field 0 n (b ++ r) = b.
Proof. intros <-. unfold field. rewrite drop_0, Nat.sub_0_r. apply take_app_length. Qed.

(** A header whose fields have the width of their wire form. *)
Definition headerOk (header : BlockHeader) : Prop :=
  0 <= bh_Version header < 2 ^ 32 /\ 0 <= bh_Timestamp header < 2 ^ 32 /\
  0 <= bh_Bits header < 2 ^ 32 /\ 0 <= bh_Nonce header < 2 ^ 32 /\
  (exists p, bh_PreviousHash header = encodeReversedHeaderHash p /\ length p = 32%nat) /\
  (exists m, bh_MerkleRoot header = encodeReversedHeaderHash m /\ length m = 32%nat) /\
  (exists c, bh_ClaimTrieRoot header = encodeReversedHeaderHash c /\ length c = 32%nat).

Lemma header_serialize_parse header :
  headerOk header ->
  exists raw, SerializeHeader header = Ok raw /\ length raw = HeaderSize /\
    DeserializeHeader (bh_BlockHeight header) raw = Ok header.
Proof.
  destruct header as [v ph mr cr ts bits nonce height].
  intros (Hv & Ht & Hb & Hn & (p & Hp & Hlp) & (m & Hm & Hlm) & (c & Hc & Hlc)); cbn in *; subst.
  unfold SerializeHeader; cbn [bh_Version bh_PreviousHash bh_MerkleRoot bh_ClaimTrieRoot bh_Timestamp
    bh_Bits bh_Nonce]. rewrite !decodeReversed_encode. cbn [map_err mbind res_bind].
  eexists. split; [done|].
  set (raw := le_bytes 4 v ++ _).
  assert (length raw = HeaderSize) as Hl
    by (unfold raw; rewrite !length_app, !length_le_bytes, Hlp, Hlm, Hlc; done).
  split; [done|]. unfold DeserializeHeader. rewrite Hl. cbn [Nat.ltb Nat.leb HeaderSize bh_BlockHeight].
  repeat f_equal.
  - unfold raw. rewrite field_head by apply length_le_bytes. apply le_value_bytes_id. lia.
  - unfold raw. by rewrite (field_app (le_bytes 4 v)) by (rewrite ?length_le_bytes; lia).
  - unfold raw. rewrite (app_assoc (le_bytes 4 v) p).
    by rewrite (field_app (le_bytes 4 v ++ p)) by (rewrite ?length_app, ?length_le_bytes; lia).
  - unfold raw. rewrite (app_assoc (le_bytes 4 v) p), (app_assoc _ m).
    by rewrite (field_app ((le_bytes 4 v ++ p) ++ m)) by (rewrite ?length_app, ?length_le_bytes; lia).
  - unfold raw. rewrite (app_assoc (le_bytes 4 v) p), (app_assoc _ m), (app_assoc _ c).
    rewrite (field_app (((le_bytes 4 v ++ p) ++ m) ++ c)) by (rewrite ?length_app, ?length_le_bytes; lia).
    apply le_value_bytes_id. lia.
  - unfold raw. rewrite (app_assoc (le_bytes 4 v) p), (app_assoc _ m), (app_assoc _ c), (app_assoc _ (le_bytes 4 ts)).
    rewrite (field_app ((((le_bytes 4 v ++ p) ++ m) ++ c) ++ le_bytes 4 ts))
      by (rewrite ?length_app, ?length_le_bytes; lia).
    apply le_value_bytes_id. lia.
  - unfold raw. rewrite (app_assoc (le_bytes 4 v) p), (app_assoc _ m), (app_assoc _ c), (app_assoc _ (le_bytes 4 ts)),
      (app_assoc _ (le_bytes 4 bits)), <- (app_nil_r (le_bytes 4 nonce)).
    rewrite (field_app (((((le_bytes 4 v ++ p) ++ m) ++ c) ++ le_bytes 4 ts) ++ le_bytes 4 bits))
      by (rewrite ?length_app, ?length_le_bytes; lia).
    apply le_value_bytes_id. lia.
Qed.

Lemma length_field from to s : (to <= length s)%nat -> (from <= to)%nat -> length (field from to s) = (to - from)%nat.
Proof. intros. unfold field. rewrite length_take, length_drop. lia. Qed.
Lemma field_join a b c s : (a <= b)%nat -> (b <= c)%nat -> field a b s ++ field b c s = field a c s.
Proof.
  intros Hab Hbc. unfold field. replace (drop b s) with (drop (b - a) (drop a s)) by (rewrite drop_drop; f_equal; lia).
  replace (c - a)%nat with ((b - a) + (c - b))%nat by lia. generalize (drop a s). intros l.
  by rewrite take_take_drop.
Qed.

Lemma header_parse_serialize height raw :
  length raw = HeaderSize ->
  exists header, DeserializeHeader height raw = Ok header /\ SerializeHeader header = Ok raw /\
    headerOk header /\ bh_BlockHeight header = height.
Proof.
  unfold HeaderSize. intros Hl. unfold DeserializeHeader. rewrite Hl. cbn [Nat.ltb Nat.leb HeaderSize].
  eexists. split; [done|].
  assert (forall f t, (f <= t <= 112)%nat -> length (field f t raw) = (t - f)%nat) as Hf
    by (intros; apply length_field; lia).
  assert (forall f t, t = (f + 4)%nat -> (t <= 112)%nat -> 0 <= le_value (field f t raw) < 2 ^ 32) as Hv.
  { intros f t -> Hfl. pose proof (le_value_range (field f (f + 4) raw)) as Hr. unfold blen in Hr.
    rewrite Hf in Hr by lia. replace (Z.of_nat (f + 4 - f)) with 4 in Hr by lia. done. }
  split; [|split; [|done]].
  - unfold SerializeHeader. cbn [bh_Version bh_PreviousHash bh_MerkleRoot bh_ClaimTrieRoot bh_Timestamp
      bh_Bits bh_Nonce]. rewrite !decodeReversed_encode. cbn [map_err mbind res_bind]. f_equal.
    assert (forall f t, t = (f + 4)%nat -> (t <= 112)%nat ->
      le_bytes 4 (le_value (field f t raw)) = field f t raw) as Hle.
    { intros f t -> Hfl. replace 4%nat with (length (field f (f + 4) raw)) at 1 by (rewrite Hf; lia).
      apply le_bytes_value. }
    rewrite !Hle by lia. rewrite !field_join by lia. unfold field. rewrite drop_0. apply take_ge. lia.
  - unfold headerOk. cbn [bh_Version bh_PreviousHash bh_MerkleRoot bh_ClaimTrieRoot bh_Timestamp
      bh_Bits bh_Nonce]. split_and!; try (by apply Hv; lia); try (eapply Hv; lia).
    all: eexists; split; [done|]; by rewrite Hf by lia.
Qed.

(** ** The compact form *)

Lemma land_disjoint hi n m : 0 <= m < 2 ^ n -> 0 <= n -> Z.land m (hi * 2 ^ n) = 0.
Proof.
  intros Hm Hn. apply Z.bits_inj'. intros i Hi. rewrite Z.land_spec, Z.bits_0.
  destruct (Z.lt_ge_cases i n) as [Hlt|Hge].
  - by rewrite Z.mul_pow2_bits_low, andb_false_r.
  - destruct (decide (m = 0)) as [->|]; [by rewrite Z.bits_0|].
    rewrite Z.bits_above_log2; [done|lia|]. apply Z.log2_lt_pow2; [lia|].
    apply Z.lt_le_trans with (2 ^ n); [lia|]. by apply Z.pow_le_mono_r.
Qed.
Lemma lor_disjoint hi n m : 0 <= m < 2 ^ n -> 0 <= n -> Z.lor m (hi * 2 ^ n) = hi * 2 ^ n + m.
Proof.
  intros Hm Hn. pose proof (Z.add_lor_land m (hi * 2 ^ n)).
  pose proof (land_disjoint hi n m Hm Hn). lia.
Qed.
Lemma land_low_bits hi n m : 0 <= m < 2 ^ n -> 0 <= n -> Z.land (hi * 2 ^ n + m) (2 ^ n - 1) = m.
Proof.
  intros Hm Hn. rewrite Z.sub_1_r, <- Z.ones_equiv, Z.land_ones by lia.
  rewrite Z.add_comm, Z.mod_add by lia. apply Z.mod_small. lia.
Qed.

Lemma FromCompact_value s m :
  0 <= s -> 0 <= m < 2 ^ 23 ->
  ArithUint256FromCompact (s * 2 ^ 24 + m) =
    if s <=? 3 then m / 2 ^ (8 * (3 - s)) else m * 2 ^ (8 * (s - 3)).
Proof.
  intros Hs Hm. unfold ArithUint256FromCompact.
  assert (Z.shiftr (s * 2 ^ 24 + m) 24 = s) as ->.
  { rewrite Z.shiftr_div_pow2, Z.add_comm, Z.div_add by lia. rewrite Z.div_small; lia. }
  replace (s * 2 ^ 24 + m) with (2 * s * 2 ^ 23 + m) by lia.
  change 0x007fffff with (2 ^ 23 - 1). rewrite land_low_bits by lia.
  destruct (Z.leb_spec s 3); [apply Z.shiftr_div_pow2 | apply Z.shiftl_mul_pow2]; lia.
Qed.

(** A mantissa of 16 to 23 bits: the sign bit of the format stays clear, so the
    branch that moves the mantissa down is never taken. *)
Lemma Compact_mantissa v :
  0 < v < 2 ^ 256 ->
  let s := (Z.log2 v + 9) / 8 in
  let m := if s <=? 3 then v * 2 ^ (8 * (3 - s)) else v / 2 ^ (8 * (s - 3)) in
  Compact v = s * 2 ^ 24 + m /\ 2 ^ 15 <= m < 2 ^ 23 /\ 1 <= s <= 33.
Proof.
  intros Hv. cbv zeta.
  pose proof (Z.log2_spec v ltac:(lia)) as [Hlo Hhi]. pose proof (Z.log2_nonneg v) as Hl0.
  assert (Z.log2 v < 256) as Hl1 by (apply Z.log2_lt_pow2; lia).
  set (d := Z.log2 v) in *. set (s := (d + 9) / 8).
  assert (8 * s - 9 <= d <= 8 * s - 2 /\ 1 <= s <= 33) as [Hds Hs]
    by (unfold s; pose proof (Z.div_mod (d + 9) 8); pose proof (Z.mod_pos_bound (d + 9) 8); lia).
  set (m := if s <=? 3 then v * 2 ^ (8 * (3 - s)) else v / 2 ^ (8 * (s - 3))).
  assert (2 ^ 15 <= m < 2 ^ 23) as Hm.
  { unfold m. destruct (Z.leb_spec s 3) as [Hs3|Hs3].
    - assert (2 ^ 15 <= 2 ^ (d + 8 * (3 - s))) by (apply Z.pow_le_mono_r; lia).
      assert (2 ^ (Z.succ d + 8 * (3 - s)) <= 2 ^ 23) by (apply Z.pow_le_mono_r; lia).
      rewrite Z.pow_add_r in * by lia.
      assert (0 < 2 ^ (8 * (3 - s))) by (apply Z.pow_pos_nonneg; lia). nia.
    - assert (0 < 2 ^ (8 * (s - 3))) by (apply Z.pow_pos_nonneg; lia). split.
      + apply Z.div_le_lower_bound; [lia|]. etrans; [|exact Hlo].
        rewrite <- Z.pow_add_r by lia. apply Z.pow_le_mono_r; lia.
      + apply Z.div_lt_upper_bound; [lia|]. eapply Z.lt_le_trans; [exact Hhi|].
        rewrite <- Z.pow_add_r by lia. apply Z.pow_le_mono_r; lia. }
  split; [|done]. unfold Compact, calculateCompact, Bits.
  destruct (Z.eqb_spec v 0); [lia|]. fold d.
  replace ((d + 1 + 1 + 7) / 8) with s by (unfold s; f_equal; lia). cbn [negb andb].
  assert ((if s <=? 3 then u64 (Z.shiftl (u64 v) (8 * (3 - s))) else u64 (Z.shiftr v (8 * (s - 3)))) = m) as ->.
  { unfold m in *. destruct (Z.leb_spec s 3).
    - assert (v < 2 ^ 64) by (apply Z.lt_le_trans with (2 ^ Z.succ d); [done|apply Z.pow_le_mono_r; lia]).
      rewrite (u64_id v), Z.shiftl_mul_pow2 by lia. apply u64_id. lia.
    - rewrite Z.shiftr_div_pow2 by lia. apply u64_id. lia. }
  clearbody m s.
  assert (Z.land m 0x00800000 = 0) as ->.
  { change 0x00800000 with (1 * 2 ^ 23). apply land_disjoint; lia. }
  cbn [Z.eqb negb]. rewrite (u64_id s), Z.shiftl_mul_pow2, (u64_id (s * 2 ^ 24)) by lia.
  rewrite lor_disjoint by lia. rewrite u32_id by lia. done.
Qed.

(** Canonical compact values survive the round trip. *)
Lemma compact_roundtrip s m :
  3 <= s <= 32 -> 2 ^ 15 <= m < 2 ^ 23 ->
  Compact (ArithUint256FromCompact (s * 2 ^ 24 + m)) = s * 2 ^ 24 + m.
Proof.
  intros Hs Hm. rewrite FromCompact_value by lia.
  assert ((if s <=? 3 then m / 2 ^ (8 * (3 - s)) else m * 2 ^ (8 * (s - 3))) = m * 2 ^ (8 * (s - 3))) as ->.
  { destruct (Z.leb_spec s 3); [|done]. assert (s = 3) as -> by lia. cbn. rewrite Z.div_1_r. lia. }
  assert (0 < 2 ^ (8 * (s - 3))) by (apply Z.pow_pos_nonneg; lia).
  pose proof (Z.log2_mul_pow2 m (8 * (s - 3)) ltac:(lia) ltac:(lia)) as Hlog.
  assert (15 <= Z.log2 m < 23) as Hlm
    by (split; [apply Z.log2_le_pow2; lia|apply Z.log2_lt_pow2; lia]).
  assert (m * 2 ^ (8 * (s - 3)) < 2 ^ 256) as Hlt.
  { apply Z.lt_le_trans with (2 ^ 23 * 2 ^ (8 * (s - 3))); [nia|].
    rewrite <- Z.pow_add_r by lia. apply Z.pow_le_mono_r; lia. }
  destruct (Compact_mantissa (m * 2 ^ (8 * (s - 3))) ltac:(nia)) as (-> & _ & _).
  rewrite Hlog.
  assert ((8 * (s - 3) + Z.log2 m + 9) / 8 = s) as Es.
  { symmetry. apply (Z.div_unique _ 8 _ (Z.log2 m - 15)); lia. }
  rewrite Es. f_equal. destruct (Z.leb_spec s 3).
  - assert (s = 3) as -> by lia. cbn. lia.
  - rewrite Z.div_mul; lia.
Qed.

(** Encoding a target only drops low bits, at most one part in [2 ^ 15]. *)
Lemma compact_truncates v :
  0 <= v < 2 ^ 256 ->
  let v' := ArithUint256FromCompact (Compact v) in v' <= v /\ (v - v') * 2 ^ 15 <= v.
Proof.
  intros Hv. cbv zeta. destruct (decide (v = 0)) as [->|Hne]; [by vm_compute|].
  destruct (Compact_mantissa v ltac:(lia)) as (-> & Hm & Hs).
  set (s := (Z.log2 v + 9) / 8) in *. rewrite FromCompact_value by lia.
  destruct (Z.leb_spec s 3).
  - rewrite Z.div_mul by (apply Z.pow_nonzero; lia). lia.
  - assert (0 < 2 ^ (8 * (s - 3))) by (apply Z.pow_pos_nonneg; lia).
    pose proof (Z.div_mod v (2 ^ (8 * (s - 3)))). pose proof (Z.mod_pos_bound v (2 ^ (8 * (s - 3)))). nia.
Qed.

(** ** Targets *)

Lemma FromCompact_nonneg c : 0 <= c -> 0 <= ArithUint256FromCompact c.
Proof.
  intros Hc. unfold ArithUint256FromCompact.
  assert (0 <= Z.land c 0x007fffff) by (apply Z.land_nonneg; lia).
  case_match; [by apply Z.shiftr_nonneg|by apply Z.shiftl_nonneg].
Qed.

Lemma quo53_nonneg a b : 0 <= a -> 0 < b -> 0 <= quo53 a b.
Proof.
  intros Ha Hb. unfold quo53. destruct (Z.eqb_spec a 0); [lia|].
  apply Z.div_pos; [|apply Z.pow_pos_nonneg; lia]. apply round53_nonneg.
  assert (0 <= a * 2 ^ Z.max 0 (55 + Z.log2 b - Z.log2 a) / b) by (apply Z.div_pos; [|lia]; nia).
  case_match; lia.
Qed.

Lemma NextBlockTarget_bound maxTarget timespan previous current :
  0 <= maxTarget -> 0 < timespan < 2 ^ 53 ->
  0 <= NextBlockTarget maxTarget timespan previous current <= maxTarget.
Proof.
  intros Hm Ht. unfold NextBlockTarget. destruct current as [c|]; [|lia].
  set (new := Divide _ _).
  assert (0 <= new) as Hn.
  { unfold new, Divide. rewrite (round53_exact timespan) by lia. apply quo53_nonneg; [|lia].
    apply round53_nonneg. unfold Multiply. by apply Z.mod_pos_bound. }
  destruct (Z.ltb_spec maxTarget new); lia.
Qed.

Lemma hexValue_encode acc l : hexValue acc (hexEncode l) = Some (acc * 256 ^ blen l + be_value l).
Proof.
  revert acc. induction l as [|b l IH]; intros acc; cbn [hexEncode hexValue].
  - rewrite blen_nil, Z.pow_0_r. change (be_value []) with 0. f_equal. lia.
  - pose proof (Zb_range b). pose proof (Z.div_mod (Zb b) 16) as Hdm.
    pose proof (Z.mod_pos_bound (Zb b) 16). rewrite !unhex_hexDigit by lia.
    cbn [mbind option_bind]. rewrite IH. f_equal. unfold be_value. cbn [rev].
    rewrite le_value_app, blen_rev, blen_cons, Z.pow_add_r by (pose proof (blen_nonneg l); lia).
    cbn [le_value]. nia.
Qed.

(** ** What headers promise *)

(** Header round trips.  Every 112 bytes are the serialization of exactly the
    header they parse to, and every header whose fields have their width parses
    back from its serialization. *)
Theorem header_roundtrip :
  (forall height raw, length raw = HeaderSize ->
     exists header, DeserializeHeader height raw = Ok header /\ SerializeHeader header = Ok raw /\
       headerOk header /\ bh_BlockHeight header = height) /\
  (forall header, headerOk header ->
     exists raw, SerializeHeader header = Ok raw /\ length raw = HeaderSize /\
       DeserializeHeader (bh_BlockHeight header) raw = Ok header).
Proof. split; [exact header_parse_serialize|exact header_serialize_parse]. Qed.
Lemma header_roundtrip_witness :
  exists header, DeserializeHeader 3 (repeat x01 112) = Ok header /\ SerializeHeader header = Ok (repeat x01 112).
Proof.
  destruct (proj1 header_roundtrip 3 (repeat x01 112)) as (h & Hd & Hs & _); [reflexivity|].
  exists h. split; [exact Hd|exact Hs].
Defined.

(** Difficulty bounds.  The next target is never negative nor easier than the
    chain's limit; writing a target in compact form only makes it harder, by at
    most one part in 2^15; and compact forms with a normal mantissa are read and
    written back unchanged. *)
Theorem retarget_bounds maxTarget timespan previous current :
  0 <= maxTarget < 2 ^ 256 -> 0 < timespan < 2 ^ 53 ->
  let target := NextBlockTarget maxTarget timespan previous current in
  let compact := ArithUint256FromCompact (Compact target) in
  0 <= target <= maxTarget /\ compact <= target /\ (target - compact) * 2 ^ 15 <= target /\
  forall s m, 3 <= s <= 32 -> 2 ^ 15 <= m < 2 ^ 23 ->
    Compact (ArithUint256FromCompact (s * 2 ^ 24 + m)) = s * 2 ^ 24 + m.
Proof.
  intros Hm Ht target compact.
  assert (0 <= target <= maxTarget) as Htar by (apply NextBlockTarget_bound; lia).
  destruct (compact_truncates target ltac:(lia)) as [Hle Herr].
  split_and!; try done; try lia. exact compact_roundtrip.
Qed.
Lemma retarget_bounds_witness :
  0 <= NextBlockTarget defaultMaxTarget 150
         (Some (MkHeader 1 [] [] [] 1000 0x1d00ffff 0 1)) (Some (MkHeader 1 [] [] [] 1100 0x1d00ffff 0 2))
    <= defaultMaxTarget.
Proof.
  assert (0 <= defaultMaxTarget < 2 ^ 256) as Hm by (split; vm_compute; congruence).
  assert (0 < 150 < 2 ^ 53) as Ht by (split; vm_compute; congruence).
  exact (proj1 (retarget_bounds defaultMaxTarget 150 _ _ Hm Ht)).
Defined.
