(* ===== verification/Headers.v ===== *)
(** * The header chain

    Model of the stateful part of [wallet/headers.go] and of
    [wallet/checkpoints.go], over any store with the interface [HeaderStorage]:
    opening, reading, connecting a chunk, repairing, the checkpointed chunks.
    The lock makes each method atomic.  The optional fetching of missing chunks
    from a server (the chunk getter) is not part of this file: the methods are
    those of headers without a getter. *)

From stdpp Require Import gmap sets.
From S2P Require Import Prelude Digest Hex Decimal Float HeaderStorage BlockHeader.

(** ** Checkpoints *)

Definition checkpointInterval : Z := 1000.
Definition checkpointDigestSize : nat := 32.
Definition checkpointEmptyHash : bytes :=
  lit "56944c5d3f98413ef45cf54545538103cc9f298e0575820ad3591376e2e0f65d".
Definition checkpointZeroHeaderHash : bytes :=
  lit "789d737d4f448e554b318c94063bbfa63e9ccda6e208f5648ca76ee68896557b".

(** The table is its digests' bytes, a multiple of 32. *)
Abbreviation checkpointTable := bytes.
Definition newCheckpointTable (data : bytes) : res checkpointTable :=
  if negb (length data mod checkpointDigestSize =? 0)%nat then Err "checkpoint data is not a multiple of 32"
  else Ok data.
Definition tableLen (table : checkpointTable) : Z := Z.of_nat (length table / checkpointDigestSize).
Definition lastHeight (table : checkpointTable) : Z :=
  if tableLen table =? 0 then -1 else (tableLen table - 1) * checkpointInterval.
Definition tableAt (table : checkpointTable) (index : Z) : option bytes :=
  if (index <? 0) || (tableLen table <=? index) then None
  else let start := (Z.to_nat index * checkpointDigestSize)%nat in
       Some (hexEncode (field start (start + checkpointDigestSize) table)).
Definition lookupCheckpoint (table : checkpointTable) (height : Z) : option bytes :=
  if (height <? 0) || negb (Z.rem height checkpointInterval =? 0) then None
  else tableAt table (Z.quot height checkpointInterval).

(** ** The chain's state *)

Record Headers (S : Type) := MkHeaders {
  h_storage : option S;
  h_size : Z;
  h_opened : bool;
  h_checkpoints : checkpointTable;
  h_missingCheckpoints : gset Z;
  h_validateDifficulty : bool;
  h_genesisHash : option bytes;
  h_maxTarget : Z;
  h_targetTimespan : Z
}.
Arguments MkHeaders {_}.
Arguments h_storage {_}.
Arguments h_size {_}.
Arguments h_opened {_}.
Arguments h_checkpoints {_}.
Arguments h_missingCheckpoints {_}.
Arguments h_validateDifficulty {_}.
Arguments h_genesisHash {_}.
Arguments h_maxTarget {_}.
Arguments h_targetTimespan {_}.

Definition defaultTargetTimespan : Z := 150.
Definition defaultGenesisHash : bytes :=
  lit "9c89283ba0f3227f6c03b70216b9f665f0118d5e0fa729cedf4fb34d6a34f463".
Definition regtestGenesisHash : bytes :=
  lit "6e3fcf1299d4ec5d79c3a4c91d624a4acf9e2e173d95a1a0504f677669687556".

Definition NewHeaders {S} (checkpoints : checkpointTable) : Headers S :=
  MkHeaders None 0 false checkpoints ∅ true (Some defaultGenesisHash) defaultMaxTarget
    defaultTargetTimespan.
Inductive Network := MainNet | TestNet | RegTest.
Definition NewHeadersForNetwork {S} (mainnet : checkpointTable) (network : Network) : Headers S :=
  match network with
  | MainNet => NewHeaders mainnet
  | TestNet => NewHeaders []
  | RegTest => MkHeaders None 0 false [] ∅ false (Some regtestGenesisHash) regtestMaxTarget
                 defaultTargetTimespan
  end.

Definition setStorage {S} (headers : Headers S) (storage : option S) (size : Z) (opened : bool)
  : Headers S :=
  MkHeaders storage size opened (h_checkpoints headers) (h_missingCheckpoints headers)
    (h_validateDifficulty headers) (h_genesisHash headers) (h_maxTarget headers)
    (h_targetTimespan headers).
Definition setMissing {S} (headers : Headers S) (missing : gset Z) : Headers S :=
  MkHeaders (h_storage headers) (h_size headers) (h_opened headers) (h_checkpoints headers) missing
    (h_validateDifficulty headers) (h_genesisHash headers) (h_maxTarget headers)
    (h_targetTimespan headers).

Definition ErrHeadersNotOpen : string := "headers are not open".
Definition ErrHeaderOutOfBounds : string := "header height is out of bounds".

Definition str (b : bytes) : string := string_of_list_byte b.
Definition size_ : Z := Z.of_nat HeaderSize.

(** Validation rejects a header, or fails on something else ([Err]). *)
Inductive verdict := Valid | InvalidHeader (height : Z) (message : string).

Section headers.
Context {S : Type} `{HeaderStorage S} `{Digests}.

(** ** Reading and writing *)

Definition readLocked (headers : Headers S) (height : Z) : res bytes :=
  if (height <? 0) || (h_size headers <=? height) then Err ErrHeaderOutOfBounds
  else match h_storage headers with
  | None => Err "header storage is nil"
  | Some storage =>
      raw ← ReadAt storage HeaderSize (i64 (height * size_));
      if negb (length raw =? HeaderSize)%nat then Err ErrInvalidHeaderLength else Ok raw
  end.

Definition GetRaw (headers : Headers S) (height : Z) : res bytes :=
  if negb (h_opened headers) then Err ErrHeadersNotOpen else readLocked headers height.
Definition Get (headers : Headers S) (height : Z) : res BlockHeader :=
  raw ← GetRaw headers height; DeserializeHeader height raw.
Definition Len (headers : Headers S) : Z := h_size headers.
Definition Height (headers : Headers S) : Z := Len headers - 1.
Definition BytesSize (headers : Headers S) : Z := i64 (Len headers * size_).
(** [Hash(height)], with [nil] for the best height. *)
Definition Hash (headers : Headers S) (height : option Z) : res bytes :=
  raw ← GetRaw headers (default (Height headers) height); Ok (HashHeader (Some raw)).
Definition BestHash (headers : Headers S) : res bytes :=
  if Height headers <? 0 then Ok (default [] (h_genesisHash headers)) else Hash headers None.

Definition writeLocked (headers : Headers S) (height : Z) (serialized : bytes)
  : res (Headers S * Z) :=
  match h_storage headers with
  | None => Err "header storage is nil"
  | Some storage =>
      let offset := i64 (height * size_) in
      storage ← (if Size storage <? offset then Resize storage offset else Ok storage);
      storage ← WriteAt storage serialized offset;
      let size := Z.max (h_size headers) (Z.quot (Size storage) size_) in
      Ok (setStorage headers (Some storage) size (h_opened headers), blen serialized / size_)
  end.

(** ** Validation *)

Definition validateHeader (headers : Headers S) (height : Z) (currentHash : bytes)
    (header : BlockHeader) (previousHash : option bytes) (target : Z) : res verdict :=
  match previousHash with
  | None =>
      match h_genesisHash headers with
      | Some genesis =>
          if negb (bool_decide (genesis = currentHash)) then
            Ok (InvalidHeader height ("genesis header doesn't match: " ++ str currentHash ++
                                      " vs expected " ++ str genesis))
          else Ok Valid
      | None => Ok Valid
      end
  | Some previousHash =>
      if negb (bool_decide (bh_PreviousHash header = previousHash)) then
        Ok (InvalidHeader height ("previous hash mismatch: " ++ str (bh_PreviousHash header) ++
                                  " vs expected " ++ str previousHash))
      else if negb (h_validateDifficulty headers) then Ok Valid
      else if negb (bh_Bits header =? Compact target) then
        Ok (InvalidHeader height ("bits mismatch: " ++ str (FormatInt (bh_Bits header)) ++
                                  " vs expected " ++ str (FormatInt (Compact target))))
      else
        proof ← ProofOfWork currentHash;
        if target <? proof then
          Ok (InvalidHeader height ("insufficient proof of work: " ++ str (FormatInt proof) ++
                                    " vs target " ++ str (FormatInt target)))
        else Ok Valid
  end.

(** The loop over the headers of a chunk; every failure is reported at the
    chunk's [start]. *)
Fixpoint validateLoop (headers : Headers S) (start : Z) (serialized : bytes) (count index : nat)
    (previousHash : option bytes) (previous previousPrevious : option BlockHeader) : res verdict :=
  match count with
  | O => Ok Valid
  | Datatypes.S count =>
      let begin := (index * HeaderSize)%nat in
      let raw := field begin (begin + HeaderSize) serialized in
      current ← DeserializeHeader (start + Z.of_nat index) raw;
      let currentHash := HashHeader (Some raw) in
      let target := NextBlockTarget (h_maxTarget headers) (h_targetTimespan headers)
                      previousPrevious previous in
      v ← validateHeader headers start currentHash current previousHash target;
      match v with
      | InvalidHeader _ _ => Ok v
      | Valid => validateLoop headers start serialized count (Datatypes.S index)
                   (Some currentHash) (Some current) previous
      end
  end.

Definition validateChunkLocked (headers : Headers S) (start : Z) (serialized : bytes) : res verdict :=
  '(previous, previousHash) ←
    (if 0 <? start then
       raw ← readLocked headers (start - 1);
       decoded ← DeserializeHeader (start - 1) raw;
       Ok (Some decoded, Some (HashHeader (Some raw)))
     else Ok (None, None));
  previousPrevious ←
    (if 1 <? start then
       raw ← readLocked headers (start - 2);
       decoded ← DeserializeHeader (start - 2) raw;
       Ok (Some decoded)
     else Ok None);
  validateLoop headers start serialized (length serialized / HeaderSize) 0
    previousHash previous previousPrevious.

(** [Ok (headers', n)]: [n] headers were accepted. *)
Definition Connect (headers : Headers S) (start : Z) (serialized : bytes) : res (Headers S * Z) :=
  if start <? 0 then Err ErrHeaderOutOfBounds
  else if negb (length serialized mod HeaderSize =? 0)%nat then Err ErrInvalidHeaderLength
  else if (length serialized =? 0)%nat then Ok (headers, 0)
  else if negb (h_opened headers) then Err ErrHeadersNotOpen
  else
    v ← validateChunkLocked headers start serialized;
    match v with
    | InvalidHeader _ _ => Ok (headers, 0)
    | Valid => writeLocked headers start serialized
    end.

(** ** Repair *)

Definition truncateForRepairLocked (headers : Headers S) (failedHeight : Z) : res (Headers S) :=
  match h_storage headers with
  | None => Panic
  | Some storage =>
      let newSize := Z.max 0 (failedHeight - 1) in
      storage ← Resize storage (i64 (newSize * size_));
      Ok (setStorage headers (Some storage) newSize (h_opened headers))
  end.

(** [count] is what is left of [headers.size - height]. *)
Fixpoint repairLoop (headers : Headers S) (count : nat) (height : Z) (previousHash : option bytes)
  : res (Headers S) :=
  match count with
  | O => Ok headers
  | Datatypes.S count =>
      raw ← readLocked headers height;
      let currentHash := HashHeader (Some raw) in
      match DeserializeHeader height raw with
      | Ok current =>
          let failed :=
            match previousHash with
            | Some previousHash => negb (bool_decide (bh_PreviousHash current = previousHash))
            | None =>
                if height =? 0 then
                  match h_genesisHash headers with
                  | Some genesis => negb (bool_decide (currentHash = genesis))
                  | None => false
                  end
                else false
            end in
          if failed then truncateForRepairLocked headers height
          else repairLoop headers count (height + 1) (Some currentHash)
      | _ => truncateForRepairLocked headers height
      end
  end.
Definition repairLocked (headers : Headers S) (startHeight : Z) : res (Headers S) :=
  if (startHeight <? 0) || (h_size headers - 1 <=? startHeight) then Ok headers
  else repairLoop headers (Z.to_nat (h_size headers - startHeight)) startHeight None.
Definition Repair (headers : Headers S) (startHeight : Z) : res (Headers S) :=
  if negb (h_opened headers) then Err ErrHeadersNotOpen else repairLocked headers startHeight.

(** ** Checkpointed chunks *)

Definition chunkHashLocked (headers : Headers S) (start count : Z) : res bytes :=
  if (start <? 0) || (count <? 0) then Err ErrHeaderOutOfBounds
  else if (max_i64 / size_ <? start) || (max_i64 / size_ <? count) then Err ErrHeaderOutOfBounds
  else match h_storage headers with
  | None => Panic
  | Some storage =>
      let offset := start * size_ in
      let length := Z.min (count * size_) (Z.max 0 (Size storage - offset)) in
      data ← (if 0 <? length then ReadAt storage (Z.to_nat length) offset else Ok []);
      Ok (encodeReversedHeaderHash (sha256 (sha256 data)))
  end.
Definition ChunkHash (headers : Headers S) (start count : Z) : res bytes :=
  if negb (h_opened headers) then Err ErrHeadersNotOpen else chunkHashLocked headers start count.

Definition hasHeaderLocked (headers : Headers S) (height : Z) : res bool :=
  if height <? 0 then Err ErrHeaderOutOfBounds
  else
    let normalized := Z.quot height checkpointInterval * checkpointInterval in
    match lookupCheckpoint (h_checkpoints headers) normalized with
    | Some _ => Ok (negb (bool_decide (normalized ∈ h_missingCheckpoints headers)))
    | None =>
        hash ← chunkHashLocked headers height 1;
        Ok (negb (bool_decide (hash = checkpointEmptyHash)) &&
            negb (bool_decide (hash = checkpointZeroHeaderHash)))
    end.
Definition HasHeader (headers : Headers S) (height : Z) : res bool :=
  if negb (h_opened headers) then Err ErrHeadersNotOpen else hasHeaderLocked headers height.

(** [for index := n - 1; index >= 0; index--] over the table's indices. *)
Definition descending (n : Z) : list Z := rev (map Z.of_nat (seq 0 (Z.to_nat n))).
Definition MissingCheckpointedChunks (headers : Headers S) : list Z :=
  filter (fun height => height ∈ h_missingCheckpoints headers)
    (map (fun index => index * checkpointInterval) (descending (tableLen (h_checkpoints headers)))).

Definition ensureCheckpointedSizeLocked (headers : Headers S) : res (Headers S) :=
  let last := lastHeight (h_checkpoints headers) in
  if last <=? h_size headers - 1 then Ok headers
  else match h_storage headers with
  | None => Panic
  | Some storage =>
      let checkpointOffset := i64 (last * size_) in
      storage ← Resize storage checkpointOffset;
      storage ← Resize storage (i64 (checkpointOffset + checkpointInterval * size_));
      Ok (setStorage headers (Some storage) (Z.quot (Size storage) size_) (h_opened headers))
  end.

Fixpoint findMissingLoop (headers : Headers S) (indices : list Z) : res (Headers S) :=
  match indices with
  | [] => Ok headers
  | index :: indices =>
      let height := index * checkpointInterval in
      if bool_decide (height ∈ h_missingCheckpoints headers) then findMissingLoop headers indices
      else
        let expected := default [] (tableAt (h_checkpoints headers) index) in
        actual ← chunkHashLocked headers height checkpointInterval;
        findMissingLoop
          (if negb (bool_decide (actual = expected))
           then setMissing headers ({[height]} ∪ h_missingCheckpoints headers) else headers) indices
  end.
Definition findMissingCheckpointsLocked (headers : Headers S) : res (Headers S) :=
  findMissingLoop headers (descending (tableLen (h_checkpoints headers))).

(** [Open] with the store it opened; on an error the headers stay as they were. *)
Definition Open (headers : Headers S) (storage : S) : res (Headers S) :=
  let rawSize := Size storage in
  let opened := setStorage headers (Some storage) (Z.quot rawSize size_) true in
  let repairStart := lastHeight (h_checkpoints headers) + checkpointInterval in
  repaired ← (if negb (Z.rem rawSize size_ =? 0) then repairLocked opened 0
              else repairLocked opened repairStart);
  sized ← ensureCheckpointedSizeLocked repaired;
  findMissingCheckpointsLocked sized.
End headers.

(** The checkpoint constants are the chunk hashes of no data and of a zero header. *)
Example checkpoint_constants :
  let digests := exampleDigests in
  encodeReversedHeaderHash (sha256 (sha256 [])) = checkpointEmptyHash /\
  encodeReversedHeaderHash (sha256 (sha256 (repeat x00 112))) = checkpointZeroHeaderHash.
Proof. vm_compute. split; reflexivity. Qed.

(** ** The chain a store holds *)

Definition rawAt (c : bytes) (i : Z) : bytes := take HeaderSize (drop (Z.to_nat i * HeaderSize) c).
Definition headerAt (c : bytes) (i : Z) : option BlockHeader :=
  match DeserializeHeader i (rawAt c i) with Ok header => Some header | _ => None end.
(** The header [k] before height [i]. *)
Definition headerBefore (c : bytes) (i k : Z) : option BlockHeader :=
  if k <=? i then headerAt c (i - k) else None.

Section chain.
Context {S : Type} `{HeaderStorage S} `{Digests}.
Implicit Types headers : Headers S.

Definition hashAt (c : bytes) (i : Z) : bytes := HashHeader (Some (rawAt c i)).
Definition previousHashAt (c : bytes) (i : Z) : option bytes :=
  if 0 <? i then Some (hashAt c (i - 1)) else None.
Definition targetAt headers (c : bytes) (i : Z) : Z :=
  NextBlockTarget (h_maxTarget headers) (h_targetTimespan headers)
    (headerBefore c i 2) (headerBefore c i 1).

(** The consensus rules for the header at height [i] of a chain [c]: it is the
    genesis block, or it extends the block before it, with the difficulty
    that block and its predecessor determine and the work to match. *)
Definition validAt headers (c : bytes) (i : Z) : Prop :=
  exists header, headerAt c i = Some header /\
    match previousHashAt c i with
    | None => forall genesis, h_genesisHash headers = Some genesis -> genesis = hashAt c i
    | Some previous =>
        bh_PreviousHash header = previous /\
        (h_validateDifficulty headers = true ->
           bh_Bits header = Compact (targetAt headers c i) /\
           exists proof, ProofOfWork (hashAt c i) = Ok proof /\ proof <= targetAt headers c i)
    end.

(** Open headers over the store [s]. *)
Definition openOver headers (s : S) : Prop :=
  h_opened headers = true /\ h_storage headers = Some s /\
  h_size headers = blen (contents s) / size_ /\ blen (contents s) <= 2 ^ 62.

Lemma length_rawAt c i : 0 <= i < blen c / size_ -> length (rawAt c i) = HeaderSize.
Proof.
  intros Hi. unfold rawAt. rewrite length_take, length_drop. unfold blen, size_ in *.
  pose proof (Z.div_mod (Z.of_nat (length c)) (Z.of_nat HeaderSize) ltac:(done)).
  pose proof (Z.mod_pos_bound (Z.of_nat (length c)) (Z.of_nat HeaderSize) ltac:(done)).
  unfold HeaderSize in *. nia.
Qed.

Lemma offset_range headers s i :
  openOver headers s -> 0 <= i <= h_size headers -> i64 (i * size_) = i * size_ /\ i * size_ <= blen (contents s).
Proof.
  intros (_ & _ & Hsz & Hb) Hi. unfold size_, HeaderSize in *.
  pose proof (Z.div_mod (blen (contents s)) (Z.of_nat 112) ltac:(done)).
  pose proof (Z.mod_pos_bound (blen (contents s)) (Z.of_nat 112) ltac:(done)).
  rewrite i64_id by (unfold min_i64, max_i64; lia). lia.
Qed.

Lemma readLocked_ok headers s i :
  openOver headers s -> 0 <= i < h_size headers -> readLocked headers i = Ok (rawAt (contents s) i).
Proof.
  intros Ho Hi. destruct (offset_range headers s i Ho ltac:(lia)) as [Eo Hle].
  destruct Ho as (_ & Hs & Hsz & Hb). unfold readLocked. rewrite Hs, Eo.
  destruct (Z.ltb_spec i 0); [lia|]. destruct (Z.leb_spec (h_size headers) i); [lia|]. cbn [orb].
  rewrite ReadAt_contents by (unfold size_; lia). cbn [mbind res_bind].
  replace (Z.to_nat (i * size_)) with (Z.to_nat i * HeaderSize)%nat by (unfold size_; lia).
  fold (rawAt (contents s) i). rewrite length_rawAt by (rewrite <- Hsz; lia). by rewrite Nat.eqb_refl.
Qed.

Lemma headerAt_ok headers s i :
  openOver headers s -> 0 <= i < h_size headers ->
  exists header, DeserializeHeader i (rawAt (contents s) i) = Ok header /\ headerAt (contents s) i = Some header.
Proof.
  intros (_ & _ & Hsz & _) Hi. rewrite Hsz in Hi. pose proof (length_rawAt (contents s) i Hi) as Hl.
  unfold headerAt, DeserializeHeader. rewrite Hl. cbn [Nat.ltb Nat.leb HeaderSize]. eauto.
Qed.

Lemma validateHeader_Valid headers start c i header :
  headerAt c i = Some header ->
  validateHeader headers start (hashAt c i) header (previousHashAt c i) (targetAt headers c i) = Ok Valid <->
  match previousHashAt c i with
  | None => forall genesis, h_genesisHash headers = Some genesis -> genesis = hashAt c i
  | Some previous =>
      bh_PreviousHash header = previous /\
      (h_validateDifficulty headers = true ->
         bh_Bits header = Compact (targetAt headers c i) /\
         exists proof, ProofOfWork (hashAt c i) = Ok proof /\ proof <= targetAt headers c i)
  end.
Proof.
  intros Hh. unfold validateHeader. destruct (previousHashAt c i) as [previous|].
  - case_bool_decide as Hp; cbn [negb]; [|split; [done|by intros [? _]]].
    destruct (h_validateDifficulty headers); cbn [negb]; [|by split].
    destruct (Z.eqb_spec (bh_Bits header) (Compact (targetAt headers c i))) as [Hb|Hb]; cbn [negb];
      [|split; [done|intros [_ Hd]; destruct (Hd eq_refl) as [? _]; done]].
    destruct (ProofOfWork (hashAt c i)) as [proof|e| |]; cbn [mbind res_bind];
      try (split; [done|intros [_ Hd]; destruct (Hd eq_refl) as (_ & p & [=] & _)]).
    destruct (Z.ltb_spec (targetAt headers c i) proof).
    + split; [done|]. intros [_ Hd]. destruct (Hd eq_refl) as (_ & p & [= <-] & ?). lia.
    + split; [|done]. intros _. split; [done|]. intros _. split; [done|]. exists proof. done.
  - destruct (h_genesisHash headers) as [genesis|]; [|by split].
    case_bool_decide as Hg; cbn [negb]; (split; [try done|try done]).
    + by intros _ g [= <-].
    + intros Hx. destruct Hg. by apply Hx.
Qed.

(** The loop accepts a chunk exactly when each of its headers is valid in the
    chain the chunk is part of. *)
Lemma validateLoop_valid headers start serialized c count index :
  0 <= start ->
  (forall k, (index <= k < index + count)%nat ->
     length (rawAt c (start + Z.of_nat k)) = HeaderSize /\
     field (k * HeaderSize) (k * HeaderSize + HeaderSize) serialized = rawAt c (start + Z.of_nat k)) ->
  validateLoop headers start serialized count index (previousHashAt c (start + Z.of_nat index))
    (headerBefore c (start + Z.of_nat index) 1) (headerBefore c (start + Z.of_nat index) 2) = Ok Valid <->
  forall k, (index <= k < index + count)%nat -> validAt headers c (start + Z.of_nat k).
Proof.
  intros Hs. revert index. induction count as [|count IH]; intros index Hc; cbn [validateLoop].
  { split; [intros _ k Hk; lia|done]. }
  destruct (Hc index ltac:(lia)) as [Hl Hf]. set (i := start + Z.of_nat index) in *. cbv zeta. rewrite Hf.
  assert (exists header, DeserializeHeader i (rawAt c i) = Ok header /\ headerAt c i = Some header)
    as (header & Hd & Hh).
  { unfold headerAt, DeserializeHeader. rewrite Hl. cbn [Nat.ltb Nat.leb HeaderSize]. eauto. }
  rewrite Hd. cbn [mbind res_bind]. fold (hashAt c i). fold (targetAt headers c i).
  pose proof (validateHeader_Valid headers start c i header Hh) as Hv.
  assert (start + Z.of_nat (Datatypes.S index) = i + 1) as Ei by (unfold i; lia).
  assert (previousHashAt c (i + 1) = Some (hashAt c i)) as Ep.
  { unfold previousHashAt. destruct (Z.ltb_spec 0 (i + 1)); [|lia]. do 2 f_equal. lia. }
  assert (headerBefore c (i + 1) 1 = Some header) as Eb1.
  { unfold headerBefore. destruct (Z.leb_spec 1 (i + 1)); [|lia]. rewrite <- Hh. f_equal. lia. }
  assert (headerBefore c (i + 1) 2 = headerBefore c i 1) as Eb2.
  { unfold headerBefore. destruct (Z.leb_spec 2 (i + 1)), (Z.leb_spec 1 i); try lia; [f_equal; lia|done]. }
  specialize (IH (Datatypes.S index)). rewrite Ei, Ep, Eb1, Eb2 in IH.
  destruct (validateHeader headers start (hashAt c i) header (previousHashAt c i) (targetAt headers c i))
    as [[|h m]|e| |] eqn:Ev; cbn [mbind res_bind].
  - rewrite IH by (intros k Hk; apply Hc; lia). split.
    + intros Hk k Hrange. destruct (decide (k = index)) as [->|]; [|apply Hk; lia].
      exists header. split; [done|]. by apply Hv.
    + intros Hk k Hrange. apply Hk. lia.
  - split; [done|]. intros Hk. destruct (Hk index ltac:(lia)) as (hd & Hhd & Hx). fold i in Hhd, Hx.
    rewrite Hh in Hhd. simplify_eq. by apply Hv in Hx.
  - split; [done|]. intros Hk. destruct (Hk index ltac:(lia)) as (hd & Hhd & Hx). fold i in Hhd, Hx.
    rewrite Hh in Hhd. simplify_eq. by apply Hv in Hx.
  - split; [done|]. intros Hk. destruct (Hk index ltac:(lia)) as (hd & Hhd & Hx). fold i in Hhd, Hx.
    rewrite Hh in Hhd. simplify_eq. by apply Hv in Hx.
  - split; [done|]. intros Hk. destruct (Hk index ltac:(lia)) as (hd & Hhd & Hx). fold i in Hhd, Hx.
    rewrite Hh in Hhd. simplify_eq. by apply Hv in Hx.
Qed.
End chain.

(** ** Connecting *)

(** The data with a chunk written at a height. *)
Definition written (c : bytes) (start : Z) (serialized : bytes) : bytes :=
  let offset := (Z.to_nat start * HeaderSize)%nat in
  take offset c ++ serialized ++ drop (offset + length serialized) c.

Lemma rawAt_before c start serialized i :
  0 <= i < start -> start * size_ <= blen c -> rawAt (written c start serialized) i = rawAt c i.
Proof.
  unfold size_. intros Hi Hc. unfold rawAt, written. cbv zeta. unfold blen in Hc.
  set (o := (Z.to_nat start * HeaderSize)%nat).
  assert (Z.to_nat i * HeaderSize + HeaderSize <= o <= length c)%nat as Ho by (unfold o, HeaderSize in *; lia).
  rewrite drop_app_le by (rewrite length_take; lia).
  rewrite take_app_le by (rewrite length_drop, length_take; lia).
  rewrite <- (take_drop o c) at 2. rewrite (drop_app_le (take o c)) by (rewrite length_take; lia).
  rewrite (take_app_le (drop _ (take o c))) by (rewrite length_drop, length_take; lia). done.
Qed.
Lemma rawAt_inside c start serialized k :
  0 <= start -> start * size_ <= blen c -> (k < length serialized / HeaderSize)%nat ->
  field (k * HeaderSize) (k * HeaderSize + HeaderSize) serialized
    = rawAt (written c start serialized) (start + Z.of_nat k) /\
  length (rawAt (written c start serialized) (start + Z.of_nat k)) = HeaderSize.
Proof.
  unfold size_. intros Hs Hc Hk. unfold blen in Hc.
  pose proof (Nat.div_mod (length serialized) HeaderSize ltac:(done)) as Hd.
  assert (k * HeaderSize + HeaderSize <= length serialized)%nat as Hkl by (unfold HeaderSize in *; nia).
  assert (field (k * HeaderSize) (k * HeaderSize + HeaderSize) serialized
    = rawAt (written c start serialized) (start + Z.of_nat k)) as E.
  { unfold rawAt, written, field. cbv zeta.
    replace (Z.to_nat (start + Z.of_nat k) * HeaderSize)%nat
      with (Z.to_nat start * HeaderSize + k * HeaderSize)%nat by (unfold HeaderSize; lia).
    set (o := (Z.to_nat start * HeaderSize)%nat) in *.
    assert (length (take o c) = o) as Ht by (rewrite length_take; unfold o, HeaderSize in *; lia).
    rewrite <- drop_drop, (drop_app_at (take o c)) by done.
    rewrite drop_app_le by lia. rewrite take_app_le by (rewrite length_drop; lia).
    f_equal. lia. }
  split; [done|]. rewrite <- E. rewrite length_field; lia.
Qed.

Section connect.
Context {S : Type} `{HeaderStorage S} `{Digests}.
Implicit Types headers : Headers S.

Lemma chain_prefix headers c c' i n :
  (forall j, 0 <= j < n -> rawAt c' j = rawAt c j) -> 0 <= i < n ->
  validAt headers c i <-> validAt headers c' i.
Proof.
  intros Hr Hi.
  assert (forall j, 0 <= j < n -> headerAt c' j = headerAt c j) as Hh
    by (intros j Hj; unfold headerAt; by rewrite Hr).
  assert (forall k, 1 <= k -> headerBefore c' i k = headerBefore c i k) as Hb.
  { intros k Hk. unfold headerBefore. destruct (Z.leb_spec k i); [apply Hh; lia|done]. }
  unfold validAt, targetAt, previousHashAt, hashAt.
  rewrite !Hb, (Hh i), (Hr i) by lia.
  destruct (Z.ltb_spec 0 i); [|done]. by rewrite (Hr (i - 1)) by lia.
Qed.

(** A chunk is accepted exactly when every header of it is valid where it goes. *)
Lemma validateChunk_valid headers s start serialized :
  openOver headers s -> 0 <= start <= h_size headers ->
  let c := written (contents s) start serialized in
  validateChunkLocked headers start serialized = Ok Valid <->
  forall k, (k < length serialized / HeaderSize)%nat -> validAt headers c (start + Z.of_nat k).
Proof.
  intros Ho Hs. cbv zeta. set (c := written (contents s) start serialized).
  destruct (offset_range headers s start Ho Hs) as [_ Hoff].
  assert (forall i, 0 <= i < start -> rawAt c i = rawAt (contents s) i) as Hbefore
    by (intros; by apply rawAt_before).
  unfold validateChunkLocked.
  assert ((if 0 <? start then
       raw ← readLocked headers (start - 1);
       decoded ← DeserializeHeader (start - 1) raw;
       Ok (Some decoded, Some (HashHeader (Some raw)))
     else Ok (None, None)) = Ok (headerBefore c start 1, previousHashAt c start)) as ->.
  { unfold headerBefore, previousHashAt.
    destruct (Z.ltb_spec 0 start) as [Hlt|Hge]; [|destruct (Z.leb_spec 1 start); [lia|done]].
    rewrite (readLocked_ok headers s) by (done || lia).
    destruct (headerAt_ok headers s (start - 1) Ho ltac:(lia)) as (hd & Hd & Hh).
    cbn [mbind res_bind]. rewrite Hd. cbn [mbind res_bind].
    destruct (Z.leb_spec 1 start); [|lia]. unfold headerAt, hashAt in *. rewrite Hbefore by lia.
    by rewrite Hh. }
  cbn [mbind res_bind].
  assert ((if 1 <? start then
       raw ← readLocked headers (start - 2);
       decoded ← DeserializeHeader (start - 2) raw;
       Ok (Some decoded)
     else Ok None) = Ok (headerBefore c start 2)) as ->.
  { unfold headerBefore.
    destruct (Z.ltb_spec 1 start) as [Hlt|Hge]; [|destruct (Z.leb_spec 2 start); [lia|done]].
    rewrite (readLocked_ok headers s) by (done || lia).
    destruct (headerAt_ok headers s (start - 2) Ho ltac:(lia)) as (hd & Hd & Hh).
    cbn [mbind res_bind]. rewrite Hd. cbn [mbind res_bind].
    destruct (Z.leb_spec 2 start); [|lia]. unfold headerAt in *. rewrite Hbefore by lia.
    by rewrite Hh. }
  cbn [mbind res_bind].
  pose proof (validateLoop_valid headers start serialized c (length serialized / HeaderSize) 0 ltac:(lia)) as Hv.
  rewrite Z.add_0_r in Hv. rewrite Hv.
  - split; intros Hk k Hkl; apply Hk; lia.
  - intros k Hk. destruct (rawAt_inside (contents s) start serialized k ltac:(lia) Hoff ltac:(lia)) as [? ?].
    done.
Qed.

Lemma writeLocked_ok headers s start serialized :
  openOver headers s -> 0 <= start <= h_size headers -> blen (contents s) + blen serialized <= 2 ^ 62 ->
  exists headers' s', writeLocked headers start serialized = Ok (headers', blen serialized / size_) /\
    openOver headers' s' /\ contents s' = written (contents s) start serialized /\
    h_genesisHash headers' = h_genesisHash headers /\ h_maxTarget headers' = h_maxTarget headers /\
    h_targetTimespan headers' = h_targetTimespan headers /\
    h_validateDifficulty headers' = h_validateDifficulty headers.
Proof.
  intros Ho Hs Hb. destruct (offset_range headers s start Ho Hs) as [Eo Hoff].
  destruct Ho as (Hop & Hst & Hsz & Hcb). pose proof (blen_nonneg serialized).
  unfold writeLocked. rewrite Hst, Eo, Size_contents.
  destruct (Z.ltb_spec (blen (contents s)) (start * size_)); [lia|]. cbn [mbind res_bind].
  assert (0 <= start * size_) by (unfold size_; lia).
  destruct (WriteAt_contents s serialized (start * size_)) as (s' & -> & Hc);
    [lia|unfold max_i64; lia|]. cbn [mbind res_bind].
  eexists _, s'. split; [done|].
  assert (contents s' = written (contents s) start serialized) as Hc'.
  { rewrite Hc. unfold written. cbv zeta.
    by replace (Z.to_nat (start * size_)) with (Z.to_nat start * HeaderSize)%nat by (unfold size_; lia). }
  split; [|done]. unfold openOver. cbn. rewrite Size_contents.
  assert (blen (contents s') = Z.max (blen (contents s)) (start * size_ + blen serialized)) as Hlen.
  { rewrite Hc, !blen_app. unfold blen in *. rewrite length_take, length_drop. lia. }
  split_and!; [done|done| |lia].
  rewrite Hsz, Z.quot_div_nonneg by (unfold size_, HeaderSize; lia).
  apply Z.max_r. apply Z.div_le_mono; unfold size_, HeaderSize in *; lia.
Qed.

(** [Connect] on open headers: it fails for a gap or a broken length; it
    accepts all of the chunk when every header of it is valid, and else
    changes nothing. *)
Lemma Connect_spec headers s start serialized headers' n :
  openOver headers s -> blen (contents s) + blen serialized <= 2 ^ 62 ->
  Connect headers start serialized = Ok (headers', n) ->
  (headers' = headers /\ n = 0) \/
  (exists s', n = blen serialized / size_ /\ 0 <= start <= h_size headers /\
     openOver headers' s' /\ contents s' = written (contents s) start serialized /\
     (forall k, 0 <= k < n -> validAt headers' (contents s') (start + k)) /\
     (forall i, 0 <= i < start -> validAt headers (contents s) i -> validAt headers' (contents s') i)).
Proof.
  intros Ho Hb. unfold Connect. destruct (Z.ltb_spec start 0); [done|].
  destruct (length serialized mod HeaderSize =? 0)%nat; cbn [negb]; [|done].
  destruct (length serialized =? 0)%nat; [intros [= <- <-]; by left|].
  rewrite (proj1 Ho). cbn [negb].
  destruct (Z.le_gt_cases start (h_size headers)) as [Hle|Hgt].
  - intros Hc. apply res_bind_Ok in Hc as (v & Hv & Hc). destruct v; [|injection Hc as <- <-; by left].
    pose proof (proj1 (validateChunk_valid headers s start serialized Ho ltac:(lia)) Hv) as Hall.
    clear Hv. rename Hall into Hv.
    destruct (writeLocked_ok headers s start serialized Ho ltac:(lia) Hb)
      as (h2 & s2 & Hw & Ho2 & Hc2 & Eg & Em & Et & Ed).
    rewrite Hw in Hc. injection Hc as <- <-. right. exists s2.
    assert (forall c i, validAt headers c i -> validAt h2 c i) as Hsame.
    { intros c i. unfold validAt, targetAt. by rewrite Eg, Em, Et, Ed. }
    destruct (offset_range headers s start Ho ltac:(lia)) as [_ Hoff].
    split_and!; try done; try lia.
    + intros k Hk. rewrite Hc2. apply Hsame. replace k with (Z.of_nat (Z.to_nat k)) by lia.
      apply Hv. unfold blen, size_ in Hk. rewrite <- Nat2Z.inj_div in Hk. lia.
    + intros i Hi Hval. apply Hsame. rewrite Hc2.
      apply (chain_prefix headers (contents s) _ i start); [|done|done].
      intros j Hj. by apply rawAt_before.
  - intros Hc. exfalso. apply res_bind_Ok in Hc as (v & Hv & _). unfold validateChunkLocked in Hv.
    destruct (Z.ltb_spec 0 start) as [|]; [|destruct Ho as (_ & _ & Hsz & _); pose proof (blen_nonneg (contents s));
      assert (0 <= blen (contents s) / size_) by (apply Z.div_pos; unfold size_, HeaderSize; lia); lia].
    assert (readLocked headers (start - 1) = Err ErrHeaderOutOfBounds) as E.
    { unfold readLocked. destruct (Z.ltb_spec (start - 1) 0); [done|].
      destruct (Z.leb_spec (h_size headers) (start - 1)); [done|lia]. }
    by rewrite E in Hv.
Qed.
End connect.

(** ** Repairing *)

Section repair.
Context {S : Type} `{HeaderStorage S} `{Digests}.
Implicit Types headers : Headers S.

(** What [repairLocked] checks at a height; the first one is trusted unless it
    is the genesis block. *)
Definition sound_at headers (c : bytes) (start i : Z) : Prop :=
  if decide (i = start) then
    i = 0 -> forall genesis, h_genesisHash headers = Some genesis -> hashAt c i = genesis
  else exists header, headerAt c i = Some header /\ bh_PreviousHash header = hashAt c (i - 1).

(** Truncation at a failed height: the block before it goes as well. *)
Definition truncatedAt headers headers' (s : S) (failed : Z) : Prop :=
  exists s', openOver headers' s' /\ h_size headers' = Z.max 0 (failed - 1) /\
    contents s' = take (Z.to_nat (Z.max 0 (failed - 1)) * HeaderSize) (contents s).

Lemma truncate_ok headers s failed :
  openOver headers s -> 0 <= failed < h_size headers ->
  exists headers', truncateForRepairLocked headers failed = Ok headers' /\
    truncatedAt headers headers' s failed.
Proof.
  intros Ho Hf. destruct (offset_range headers s (Z.max 0 (failed - 1)) Ho ltac:(lia)) as [E Hoff].
  destruct Ho as (Hop & Hst & Hsz & Hb). unfold truncateForRepairLocked. rewrite Hst, E.
  destruct (Resize_contents s (Z.max 0 (failed - 1) * size_)) as (s' & -> & Hc).
  { unfold size_, HeaderSize, max_i64 in *. lia. }
  cbn [mbind res_bind]. eexists. split; [done|]. exists s'.
  assert (contents s' = take (Z.to_nat (Z.max 0 (failed - 1)) * HeaderSize) (contents s)) as Hc'.
  { rewrite Hc.
    replace (Z.to_nat (Z.max 0 (failed - 1) * size_))
      with (Z.to_nat (Z.max 0 (failed - 1)) * HeaderSize)%nat by (unfold size_; lia).
    replace (_ - length (contents s))%nat with 0%nat by (unfold blen, size_ in *; lia).
    by rewrite app_nil_r. }
  split_and!; [|done|done]. unfold openOver. cbn.
  assert (blen (contents s') = Z.max 0 (failed - 1) * size_) as Hl.
  { rewrite Hc'. unfold blen, size_ in *. rewrite length_take. lia. }
  rewrite Hl. split_and!; [done|done| |lia]. unfold size_, HeaderSize. by rewrite Z.div_mul.
Qed.

Lemma repairLoop_spec headers s start count height :
  openOver headers s -> 0 <= start <= height -> height + Z.of_nat count = h_size headers ->
  exists headers',
    repairLoop headers count height
      (if decide (height = start) then None else Some (hashAt (contents s) (height - 1))) = Ok headers' /\
    ((headers' = headers /\ forall i, height <= i < h_size headers -> sound_at headers (contents s) start i) \/
     exists failed, height <= failed < h_size headers /\ ~ sound_at headers (contents s) start failed /\
       (forall i, height <= i < failed -> sound_at headers (contents s) start i) /\
       truncatedAt headers headers' s failed).
Proof.
  intros Ho. revert height. induction count as [|count IH]; intros height Hh Hc; cbn [repairLoop].
  { exists headers. split; [done|]. left. split; [done|]. intros i Hi. lia. }
  rewrite (readLocked_ok headers s) by (done || lia). cbn [mbind res_bind]. cbv zeta.
  destruct (headerAt_ok headers s height Ho ltac:(lia)) as (hd & Hd & Hhd). rewrite Hd.
  fold (hashAt (contents s) height).
  set (failed := match (if decide (height = start) then None else _) with Some _ => _ | None => _ end).
  assert (failed = false <-> sound_at headers (contents s) start height) as Hiff.
  { unfold failed, sound_at. destruct (decide (height = start)).
    - destruct (Z.eqb_spec height 0); [|split; done].
      destruct (h_genesisHash headers) as [g|]; [|split; done].
      rewrite negb_false_iff, bool_decide_eq_true. split; [by intros ? _ g' [= <-]|]. intros Hx. by apply Hx.
    - rewrite negb_false_iff, bool_decide_eq_true, Hhd. split; [by eexists|by intros (? & [= <-] & ?)]. }
  destruct failed.
  - destruct (truncate_ok headers s height Ho ltac:(lia)) as (headers' & E & Ht). exists headers'.
    split; [done|]. right. exists height. split_and!; [lia|lia| |intros i Hi; lia|done].
    intros Hx. by apply Hiff in Hx.
  - destruct (IH (height + 1) ltac:(lia) ltac:(lia)) as (headers' & E & Hr). exists headers'. split.
    + rewrite decide_False in E by lia.
      replace (height + 1 - 1) with height in E by lia. done.
    + assert (sound_at headers (contents s) start height) as Hok by by apply Hiff.
      destruct Hr as [[-> Hall]|(f & Hf & Hbad & Hall & Ht)]; [left|right].
      * split; [done|]. intros i Hi. destruct (decide (i = height)) as [->|]; [done|]. apply Hall. lia.
      * exists f. split_and!; [lia|lia|done| |done]. intros i Hi.
        destruct (decide (i = height)) as [->|]; [done|]. apply Hall. lia.
Qed.

(** [Repair] keeps a chain whose links are sound from [start] on, and else
    truncates it before the first bad one. *)
Lemma Repair_spec headers s start :
  openOver headers s -> 0 <= start < h_size headers - 1 ->
  exists headers', Repair headers start = Ok headers' /\
    ((headers' = headers /\ forall i, start <= i < h_size headers -> sound_at headers (contents s) start i) \/
     exists failed, start <= failed < h_size headers /\ ~ sound_at headers (contents s) start failed /\
       (forall i, start <= i < failed -> sound_at headers (contents s) start i) /\
       truncatedAt headers headers' s failed).
Proof.
  intros Ho Hs. unfold Repair. rewrite (proj1 Ho). cbn [negb]. unfold repairLocked.
  destruct (Z.ltb_spec start 0); [lia|]. destruct (Z.leb_spec (h_size headers - 1) start); [lia|]. cbn [orb].
  destruct (repairLoop_spec headers s start (Z.to_nat (h_size headers - start)) start Ho ltac:(lia) ltac:(lia))
    as (headers' & E & Hr). rewrite decide_True in E by done. by exists headers'.
Qed.

(** ** Checkpoints *)

Definition chunkDigest (c : bytes) (start count : Z) : bytes :=
  encodeReversedHeaderHash (sha256 (sha256
    (take (Z.to_nat (count * size_)) (drop (Z.to_nat (start * size_)) c)))).

Lemma chunkHash_ok headers s start count :
  openOver headers s -> 0 <= start <= max_i64 / size_ -> 0 <= count <= max_i64 / size_ ->
  chunkHashLocked headers start count = Ok (chunkDigest (contents s) start count).
Proof.
  intros (_ & Hst & _ & Hb) Hs Hc. unfold chunkHashLocked.
  destruct (Z.ltb_spec start 0), (Z.ltb_spec count 0); try lia. cbn [orb].
  destruct (Z.ltb_spec (max_i64 / size_) start), (Z.ltb_spec (max_i64 / size_) count); try lia. cbn [orb].
  rewrite Hst, Size_contents. unfold chunkDigest.
  assert (0 <= start * size_ /\ 0 <= count * size_) as [? ?] by (unfold size_; lia).
  set (len := Z.min (count * size_) (Z.max 0 (blen (contents s) - start * size_))).
  assert ((if 0 <? len then ReadAt s (Z.to_nat len) (start * size_) else Ok [])
    = Ok (take (Z.to_nat (count * size_)) (drop (Z.to_nat (start * size_)) (contents s)))) as ->; [|done].
  assert (length (drop (Z.to_nat (start * size_)) (contents s))
    = Z.to_nat (Z.max 0 (blen (contents s) - start * size_))) as Hl
    by (rewrite length_drop; unfold blen; lia).
  destruct (Z.ltb_spec 0 len).
  - rewrite ReadAt_contents by lia. f_equal. destruct (Z.le_gt_cases (count * size_) (Z.max 0 (blen (contents s) - start * size_))).
    + f_equal. unfold len. lia.
    + rewrite !take_ge; [done| |]; rewrite Hl; unfold len; lia.
  - f_equal. unfold len in *. destruct (Z.le_gt_cases (count * size_) 0).
    + replace (Z.to_nat (count * size_)) with 0%nat by lia. by rewrite take_0.
    + rewrite take_ge; [|rewrite Hl; lia]. destruct (drop _ _) as [|b r] eqn:E; [done|].
      cbn [length] in Hl. lia.
Qed.

(** After the scan, the missing chunks are those known to be missing before
    and those whose stored headers do not hash to their checkpoint. *)
Lemma findMissing_spec headers s indices :
  openOver headers s ->
  (forall index, index ∈ indices -> 0 <= index <= max_i64 / size_ / checkpointInterval) ->
  exists headers', findMissingLoop headers indices = Ok headers' /\ openOver headers' s /\
    forall height, height ∈ h_missingCheckpoints headers' <->
      height ∈ h_missingCheckpoints headers \/
      exists index, index ∈ indices /\ height = index * checkpointInterval /\
        chunkDigest (contents s) height checkpointInterval
          <> default [] (tableAt (h_checkpoints headers) index).
Proof.
  intros Ho Hin. revert headers Ho. induction indices as [|index indices IH]; intros headers Ho; cbn [findMissingLoop].
  { exists headers. split_and!; try done. intros height. split; [by left|].
    intros [|(i & ?%elem_of_nil & _)]; done. }
  assert (0 <= index * checkpointInterval <= max_i64 / size_) as Hix.
  { pose proof (Hin index ltac:(by left)).
    assert (max_i64 / size_ / checkpointInterval * checkpointInterval <= max_i64 / size_)
      by (rewrite Z.mul_comm; apply Z.mul_div_le; done).
    unfold checkpointInterval in *. lia. }
  assert (checkpointInterval <= max_i64 / size_) by (unfold checkpointInterval; by vm_compute).
  case_bool_decide as Hm.
  - destruct (IH ltac:(intros i Hi; apply Hin; by right) headers Ho) as (h' & -> & Ho' & Hh).
    exists h'. split_and!; try done. intros height. rewrite Hh. split.
    + intros [|(i & Hi & ?)]; [by left|right; exists i; split; [by right|done]].
    + intros [|(i & [->|Hi]%elem_of_cons & -> & Hd)]; [by left|by left|right; eauto].
  - rewrite (chunkHash_ok headers s) by (done || (unfold checkpointInterval in *; lia)). cbn [mbind res_bind].
    set (h1 := if negb (bool_decide _) then _ else headers).
    assert (openOver h1 s /\ h_checkpoints h1 = h_checkpoints headers) as [Ho1 Ec].
    { unfold h1. case_bool_decide; cbn [negb]; [done|]. by destruct Ho. }
    destruct (IH ltac:(intros i Hi; apply Hin; by right) h1 Ho1) as (h' & -> & Ho' & Hh).
    exists h'. split_and!; try done. intros height. rewrite Hh, Ec. unfold h1.
    case_bool_decide as Hd; cbn [negb].
    + split.
      * intros [|(i & Hi & ?)]; [by left|right; exists i; split; [by right|done]].
      * intros [|(i & [->|Hi]%elem_of_cons & -> & Hne)]; [by left|done|right; eauto].
    + cbn [setMissing h_missingCheckpoints]. rewrite elem_of_union, elem_of_singleton. split.
      * intros [[->|]|(i & Hi & ?)]; [right; exists index; split; [by left|done]|by left|].
        right. exists i. split; [by right|done].
      * intros [|(i & [->|Hi]%elem_of_cons & -> & Hne)]; [by left; right|by left; left|right; eauto].
Qed.
End repair.

(** ** What the chain promises *)

Section promises.
Context {S : Type} `{HeaderStorage S} `{Digests}.
Implicit Types headers : Headers S.

(** C10: validation is the consensus rules.  A chunk is valid exactly when every
    header of it is, in the chain it would make: the genesis block, or a block on
    the one before it whose bits are the target its two predecessors determine
    and whose hash is within it. *)
Theorem validation_exact headers s start serialized :
  openOver headers s -> 0 <= start <= h_size headers ->
  let c := written (contents s) start serialized in
  validateChunkLocked headers start serialized = Ok Valid <->
  forall k, (k < length serialized / HeaderSize)%nat -> validAt headers c (start + Z.of_nat k).
Proof. apply validateChunk_valid. Qed.


(** Repairing truncates at the first break.  From a start height it keeps the
    chain when every header above links to the one before it, and otherwise cuts
    it one below the first that does not. *)
Theorem repair_truncates headers s start :
  openOver headers s -> 0 <= start < h_size headers - 1 ->
  exists headers', Repair headers start = Ok headers' /\
    ((headers' = headers /\ forall i, start <= i < h_size headers -> sound_at headers (contents s) start i) \/
     exists failed, start <= failed < h_size headers /\ ~ sound_at headers (contents s) start failed /\
       (forall i, start <= i < failed -> sound_at headers (contents s) start i) /\
       truncatedAt headers headers' s failed).
Proof. apply Repair_spec. Qed.
End promises.

(** ** Witnesses: two regtest headers *)

#[local] Existing Instance exampleDigests.
Definition exampleRaw0 : bytes := repeat x00 112.
Definition exampleRaw1 : bytes :=
  match SerializeHeader (MkHeader 1 (HashHeader (Some exampleRaw0)) (encodeReversedHeaderHash (repeat x01 32))
                           (encodeReversedHeaderHash (repeat x02 32)) 1500000000 0x207fffff 7 1) with
  | Ok raw => raw
  | _ => []
  end.
Definition exampleHeaders (data : memoryHeaderStorage) : Headers memoryHeaderStorage :=
  MkHeaders (Some data) (blen data / size_) true [] ∅ false None regtestMaxTarget defaultTargetTimespan.
Lemma exampleHeaders_open data : blen data <= 2 ^ 62 -> openOver (exampleHeaders data) data.
Proof. intros Hl. by split_and!. Qed.

Lemma validation_exact_witness :
  validateChunkLocked (exampleHeaders exampleRaw0) 1 exampleRaw1 = Ok Valid /\
  validAt (exampleHeaders exampleRaw0) (written exampleRaw0 1 exampleRaw1) 1.
Proof.
  assert (validateChunkLocked (exampleHeaders exampleRaw0) 1 exampleRaw1 = Ok Valid) as E
    by (vm_compute; reflexivity).
  split; [exact E|].
  assert (0 <= 1 <= h_size (exampleHeaders exampleRaw0)) as Hs by (split; vm_compute; congruence).
  assert (blen exampleRaw0 <= 2 ^ 62) as Hb by (vm_compute; congruence).
  assert (0 < length exampleRaw1 / HeaderSize)%nat as Hk by (vm_compute; lia).
  exact (proj1 (validation_exact (exampleHeaders exampleRaw0) exampleRaw0 1 exampleRaw1
    (exampleHeaders_open exampleRaw0 Hb) Hs) E 0%nat Hk).
Defined.
Lemma repair_truncates_witness :
  exists headers, Repair (exampleHeaders (exampleRaw0 ++ exampleRaw1 ++ exampleRaw0)) 0 = Ok headers.
Proof.
  assert (blen (exampleRaw0 ++ exampleRaw1 ++ exampleRaw0) <= 2 ^ 62) as Hb by (vm_compute; congruence).
  assert (0 <= 0 < h_size (exampleHeaders (exampleRaw0 ++ exampleRaw1 ++ exampleRaw0)) - 1) as Hs
    by (split; vm_compute; congruence).
  destruct (repair_truncates (exampleHeaders (exampleRaw0 ++ exampleRaw1 ++ exampleRaw0))
    (exampleRaw0 ++ exampleRaw1 ++ exampleRaw0) 0 (exampleHeaders_open _ Hb) Hs) as (h & E & _).
  exists h. exact E.
Defined.
