(* ===== verification/LiveHeaders.v ===== *)
(** * Following the tip of the block chain

    Model of [wallet/spv_tip.go]: the notifications a server sends about new
    headers, and [updateSPVLiveHeaders], which connects what the server has and
    steps back header by header when the server is on another branch.  The
    server, the hooks and the cancellation of the context act on a world [W].
    The loop runs as long as the server has more headers, so it takes fuel; the
    theorem at the end bounds the fuel it needs. *)

From S2P Require Import Prelude Digest Hex Decimal Bencode Json HeaderStorage BlockHeader Headers.

#[local] Set Warnings "-register-all".

Definition SPVLiveHeaderBatchSize : Z := 2001.
Definition SPVLiveHeaderMaxRewind : Z := 100.
Definition SPVHeaderRPCRestrictionDistance : Z := 100.

Definition ErrSPVLiveHeaderHexMissing : string := "SPV live-header response is missing hex".
Definition ErrSPVLiveHeaderHexType : string := "SPV live-header hex is not a string".
Definition ErrSPVLiveHeaderHeight : string := "invalid SPV live-header height".
Definition spvGenesisRewindMessage : string :=
  "Blockchain reorganization rewound all the way back to genesis hash. Something is very wrong. Maybe you are on the wrong blockchain?".
Definition spvMaxRewindMessage : string :=
  "Blockchain reorganization dropped too many headers. This is highly unusual.".

Record SPVLiveHeaderUpdate := MkUpdate { u_Height : Z; u_Hex : bytes }.

(** ** Values of a response *)

Definition pythonFalseySPVValue (value : option json) : bool :=
  match value with
  | None | Some JNull => true
  | Some (JNumber literal) => floatIsZero literal
  | Some (JBool b) => negb b
  | Some (JString s) => (length s =? 0)%nat
  | Some (JArray l) => (length l =? 0)%nat
  | Some (JObject m) => (length m =? 0)%nat
  end.

Definition spvLiveHeaderHex (result : list (bytes * json)) : res bytes :=
  match member "hex" result with
  | None => Err ErrSPVLiveHeaderHexMissing
  | Some (JString text) => Ok text
  | Some value =>
      if pythonFalseySPVValue (Some value) then Ok [] else Err ErrSPVLiveHeaderHexType
  end.

Definition spvLiveHeaderInteger (value : option json) : res Z :=
  match value with
  | Some (JNumber literal) => map_err (fun _ => ErrSPVLiveHeaderHeight) (ParseInt literal)
  | _ => Err ErrSPVLiveHeaderHeight
  end.

Definition parseSPVLiveHeaderUpdate (params : json) : res SPVLiveHeaderUpdate :=
  match params with
  | JArray (JObject header :: _) =>
      height ← spvLiveHeaderInteger (member "height" header);
      match member "hex" header with
      | None => Err ErrSPVLiveHeaderHexMissing
      | Some (JString encoded) => Ok (MkUpdate height encoded)
      | Some value =>
          if pythonFalseySPVValue (Some value) then Ok (MkUpdate height [])
          else Err ErrSPVLiveHeaderHexType
      end
  | _ => Err ErrSPVLiveHeaderHeight
  end.

(** ** The update loop *)

(** [RetriableCall] of [blockchain.block.headers]: from a height, a count, and
    whether only fully synchronised servers may answer. *)
Record LedgerSPVNetwork (W : Type) := MkNetwork {
  RetriableCall : W -> Z -> Z -> bool -> W * res (list (bytes * json));
  RemoteHeight : W -> Z
}.
Arguments RetriableCall {_} _ _ _ _ _.
Arguments RemoteHeight {_} _ _.
Record spvLiveHeaderHooks (W : Type) := MkHooks {
  onAdded : option (W -> Z -> Z -> W);
  onRewind : option (W -> Z -> W * res unit);
  onRejected : option (W -> W)
}.
Arguments onAdded {_} _.
Arguments onRewind {_} _.
Arguments onRejected {_} _.

Section update.
Context {S : Type} `{HeaderStorage S} `{Digests} {W : Type}.
Context (ctxErr : W -> option string) (network : LedgerSPVNetwork W) (hooks : spvLiveHeaderHooks W).

(** The variables of the loop; [ls_update] is false while [update] is [nil]. *)
Record liveState := MkLive {
  ls_update : bool;
  ls_height : Z;
  ls_encoded : bytes;
  ls_subscription : bool;
  ls_rewound : Z
}.

(** An absent update, or one beyond the stored headers, is replaced by a
    request for what follows them. *)
Definition resync (headers : Headers S) (l : liveState) : liveState :=
  if negb (ls_update l) || (Len headers <? ls_height l)
  then MkLive true (Len headers) [] false (ls_rewound l) else l.

Definition fetchHeaders (w : W) (height : Z) (encoded : bytes) : W * res bytes :=
  match encoded with
  | _ :: _ => (w, Ok encoded)
  | [] =>
      let '(w, result) := RetriableCall network w height SPVLiveHeaderBatchSize
        (i64 (RemoteHeight network w - SPVHeaderRPCRestrictionDistance) <=? height) in
      (w, result ≫= spvLiveHeaderHex)
  end.

(** What an iteration of the loop comes to: it returns, or the next one starts
    with these variables. *)
Inductive turn := Return (outcome : res unit) | Again (l : liveState).

(** The end of an iteration: the two ways a reorganization is given up. *)
Definition checkRewind (l : liveState) : turn :=
  if ls_height l <? 0 then Return (Err spvGenesisRewindMessage)
  else if SPVLiveHeaderMaxRewind <=? ls_rewound l then Return (Err spvMaxRewindMessage)
  else Again (MkLive true (ls_height l) [] false (ls_rewound l)).

(** The branch [added > 0]. *)
Definition headersAdded (w : W) (headers : Headers S) (l : liveState) (added : Z) : W * turn :=
  let height := i64 (ls_height l + added) in
  let w := match onAdded hooks with Some hook => hook w (Height headers) added | None => w end in
  let '(w, rewindResult) :=
    if 0 <? ls_rewound l then
      match onRewind hooks with Some hook => hook w height | None => (w, Ok tt) end
    else (w, Ok tt) in
  match rewindResult with
  | Ok _ =>
      (w, if ls_subscription l then Return (Ok tt)
          else checkRewind (MkLive true height (ls_encoded l) (ls_subscription l) 0))
  | r => (w, Return r)
  end.

Definition headersRejected (w : W) (l : liveState) : W * turn :=
  (match onRejected hooks with Some hook => hook w | None => w end,
   checkRewind (MkLive true (i64 (ls_height l - 1)) (ls_encoded l) (ls_subscription l)
                  (i64 (ls_rewound l + 1)))).

Definition updateStep (w : W) (headers : Headers S) (l : liveState) : W * Headers S * turn :=
  match ctxErr w with
  | Some e => (w, headers, Return (Err e))
  | None =>
      let l := resync headers l in
      let '(w, fetched) := fetchHeaders w (ls_height l) (ls_encoded l) in
      match fetched with
      | Ok [] => (w, headers, Return (Ok tt))
      | Ok encoded =>
          match raw ← hexDecode encoded; Connect headers (ls_height l) raw with
          | Ok (headers, added) =>
              if 0 <? added then
                let '(w, next) := headersAdded w headers l added in (w, headers, next)
              else if added =? 0 then
                let '(w, next) := headersRejected w l in (w, headers, next)
              else (w, headers, Return (Err "headers.connect() returned negative number"))
          | Err e => (w, headers, Return (Err e))
          | Panic => (w, headers, Return Panic)
          | NoFuel => (w, headers, Return NoFuel)
          end
      | Err e => (w, headers, Return (Err e))
      | Panic => (w, headers, Return Panic)
      | NoFuel => (w, headers, Return NoFuel)
      end
  end.

Fixpoint updateLoop (fuel : nat) (w : W) (headers : Headers S) (l : liveState)
  : W * Headers S * res unit :=
  match fuel with
  | O => (w, headers, NoFuel)
  | Datatypes.S fuel =>
      let '(w, headers, next) := updateStep w headers l in
      match next with
      | Return outcome => (w, headers, outcome)
      | Again l => updateLoop fuel w headers l
      end
  end.

Definition updateSPVLiveHeaders (fuel : nat) (w : W) (headers : Headers S)
    (update : option SPVLiveHeaderUpdate) : W * Headers S * res unit :=
  updateLoop fuel w headers
    (match update with
     | Some u => MkLive true (u_Height u) (u_Hex u) true 0
     | None => MkLive false 0 [] false 0
     end).
End update.

(** ** Chains that agree *)

Definition agree (c g : bytes) (n : Z) : Prop := forall i, 0 <= i < n -> rawAt c i = rawAt g i.

Lemma agree_full c g n :
  blen c = n * size_ -> blen g = n * size_ -> agree c g n -> c = g.
Proof.
  intros Hc Hg Ha. unfold size_, blen in *.
  assert (exists m, n = Z.of_nat m) as [m ->] by (exists (Z.to_nat n); unfold HeaderSize in *; lia).
  assert (length c = m * HeaderSize)%nat as Hc' by lia.
  assert (length g = m * HeaderSize)%nat as Hg' by lia. clear Hc Hg.
  rewrite <- (take_ge c (m * HeaderSize)), <- (take_ge g (m * HeaderSize)) by lia.
  assert (forall k, (k <= m)%nat -> take (k * HeaderSize) c = take (k * HeaderSize) g) as Hk; [|by apply Hk].
  induction k as [|k IH]; intros Hle; [done|].
  specialize (Ha (Z.of_nat k) ltac:(lia)). unfold rawAt in Ha. rewrite Nat2Z.id in Ha.
  replace (S k * HeaderSize)%nat with (k * HeaderSize + HeaderSize)%nat by (unfold HeaderSize; lia).
  rewrite <- !take_take_drop, Ha, IH by lia. done.
Qed.

(** The headers [start], [start + 1], ... of a chain, [count] of them at most. *)
Definition chunkOf (g : bytes) (start count : Z) : bytes :=
  take (Z.to_nat count * HeaderSize) (drop (Z.to_nat start * HeaderSize) g).

Lemma length_chunkOf g n start count :
  blen g = n * size_ -> 0 <= start <= n -> 0 <= count ->
  length (chunkOf g start count) = (Z.to_nat (Z.min count (n - start)) * HeaderSize)%nat.
Proof.
  intros Hg Hs Hc. unfold chunkOf. rewrite length_take, length_drop. unfold blen, size_ in Hg.
  unfold HeaderSize in *. lia.
Qed.

Section chains.
Context `{Digests} {S : Type} `{HeaderStorage S}.

(** Two headers with the same hash. *)
Definition headerCollision (c g : bytes) : Prop :=
  exists i, rawAt c i <> rawAt g i /\ hashAt c i = hashAt g i.

(** The chain links: every header names the hash of the one before it. *)
Definition linksAt (c : bytes) (i : Z) : Prop :=
  exists header, headerAt c i = Some header /\
    (0 < i -> bh_PreviousHash header = hashAt c (i - 1)).

Lemma validAt_links (headers : Headers S) c i : validAt headers c i -> linksAt c i.
Proof.
  intros (header & Hh & Hp). exists header. split; [done|]. intros Hi. unfold previousHashAt in Hp.
  destruct (Z.ltb_spec 0 i); [by destruct Hp|lia].
Qed.

(** Hashes commit to the headers below. *)
Lemma agree_below c g n :
  0 <= n -> (forall i, 0 <= i < n -> linksAt c i) -> (forall i, 0 <= i < n -> linksAt g i) ->
  (0 < n -> hashAt c (n - 1) = hashAt g (n - 1)) -> agree c g n \/ headerCollision c g.
Proof.
  intros Hn. pattern n. apply natlike_ind; [by left; intros i; lia| |done].
  clear n Hn. intros n Hn IH Hc Hg Hh. unfold Z.succ in *.
  specialize (Hh ltac:(lia)). replace (n + 1 - 1) with n in Hh by lia.
  destruct (decide (rawAt c n = rawAt g n)) as [E|E]; [|by right; exists n].
  destruct IH as [Ha|Ha]; [by intros; apply Hc; lia|by intros; apply Hg; lia| |left|by right].
  - intros Hpos. destruct (Hc n ltac:(lia)) as (hc & Ec & Lc), (Hg n ltac:(lia)) as (hg & Eg & Lg).
    unfold headerAt in Ec, Eg. rewrite E in Ec. rewrite Ec in Eg. injection Eg as ->.
    by rewrite <- Lc, <- Lg by lia.
  - intros i Hi. destruct (decide (i = n)) as [->|]; [done|apply Ha; lia].
Qed.

Lemma field_chunkOf g start count k :
  0 <= start -> Z.of_nat k < count ->
  field (k * HeaderSize) (k * HeaderSize + HeaderSize) (chunkOf g start count) = rawAt g (start + Z.of_nat k).
Proof.
  intros Hs Hk. unfold field, chunkOf, rawAt.
  rewrite skipn_firstn_comm, take_take, drop_drop.
  f_equal; [unfold HeaderSize; lia|f_equal; unfold HeaderSize; lia].
Qed.

(** The header chain [h] follows the same consensus rules as [h']. *)
Definition sameRules (headers headers' : Headers S) : Prop :=
  h_genesisHash headers' = h_genesisHash headers /\ h_maxTarget headers' = h_maxTarget headers /\
  h_targetTimespan headers' = h_targetTimespan headers /\
  h_validateDifficulty headers' = h_validateDifficulty headers.
Lemma sameRules_valid headers headers' c i :
  sameRules headers headers' -> validAt headers c i -> validAt headers' c i.
Proof. intros (Eg & Em & Et & Ed). unfold validAt, targetAt. by rewrite Eg, Em, Et, Ed. Qed.

(** [g] is a chain of [n] valid headers. *)
Definition validChain (headers : Headers S) (g : bytes) (n : Z) : Prop :=
  blen g = n * size_ /\ forall i, 0 <= i < n -> validAt headers g i.

(** Open headers that hold [l] headers and agree with [g] below [h]. *)
Definition following (headers : Headers S) (s : S) (g : bytes) (l h : Z) : Prop :=
  openOver headers s /\ blen (contents s) = l * size_ /\ agree (contents s) g h.

Lemma following_size headers s g l h : following headers s g l h -> h_size headers = l.
Proof.
  intros ((_ & _ & -> & _) & -> & _). by rewrite Z.div_mul by (unfold size_, HeaderSize; lia).
Qed.

(** Where the stored headers agree with a valid chain, its headers connect. *)
Lemma connect_chunk headers s g n l h count :
  following headers s g l h -> validChain headers g n -> 0 <= h <= l -> h < n -> 0 < count ->
  blen (contents s) + blen g <= 2 ^ 62 ->
  let m := Z.min count (n - h) in
  exists headers' s', Connect headers h (chunkOf g h count) = Ok (headers', m) /\
    following headers' s' g (Z.max l (h + m)) (h + m) /\ sameRules headers headers'.
Proof.
  intros Hf [Hg Hv] Hh Hn Hc Hb m. pose proof (following_size _ _ _ _ _ Hf) as Hsz.
  destruct Hf as (Ho & Hl & Ha). set (raw := chunkOf g h count).
  assert (length raw = (Z.to_nat m * HeaderSize)%nat) as Hraw by (apply (length_chunkOf g n); lia || done).
  assert (h * size_ <= blen (contents s)) as Hoff by (unfold size_, HeaderSize in *; lia).
  assert (0 < m) as Hm by lia.
  assert (agree (written (contents s) h raw) g (h + m)) as Hag.
  { intros i Hi. destruct (Z.lt_ge_cases i h) as [|Hge]; [rewrite rawAt_before by lia; apply Ha; lia|].
    replace i with (h + Z.of_nat (Z.to_nat (i - h))) by lia.
    destruct (rawAt_inside (contents s) h raw (Z.to_nat (i - h))) as [<- _]; [lia|done| |].
    - rewrite Hraw, Nat.div_mul by done. lia.
    - apply field_chunkOf; lia. }
  destruct (writeLocked_ok headers s h raw Ho ltac:(lia)) as (headers' & s' & Hw & Ho' & Hc' & Hrules).
  { unfold blen at 2. rewrite Hraw. unfold blen, size_, HeaderSize in *. lia. }
  exists headers', s'. split; [|split; [|done]].
  - unfold Connect. destruct (Z.ltb_spec h 0); [lia|].
    rewrite Hraw, Nat.Div0.mod_mul. cbn [Nat.eqb negb].
    destruct (Nat.eqb_spec (Z.to_nat m * HeaderSize) 0); [unfold HeaderSize in *; lia|].
    rewrite (proj1 Ho). cbn [negb].
    rewrite (proj2 (validateChunk_valid headers s h raw Ho ltac:(lia))).
    + cbn [mbind res_bind]. rewrite Hw. do 2 f_equal. unfold blen, size_. rewrite Hraw, Nat2Z.inj_mul.
      rewrite Z.div_mul by (unfold HeaderSize; lia). lia.
    + intros k Hk. rewrite Hraw, Nat.div_mul in Hk by done.
      apply (chain_prefix headers g (written (contents s) h raw) _ (h + m)); [done|lia|apply Hv; lia].
  - split_and!; [done| |by rewrite Hc'].
    rewrite Hc'. unfold written. rewrite !blen_app. unfold blen in *.
    rewrite length_take, length_drop, Hraw. unfold size_, HeaderSize in *. lia.
Qed.

(** A chunk that does not link to the stored headers is rejected. *)
Lemma connect_rejected headers s h raw header :
  openOver headers s -> 0 < h <= h_size headers -> length raw <> 0%nat -> Nat.modulo (length raw) HeaderSize = 0%nat ->
  DeserializeHeader h (field 0 HeaderSize raw) = Ok header ->
  bh_PreviousHash header <> hashAt (contents s) (h - 1) ->
  Connect headers h raw = Ok (headers, 0).
Proof.
  intros Ho Hh Hne Hal Hd Hp. unfold Connect. destruct (Z.ltb_spec h 0); [lia|].
  rewrite Hal. cbn [Nat.eqb negb]. destruct (Nat.eqb_spec (length raw) 0); [done|].
  rewrite (proj1 Ho). cbn [negb]. unfold validateChunkLocked.
  destruct (Z.ltb_spec 0 h); [|lia]. rewrite (readLocked_ok headers s (h - 1)) by (done || lia).
  destruct (headerAt_ok headers s (h - 1) Ho ltac:(lia)) as (h1 & Hd1 & _).
  cbn [mbind res_bind]. rewrite Hd1. cbn [mbind res_bind].
  assert (exists p, (if 1 <? h then
       raw ← readLocked headers (h - 2); decoded ← DeserializeHeader (h - 2) raw; Ok (Some decoded)
     else Ok None) = Ok p) as [p ->].
  { destruct (Z.ltb_spec 1 h); [|by eexists]. rewrite (readLocked_ok headers s) by (done || lia).
    destruct (headerAt_ok headers s (h - 2) Ho ltac:(lia)) as (h2 & Hd2 & _).
    cbn [mbind res_bind]. rewrite Hd2. by eexists. }
  cbn [mbind res_bind].
  destruct (length raw / HeaderSize)%nat as [|count] eqn:Hcount.
  { pose proof (Nat.div_mod (length raw) HeaderSize ltac:(done)). unfold HeaderSize in *. lia. }
  cbn [validateLoop Nat.mul Nat.add]. rewrite Z.add_0_r, Hd. cbn [mbind res_bind].
  fold (hashAt (contents s) (h - 1)). unfold validateHeader. by rewrite bool_decide_eq_false_2 by done.
Qed.
End chains.

(** ** Following an honest server *)

Section honest.
Context `{Digests} {S : Type} `{HeaderStorage S} {W : Type}.
Context (ctxErr : W -> option string) (network : LedgerSPVNetwork W) (hooks : spvLiveHeaderHooks W).
Context (g : bytes) (n : Z).

(** The server answers with the headers of [g]; nobody cancels, and rewinding
    the database succeeds. *)
Definition honestServer : Prop :=
  (forall w, ctxErr w = None) /\
  (forall w start restricted, exists w',
     RetriableCall network w start SPVLiveHeaderBatchSize restricted =
       (w', Ok [(lit "hex", JString (hexEncode (chunkOf g start SPVLiveHeaderBatchSize)))])) /\
  (forall hook w height, onRewind hooks = Some hook -> exists w', hook w height = (w', Ok tt)).

Context (Hserver : honestServer) (Hsmall : 2 * blen g <= 2 ^ 62).
Implicit Types headers : Headers S.

Lemma n_small headers : validChain headers g n -> n <= 2 ^ 62.
Proof.
  intros [Hg _]. unfold size_, HeaderSize in Hg. pose proof (blen_nonneg g). lia.
Qed.

(** What an iteration has to connect at a height: the header that came with the
    notification, or else what the server answers. *)
Definition offered (encoded : bytes) (h : Z) : Prop :=
  encoded = [] \/ encoded = hexEncode (chunkOf g h 1).

Lemma hexEncode_nonempty l : length l <> 0%nat -> exists a r, hexEncode l = a :: r.
Proof. destruct l as [|b l]; [done|]. intros _. cbn [hexEncode]. eauto. Qed.

Lemma chunk_nonempty headers h count :
  validChain headers g n -> 0 <= h < n -> 0 < count -> length (chunkOf g h count) <> 0%nat.
Proof.
  intros [Hg _] Hh Hc. rewrite (length_chunkOf g n) by (done || lia). unfold HeaderSize. lia.
Qed.

Lemma fetch_offered headers w h encoded :
  validChain headers g n -> 0 <= h < n -> offered encoded h ->
  exists w' count, 0 < count /\ fetchHeaders network w h encoded = (w', Ok (hexEncode (chunkOf g h count))).
Proof.
  intros Hv Hh [->| ->].
  - cbn [fetchHeaders]. destruct Hserver as (_ & Hcall & _).
    destruct (Hcall w h (i64 (RemoteHeight network w - SPVHeaderRPCRestrictionDistance) <=? h)) as [w' E].
    rewrite E. by exists w', SPVLiveHeaderBatchSize.
  - exists w, 1. split; [done|]. unfold fetchHeaders.
    by destruct (hexEncode_nonempty (chunkOf g h 1) (chunk_nonempty headers h 1 Hv Hh ltac:(lia)))
      as (a & r & ->).
Qed.

Lemma resync_here headers s h encoded sub r l :
  following headers s g l h -> h <= l ->
  resync headers (MkLive true h encoded sub r) = MkLive true h encoded sub r.
Proof.
  intros Hf Hh. unfold resync, Len. rewrite (following_size _ _ _ _ _ Hf). cbn.
  by destruct (Z.ltb_spec l h); [lia|].
Qed.

(** An iteration where the stored headers agree with the server's below. *)
Lemma step_accepted w headers s l h encoded sub r :
  following headers s g l h -> validChain headers g n -> 0 <= h <= l -> h < n -> l <= n ->
  offered encoded h ->
  exists w' headers' s' m,
    updateStep ctxErr network hooks w headers (MkLive true h encoded sub r) =
      (w', headers', if sub then Return (Ok tt) else Again (MkLive true (h + m) [] false 0)) /\
    0 < m <= n - h /\ following headers' s' g (Z.max l (h + m)) (h + m) /\ sameRules headers headers'.
Proof.
  intros Hf Hv Hh Hn Hl He. pose proof (n_small _ Hv) as Hn'. unfold updateStep.
  rewrite (proj1 Hserver), (resync_here _ _ _ _ _ _ _ Hf) by lia. cbn [ls_height ls_encoded].
  destruct (fetch_offered headers w h encoded Hv ltac:(lia) He) as (w1 & count & Hcount & ->).
  destruct (hexEncode_nonempty (chunkOf g h count) (chunk_nonempty headers h count Hv ltac:(lia) ltac:(lia)))
    as (a & rest & E). rewrite E, <- E. clear E a rest.
  rewrite hexDecode_encode. cbn [mbind res_bind].
  destruct (connect_chunk headers s g n l h count Hf Hv Hh Hn Hcount) as (headers' & s' & -> & Hf' & Hr).
  { destruct Hf as (_ & -> & _), Hv as [Hg _]. unfold size_ in *. nia. }
  set (m := Z.min count (n - h)) in *. assert (0 < m <= n - h) as Hm by lia.
  destruct (Z.ltb_spec 0 m); [|lia]. unfold headersAdded. cbn [ls_height ls_rewound ls_subscription].
  rewrite i64_id by (unfold min_i64, max_i64; lia).
  set (w2 := match onAdded hooks with Some _ => _ | None => _ end).
  assert (exists w3, (if 0 <? r then match onRewind hooks with Some hook => hook w2 (h + m) | None => (w2, Ok tt) end
                      else (w2, Ok tt)) = (w3, Ok tt)) as [w3 ->].
  { destruct (0 <? r); [|by eexists]. destruct (onRewind hooks) as [hook|] eqn:Eh; [|by eexists].
    by apply (proj2 (proj2 Hserver)). }
  exists w3, headers', s', m. split; [|done]. destruct sub; [done|]. unfold checkRewind. cbn.
  by destruct (Z.ltb_spec (h + m) 0); [lia|].
Qed.

(** An iteration where they differ just below. *)
Lemma step_rejected w headers s l h encoded sub r :
  openOver headers s -> blen (contents s) = l * size_ -> validChain headers g n -> 0 < h <= l -> h < n ->
  offered encoded h -> 0 <= r < 2 ^ 62 -> hashAt (contents s) (h - 1) <> hashAt g (h - 1) ->
  exists w' encoded' sub',
    updateStep ctxErr network hooks w headers (MkLive true h encoded sub r) =
      (w', headers, checkRewind (MkLive true (h - 1) encoded' sub' (r + 1))).
Proof.
  intros Ho Hl Hv Hh Hn He Hr Hne. pose proof (n_small _ Hv) as Hn'.
  assert (following headers s g l 0) as Hf by (split_and!; [done|done|intros i; lia]).
  pose proof (following_size _ _ _ _ _ Hf) as Hsz. unfold updateStep. rewrite (proj1 Hserver).
  assert (resync headers (MkLive true h encoded sub r) = MkLive true h encoded sub r) as ->.
  { unfold resync, Len. rewrite Hsz. cbn. by destruct (Z.ltb_spec l h); [lia|]. }
  cbn [ls_height ls_encoded].
  destruct (fetch_offered headers w h encoded Hv ltac:(lia) He) as (w1 & count & Hcount & ->).
  pose proof (chunk_nonempty headers h count Hv ltac:(lia) ltac:(lia)) as Hne'.
  destruct (hexEncode_nonempty (chunkOf g h count) Hne') as (a & rest & E). rewrite E, <- E. clear E a rest.
  rewrite hexDecode_encode. cbn [mbind res_bind].
  destruct (validAt_links headers g h (proj2 Hv h ltac:(lia))) as (header & Hd & Hlink).
  rewrite (connect_rejected headers s h (chunkOf g h count) header); [|done|lia|done| | |].
  - cbn. unfold headersRejected. cbn [ls_height ls_rewound].
    rewrite !i64_id by (unfold min_i64, max_i64; lia). by do 3 eexists.
  - rewrite (length_chunkOf g n) by (apply Hv || lia). apply Nat.Div0.mod_mul.
  - change (field 0 HeaderSize (chunkOf g h count))
      with (field (0 * HeaderSize) (0 * HeaderSize + HeaderSize) (chunkOf g h count)).
    rewrite field_chunkOf by lia. rewrite Z.add_0_r. unfold headerAt in Hd.
    by destruct (DeserializeHeader h (rawAt g h)); simplify_eq.
  - rewrite Hlink by lia. by intros E.
Qed.

(** From a height where the chains agree, the loop takes over the rest. *)
Lemma ascending fuel w headers s l h :
  following headers s g l h -> validChain headers g n -> 0 <= h <= l -> l <= n ->
  (Z.to_nat (n - h) < fuel)%nat ->
  exists w' headers' s', updateLoop ctxErr network hooks fuel w headers (MkLive true h [] false 0)
      = (w', headers', Ok tt) /\
    openOver headers' s' /\ contents s' = g.
Proof.
  revert w headers s l h. induction fuel as [|fuel IH]; intros w headers s l h Hf Hv Hh Hl Hfuel; [lia|].
  cbn [updateLoop]. destruct (decide (h = n)) as [->|Hn].
  - assert (l = n) as -> by lia. unfold updateStep.
    rewrite (proj1 Hserver), (resync_here _ _ _ _ _ _ _ Hf) by lia. cbn [ls_height ls_encoded fetchHeaders].
    destruct (proj1 (proj2 Hserver) w n
      (i64 (RemoteHeight network w - SPVHeaderRPCRestrictionDistance) <=? n)) as [w1 ->].
    assert (chunkOf g n SPVLiveHeaderBatchSize = []) as ->.
    { apply nil_length_inv. rewrite (length_chunkOf g n) by (apply Hv || done || lia).
      replace (Z.min SPVLiveHeaderBatchSize (n - n)) with 0 by (unfold SPVLiveHeaderBatchSize; lia). done. }
    exists w1, headers, s. split; [done|]. destruct Hf as (Ho & Hb & Ha). split; [done|].
    by apply (agree_full _ _ n); [|apply Hv|].
  - destruct (step_accepted w headers s l h [] false 0 Hf Hv Hh ltac:(lia) Hl ltac:(by left))
      as (w1 & headers1 & s1 & m & -> & Hm & Hf1 & Hr).
    apply (IH w1 headers1 s1 (Z.max l (h + m)) (h + m)); try lia; [done|].
    split; [apply Hv|]. intros i Hi. apply (sameRules_valid headers); [done|by apply Hv].
Qed.

(** The iterations that step back, until the chains agree. *)
Lemma descending_to fuel w headers s l k h encoded sub :
  openOver headers s -> validChain headers (contents s) l -> validChain headers g n -> l < n ->
  0 <= k <= h -> h <= l -> l - k < SPVLiveHeaderMaxRewind -> agree (contents s) g k ->
  offered encoded h -> (sub = true -> h = n - 1) -> (Z.to_nat (h - k + (n - k) + 1) < fuel)%nat ->
  (exists w' headers' s', updateLoop ctxErr network hooks fuel w headers (MkLive true h encoded sub (l - h))
      = (w', headers', Ok tt) /\ openOver headers' s' /\ contents s' = g) \/
  headerCollision (contents s) g.
Proof.
  intros Ho Hc Hv Hn. revert w h encoded sub.
  induction fuel as [|fuel IH]; intros w h encoded sub Hk Hh Hdepth Ha He Hsub Hfuel; [lia|].
  unfold SPVLiveHeaderMaxRewind in *. cbn [updateLoop].
  assert ((0 < h -> hashAt (contents s) (h - 1) = hashAt g (h - 1)) \/
          0 < h /\ hashAt (contents s) (h - 1) <> hashAt g (h - 1)) as [E|[Hpos Hne]].
  { destruct (decide (hashAt (contents s) (h - 1) = hashAt g (h - 1))); [by left|].
    destruct (decide (0 < h)); [by right|by left]. }
  - destruct (agree_below (contents s) g h) as [Hag|]; [lia| | |done| |by right].
    { intros i Hi. apply (validAt_links headers), Hc. lia. }
    { intros i Hi. apply (validAt_links headers), Hv. lia. }
    left. assert (following headers s g l h) as Hf by (split_and!; [done|apply Hc|done]).
    destruct (step_accepted w headers s l h encoded sub (l - h) Hf Hv ltac:(lia) ltac:(lia) ltac:(lia) He)
      as (w1 & headers1 & s1 & m & -> & Hm & Hf1 & Hr).
    destruct sub.
    + specialize (Hsub eq_refl). exists w1, headers1, s1. split; [done|].
      destruct Hf1 as (Ho1 & Hb1 & Ha1). split; [done|]. apply (agree_full _ _ n); [|apply Hv|].
      * rewrite Hb1. f_equal. lia.
      * by replace n with (h + m) by lia.
    + apply (ascending fuel w1 headers1 s1 (Z.max l (h + m))); [done| |lia..].
      split; [apply Hv|]. intros i Hi. apply (sameRules_valid headers); [done|by apply Hv].
  - assert (k < h) as Hkh.
    { destruct (decide (k = h)) as [->|]; [|lia]. destruct Hne. unfold hashAt. by rewrite Ha by lia. }
    pose proof (n_small _ Hv).
    destruct (step_rejected w headers s l h encoded sub (l - h) Ho (proj1 Hc) Hv ltac:(lia) ltac:(lia) He
      ltac:(lia) Hne) as (w1 & encoded1 & sub1 & ->).
    unfold checkRewind. cbn [ls_height ls_rewound]. unfold SPVLiveHeaderMaxRewind.
    destruct (Z.ltb_spec (h - 1) 0); [lia|]. destruct (Z.leb_spec 100 (l - h + 1)); [lia|].
    replace (l - h + 1) with (l - (h - 1)) by lia.
    apply IH; try lia; try done. by left.
Qed.

(** A branch that leaves the stored headers too far down is given up. *)
Lemma too_deep fuel w headers s l k h encoded sub :
  openOver headers s -> validChain headers (contents s) l -> validChain headers g n -> l < n ->
  0 <= k -> SPVLiveHeaderMaxRewind <= l - k -> rawAt (contents s) k <> rawAt g k ->
  l - SPVLiveHeaderMaxRewind < h <= l -> offered encoded h ->
  (Z.to_nat (h - (l - SPVLiveHeaderMaxRewind)) <= fuel)%nat ->
  (exists w', updateLoop ctxErr network hooks fuel w headers (MkLive true h encoded sub (l - h))
      = (w', headers, Err spvMaxRewindMessage)) \/
  headerCollision (contents s) g.
Proof.
  intros Ho Hc Hv Hn Hk Hdeep Hdiff. revert w h encoded sub. unfold SPVLiveHeaderMaxRewind in *.
  induction fuel as [|fuel IH]; intros w h encoded sub Hh He Hfuel; [lia|]. cbn [updateLoop].
  destruct (decide (hashAt (contents s) (h - 1) = hashAt g (h - 1))) as [E|Hne].
  - right. destruct (agree_below (contents s) g h) as [Hag|]; [lia| | |done| |done].
    + intros i Hi. apply (validAt_links headers), Hc. lia.
    + intros i Hi. apply (validAt_links headers), Hv. lia.
    + destruct Hdiff. apply Hag. lia.
  - pose proof (n_small _ Hv).
    destruct (step_rejected w headers s l h encoded sub (l - h) Ho (proj1 Hc) Hv ltac:(lia) ltac:(lia) He
      ltac:(lia) Hne) as (w1 & encoded1 & sub1 & ->).
    unfold checkRewind. cbn [ls_height ls_rewound]. unfold SPVLiveHeaderMaxRewind.
    destruct (Z.ltb_spec (h - 1) 0); [lia|]. destruct (Z.leb_spec 100 (l - h + 1)).
    + left. by exists w1.
    + replace (l - h + 1) with (l - (h - 1)) by lia. apply IH; try lia. by left.
Qed.

Lemma resync_start headers w fuel l0 :
  updateLoop ctxErr network hooks (Datatypes.S fuel) w headers l0 =
  updateLoop ctxErr network hooks (Datatypes.S fuel) w headers (resync headers l0).
Proof.
  assert (resync headers (resync headers l0) = resync headers l0) as E.
  { unfold resync at 2 3. destruct (negb (ls_update l0) || (Len headers <? ls_height l0)) eqn:Es.
    - unfold resync. cbn. by rewrite Z.ltb_irrefl.
    - unfold resync. by rewrite Es. }
  cbn [updateLoop]. unfold updateStep. destruct (ctxErr w); [done|]. cbv zeta. by rewrite E.
Qed.

(** The notification of the server's tip, or none at the start. *)
Definition tipUpdate (update : option SPVLiveHeaderUpdate) : Prop :=
  forall u, update = Some u -> u_Height u = n - 1 /\ offered (u_Hex u) (n - 1).

(** C11: the header chain follows the server.  With an honest server whose chain is
    longer, an update ends with exactly that chain when the two part within the
    last hundred headers, however many of them have to be replaced; when they
    part further down it is given up and the stored headers stay as they were.
    The alternative is a collision of header hashes. *)
Theorem live_headers_follow fuel w headers s l k update :
  openOver headers s -> validChain headers (contents s) l -> validChain headers g n -> l < n ->
  0 <= k <= l -> agree (contents s) g k -> (k < l -> rawAt (contents s) k <> rawAt g k) ->
  tipUpdate update -> (Z.to_nat (2 * n) + 2 < fuel)%nat ->
  (if l - k <? SPVLiveHeaderMaxRewind then
     exists w' headers' s', updateSPVLiveHeaders ctxErr network hooks fuel w headers update
       = (w', headers', Ok tt) /\ openOver headers' s' /\ contents s' = g
   else exists w', updateSPVLiveHeaders ctxErr network hooks fuel w headers update
       = (w', headers, Err spvMaxRewindMessage)) \/
  headerCollision (contents s) g.
Proof.
  intros Ho Hc Hv Hn Hk Ha Hdiff Hu Hfuel. destruct fuel as [|fuel]; [lia|].
  unfold updateSPVLiveHeaders. rewrite resync_start.
  assert (h_size headers = l) as Hsz.
  { destruct Ho as (_ & _ & -> & _). rewrite (proj1 Hc). apply Z.div_mul. unfold size_, HeaderSize. lia. }
  set (l0 := match update with Some u => _ | None => _ end).
  assert (exists encoded sub, resync headers l0 = MkLive true l encoded sub (l - l) /\
            offered encoded l /\ (sub = true -> l = n - 1)) as (encoded & sub & -> & He & Hs).
  { unfold resync, Len, l0. rewrite Hsz, Z.sub_diag. destruct update as [u|]; cbn [ls_update ls_height negb orb].
    - destruct (Hu u eq_refl) as [-> Hoff]. destruct (Z.ltb_spec l (n - 1)); cbn [ls_rewound].
      + do 2 eexists. split; [done|]. split; [by left|done].
      + assert (n - 1 = l) as <- by lia. by do 2 eexists.
    - do 2 eexists. split; [done|]. split; [by left|done]. }
  destruct (Z.ltb_spec (l - k) SPVLiveHeaderMaxRewind).
  - apply (descending_to _ w headers s l k); try done; lia.
  - apply (too_deep _ w headers s l k); try done; unfold SPVLiveHeaderMaxRewind in *; try lia.
    apply Hdiff. lia.
Qed.
End honest.

(** ** Witnesses: a reorganization of one header *)

#[local] Existing Instance exampleDigests.
Definition exampleChild (parent : bytes) (nonce : Z) : bytes :=
  match SerializeHeader (MkHeader 1 (HashHeader (Some parent)) (encodeReversedHeaderHash (repeat x01 32))
                           (encodeReversedHeaderHash (repeat x02 32)) 1500000000 0x207fffff nonce 1) with
  | Ok raw => raw
  | _ => []
  end.
Definition exampleOld1 : bytes := exampleChild exampleRaw0 1.
Definition exampleOld2 : bytes := exampleChild exampleOld1 2.
Definition exampleNew1 : bytes := exampleChild exampleRaw0 3.
Definition exampleNew2 : bytes := exampleChild exampleNew1 4.
Definition exampleOld : bytes := exampleRaw0 ++ exampleOld1.
Definition exampleNew : bytes := exampleRaw0 ++ exampleNew1 ++ exampleNew2.
Definition exampleNetwork (g : bytes) : LedgerSPVNetwork unit :=
  MkNetwork unit (fun w start count _ => (w, Ok [(lit "hex", JString (hexEncode (chunkOf g start count)))]))
    (fun _ => blen g / size_).
Definition exampleHooks : spvLiveHeaderHooks unit := MkHooks unit None None None.
Lemma example_honest g : honestServer (fun _ => None) (exampleNetwork g) exampleHooks g.
Proof. split_and!; [done| |done]. intros [] start restricted. by exists tt. Qed.

(** The links of the first [n] headers, computed. *)
Definition linkedb (c : bytes) (n : nat) : bool :=
  forallb (fun i => match headerAt c (Z.of_nat i) with
                    | Some header => (i =? 0)%nat || bool_decide (bh_PreviousHash header = hashAt c (Z.of_nat i - 1))
                    | None => false
                    end) (seq 0 n).
Lemma linkedb_valid data c n :
  blen c = Z.of_nat n * size_ -> linkedb c n = true -> validChain (exampleHeaders data) c (Z.of_nat n).
Proof.
  intros Hb Hl. split; [done|]. intros i Hi. apply forallb_forall with (x := Z.to_nat i) in Hl;
    [|apply in_seq; lia]. rewrite Z2Nat.id in Hl by lia.
  destruct (headerAt c i) as [header|] eqn:E; [|done]. exists header. split; [done|].
  unfold previousHashAt. destruct (Z.ltb_spec 0 i); [|done].
  apply orb_true_iff in Hl as [Hl|Hl]; [apply Nat.eqb_eq in Hl; lia|].
  apply bool_decide_eq_true in Hl. by split.
Qed.

Lemma example_no_collision : ~ headerCollision exampleOld exampleNew.
Proof.
  intros (i & Hne & He). destruct (decide (Z.to_nat i < 3)%nat) as [Hi|Hi].
  - assert (rawAt exampleOld i = rawAt exampleOld (Z.of_nat (Z.to_nat i)) /\
            rawAt exampleNew i = rawAt exampleNew (Z.of_nat (Z.to_nat i))) as [E1 E2]
      by (unfold rawAt; by rewrite Nat2Z.id).
    unfold hashAt in He. rewrite E1, E2 in *. destruct (Z.to_nat i) as [|[|[|]]]; [| | |lia].
    + apply Hne. vm_compute. reflexivity.
    + revert He. vm_compute. discriminate.
    + revert He. vm_compute. discriminate.
  - apply Hne. unfold rawAt. rewrite !drop_ge; [done| |].
    + assert (length exampleNew = 336%nat) as -> by (vm_compute; reflexivity). unfold HeaderSize. lia.
    + assert (length exampleOld = 224%nat) as -> by (vm_compute; reflexivity). unfold HeaderSize. lia.
Qed.

Lemma live_headers_follow_witness :
  exists w headers s, updateSPVLiveHeaders (fun _ => None) (exampleNetwork exampleNew) exampleHooks 20 tt
      (exampleHeaders exampleOld) None = (w, headers, Ok tt) /\
    openOver headers s /\ contents s = exampleNew.
Proof.
  assert (validChain (exampleHeaders exampleOld) exampleOld 2) as Hc
    by (apply (linkedb_valid exampleOld exampleOld 2); vm_compute; reflexivity).
  assert (validChain (exampleHeaders exampleOld) exampleNew 3) as Hg
    by (apply (linkedb_valid exampleOld exampleNew 3); vm_compute; reflexivity).
  assert (blen exampleOld <= 2 ^ 62) as Hs by (vm_compute; discriminate).
  assert (2 * blen exampleNew <= 2 ^ 62) as Hb by (vm_compute; discriminate).
  assert (agree exampleOld exampleNew 1) as Ha.
  { intros i Hi. assert (i = 0) as -> by lia. vm_compute. reflexivity. }
  assert (1 < 2 -> rawAt exampleOld 1 <> rawAt exampleNew 1) as Hd by (intros _; vm_compute; discriminate).
  assert (tipUpdate exampleNew 3 None) as Ht by (intros u Hu; discriminate Hu).
  destruct (live_headers_follow (fun _ => None) (exampleNetwork exampleNew) exampleHooks exampleNew 3
    (example_honest exampleNew) Hb 20 tt (exampleHeaders exampleOld) exampleOld 2 1 None
    (exampleHeaders_open exampleOld Hs) Hc Hg ltac:(lia) ltac:(lia) Ha Hd Ht ltac:(lia)) as [Hr|Hr].
  - exact Hr.
  - destruct (example_no_collision Hr).
Defined.

(** A notification of a tip below the stored one replaces the header at its
    height and leaves the ones above, which no longer link to it. *)
Example lower_tip_leaves_stale_header :
  match updateSPVLiveHeaders (fun _ => None) (exampleNetwork (exampleRaw0 ++ exampleNew1)) exampleHooks 20 tt
          (exampleHeaders (exampleOld ++ exampleOld2)) (Some (MkUpdate 1 (hexEncode exampleNew1))) with
  | (_, headers, Ok _) =>
      bool_decide (h_storage headers = Some (exampleRaw0 ++ exampleNew1 ++ exampleOld2)) &&
      negb (linkedb (exampleRaw0 ++ exampleNew1 ++ exampleOld2) 3)
  | _ => false
  end = true.
Proof. vm_compute. reflexivity. Qed.
