(* ===== verification/Merkle.v ===== *)
(** * Merkle proofs of wallet transactions

    Model of [wallet/transaction_merkle.go]: the root a proof leads to, and the
    state transitions of a verification.  A proof comes from a server as a
    decoded JSON object, whose members have the dynamic types of [proofValue]. *)

From S2P Require Import Prelude Digest Hex Decimal Bencode Transaction.

#[local] Set Warnings "-register-all".

Inductive proofValue :=
| PStrings (l : list bytes)            (* []string *)
| PArray (l : list proofValue)         (* []any *)
| PString (s : bytes)
| PNumber (s : bytes)                  (* json.Number *)
| PInt (n : Z)                         (* int, int8, ... int64 *)
| PUint (n : Z)                        (* uint, uint8, ... uint64 *)
| PNil
| POther (type : string).

Inductive TransactionMerkleVerificationStatus :=
| TransactionMerkleHeightGated | TransactionMerkleProofRequired | TransactionMerkleProofMissing
| TransactionMerkleMatched | TransactionMerkleMismatched.

Definition malformedTransactionMerkle (fld cause : string) : string :=
  ("transaction merkle verification failed: " ++ fld ++ ": " ++ cause)%string.
Definition indexName (index : nat) : string :=
  ("merkle[" ++ string_of_list_byte (FormatInt (Z.of_nat index)) ++ "]")%string.

Section digests.
Context `{Digests}.

Fixpoint merkleLoop (branches : list bytes) (index : nat) (branchPosition : Z) (working : bytes)
  : res bytes :=
  match branches with
  | [] => Ok working
  | branch :: branches =>
      decoded ← map_err (malformedTransactionMerkle (indexName index)) (hexDecode branch);
      let other := reverseTransactionBytes decoded in
      let combined := if Z.testbit branchPosition (Z.of_nat index) then other ++ working
                      else working ++ other in
      merkleLoop branches (S index) branchPosition (doubleSHA256 combined)
  end.
Definition TransactionMerkleRoot (branches : list bytes) (branchPosition : Z) (workingBranch : bytes)
  : res bytes :=
  working ← merkleLoop branches 0 branchPosition workingBranch;
  Ok (displayHash working).

Fixpoint stringBranches (index : nat) (l : list proofValue) : res (list bytes) :=
  match l with
  | [] => Ok []
  | PString s :: l => rest ← stringBranches (S index) l; Ok (s :: rest)
  | _ :: _ => Err (malformedTransactionMerkle (indexName index) "want hexadecimal string")
  end.
Definition transactionMerkleBranches (value : proofValue) : res (list bytes) :=
  match value with
  | PStrings l => Ok l
  | PArray l => stringBranches 0 l
  | _ => Err (malformedTransactionMerkle "merkle" "want array")
  end.
Definition transactionMerkleInteger (value : proofValue) : res Z :=
  match value with
  | PNumber s => map_err (fun _ => "not an int64"%string) (ParseInt s)
  | PInt n => Ok n
  | PUint n => if max_i64 <? n then Err "exceeds int64" else Ok n
  | PNil => Err "value is nil"
  | _ => Err "want integer"
  end.

Definition setVerification (t : Transaction) (height position : Z) (isVerified : bool) : Transaction :=
  MkTransaction (t_Raw t) (t_RawSansSegWit t) (t_Hash t) (t_ID t) (t_Version t) (t_LockTime t)
    (t_SegWitFlag t) (t_Witnesses t) (t_Inputs t) (t_Outputs t) (t_Trailing t)
    height position isVerified.

(** The transaction afterwards, also when the call fails, and the status. *)
Definition ApplyTransactionMerkleVerification (t : Transaction) (remoteHeight headerCount : Z)
    (headerMerkleRoot : bytes) (merkle : list (bytes * proofValue))
  : Transaction * res TransactionMerkleVerificationStatus :=
  let t := setVerification t remoteHeight (t_Position t) (t_IsVerified t) in
  if (remoteHeight <=? 0) || (headerCount <=? remoteHeight) then (t, Ok TransactionMerkleHeightGated)
  else match merkle with
  | [] => (t, Ok TransactionMerkleProofRequired)
  | _ =>
      match mapLookup (lit "merkle") merkle with
      | None => (t, Ok TransactionMerkleProofMissing)
      | Some branchesValue =>
          let proof :=
            branches ← transactionMerkleBranches branchesValue;
            position ← (match mapLookup (lit "pos") merkle with
                        | None => Err (malformedTransactionMerkle "pos" "member is missing")
                        | Some v => map_err (malformedTransactionMerkle "pos") (transactionMerkleInteger v)
                        end);
            root ← TransactionMerkleRoot branches position (t_Hash t);
            Ok (position, root) in
          match proof with
          | Ok (position, root) =>
              let verified := bool_decide (root = headerMerkleRoot) in
              (setVerification t remoteHeight position verified,
               Ok (if verified then TransactionMerkleMatched else TransactionMerkleMismatched))
          | Err e => (t, Err e)
          | Panic => (t, Panic)
          | NoFuel => (t, NoFuel)
          end
      end
  end.

(** ** Completeness: the proof taken from a tree leads to its root *)

(** The internal hashes of a complete binary tree with [2 ^ depth] leaves. *)
Inductive tree : nat -> Type :=
| Leaf (h : bytes) : tree 0
| Branch {n} (l r : tree n) : tree (S n).
Fixpoint treeRoot {n} (t : tree n) : bytes :=
  match t with Leaf h => h | Branch l r => doubleSHA256 (treeRoot l ++ treeRoot r) end.
(** The leaf at a position, and its siblings from the leaf upwards. *)
Fixpoint leafAt {n} (t : tree n) (position : Z) : bytes :=
  match t with
  | Leaf h => h
  | @Branch n l r =>
      if Z.testbit position (Z.of_nat n) then leafAt r position else leafAt l position
  end.
Fixpoint siblings {n} (t : tree n) (position : Z) : list bytes :=
  match t with
  | Leaf _ => []
  | @Branch n l r =>
      if Z.testbit position (Z.of_nat n) then siblings r position ++ [treeRoot l]
      else siblings l position ++ [treeRoot r]
  end.
(** A proof as a server sends it. *)
Definition proofOf {n} (t : tree n) (position : Z) : list bytes :=
  map (fun h => hexEncode (reverseTransactionBytes h)) (siblings t position).

Lemma merkleLoop_app a b index position w :
  merkleLoop (a ++ b) index position w =
    (w' ← merkleLoop a index position w; merkleLoop b (index + length a) position w').
Proof.
  revert index w. induction a as [|x a IH]; intros index w; cbn [app merkleLoop length].
  - cbn. by rewrite Nat.add_0_r.
  - destruct (hexDecode x); cbn [map_err mbind res_bind]; try done.
    rewrite IH. by replace (S index + length a)%nat with (index + S (length a))%nat by lia.
Qed.
Lemma length_siblings {n} (t : tree n) position : length (siblings t position) = n.
Proof.
  induction t as [h|n l IHl r IHr]; cbn; [done|].
  destruct (Z.testbit position (Z.of_nat n)); rewrite length_app; cbn; lia.
Qed.

Lemma merkleLoop_proof {n} (t : tree n) position :
  merkleLoop (proofOf t position) 0 position (leafAt t position) = Ok (treeRoot t).
Proof.
  unfold proofOf. induction t as [h|n l IHl r IHr]; cbn [siblings leafAt treeRoot]; [done|].
  destruct (Z.testbit position (Z.of_nat n)) eqn:E.
  all: rewrite map_app, merkleLoop_app; rewrite ?IHl, ?IHr; cbn [mbind res_bind map merkleLoop];
    rewrite hexDecode_encode; cbn [map_err mbind res_bind]; unfold reverseTransactionBytes;
    rewrite rev_involutive, length_map, length_siblings, Nat.add_0_l, E; done.
Qed.

(** ** Soundness: a wrong leaf with a matching root is a hash collision *)

(** The values the loop hashes, level by level. *)
Fixpoint combinations (branches : list bytes) (index : nat) (position : Z) (w : bytes) : list bytes :=
  match branches with
  | [] => []
  | branch :: branches =>
      let other := match hexDecode branch with Ok d => reverseTransactionBytes d | _ => [] end in
      let combined := if Z.testbit position (Z.of_nat index) then other ++ w else w ++ other in
      combined :: combinations branches (S index) position (doubleSHA256 combined)
  end.
(** Two different values with the same hash at the same level of two runs. *)
Definition collision (l l' : list bytes) : Prop :=
  exists level x y, l !! level = Some x /\ l' !! level = Some y /\ x <> y /\ doubleSHA256 x = doubleSHA256 y.
Lemma collision_cons a b l l' : collision l l' -> collision (a :: l) (b :: l').
Proof. intros (k & x & y & Hx & Hy & H'). by exists (S k), x, y. Qed.

Lemma doubleSHA256_length m : length (doubleSHA256 m) = 32%nat.
Proof. unfold doubleSHA256. apply sha256_length. Qed.

Lemma merkleLoop_sound branches branches' index position w w' root :
  length branches = length branches' -> length w = length w' ->
  merkleLoop branches index position w = Ok root ->
  merkleLoop branches' index position w' = Ok root ->
  w = w' \/ collision (combinations branches index position w) (combinations branches' index position w').
Proof.
  revert branches' index w w'. induction branches as [|b bs IH]; intros [|b' bs'] index w w' Hl Hw; try done.
  - cbn. intros [= ->] [= ->]. by left.
  - cbn [merkleLoop combinations]. intros H1 H2.
    apply res_bind_Ok in H1 as (d & Hd%map_err_Ok & H1). apply res_bind_Ok in H2 as (d' & Hd'%map_err_Ok & H2).
    rewrite Hd, Hd'. injection Hl as Hl. cbn zeta in *.
    set (c := if Z.testbit position (Z.of_nat index) then reverseTransactionBytes d ++ w else _) in *.
    set (c' := if Z.testbit position (Z.of_nat index) then reverseTransactionBytes d' ++ w' else _) in *.
    destruct (IH _ _ _ _ Hl ltac:(by rewrite !doubleSHA256_length) H1 H2) as [E|]; [|right; by apply collision_cons].
    destruct (decide (c = c')) as [Ec|Hne]; [left|right; by exists O, c, c'].
    unfold c, c' in Ec. destruct (Z.testbit position (Z.of_nat index)).
    + by apply app_inj_2 in Ec as [_ ?].
    + by apply app_inj_1 in Ec as [? _].
Qed.

Lemma displayHash_inj a b : displayHash a = displayHash b -> a = b.
Proof.
  unfold displayHash, reverseTransactionBytes. intros E. apply (f_equal hexDecode) in E.
  rewrite !hexDecode_encode in E. apply (inj Ok) in E. by rewrite <- (rev_involutive a), E, rev_involutive.
Qed.

Lemma verification_matched t remoteHeight headerCount root merkle t' :
  ApplyTransactionMerkleVerification t remoteHeight headerCount root merkle
    = (t', Ok TransactionMerkleMatched) ->
  t_IsVerified t' = true /\ t_Height t' = remoteHeight /\ 0 < remoteHeight < headerCount /\
  exists branchesValue branches,
    mapLookup (lit "merkle") merkle = Some branchesValue /\
    transactionMerkleBranches branchesValue = Ok branches /\
    TransactionMerkleRoot branches (t_Position t') (t_Hash t) = Ok root.
Proof.
  unfold ApplyTransactionMerkleVerification.
  destruct (Z.leb_spec remoteHeight 0); [done|]. destruct (Z.leb_spec headerCount remoteHeight); [done|].
  cbn [orb]. destruct merkle as [|e0 es] eqn:Em; [done|]. rewrite <- Em in *. clear Em.
  destruct (mapLookup (lit "merkle") merkle) as [v|]; [|done].
  match goal with |- context [match ?p with Ok _ => _ | Err _ => _ | Panic => _ | NoFuel => _ end] =>
    destruct p as [[position computed]|e| |] eqn:Ep end; try done.
  intros [= <- Hm]. case_bool_decide as Er; [|done]. subst computed.
  apply res_bind_Ok in Ep as (branches & Hb & Ep). apply res_bind_Ok in Ep as (pos & _ & Ep).
  apply res_bind_Ok in Ep as (r & Hr & Ep). injection Ep as -> ->.
  cbn. split_and!; try done; try lia. by exists v, branches.
Qed.

(** With as many branches as the block's tree is deep, a match means that the
    transaction is the leaf at its position, or the proof and the tree's own
    proof hash two different values to the same digest at some level. *)
Lemma matched_in_tree {n} (block : tree n) branches position hash :
  length branches = n -> length hash = length (leafAt block position) ->
  TransactionMerkleRoot branches position hash = Ok (displayHash (treeRoot block)) ->
  hash = leafAt block position \/
  collision (combinations branches 0 position hash)
    (combinations (proofOf block position) 0 position (leafAt block position)).
Proof.
  intros Hl Hh Hr. unfold TransactionMerkleRoot in Hr. apply res_bind_Ok in Hr as (root & Hr & E).
  apply (inj Ok), displayHash_inj in E as ->.
  apply (merkleLoop_sound branches (proofOf block position) 0 position _ _ (treeRoot block)); [|done|done|].
  - unfold proofOf. by rewrite length_map, length_siblings.
  - apply merkleLoop_proof.
Qed.

(** C34: Merkle verification is complete and sound.  For a block whose
    transactions are the leaves of a tree, the proof a server takes from the tree
    leads from the leaf at a position to the display form of the root.  When a
    proof of as many branches as the tree is deep verifies a transaction against
    the root, the transaction is recorded as verified at a height the chain has,
    and its hash is the leaf at its position, unless two different values with
    one double SHA-256 appear at the same level of the server's proof and of the
    tree's. *)
Theorem merkle_exact {n} (block : tree n) :
  (forall position, TransactionMerkleRoot (proofOf block position) position (leafAt block position) =
     Ok (displayHash (treeRoot block))) /\
  forall t remoteHeight headerCount merkle t',
  length (t_Hash t) = length (leafAt block (t_Position t')) ->
  ApplyTransactionMerkleVerification t remoteHeight headerCount (displayHash (treeRoot block)) merkle
    = (t', Ok TransactionMerkleMatched) ->
  t_IsVerified t' = true /\ t_Height t' = remoteHeight /\ 0 < remoteHeight < headerCount /\
  exists branchesValue branches,
    mapLookup (lit "merkle") merkle = Some branchesValue /\
    transactionMerkleBranches branchesValue = Ok branches /\
    (length branches = n ->
       t_Hash t = leafAt block (t_Position t') \/
       collision (combinations branches 0 (t_Position t') (t_Hash t))
         (combinations (proofOf block (t_Position t')) 0 (t_Position t') (leafAt block (t_Position t')))).
Proof.
  split; [intros position; unfold TransactionMerkleRoot; by rewrite merkleLoop_proof|].
  intros t remoteHeight headerCount merkle t' Hl Hm.
  destruct (verification_matched _ _ _ _ _ _ Hm) as (? & ? & ? & v & branches & ? & ? & Hr).
  split_and!; try done; try lia. exists v, branches. split_and!; [done..|].
  intros Hn. by apply matched_in_tree.
Qed.
End digests.

Definition exampleBlock : tree 1 := Branch (Leaf (repeat x01 32)) (Leaf (repeat x02 32)).
Definition exampleVerified : Transaction :=
  MkTransaction [] [] (repeat x02 32) [] 1 0 0 [] [] [] [] (-2) (-1) false.
Definition exampleProof : list (bytes * proofValue) :=
  [(lit "pos", PInt 1); (lit "merkle", PStrings [hexEncode (repeat x01 32)])].
Lemma merkle_exact_witness :
  let digests := exampleDigests in
  t_IsVerified (setVerification exampleVerified 5 1 true) = true /\
  t_Hash exampleVerified = leafAt exampleBlock 1 /\ 0 < 5 < 10.
Proof.
  assert (@ApplyTransactionMerkleVerification exampleDigests exampleVerified 5 10
    (@displayHash (@treeRoot exampleDigests 1 exampleBlock)) exampleProof =
    (setVerification exampleVerified 5 1 true, Ok TransactionMerkleMatched)) as E
    by (vm_compute; reflexivity).
  destruct (proj2 (@merkle_exact exampleDigests 1 exampleBlock) exampleVerified 5 10 exampleProof
    (setVerification exampleVerified 5 1 true) eq_refl E)
    as (Hv & _ & Hh & _).
  split; [exact Hv|]. split; [reflexivity|exact Hh].
Defined.
