(* ===== verification/Balancing.v ===== *)
(** * Balancing a transaction

    Model of [wallet/transaction_balancing.go].  The callbacks of
    [TransactionBalanceOptions] are code of other components or of the caller:
    they are functions on a world [W] they may change, and on the values the
    code passes.  A transaction is mutated in place by the code, so a step
    returns the world and the transaction also when it fails: the release
    callback sees them. *)

From S2P Require Import Prelude Digest Hex Decimal Script.
From S2P Require Import ScriptBuild Transaction TransactionBuild Float PythonRandom CoinSelection.

Definition TransactionCoin : Z := 100000000.
Definition TransactionDust : Z := 1000.
Definition TransactionBalancePasses : nat := 5.

Definition ErrTransactionBalancing (what : string) : string :=
  ("wallet transaction balancing failed: " ++ what)%string.
Definition ErrTransactionInsufficientFunds : string := "insufficient transaction funds".
Definition ErrCallbackRequired (what : string) : string :=
  ErrTransactionBalancing ("transaction balancing callback is required: " ++ what)%string.

(** ** Checked [int64] arithmetic *)

Definition checked (what : string) (exact : Z) : res Z :=
  if (min_i64 <=? exact) && (exact <=? max_i64) then Ok exact else Err (ErrTransactionBalancing what).
Definition transactionBalanceUint64 (value : Z) : res Z := checked "amount is outside int64" value.
Definition addTransactionBalanceAmount (left right : Z) : res Z :=
  checked "amount addition overflows int64" (left + right).
Definition subtractTransactionBalanceAmount (left right : Z) : res Z :=
  checked "amount subtraction overflows int64" (left - right).
Definition multiplyTransactionBalanceAmount (left right : Z) : res Z :=
  checked "fee multiplication overflows int64" (left * right).

(** ** Fee policies *)

(** [TransactionFeePolicy] *)
Record TransactionFeePolicy := MkPolicy {
  BaseFee : Transaction -> res Z;
  InputFee : TransactionInput -> res Z;
  OutputFee : TransactionOutput -> res Z
}.

Section policy.
Context `{Digests}.

Definition legacyOutputFee (feePerByte feePerNameCharacter : Z) (output : TransactionOutput) : res Z :=
  match out_Err (o_Script output) with
  | Some e => Err (ErrTransactionBalancing ("output script: " ++ e)%string)
  | None =>
      byteFee ← multiplyTransactionBalanceAmount (OutputSize output) feePerByte;
      nameFee ← (if IsClaimName (o_Script output)
                 then multiplyTransactionBalanceAmount (blen (out_ClaimName (o_Script output)))
                        feePerNameCharacter
                 else Ok 0);
      Ok (if byteFee <? nameFee then nameFee else byteFee)
  end.
Definition LegacyTransactionFeePolicy (feePerByte feePerNameCharacter : Z) : TransactionFeePolicy :=
  MkPolicy (fun transaction => multiplyTransactionBalanceAmount (BaseSize transaction) feePerByte)
    (fun input => multiplyTransactionBalanceAmount (InputSize input) feePerByte)
    (legacyOutputFee feePerByte feePerNameCharacter).
End policy.

(** ** Initial amounts *)

Section initial.
Variable policy : TransactionFeePolicy.

(** The loop of [transactionInitialCost] from the cost so far. *)
Fixpoint outputsCost (cost : Z) (outputs : list TransactionOutput) : res Z :=
  match outputs with
  | [] => Ok cost
  | output :: outputs =>
      amount ← transactionBalanceUint64 (o_Amount output);
      fee ← OutputFee policy output;
      amount ← addTransactionBalanceAmount amount fee;
      cost ← addTransactionBalanceAmount cost amount;
      outputsCost cost outputs
  end.
Definition transactionInitialCost (transaction : Transaction) : res Z :=
  cost ← BaseFee policy transaction; outputsCost cost (t_Outputs transaction).

Fixpoint inputsPayment (payment : Z) (inputs : list TransactionInput) : res Z :=
  match inputs with
  | [] => Ok payment
  | input :: inputs =>
      match i_ResolvedOutput input with
      | None => Err "input: transaction output is not attached to a transaction"
      | Some output =>
          amount ← transactionBalanceUint64 (o_Amount output);
          fee ← InputFee policy input;
          effectiveAmount ← subtractTransactionBalanceAmount amount fee;
          payment ← addTransactionBalanceAmount payment effectiveAmount;
          inputsPayment payment inputs
      end
  end.
Definition transactionInitialPayment (transaction : Transaction) : res Z :=
  inputsPayment 0 (t_Inputs transaction).

(** The change output is priced with a 32-byte hash. *)
Definition transactionChangeCost (transaction : Transaction) : res Z :=
  baseFee ← BaseFee policy transaction;
  outputFee ← OutputFee policy (NewPayPubKeyHashOutput TransactionCoin (repeat x00 32));
  addTransactionBalanceAmount baseFee outputFee.
End initial.

(** ** The balance loop *)

Record TransactionBalanceOptions (W : Type) := MkOptions {
  opt_Inputs : list TransactionInput;
  opt_Outputs : list TransactionOutput;
  opt_Validate : option (Transaction -> option string);
  opt_FeePolicy : option TransactionFeePolicy;
  opt_SelectSpendables : option (W -> Z -> W * res (list TransactionSpendable));
  opt_ChangeAddress : option (W -> W * res bytes);
  opt_AddressHash : option (W -> bytes -> W * res bytes);
  opt_Signer : option (W -> Transaction -> W * Transaction * res unit);
  opt_Release : option (W -> Transaction -> W * res unit);
  opt_SkipSigning : bool
}.
Arguments MkOptions {_}.
Arguments opt_Inputs {_}.
Arguments opt_Outputs {_}.
Arguments opt_Validate {_}.
Arguments opt_FeePolicy {_}.
Arguments opt_SelectSpendables {_}.
Arguments opt_ChangeAddress {_}.
Arguments opt_AddressHash {_}.
Arguments opt_Signer {_}.
Arguments opt_Release {_}.
Arguments opt_SkipSigning {_}.

Section balance.
Context `{Digests} {W : Type}.
Variables (options : TransactionBalanceOptions W) (policy : TransactionFeePolicy).

(** [payment += spendable.EffectiveAmount] over the selection; the inputs are
    attached also when it overflows. *)
Fixpoint addPayments (payment : Z) (spendables : list TransactionSpendable) : res Z :=
  match spendables with
  | [] => Ok payment
  | s :: spendables =>
      payment ← addTransactionBalanceAmount payment (s_EffectiveAmount s);
      addPayments payment spendables
  end.

(** The part of a pass that funds a deficit: world, transaction, payment. *)
Definition fundDeficit (w : W) (t : Transaction) (cost payment : Z) : W * Transaction * res Z :=
  if payment <? cost then
    match opt_SelectSpendables options with
    | None => (w, t, Err (ErrCallbackRequired "spendable selector"))
    | Some select =>
        match subtractTransactionBalanceAmount cost payment with
        | Ok deficit =>
            let '(w, selected) := select w deficit in
            match selected with
            | Err e => (w, t, Err (ErrTransactionBalancing ("select spendables: " ++ e)%string))
            | Ok [] => (w, t, Err (ErrTransactionBalancing ErrTransactionInsufficientFunds))
            | Ok spendables =>
                let '(t, _) := AddInputs t (map s_Input spendables) in
                (w, t, addPayments payment spendables)
            | Panic => (w, t, Panic)
            | NoFuel => (w, t, NoFuel)
            end
        | r => (w, t, r)
        end
    end
  else (w, t, Ok payment).

(** The part that adds a change output. *)
Definition addChange (w : W) (t : Transaction) (cost payment costOfChange : Z)
  : W * Transaction * res unit :=
  if cost <? payment then
    match (change ← subtractTransactionBalanceAmount payment cost;
           subtractTransactionBalanceAmount change costOfChange) with
    | Ok changeAmount =>
        if TransactionDust <? changeAmount then
          match opt_ChangeAddress options, opt_AddressHash options with
          | None, _ => (w, t, Err (ErrCallbackRequired "change address"))
          | _, None => (w, t, Err (ErrCallbackRequired "address hash"))
          | Some changeAddress, Some addressHash =>
              let '(w, address) := changeAddress w in
              match address with
              | Ok address =>
                  let '(w, pubKeyHash) := addressHash w address in
                  match pubKeyHash with
                  | Ok pubKeyHash =>
                      let '(t, _) := AddOutputs t [NewPayPubKeyHashOutput (u64 changeAmount) pubKeyHash] in
                      (w, t, Ok tt)
                  | Err e => (w, t, Err (ErrTransactionBalancing ("change address hash: " ++ e)%string))
                  | Panic => (w, t, Panic)
                  | NoFuel => (w, t, NoFuel)
                  end
              | Err e => (w, t, Err (ErrTransactionBalancing ("change address: " ++ e)%string))
              | Panic => (w, t, Panic)
              | NoFuel => (w, t, NoFuel)
              end
          end
        else (w, t, Ok tt)
    | Err e => (w, t, Err e)
    | Panic => (w, t, Panic)
    | NoFuel => (w, t, NoFuel)
    end
  else (w, t, Ok tt).

(** [passes] is what is left of the five passes; the loop ends after them, or
    when the transaction has an output. *)
Fixpoint balancePasses (passes : nat) (w : W) (t : Transaction) (cost payment : Z)
  : W * Transaction * res unit :=
  match passes with
  | O => (w, t, Ok tt)
  | S passes =>
      let '(w, t, funded) := fundDeficit w t cost payment in
      match funded with
      | Ok payment =>
          match map_err (fun e => ErrTransactionBalancing ("change cost: " ++ e)%string)
                  (transactionChangeCost policy t) with
          | Ok costOfChange =>
              let '(w, t, changed) := addChange w t cost payment costOfChange in
              match changed with
              | Ok _ =>
                  match t_Outputs t with
                  | _ :: _ => (w, t, Ok tt)
                  | [] =>
                      match (cost ← addTransactionBalanceAmount cost costOfChange;
                             addTransactionBalanceAmount cost 1) with
                      | Ok cost => balancePasses passes w t cost payment
                      | Err e => (w, t, Err e)
                      | Panic => (w, t, Panic)
                      | NoFuel => (w, t, NoFuel)
                      end
                  end
              | r => (w, t, r)
              end
          | Err e => (w, t, Err e)
          | Panic => (w, t, Panic)
          | NoFuel => (w, t, NoFuel)
          end
      | Err e => (w, t, Err e)
      | Panic => (w, t, Panic)
      | NoFuel => (w, t, NoFuel)
      end
  end.

Definition balanceAndSignTransaction (w : W) (t : Transaction) (cost payment : Z)
  : W * Transaction * res unit :=
  let '(w, t, balanced) := balancePasses TransactionBalancePasses w t cost payment in
  match balanced with
  | Ok _ =>
      if opt_SkipSigning options then (w, t, Ok tt)
      else match opt_Signer options with
      | None => (w, t, Err (ErrCallbackRequired "signer"))
      | Some signer =>
          let '(w, t, signed) := signer w t in
          (w, t, map_err (fun e => ErrTransactionBalancing ("sign transaction: " ++ e)%string) signed)
      end
  | r => (w, t, r)
  end.
End balance.

Section create.
Context `{Digests} {W : Type}.

Definition CreateBalancedTransaction (options : TransactionBalanceOptions W) (w : W)
  : W * res Transaction :=
  let '(t, _) := AddInputs NewTransaction (opt_Inputs options) in
  let '(t, _) := AddOutputs t (opt_Outputs options) in
  match match opt_Validate options with Some validate => validate t | None => None end with
  | Some e => (w, Err e)
  | None =>
      match opt_FeePolicy options with
      | None => (w, Err (ErrCallbackRequired "fee policy"))
      | Some policy =>
          match map_err (fun e => ErrTransactionBalancing ("initial cost: " ++ e)%string)
                  (transactionInitialCost policy t),
                map_err (fun e => ErrTransactionBalancing ("initial payment: " ++ e)%string)
                  (transactionInitialPayment policy t) with
          | Ok cost, Ok payment =>
              let '(w, t, outcome) := balanceAndSignTransaction options policy w t cost payment in
              match outcome with
              | Ok _ => (w, Ok t)
              | Err e =>
                  match opt_Release options with
                  | None => (w, Err e)
                  | Some release =>
                      let '(w, released) := release w t in
                      (w, match released with
                          | Ok _ => Err e
                          | Err releaseErr => Err releaseErr
                          | Panic => Panic
                          | NoFuel => NoFuel
                          end)
                  end
              | Panic => (w, Panic)
              | NoFuel => (w, NoFuel)
              end
          | Err e, _ => (w, Err e)
          | Ok _, Err e => (w, Err e)
          | Panic, _ | Ok _, Panic => (w, Panic)
          | NoFuel, _ | Ok _, NoFuel => (w, NoFuel)
          end
      end
  end.
End create.

(** ** Checked arithmetic and initial amounts *)

Lemma checked_Ok what exact r : checked what exact = Ok r -> r = exact /\ min_i64 <= exact <= max_i64.
Proof.
  unfold checked. case_match; [|done]. intros H'. apply (inj Ok) in H'. subst r.
  apply andb_true_iff in H as [?%Z.leb_le ?%Z.leb_le]. done.
Qed.

Abbreviation total := (foldr Z.add 0).
Definition effective (ss : list TransactionSpendable) : Z := sizes s_EffectiveAmount ss.

Section amounts.
Context `{Digests}.
Variable policy : TransactionFeePolicy.

(** Each input or output with its fee. *)
Definition inputFees := Forall2 (fun i fee => InputFee policy i = Ok fee).
Definition outputFees := Forall2 (fun o fee => OutputFee policy o = Ok fee).

Lemma outputsCost_Ok cost outputs r :
  outputsCost policy cost outputs = Ok r ->
  exists fees, outputFees outputs fees /\ r = cost + amounts outputs + total fees.
Proof.
  revert cost. induction outputs as [|o outputs IH]; intros cost Hr; cbn in Hr.
  - apply (inj Ok) in Hr. exists []. split; [by constructor|]. cbn. lia.
  - apply res_bind_Ok in Hr as (a & Ha%checked_Ok & Hr).
    apply res_bind_Ok in Hr as (fee & Hfee & Hr).
    apply res_bind_Ok in Hr as (b & Hb%checked_Ok & Hr).
    apply res_bind_Ok in Hr as (c & Hc%checked_Ok & Hr).
    apply IH in Hr as (fees & Hf & ->). exists (fee :: fees). split; [by constructor|].
    unfold amounts, sizes in *. cbn. lia.
Qed.

Lemma inputsPayment_Ok payment inputs r :
  inputsPayment policy payment inputs = Ok r ->
  exists fees, inputFees inputs fees /\ r = payment + sizes resolvedAmount inputs - total fees.
Proof.
  revert payment. induction inputs as [|i inputs IH]; intros payment Hr; cbn in Hr.
  - apply (inj Ok) in Hr. exists []. split; [by constructor|]. cbn. lia.
  - destruct (i_ResolvedOutput i) as [o|] eqn:Eo; [|done].
    apply res_bind_Ok in Hr as (a & Ha%checked_Ok & Hr).
    apply res_bind_Ok in Hr as (fee & Hfee & Hr).
    apply res_bind_Ok in Hr as (b & Hb%checked_Ok & Hr).
    apply res_bind_Ok in Hr as (c & Hc%checked_Ok & Hr).
    apply IH in Hr as (fees & Hf & ->). exists (fee :: fees). split; [by constructor|].
    unfold sizes in *. cbn. unfold resolvedAmount at 2. rewrite Eo. lia.
Qed.

Lemma addPayments_Ok payment ss r : addPayments payment ss = Ok r -> r = payment + effective ss.
Proof.
  revert payment. induction ss as [|s ss IH]; intros payment Hr; cbn in Hr.
  - apply (inj Ok) in Hr. cbn. lia.
  - apply res_bind_Ok in Hr as (p & Hp%checked_Ok & Hr). apply IH in Hr.
    unfold effective, sizes in *. cbn. lia.
Qed.

(** *** What attaching keeps, whether or not the derived fields are rebuilt *)

Lemma resolved_refresh k l :
  map i_ResolvedOutput (imap (fun n => refreshInput (k + n)) l) = map i_ResolvedOutput l.
Proof.
  apply list_eq. intros n. rewrite !list_lookup_fmap, list_lookup_imap.
  destruct (l !! n) as [[??????? [o|]]|]; done.
Qed.
Lemma rebuild_keeps t :
  map i_ResolvedOutput (t_Inputs (rebuildOrKeep t)) = map i_ResolvedOutput (t_Inputs t) /\
  map o_Amount (t_Outputs (rebuildOrKeep t)) = map o_Amount (t_Outputs t).
Proof.
  unfold rebuildOrKeep. destruct (tooMany t) eqn:E.
  - unfold RebuildDerived, tooMany in *. by repeat case_match.
  - destruct (RebuildDerived_derived t E) as (t' & -> & _ & -> & _ & -> & _).
    split; [|done]. apply (resolved_refresh 0).
Qed.
Lemma AddInputs_keeps t inputs :
  map i_ResolvedOutput (t_Inputs (fst (AddInputs t inputs))) =
    map i_ResolvedOutput (t_Inputs t) ++ map i_ResolvedOutput inputs /\
  map o_Amount (t_Outputs (fst (AddInputs t inputs))) = map o_Amount (t_Outputs t).
Proof.
  unfold AddInputs; cbn [fst].
  match goal with |- context [rebuildOrKeep ?t] => destruct (rebuild_keeps t) as [-> ->] end.
  cbn. rewrite map_map, map_app. split; [|done]. f_equal.
  apply list_eq. intros n. rewrite !list_lookup_fmap, list_lookup_imap. by destruct (inputs !! n).
Qed.
Lemma AddOutputs_keeps t outputs :
  map i_ResolvedOutput (t_Inputs (fst (AddOutputs t outputs))) = map i_ResolvedOutput (t_Inputs t) /\
  map o_Amount (t_Outputs (fst (AddOutputs t outputs))) =
    map o_Amount (t_Outputs t) ++ map o_Amount outputs.
Proof.
  unfold AddOutputs; cbn [fst].
  match goal with |- context [rebuildOrKeep ?t] => destruct (rebuild_keeps t) as [-> ->] end.
  cbn. rewrite map_map, map_app. split; [done|]. f_equal.
  apply list_eq. intros n. rewrite !list_lookup_fmap, list_lookup_imap. by destruct (outputs !! n).
Qed.

Lemma sizes_resolved l l' :
  map i_ResolvedOutput l = map i_ResolvedOutput l' ->
  sizes resolvedAmount l = sizes resolvedAmount l'.
Proof.
  revert l'. induction l as [|i l IH]; intros [|i' l'] E; cbn in E; try done.
  injection E as Ei E. unfold sizes, resolvedAmount in *. cbn. by rewrite Ei, (IH l' E).
Qed.
Lemma amounts_map l l' : map o_Amount l = map o_Amount l' -> amounts l = amounts l'.
Proof.
  revert l'. unfold amounts, sizes.
  induction l as [|o l IH]; intros [|o' l'] E; cbn in E; try done. injection E as Eo E.
  cbn. by rewrite Eo, (IH l' E).
Qed.
Lemma sizes_app {A} (size : A -> Z) l l' : sizes size (l ++ l') = sizes size l + sizes size l'.
Proof. unfold sizes. induction l as [|x l IH]; cbn; lia. Qed.
Lemma amounts_snoc l amount hash :
  amounts (l ++ [NewPayPubKeyHashOutput amount hash]) = amounts l + amount.
Proof. unfold amounts. rewrite sizes_app. unfold sizes at 2. cbn. lia. Qed.
End amounts.

(** ** The selector interface *)

(** What the balance loop needs of [SelectSpendables]: a selection that is not
    empty covers the deficit, and a spendable's effective amount is the amount
    it spends less its input fee. *)
Class SpendableSelector {W : Type} (policy : TransactionFeePolicy)
    (select : W -> Z -> W * res (list TransactionSpendable)) : Prop := {
  selected_covers w deficit w' ss :
    0 < deficit -> select w deficit = (w', Ok ss) -> ss <> [] -> deficit <= effective ss;
  selected_effective w deficit w' ss :
    0 < deficit -> select w deficit = (w', Ok ss) ->
    exists fees, inputFees policy (map s_Input ss) fees /\
      effective ss = sizes resolvedAmount (map s_Input ss) - total fees
}.

(** A signer fills in scripts: it leaves the amounts alone. *)
Definition keepsAmounts {W} (signer : W -> Transaction -> W * Transaction * res unit) : Prop :=
  forall w t w' t' r, signer w t = (w', t', r) ->
    map i_ResolvedOutput (t_Inputs t') = map i_ResolvedOutput (t_Inputs t) /\
    map o_Amount (t_Outputs t') = map o_Amount (t_Outputs t).

Section balanced.
Context `{Digests} {W : Type}.
Variables (options : TransactionBalanceOptions W) (policy : TransactionFeePolicy).
Hypothesis selector : forall select, opt_SelectSpendables options = Some select ->
  SpendableSelector policy select.
Hypothesis signer : forall sign, opt_Signer options = Some sign -> keepsAmounts sign.

(** The transaction with the selection attached, if there is one. *)
Definition funded (t : Transaction) (ss : list TransactionSpendable) : Transaction :=
  match ss with [] => t | _ => fst (AddInputs t (map s_Input ss)) end.
Lemma funded_keeps t ss :
  map i_ResolvedOutput (t_Inputs (funded t ss)) =
    map i_ResolvedOutput (t_Inputs t ++ map s_Input ss) /\
  map o_Amount (t_Outputs (funded t ss)) = map o_Amount (t_Outputs t).
Proof.
  destruct ss as [|s ss]; [by rewrite app_nil_r|]. rewrite map_app. apply AddInputs_keeps.
Qed.

Lemma fundDeficit_Ok w t cost payment w' t' payment' :
  fundDeficit options w t cost payment = (w', t', Ok payment') ->
  exists ss fees, t' = funded t ss /\ payment' = payment + effective ss /\ cost <= payment' /\
    inputFees policy (map s_Input ss) fees /\
    effective ss = sizes resolvedAmount (map s_Input ss) - total fees.
Proof.
  unfold fundDeficit. intros Hf. destruct (Z.ltb_spec payment cost) as [Hlt|Hge].
  2: { apply pair_equal_spec in Hf as [[-> ->]%pair_equal_spec Hp]. apply (inj Ok) in Hp as ->.
       exists [], []. unfold effective, sizes. cbn. split_and!; [done|lia|lia|by constructor|done]. }
  destruct (opt_SelectSpendables options) as [select|] eqn:Es; [|by simplify_eq].
  specialize (selector _ eq_refl).
  destruct (subtractTransactionBalanceAmount cost payment) as [d| | |] eqn:Ed; [|by simplify_eq..].
  apply checked_Ok in Ed as [-> _]. destruct (select w (cost - payment)) as [w1 r] eqn:Er.
  destruct r as [[|s ss]|e| |]; [by simplify_eq| |by simplify_eq..].
  destruct (selected_effective w (cost - payment) _ _ ltac:(lia) Er) as (fees & Hfees & Heff).
  pose proof (selected_covers w (cost - payment) _ _ ltac:(lia) Er ltac:(done)).
  destruct (AddInputs t (map s_Input (s :: ss))) as [t1 added] eqn:Ea.
  apply pair_equal_spec in Hf as [[-> ->]%pair_equal_spec Hp]. apply addPayments_Ok in Hp.
  exists (s :: ss), fees. unfold funded. rewrite Ea. split_and!; try done. lia.
Qed.

(** The change output: added exactly when more than dust is left after it is
    paid for, and holding all that is left. *)
Lemma addChange_Ok w t cost payment costOfChange w' t' :
  cost <= payment -> addChange options w t cost payment costOfChange = (w', t', Ok tt) ->
  (t' = t /\ (payment = cost \/ payment - cost - costOfChange <= TransactionDust)) \/
  (cost < payment /\ TransactionDust < payment - cost - costOfChange /\
   exists pubKeyHash, t' = fst (AddOutputs t
     [NewPayPubKeyHashOutput (payment - cost - costOfChange) pubKeyHash])).
Proof.
  intros Hle. unfold addChange. destruct (Z.ltb_spec cost payment) as [Hlt|Hge].
  2: { intros ?; simplify_eq. left. split; [done|]. lia. }
  destruct (subtractTransactionBalanceAmount payment cost) as [c| | |] eqn:Ec; [|done..].
  apply checked_Ok in Ec as [-> _]. cbn [mbind res_bind].
  destruct (subtractTransactionBalanceAmount (payment - cost) costOfChange) as [c| | |] eqn:Ec; [|done..].
  apply checked_Ok in Ec as [-> Hb].
  destruct (Z.ltb_spec TransactionDust (payment - cost - costOfChange)) as [Hd|Hd].
  2: { intros ?; simplify_eq. left. split; [done|]. lia. }
  destruct (opt_ChangeAddress options) as [changeAddress|]; [|done].
  destruct (opt_AddressHash options) as [addressHash|]; [|done].
  destruct (changeAddress w) as [w1 [address| | |]]; [|done..].
  destruct (addressHash w1 address) as [w2 [hash| | |]]; [|done..].
  destruct (AddOutputs t _) as [t1 added] eqn:Ea. intros ?; simplify_eq. right.
  split_and!; [done|done|]. exists hash.
  rewrite u64_id in Ea by (unfold TransactionDust, max_i64 in *; lia). by rewrite Ea.
Qed.

(** With an output the first pass is the last one. *)
Lemma balancePasses_Ok n w t cost payment w' t' :
  t_Outputs t <> [] -> balancePasses options policy (S n) w t cost payment = (w', t', Ok tt) ->
  exists ss fees costOfChange, cost <= payment + effective ss /\
    inputFees policy (map s_Input ss) fees /\
    effective ss = sizes resolvedAmount (map s_Input ss) - total fees /\
    transactionChangeCost policy (funded t ss) = Ok costOfChange /\
    let left_ := payment + effective ss - cost in
    (t' = funded t ss /\ (left_ = 0 \/ left_ - costOfChange <= TransactionDust)) \/
    (0 < left_ /\ TransactionDust < left_ - costOfChange /\
     exists pubKeyHash, t' = fst (AddOutputs (funded t ss)
       [NewPayPubKeyHashOutput (left_ - costOfChange) pubKeyHash])).
Proof.
  intros Hne. cbn [balancePasses].
  destruct (fundDeficit options w t cost payment) as [[w1 t1] [p| | |]] eqn:Ef; [|done..].
  apply fundDeficit_Ok in Ef as (ss & fees & -> & -> & Hge & Hfees & Heff).
  destruct (transactionChangeCost policy (funded t ss)) as [coc| | |] eqn:Ec; [|done..].
  cbn [map_err].
  destruct (addChange options w1 (funded t ss) cost (payment + effective ss) coc)
    as [[w2 t2] [[]| | |]] eqn:Ea; [|done..].
  apply addChange_Ok in Ea; [|done]. intros Hr.
  assert (map o_Amount (t_Outputs t2) <> []) as Ht2.
  { destruct (funded_keeps t ss) as [_ Hk].
    destruct Ea as [[-> _]|(_ & _ & h & ->)]; [rewrite Hk|rewrite (proj2 (AddOutputs_keeps _ _)), Hk];
      destruct (t_Outputs t); done. }
  destruct (t_Outputs t2) eqn:Eo; [done|]. simplify_eq. exists ss, fees, coc. cbn zeta.
  split_and!; try done. destruct Ea as [[-> Hd]|(Hd & Hd' & h & ->)]; [left|right].
  - split; [done|]. destruct Hd; [left|right]; lia.
  - split_and!; [lia|lia|]. by exists h.
Qed.

Lemma balanceAndSign_Ok w t cost payment w' t' :
  balanceAndSignTransaction options policy w t cost payment = (w', t', Ok tt) ->
  exists w1 t1, balancePasses options policy TransactionBalancePasses w t cost payment = (w1, t1, Ok tt) /\
    map i_ResolvedOutput (t_Inputs t') = map i_ResolvedOutput (t_Inputs t1) /\
    map o_Amount (t_Outputs t') = map o_Amount (t_Outputs t1).
Proof.
  unfold balanceAndSignTransaction.
  destruct (balancePasses _ _ _ _ _ _ _) as [[w1 t1] [[]| | |]]; [|done..]. intros Hr.
  exists w1, t1. split; [done|]. destruct (opt_SkipSigning options); [by simplify_eq|].
  destruct (opt_Signer options) as [sign|]; [|done].
  specialize (signer _ eq_refl). destruct (sign w1 t1) as [[w2 t2] r] eqn:Es.
  apply signer in Es as [Hi Ho]. by simplify_eq.
Qed.
End balanced.

(** ** The value of a created transaction *)

Definition valueIn (t : Transaction) : Z := sizes resolvedAmount (t_Inputs t).
Definition valueOut (t : Transaction) : Z := amounts (t_Outputs t).
(** The transaction before it is balanced. *)
Definition initialTransaction `{Digests} {W} (options : TransactionBalanceOptions W) : Transaction :=
  fst (AddOutputs (fst (AddInputs NewTransaction (opt_Inputs options))) (opt_Outputs options)).

Section created.
Context `{Digests} {W : Type}.
Variables (options : TransactionBalanceOptions W) (policy : TransactionFeePolicy).

Lemma initial_amounts :
  map o_Amount (t_Outputs (initialTransaction options)) = map o_Amount (opt_Outputs options).
Proof.
  unfold initialTransaction. rewrite (proj2 (AddOutputs_keeps _ _)), (proj2 (AddInputs_keeps _ _)).
  done.
Qed.

Lemma create_Ok w w' t :
  opt_FeePolicy options = Some policy -> CreateBalancedTransaction options w = (w', Ok t) ->
  exists cost payment, transactionInitialCost policy (initialTransaction options) = Ok cost /\
    transactionInitialPayment policy (initialTransaction options) = Ok payment /\
    balanceAndSignTransaction options policy w (initialTransaction options) cost payment = (w', t, Ok tt).
Proof.
  intros Hp. unfold CreateBalancedTransaction, initialTransaction.
  destruct (AddInputs NewTransaction (opt_Inputs options)) as [t1 a1]. cbn [fst].
  destruct (AddOutputs t1 (opt_Outputs options)) as [t0 a2]. cbn [fst]. rewrite Hp.
  destruct (match opt_Validate options with Some _ => _ | None => None end); [done|].
  destruct (transactionInitialCost policy t0) as [cost| | |]; [|done..].
  destruct (transactionInitialPayment policy t0) as [payment| | |]; [|done..]. cbn [map_err].
  destruct (balanceAndSignTransaction options policy w t0 cost payment)
    as [[w1 t'] [[]|e| |]] eqn:Eb.
  - intros ?; simplify_eq. eauto.
  - destruct (opt_Release options) as [release|]; [|done].
    destruct (release w1 t') as [w2 [[]| | |]]; done.
  - done.
  - done.
Qed.

Lemma balanced_value w w' t t0 cost payment :
  (forall select, opt_SelectSpendables options = Some select -> SpendableSelector policy select) ->
  (forall sign, opt_Signer options = Some sign -> keepsAmounts sign) ->
  t_Outputs t0 <> [] ->
  transactionInitialCost policy t0 = Ok cost -> transactionInitialPayment policy t0 = Ok payment ->
  balanceAndSignTransaction options policy w t0 cost payment = (w', t, Ok tt) ->
  exists ss baseFee fees fees' costOfChange,
    map i_ResolvedOutput (t_Inputs t) = map i_ResolvedOutput (t_Inputs t0 ++ map s_Input ss) /\
    BaseFee policy t0 = Ok baseFee /\
    inputFees policy (t_Inputs t0 ++ map s_Input ss) fees /\
    outputFees policy (t_Outputs t0) fees' /\
    transactionChangeCost policy (funded t0 ss) = Ok costOfChange /\
    let required := baseFee + total fees + total fees' in
    let fee := valueIn t - valueOut t in
    (map o_Amount (t_Outputs t) = map o_Amount (t_Outputs t0) /\
       required <= fee <= required + Z.max 0 (costOfChange + TransactionDust)) \/
    (exists change, TransactionDust < change /\ fee = required + costOfChange /\
       map o_Amount (t_Outputs t) = map o_Amount (t_Outputs t0) ++ [change]).
Proof.
  intros Hsel Hsign Hne Hcost Hpay Hb.
  apply (balanceAndSign_Ok _ _ Hsign) in Hb as (w1 & t1 & Hb & Hin & Hout).
  apply (balancePasses_Ok _ _ Hsel) in Hb as (ss & fs & coc & Hge & Hfs & Heff & Hcoc & Hcase); [|done].
  unfold transactionInitialCost in Hcost. apply res_bind_Ok in Hcost as (base & Hbase & Hcost).
  apply outputsCost_Ok in Hcost as (fees' & Hfees' & ->).
  apply inputsPayment_Ok in Hpay as (fees & Hfees & ->).
  destruct (funded_keeps t0 ss) as [Hfi Hfo].
  assert (total (fees ++ fs) = total fees + total fs) as Htot.
  { clear. induction fees as [|x l IH]; cbn; lia. }
  exists ss, base, (fees ++ fs), fees', coc. cbn zeta in Hcase |- *.
  assert (map i_ResolvedOutput (t_Inputs t) = map i_ResolvedOutput (t_Inputs t0 ++ map s_Input ss)) as Ei.
  { rewrite Hin, <- Hfi.
    destruct Hcase as [[-> _]|(_ & _ & h & ->)]; [done|apply AddOutputs_keeps]. }
  unfold valueIn, valueOut. rewrite (sizes_resolved _ _ Ei), sizes_app, Htot.
  split_and!; [done|done|by apply Forall2_app|done|done|].
  destruct Hcase as [[-> Hl]|(Hl & Hd & h & ->)]; [left|right; eexists (_ - coc)].
  - rewrite Hfo in Hout. rewrite (amounts_map _ _ Hout). split; [done|]. lia.
  - rewrite (proj2 (AddOutputs_keeps _ _)), Hfo in Hout.
    split; [exact Hd|]. split; [|exact Hout].
    rewrite <- map_app in Hout. apply amounts_map in Hout. rewrite amounts_snoc in Hout. lia.
Qed.

(** [t] is the initial transaction with [ss] attached, and pays exactly for
    itself and for its change, or keeps at most the price of change and dust. *)
Definition balanced (t : Transaction) : Prop :=
  let t0 := initialTransaction options in
  exists ss baseFee fees fees' costOfChange,
    map i_ResolvedOutput (t_Inputs t) = map i_ResolvedOutput (t_Inputs t0 ++ map s_Input ss) /\
    BaseFee policy t0 = Ok baseFee /\
    inputFees policy (t_Inputs t0 ++ map s_Input ss) fees /\
    outputFees policy (t_Outputs t0) fees' /\
    transactionChangeCost policy (funded t0 ss) = Ok costOfChange /\
    let required := baseFee + total fees + total fees' in
    let fee := valueIn t - valueOut t in
    (map o_Amount (t_Outputs t) = map o_Amount (opt_Outputs options) /\
       required <= fee <= required + Z.max 0 (costOfChange + TransactionDust)) \/
    (exists change, TransactionDust < change /\ fee = required + costOfChange /\
       map o_Amount (t_Outputs t) = map o_Amount (opt_Outputs options) ++ [change]).

End created.

(** ** Reservations

    Selecting an output reserves its ID.  A creation that fails releases every
    output it reserved, and one that succeeds spends them all. *)

(** [TransactionOutput.ID] of an output no transaction owns. *)
Definition OutputID (output : TransactionOutput) : bytes :=
  o_TransactionID output ++ lit ":" ++ FormatInt (o_Position output).

Definition spends (inputs : list TransactionInput) (id : bytes) : Prop :=
  exists o, Some o ∈ map i_ResolvedOutput inputs /\ OutputID o = id.
Definition resolved (inputs : list TransactionInput) : Prop := None ∉ map i_ResolvedOutput inputs.

Lemma spends_app a b id : spends (a ++ b) id <-> spends a id \/ spends b id.
Proof. unfold spends. rewrite map_app. setoid_rewrite elem_of_app. naive_solver. Qed.
Lemma resolved_app a b : resolved (a ++ b) <-> resolved a /\ resolved b.
Proof. unfold resolved. rewrite map_app, elem_of_app. tauto. Qed.

Class Reservations {W : Type} (reserved : W -> bytes -> Prop)
    (options : TransactionBalanceOptions W) : Prop := {
  select_reserves select w deficit w' r id :
    opt_SelectSpendables options = Some select -> select w deficit = (w', r) -> reserved w' id ->
    reserved w id \/ exists ss, r = Ok ss /\ spends (map s_Input ss) id;
  select_resolved select w deficit w' ss :
    opt_SelectSpendables options = Some select -> select w deficit = (w', Ok ss) ->
    resolved (map s_Input ss);
  address_reserves changeAddress w w' r id :
    opt_ChangeAddress options = Some changeAddress -> changeAddress w = (w', r) ->
    reserved w' id -> reserved w id;
  hash_reserves addressHash w address w' r id :
    opt_AddressHash options = Some addressHash -> addressHash w address = (w', r) ->
    reserved w' id -> reserved w id;
  sign_reserves sign w t w' t' r id :
    opt_Signer options = Some sign -> sign w t = (w', t', r) ->
    map i_ResolvedOutput (t_Inputs t') = map i_ResolvedOutput (t_Inputs t) /\
    (reserved w' id -> reserved w id);
  release_releases release w t w' r id :
    opt_Release options = Some release -> release w t = (w', r) -> resolved (t_Inputs t) ->
    reserved w' id -> r = Ok tt /\ reserved w id /\ ~ spends (t_Inputs t) id
}.

Section reservations.
Context `{Digests} {W : Type} (reserved : W -> bytes -> Prop).
Variables (options : TransactionBalanceOptions W) (policy : TransactionFeePolicy).
Context `{!Reservations reserved options}.

(** From [w] and [t] to [w'] and [t']: the inputs stay, and what is reserved was
    reserved before or is spent. *)
Definition accounted (w : W) (t : Transaction) (w' : W) (t' : Transaction) : Prop :=
  (forall id, spends (t_Inputs t) id -> spends (t_Inputs t') id) /\
  (resolved (t_Inputs t) -> resolved (t_Inputs t')) /\
  (forall id, reserved w' id -> reserved w id \/ spends (t_Inputs t') id).

#[export] Instance accounted_refl w : Reflexive (fun t t' => accounted w t w t').
Proof. intros t. split_and!; auto. Qed.
Lemma accounted_same w t w' t' :
  map i_ResolvedOutput (t_Inputs t') = map i_ResolvedOutput (t_Inputs t) ->
  (forall id, reserved w' id -> reserved w id) -> accounted w t w' t'.
Proof. intros E Hr. unfold accounted, spends, resolved. rewrite E. split_and!; auto. Qed.
Lemma accounted_trans w t w1 t1 w2 t2 :
  accounted w t w1 t1 -> accounted w1 t1 w2 t2 -> accounted w t w2 t2.
Proof.
  intros (Hs1 & Hn1 & Hr1) (Hs2 & Hn2 & Hr2). split_and!; [auto|auto|].
  intros id Hid. destruct (Hr2 id Hid) as [Hw|?]; [|by right]. destruct (Hr1 id Hw); auto.
Qed.

Lemma fundDeficit_accounted w t cost payment w' t' r :
  fundDeficit options w t cost payment = (w', t', r) -> accounted w t w' t'.
Proof.
  pose proof (accounted_refl w t) as Hsame. unfold fundDeficit. intros Hf.
  case_match; [|by simplify_eq].
  destruct (opt_SelectSpendables options) as [select|] eqn:Es; [|by simplify_eq].
  destruct (subtractTransactionBalanceAmount cost payment) as [d| | |]; [|by simplify_eq..].
  destruct (select w d) as [w1 sel] eqn:Er.
  assert (forall id, reserved w1 id -> reserved w id \/
    exists ss, sel = Ok ss /\ spends (map s_Input ss) id) as Hres.
  { intros id. by apply (select_reserves select w d w1 sel id). }
  assert ((forall ss, sel = Ok ss -> ss = []) -> accounted w t w1 t) as Hnone.
  { intros Hn. apply accounted_same; [done|]. intros id Hid.
    destruct (Hres id Hid) as [?|(ss & E & o & Hin & _)]; [done|].
    rewrite (Hn _ E) in Hin. by apply elem_of_nil in Hin. }
  destruct sel as [[|s ss]|e| |].
  2: { destruct (AddInputs_keeps t (map s_Input (s :: ss))) as [Hk _].
    destruct (AddInputs t (map s_Input (s :: ss))) as [t1 added]. cbn [fst] in Hk.
    rewrite <- map_app in Hk. pose proof (select_resolved select w d w1 (s :: ss) Es Er) as Hsel.
    apply pair_equal_spec in Hf as [[<- <-]%pair_equal_spec _]. unfold accounted, spends, resolved.
    rewrite Hk. fold (resolved (t_Inputs t ++ map s_Input (s :: ss))). split_and!.
    - intros id (o & Ho & E). exists o. rewrite map_app, elem_of_app. auto.
    - intros Ht. by apply resolved_app.
    - intros id Hid. fold (spends (t_Inputs t ++ map s_Input (s :: ss)) id). rewrite spends_app.
      destruct (Hres id Hid) as [?|(ss' & E & Hin)]; [by left|]. simplify_eq. auto. }
  all: apply pair_equal_spec in Hf as [[<- <-]%pair_equal_spec _].
  all: apply Hnone; intros ? [=]; done.
Qed.

Lemma addChange_accounted w t cost payment costOfChange w' t' r :
  addChange options w t cost payment costOfChange = (w', t', r) -> accounted w t w' t'.
Proof.
  pose proof (accounted_refl w t) as Hsame. unfold addChange. intros Ha. case_match; [|by simplify_eq].
  destruct (_ ← _; _) as [changeAmount| | |]; [|by simplify_eq..].
  case_match; [|by simplify_eq].
  destruct (opt_ChangeAddress options) as [changeAddress|] eqn:Ec; [|by simplify_eq].
  destruct (opt_AddressHash options) as [addressHash|] eqn:Eh; [|by simplify_eq].
  destruct (changeAddress w) as [w1 address] eqn:Ea.
  assert (accounted w t w1 t) as Hw1.
  { apply accounted_same; [done|]. intros id. by apply (address_reserves changeAddress w w1 address id). }
  destruct address as [address| | |]; [|by simplify_eq..].
  destruct (addressHash w1 address) as [w2 hash] eqn:Eh'.
  assert (accounted w t w2 t) as Hw2.
  { apply (accounted_trans _ _ w1 t); [done|]. apply accounted_same; [done|].
    intros id. by apply (hash_reserves addressHash w1 address w2 hash id). }
  destruct hash as [hash| | |]; [|by simplify_eq..].
  destruct (AddOutputs t _) as [t1 added] eqn:Ed. simplify_eq.
  apply (accounted_trans _ _ w' t); [done|]. apply accounted_same; [|done].
  match type of Ed with AddOutputs t ?l = _ => destruct (AddOutputs_keeps t l) as [Hk _] end.
  by rewrite Ed in Hk.
Qed.

Lemma balancePasses_accounted n w t cost payment w' t' r :
  balancePasses options policy n w t cost payment = (w', t', r) -> accounted w t w' t'.
Proof.
  revert w t cost payment. induction n as [|n IH]; intros w t cost payment Hb; cbn [balancePasses] in Hb.
  { apply pair_equal_spec in Hb as [[<- <-]%pair_equal_spec _]. apply accounted_refl. }
  destruct (fundDeficit options w t cost payment) as [[w1 t1] p] eqn:Ef.
  apply fundDeficit_accounted in Ef.
  destruct p as [p| | |]; [|by apply pair_equal_spec in Hb as [[<- <-]%pair_equal_spec _]..].
  destruct (map_err _ _) as [coc| | |]; [|by apply pair_equal_spec in Hb as [[<- <-]%pair_equal_spec _]..].
  destruct (addChange options w1 t1 cost p coc) as [[w2 t2] c] eqn:Ec.
  apply addChange_accounted in Ec. pose proof (accounted_trans _ _ _ _ _ _ Ef Ec) as Hacc.
  destruct c as [[]| | |]; [|by apply pair_equal_spec in Hb as [[<- <-]%pair_equal_spec _]..].
  destruct (t_Outputs t2); [|by apply pair_equal_spec in Hb as [[<- <-]%pair_equal_spec _]].
  destruct (_ ← _; _) as [cost'| | |]; [|by apply pair_equal_spec in Hb as [[<- <-]%pair_equal_spec _]..].
  apply IH in Hb. by eapply accounted_trans.
Qed.

Lemma balanceAndSign_accounted w t cost payment w' t' r :
  balanceAndSignTransaction options policy w t cost payment = (w', t', r) -> accounted w t w' t'.
Proof.
  unfold balanceAndSignTransaction. intros Hs.
  destruct (balancePasses _ _ _ _ _ _ _) as [[w1 t1] b] eqn:Eb.
  apply balancePasses_accounted in Eb.
  destruct b as [[]| | |]; [|by apply pair_equal_spec in Hs as [[<- <-]%pair_equal_spec _]..].
  destruct (opt_SkipSigning options); [by apply pair_equal_spec in Hs as [[<- <-]%pair_equal_spec _]|].
  destruct (opt_Signer options) as [sign|] eqn:Es;
    [|by apply pair_equal_spec in Hs as [[<- <-]%pair_equal_spec _]].
  destruct (sign w1 t1) as [[w2 t2] signed] eqn:E.
  apply pair_equal_spec in Hs as [[<- <-]%pair_equal_spec _].
  apply (accounted_trans _ _ w1 t1); [done|].
  assert (forall id, map i_ResolvedOutput (t_Inputs t2) = map i_ResolvedOutput (t_Inputs t1) /\
    (reserved w2 id -> reserved w1 id)) as Hsign.
  { intros id. by apply (sign_reserves sign w1 t1 w2 t2 signed id). }
  apply accounted_same; [apply (Hsign [])|]. intros id. apply Hsign.
Qed.
End reservations.

Lemma inputsPayment_resolved policy payment inputs r :
  inputsPayment policy payment inputs = Ok r -> resolved inputs.
Proof.
  revert payment. unfold resolved. induction inputs as [|i inputs IH]; intros payment Hr; cbn in *.
  - apply not_elem_of_nil.
  - destruct (i_ResolvedOutput i) as [o|]; [|done]. res_inv. apply not_elem_of_cons.
    split; [done|]. by eapply IH.
Qed.

Section leaks.
Context `{Digests} {W : Type} (reserved : W -> bytes -> Prop).
Variable options : TransactionBalanceOptions W.
Context `{!Reservations reserved options}.

End leaks.
