(* ===== verification/Funding.v ===== *)
(** * Addresses and funding from accounts

    Model of the address functions of [wallet/transaction.go],
    [wallet/address_sync.go] and [wallet/transaction_transfer.go], and of the
    account-backed funding of [wallet/transaction_balancing_accounts.go] with
    [transactionOutputFromStored] of [wallet/transaction_resolution.go] and
    [NewSpendInput] of [wallet/transaction_build.go].  The ledger database is
    reached through [LedgerDatabase], which [LedgerStore] implements. *)

From S2P Require Import Prelude Digest Hex Decimal Base58 Keys Script.
From S2P Require Import ScriptBuild Transaction TransactionBuild Float PythonRandom CoinSelection Balancing.

(** ** Addresses *)

Definition ErrTransactionHasNoAddress : string := "transaction output has no address".
Definition ErrInvalidWalletAddress : string := "invalid wallet address".
Definition ErrTransferAddress : string := "invalid transfer address".

Section addresses.
Context `{Digests}.

(** [TransactionOutput.Address] *)
Definition OutputAddress (output : TransactionOutput) (network : Network) : res bytes :=
  let script := o_Script output in
  match out_Err script with
  | Some e => Err e
  | None =>
      '(prefix, hash) ← (if out_HasPubKeyHash script
                         then Ok (PubKeyAddressPrefix network, out_PubKeyHash script)
                         else if out_HasScriptHash script
                         then Ok (ScriptAddressPrefix network, out_ScriptHash script)
                         else Err ErrTransactionHasNoAddress);
      if String.eqb (NetworkID network) "" then Err ErrUnknownNetwork
      else Ok (EncodeBase58Check (prefix :: hash))
  end.

Definition addressHash160 (network : Network) (address : bytes) : res bytes :=
  payload ← map_err (fun e => ErrInvalidWalletAddress ++ ": " ++ e)%string (DecodeBase58Check address);
  if negb (blen payload =? 21) then Err ErrInvalidWalletAddress
  else match payload with
  | prefix :: hash =>
      if negb (Byte.eqb prefix (PubKeyAddressPrefix network)) &&
         negb (Byte.eqb prefix (ScriptAddressPrefix network)) then Err ErrInvalidWalletAddress
      else Ok hash
  | [] => Panic
  end.

Definition PayPubKeyHashOutputForAddress (amount : Z) (address : bytes) : res TransactionOutput :=
  match DecodeBase58Check address with
  | Ok decoded =>
      if negb (blen decoded =? 21) then Err ErrTransferAddress
      else match decoded with
      | prefix :: hash =>
          if Byte.eqb prefix (PubKeyAddressPrefix MainNet) || Byte.eqb prefix (PubKeyAddressPrefix TestNet)
          then Ok (NewPayPubKeyHashOutput amount hash)
          else if Byte.eqb prefix (ScriptAddressPrefix MainNet) ||
                  Byte.eqb prefix (ScriptAddressPrefix TestNet)
          then Ok (NewPayScriptHashOutput amount hash)
          else Err ErrTransferAddress
      | [] => Panic
      end
  | Err _ => Err ErrTransferAddress
  | _ => Panic
  end.

(** The hash part, without checking the checksum: [decoded[1:min(len,21)]]. *)
Definition transactionChangeAddressHash (address : bytes) : res bytes :=
  decoded ← decodeBase58 address;
  Ok (if blen decoded <=? 1 then [] else drop 1 (take 21 decoded)).
End addresses.

(** ** Spending a stored output *)

(** [SpendableOutputRow] *)
Record SpendableOutputRow := MkRow {
  TXID : bytes;
  TXOID : bytes;
  RowRaw : bytes;
  RowHeight : Z;
  RowTXPosition : Z;
  OutputPosition : Z;
  RowIsVerified : bool;
  RowAmount : Z;
  RowScript : bytes
}.

Definition ErrTransactionOutputOutOfRange : string := "transaction output is out of range".
Definition ErrUnattachedTransactionOutput : string := "transaction output is not attached to a transaction".
Definition ErrUnsupportedSpendOutput : string := "attempting to spend unsupported transaction output".

Definition transactionHashFromID (txid : bytes) : res bytes :=
  match hexDecode txid with
  | Ok display => if blen display =? 32 then Ok (reverseTransactionBytes display)
                  else Err "invalid stored transaction ID"
  | Err _ => Err "invalid stored transaction ID"
  | _ => Panic
  end.
Definition transactionOutputFromStored (txid : bytes) (position amount : Z) (script : bytes)
  : res TransactionOutput :=
  if (position <? 0) || (2 ^ 32 - 1 <? position) then Err ErrTransactionOutputOutOfRange
  else if amount <? 0 then Err "stored output amount is negative"
  else
    transactionHash ← transactionHashFromID txid;
    script ← ParseTransactionOutputScript script;
    Ok (MkOutput txid transactionHash (u32 position) (u64 amount) script).

(** On an output that no transaction owns, as the stored ones are:
    [ensureSpendableOutputAttached] checks its ID only. *)
Definition NewSpendInput (output : TransactionOutput) : res TransactionInput :=
  if negb (IsPayPubKeyHash (o_Script output)) then Err ErrUnsupportedSpendOutput
  else if bool_decide (o_TransactionID output = []) then Err ErrUnattachedTransactionOutput
  else
    script ← NewRedeemPubKeyHashInputScript (repeat x00 72) (repeat x00 33);
    Ok (MkInput 0 (o_TransactionHash output) (o_TransactionID output) (o_Position output)
          (2 ^ 32 - 1) [] script (Some output)).

Section estimate.
Context `{Digests}.

Definition transactionCoinSelectionEstimator (row : SpendableOutputRow)
    (policy : TransactionFeePolicy) : res CoinSelectionEstimator :=
  output ← transactionOutputFromStored (TXID row) (OutputPosition row) (RowAmount row) (RowScript row);
  input ← NewSpendInput output;
  fee ← InputFee policy input;
  amount ← transactionBalanceUint64 (o_Amount output);
  effectiveAmount ← subtractTransactionBalanceAmount amount fee;
  Ok (MkEstimator (MkSpendable input effectiveAmount) fee (RowHeight row)).
End estimate.

(** ** Funding *)

(** The database calls funding makes, on a world they change. *)
Class LedgerDatabase (W : Type) := {
  ListSpendableOutputs : W -> bytes -> W * res (list SpendableOutputRow);
  ReserveOutputs : W -> list bytes -> bool -> W * res unit
}.

Section funding.
Context `{Digests} {W : Type} `{LedgerDatabase W} {R : Type} `{CoinSelectionRandom R}.

(** [for _, row := range rows { estimators = append(estimators, ...) }] *)
Definition rowEstimators (policy : TransactionFeePolicy) (rows : list SpendableOutputRow)
  : res (list CoinSelectionEstimator) :=
  foldr (fun row rest => estimator ← transactionCoinSelectionEstimator row policy;
                         rest ← rest; Ok (estimator :: rest)) (Ok []) rows.
Fixpoint accountEstimators (policy : TransactionFeePolicy) (w : W) (accounts : list bytes)
  : W * res (list CoinSelectionEstimator) :=
  match accounts with
  | [] => (w, Ok [])
  | account :: accounts =>
      let '(w, rows) := ListSpendableOutputs w account in
      match (rows ← rows; rowEstimators policy rows) with
      | Ok estimators =>
          let '(w, rest) := accountEstimators policy w accounts in
          (w, rest ← rest; Ok (estimators ++ rest))
      | r => (w, r)
      end
  end.

(** The IDs to reserve. *)
Fixpoint outputIDs (selected : list CoinSelectionEstimator) : res (list bytes) :=
  match selected with
  | [] => Ok []
  | e :: selected =>
      match i_ResolvedOutput (s_Input (e_Spendable e)) with
      | None => Err ErrUnattachedTransactionOutput
      | Some output => ids ← outputIDs selected; Ok (OutputID output :: ids)
      end
  end.

(** [Ledger.GetSpendableTransactionInputs] for the strategies of the coin
    selector: the ledger's fee per byte, the strategy and the generator that
    [NewCoinSelector] seeds are arguments. *)
Definition GetSpendableTransactionInputs (feePerByte : Z) (strategy : string) (random : R)
    (accounts : list bytes) (w : W) (amount : Z) : W * res (list TransactionSpendable) :=
  let policy := LegacyTransactionFeePolicy feePerByte 0 in
  match OutputFee policy (NewPayPubKeyHashOutput TransactionCoin (repeat x00 32)) with
  | Ok costOfChange =>
      let '(w, estimators) := accountEstimators policy w accounts in
      match ('(_, _, selected) ← (estimators ← estimators;
               Select (MkSelector amount costOfChange false 0 random) estimators strategy);
             ids ← outputIDs selected; Ok (selected, ids)) with
      | Ok (selected, ids) =>
          match ids with
          | [] => (w, Ok (map e_Spendable selected))
          | _ =>
              let '(w, reserved) := ReserveOutputs w ids true in
              (w, _ ← reserved; Ok (map e_Spendable selected))
          end
      | Err e => (w, Err e)
      | Panic => (w, Panic)
      | NoFuel => (w, NoFuel)
      end
  | Err e => (w, Err e)
  | Panic => (w, Panic)
  | NoFuel => (w, NoFuel)
  end.

Definition ErrTransactionReservationUnavailable : string := "transaction output reservation is unavailable".
Fixpoint resolvedIDs (inputs : list TransactionInput) : res (list bytes) :=
  match inputs with
  | [] => Ok []
  | input :: inputs =>
      match i_ResolvedOutput input with
      | None => Err ErrTransactionReservationUnavailable
      | Some output => ids ← resolvedIDs inputs; Ok (OutputID output :: ids)
      end
  end.
(** [Ledger.ReleaseTransaction] *)
Definition ReleaseTransaction (w : W) (transaction : Transaction) : W * res unit :=
  match resolvedIDs (t_Inputs transaction) with
  | Ok ids => ReserveOutputs w ids false
  | Err e => (w, Err e)
  | Panic => (w, Panic)
  | NoFuel => (w, NoFuel)
  end.
End funding.

(** ** [CreateTransaction] *)

(** An account: its ID, and the identities of its ledger and wallet, if any. *)
Record Account := MkAccount {
  acc_ID : bytes;
  acc_ledger : option Z;
  acc_wallet : option Z
}.

Definition ErrTransactionFundingLedgerMismatch : string :=
  "All funding accounts used to create a transaction must be on the same ledger.".
Definition ErrTransactionFundingWalletMismatch : string :=
  "All funding accounts used to create a transaction must be from the same wallet.".
Definition ErrTransactionChangeLedgerMismatch : string :=
  "Change account must use same ledger as funding accounts.".
Definition ErrTransactionChangeWalletMismatch : string :=
  "Change account must use same wallet as funding accounts.".
Definition ErrTransactionNoLedger : string := "No ledger found.".
Definition ErrTransactionNoWallet : string := "No wallet found.".
Definition ErrTransactionChangeAccount : string := "transaction change account is unavailable".

Fixpoint fundingLedgerAndWallet (ledger wallet : option Z) (fundingAccounts : list Account)
  : res (option Z * option Z) :=
  match fundingAccounts with
  | [] => Ok (ledger, wallet)
  | account :: fundingAccounts =>
      let '(ledger, wallet) := match ledger with
                               | None => (acc_ledger account, acc_wallet account)
                               | Some _ => (ledger, wallet)
                               end in
      if negb (bool_decide (ledger = acc_ledger account)) then Err ErrTransactionFundingLedgerMismatch
      else if negb (bool_decide (wallet = acc_wallet account)) then Err ErrTransactionFundingWalletMismatch
      else fundingLedgerAndWallet ledger wallet fundingAccounts
  end.
Definition transactionCreateLedgerAndWallet (fundingAccounts : list Account)
    (changeAccount : option Account) : res (Z * Z) :=
  '(ledger, wallet) ← fundingLedgerAndWallet None None fundingAccounts;
  _ ← match changeAccount with
      | None => Ok tt
      | Some account =>
          if negb (bool_decide (acc_ledger account = ledger)) then Err ErrTransactionChangeLedgerMismatch
          else if negb (bool_decide (acc_wallet account = wallet)) then Err ErrTransactionChangeWalletMismatch
          else Ok tt
      end;
  match ledger, wallet with
  | None, _ => Err ErrTransactionNoLedger
  | Some _, None => Err ErrTransactionNoWallet
  | Some ledger, Some wallet => Ok (ledger, wallet)
  end.

Section create.
Context `{Digests} {W : Type} `{LedgerDatabase W} {R : Type} `{CoinSelectionRandom R}.
(** The ledger's settings, [GetOrCreateUsableAddress] of the change account and
    [SignWithAccounts]. *)
Variables (feePerByte feePerNameCharacter : Z) (strategy : string) (random : R).
Variable usableAddress : Account -> W -> W * res bytes.
Variable signWithAccounts : W -> Transaction -> W * Transaction * res unit.

Definition accountOptions (inputs : list TransactionInput) (outputs : list TransactionOutput)
    (fundingAccounts : list Account) (changeAccount : option Account) (sign : bool)
  : TransactionBalanceOptions W :=
  MkOptions inputs outputs
    (Some (fun _ => match transactionCreateLedgerAndWallet fundingAccounts changeAccount with
                    | Err e => Some e
                    | _ => None
                    end))
    (Some (LegacyTransactionFeePolicy feePerByte feePerNameCharacter))
    (Some (GetSpendableTransactionInputs feePerByte strategy random (map acc_ID fundingAccounts)))
    (Some (fun w => match changeAccount with
                    | None => (w, Err ErrTransactionChangeAccount)
                    | Some account => usableAddress account w
                    end))
    (Some (fun w address => (w, match changeAccount with
                                | None => Err ErrTransactionChangeAccount
                                | Some _ => transactionChangeAddressHash address
                                end)))
    (Some signWithAccounts)
    (Some ReleaseTransaction)
    (negb sign).
Definition CreateTransaction (inputs : list TransactionInput) (outputs : list TransactionOutput)
    (fundingAccounts : list Account) (changeAccount : option Account) (sign : bool) (w : W)
  : W * res Transaction :=
  CreateBalancedTransaction (accountOptions inputs outputs fundingAccounts changeAccount sign) w.
End create.

(** ** Addresses resolve to the hash they were made of *)

Section address_theorems.
Context `{Digests}.

Lemma hash_output amount hash :
  length hash = 20%nat ->
  let script := o_Script (NewPayPubKeyHashOutput amount hash) in
  out_Err script = None /\ out_HasPubKeyHash script = true /\ out_PubKeyHash script = hash /\
  IsPayPubKeyHash script = true.
Proof.
  intros Hl. unfold NewPayPubKeyHashOutput, NewPayPubKeyHashOutputScript, GenerateOutputScript,
    generateOutputTemplate, generateTransactionPayPubKeyHash, builderPush, encodeTransactionPushData, blen.
  cbn [out_PubKeyHash out_Template]. rewrite Hl. done.
Qed.

(** Addresses round trip.  On a known network the address of an output to a
    20-byte key hash is the address of that hash, and the three readers of
    addresses (paying to an address, syncing it, resolving a change address)
    get the hash back. *)
Theorem address_roundtrip n amount hash :
  0 <= n < 3 -> length hash = 20%nat ->
  let output := NewPayPubKeyHashOutput amount hash in
  OutputAddress output n = Ok (address n hash) /\
  PayPubKeyHashOutputForAddress amount (address n hash) = Ok output /\
  addressHash160 n (address n hash) = Ok hash /\
  transactionChangeAddressHash (address n hash) = Ok hash.
Proof.
  intros Hn Hl output. pose proof (address_payload n hash Hn) as Hp.
  destruct (hash_output amount hash Hl) as (He & Hf & Hh & _). fold output in He, Hf, Hh.
  assert (String.eqb (NetworkID n) "" = false /\ (Byte.eqb (PubKeyAddressPrefix n) (PubKeyAddressPrefix MainNet)
    || Byte.eqb (PubKeyAddressPrefix n) (PubKeyAddressPrefix TestNet)) = true) as [Hid Hpre].
  { pattern n. by apply (network_cases _ n Hn); vm_compute. }
  split_and!.
  - unfold OutputAddress. rewrite He, Hf, Hh. cbn [mbind res_bind]. by rewrite Hid.
  - unfold PayPubKeyHashOutputForAddress, blen. rewrite Hp. cbn [length]. by rewrite Hl, Hpre.
  - unfold addressHash160, blen. rewrite Hp. cbn [map_err mbind res_bind length]. rewrite Hl.
    by rewrite eqb_byte_refl.
  - unfold DecodeBase58Check in Hp. apply res_bind_Ok in Hp as (decoded & Hd & Hp).
    unfold transactionChangeAddressHash. rewrite Hd. cbn [mbind res_bind].
    destruct (Z.ltb_spec (blen decoded) 4); [done|]. case_match; [|done].
    apply (inj Ok) in Hp. rewrite bool_decide_eq_true in *.
    assert (length decoded = 25%nat) as Hld.
    { pose proof (f_equal length Hp) as E. rewrite length_take in E. cbn [length] in E. unfold blen in *. lia. }
    unfold blen. rewrite Hld in Hp |- *. cbn [Nat.sub] in Hp. by rewrite Hp.
Qed.
End address_theorems.

Lemma address_roundtrip_witness :
  @transactionChangeAddressHash (@address exampleDigests MainNet (repeat x09 20)) = Ok (repeat x09 20).
Proof. apply (@address_roundtrip exampleDigests MainNet 5 (repeat x09 20)); done. Defined.

(** ** The ledger's funding is a spendable selector *)

Section estimators.
Context `{Digests}.
Variable policy : TransactionFeePolicy.

(** An estimator that prices the output its input spends. *)
Definition priced (e : CoinSelectionEstimator) : Prop :=
  InputFee policy (s_Input (e_Spendable e)) = Ok (e_Fee e) /\
  i_ResolvedOutput (s_Input (e_Spendable e)) <> None /\
  amount e = resolvedAmount (s_Input (e_Spendable e)) - e_Fee e.

Lemma estimator_priced row e : transactionCoinSelectionEstimator row policy = Ok e -> priced e.
Proof.
  unfold transactionCoinSelectionEstimator. intros He.
  apply res_bind_Ok in He as (output & _ & He). apply res_bind_Ok in He as (input & Hi & He).
  apply res_bind_Ok in He as (fee & Hfee & He).
  apply res_bind_Ok in He as (a & Ha%checked_Ok & He).
  apply res_bind_Ok in He as (eff & Heff%checked_Ok & He). apply (inj Ok) in He as <-.
  assert (i_ResolvedOutput input = Some output) as Hr.
  { unfold NewSpendInput in Hi. repeat case_match; try done.
    apply res_bind_Ok in Hi as (script & _ & Hi). by apply (inj Ok) in Hi as <-. }
  unfold priced, amount, resolvedAmount. cbn. rewrite Hr. split_and!; [done|done|lia].
Qed.
Lemma rowEstimators_priced rows es : rowEstimators policy rows = Ok es -> Forall priced es.
Proof.
  revert es. induction rows as [|row rows IH]; intros es He; cbn in He.
  - apply (inj Ok) in He as <-. constructor.
  - apply res_bind_Ok in He as (e & Hrow & He). apply res_bind_Ok in He as (rest & Hrest & He).
    apply (inj Ok) in He as <-. constructor; [by eapply estimator_priced|by apply IH].
Qed.
Lemma accountEstimators_priced `{LedgerDatabase W} w accounts w' es :
  accountEstimators policy w accounts = (w', Ok es) -> Forall priced es.
Proof.
  revert w w' es. induction accounts as [|account accounts IH]; intros w w' es He; cbn [accountEstimators] in He.
  - apply pair_equal_spec in He as [_ He]. apply (inj Ok) in He as <-. constructor.
  - destruct (ListSpendableOutputs w account) as [w1 rows].
    destruct (rows ← rows; rowEstimators policy rows) as [here| | |] eqn:Er; [|done..].
    apply res_bind_Ok in Er as (rs & -> & Er). apply rowEstimators_priced in Er.
    destruct (accountEstimators policy w1 accounts) as [w2 rest] eqn:Ea.
    apply pair_equal_spec in He as [_ He]. apply res_bind_Ok in He as (rest' & -> & He).
    apply (inj Ok) in He as <-. apply Forall_app. split; [done|by eapply IH].
Qed.

Lemma priced_effective es :
  Forall priced es ->
  effective (map e_Spendable es) = sumAmounts es /\
  inputFees policy (map s_Input (map e_Spendable es)) (map e_Fee es) /\
  sumAmounts es = sizes resolvedAmount (map s_Input (map e_Spendable es)) - total (map e_Fee es).
Proof.
  induction 1 as [|e es (Hfee & _ & Ha) Hes (IH1 & IH2 & IH3)]; [by split_and!; [|constructor|]|].
  unfold effective, sizes, sumAmounts, inputFees in *. cbn. split_and!; [|by constructor|].
  - unfold amount at 1. lia.
  - rewrite Ha. lia.
Qed.
End estimators.

Section funding_selector.
Context `{Digests} {W : Type} `{LedgerDatabase W} {R : Type} `{CoinSelectionRandom R}.
Variables (feePerByte : Z) (strategy : string) (random : R) (accounts : list bytes).

Definition fundingPolicy : TransactionFeePolicy := LegacyTransactionFeePolicy feePerByte 0.

(** The coins listed are far from overflowing: twice their sum and the cost of
    change fit an [int64].  The supply of the chain is below 2^57. *)
Definition withinSupply : Prop := forall w w' es costOfChange,
  OutputFee fundingPolicy (NewPayPubKeyHashOutput TransactionCoin (repeat x00 32)) = Ok costOfChange ->
  accountEstimators fundingPolicy w accounts = (w', Ok es) ->
  0 <= costOfChange /\ costOfChange + 2 * sumAbs es <= max_i64.

(** A target above what the coins are worth selects nothing; any other fits. *)
Lemma Select_within (selector : CoinSelector R) es selector' es' selection :
  0 <= sel_CostOfChange selector -> sel_CostOfChange selector + 2 * sumAbs es <= max_i64 ->
  0 < sel_Target selector -> Select selector es strategy = Ok (selector', es', selection) ->
  selection ⊆+ es /\ (selection <> [] -> sel_Target selector <= sumAmounts selection).
Proof.
  intros Hc Hb Ht Hs. pose proof (sumAbs_nonneg es) as Hn.
  destruct (decide (sel_Target selector <= sumAbs es)) as [Hle|Hgt].
  - destruct (Select_sound selector es strategy) as [(s & l & sel & E & _ & _ & Hsub & Hsum)|[e E]].
    + unfold fits. lia.
    + rewrite Hs in E. by simplify_eq.
    + by rewrite Hs in E.
  - assert (coinSelectionAvailable es < sel_Target selector) as Hlt.
    { assert (fits 0 0 es) as Hf by (unfold fits; lia).
      rewrite (available_sum _ _ _ Hf). pose proof (sum_le_abs es). lia. }
    unfold Select in Hs. destruct es; [by simplify_eq; split; [apply submseteq_nil_l|]|].
    apply Z.ltb_lt in Hlt. rewrite Hlt in Hs. by simplify_eq; split; [apply submseteq_nil_l|].
Qed.

Lemma GetSpendable_Ok w deficit w' ss :
  withinSupply -> 0 < deficit ->
  GetSpendableTransactionInputs feePerByte strategy random accounts w deficit = (w', Ok ss) ->
  exists selection, ss = map e_Spendable selection /\ Forall (priced fundingPolicy) selection /\
    (selection <> [] -> deficit <= sumAmounts selection).
Proof.
  intros Hsup Hd. unfold GetSpendableTransactionInputs. fold fundingPolicy. intros Hg.
  destruct (OutputFee _ _) as [coc| | |] eqn:Ec; [|done..].
  destruct (accountEstimators fundingPolicy w accounts) as [w1 es] eqn:Ee.
  match type of Hg with match ?m with _ => _ end = _ => destruct m as [[selected ids]| | |] eqn:Es end; [|done..].
  apply res_bind_Ok in Es as ([[sel' es'] selection] & Es & Hids).
  apply res_bind_Ok in Es as (estimators & -> & Es).
  apply res_bind_Ok in Hids as (ids' & _ & Hids). apply (inj Ok) in Hids.
  destruct (Hsup _ _ _ _ Ec Ee) as [? ?]. pose proof (accountEstimators_priced _ _ _ _ _ Ee) as Hp.
  apply Select_within in Es as [Hsub Hsum]; [|done..].
  exists selected. simplify_eq. split_and!.
  - destruct ids; [by simplify_eq|].
    destruct (ReserveOutputs _ _ _) as [w2 [[]| | |]]; cbn in Hg; by simplify_eq.
  - rewrite Forall_forall in Hp |- *. intros e He. apply Hp. by eapply elem_of_submseteq.
  - done.
Qed.

(** The claim name fee plays no part in pricing an input. *)
#[export] Instance funding_selector feePerNameCharacter :
  withinSupply -> SpendableSelector (LegacyTransactionFeePolicy feePerByte feePerNameCharacter)
    (GetSpendableTransactionInputs feePerByte strategy random accounts).
Proof.
  intros Hsup. split.
  - intros w deficit w' ss Hd Hg Hne.
    destruct (GetSpendable_Ok _ _ _ _ Hsup Hd Hg) as (sel & -> & Hp & Hsum).
    destruct (priced_effective _ _ Hp) as (-> & _ & _). apply Hsum. by intros ->.
  - intros w deficit w' ss Hd Hg.
    destruct (GetSpendable_Ok _ _ _ _ Hsup Hd Hg) as (sel & -> & Hp & Hsum).
    destruct (priced_effective _ _ Hp) as (-> & Hf & E). by exists (map e_Fee sel).
Qed.
End funding_selector.

(** ** The ledger's reservations *)

(** What the reservation table promises: listing and reserving add nothing but
    the IDs of a successful reservation, and releasing succeeds. *)
Class ReservingDatabase {W : Type} `{LedgerDatabase W} (reservedID : W -> bytes -> Prop) : Prop := {
  list_reserves w account w' r id :
    ListSpendableOutputs w account = (w', r) -> reservedID w' id -> reservedID w id;
  reserve_reserves w ids w' r id :
    ReserveOutputs w ids true = (w', r) -> reservedID w' id ->
    reservedID w id \/ (r = Ok tt /\ id ∈ ids);
  release_reserves w ids w' r id :
    ReserveOutputs w ids false = (w', r) -> reservedID w' id ->
    r = Ok tt /\ reservedID w id /\ id ∉ ids
}.

Section reserving.
Context `{Digests} {W : Type} `{LedgerDatabase W} {R : Type} `{CoinSelectionRandom R}.
Context (reservedID : W -> bytes -> Prop) `{!ReservingDatabase reservedID}.

Lemma accountEstimators_reserves policy w accounts w' r id :
  accountEstimators policy w accounts = (w', r) -> reservedID w' id -> reservedID w id.
Proof.
  revert w w' r. induction accounts as [|account accounts IH]; intros w w' r He; cbn [accountEstimators] in He.
  { by simplify_eq. }
  destruct (ListSpendableOutputs w account) as [w1 rows] eqn:El.
  assert (reservedID w1 id -> reservedID w id) as Hw1 by (by eapply list_reserves).
  destruct (rows ← rows; rowEstimators policy rows) as [here| | |]; [|by simplify_eq..].
  destruct (accountEstimators policy w1 accounts) as [w2 rest] eqn:Ea. simplify_eq.
  intros Hid. by eapply Hw1, IH.
Qed.

Lemma outputIDs_spends es ids id : outputIDs es = Ok ids -> id ∈ ids -> spends (map s_Input (map e_Spendable es)) id.
Proof.
  revert ids. induction es as [|e es IH]; intros ids Ho Hid; cbn in Ho.
  - apply (inj Ok) in Ho as <-. by apply elem_of_nil in Hid.
  - destruct (i_ResolvedOutput (s_Input (e_Spendable e))) as [o|] eqn:Eo; [|done]. res_inv.
    cbn [map]. change (?x :: ?l) with ([x] ++ l). apply spends_app.
    apply elem_of_cons in Hid as [->|Hid]; [left|right; by eapply IH].
    exists o. split; [|done]. cbn. rewrite Eo. by left.
Qed.
Lemma resolvedIDs_spends inputs :
  resolved inputs -> exists ids, resolvedIDs inputs = Ok ids /\ forall id, spends inputs id -> id ∈ ids.
Proof.
  unfold resolved. induction inputs as [|i inputs IH]; intros Hr; cbn in *.
  - exists []. split; [done|]. intros id (o & Hin & _). by apply elem_of_nil in Hin.
  - apply not_elem_of_cons in Hr as [Hi Hr]. destruct (IH Hr) as (ids & -> & Hids).
    destruct (i_ResolvedOutput i) as [o|] eqn:Eo; [|done]. cbn [mbind res_bind]. eexists. split; [done|].
    intros id (o' & Hin & Hid). cbn [map] in Hin. rewrite Eo in Hin.
    apply elem_of_cons in Hin as [E|Hin]; [|right; apply Hids; by exists o'].
    simplify_eq. by left.
Qed.

Lemma GetSpendable_reserves feePerByte strategy random accounts w amount w' r :
  GetSpendableTransactionInputs feePerByte strategy random accounts w amount = (w', r) ->
  (forall id, reservedID w' id ->
     reservedID w id \/ exists ss, r = Ok ss /\ spends (map s_Input ss) id) /\
  (forall ss, r = Ok ss -> resolved (map s_Input ss)).
Proof.
  unfold GetSpendableTransactionInputs. intros Hg.
  destruct (OutputFee _ _) as [coc| | |]; [|simplify_eq; split; [by auto|done]..].
  destruct (accountEstimators _ w accounts) as [w1 es] eqn:Ee.
  assert (forall id, reservedID w1 id -> reservedID w id) as Hw1.
  { intros id. by eapply accountEstimators_reserves. }
  match type of Hg with match ?m with _ => _ end = _ => destruct m as [[selected ids]| | |] eqn:Es end;
    [|simplify_eq; split; [by auto|done]..].
  apply res_bind_Ok in Es as ([[sel' es'] selection] & _ & Hids). res_inv.
  match goal with H : outputIDs _ = Ok _ |- _ => rename H into Ho end.
  simplify_eq.
  assert (resolved (map s_Input (map e_Spendable selected))) as Hres.
  { clear -Ho. revert ids Ho. unfold resolved. induction selected as [|e l IH]; intros ids Ho; cbn in *;
      [apply not_elem_of_nil|].
    destruct (i_ResolvedOutput _); [|done]. res_inv. apply not_elem_of_cons. split; [done|by eapply IH]. }
  destruct ids as [|id0 ids].
  { simplify_eq. split; [by auto|]. by intros ss [= <-]. }
  destruct (ReserveOutputs w1 (id0 :: ids) true) as [w2 res] eqn:Er. simplify_eq. split.
  - intros id Hid. destruct (reserve_reserves _ _ _ _ _ Er Hid) as [?|[-> Hin]]; [by auto|right].
    eexists. split; [done|]. by eapply outputIDs_spends.
  - intros ss Hss. res_inv. done.
Qed.

(** Creating a transaction from accounts keeps the reservations accounted for,
    when finding a change address and signing leave them alone. *)
#[export] Instance account_reservations feePerByte feePerNameCharacter strategy random
    usableAddress signWithAccounts inputs outputs accounts changeAccount sign :
  (forall account w w' r id,
     usableAddress account w = (w', r) -> reservedID w' id -> reservedID w id) ->
  (forall w t w' t' r id, signWithAccounts w t = (w', t', r) ->
     map i_ResolvedOutput (t_Inputs t') = map i_ResolvedOutput (t_Inputs t) /\
     (reservedID w' id -> reservedID w id)) ->
  Reservations reservedID (accountOptions feePerByte feePerNameCharacter strategy random
    usableAddress signWithAccounts inputs outputs accounts changeAccount sign).
Proof.
  intros Hchange Hsign. split; cbn.
  - intros ? w d w' r id [= <-] Hg. by apply (GetSpendable_reserves _ _ _ _ _ _ _ _ Hg).
  - intros ? w d w' ss [= <-] Hg. by apply (GetSpendable_reserves _ _ _ _ _ _ _ _ Hg).
  - intros ? w w' r id [= <-] Hc. destruct changeAccount; [by eapply Hchange|by simplify_eq].
  - intros ? w a w' r id [= <-] Hc. by simplify_eq.
  - intros ? w t w' t' r id [= <-] Hs. by apply (Hsign _ _ _ _ _ _ Hs).
  - intros ? w t w' r id [= <-] Hr Hres. unfold ReleaseTransaction in Hr.
    destruct (resolvedIDs_spends _ Hres) as (ids & E & Hids). rewrite E in Hr.
    intros Hid. destruct (release_reserves _ _ _ _ _ Hr Hid) as (? & ? & Hn).
    split_and!; auto.
Qed.
End reserving.

(** ** A small ledger *)

Definition exampleHash : bytes := repeat x09 20.
Definition exampleRow (position amount : Z) : SpendableOutputRow :=
  MkRow (hexEncode (repeat x01 32)) (hexEncode (repeat x01 32) ++ lit ":" ++ FormatInt position) [] 10 0
    position true amount (out_Source (o_Script (NewPayPubKeyHashOutput 0 exampleHash))).
#[local] Instance exampleDatabase : LedgerDatabase (list bytes) := {
  ListSpendableOutputs w _ := (w, Ok [exampleRow 0 500000; exampleRow 1 30000000]);
  ReserveOutputs w ids reserve :=
    (if reserve then ids ++ w else List.filter (fun id => bool_decide (id ∉ ids)) w, Ok tt)
}.
#[local] Instance example_reserving : ReservingDatabase (fun (w : list bytes) id => id ∈ w).
Proof.
  split; cbn.
  - intros. by simplify_eq.
  - intros w ids w' r id ? Hid. simplify_eq. apply elem_of_app in Hid. tauto.
  - intros w ids w' r id ? Hid. simplify_eq. apply list_elem_of_In, filter_In in Hid as [Hin Hn].
    apply list_elem_of_In in Hin. by rewrite bool_decide_eq_true in Hn.
Qed.
Definition exampleAccount : Account := MkAccount (lit "account") (Some 1) (Some 2).
Definition exampleOptions (changeAccount : option Account) (price : Z) : TransactionBalanceOptions (list bytes) :=
  let digests := exampleDigests in
  accountOptions 50 200000 "" (newCoinSelectionPythonRandomFromInt 1)
    (fun _ w => (w, Ok (address MainNet exampleHash))) (fun w t => (w, t, Ok tt))
    [] [NewPayPubKeyHashOutput price exampleHash] [exampleAccount] changeAccount true.

Lemma example_supply :
  @withinSupply exampleDigests (list bytes) exampleDatabase 50 [acc_ID exampleAccount].
Proof.
  intros w w' es coc Hc He. vm_compute in Hc. vm_compute in He.
  apply (inj Ok) in Hc. injection He as _ <-. subst coc. vm_compute. split; congruence.
Qed.

#[local] Existing Instance exampleDigests.


