(* ===== verification/Signing.v ===== *)
(** * Signing

    Model of [wallet/keys/signing.go] and [wallet/transaction_signing.go]:
    compact and DER signatures, the preimage of a transaction's inputs, and
    [Transaction.Sign] with its partial mutation.  ECDSA is third-party code:
    [ECDSA] is its interface.  As in [Transaction.v] a resolved output is the
    value the code reads through its pointer and carries the ID and hash of its
    transaction, so [currentTransactionOutput] is the identity; nil receivers
    and contexts are left out. *)

From S2P Require Import Prelude Digest Hex Base58 Keys Script ScriptBuild ScriptRoundtrip Transaction TransactionBuild.

(** ** ECDSA *)

(** [ecdsa.Sign] of a private scalar and a digest of 32 bytes, and
    [Signature.Verify]; a signature is its two scalars. *)
Class ECDSA `{Secp256k1} := {
  ecdsaSign : Z -> bytes -> Z * Z;
  ecdsaVerify : Z * Z -> bytes -> point -> bool;
  sign_range k digest :
    0 < k < groupOrder -> length digest = 32%nat ->
    0 < (ecdsaSign k digest).1 < groupOrder /\ 0 < (ecdsaSign k digest).2 < groupOrder;
  sign_verifies k digest :
    0 < k < groupOrder -> length digest = 32%nat ->
    ecdsaVerify (ecdsaSign k digest) digest (pubKey k) = true
}.

Definition CompactSignatureLength : Z := 64.
Definition ErrInvalidSignatureLength : string := "Signature must be 64 bytes long.".
Definition ErrInvalidDigestLength : string := "Digest must be 32 bytes long.".
Definition ErrInvalidCompactSignature : string :=
  "compact signature scalar is outside the secp256k1 group order".

(** ** DER *)

(** [asn1.Marshal] of a non-negative integer and of the sequence of two. *)
Definition derLength (n : Z) : bytes :=
  if n <? 128 then [byt n] else byt (128 + blen (bigBytes n)) :: bigBytes n.
Definition derInteger (v : Z) : bytes :=
  let content := if v =? 0 then [x00]
                 else match bigBytes v with
                      | b :: l => if 128 <=? Zb b then x00 :: b :: l else b :: l
                      | [] => []
                      end in
  x02 :: derLength (blen content) ++ content.
Definition marshalDER (r s : Z) : bytes :=
  let content := derInteger r ++ derInteger s in
  x30 :: derLength (blen content) ++ content.

Definition serializeCompactSignatureDER (signature : bytes) : res bytes :=
  if negb (blen signature =? CompactSignatureLength) then Err ErrInvalidSignatureLength
  else Ok (marshalDER (be_value (take 32 signature)) (be_value (drop 32 signature))).

(** ** Keys *)

Section keys.
Context `{Digests} `{ECDSA}.

Definition SignCompact (key : PrivateKey) (digest : bytes) : res bytes :=
  if blen digest <? 32 then Err ErrInvalidDigestLength
  else let '(r, s) := ecdsaSign (scalar key) (take 32 digest) in
       Ok (be_bytes 32 r ++ be_bytes 32 s).
Definition SignData (key : PrivateKey) (data : bytes) : res bytes :=
  compact ← SignCompact key (doubleSHA256 data);
  serializeCompactSignatureDER compact.

(** [SetBytes] reports a scalar that is not below the group order. *)
Definition verifyCompactSignature (publicKey : point) (signature digest : bytes) : res bool :=
  if negb (blen signature =? CompactSignatureLength) then Err ErrInvalidSignatureLength
  else if negb (blen digest =? 32) then Err ErrInvalidDigestLength
  else
    let r := be_value (take 32 signature) in
    let s := be_value (drop 32 signature) in
    if (groupOrder <=? r) || (groupOrder <=? s) then Err ErrInvalidCompactSignature
    else Ok (ecdsaVerify (r, s) digest publicKey).
Definition VerificationKeyFromCompressed (publicKey : bytes) : res point :=
  parseCompressedPublicKey publicKey.
Definition VerifyCompactSignature (publicKey signature digest : bytes) : res bool :=
  key ← VerificationKeyFromCompressed publicKey;
  verifyCompactSignature key signature digest.
End keys.

(** ** Preimages *)

Definition TransactionSigHashAll : Z := 1.
Definition ErrTransactionSigning (what : string) : string :=
  ("wallet transaction signing failed" ++ what)%string.
Definition ErrTransactionSigningKeyUnavailable : string := "transaction signing key is unavailable".
Definition ErrUnattachedOutput : string := "transaction output is not attached to a transaction".
Definition ErrUnsupportedOutput : string := "attempting to spend unsupported transaction output".

(** The zero script; an empty source stands for a nil one. *)
Definition scriptUnavailable (script : TransactionInputScript) : bool :=
  String.eqb (in_Template script) "" && bool_decide (in_Source script = []) && noErr (in_Err script).

Definition signingPreviousReference (input : TransactionInput) : bytes * Z :=
  match i_ResolvedOutput input with
  | None => (i_PreviousHash input, i_PreviousIndex input)
  | Some output => (o_TransactionHash output, o_Position output)
  end.

Definition signatureScriptSource (input : TransactionInput) : res bytes :=
  let script := i_Script input in
  if scriptUnavailable script then Err (ErrTransactionSigning ": script is unavailable")
  else match in_Err script with
  | Some e => Err (ErrTransactionSigning (": script: " ++ e))
  | None =>
      if String.prefix "script_hash+" (in_Template script) then
        match in_Script script with
        | None => Err (ErrTransactionSigning ": redeem script is unavailable")
        | Some subscript => Ok (sub_Source subscript)
        end
      else match i_ResolvedOutput input with
      | None => Err (ErrTransactionSigning (": " ++ ErrUnattachedOutput))
      | Some output => Ok (out_Source (o_Script output))
      end
  end.

Definition serializeSigningOutputs (t : Transaction) : bytes :=
  compactSize (blen (t_Outputs t)) ++ flat_map serializeOutput (t_Outputs t).

(** [for index := range transaction.Inputs] *)
Fixpoint preimageInputs (inputIndex index : Z) (inputs : list TransactionInput) : res bytes :=
  match inputs with
  | [] => Ok []
  | input :: inputs =>
      let '(previousHash, previousIndex) := signingPreviousReference input in
      scriptSource ← (if index =? inputIndex then signatureScriptSource input else Ok []);
      rest ← preimageInputs inputIndex (index + 1) inputs;
      Ok (previousHash ++ le_bytes 4 previousIndex ++ varBytes scriptSource ++
          le_bytes 4 (i_Sequence input) ++ rest)
  end.
Definition signaturePreimage (t : Transaction) (inputIndex : Z) (serializedOutputs : bytes) : res bytes :=
  inputs ← preimageInputs inputIndex 0 (t_Inputs t);
  Ok (le_bytes 4 (t_Version t) ++ compactSize (blen (t_Inputs t)) ++ inputs ++
      serializedOutputs ++ le_bytes 4 (t_LockTime t) ++ le_bytes 4 TransactionSigHashAll).
Definition SignaturePreimage (t : Transaction) (inputIndex : Z) : res bytes :=
  signaturePreimage t inputIndex (serializeSigningOutputs t).
Definition SignatureDigest `{Digests} (t : Transaction) (inputIndex : Z) : res bytes :=
  preimage ← SignaturePreimage t inputIndex; Ok (doubleSHA256 preimage).

(** ** [Transaction.Sign] *)

Definition withScript (input : TransactionInput) (script : TransactionInputScript) : TransactionInput :=
  MkInput (i_Position input) (i_PreviousHash input) (i_PreviousTxID input) (i_PreviousIndex input)
    (i_Sequence input) (i_Coinbase input) script (i_ResolvedOutput input).
Definition setInput (t : Transaction) (index : nat) (input : TransactionInput) : Transaction :=
  withDerived t (t_Raw t) (t_RawSansSegWit t) (t_Hash t) (t_ID t) (<[index := input]> (t_Inputs t)) (t_Outputs t).
(** The script with a new signature and public key, before it is generated. *)
Definition withSignature (script : TransactionInputScript) (signature publicKey : bytes)
  : TransactionInputScript :=
  MkInputScript (in_Source script) (in_Template script) signature publicKey (in_Signatures script)
    (in_Script script) (in_Err script).

(** The checks on an input before its key is asked for; the resolved output. *)
Definition signableOutput (input : TransactionInput) : res TransactionOutput :=
  if scriptUnavailable (i_Script input) then Err (ErrTransactionSigning ": script is unavailable")
  else match i_ResolvedOutput input with
  | None => Err (ErrTransactionSigning (": " ++ ErrUnattachedOutput))
  | Some output =>
      match out_Err (o_Script output) with
      | Some e => Err (ErrTransactionSigning (": resolved output script: " ++ e))
      | None =>
          if negb (IsPayPubKeyHash (o_Script output)) && negb (IsPayScriptHash (o_Script output))
          then Err (ErrTransactionSigning (": " ++ ErrUnsupportedOutput))
          else Ok output
      end
  end.

Section sign.
Context `{Digests} `{ECDSA} {W : Type}.

(** [TransactionSigningKeyProvider], on a world it may change. *)
Definition TransactionSigningKeyProvider : Type :=
  W -> nat -> TransactionInput -> TransactionOutput -> W * res (option PrivateKey).
Variable keyProvider : option TransactionSigningKeyProvider.

Definition provideKey (w : W) (index : nat) (input : TransactionInput) : W * res PrivateKey :=
  match signableOutput input with
  | Ok output =>
      match keyProvider with
      | None => (w, Err (ErrTransactionSigning (": " ++ ErrTransactionSigningKeyUnavailable)))
      | Some provider =>
          let '(w, key) := provider w index input output in
          (w, key ← map_err (fun e => ErrTransactionSigning (": key provider: " ++ e)) key;
              match key with
              | None => Err (ErrTransactionSigning (": " ++ ErrTransactionSigningKeyUnavailable))
              | Some key => Ok key
              end)
      end
  | Err e => (w, Err e)
  | Panic => (w, Panic)
  | NoFuel => (w, NoFuel)
  end.

(** The body of the loop for the input at [index]: the signature and the public
    key stay in the script when its generation fails. *)
Definition signWithKey (serializedOutputs : bytes) (t : Transaction) (index : nat) (input : TransactionInput)
    (key : PrivateKey) : Transaction * res unit :=
  match (preimage ← signaturePreimage t (Z.of_nat index) serializedOutputs;
         map_err (fun e => ErrTransactionSigning (": private key: " ++ e)) (SignData key preimage)) with
  | Ok signature =>
      let script := withSignature (i_Script input) (signature ++ [byt TransactionSigHashAll])
                      (CompressedBytes (publicKey key)) in
      match GenerateInputScript script with
      | Ok script => (setInput t index (withScript input script), Ok tt)
      | Err e => (setInput t index (withScript input script), Err (ErrTransactionSigning (": script: " ++ e)))
      | Panic => (t, Panic)
      | NoFuel => (t, NoFuel)
      end
  | Err e => (t, Err e)
  | Panic => (t, Panic)
  | NoFuel => (t, NoFuel)
  end.
Definition signInput (serializedOutputs : bytes) (w : W) (t : Transaction) (index : nat)
  : W * Transaction * res unit :=
  match t_Inputs t !! index with
  | None => (w, t, Panic)
  | Some input =>
      let '(w, key) := provideKey w index input in
      match key with
      | Ok key => let '(t, outcome) := signWithKey serializedOutputs t index input key in (w, t, outcome)
      | Err e => (w, t, Err e)
      | Panic => (w, t, Panic)
      | NoFuel => (w, t, NoFuel)
      end
  end.
(** [for index := range transaction.Inputs]; nothing changes the outputs on the
    way, so they are serialized once. *)
Fixpoint signLoop (serializedOutputs : bytes) (remaining : nat) (w : W) (t : Transaction) (index : nat)
  : W * Transaction * res unit :=
  match remaining with
  | O => (w, t, Ok tt)
  | S remaining =>
      match signInput serializedOutputs w t index with
      | (w, t, Ok _) => signLoop serializedOutputs remaining w t (S index)
      | failed => failed
      end
  end.
Definition Sign (w : W) (t : Transaction) : W * Transaction * res unit :=
  let t := ResetDerived t in
  match signLoop (serializeSigningOutputs t) (length (t_Inputs t)) w t 0 with
  | (w, t, Ok _) =>
      let t := ResetDerived t in
      match RebuildDerived t with
      | Ok t => (w, t, Ok tt)
      | Err e => (w, t, Err (ErrTransactionSigning (": rebuild transaction: " ++ e)))
      | Panic => (w, t, Panic)
      | NoFuel => (w, t, NoFuel)
      end
  | failed => failed
  end.
End sign.

(** ** What a signature is worth

    The reference the signed inputs are held against: the strict DER of two
    scalars, read back, and the check of a signature for an input. *)

Definition readInteger (l : bytes) : option (Z * bytes) :=
  match l with
  | x02 :: n :: l =>
      let content := take (Z.to_nat (Zb n)) l in
      let minimal := match content with
                     | [] => false
                     | [b] => Zb b <? 128
                     | b :: c :: _ => (Zb b <? 128) && negb ((Zb b =? 0) && (Zb c <? 128))
                     end in
      if (Zb n <? 128) && (Zb n <=? blen l) && minimal
      then Some (be_value content, drop (Z.to_nat (Zb n)) l) else None
  | _ => None
  end.
Definition readDER (l : bytes) : option (Z * Z) :=
  match l with
  | x30 :: n :: l =>
      if (Zb n <? 128) && (Zb n =? blen l) then
        '(r, l) ← readInteger l; '(s, l) ← readInteger l;
        match l with [] => Some (r, s) | _ => None end
      else None
  | _ => None
  end.

(** ** The encodings read back *)

Lemma byteLength_bound v n : 0 <= v < 256 ^ Z.of_nat n -> (byteLength v <= n)%nat.
Proof.
  intros [Hv Hb]. unfold byteLength. destruct (Z.leb_spec v 0); [lia|].
  assert (Z.log2 v < 8 * Z.of_nat n) as Hl.
  { apply Z.log2_lt_pow2; [done|]. rewrite Z.pow_mul_r by lia. exact Hb. }
  pose proof (Z.div_lt_upper_bound (Z.log2 v) 8 (Z.of_nat n) ltac:(lia) ltac:(lia)). lia.
Qed.
Lemma be_value_bigBytes v : 0 <= v -> be_value (bigBytes v) = v.
Proof.
  intros Hv. unfold bigBytes. apply be_value_bytes_id. split; [done|].
  unfold byteLength. destruct (Z.leb_spec v 0); [assert (v = 0) as -> by lia; done|].
  pose proof (Z.log2_nonneg v). pose proof (Z.div_pos (Z.log2 v) 8 ltac:(done) ltac:(lia)).
  rewrite Z2Nat.id by lia. change 256 with (2 ^ 8). rewrite <- Z.pow_mul_r by lia.
  apply Z.log2_lt_pow2; [lia|]. pose proof (Z.div_mod (Z.log2 v) 8 ltac:(done)).
  pose proof (Z.mod_pos_bound (Z.log2 v) 8 ltac:(done)). lia.
Qed.
Lemma bigBytes_head v : 0 < v -> exists b l, bigBytes v = b :: l /\ Zb b <> 0.
Proof.
  intros Hv. pose proof (be_value_bigBytes v ltac:(lia)) as Hval.
  destruct (bigBytes v) as [|b l] eqn:E; [cbn in Hval; lia|]. exists b, l. split; [done|]. intros Hz.
  rewrite be_value_cons, Hz in Hval. pose proof (be_value_range l) as [_ Hl].
  assert (length (b :: l) = byteLength v) as Hlen by (rewrite <- E; unfold bigBytes; apply length_be_bytes).
  cbn [length] in Hlen. unfold blen in Hl.
  assert (v < 256 ^ Z.of_nat (length l)) as Hb by lia.
  pose proof (byteLength_bound v (length l) ltac:(lia)). lia.
Qed.

Lemma readInteger_derInteger v rest :
  0 <= v < 2 ^ 256 -> readInteger (derInteger v ++ rest) = Some (v, rest) /\ blen (derInteger v) <= 35.
Proof.
  intros Hv. pose proof (byteLength_bound v 32 ltac:(exact Hv)) as Hlen.
  pose proof (be_value_bigBytes v ltac:(lia)) as Hval.
  set (content := if v =? 0 then [x00] else match bigBytes v with
                  | b :: l => if 128 <=? Zb b then x00 :: b :: l else b :: l
                  | [] => [] end).
  assert (1 <= blen content <= 33 /\ be_value content = v /\
    match content with
    | [] => false | [b] => Zb b <? 128
    | b :: c :: _ => (Zb b <? 128) && negb ((Zb b =? 0) && (Zb c <? 128)) end = true) as (Hc & Hb & Hm).
  { subst content. destruct (Z.eqb_spec v 0) as [->|Hnz]; [done|].
    destruct (bigBytes_head v ltac:(lia)) as (b & l & E & Hb).
    assert (length (b :: l) <= 32)%nat as Hl by (rewrite <- E; unfold bigBytes; by rewrite length_be_bytes).
    rewrite E in *. pose proof (Zb_range b). unfold blen. cbn [length] in *.
    destruct (Z.leb_spec 128 (Zb b)); cbn [length].
    - split; [lia|]. split; [by rewrite be_value_cons|].
      change (Zb x00) with 0. cbn [Z.ltb Z.eqb andb]. by destruct (Z.ltb_spec (Zb b) 128); [lia|].
    - split; [lia|]. split; [done|]. destruct (Z.ltb_spec (Zb b) 128); [|lia].
      destruct l; [done|]. by destruct (Z.eqb_spec (Zb b) 0). }
  unfold derInteger. fold content. unfold derLength. destruct (Z.ltb_spec (blen content) 128); [|lia].
  cbn [app readInteger]. rewrite Zb_byt_id by lia. split; [|rewrite !blen_cons; lia].
  rewrite take_app_at, drop_app_at by (unfold blen; lia). rewrite Hm, blen_app.
  pose proof (blen_nonneg rest). destruct (Z.ltb_spec (blen content) 128); [|lia].
  destruct (Z.leb_spec (blen content) (blen content + blen rest)); [|lia]. cbn [andb]. by rewrite Hb.
Qed.
Lemma readDER_marshal r s :
  0 <= r < 2 ^ 256 -> 0 <= s < 2 ^ 256 -> readDER (marshalDER r s) = Some (r, s).
Proof.
  intros Hr Hs. unfold marshalDER.
  destruct (readInteger_derInteger r (derInteger s) Hr) as [Er Lr].
  destruct (readInteger_derInteger s [] Hs) as [Es Ls]. rewrite app_nil_r in Es.
  unfold derLength at 1. rewrite blen_app.
  destruct (Z.ltb_spec (blen (derInteger r) + blen (derInteger s)) 128); [|lia].
  pose proof (blen_nonneg (derInteger r)). pose proof (blen_nonneg (derInteger s)).
  cbn [app readDER]. rewrite Zb_byt_id, blen_app, Z.eqb_refl by lia.
  destruct (Z.ltb_spec (blen (derInteger r) + blen (derInteger s)) 128); [|lia]. cbn [andb].
  rewrite Er. cbn [mbind option_bind]. by rewrite Es.
Qed.

Section signatures.
Context `{Digests} `{ECDSA}.

Lemma doubleSHA256_32 m : length (doubleSHA256 m) = 32%nat.
Proof. apply sha256_length. Qed.

(** The compact signature of a digest verifies under the compressed public key. *)
Lemma SignCompact_verifies key digest :
  validPriv key -> length digest = 32%nat ->
  exists r s, 0 <= r < 2 ^ 256 /\ 0 <= s < 2 ^ 256 /\
    SignCompact key digest = Ok (be_bytes 32 r ++ be_bytes 32 s) /\
    VerifyCompactSignature (CompressedBytes (publicKey key)) (be_bytes 32 r ++ be_bytes 32 s) digest = Ok true.
Proof.
  intros [_ Hk] Hd. destruct (sign_range (scalar key) digest Hk Hd) as [Hr Hs].
  pose proof (sign_verifies (scalar key) digest Hk Hd) as Hv.
  unfold SignCompact, blen. rewrite Hd. rewrite take_ge by lia.
  destruct (ecdsaSign (scalar key) digest) as [r s]. cbn [fst snd] in *. exists r, s.
  assert (groupOrder < 2 ^ 256) by done.
  split_and!; [lia..|done|]. unfold VerifyCompactSignature, VerificationKeyFromCompressed.
  assert (parseCompressedPublicKey (CompressedBytes (publicKey key)) = Ok (pubKey (scalar key))) as ->.
  { unfold CompressedBytes. rewrite pointOf_public. unfold parseCompressedPublicKey, blen.
    rewrite compressed_length. destruct (compressed_prefix (pubKey (scalar key))) as (b & l & E & Hb).
    rewrite E at 1. pose proof (parse_compressed (pubKey (scalar key))) as Hp.
    destruct Hb as [-> | ->]; cbn; by rewrite Hp. }
  cbn [mbind res_bind]. unfold verifyCompactSignature. unfold blen. rewrite length_app, !length_be_bytes, Hd.
  change (negb (Z.of_nat (32 + 32) =? CompactSignatureLength)) with false. cbn iota.
  change (negb (Z.of_nat 32 =? 32)) with false. cbn iota.
  rewrite take_app_at, drop_app_at by (by rewrite length_be_bytes).
  rewrite !be_value_bytes_id by (split; [lia|]; change (256 ^ Z.of_nat 32) with (2 ^ 256); lia).
  destruct (Z.leb_spec groupOrder r); [lia|]. destruct (Z.leb_spec groupOrder s); [lia|]. cbn [orb]. by rewrite Hv.
Qed.

(** A valid signature of a message, in the form a script carries it. *)
Definition signs (publicKey message signature : bytes) : Prop :=
  exists r s, readDER signature = Some (r, s) /\ 0 <= r < 2 ^ 256 /\ 0 <= s < 2 ^ 256 /\
    VerifyCompactSignature publicKey (be_bytes 32 r ++ be_bytes 32 s) (doubleSHA256 message) = Ok true.
Lemma SignData_signs key data :
  validPriv key ->
  exists signature, SignData key data = Ok signature /\ signs (CompressedBytes (publicKey key)) data signature.
Proof.
  intros Hk. destruct (SignCompact_verifies key (doubleSHA256 data) Hk (doubleSHA256_32 _))
    as (r & s & Hr & Hs & E & Hv).
  exists (marshalDER r s). split.
  - unfold SignData. rewrite E. cbn [mbind res_bind]. unfold serializeCompactSignatureDER, blen.
    rewrite length_app, !length_be_bytes. change (negb (Z.of_nat (32 + 32) =? CompactSignatureLength)) with false.
    cbn iota. rewrite take_app_at, drop_app_at by (by rewrite length_be_bytes).
    by rewrite !be_value_bytes_id by (split; [lia|]; change (256 ^ Z.of_nat 32) with (2 ^ 256); lia).
  - exists r, s. split_and!; try lia; [by apply readDER_marshal|done].
Qed.
End signatures.

(** ** What signing an input leaves alone *)

(** The part of an input that the preimages and the choice of a key read. *)
Definition core (input : TransactionInput)
  : (bytes * Z) * Z * option TransactionOutput * string * option TransactionInputSubscript :=
  (signingPreviousReference input, i_Sequence input, i_ResolvedOutput input,
   in_Template (i_Script input), in_Script (i_Script input)).
Definition view (t : Transaction) := (t_Version t, t_LockTime t, map core (t_Inputs t)).
Definition payments (t : Transaction) : list (Z * TransactionOutputScript) :=
  map (fun o => (o_Amount o, o_Script o)) (t_Outputs t).

Lemma core_fields i i' :
  core i = core i' -> signingPreviousReference i = signingPreviousReference i' /\ i_Sequence i = i_Sequence i' /\
    i_ResolvedOutput i = i_ResolvedOutput i'.
Proof. unfold core. intros [= ? ? ? ? ?]. done. Qed.
Lemma preimageInputs_core inputs inputs' idx index :
  map core inputs = map core inputs' ->
  (forall k i i', inputs !! k = Some i -> inputs' !! k = Some i' -> index + Z.of_nat k = idx ->
     signatureScriptSource i = signatureScriptSource i') ->
  preimageInputs idx index inputs = preimageInputs idx index inputs'.
Proof.
  revert inputs' index. induction inputs as [|i inputs IH]; intros [|i' inputs'] index Hm Hs; try done.
  cbn [map] in Hm. injection Hm as Hc1 Hc2 Hc3 Hc4 Hc5 Hm.
  assert (core i = core i') as Hc by (unfold core; congruence). apply core_fields in Hc as (Hr & Hq & _).
  cbn [preimageInputs]. rewrite Hr, Hq. rewrite (IH inputs'); [|done|].
  - destruct (Z.eqb_spec index idx); [by rewrite (Hs 0%nat i i') by (done || lia)|done].
  - intros k j j' Hj Hj' Hk. apply (Hs (S k)); [done..|lia].
Qed.
Lemma signaturePreimage_view t t' k outs :
  view t = view t' ->
  (forall i i', t_Inputs t !! k = Some i -> t_Inputs t' !! k = Some i' ->
     signatureScriptSource i = signatureScriptSource i') ->
  signaturePreimage t (Z.of_nat k) outs = signaturePreimage t' (Z.of_nat k) outs.
Proof.
  unfold view, signaturePreimage. intros Hv Hs. injection Hv as Hversion Hlock Hm.
  assert (blen (t_Inputs t) = blen (t_Inputs t')) as Hl.
  { unfold blen. rewrite <- (length_map core (t_Inputs t)), Hm. by rewrite length_map. }
  rewrite Hversion, Hlock, Hl. rewrite (preimageInputs_core _ (t_Inputs t')); [done..|].
  intros k' i i' Hi Hi' E. assert (k' = k) as -> by lia. by apply Hs.
Qed.

Lemma serializeSigningOutputs_payments t t' :
  payments t = payments t' -> serializeSigningOutputs t = serializeSigningOutputs t'.
Proof.
  unfold payments, serializeSigningOutputs. intros Hm.
  assert (blen (t_Outputs t) = blen (t_Outputs t')) as ->.
  { unfold blen. f_equal. by apply (f_equal length) in Hm; rewrite !length_map in Hm. }
  f_equal. revert Hm. generalize (t_Outputs t) (t_Outputs t'). intros l.
  induction l as [|o l IH]; intros [|o' l'] Hm; try done. cbn [map] in Hm. injection Hm as Ha Hs Hm.
  cbn [flat_map]. rewrite (IH l' Hm). unfold serializeOutput. by rewrite Ha, Hs.
Qed.

Lemma core_refreshInput k i : core (refreshInput k i) = core i.
Proof. destruct i as [??????? [o|]]; done. Qed.
Lemma payments_reset t : payments (ResetDerived t) = payments t.
Proof. unfold payments. cbn. rewrite map_map. done. Qed.
Lemma map_core_insert l k i i' : l !! k = Some i -> core i' = core i -> map core (<[k := i']> l) = map core l.
Proof.
  intros Hi Hc. change (map core) with (fmap (M := list) core). rewrite list_fmap_insert, Hc.
  apply list_insert_id. by rewrite list_lookup_fmap, Hi.
Qed.

Lemma builderPush_returns b d : returns (builderPush b d).
Proof. unfold builderPush, encodeTransactionPushData. by repeat case_match. Qed.
Lemma builderPushAll_returns b ds : returns (builderPushAll b ds).
Proof. revert b. induction ds as [|d ds IH]; intros b; [done|]. apply returns_bind; [apply builderPush_returns|auto]. Qed.
Lemma GenerateInputScript_returns s : returns (GenerateInputScript s).
Proof.
  unfold GenerateInputScript. apply returns_bind; [|done]. unfold generateInputSource.
  repeat case_match; try done;
    repeat first [apply builderPush_returns | apply builderPushAll_returns | apply returns_bind; [|intros]].
Qed.
Lemma GenerateInputScript_fields s s' :
  GenerateInputScript s = Ok s' ->
  in_Template s' = in_Template s /\ in_Signature s' = in_Signature s /\ in_PublicKey s' = in_PublicKey s /\
  in_Script s' = in_Script s /\ in_Err s' = None /\ in_Template s' <> ""%string /\ GenerateInputScript s' = Ok s'.
Proof.
  unfold GenerateInputScript. intros H. apply res_bind_Ok in H as (source & Hs & H). injection H as <-.
  split_and!; try done; [intros E; unfold generateInputSource in Hs; cbn in E; by rewrite E in Hs|].
  unfold generateInputSource in *. cbn [in_Template in_Signature in_PublicKey in_Signatures in_Script].
  by rewrite Hs.
Qed.
(** A signed script gives the preimage the source that the unsigned one gave. *)
Lemma signatureScriptSource_signed i src s :
  signatureScriptSource i = Ok src ->
  in_Template s = in_Template (i_Script i) -> in_Script s = in_Script (i_Script i) ->
  in_Err s = None -> in_Template s <> ""%string -> signatureScriptSource (withScript i s) = Ok src.
Proof.
  unfold signatureScriptSource, scriptUnavailable. cbn [withScript i_Script i_ResolvedOutput].
  intros Hsrc -> -> -> Hne. apply String.eqb_neq in Hne. rewrite Hne in *. cbn [andb] in *.
  by destruct (in_Err (i_Script i)).
Qed.
Lemma preimageInputs_source idx index inputs rest i k :
  preimageInputs idx index inputs = Ok rest -> inputs !! k = Some i -> index + Z.of_nat k = idx ->
  exists src, signatureScriptSource i = Ok src.
Proof.
  revert index rest k. induction inputs as [|j inputs IH]; intros index rest k Hp Hi Hk; [done|].
  cbn [preimageInputs] in Hp. destruct (signingPreviousReference j).
  apply res_bind_Ok in Hp as (src & Hsrc & Hp). apply res_bind_Ok in Hp as (rest' & Hrest & _).
  destruct k as [|k].
  - injection Hi as ->. replace (index + Z.of_nat 0) with index in Hk by lia. rewrite Hk, Z.eqb_refl in Hsrc. by exists src.
  - apply (IH (index + 1) rest' k); [done..|lia].
Qed.
Lemma signatureScriptSource_returns i : returns (signatureScriptSource i).
Proof. unfold signatureScriptSource. by repeat case_match. Qed.
Lemma signaturePreimage_returns t k outs : returns (signaturePreimage t k outs).
Proof.
  unfold signaturePreimage. apply returns_bind; [|done]. generalize 0, (t_Inputs t). intros index inputs.
  revert index. induction inputs as [|i inputs IH]; intros index; [done|]. cbn [preimageInputs].
  destruct (signingPreviousReference i). apply returns_bind; [|intros; apply returns_bind; [apply IH|done]].
  destruct (_ =? _); [apply signatureScriptSource_returns|done].
Qed.

(** ** The loop *)

Section loop.
Context `{Digests} `{ECDSA} {W : Type}.
Variable provider : TransactionSigningKeyProvider (W := W).
(** In the worlds of [invariant], which the provider keeps, it returns, and the
    keys it gives are keys. *)
Variable invariant : W -> Prop.
Definition honestProvider : Prop := forall w k input output, invariant w ->
  invariant (provider w k input output).1 /\ returns (provider w k input output).2 /\
  forall key, (provider w k input output).2 = Ok (Some key) -> validPriv key.
Hypothesis honest : honestProvider.

(** The input [k] is signed for the transaction it is in, with a key that the
    provider gave for it. *)
Definition signedAt (outs : bytes) (t : Transaction) (k : nat) : Prop :=
  exists input unsigned output key w w' preimage signature,
    t_Inputs t !! k = Some input /\ core unsigned = core input /\ signableOutput unsigned = Ok output /\
    invariant w /\ provider w k unsigned output = (w', Ok (Some key)) /\
    signaturePreimage t (Z.of_nat k) outs = Ok preimage /\
    in_Signature (i_Script input) = signature ++ [byt TransactionSigHashAll] /\
    in_PublicKey (i_Script input) = CompressedBytes (publicKey key) /\
    GenerateInputScript (i_Script input) = Ok (i_Script input) /\
    signs (CompressedBytes (publicKey key)) preimage signature.

Lemma signedAt_view outs t t' k :
  view t = view t' -> (forall i, t_Inputs t !! k = Some i -> exists i', t_Inputs t' !! k = Some i' /\ i_Script i' = i_Script i) ->
  signedAt outs t k -> signedAt outs t' k.
Proof.
  intros Hv Hk (i & u & o & key & w & w' & p & s & Hi & Hu & Ho & Hinv & Hw & Hp & Hs & Hkey & Hg & Hsign).
  destruct (Hk i Hi) as (i' & Hi' & Escript).
  assert (core i = core i') as Hc.
  { unfold view in Hv. injection Hv as _ _ Hm.
    assert (map core (t_Inputs t) !! k = Some (core i)) as Hx by (rewrite (list_lookup_fmap core), Hi; done).
    rewrite Hm, (list_lookup_fmap core), Hi' in Hx. apply (inj Some) in Hx. by symmetry. }
  exists i', u, o, key, w, w', p, s. rewrite Escript. split_and!; try done; [by rewrite Hu|].
  rewrite <- Hp. symmetry. apply signaturePreimage_view; [done|]. intros j j' Hj Hj'.
  rewrite Hi in Hj. rewrite Hi' in Hj'. injection Hj as <-. injection Hj' as <-.
  apply core_fields in Hc as (_ & _ & Hr). unfold signatureScriptSource. by rewrite Escript, Hr.
Qed.

Lemma signableOutput_returns i : returns (signableOutput i).
Proof. unfold signableOutput. by repeat case_match. Qed.
Lemma provideKey_spec w k input w' r :
  invariant w -> provideKey (Some provider) w k input = (w', r) ->
  invariant w' /\ returns r /\ forall key, r = Ok key -> validPriv key /\
    exists output w1, signableOutput input = Ok output /\ provider w k input output = (w1, Ok (Some key)).
Proof.
  intros Hw. unfold provideKey. pose proof (signableOutput_returns input) as Hr.
  destruct (signableOutput input) as [o| | |]; [|intros [= <- <-]; done|done..].
  destruct (provider w k input o) as [w1 kr] eqn:E. destruct (honest w k input o Hw) as (Hkept & Hret & Hval).
  rewrite E in Hkept, Hret, Hval. cbn [fst snd] in *. intros [= <- <-]. split; [done|].
  split; [apply returns_bind; [by apply returns_map_err|intros [|]; done]|].
  intros key Hk. apply res_bind_Ok in Hk as (okey & Hm & Hk). apply map_err_Ok in Hm as ->.
  destruct okey as [key'|]; [|done]. injection Hk as <-. split; [by apply Hval|]. by exists o, w1.
Qed.

Lemma setInput_view t k i i' : t_Inputs t !! k = Some i -> core i' = core i -> view (setInput t k i') = view t.
Proof. intros Hi Hc. unfold view. cbn. by rewrite (map_core_insert _ _ i). Qed.

(** Signing one input, with a key or without: the payload of the transaction,
    its caches and the other inputs stay; on success the input is signed. *)
Lemma signInput_spec outs w t k w' t' r :
  invariant w -> (k < length (t_Inputs t))%nat -> signInput (Some provider) outs w t k = (w', t', r) ->
  invariant w' /\ returns r /\ view t' = view t /\ t_Outputs t' = t_Outputs t /\ t_Raw t' = t_Raw t /\ t_ID t' = t_ID t /\
  (forall j, j <> k -> t_Inputs t' !! j = t_Inputs t !! j) /\ (r = Ok tt -> signedAt outs t' k).
Proof.
  intros Hw Hk. unfold signInput. destruct (t_Inputs t !! k) as [input|] eqn:Hi;
    [|apply lookup_ge_None in Hi; lia].
  destruct (provideKey (Some provider) w k input) as [w1 kr] eqn:Ekey.
  destruct (provideKey_spec _ _ _ _ _ Hw Ekey) as (Hkept & Hret & Hkey).
  destruct kr as [key|e| |]; [|intros [= <- <- <-]; done|done..].
  destruct (Hkey key eq_refl) as (Hvalid & o & w3 & Ho & Hprov).
  unfold signWithKey. pose proof (signaturePreimage_returns t (Z.of_nat k) outs) as Hpr.
  destruct (signaturePreimage t (Z.of_nat k) outs) as [preimage| | |] eqn:Ep; [|intros [= <- <- <-]; done|done..].
  cbn [mbind res_bind]. destruct (SignData_signs key preimage Hvalid) as (signature & -> & Hsign). cbn [map_err].
  set (script := withSignature (i_Script input) _ _).
  pose proof (GenerateInputScript_returns script) as Hgr.
  assert (forall s, in_Template s = in_Template (i_Script input) -> in_Script s = in_Script (i_Script input) ->
    core (withScript input s) = core input) as Hcore by (intros s E1 E2; unfold core; cbn; by rewrite E1, E2).
  destruct (GenerateInputScript script) as [generated|e| |] eqn:Eg; try done; intros [= <- <- <-].
  - destruct (GenerateInputScript_fields _ _ Eg) as (Et & Esig & Epk & Esub & Eerr & Hne & Hfix).
    assert (view (setInput t k (withScript input generated)) = view t) as Hview
      by (apply (setInput_view _ _ input); [done|by apply Hcore]).
    split_and!; try done; [intros j Hj; cbn; by rewrite list_lookup_insert_ne|intros _].
    exists (withScript input generated), input, o, key, w, w3, preimage, signature.
    split_and!; try done; [cbn; by rewrite list_lookup_insert, decide_True by done|symmetry; by apply Hcore|].
    rewrite <- Ep. apply signaturePreimage_view; [done|]. cbn. intros i i' Hi1 Hi2.
    rewrite list_lookup_insert, decide_True in Hi1 by done. injection Hi1 as <-.
    rewrite Hi in Hi2. injection Hi2 as <-. apply res_bind_Ok in Ep as (rest & Erest & _).
    destruct (preimageInputs_source _ _ _ _ _ _ Erest Hi ltac:(lia)) as (src & Hsrc).
    rewrite Hsrc. by apply (signatureScriptSource_signed _ src).
  - split_and!; try done; [by apply (setInput_view _ _ input); [done|apply Hcore]|].
    intros j Hj. cbn. by rewrite list_lookup_insert_ne.
Qed.

(** The loop from the input at [k]: it stops at the first input that cannot be
    signed, and the inputs from [k] up to there are signed. *)
Lemma signLoop_spec outs remaining : forall w t k w' t' r,
  invariant w -> (k + remaining = length (t_Inputs t))%nat ->
  signLoop (Some provider) outs remaining w t k = (w', t', r) ->
  invariant w' /\ returns r /\ view t' = view t /\ t_Outputs t' = t_Outputs t /\ t_Raw t' = t_Raw t /\ t_ID t' = t_ID t /\
  exists stop, (forall j, j < k -> t_Inputs t' !! j = t_Inputs t !! j)%nat /\
    (forall j, k <= j < stop -> signedAt outs t' j)%nat /\
    (forall j, stop < j -> t_Inputs t' !! j = t_Inputs t !! j)%nat /\
    (r = Ok tt -> stop = length (t_Inputs t)).
Proof.
  induction remaining as [|remaining IH]; intros w t k w' t' r Hinv Hk.
  - cbn [signLoop]. intros [= <- <- <-]. split_and!; try done. exists k. split_and!; [done|lia|done|intros _; lia].
  - cbn [signLoop]. destruct (signInput (Some provider) outs w t k) as [[w1 t1] r1] eqn:E1.
    destruct (signInput_spec outs w t k w1 t1 r1 Hinv ltac:(lia) E1) as (Hinv1 & Hr1 & Hv1 & Ho1 & Hw1 & Hi1 & Hother & Hs1).
    assert (length (t_Inputs t1) = length (t_Inputs t)) as Hlen
      by (unfold view in Hv1; injection Hv1 as _ _ Hm; apply (f_equal length) in Hm; by rewrite !length_map in Hm).
    destruct r1 as [[]|e| |]; [| |done..].
    + intros Hrec. destruct (IH w1 t1 (S k) w' t' r Hinv1 ltac:(lia) Hrec)
        as (Hinv2 & Hr & Hv & Ho & Hw & Hi & stop & Hbefore & Hsigned & Hafter & Hstop).
      split_and!; [done|done|by rewrite Hv|by rewrite Ho|by rewrite Hw|by rewrite Hi|].
      exists (Nat.max stop (S k)). split_and!.
      * intros j Hj. rewrite Hbefore by lia. apply Hother. lia.
      * intros j Hj. destruct (decide (j = k)) as [->|]; [|apply Hsigned; lia].
        apply (signedAt_view outs t1); [done| |by apply Hs1].
        intros i Hix. exists i. by rewrite Hbefore by lia.
      * intros j Hj. rewrite Hafter by lia. apply Hother. lia.
      * intros ->. rewrite (Hstop eq_refl). lia.
    + intros [= <- <- <-]. split_and!; try done. exists k. split_and!; [|lia| |done]; intros j Hj; apply Hother; lia.
Qed.

(** What a signed input has: a signature of its own preimage that verifies under
    the public key next to it, and the script generated from the two. *)
Definition validInput (t : Transaction) (k : nat) (input : TransactionInput) (key : PrivateKey) : Prop :=
  in_PublicKey (i_Script input) = CompressedBytes (publicKey key) /\
  GenerateInputScript (i_Script input) = Ok (i_Script input) /\
  exists preimage signature, SignaturePreimage t (Z.of_nat k) = Ok preimage /\
    in_Signature (i_Script input) = signature ++ [byt TransactionSigHashAll] /\
    signs (CompressedBytes (publicKey key)) preimage signature.
Definition inputSigned (t : Transaction) (k : nat) : Prop :=
  exists input unsigned output key w w', t_Inputs t !! k = Some input /\ core unsigned = core input /\
    signableOutput unsigned = Ok output /\ invariant w /\
    provider w k unsigned output = (w', Ok (Some key)) /\ validInput t k input key.
Lemma signedAt_signed outs t k : outs = serializeSigningOutputs t -> signedAt outs t k -> inputSigned t k.
Proof.
  intros -> (i & u & o & key & w & w' & p & s & Hi & Hu & Ho & Hinv & Hw & Hp & Hs & Hkey & Hg & Hsign).
  exists i, u, o, key, w, w'. split_and!; try done. split_and!; try done. by exists p, s.
Qed.

Lemma view_length t t' : view t = view t' -> length (t_Inputs t) = length (t_Inputs t').
Proof. unfold view. intros Hv. injection Hv as _ _ Hm. apply (f_equal length) in Hm. by rewrite !length_map in Hm. Qed.
(** An input stays signed while the scripts, the payload and the payments stay. *)
Lemma signedAt_kept outs t1 t2 k :
  view t2 = view t1 -> payments t2 = payments t1 ->
  (forall j i, t_Inputs t1 !! j = Some i -> exists i', t_Inputs t2 !! j = Some i' /\ i_Script i' = i_Script i) ->
  outs = serializeSigningOutputs t1 -> signedAt outs t1 k -> inputSigned t2 k.
Proof.
  intros Hv Hp Hs -> Hk. apply (signedAt_signed (serializeSigningOutputs t1)).
  - by apply serializeSigningOutputs_payments.
  - by apply (signedAt_view _ t1); [|apply Hs|].
Qed.

Lemma rebuilt_view t t' :
  RebuildDerived t = Ok t' -> view t' = view t /\ payments t' = payments t /\
    forall k i, t_Inputs t !! k = Some i -> exists i', t_Inputs t' !! k = Some i' /\ i_Script i' = i_Script i.
Proof.
  unfold RebuildDerived. repeat case_match; try done. intros [= <-]. split_and!.
  - unfold view. cbn. f_equal. apply list_eq. intros k. rewrite (list_lookup_fmap core), (list_lookup_fmap core), list_lookup_imap.
    destruct (t_Inputs t !! k) as [i|]; [|done]. cbn. by rewrite core_refreshInput.
  - unfold payments. cbn. rewrite map_map. cbn. apply list_eq. intros k.
    rewrite (list_lookup_fmap _ _ k), (list_lookup_fmap _ (t_Outputs t) k), list_lookup_imap. by destruct (t_Outputs t !! k).
  - intros k i Hi. cbn. rewrite list_lookup_imap, Hi. eexists. split; [done|]. by destruct i as [??????? [o|]].
Qed.
End loop.

Lemma RebuildDerived_tooMany `{Digests} t : tooMany t = true -> exists e, RebuildDerived t = Err e.
Proof.
  unfold tooMany, RebuildDerived. intros [-> | ->]%orb_true_iff; [by eexists|]. destruct (_ <? _); by eexists.
Qed.

(** ** The contract of [Sign] *)

Section contract.
Context `{Digests} `{ECDSA} {W : Type}.

Lemma Sign_contract (provider : TransactionSigningKeyProvider (W := W)) invariant w t w' t' r :
  honestProvider provider invariant -> invariant w -> Sign (Some provider) w t = (w', t', r) ->
  invariant w' /\ view t' = view t /\ payments t' = payments t /\
  match r with
  | Ok _ => derived t' /\ forall k, (k < length (t_Inputs t'))%nat -> inputSigned provider invariant t' k
  | Err _ => t_Raw t' = [] /\ t_ID t' = [] /\
      exists stop, (forall k, (k < stop)%nat -> inputSigned provider invariant t' k) /\
        forall k, (stop < k)%nat -> t_Inputs t' !! k = t_Inputs t !! k
  | _ => False
  end.
Proof.
  intros Hhonest Hw. unfold Sign. set (t0 := ResetDerived t).
  destruct (signLoop _ _ _ _ _ _) as [[w1 t1] r1] eqn:El.
  destruct (signLoop_spec provider invariant Hhonest (serializeSigningOutputs t0) (length (t_Inputs t0)) w t0 0 w1 t1 r1 Hw eq_refl El)
    as (Hw1 & Hr & Hv & Ho & Hraw & Hid & stop & _ & Hsigned & Hafter & Hstop).
  assert (payments t1 = payments t) as Hp by (unfold payments at 1; rewrite Ho; apply payments_reset).
  assert (serializeSigningOutputs t0 = serializeSigningOutputs t1) as Eouts
    by (apply serializeSigningOutputs_payments; rewrite Hp; apply payments_reset).
  pose proof (view_length _ _ Hv) as Hlen. destruct r1 as [[]|e| |]; [| |done..].
  - rewrite (Hstop eq_refl) in Hsigned. destruct (tooMany (ResetDerived t1)) eqn:Etoo.
    + destruct (RebuildDerived_tooMany _ Etoo) as [e ->]. intros [= <- <- <-].
      split_and!; [done|done|by rewrite payments_reset|done|done|]. exists (length (t_Inputs t0)). split; intros k Hk.
      * apply (signedAt_kept provider invariant (serializeSigningOutputs t0) t1);
          [done|apply payments_reset|by intros j i Hi; exists i|done|apply Hsigned; lia].
      * by rewrite !lookup_ge_None_2 by (cbn in *; lia).
    + destruct (RebuildDerived_derived (ResetDerived t1) Etoo) as (t2 & E2 & Hd & _). rewrite E2.
      destruct (rebuilt_view (ResetDerived t1) t2 E2) as (Hv2 & Hp2 & Hscripts).
      intros [= <- <- <-]. pose proof (view_length _ _ Hv2) as Hlen2. cbn [t_Inputs ResetDerived withDerived] in Hlen2.
      split_and!; [done|by rewrite Hv2|by rewrite Hp2, payments_reset|done|]. intros k Hk.
      apply (signedAt_kept provider invariant (serializeSigningOutputs t0) t1);
        [by rewrite Hv2|by rewrite Hp2, payments_reset|exact Hscripts|done|apply Hsigned; lia].
  - intros [= <- <- <-]. split_and!; try done. exists stop. split; [|intros k Hk; by rewrite Hafter].
    intros k Hk. apply (signedAt_kept provider invariant (serializeSigningOutputs t0) t1);
      [done|done|by intros j i Hi; exists i|done|apply Hsigned; lia].
Qed.

(** C22: what [Sign] signs verifies.  With a provider that gives real keys in the
    worlds it goes through, the amounts, output scripts, sequences, lock time and spent outputs stay.  On
    success the derived fields are right and every input carries a strict DER
    signature that verifies, under the public key next to it, for the digest of
    the finished transaction: what a later input's script becomes does not
    invalidate an earlier signature.  On an error the caches are left reset, the
    inputs before the failing one are validly signed and the ones after it are
    untouched. *)
Theorem signed_inputs_verify (provider : TransactionSigningKeyProvider (W := W)) invariant w t w' t' r :
  honestProvider provider invariant -> invariant w -> Sign (Some provider) w t = (w', t', r) ->
  invariant w' /\ view t' = view t /\ payments t' = payments t /\
  match r with
  | Ok _ => derived t' /\ forall k, (k < length (t_Inputs t'))%nat -> inputSigned provider invariant t' k
  | Err _ => t_Raw t' = [] /\ t_ID t' = [] /\
      exists stop, (forall k, (k < stop)%nat -> inputSigned provider invariant t' k) /\
        forall k, (stop < k)%nat -> t_Inputs t' !! k = t_Inputs t !! k
  | _ => False
  end.
Proof. apply Sign_contract. Qed.
End contract.

(** ** An instance of the interface, and a witness *)

(** A signature scheme on the group of scalars: [s] is the digest plus [r] times
    the key, over [r], with 1 for [r] or, where that gives zero, -1. *)
Module ScalarECDSA.
Import ScalarGroup.
Definition signScalar (k : Z) (digest : bytes) : Z * Z :=
  let h := be_value digest in
  if (h + k) mod groupOrder =? 0 then (groupOrder - 1, (k - h) mod groupOrder)
  else (1, (h + k) mod groupOrder).
Definition verifyScalar (signature : Z * Z) (digest : bytes) (p : scalars) : bool :=
  (signature.1 * signature.2) mod groupOrder =? (be_value digest + signature.1 * value p) mod groupOrder.

Lemma signScalar_range k digest :
  0 < k < groupOrder -> 0 < (signScalar k digest).1 < groupOrder /\ 0 < (signScalar k digest).2 < groupOrder.
Proof.
  intros Hk. unfold signScalar. set (h := be_value digest).
  pose proof (Z.mod_pos_bound (h + k) groupOrder ltac:(done)).
  pose proof (Z.mod_pos_bound (k - h) groupOrder ltac:(done)).
  destruct (Z.eqb_spec ((h + k) mod groupOrder) 0) as [E|]; cbn [fst snd]; [|split; [done|lia]].
  split; [done|]. enough ((k - h) mod groupOrder <> 0) by lia. intros E2.
  apply Z.mod_divide in E as [a Ea]; [|done]. apply Z.mod_divide in E2 as [b Eb]; [|done].
  assert (2 * k = (a + b) * groupOrder) as E by lia. unfold groupOrder in *. lia.
Qed.
Lemma signScalar_verifies k digest :
  0 < k < groupOrder -> verifyScalar (signScalar k digest) digest (reduce k) = true.
Proof.
  intros Hk. unfold verifyScalar, signScalar. set (h := be_value digest). apply Z.eqb_eq.
  assert (value (reduce k) = k) as -> by (cbn; by apply Z.mod_small; lia).
  destruct (_ =? 0); cbn [fst snd].
  - rewrite Z.mul_mod_idemp_r by done.
    replace ((groupOrder - 1) * (k - h)) with (h + (groupOrder - 1) * k + (- h) * groupOrder) by lia.
    by rewrite Z.mod_add.
  - rewrite !Z.mul_1_l. by rewrite Z.mod_mod.
Qed.
Definition ecdsa : @ECDSA secp256k1.
Proof.
  refine {| ecdsaSign := signScalar; ecdsaVerify := verifyScalar : Z * Z -> bytes -> @point secp256k1 -> bool |}.
  - intros k digest Hk _. by apply signScalar_range.
  - intros k digest Hk _. by apply signScalar_verifies.
Defined.
End ScalarECDSA.

#[local] Existing Instance exampleDigests.
#[local] Existing Instance ScalarGroup.secp256k1.
#[local] Existing Instance ScalarECDSA.ecdsa.
Definition exampleUnsigned : TransactionInput :=
  MkInput 0 (repeat x01 32) (hexEncode (repeat x01 32)) 1 (2 ^ 32 - 1) []
    match NewRedeemPubKeyHashInputScript (repeat x00 72) (repeat x00 33) with Ok s => s | _ => inputScriptOf [] end
    (Some (MkOutput (hexEncode (repeat x01 32)) (repeat x01 32) 1 700 (o_Script (exampleOutput 700)))).
Definition examplePayment : Transaction :=
  fst (AddOutputs (fst (AddInputs NewTransaction [exampleUnsigned; exampleUnsigned])) [exampleOutput 600]).
Definition exampleProvider : TransactionSigningKeyProvider (W := unit) :=
  fun w _ _ _ => (w, Ok (Some examplePrivateKey)).
Lemma exampleProvider_honest : honestProvider exampleProvider (fun _ => True).
Proof. intros w k i o _. split; [done|]. split; [done|]. intros key [= <-]. exact examplePrivateKey_valid. Qed.

Lemma signed_inputs_verify_witness :
  exists t, Sign (Some exampleProvider) tt examplePayment = (tt, t, Ok tt) /\ derived t /\
    inputSigned exampleProvider (fun _ => True) t 1.
Proof.
  assert ((Sign (Some exampleProvider) tt examplePayment).2 = Ok tt /\
    length (t_Inputs (Sign (Some exampleProvider) tt examplePayment).1.2) = 2%nat) as [Hr Hl]
    by (split; vm_compute; reflexivity).
  destruct (Sign (Some exampleProvider) tt examplePayment) as [[w t] r] eqn:E. cbn [fst snd] in Hr, Hl. subst r.
  destruct (signed_inputs_verify exampleProvider (fun _ => True) tt examplePayment w t (Ok tt) exampleProvider_honest I E)
    as (_ & _ & _ & Hd & Hs).
  exists t. destruct w. split; [reflexivity|]. split; [exact Hd|]. apply Hs. lia.
Defined.
