(* ===== verification/Accounts.v ===== *)
(** * Accounts: addresses, their keys, and signing with accounts

    Model of the address managers of [wallet/account.go] and
    [wallet/address_manager.go], of the address tables of
    [wallet/ledgerdb/addresses.go], and of [wallet/transaction_signing_accounts.go].
    A table is the list or map of its rows, and a statement is its meaning in
    SQL; what SQLite leaves open, the order of rows that compare equal, is the
    interface [RowOrder].  The gaps and limits of a manager are what
    [addressManagerInteger] makes of its JSON values. *)

From stdpp Require Import sorting.
From S2P Require Import Prelude Digest Hex Base58 Keys Script ScriptBuild ScriptRoundtrip Transaction TransactionBuild.
From S2P Require Import PythonRandom CoinSelection Balancing Funding Signing.

(** ** The address tables *)

(** The columns that [AddKeys] inserts. *)
Record AddressKey := MkKey {
  k_Address : bytes; k_Chain : Z; k_PublicKey : bytes; k_ChainCode : bytes; k_N : Z; k_Depth : Z
}.
(** A row of [account_address]: its account and its key. *)
Record AddressRow := MkAddressRow { r_Account : bytes; r_Key : AddressKey }.
(** [pubkey_address] maps an address to its history and use count. *)
Record AddressTables := MkTables {
  account_address : list AddressRow;
  pubkey_address : gmap bytes (option bytes * Z)
}.
(** A row of the join. *)
Record AddressRecord := MkRecord { rec_Row : AddressRow; rec_History : option bytes; rec_UsedTimes : Z }.

Inductive AddressOrder :=
| AddressOrderUnspecified
| AddressOrderUsedTimesAscending
| AddressOrderIndexAscending
| AddressOrderIndexDescending.
Record AddressQuery := MkQuery {
  q_Account : bytes;
  q_Address : option bytes;
  q_Addresses : list bytes;
  q_Chain : option Z;
  q_UsedTimesLT : option Z;
  q_Order : AddressOrder;
  q_Limit : option Z
}.

Definition rec_N (r : AddressRecord) : Z := k_N (r_Key (rec_Row r)).
Definition rec_Address (r : AddressRecord) : bytes := k_Address (r_Key (rec_Row r)).
(** The ORDER BY of a query, as a relation on rows. *)
Definition ordered (order : AddressOrder) (r s : AddressRecord) : Prop :=
  match order with
  | AddressOrderUnspecified => True
  | AddressOrderUsedTimesAscending =>
      rec_UsedTimes r < rec_UsedTimes s \/ (rec_UsedTimes r = rec_UsedTimes s /\ rec_N r <= rec_N s)
  | AddressOrderIndexAscending => rec_N r <= rec_N s
  | AddressOrderIndexDescending => rec_N s <= rec_N r
  end.
(** SQLite returns the rows sorted, and otherwise in an order of its choice. *)
Class RowOrder := {
  orderRows : AddressOrder -> list AddressRecord -> list AddressRecord;
  orderRows_perm order rows : orderRows order rows ≡ₚ rows;
  orderRows_sorted order rows : StronglySorted (ordered order) (orderRows order rows)
}.

(** [FROM pubkey_address JOIN account_address USING (address)] *)
Definition joined (tables : AddressTables) : list AddressRecord :=
  omap (fun row => '(history, used) ← pubkey_address tables !! k_Address (r_Key row);
                   Some (MkRecord row history used)) (account_address tables).
Definition given {A} (constraint : option A) (holds : A -> bool) : bool :=
  match constraint with Some x => holds x | None => true end.
Definition selected (query : AddressQuery) (r : AddressRecord) : bool :=
  (bool_decide (q_Account query = []) || bool_decide (r_Account (rec_Row r) = q_Account query)) &&
  given (q_Address query) (fun address => bool_decide (rec_Address r = address)) &&
  (bool_decide (q_Addresses query = []) || bool_decide (rec_Address r ∈ q_Addresses query)) &&
  given (q_Chain query) (fun chain => k_Chain (r_Key (rec_Row r)) =? chain) &&
  given (q_UsedTimesLT query) (fun uses => rec_UsedTimes r <? uses).
(** A negative LIMIT is none. *)
Definition limited {A} (limit : option Z) (rows : list A) : list A :=
  match limit with
  | Some limit => if limit <? 0 then rows else take (Z.to_nat limit) rows
  | None => rows
  end.
Definition GetAddresses `{RowOrder} (tables : AddressTables) (query : AddressQuery) : list AddressRecord :=
  limited (q_Limit query) (orderRows (q_Order query) (List.filter (selected query) (joined tables))).
Definition GetAddress `{RowOrder} (tables : AddressTables) (address : bytes) : option AddressRecord :=
  hd_error (GetAddresses tables (MkQuery [] (Some address) [] None None AddressOrderUnspecified (Some 1))).

(** [insert or ignore into account_address]; the primary key is the account and
    the address. *)
Definition insertRow (rows : list AddressRow) (row : AddressRow) : list AddressRow :=
  if existsb (fun r => bool_decide (r_Account r = r_Account row) &&
                       bool_decide (k_Address (r_Key r) = k_Address (r_Key row))) rows
  then rows else rows ++ [row].
(** [insert or ignore into pubkey_address (address)] *)
Definition insertAddress (table : gmap bytes (option bytes * Z)) (key : AddressKey)
  : gmap bytes (option bytes * Z) :=
  match table !! k_Address key with
  | Some _ => table
  | None => <[k_Address key := (None, 0)]> table
  end.

(** The two transactions of [AddKeys]: either can fail, the first one's rows stay. *)
Inductive fault := NoFault | FirstFails (message : string) | SecondFails (message : string).
Definition AddKeys (failure : fault) (tables : AddressTables) (accountID : bytes) (addressKeys : list AddressKey)
  : AddressTables * res unit :=
  match failure with
  | FirstFails e => (tables, Err e)
  | _ =>
      let rows := fold_left insertRow (map (MkAddressRow accountID) addressKeys) (account_address tables) in
      match failure with
      | SecondFails e => (MkTables rows (pubkey_address tables), Err e)
      | _ => (MkTables rows (fold_left insertAddress addressKeys (pubkey_address tables)), Ok tt)
      end
  end.

(** [strings.Count(history, ":") / 2] *)
Definition historyUses (history : bytes) : Z := blen (List.filter (Byte.eqb ":") history) / 2.
Definition SetAddressHistory (tables : AddressTables) (address history : bytes) : AddressTables :=
  MkTables (account_address tables)
    (alter (fun _ => (Some history, historyUses history)) address (pubkey_address tables)).

(** ** Address managers and accounts *)

Section managers.
Context `{Digests} `{Secp256k1} `{RowOrder}.

Definition DeterministicChainGenerator : string := "deterministic-chain".
Definition SingleAddressGenerator : string := "single-address".
Definition ReceiveChain : Z := 0.
Definition ChangeChain : Z := 1.
Definition ErrUnknownAddressGenerator : string := "unknown account address generator".
Definition ErrEncryptedAccountPrivateKey : string := "cannot get private key from encrypted account".
Definition ErrAccountPrivateKeyMissing : string := "account has no private key".
Definition ErrTransactionAddressChain : string := "transaction address has an unknown derivation chain".
Definition ErrNoUsableAddress : string := "address manager produced no usable address".

Record AddressManager := MkManager {
  m_PublicKey : PublicKey;
  m_ChainNumber : Z;
  m_Gap : res Z;
  m_MaximumUses : res Z;
  m_singleAddress : bool
}.
(** The keys of an account, with its managers. *)
Record WalletAccount := MkWalletAccount {
  a_Encrypted : bool;
  a_PrivateKey : option PrivateKey;
  a_PublicKey : PublicKey;
  a_Receiving : AddressManager;
  a_Change : AddressManager
}.
Definition a_ID (account : WalletAccount) : bytes := Address (a_PublicKey account).

(** [loadAddressGenerator], with the gap and the maximal uses of each chain. *)
Definition loadAddressGenerator (encrypted : bool) (privateKey : option PrivateKey) (publicKey : PublicKey)
    (name : string) (receiving change : res Z * res Z) : res WalletAccount :=
  if String.eqb name DeterministicChainGenerator then
    receivingKey ← map_err (fun e => "derive receiving chain: " ++ e)%string (ChildPub publicKey ReceiveChain);
    changeKey ← map_err (fun e => "derive change chain: " ++ e)%string (ChildPub publicKey ChangeChain);
    Ok (MkWalletAccount encrypted privateKey publicKey
          (MkManager receivingKey ReceiveChain receiving.1 receiving.2 false)
          (MkManager changeKey ChangeChain change.1 change.2 false))
  else if String.eqb name SingleAddressGenerator then
    let manager := MkManager publicKey ReceiveChain (Ok 0) (Ok 0) true in
    Ok (MkWalletAccount encrypted privateKey publicKey manager manager)
  else Err ErrUnknownAddressGenerator.

Definition GetPublicKey (account : WalletAccount) (manager : AddressManager) (index : Z) : res PublicKey :=
  if m_singleAddress manager then Ok (a_PublicKey account) else ChildPub (m_PublicKey manager) index.
Definition GetPrivateKey (account : WalletAccount) (manager : AddressManager) (index : Z)
  : res (option PrivateKey) :=
  if m_singleAddress manager then Ok (a_PrivateKey account)
  else if a_Encrypted account then Err ErrEncryptedAccountPrivateKey
  else match a_PrivateKey account with
  | None => Err ErrAccountPrivateKeyMissing
  | Some privateKey =>
      chain ← ChildPriv privateKey (m_ChainNumber manager);
      key ← ChildPriv chain index;
      Ok (Some key)
  end.

Definition queryAddressRecords (tables : AddressTables) (account : WalletAccount) (manager : AddressManager)
    (onlyUsable : bool) (limit : option Z) (order : AddressOrder) : res (list AddressRecord) :=
  let query uses order :=
    MkQuery (a_ID account) None [] (Some (m_ChainNumber manager)) uses order limit in
  if m_singleAddress manager then Ok (GetAddresses tables (query None order))
  else
    uses ← (if onlyUsable then
              maximumUses ← map_err (fun e => "maximum_uses_per_address: " ++ e)%string (m_MaximumUses manager);
              Ok (Some maximumUses)
            else Ok None);
    Ok (GetAddresses tables
          (query uses match order with AddressOrderUnspecified => AddressOrderUsedTimesAscending | o => o end)).

(** The longest run of unused addresses before a used one. *)
Fixpoint maxGapLoop (maximumGap currentGap : Z) (records : list AddressRecord) : Z :=
  match records with
  | [] => maximumGap
  | record :: records =>
      if rec_UsedTimes record =? 0 then maxGapLoop maximumGap (currentGap + 1) records
      else maxGapLoop (if maximumGap <? currentGap then currentGap else maximumGap) 0 records
  end.
Definition GetMaxGap (tables : AddressTables) (account : WalletAccount) (manager : AddressManager) : res Z :=
  if m_singleAddress manager then Ok 0
  else records ← queryAddressRecords tables account manager false None AddressOrderIndexAscending;
       Ok (maxGapLoop 0 0 records).

(** [persistPublicKeys] *)
Definition addressKeyOf (manager : AddressManager) (publicKey : PublicKey) : AddressKey :=
  MkKey (Address publicKey) (m_ChainNumber manager) (CompressedBytes publicKey)
    (chainCode (basePub publicKey)) (childNumber (basePub publicKey)) (depth (basePub publicKey)).
Definition persistPublicKeys (failure : fault) (tables : AddressTables) (account : WalletAccount)
    (manager : AddressManager) (publicKeys : list PublicKey) : AddressTables * res unit :=
  AddKeys failure tables (a_ID account) (map (addressKeyOf manager) publicKeys).

Fixpoint existingGap (records : list AddressRecord) : Z :=
  match records with
  | record :: records => if rec_UsedTimes record =? 0 then 1 + existingGap records else 0
  | [] => 0
  end.
(** [for index := start; index < start+int64(missing); index++] *)
Fixpoint deriveFrom (publicKey : PublicKey) (start : Z) (missing : nat) : res (list PublicKey) :=
  match missing with
  | O => Ok []
  | S missing =>
      child ← ChildPub publicKey start;
      rest ← deriveFrom publicKey (start + 1) missing;
      Ok (child :: rest)
  end.

(** Persist, then announce: a failed announcement leaves the rows. *)
Definition persistAndAnnounce (failure : fault) (announce : list bytes -> res unit) (tables : AddressTables)
    (account : WalletAccount) (manager : AddressManager) (publicKeys : list PublicKey)
  : AddressTables * res (list bytes) :=
  let '(tables, persisted) := persistPublicKeys failure tables account manager publicKeys in
  (tables, _ ← persisted;
           let addresses := map Address publicKeys in
           _ ← announce addresses;
           Ok addresses).
Definition EnsureAddressGap (failure : fault) (announce : list bytes -> res unit) (tables : AddressTables)
    (account : WalletAccount) (manager : AddressManager) : AddressTables * res (list bytes) :=
  if m_singleAddress manager then
    match queryAddressRecords tables account manager false None AddressOrderUnspecified with
    | Ok [] => persistAndAnnounce failure announce tables account manager [m_PublicKey manager]
    | Ok _ => (tables, Ok [])
    | Err e => (tables, Err e)
    | Panic => (tables, Panic)
    | NoFuel => (tables, NoFuel)
    end
  else
    match (gap ← map_err (fun e => "gap: " ++ e)%string (m_Gap manager);
           records ← queryAddressRecords tables account manager false (Some gap) AddressOrderIndexDescending;
           let missing := gap - existingGap records in
           if missing <=? 0 then Ok None
           else
             let start := match records with record :: _ => rec_N record + 1 | [] => 0 end in
             publicKeys ← deriveFrom (m_PublicKey manager) start (Z.to_nat missing);
             Ok (Some publicKeys)) with
    | Ok None => (tables, Ok [])
    | Ok (Some publicKeys) => persistAndAnnounce failure announce tables account manager publicKeys
    | Err e => (tables, Err e)
    | Panic => (tables, Panic)
    | NoFuel => (tables, NoFuel)
    end.

(** The managers of an account: a single-address account has one, twice. *)
Definition AddressManagers (account : WalletAccount) : list AddressManager :=
  if m_singleAddress (a_Receiving account) then [a_Receiving account]
  else [a_Receiving account; a_Change account].
(** [Account.EnsureAddressGap]: the managers in turn, up to the first error. *)
Fixpoint ensureManagers (failure : fault) (announce : list bytes -> res unit) (tables : AddressTables)
    (account : WalletAccount) (managers : list AddressManager) : AddressTables * res (list bytes) :=
  match managers with
  | [] => (tables, Ok [])
  | manager :: managers =>
      match EnsureAddressGap failure announce tables account manager with
      | (tables, Ok created) =>
          let '(tables, rest) := ensureManagers failure announce tables account managers in
          (tables, rest ← rest; Ok (created ++ rest))
      | failed => failed
      end
  end.
Definition EnsureAccountGap (failure : fault) (announce : list bytes -> res unit) (tables : AddressTables)
    (account : WalletAccount) : AddressTables * res (list bytes) :=
  ensureManagers failure announce tables account (AddressManagers account).

(** [GetOrCreateUsableAddress]; [choice] is what the random source picks. *)
Definition GetOrCreateUsableAddress (choice : nat) (failure : fault) (announce : list bytes -> res unit)
    (tables : AddressTables) (account : WalletAccount) (manager : AddressManager) : AddressTables * res bytes :=
  match queryAddressRecords tables account manager true (Some 10) AddressOrderUnspecified with
  | Ok [] =>
      let '(tables, created) := EnsureAddressGap failure announce tables account manager in
      (tables, created ← created;
               match created with address :: _ => Ok address | [] => Err ErrNoUsableAddress end)
  | Ok (record :: records) =>
      (tables, Ok (rec_Address (nth (choice mod length (record :: records)) (record :: records) record)))
  | Err e => (tables, Err e)
  | Panic => (tables, Panic)
  | NoFuel => (tables, NoFuel)
  end.

(** [SaveMaxGap], with what the wallet's [Save] returns: whether a gap changed,
    and the account. *)
Definition withGap (manager : AddressManager) (gap : Z) : AddressManager :=
  MkManager (m_PublicKey manager) (m_ChainNumber manager) (Ok gap) (m_MaximumUses manager)
    (m_singleAddress manager).
Definition gapDiffers (manager : AddressManager) (gap : Z) : bool :=
  match m_Gap manager with Ok current => negb (current =? gap) | _ => true end.
Definition SaveMaxGap (save : res unit) (tables : AddressTables) (account : WalletAccount)
  : WalletAccount * res bool :=
  if m_singleAddress (a_Receiving account) then (account, Ok false)
  else match (receivingMax ← GetMaxGap tables account (a_Receiving account);
              changeMax ← GetMaxGap tables account (a_Change account); Ok (receivingMax, changeMax)) with
  | Ok (receivingMax, changeMax) =>
      let newReceiving := Z.max 20 (receivingMax + 1) in
      let newChange := Z.max 6 (changeMax + 1) in
      let changed := gapDiffers (a_Receiving account) newReceiving || gapDiffers (a_Change account) newChange in
      let account := MkWalletAccount (a_Encrypted account) (a_PrivateKey account) (a_PublicKey account)
                       (withGap (a_Receiving account) newReceiving) (withGap (a_Change account) newChange) in
      (account, if changed then _ ← save; Ok true else Ok false)
  | Err e => (account, Err e)
  | Panic => (account, Panic)
  | NoFuel => (account, NoFuel)
  end.

(** ** Signing with accounts *)

(** [Ledger.GetPrivateKeyForAddress] for the accounts of a wallet. *)
Fixpoint GetPrivateKeyForAddress (tables : AddressTables) (accounts : list WalletAccount) (address : bytes)
  : res (option PrivateKey) :=
  match accounts with
  | [] => Ok None
  | account :: accounts =>
      match GetAddresses tables
              (MkQuery (a_ID account) (Some address) [] None None AddressOrderUnspecified (Some 1)) with
      | [] => GetPrivateKeyForAddress tables accounts address
      | record :: _ =>
          if a_Encrypted account then Err ErrEncryptedAccountPrivateKey
          else
            let chain := k_Chain (r_Key (rec_Row record)) in
            if chain =? m_ChainNumber (a_Receiving account)
            then GetPrivateKey account (a_Receiving account) (rec_N record)
            else if chain =? m_ChainNumber (a_Change account)
            then GetPrivateKey account (a_Change account) (rec_N record)
            else Err ErrTransactionAddressChain
      end
  end.

Definition ErrTransactionSigningLedger : string :=
  "transaction signing ledger is unavailable or inconsistent".
Definition ErrTransactionSigningWallet : string :=
  "transaction signing wallet is unavailable or inconsistent".
Fixpoint signingLedgerAndWallet (ledger wallet : option Z) (accounts : list Account) : res (option Z * option Z) :=
  match accounts with
  | [] => Ok (ledger, wallet)
  | account :: accounts =>
      let '(ledger, wallet) := match ledger with
                               | None => (acc_ledger account, acc_wallet account)
                               | Some _ => (ledger, wallet)
                               end in
      if negb (bool_decide (ledger = acc_ledger account)) then Err ErrTransactionSigningLedger
      else if negb (bool_decide (wallet = acc_wallet account)) then Err ErrTransactionSigningWallet
      else signingLedgerAndWallet ledger wallet accounts
  end.
Definition transactionSigningLedgerAndWallet (accounts : list Account) : res (Z * Z) :=
  '(ledger, wallet) ← signingLedgerAndWallet None None accounts;
  match ledger, wallet with
  | None, _ => Err ErrTransactionSigningLedger
  | Some _, None => Err ErrTransactionSigningWallet
  | Some ledger, Some wallet => Ok (ledger, wallet)
  end.

(** The closure that [SignWithAccounts] gives to [Sign]: the world is the tables
    of the ledger, which it only reads. *)
Definition accountKeyProvider (network : Network) (accounts : list WalletAccount) (extraKeys : list PrivateKey)
  : TransactionSigningKeyProvider (W := AddressTables) := fun tables _ _ output =>
  (tables,
   if out_HasPubKeyHash (o_Script output) then
     address ← OutputAddress output network;
     GetPrivateKeyForAddress tables accounts address
   else Ok (hd_error extraKeys)).
End managers.

(** The ledgers' networks and the wallets' accounts, by identity. *)
Definition SignWithAccounts `{Digests} `{ECDSA} `{RowOrder} (ledgerNetwork : Z -> Network)
    (walletAccounts : Z -> list WalletAccount) (fundingAccounts : list Account) (extraKeys : list PrivateKey)
    (tables : AddressTables) (t : Transaction) : AddressTables * Transaction * res unit :=
  let t := ResetDerived t in
  match transactionSigningLedgerAndWallet fundingAccounts with
  | Ok (ledger, wallet) =>
      Sign (Some (accountKeyProvider (ledgerNetwork ledger) (walletAccounts wallet) extraKeys)) tables t
  | Err e => (tables, t, Err (ErrTransactionSigning (": " ++ e)))
  | Panic => (tables, t, Panic)
  | NoFuel => (tables, t, NoFuel)
  end.

(** ** What the tables promise *)

Section promises.
Context `{Digests} `{Secp256k1} `{RowOrder}.

(** An account as it is loaded: its managers come from its public key, and its
    private key, if it has one, belongs to the public key. *)
Definition loaded (account : WalletAccount) : Prop :=
  0 <= network (basePub (a_PublicKey account)) < 3 /\
  (forall privateKey, a_PrivateKey account = Some privateKey ->
     validPriv privateKey /\ publicKey privateKey = a_PublicKey account) /\
  exists encrypted privateKey name receiving change,
    loadAddressGenerator encrypted privateKey (a_PublicKey account) name receiving change = Ok account.

(** A row that a manager of the account persisted. *)
Definition persistedBy (account : WalletAccount) (manager : AddressManager) (pub : PublicKey) (row : AddressRow)
  : Prop :=
  manager ∈ AddressManagers account /\ r_Account row = a_ID account /\ r_Key row = addressKeyOf manager pub /\
  GetPublicKey account manager (childNumber (basePub pub)) = Ok pub.
Definition ownRows (account : WalletAccount) (tables : AddressTables) : Prop :=
  forall row, row ∈ account_address tables -> r_Account row = a_ID account ->
    exists manager pub, persistedBy account manager pub row.

Lemma loadAddressGenerator_keys encrypted priv pub name receiving change account :
  loadAddressGenerator encrypted priv pub name receiving change = Ok account ->
  a_PrivateKey account = priv /\ a_PublicKey account = pub.
Proof.
  unfold loadAddressGenerator. destruct (String.eqb name DeterministicChainGenerator).
  - intros Hl. apply res_bind_Ok in Hl as (rk & _ & Hl). apply res_bind_Ok in Hl as (ck & _ & Hl). by injection Hl as <-.
  - destruct (String.eqb name SingleAddressGenerator); [|done]. by intros [= <-].
Qed.
Lemma loaded_managers account :
  loaded account ->
  (a_Change account = a_Receiving account /\ m_singleAddress (a_Receiving account) = true /\
   m_PublicKey (a_Receiving account) = a_PublicKey account) \/
  (m_singleAddress (a_Receiving account) = false /\ m_singleAddress (a_Change account) = false /\
   m_ChainNumber (a_Receiving account) = ReceiveChain /\ m_ChainNumber (a_Change account) = ChangeChain /\
   ChildPub (a_PublicKey account) ReceiveChain = Ok (m_PublicKey (a_Receiving account)) /\
   ChildPub (a_PublicKey account) ChangeChain = Ok (m_PublicKey (a_Change account))).
Proof.
  intros (_ & _ & encrypted & priv & name & rc & ch & Hl). unfold loadAddressGenerator in Hl.
  destruct (String.eqb name DeterministicChainGenerator).
  - right. apply res_bind_Ok in Hl as (rk & Hr & Hl). apply map_err_Ok in Hr.
    apply res_bind_Ok in Hl as (ck & Hc & Hl). apply map_err_Ok in Hc. injection Hl as Ha. by rewrite <- Ha.
  - destruct (String.eqb name SingleAddressGenerator); [|done]. left. injection Hl as Ha. by rewrite <- Ha.
Qed.
Lemma managers_known account manager :
  loaded account -> manager ∈ AddressManagers account ->
  manager = a_Receiving account \/ (manager = a_Change account /\ m_singleAddress manager = false /\
    m_ChainNumber manager <> m_ChainNumber (a_Receiving account)).
Proof.
  intros Hl. unfold AddressManagers. destruct (loaded_managers account Hl) as [(_ & -> & _)|(-> & Hs & Hr & Hc & _)].
  - intros ->%list_elem_of_singleton. by left.
  - rewrite elem_of_cons, list_elem_of_singleton. intros [-> | ->]; [by left|right].
    split_and!; [done|done|]. by rewrite Hr, Hc.
Qed.

Lemma Address_nonempty key : 0 <= network (basePub key) < 3 -> Address key <> [].
Proof.
  intros Hn E. pose proof (address_payload (network (basePub key)) (IdentifierPub key) Hn) as Hp.
  unfold Address in E. rewrite E in Hp. by vm_compute in Hp.
Qed.

(** The child of a private key belongs to the child of its public key. *)
Lemma ChildPriv_public key index child pub :
  ChildPriv key index = Ok child -> ChildPub (publicKey key) index = Ok pub -> publicKey child = pub.
Proof.
  intros Hpriv Hpub. assert (index < hardenedIndex) as Hi.
  { unfold ChildPub in Hpub. destruct (Z.ltb_spec index 0); [done|]. destruct (Z.leb_spec hardenedIndex index); [done|lia]. }
  pose proof (Child_commutes key index Hi) as Hc. rewrite Hpriv, Hpub in Hc. by injection Hc.
Qed.

(** The private key that a manager derives for a row is the key of its address. *)
Lemma GetPrivateKey_row account manager pub row key :
  loaded account -> persistedBy account manager pub row ->
  GetPrivateKey account manager (k_N (r_Key row)) = Ok (Some key) -> validPriv key /\ publicKey key = pub.
Proof.
  intros Hl (Hm & _ & Ek & Hpub). pose proof Hl as (_ & Hpriv & _). rewrite Ek. cbn [k_N addressKeyOf].
  unfold GetPublicKey in Hpub. unfold GetPrivateKey. destruct (m_singleAddress manager) eqn:Es.
  - injection Hpub as <-. intros Hk. injection Hk as Hk. by apply Hpriv.
  - destruct (a_Encrypted account); [done|]. destruct (a_PrivateKey account) as [priv|]; [|done].
    destruct (Hpriv priv eq_refl) as [Hvalid Epub]. intros Hk.
    apply res_bind_Ok in Hk as (chain & Hchain & Hk). apply res_bind_Ok in Hk as (child & Hchild & Hk).
    injection Hk as <-.
    assert (ChildPub (a_PublicKey account) (m_ChainNumber manager) = Ok (m_PublicKey manager)) as Hmp.
    { destruct (loaded_managers account Hl) as [(E & Es' & _)|(_ & _ & Er & Ec & Hr & Hc)];
        destruct (managers_known account manager Hl Hm) as [-> | (-> & _)]; try congruence. }
    rewrite <- Epub in Hmp. pose proof (ChildPriv_public _ _ _ _ Hchain Hmp) as Ec. rewrite <- Ec in Hpub.
    split; [|by apply (ChildPriv_public chain (childNumber (basePub pub)))].
    apply (ChildPriv_valid chain (childNumber (basePub pub))); [|done]. by apply (ChildPriv_valid priv (m_ChainNumber manager)).
Qed.

Lemma limited_in {A} limit (rows : list A) x : x ∈ limited limit rows -> x ∈ rows.
Proof.
  unfold limited. destruct limit as [n|]; [|done]. destruct (n <? 0); [done|]. intros Hx.
  by apply (subseteq_take (Z.to_nat n)) in Hx.
Qed.
Lemma joined_in tables r :
  r ∈ joined tables <->
  rec_Row r ∈ account_address tables /\
  pubkey_address tables !! rec_Address r = Some (rec_History r, rec_UsedTimes r).
Proof.
  unfold joined. rewrite list_elem_of_omap. split.
  - intros (row & Hrow & E). destruct (pubkey_address tables !! _) as [[h u]|] eqn:Ep; [|done].
    cbn in E. injection E as <-. done.
  - intros [Hrow Ep]. exists (rec_Row r). split; [done|]. unfold rec_Address in Ep. rewrite Ep. by destruct r.
Qed.
Lemma GetAddresses_in tables query r :
  r ∈ GetAddresses tables query ->
  rec_Row r ∈ account_address tables /\ selected query r = true /\
  pubkey_address tables !! rec_Address r = Some (rec_History r, rec_UsedTimes r).
Proof.
  unfold GetAddresses. intros Hr. apply limited_in in Hr. rewrite orderRows_perm in Hr.
  apply list_elem_of_In, filter_In in Hr as [Hr Hs]. apply list_elem_of_In, joined_in in Hr as [? ?]. done.
Qed.

Lemma ChildPriv_returns key index : returns (ChildPriv key index).
Proof.
  unfold ChildPriv. destruct (_ || _); [done|]. destruct (_ =? 255); [done|]. destruct (deriveMaterial _ _) as [l r].
  apply returns_bind; [|done].
  unfold addPrivateTweak, derivationTweak. by repeat (case_match; cbn).
Qed.
Lemma GetPrivateKey_returns account manager index : returns (GetPrivateKey account manager index).
Proof.
  unfold GetPrivateKey. repeat case_match; try done.
  apply returns_bind; [apply ChildPriv_returns|]. intros chain _. apply returns_bind; [apply ChildPriv_returns|done].
Qed.
Lemma GetPrivateKeyForAddress_returns tables accounts address :
  returns (GetPrivateKeyForAddress tables accounts address).
Proof.
  induction accounts as [|account accounts IH]; [done|]. cbn [GetPrivateKeyForAddress].
  repeat case_match; try done; apply GetPrivateKey_returns.
Qed.
Lemma OutputAddress_returns output net : returns (OutputAddress output net).
Proof. unfold OutputAddress. case_match; [done|]. apply returns_bind; [by repeat case_match|]. intros [prefix hash] _. by case_match. Qed.

(** The key found for an address is the key the address was made from. *)
Lemma GetPrivateKeyForAddress_key tables accounts address key :
  (forall account, account ∈ accounts -> loaded account /\ ownRows account tables) ->
  GetPrivateKeyForAddress tables accounts address = Ok (Some key) ->
  validPriv key /\ Address (publicKey key) = address /\ 0 <= network (basePriv key) < 3.
Proof.
  induction accounts as [|account accounts IH]; intros Hall Hk; [done|]. cbn [GetPrivateKeyForAddress] in Hk.
  destruct (GetAddresses tables _) as [|record records] eqn:Eq.
  { apply IH; [|done]. intros a Ha. apply Hall. by right. }
  destruct (Hall account ltac:(by left)) as [Hl Hown].
  destruct (a_Encrypted account); [done|].
  destruct (GetAddresses_in tables _ record ltac:(rewrite Eq; by left)) as (Hrow & Hs & _).
  unfold selected in Hs. cbn [q_Account q_Address q_Addresses q_Chain q_UsedTimesLT given] in Hs.
  assert (r_Account (rec_Row record) = a_ID account /\ rec_Address record = address) as [Hid Haddr].
  { rewrite !andb_true_iff in Hs. destruct Hs as [[[[Ha Hb] _] _] _].
    apply bool_decide_eq_true in Hb. split; [|done]. apply orb_true_iff in Ha as [Ha|Ha];
      apply bool_decide_eq_true in Ha; [|done]. exfalso. apply (Address_nonempty (a_PublicKey account)); [apply Hl|done]. }
  destruct (Hown _ Hrow Hid) as (manager & pub & Hp). pose proof Hp as (Hm & _ & Ek & _).
  assert (GetPrivateKey account manager (rec_N record) = Ok (Some key)) as Hget.
  { destruct (managers_known account manager Hl Hm) as [-> | (-> & Hs' & Hne)]; rewrite Ek in Hk;
      cbn [k_Chain addressKeyOf] in Hk; [by rewrite Z.eqb_refl in Hk|].
    destruct (Z.eqb_spec (m_ChainNumber (a_Change account)) (m_ChainNumber (a_Receiving account))); [done|].
    by rewrite Z.eqb_refl in Hk. }
  destruct (GetPrivateKey_row account manager pub (rec_Row record) key Hl Hp Hget) as [Hv Epub].
  split; [done|]. rewrite Epub. split; [|apply Hv].
  rewrite <- Haddr. unfold rec_Address. by rewrite Ek.
Qed.
End promises.

(** ** The wallet can spend what was paid to it *)

Section spending.
Context `{Digests} `{ECDSA} `{RowOrder}.

(** The input script [source] redeems a payment to a key hash: it reads as a
    signature and a public key, the key has that hash, and the signature of the
    preimage for the input verifies under the key. *)
Definition redeems (t : Transaction) (k : nat) (source hash : bytes) : Prop :=
  exists script preimage signature,
    ParseTransactionInputScript source = Ok script /\ Hash160 (in_PublicKey script) = hash /\
    SignaturePreimage t (Z.of_nat k) = Ok preimage /\
    in_Signature script = signature ++ [byt TransactionSigHashAll] /\
    signs (in_PublicKey script) preimage signature.

Lemma parse_pubKeyHash_input s :
  GenerateInputScript s = Ok s -> in_Template s = TransactionInputPubKeyHash ->
  ParseTransactionInputScript (in_Source s) =
    Ok (MkInputScript (in_Source s) TransactionInputPubKeyHash (in_Signature s) (in_PublicKey s) [] None None).
Proof.
  intros Hg Ht.
  assert (GenerateInputScript (MkInputScript [] TransactionInputPubKeyHash (in_Signature s) (in_PublicKey s) [] None None)
    = Ok (MkInputScript (in_Source s) TransactionInputPubKeyHash (in_Signature s) (in_PublicKey s) [] None None)) as Hg'.
  { destruct s as [src template sg pk sgs sub e]. cbn [in_Template] in Ht. subst template.
    apply res_bind_Ok in Hg as (source & Hs & Hg). injection Hg as <- _.
    assert ((builder ← builderPush [] sg; builderPush builder pk) = Ok source) as Hb by exact Hs.
    unfold GenerateInputScript. cbn [in_Signature in_PublicKey in_Source].
    change (generateInputSource _) with (builder ← builderPush [] sg; builderPush builder pk). by rewrite Hb. }
  apply input_script_roundtrip in Hg'; [exact Hg'|]. right. left. done.
Qed.

Lemma accountKeyProvider_honest net accounts extraKeys tables :
  (forall account, account ∈ accounts -> loaded account /\ ownRows account tables) -> Forall validPriv extraKeys ->
  honestProvider (accountKeyProvider net accounts extraKeys) (eq tables).
Proof.
  intros Hall Hextra w k input output <-. unfold accountKeyProvider. cbn [fst snd].
  split; [done|]. destruct (out_HasPubKeyHash (o_Script output)).
  - split; [apply returns_bind; [apply OutputAddress_returns|intros; apply GetPrivateKeyForAddress_returns]|].
    intros key Hk. apply res_bind_Ok in Hk as (address & _ & Hk).
    by apply (GetPrivateKeyForAddress_key tables accounts address).
  - split; [done|]. intros key Hk. injection Hk as Hk. destruct extraKeys as [|e extraKeys]; [done|].
    injection Hk as ->. by apply Forall_cons_1 in Hextra as [? _].
Qed.

(** The address of an output determines its key hash. *)
Lemma OutputAddress_hash output net key :
  0 <= net < 3 -> 0 <= network (basePub key) < 3 -> out_HasPubKeyHash (o_Script output) = true ->
  OutputAddress output net = Ok (Address key) -> IdentifierPub key = out_PubKeyHash (o_Script output).
Proof.
  intros Hn Hk Hh Ho. unfold OutputAddress in Ho. destruct (out_Err _); [done|]. rewrite Hh in Ho.
  cbn [mbind res_bind] in Ho. destruct (String.eqb _ _); [done|]. injection Ho as Ho.
  pose proof (address_payload net (out_PubKeyHash (o_Script output)) Hn) as Hpaid.
  pose proof (address_payload (network (basePub key)) (IdentifierPub key) Hk) as Hown.
  unfold address in Hpaid. rewrite Ho in Hpaid. unfold Address in Hpaid. rewrite Hown in Hpaid. by injection Hpaid.
Qed.

(** C21: the wallet can spend what was paid to its addresses.  If the tables hold
    the rows that the accounts' managers persisted, then after [SignWithAccounts]
    succeeds every input that spends a payment to a key hash redeems it: its
    script reads as a signature and a public key, the key has the hash that was
    paid to, and the signature verifies for the finished transaction.  The tables
    are only read. *)
Theorem account_inputs_spendable ledgerNetwork walletAccounts fundingAccounts extraKeys tables t tables' t' :
  (forall ledger, 0 <= ledgerNetwork ledger < 3) ->
  (forall wallet account, account ∈ walletAccounts wallet -> loaded account /\ ownRows account tables) ->
  Forall validPriv extraKeys ->
  SignWithAccounts ledgerNetwork walletAccounts fundingAccounts extraKeys tables t = (tables', t', Ok tt) ->
  tables' = tables /\
  forall k input output, t_Inputs t' !! k = Some input -> i_ResolvedOutput input = Some output ->
    in_Template (i_Script input) = TransactionInputPubKeyHash ->
    out_HasPubKeyHash (o_Script output) = true ->
    redeems t' k (in_Source (i_Script input)) (out_PubKeyHash (o_Script output)).
Proof.
  intros Hnet Hall Hextra. unfold SignWithAccounts.
  destruct (transactionSigningLedgerAndWallet fundingAccounts) as [[ledger wallet]| | |]; try done. intros Hsign.
  pose proof (accountKeyProvider_honest (ledgerNetwork ledger) (walletAccounts wallet) extraKeys tables
    (Hall wallet) Hextra) as Hhonest.
  destruct (Sign_contract _ _ _ _ _ _ _ Hhonest eq_refl Hsign) as (<- & _ & _ & _ & Hinputs).
  split; [done|]. intros k input output Hi Hr Ht Hh.
  destruct (Hinputs k ltac:(by apply lookup_lt_Some in Hi))
    as (input' & unsigned & output' & key & w & w' & Hi' & Hcore & Ho & <- & Hp & Epk & Hg & preimage & signature & Hpre & Esig & Hsigns).
  rewrite Hi in Hi'. injection Hi' as <-. apply core_fields in Hcore as (_ & _ & Hres).
  assert (output' = output) as ->.
  { unfold signableOutput in Ho. rewrite Hres, Hr in Ho. repeat case_match; try done. by injection Ho. }
  unfold accountKeyProvider in Hp. injection Hp as _ Hp. rewrite Hh in Hp.
  apply res_bind_Ok in Hp as (address & Haddress & Hp).
  destruct (GetPrivateKeyForAddress_key _ _ _ _ (Hall wallet) Hp) as (Hv & <- & Hn).
  exists (MkInputScript (in_Source (i_Script input)) TransactionInputPubKeyHash (in_Signature (i_Script input))
    (in_PublicKey (i_Script input)) [] None None), preimage, signature. cbn [in_PublicKey in_Signature].
  split_and!; [by apply parse_pubKeyHash_input| |done|done|by rewrite Epk].
  rewrite Epk. apply (OutputAddress_hash output (ledgerNetwork ledger) (publicKey key)); [done| |done|done].
  by rewrite basePub_public.
Qed.
End spending.
