(* ===== verification/LedgerStore.v ===== *)
(** * The ledger database: transactions, outputs, reservations

    Model of [wallet/ledgerdb/transactions.go], [spendables.go] and the reads of
    [transaction_reads.go], of [wallet/transaction_persistence.go], and of the
    strategy of [wallet/transaction_balancing_accounts.go] that lets the database
    select.  A table is the finite map of its rows by primary key, and a statement
    is its meaning in SQL; the order of rows that compare equal, which SQLite
    leaves open, is the interface [OutputOrder].  The claim columns and the day of
    a transaction are left out: nothing modelled here reads them. *)

From stdpp Require Import sorting.
From S2P Require Import Prelude Digest Hex Decimal Base58 Keys Script ScriptBuild Transaction TransactionBuild.
From S2P Require Import Float PythonRandom CoinSelection Balancing Funding Signing Accounts.

(** ** Rows and tables *)

Record TransactionRow := MkTransactionRow {
  row_TXID : bytes;
  row_Raw : bytes;
  row_Height : Z;
  row_Position : Z;
  row_IsVerified : bool
}.
Record TransactionInputRow := MkInputRow { inrow_TXOID : bytes; inrow_Position : Z }.
Record TransactionOutputRow := MkOutputRow {
  outrow_TXOID : bytes;
  outrow_Address : option bytes;
  outrow_Position : Z;
  outrow_Amount : Z;
  outrow_Script : bytes;
  outrow_TXOType : Z
}.
Record TransactionIORow := MkIORow {
  io_Transaction : TransactionRow;
  io_Inputs : list TransactionInputRow;
  io_Outputs : list TransactionOutputRow
}.

(** A row of [txo] under its [txoid]. *)
Record StoredTransactionOutput := MkStored {
  so_TXID : bytes;
  so_Address : option bytes;
  so_Position : Z;
  so_Amount : Z;
  so_Script : bytes;
  so_IsReserved : bool;
  so_TXOType : Z
}.
(** A row of [txi] under its [txoid]: the spending transaction, the watched
    address, the position of the input. *)
Record StoredTransactionInput := MkSpent { si_TXID : bytes; si_Address : bytes; si_Position : Z }.

Record LedgerStore := MkStore {
  st_Addresses : AddressTables;
  st_TX : gmap bytes TransactionRow;
  st_TXO : gmap bytes StoredTransactionOutput;
  st_TXI : gmap bytes StoredTransactionInput
}.
Definition emptyStore : LedgerStore := MkStore (MkTables [] ∅) ∅ ∅ ∅.

(** ** Saving a batch *)

(** [INSERT OR REPLACE INTO tx] *)
Definition insertTransaction (store : LedgerStore) (row : TransactionRow) : LedgerStore :=
  MkStore (st_Addresses store) (<[row_TXID row := row]> (st_TX store)) (st_TXO store) (st_TXI store).
(** [INSERT OR IGNORE INTO txi] *)
Definition insertInput (txid address : bytes) (store : LedgerStore) (input : TransactionInputRow) : LedgerStore :=
  match st_TXI store !! inrow_TXOID input with
  | Some _ => store
  | None => MkStore (st_Addresses store) (st_TX store) (st_TXO store)
      (<[inrow_TXOID input := MkSpent txid address (inrow_Position input)]> (st_TXI store))
  end.
(** [INSERT OR IGNORE INTO txo]: a new row is not reserved. *)
Definition insertOutput (txid : bytes) (store : LedgerStore) (output : TransactionOutputRow) : LedgerStore :=
  match st_TXO store !! outrow_TXOID output with
  | Some _ => store
  | None => MkStore (st_Addresses store) (st_TX store)
      (<[outrow_TXOID output := MkStored txid (outrow_Address output) (outrow_Position output)
          (outrow_Amount output) (outrow_Script output) false (outrow_TXOType output)]> (st_TXO store))
      (st_TXI store)
  end.
Definition saveRow (address : bytes) (store : LedgerStore) (row : TransactionIORow) : LedgerStore :=
  let stored := io_Transaction row in
  let store := insertTransaction store stored in
  let store := fold_left (insertInput (row_TXID stored) address) (io_Inputs row) store in
  fold_left (insertOutput (row_TXID stored)) (io_Outputs row) store.

(** Every statement runs in one transaction: it commits, or [failure] rolls all
    of it back. *)
Definition inTransaction {A} (failure : option string) (store : LedgerStore) (outcome : LedgerStore * res A)
  : LedgerStore * res A :=
  match failure with
  | Some e => (store, Err e)
  | None => match outcome with
            | (after, Ok a) => (after, Ok a)
            | (_, failed) => (store, failed)
            end
  end.
Definition SaveTransactionIOBatch (failure : option string) (store : LedgerStore) (rows : list TransactionIORow)
    (address history : bytes) : LedgerStore * res unit :=
  let saved := fold_left (saveRow address) rows store in
  inTransaction failure store
    (MkStore (SetAddressHistory (st_Addresses saved) address history) (st_TX saved) (st_TXO saved) (st_TXI saved),
     Ok tt).

(** ** Reserving *)

(** [UPDATE txo SET is_reserved = ? WHERE txoid = ?] *)
Definition setReserved (isReserved : bool) (store : LedgerStore) (outputID : bytes) : LedgerStore :=
  MkStore (st_Addresses store) (st_TX store)
    (alter (fun o => MkStored (so_TXID o) (so_Address o) (so_Position o) (so_Amount o) (so_Script o)
                       isReserved (so_TXOType o)) outputID (st_TXO store))
    (st_TXI store).
Definition ReserveStoredOutputs (failure : option string) (store : LedgerStore) (outputIDs : list bytes)
    (isReserved : bool) : LedgerStore * res unit :=
  inTransaction failure store (fold_left (setReserved isReserved) outputIDs store, Ok tt).

(** ** Reading *)

Definition GetTransaction (store : LedgerStore) (txid : bytes) : option TransactionRow := st_TX store !! txid.
Definition GetOutputsByID (store : LedgerStore) (txoids : list bytes) : gmap bytes StoredTransactionOutput :=
  filter (fun '(txoid, _) => txoid ∈ txoids) (st_TXO store).

(** A row of the join of an output with its transaction. *)
Definition spendableRow (txoid : bytes) (output : StoredTransactionOutput) (tx : TransactionRow) : SpendableOutputRow :=
  MkRow (so_TXID output) txoid (row_Raw tx) (row_Height tx) (row_Position tx) (so_Position output)
    (row_IsVerified tx) (so_Amount output) (so_Script output).
(** The WHERE clause of [spendableOutputQuery]; a window is the one of the SQLite
    selector. *)
Definition spendableType (window : option (Z * Z)) (output : StoredTransactionOutput) : bool :=
  match window with
  | Some (floor, ceiling) =>
      (so_TXOType output =? 0) && (floor <=? so_Amount output) && (so_Amount output <? ceiling)
  | None => (so_TXOType output =? 0) || (so_TXOType output =? 4)
  end.
Definition inAccounts (accountIDs : list bytes) (row : AddressRow) : bool :=
  bool_decide (accountIDs = []) || bool_decide (r_Account row ∈ accountIDs).
(** The rows one output contributes: one for every address row that owns it. *)
Definition outputRows (store : LedgerStore) (accountIDs : list bytes) (window : option (Z * Z))
    (entry : bytes * StoredTransactionOutput) : list SpendableOutputRow :=
  let '(txoid, output) := entry in
  match st_TX store !! so_TXID output, st_TXI store !! txoid with
  | Some tx, None =>
      if negb (so_IsReserved output) && spendableType window output then
        map (fun _ => spendableRow txoid output tx)
          (List.filter (fun row => bool_decide (Some (k_Address (r_Key row)) = so_Address output) &&
                                   inAccounts accountIDs row) (account_address (st_Addresses store)))
      else []
  | _, _ => []
  end.
Definition spendableOutputQuery (store : LedgerStore) (accountIDs : list bytes) (window : option (Z * Z))
  : list SpendableOutputRow :=
  flat_map (outputRows store accountIDs window) (map_to_list (st_TXO store)).

(** The two ORDER BY clauses. *)
Definition unconfirmed (row : SpendableOutputRow) : bool := (RowHeight row =? 0) || (RowHeight row =? -1).
Definition recentFirst (r s : SpendableOutputRow) : Prop :=
  (unconfirmed r = true /\ unconfirmed s = false) \/
  (unconfirmed r = unconfirmed s /\
    (RowHeight s < RowHeight r \/
     (RowHeight s = RowHeight r /\
       (RowTXPosition s < RowTXPosition r \/
        (RowTXPosition s = RowTXPosition r /\ OutputPosition r <= OutputPosition s))))).
Definition smallestFirst (r s : SpendableOutputRow) : Prop :=
  RowAmount r < RowAmount s \/ (RowAmount r = RowAmount s /\ RowHeight s <= RowHeight r).
Definition spendableOrdered (window : option (Z * Z)) : SpendableOutputRow -> SpendableOutputRow -> Prop :=
  match window with Some _ => smallestFirst | None => recentFirst end.
Class OutputOrder := {
  orderSpendables : option (Z * Z) -> list SpendableOutputRow -> list SpendableOutputRow;
  orderSpendables_perm window rows : orderSpendables window rows ≡ₚ rows;
  orderSpendables_sorted window rows : StronglySorted (spendableOrdered window) (orderSpendables window rows)
}.

Section statements.
Context `{OutputOrder}.

Definition ListStoredOutputs (store : LedgerStore) (accountIDs : list bytes) : list SpendableOutputRow :=
  orderSpendables None (spendableOutputQuery store accountIDs None).

(** The ledger database of [Funding.v]. *)
#[export] Instance ledgerDatabase : LedgerDatabase LedgerStore := {
  ListSpendableOutputs store accountID := (store, Ok (ListStoredOutputs store [accountID]));
  ReserveOutputs := ReserveStoredOutputs None
}.

(** ** Selection by the database *)

Definition ErrSpendableAmountOverflow : string := "spendable effective amount overflows int64".
Definition estimatedPubKeyHashSpendSize : Z := 148.

(** The second result says whether the first is meaningful. *)
Definition checkedPositiveProduct (left right : Z) : Z * bool :=
  if (left =? 0) || (right =? 0) then (0, true)
  else if (left <? 0) || (right <? 0) || (max_i64 / right <? left) then (0, false)
  else (i64 (left * right), true).
Definition addSpendableEffectiveAmount (left right : Z) : res Z :=
  if ((0 <? right) && (i64 (max_i64 - right) <? left)) || ((right <? 0) && (left <? i64 (min_i64 - right)))
  then Err ErrSpendableAmountOverflow
  else Ok (i64 (left + right)).

(** The callbacks decode the parent of a row; they see nothing but the row. *)
Variable effectiveAmount : option (SpendableOutputRow -> res Z).
Variable inspect : option (SpendableOutputRow -> res unit).
Variables (feePerByte amountToReserve : Z).

Definition sqliteSpendableEffectiveAmount (row : SpendableOutputRow) : res Z :=
  match effectiveAmount with
  | Some effectiveAmount => effectiveAmount row
  | None => Ok (i64 (RowAmount row - i64 (estimatedPubKeyHashSpendSize * feePerByte)))
  end.
(** The rows selected so far, whose IDs are [selectedIDs], and what they are worth. *)
Definition progress : Type := list SpendableOutputRow * Z.
Definition take_row (st : progress) (row : SpendableOutputRow) : res progress :=
  contribution ← sqliteSpendableEffectiveAmount row;
  reservedAmount ← addSpendableEffectiveAmount st.2 contribution;
  Ok (st.1 ++ [row], reservedAmount).

(** [for rows.Next()]; the last component is [None] when it returns early. *)
Fixpoint verifiedRows (rows : list SpendableOutputRow) (st : progress) (unconfirmed : list SpendableOutputRow)
  : res (progress * option (list SpendableOutputRow)) :=
  match rows with
  | [] => Ok (st, Some unconfirmed)
  | row :: rows =>
      _ ← match inspect with Some inspect => inspect row | None => Ok tt end;
      if RowIsVerified row then
        st ← take_row st row;
        if amountToReserve <=? st.2 then Ok (st, None) else verifiedRows rows st unconfirmed
      else verifiedRows rows st (unconfirmed ++ [row])
  end.
Fixpoint unconfirmedRows (rows : list SpendableOutputRow) (st : progress) : res progress :=
  match rows with
  | [] => Ok st
  | row :: rows =>
      if amountToReserve <=? st.2 then Ok st
      else st ← take_row st row; unconfirmedRows rows st
  end.
Definition selectSQLiteSpendableWindow (store : LedgerStore) (accountIDs : list bytes) (floor ceiling : Z)
    (st : progress) : res progress :=
  let window := Some (floor, ceiling) in
  '(st, unconfirmed) ← verifiedRows (orderSpendables window (spendableOutputQuery store accountIDs window)) st [];
  match unconfirmed with
  | None => Ok st
  | Some unconfirmed => unconfirmedRows unconfirmed st
  end.

(** [for reservedAmount < amountToReserve && gapCount < 5] *)
Fixpoint windowLoop (fuel : nat) (store : LedgerStore) (accountIDs : list bytes) (floor multiplier gapCount : Z)
    (st : progress) : res progress :=
  if (amountToReserve <=? st.2) || (5 <=? gapCount) then Ok st
  else
    let '(ceiling, ok) := checkedPositiveProduct floor multiplier in
    if negb ok || (max_i64 <=? ceiling) then Ok st
    else match fuel with
    | O => NoFuel
    | S fuel =>
        next ← selectSQLiteSpendableWindow store accountIDs floor ceiling st;
        if st.2 =? next.2 then
          if max_i64 / multiplier <? multiplier then Ok next
          else windowLoop fuel store accountIDs ceiling (i64 (multiplier * multiplier)) (gapCount + 1) next
        else windowLoop fuel store accountIDs ceiling 100 0 next
    end.
(** At most ten windows: the floor grows a hundredfold, or stays zero for five. *)
Definition maximumWindows : nat := 10.
Definition getAndReserveSpendableOutputs (store : LedgerStore) (accountIDs : list bytes) (floor : Z)
    (setsReserved returnInsufficientFunds : bool) : LedgerStore * res (list SpendableOutputRow) :=
  match windowLoop maximumWindows store accountIDs floor 100 0 ([], 0) with
  | Ok (selected, reservedAmount) =>
      if (reservedAmount <? amountToReserve) && negb returnInsufficientFunds then (store, Ok [])
      else if (amountToReserve <=? reservedAmount) && setsReserved then
        (fold_left (setReserved true) (map TXOID selected) store, Ok selected)
      else (store, Ok selected)
  | Err e => (store, Err e)
  | Panic => (store, Panic)
  | NoFuel => (store, NoFuel)
  end.
Definition GetAndReserveSpendableOutputs (failure : option string) (store : LedgerStore) (accountIDs : list bytes)
    (floor : Z) (setsReserved returnInsufficientFunds : bool) : LedgerStore * res (list SpendableOutputRow) :=
  inTransaction failure store
    (getAndReserveSpendableOutputs store accountIDs floor setsReserved returnInsufficientFunds).
End statements.

(** ** What is saved for a watched address *)

Definition ErrTransactionAmountOverflow : string := "transaction output amount exceeds SQLite integer range".

Section projection.
Context `{Digests}.
(** The ledger's network; [ProjectTransactionMetadata], which decodes the
    protobuf payload of claims, for the type of an output; and
    [transactionJulianDay], whose value is in a column left out. *)
Variables (network : Network) (outputType : Transaction -> TransactionOutput -> res Z)
  (julianDay : Transaction -> res unit).

(** [for _, input := range transaction.Inputs]: the rows of the inputs that spend
    from the address. *)
Fixpoint projectInputs (address : bytes) (inputs : list TransactionInput) : res (list TransactionInputRow) :=
  match inputs with
  | [] => Ok []
  | input :: inputs =>
      match i_ResolvedOutput input with
      | None => projectInputs address inputs
      | Some output =>
          match out_Err (o_Script output) with
          | Some e => Err ("resolve input script: " ++ e)%string
          | None =>
              if negb (HasAddress (o_Script output)) then projectInputs address inputs
              else
                resolvedAddress ← map_err (fun e => "resolve input address: " ++ e)%string
                                    (OutputAddress output network);
                rest ← projectInputs address inputs;
                Ok (if bool_decide (resolvedAddress = address)
                    then MkInputRow (OutputID output) (i_Position input) :: rest else rest)
          end
      end
  end.
(** [for index := range transaction.Outputs] *)
Definition projectedOutput (targetHash : bytes) (isMyInput : bool) (output : TransactionOutput) : bool :=
  (IsPayPubKeyHash (o_Script output) && (bool_decide (out_PubKeyHash (o_Script output) = targetHash) || isMyInput))
  || (IsPayScriptHash (o_Script output) && isMyInput).
Fixpoint projectOutputs (transaction : Transaction) (targetHash : bytes) (isMyInput : bool)
    (outputs : list TransactionOutput) : res (list TransactionOutputRow) :=
  match outputs with
  | [] => Ok []
  | output :: outputs =>
      match out_Err (o_Script output) with
      | Some e => Err ("transaction output script: " ++ e)%string
      | None =>
          if negb (projectedOutput targetHash isMyInput output)
          then projectOutputs transaction targetHash isMyInput outputs
          else if max_i64 <? o_Amount output then Err ErrTransactionAmountOverflow
          else
            txoType ← map_err (fun e => "project transaction output: " ++ e)%string (outputType transaction output);
            address ← map_err (fun e => "project transaction output address: " ++ e)%string
                        (OutputAddress output network);
            rest ← projectOutputs transaction targetHash isMyInput outputs;
            Ok (MkOutputRow (OutputID output) (Some address) (o_Position output) (i64 (o_Amount output))
                  (out_Source (o_Script output)) txoType :: rest)
      end
  end.
Definition projectTransaction (address targetHash : bytes) (transaction : Transaction) : res TransactionIORow :=
  _ ← julianDay transaction;
  inputs ← projectInputs address (t_Inputs transaction);
  outputs ← projectOutputs transaction targetHash (negb (bool_decide (inputs = []))) (t_Outputs transaction);
  Ok (MkIORow (MkTransactionRow (t_ID transaction) (t_Raw transaction) (t_Height transaction)
                 (t_Position transaction) (t_IsVerified transaction)) inputs outputs).
Fixpoint ProjectTransactionIOBatch (transactions : list Transaction) (address targetHash : bytes)
  : res (list TransactionIORow) :=
  match transactions with
  | [] => Ok []
  | transaction :: transactions =>
      row ← projectTransaction address targetHash transaction;
      rest ← ProjectTransactionIOBatch transactions address targetHash;
      Ok (row :: rest)
  end.
(** [Ledger.SaveTransactionIOBatch] *)
Definition SaveTransactions (failure : option string) (store : LedgerStore) (transactions : list Transaction)
    (address targetHash history : bytes) : LedgerStore * res unit :=
  match ProjectTransactionIOBatch transactions address targetHash with
  | Ok rows => SaveTransactionIOBatch failure store rows address history
  | Err e => (store, Err e)
  | Panic => (store, Panic)
  | NoFuel => (store, NoFuel)
  end.
End projection.

(** ** The strategy that lets the database select *)

Section strategy.
Context `{Digests} `{OutputOrder}.

(** Of an output of a transaction that was parsed from the database, whose
    outputs carry its ID: [NewSpendInput] and what spending it brings. *)
Definition spendParent (feePerByte : Z) (parent : Transaction) (position : Z) : res TransactionSpendable :=
  if (position <? 0) || (2 ^ 32 - 1 <? position) || (blen (t_Outputs parent) <=? position)
  then Err ErrTransactionOutputOutOfRange
  else match t_Outputs parent !! Z.to_nat position with
  | None => Panic
  | Some output =>
      input ← NewSpendInput output;
      fee ← InputFee (LegacyTransactionFeePolicy feePerByte 0) input;
      amount ← transactionBalanceUint64 (o_Amount output);
      effectiveAmount ← subtractTransactionBalanceAmount amount fee;
      Ok (MkSpendable input effectiveAmount)
  end.
(** The callbacks, which price a row by its amount column. *)
Definition decodeParent (row : SpendableOutputRow) : res Transaction := ParseTransaction (RowRaw row).
Definition rowEffectiveAmount (feePerByte : Z) (row : SpendableOutputRow) : res Z :=
  parent ← decodeParent row;
  let position := OutputPosition row in
  if (position <? 0) || (2 ^ 32 - 1 <? position) || (blen (t_Outputs parent) <=? position)
  then Err ErrTransactionOutputOutOfRange
  else match t_Outputs parent !! Z.to_nat position with
  | None => Panic
  | Some output =>
      input ← NewSpendInput output;
      fee ← InputFee (LegacyTransactionFeePolicy feePerByte 0) input;
      subtractTransactionBalanceAmount (RowAmount row) fee
  end.
Definition inspectRow (row : SpendableOutputRow) : res unit := _ ← decodeParent row; Ok tt.

(** The rows by parent, parents in the order they were met. *)
Definition parentKey (row : SpendableOutputRow) : bytes * Z * bool := (RowRaw row, RowHeight row, RowIsVerified row).
Fixpoint addToGroup (row : SpendableOutputRow) (groups : list (list SpendableOutputRow))
  : list (list SpendableOutputRow) :=
  match groups with
  | [] => [[row]]
  | group :: groups =>
      match group with
      | first :: _ => if bool_decide (parentKey first = parentKey row) then (group ++ [row]) :: groups
                      else group :: addToGroup row groups
      | [] => group :: addToGroup row groups
      end
  end.
Definition groupRows (rows : list SpendableOutputRow) : list (list SpendableOutputRow) :=
  fold_left (fun groups row => addToGroup row groups) rows [].
Fixpoint spendRows (feePerByte : Z) (rows : list SpendableOutputRow) : res (list TransactionSpendable) :=
  match rows with
  | [] => Ok []
  | row :: rows =>
      parent ← decodeParent row;
      spendable ← spendParent feePerByte parent (OutputPosition row);
      rest ← spendRows feePerByte rows;
      Ok (spendable :: rest)
  end.
Definition getSQLiteSpendableTransactionInputs (failure : option string) (feePerByte costOfChange : Z)
    (store : LedgerStore) (accountIDs : list bytes) (amount : Z) : LedgerStore * res (list TransactionSpendable) :=
  match addTransactionBalanceAmount amount costOfChange with
  | Ok reserveAmount =>
      let minimumAmount := Z.min 1 (Z.quot amount 10) in
      let '(store, rows) := GetAndReserveSpendableOutputs (Some (rowEffectiveAmount feePerByte)) (Some inspectRow)
                              feePerByte reserveAmount failure store accountIDs minimumAmount true false in
      (store, rows ← rows; spendRows feePerByte (concat (groupRows rows)))
  | Err e => (store, Err e)
  | Panic => (store, Panic)
  | NoFuel => (store, NoFuel)
  end.
End strategy.
