(* ===== verification/AddressBook.v ===== *)
(** * The address book

    The tables of [Accounts.v] as filling gaps and recording histories leave
    them: an invariant that every operation keeps, database failures included,
    and what [EnsureAddressGap] promises in any tables that can be reached.  The
    witness of [Accounts.account_inputs_spendable] is here too. *)

From stdpp Require Import sorting.
From S2P Require Import Prelude Digest Hex Base58 Keys Script ScriptBuild ScriptRoundtrip Transaction TransactionBuild.
From S2P Require Import PythonRandom CoinSelection Balancing Funding Signing Accounts.

(** ** The address book *)

Lemma existsb_In {A} (f : A -> bool) l : existsb f l = true <-> exists x, x ∈ l /\ f x = true.
Proof. rewrite existsb_exists. split; intros (x & Hx & Hf); exists x; by rewrite list_elem_of_In in *. Qed.

Definition rowKey (row : AddressRow) : bytes * bytes := (r_Account row, k_Address (r_Key row)).
Definition position (row : AddressRow) : bytes * Z * Z := (r_Account row, k_Chain (r_Key row), k_N (r_Key row)).

Lemma insertRow_spec rows row :
  NoDup (map rowKey rows) ->
  NoDup (map rowKey (insertRow rows row)) /\
  (forall r, r ∈ insertRow rows row -> r ∈ rows \/ r = row) /\
  (forall r, r ∈ rows -> r ∈ insertRow rows row) /\
  exists r, r ∈ insertRow rows row /\ rowKey r = rowKey row.
Proof.
  intros Hnd. unfold insertRow. destruct (existsb _ rows) eqn:E.
  - split_and!; [done|by left|done|]. apply existsb_In in E as (r & Hr & E). exists r. split; [done|].
    apply andb_true_iff in E as [E1%bool_decide_eq_true E2%bool_decide_eq_true]. unfold rowKey. by rewrite E1, E2.
  - split_and!.
    + rewrite map_app. apply NoDup_app. split_and!; [done| |by apply NoDup_singleton].
      intros key (r & -> & Hr)%list_elem_of_fmap [= Hk1 Hk2]%list_elem_of_singleton.
      apply not_true_iff_false in E. apply E, existsb_In. exists r. split; [done|].
      by rewrite Hk1, Hk2, !bool_decide_eq_true_2.
    + intros r. rewrite elem_of_app, list_elem_of_singleton. tauto.
    + intros r Hr. apply elem_of_app. by left.
    + exists row. split; [|done]. apply elem_of_app. right. by apply list_elem_of_singleton.
Qed.
Lemma insertRows_spec new rows :
  NoDup (map rowKey rows) ->
  NoDup (map rowKey (fold_left insertRow new rows)) /\
  (forall r, r ∈ fold_left insertRow new rows -> r ∈ rows \/ r ∈ new) /\
  (forall r, r ∈ rows -> r ∈ fold_left insertRow new rows) /\
  forall row, row ∈ new -> exists r, r ∈ fold_left insertRow new rows /\ rowKey r = rowKey row.
Proof.
  revert rows. induction new as [|row new IH]; intros rows Hnd; cbn [fold_left].
  - split_and!; [done|by left|done|by intros row Hr%not_elem_of_nil].
  - destruct (insertRow_spec rows row Hnd) as (Hnd1 & Hin1 & Hkeep1 & r1 & Hr1 & Hk1).
    destruct (IH _ Hnd1) as (Hnd2 & Hin2 & Hkeep2 & Hnew2). split_and!; [done| |auto|].
    + intros r [Hr|Hr]%Hin2; [apply Hin1 in Hr as [Hr | ->]; [by left|right; left]|right; by right].
    + intros row' [-> |Hrow]%elem_of_cons; [exists r1; auto|by apply Hnew2].
Qed.
Lemma member_further {A} (x y : A) l : x <> y -> x ∈ l <-> x ∈ y :: l.
Proof. rewrite elem_of_cons. tauto. Qed.
Lemma insertAddresses_lookup keys table address :
  fold_left insertAddress keys table !! address =
  match table !! address with
  | Some entry => Some entry
  | None => if bool_decide (address ∈ map k_Address keys) then Some (None, 0) else None
  end.
Proof.
  revert table. induction keys as [|key keys IH]; intros table; cbn [fold_left map].
  - by destruct (table !! address).
  - rewrite IH. clear IH. unfold insertAddress. set (rest := map k_Address keys).
    destruct (decide (address = k_Address key)) as [-> |Hne].
    + rewrite (bool_decide_eq_true_2 (k_Address key ∈ k_Address key :: rest)) by (by left).
      destruct (table !! k_Address key) as [entry|] eqn:E; [by rewrite E|]. by rewrite lookup_insert, decide_True.
    + assert (match table !! k_Address key with Some _ => table | None => <[k_Address key := (None, 0)]> table end
              !! address = table !! address) as -> by (case_match; [done|by rewrite lookup_insert_ne]).
      destruct (table !! address); [done|]. by rewrite (bool_decide_ext _ _ (member_further address (k_Address key) rest Hne)).
Qed.

Section book.
Context `{Digests} `{Secp256k1} `{RowOrder}.
Variable accounts : list WalletAccount.
Hypothesis all_loaded : forall account, account ∈ accounts -> loaded account.
Hypothesis own_IDs : forall a b, a ∈ accounts -> b ∈ accounts -> a_ID a = a_ID b -> a = b.

Definition genuine (row : AddressRow) : Prop :=
  exists account manager pub, account ∈ accounts /\ persistedBy account manager pub row.
(** A collision: two positions with one address. *)
Definition addressClash : Prop := exists r s,
  genuine r /\ genuine s /\ k_Address (r_Key r) = k_Address (r_Key s) /\ position r <> position s.
Definition visibleAt (tables : AddressTables) (p : bytes * Z * Z) : Prop := exists row,
  row ∈ account_address tables /\ position row = p /\ is_Some (pubkey_address tables !! k_Address (r_Key row)).
Definition visible (tables : AddressTables) (account : WalletAccount) (manager : AddressManager) (n : Z) : Prop :=
  visibleAt tables (a_ID account, m_ChainNumber manager, n).
(** The chain of a manager shows its first [count] addresses. *)
Definition shows (tables : AddressTables) (account : WalletAccount) (manager : AddressManager) (count : Z) : Prop :=
  0 <= count /\ forall n, visible tables account manager n <-> 0 <= n < count.

(** The invariant: the rows are those of the managers, none twice; every address
    in use has a row; and each deterministic chain is known without a hole. *)
Record book (tables : AddressTables) : Prop := {
  book_rows : forall row, row ∈ account_address tables -> genuine row;
  book_unique : NoDup (map rowKey (account_address tables));
  book_known : forall address, is_Some (pubkey_address tables !! address) ->
    exists row, row ∈ account_address tables /\ k_Address (r_Key row) = address;
  book_chains : forall account manager, account ∈ accounts -> manager ∈ AddressManagers account ->
    m_singleAddress manager = false -> exists count, shows tables account manager count
}.

Lemma empty_book : book (MkTables [] ∅).
Proof.
  split; cbn.
  - by intros row Hr%not_elem_of_nil.
  - constructor.
  - intros address [x Hx]. done.
  - intros account manager _ _ _. exists 0. split; [done|]. intros n. split; [|lia].
    intros (row & Hr & _). by apply not_elem_of_nil in Hr.
Qed.

(** A position determines the row. *)
Lemma genuine_position r s : genuine r -> genuine s -> position r = position s -> rowKey r = rowKey s.
Proof.
  intros (a & m & pub & Ha & Hm & Hid & Ek & Hpub) (b & m' & pub' & Hb & Hm' & Hid' & Ek' & Hpub') Hp.
  unfold position in Hp. injection Hp as E1 E2 E3. unfold rowKey. rewrite E1. f_equal.
  assert (a = b) as -> by (apply own_IDs; [done..|congruence]).
  rewrite Ek, Ek' in E2, E3 |- *. cbn [k_Chain k_N k_Address addressKeyOf] in *. rewrite E3 in Hpub.
  assert (m = m') as ->; [|congruence].
  destruct (managers_known b m (all_loaded b Hb) Hm) as [-> | (-> & _ & Hne)],
    (managers_known b m' (all_loaded b Hb) Hm') as [-> | (-> & _ & Hne')]; congruence.
Qed.

Definition separated (rows : list AddressRow) : Prop := forall r s,
  r ∈ rows -> s ∈ rows -> k_Address (r_Key r) = k_Address (r_Key s) -> position r = position s.
Lemma separated_or_clash rows :
  (forall r, r ∈ rows -> genuine r) -> addressClash \/ separated rows.
Proof.
  intros Hg.
  destruct (decide (Forall (fun r => Forall (fun s =>
    k_Address (r_Key r) = k_Address (r_Key s) -> position r = position s) rows) rows)) as [Hall|Hnot].
  - right. intros r s Hr Hs. rewrite Forall_forall in Hall. specialize (Hall r Hr).
    rewrite Forall_forall in Hall. by apply Hall.
  - left. apply not_Forall_Exists in Hnot; [|apply _]. apply Exists_exists in Hnot as (r & Hr & Hnot).
    cbn in Hnot. apply not_Forall_Exists in Hnot; [|apply _]. apply Exists_exists in Hnot as (s & Hs & Hnot).
    cbn in Hnot. exists r, s. split_and!; [by apply Hg..| |].
    + destruct (decide (k_Address (r_Key r) = k_Address (r_Key s))); [done|]. exfalso. by apply Hnot.
    + intros E. by apply Hnot.
Qed.

(** What [AddKeys] does to the tables: the second list is [] when its second
    transaction fails. *)
Definition extend (tables : AddressTables) (new shown : list AddressRow) : AddressTables :=
  MkTables (fold_left insertRow new (account_address tables))
    (fold_left insertAddress (map r_Key shown) (pubkey_address tables)).
Lemma extend_known tables new shown address :
  is_Some (pubkey_address (extend tables new shown) !! address) <->
  is_Some (pubkey_address tables !! address) \/ exists row, row ∈ shown /\ k_Address (r_Key row) = address.
Proof.
  cbn. rewrite insertAddresses_lookup, map_map. destruct (pubkey_address tables !! address) as [x|].
  { split; [left|]; by eexists. }
  split.
  - intros [x Hx]. case_bool_decide as Hd; [|done]. apply list_elem_of_fmap in Hd as (row & -> & Hr). right. by exists row.
  - intros [[x Hx]|(row & Hr & E)]; [done|]. rewrite bool_decide_eq_true_2; [by eexists|].
    apply list_elem_of_fmap. by exists row.
Qed.

Section extending.
Variables (tables : AddressTables) (new shown : list AddressRow).
Hypothesis Hbook : book tables.
Hypothesis new_genuine : forall r, r ∈ new -> genuine r.
Hypothesis shown_new : forall r, r ∈ shown -> r ∈ new.
Hypothesis apart : separated (account_address tables ++ new).

Lemma extend_row r : r ∈ account_address (extend tables new shown) -> r ∈ account_address tables ++ new.
Proof.
  intros Hr. destruct (insertRows_spec new _ (book_unique _ Hbook)) as (_ & Hin & _).
  apply elem_of_app. by apply Hin.
Qed.
Lemma extend_visible p : visibleAt (extend tables new shown) p <-> visibleAt tables p \/ exists r, r ∈ shown /\ position r = p.
Proof.
  destruct (insertRows_spec new _ (book_unique _ Hbook)) as (_ & Hin & Hkeep & Hnew). split.
  - intros (row & Hr & <- & Hsome). apply extend_row in Hr as Hrow. apply extend_known in Hsome as [Hsome|(s & Hs & E)].
    + left. destruct (book_known _ Hbook _ Hsome) as (s & Hs & E). exists s. rewrite E. split_and!; [done| |done].
      apply apart; [apply elem_of_app; by left|done|done].
    + right. exists s. split; [done|]. apply apart; [apply elem_of_app; right; by apply shown_new|done|done].
  - intros [(row & Hr & <- & Hsome)|(r & Hr & <-)].
    + exists row. split_and!; [by apply Hkeep|done|]. apply extend_known. by left.
    + destruct (Hnew r (shown_new r Hr)) as (s & Hs & E). unfold rowKey in E. injection E as E1 E2.
      exists s. split_and!; [done| |].
      * apply apart; [by apply extend_row|apply elem_of_app; right; by apply shown_new|done].
      * rewrite E2. apply extend_known. right. by exists r.
Qed.
Lemma extend_book :
  (forall account manager, account ∈ accounts -> manager ∈ AddressManagers account ->
     m_singleAddress manager = false -> exists count, shows (extend tables new shown) account manager count) ->
  book (extend tables new shown).
Proof.
  intros Hchains. destruct (insertRows_spec new _ (book_unique _ Hbook)) as (Hnd & Hin & Hkeep & Hnew).
  split; [|exact Hnd| |exact Hchains].
  - intros row [Hr|Hr]%Hin; [by apply (book_rows _ Hbook)|by apply new_genuine].
  - intros address [Hs|(r & Hr & <-)]%extend_known.
    + destruct (book_known _ Hbook _ Hs) as (row & Hr & E). exists row. split; [by apply Hkeep|done].
    + destruct (Hnew r (shown_new r Hr)) as (s & Hs & E). exists s. split; [done|]. by injection E.
Qed.
End extending.

(** ** Reading a chain from its end *)

Fixpoint down (n : nat) : list Z := match n with O => [] | S n => Z.of_nat n :: down n end.
Lemma down_in n x : x ∈ down n <-> 0 <= x < Z.of_nat n.
Proof.
  induction n as [|n IH]; cbn [down].
  - split; [by intros ?%not_elem_of_nil|lia].
  - rewrite elem_of_cons, IH. lia.
Qed.
Lemma down_sorted n : StronglySorted Z.ge (down n).
Proof.
  induction n as [|n IH]; constructor; [done|]. apply Forall_forall. intros x Hx%down_in. lia.
Qed.
Lemma down_NoDup n : NoDup (down n).
Proof. induction n as [|n IH]; constructor; [|done]. intros Hx%down_in. lia. Qed.
Lemma down_lookup n i : (i < n)%nat -> down n !! i = Some (Z.of_nat n - 1 - Z.of_nat i).
Proof.
  revert i. induction n as [|n IH]; intros [|i] Hi; try lia; cbn [down lookup list_lookup].
  - f_equal. lia.
  - rewrite IH by lia. f_equal. lia.
Qed.
Lemma length_down n : length (down n) = n.
Proof. induction n as [|n IH]; [done|]. cbn [down length]. by rewrite IH. Qed.

Lemma joined_rows tables : sublist (map rec_Row (joined tables)) (account_address tables).
Proof.
  unfold joined. induction (account_address tables) as [|row rows IH]; [constructor|]. cbn [omap list_omap].
  destruct (pubkey_address tables !! _) as [[h u]|]; cbn; by constructor.
Qed.
Lemma filter_rows {A B} (f : A -> B) p l : sublist (map f (List.filter p l)) (map f l).
Proof. induction l as [|x l IH]; [constructor|]. cbn. destruct (p x); by constructor. Qed.

Lemma StronglySorted_map {A B} (R : A -> A -> Prop) (S : B -> B -> Prop) (f : A -> B) l :
  (forall x y, R x y -> S (f x) (f y)) -> StronglySorted R l -> StronglySorted S (map f l).
Proof.
  intros Hf. induction 1 as [|x l Hs IH Hx]; constructor; [done|].
  rewrite Forall_forall in Hx. apply Forall_forall. intros y (z & -> & Hz)%list_elem_of_fmap. apply Hf. by apply Hx.
Qed.

Section chain.
Variables (tables : AddressTables) (account : WalletAccount) (manager : AddressManager) (count : Z).
Hypothesis Hbook : book tables.
Hypothesis Haccount : account ∈ accounts.
Hypothesis Hmanager : manager ∈ AddressManagers account.
Hypothesis deterministic : m_singleAddress manager = false.
Hypothesis Hshows : shows tables account manager count.

Definition chainQuery (limit : option Z) : AddressQuery :=
  MkQuery (a_ID account) None [] (Some (m_ChainNumber manager)) None AddressOrderIndexDescending limit.
Lemma chainQuery_selected limit r :
  selected (chainQuery limit) r = true <->
  r_Account (rec_Row r) = a_ID account /\ k_Chain (r_Key (rec_Row r)) = m_ChainNumber manager.
Proof.
  unfold selected, chainQuery. cbn [q_Account q_Address q_Addresses q_Chain q_UsedTimesLT given].
  rewrite !andb_true_r, !andb_true_iff, orb_true_iff, !bool_decide_eq_true, Z.eqb_eq.
  pose proof (Address_nonempty (a_PublicKey account) (proj1 (all_loaded account Haccount))) as Hne.
  change (Address (a_PublicKey account)) with (a_ID account) in Hne. tauto.
Qed.

Definition chainRecords : list AddressRecord := List.filter (selected (chainQuery None)) (joined tables).
Lemma chainRecords_in r :
  r ∈ chainRecords <->
  position (rec_Row r) = (a_ID account, m_ChainNumber manager, rec_N r) /\ rec_Row r ∈ account_address tables /\
  pubkey_address tables !! rec_Address r = Some (rec_History r, rec_UsedTimes r).
Proof.
  unfold chainRecords. rewrite list_elem_of_In, filter_In, chainQuery_selected, <- list_elem_of_In, joined_in.
  unfold position, rec_N. split; [intros [[Hr Hp] [-> ->]]; done|]. intros (E & Hr & Hp). injection E as -> ->. done.
Qed.
Lemma chainRecords_indices : NoDup (map rec_N chainRecords) /\ forall n, n ∈ map rec_N chainRecords <-> 0 <= n < count.
Proof.
  assert (NoDup (map rec_Row chainRecords)) as Hnd.
  { eapply sublist_NoDup; [apply (NoDup_fmap_1 rowKey), (book_unique _ Hbook)|].
    etrans; [apply filter_rows|apply joined_rows]. }
  split.
  - apply NoDup_fmap_2_strong; [|by apply (NoDup_fmap_1 rec_Row)].
    intros r s Hr%chainRecords_in Hs%chainRecords_in En. destruct Hr as (Pr & Ir & Lr), Hs as (Ps & Is & Ls).
    assert (rowKey (rec_Row r) = rowKey (rec_Row s)) as Ek
      by (apply genuine_position; [by apply (book_rows _ Hbook)..|congruence]).
    assert (rec_Row r = rec_Row s) as Erow.
    { apply list_elem_of_lookup in Ir as [i Hi], Is as [j Hj]. pose proof (book_unique _ Hbook) as Hu.
      assert (i = j) as ->; [|congruence]. rewrite NoDup_alt in Hu. apply (Hu i j (rowKey (rec_Row r)));
        rewrite (list_lookup_fmap rowKey); [by rewrite Hi|by rewrite Hj, Ek]. }
    unfold rec_Address in *. rewrite Erow, Ls in Lr. injection Lr as E1 E2. destruct r, s. cbn in *. congruence.
  - intros n. rewrite <- (proj2 Hshows n). split.
    + intros (r & -> & Hr)%list_elem_of_fmap. apply chainRecords_in in Hr as (Pr & Ir & Lr).
      exists (rec_Row r). split_and!; [done..|]. unfold rec_Address in Lr. rewrite Lr. by eexists.
    + intros (row & Ir & Pr & [[h u] Hl]). apply list_elem_of_fmap. exists (MkRecord row h u).
      unfold position in Pr. injection Pr as P1 P2 P3. split; [done|]. apply chainRecords_in.
      unfold position, rec_N. cbn. by rewrite P1, P2, P3.
Qed.

(** The last [gap] addresses of the chain, the newest first. *)
Lemma query_descending gap :
  0 <= gap -> exists records,
  queryAddressRecords tables account manager false (Some gap) AddressOrderIndexDescending = Ok records /\
  map rec_N records = take (Z.to_nat gap) (down (Z.to_nat count)) /\
  forall r, r ∈ records -> r ∈ chainRecords.
Proof.
  intros Hgap. exists (GetAddresses tables (chainQuery (Some gap))).
  split; [unfold queryAddressRecords; by rewrite deterministic|].
  unfold GetAddresses. cbn [q_Limit q_Order chainQuery limited]. destruct (Z.ltb_spec gap 0); [lia|].
  change (selected (MkQuery _ _ _ _ _ _ _)) with (selected (chainQuery None)). fold chainRecords.
  set (full := orderRows AddressOrderIndexDescending chainRecords).
  assert (map rec_N full = down (Z.to_nat count)) as E.
  { destruct chainRecords_indices as [Hnd Hin]. apply (StronglySorted_unique_strong Z.ge).
    - intros x y _ _ Hx Hy. lia.
    - apply (StronglySorted_map (ordered AddressOrderIndexDescending)); [cbn; lia|apply orderRows_sorted].
    - apply down_sorted.
    - apply NoDup_Permutation; [|apply down_NoDup|].
      + unfold full. by rewrite (Permutation_map rec_N (orderRows_perm _ chainRecords)).
      + intros n. unfold full. rewrite (Permutation_map rec_N (orderRows_perm _ chainRecords)), Hin, down_in.
        pose proof (proj1 Hshows). lia. }
  split; [rewrite <- E; change (map rec_N) with (fmap (M := list) rec_N); by rewrite fmap_take|].
  intros r Hr. apply (subseteq_take (Z.to_nat gap)) in Hr. unfold full in Hr. by rewrite orderRows_perm in Hr.
Qed.
End chain.

(** ** Filling the gap *)

Lemma existingGap_spec records :
  0 <= existingGap records <= blen records /\
  forall i r, records !! i = Some r -> Z.of_nat i < existingGap records -> rec_UsedTimes r = 0.
Proof.
  induction records as [|record records [IHb IH]]; cbn [existingGap]; [done|]. rewrite blen_cons.
  destruct (Z.eqb_spec (rec_UsedTimes record) 0); [|split; [pose proof (blen_nonneg records)|]; lia].
  split; [lia|]. intros [|i] r Hi Hlt; cbn in Hi; [by injection Hi as <-|]. apply (IH i); [done|lia].
Qed.
Lemma deriveFrom_spec P start missing pubs :
  deriveFrom P start missing = Ok pubs ->
  length pubs = missing /\ forall i pub, pubs !! i = Some pub -> ChildPub P (start + Z.of_nat i) = Ok pub.
Proof.
  revert start pubs. induction missing as [|missing IH]; intros start pubs Hd; cbn [deriveFrom] in Hd.
  - injection Hd as <-. split; [done|]. by intros i pub Hi.
  - apply res_bind_Ok in Hd as (child & Hc & Hd). apply res_bind_Ok in Hd as (rest & Hr & Hd). injection Hd as <-.
    destruct (IH _ _ Hr) as [Hl Hi]. split; [by cbn; rewrite Hl|]. intros [|i] pub Hx; cbn in Hx.
    + injection Hx as <-. by rewrite Z.add_0_r.
    + replace (start + Z.of_nat (S i)) with (start + 1 + Z.of_nat i) by lia. by apply Hi.
Qed.
Lemma ChildPub_number key index pub : ChildPub key index = Ok pub -> childNumber (basePub pub) = index.
Proof.
  unfold ChildPub, hardenedIndex. destruct (Z.ltb_spec index 0); [done|].
  destruct (Z.leb_spec (2 ^ 31) index); [done|]. cbn [orb]. destruct (_ =? 255); [done|].
  destruct (deriveMaterial _ _) as [l r]. intros Hc. apply res_bind_Ok in Hc as (child & _ & Hc). injection Hc as <-.
  cbn. apply u32_id. lia.
Qed.

Definition newRows (account : WalletAccount) (manager : AddressManager) (pubs : list PublicKey) : list AddressRow :=
  map (fun pub => MkAddressRow (a_ID account) (addressKeyOf manager pub)) pubs.
(** Whatever fails, some of the rows are added and some addresses shown. *)
Lemma persist_extend failure announce tables account manager pubs tables' r :
  persistAndAnnounce failure announce tables account manager pubs = (tables', r) ->
  let new := newRows account manager pubs in
  (exists added shown, tables' = extend tables added shown /\
     ((added = [] /\ shown = []) \/ (added = new /\ shown = []) \/ (added = new /\ shown = new))) /\
  forall addresses, r = Ok addresses -> tables' = extend tables new new /\ addresses = map Address pubs.
Proof.
  unfold persistAndAnnounce, persistPublicKeys, AddKeys. cbv zeta.
  set (new := newRows account manager pubs).
  assert (map (MkAddressRow (a_ID account)) (map (addressKeyOf manager) pubs) = new) as -> by apply map_map.
  assert (map (addressKeyOf manager) pubs = map r_Key new) as -> by (unfold new, newRows; by rewrite map_map).
  destruct failure as [|e|e]; intros Hp; injection Hp as <- <-.
  - split; [exists new, new; auto|]. intros addresses Ha. cbn [mbind res_bind] in Ha.
    apply res_bind_Ok in Ha as (_ & _ & Ha). injection Ha as <-. done.
  - split; [exists [], []; split; [by destruct tables|auto]|done].
  - split; [exists new, []; auto|done].
Qed.

Definition unusedAt (tables : AddressTables) (account : WalletAccount) (manager : AddressManager) (n : Z) : Prop :=
  exists row history, row ∈ account_address tables /\ position row = (a_ID account, m_ChainNumber manager, n) /\
    pubkey_address tables !! k_Address (r_Key row) = Some (history, 0).

Section ensure.
Variables (tables : AddressTables) (account : WalletAccount) (manager : AddressManager).
Hypothesis Hbook : book tables.
Hypothesis Haccount : account ∈ accounts.
Hypothesis Hmanager : manager ∈ AddressManagers account.

Lemma newRows_genuine pubs :
  (forall pub, pub ∈ pubs -> GetPublicKey account manager (childNumber (basePub pub)) = Ok pub) ->
  forall r, r ∈ newRows account manager pubs -> genuine r.
Proof.
  intros Hpubs r (pub & -> & Hp)%list_elem_of_fmap. exists account, manager, pub. split; [done|].
  split_and!; [done..|by apply Hpubs].
Qed.
Lemma position_row ID m pub :
  position (MkAddressRow ID (addressKeyOf m pub)) = (ID, m_ChainNumber m, childNumber (basePub pub)).
Proof. done. Qed.
(** Another chain has other positions. *)
Lemma other_chain account' manager' n pub :
  account' ∈ accounts -> manager' ∈ AddressManagers account' -> m_singleAddress manager' = false ->
  position (MkAddressRow (a_ID account) (addressKeyOf manager pub)) = (a_ID account', m_ChainNumber manager', n) ->
  account' = account /\ manager' = manager /\ n = childNumber (basePub pub).
Proof.
  intros Ha Hm Hs E. rewrite position_row in E. injection E as E1 E2 <-.
  assert (account = account') as <- by by apply own_IDs. split; [done|]. split; [|done].
  pose proof (all_loaded account Haccount) as Hl.
  destruct (managers_known account manager Hl Hmanager) as [-> | (-> & _ & Hne)],
    (managers_known account manager' Hl Hm) as [-> | (-> & _ & Hne')]; congruence.
Qed.

(** Adding rows for the next positions of a deterministic chain, or the one row
    of a single address, keeps the invariant. *)
Lemma extend_keeps_book pubs added shown count :
  (forall pub, pub ∈ pubs -> GetPublicKey account manager (childNumber (basePub pub)) = Ok pub) ->
  (m_singleAddress manager = false -> shows tables account manager count /\
     forall n, (exists pub, pub ∈ pubs /\ childNumber (basePub pub) = n) <-> count <= n < count + blen pubs) ->
  let new := newRows account manager pubs in
  (added = [] /\ shown = []) \/ (added = new /\ shown = []) \/ (added = new /\ shown = new) ->
  separated (account_address tables ++ new) ->
  book (extend tables added shown) /\
  (m_singleAddress manager = false -> shown = new -> shows (extend tables added shown) account manager (count + blen pubs)).
Proof.
  intros Hpubs Hchain new Hcase Hsep. pose proof (newRows_genuine pubs Hpubs) as Hgen. fold new in Hgen.
  assert (forall r, r ∈ added -> r ∈ new) as Hadded
    by (destruct Hcase as [[-> _]|[[-> _]|[-> _]]]; [by intros r Hr%not_elem_of_nil|done..]).
  assert (forall r, r ∈ shown -> r ∈ added) as Hshown
    by (destruct Hcase as [[-> ->]|[[-> ->]|[-> ->]]]; [by intros r Hr%not_elem_of_nil..|done]).
  assert (separated (account_address tables ++ added)) as Hsep'.
  { intros r s Hr Hs. apply Hsep; apply elem_of_app; [apply elem_of_app in Hr as [?|?]|apply elem_of_app in Hs as [?|?]]; auto. }
  pose proof (extend_visible tables added shown Hbook Hshown Hsep') as Hvis.
  assert (m_singleAddress manager = false -> shown = new ->
    shows (extend tables added shown) account manager (count + blen pubs)) as Hshows.
  { intros Hs ->. destruct (Hchain Hs) as [[Hc Hcount] Hrange]. pose proof (blen_nonneg pubs). split; [lia|].
    intros n. unfold visible in *. rewrite Hvis, Hcount. split.
    - intros [Hn|(r & Hr & E)]; [lia|]. apply list_elem_of_fmap in Hr as (pub & -> & Hp).
      apply other_chain in E as (_ & _ & ->); [|done..]. pose proof (proj1 (Hrange _) (ex_intro _ pub (conj Hp eq_refl))). lia.
    - intros Hn. destruct (decide (n < count)); [left; lia|right].
      destruct (proj2 (Hrange n) ltac:(lia)) as (pub & Hp & <-).
      eexists. split; [by apply list_elem_of_fmap; exists pub|done]. }
  split; [|exact Hshows]. apply extend_book; try done; [auto|].
  intros account' manager' Ha Hm Hs. destruct (book_chains _ Hbook account' manager' Ha Hm Hs) as (count' & Hc & Hcount').
  assert ((shown = new /\ account' = account /\ manager' = manager) \/
    ~ exists r n, r ∈ shown /\ position r = (a_ID account', m_ChainNumber manager', n)) as [(Es & -> & ->)|Hno].
  { assert (shown = [] \/ shown = new) as [-> | ->] by naive_solver; [right; intros (r & n & Hr%not_elem_of_nil & _); done|].
    destruct (decide (a_ID account = a_ID account' /\ m_ChainNumber manager = m_ChainNumber manager')) as [[E1 E2]|Hne].
    - left. split; [done|]. destruct (other_chain account' manager' (childNumber (basePub (a_PublicKey account))) (a_PublicKey account)
        Ha Hm Hs) as (-> & -> & _); [by rewrite position_row, E1, E2|done].
    - right. intros (r & n & Hr & E). apply list_elem_of_fmap in Hr as (pub & -> & _). apply Hne.
      rewrite position_row in E. injection E as -> -> _. done. }
  - exists (count + blen pubs). by apply Hshows.
  - exists count'. split; [done|]. intros n. unfold visible in *. rewrite Hvis, Hcount'.
    split; [intros [?|(r & Hr & E)]; [done|exfalso; apply Hno; by exists r, n]|by left].
Qed.

(** The addresses that [EnsureAddressGap] reads as unused are the last ones. *)
Lemma newest_unused gap count records :
  m_singleAddress manager = false -> 0 <= gap -> shows tables account manager count ->
  queryAddressRecords tables account manager false (Some gap) AddressOrderIndexDescending = Ok records ->
  blen records = Z.min gap count /\
  (forall record rest, records = record :: rest -> rec_N record = count - 1) /\
  existingGap records <= blen records /\
  forall n, count - existingGap records <= n < count -> unusedAt tables account manager n.
Proof.
  intros Hs Hgap Hshows Hq.
  destruct (query_descending tables account manager count Hbook Haccount Hs Hshows gap Hgap)
    as (records' & Hq' & Hn & Hin). rewrite Hq in Hq'. injection Hq' as <-. destruct Hshows as [Hc _].
  destruct (existingGap_spec records) as [[Hpos Hle] Hunused].
  assert (blen records = Z.min gap count) as Hlen.
  { unfold blen. rewrite <- (length_map rec_N records), Hn, length_take, length_down. lia. }
  assert (forall i r, records !! i = Some r -> rec_N r = count - 1 - Z.of_nat i) as Hnth.
  { intros i r Hi. assert (map rec_N records !! i = Some (rec_N r)) as E by (rewrite (list_lookup_fmap rec_N), Hi; done).
    apply lookup_lt_Some in Hi. unfold blen in Hlen.
    rewrite Hn, lookup_take_lt, down_lookup in E by lia. injection E as <-. lia. }
  split_and!; [done| |done|].
  - intros record rest ->. rewrite (Hnth 0%nat record eq_refl). lia.
  - intros n Hrange. destruct (lookup_lt_is_Some_2 records (Z.to_nat (count - 1 - n))) as [r Hr]; [unfold blen in *; lia|].
    pose proof (Hunused _ _ Hr ltac:(lia)) as Hu. pose proof (Hnth _ _ Hr) as En.
    destruct (proj1 (chainRecords_in tables account manager Haccount r) (Hin r (list_elem_of_lookup_2 _ _ _ Hr)))
      as (Hp & Hrow & Hl). rewrite Hu in Hl.
    exists (rec_Row r), (rec_History r). split_and!; [done| |done]. rewrite Hp. do 2 f_equal. lia.
Qed.

Lemma unusedAt_extend pubs n :
  separated (account_address tables ++ newRows account manager pubs) ->
  let new := newRows account manager pubs in
  unusedAt tables account manager n \/ (~ visible tables account manager n /\ exists pub, pub ∈ pubs /\ childNumber (basePub pub) = n) ->
  unusedAt (extend tables new new) account manager n.
Proof.
  intros Hsep new. destruct (insertRows_spec new _ (book_unique _ Hbook)) as (_ & Hin & Hkeep & Hnew).
  intros [(row & h & Hr & Hp & Hl)|(Hinvisible & pub & Hpub & <-)].
  - exists row, h. split_and!; [by apply Hkeep|done|]. cbn. by rewrite insertAddresses_lookup, Hl.
  - assert (MkAddressRow (a_ID account) (addressKeyOf manager pub) ∈ new) as Hmem by (apply list_elem_of_fmap; by exists pub).
    destruct (Hnew _ Hmem) as (s & Hs & E). unfold rowKey in E. injection E as E1 E2.
    assert (position s = (a_ID account, m_ChainNumber manager, childNumber (basePub pub))) as Hp.
    { rewrite <- position_row. apply Hsep; [apply elem_of_app; by apply Hin|apply elem_of_app; by right|done]. }
    exists s, None. split_and!; [done|done|]. cbn [extend pubkey_address]. rewrite insertAddresses_lookup, E2.
    destruct (pubkey_address tables !! Address pub) as [x|] eqn:El.
    + exfalso. apply Hinvisible. destruct (book_known _ Hbook (Address pub) ltac:(by eexists))
        as (row & Hrow & Ea). exists row. rewrite Ea, El. split_and!; [done| |by eexists].
      rewrite <- position_row. apply Hsep; [apply elem_of_app; by left|apply elem_of_app; by right|done].
    + rewrite bool_decide_eq_true_2; [done|]. rewrite map_map. apply list_elem_of_fmap.
      by exists (MkAddressRow (a_ID account) (addressKeyOf manager pub)).
Qed.

(** What persisting public keys does, unless two addresses clash. *)
Lemma persist_spec failure announce pubs count tables' r :
  (forall pub, pub ∈ pubs -> GetPublicKey account manager (childNumber (basePub pub)) = Ok pub) ->
  (m_singleAddress manager = false -> shows tables account manager count /\
     forall n, (exists pub, pub ∈ pubs /\ childNumber (basePub pub) = n) <-> count <= n < count + blen pubs) ->
  persistAndAnnounce failure announce tables account manager pubs = (tables', r) ->
  addressClash \/
  (book tables' /\ forall addresses, r = Ok addresses -> addresses = map Address pubs /\
     (m_singleAddress manager = false -> shows tables' account manager (count + blen pubs) /\
        forall n, unusedAt tables account manager n \/ count <= n < count + blen pubs -> unusedAt tables' account manager n)).
Proof.
  intros Hpubs Hchain Hp.
  destruct (persist_extend _ _ _ _ _ _ _ _ Hp) as [(added & shown & -> & Hcase) Hok].
  destruct (separated_or_clash (account_address tables ++ newRows account manager pubs)) as [|Hsep]; [|by left|right].
  { intros s [Hs|Hs]%elem_of_app; [by apply (book_rows _ Hbook)|by apply (newRows_genuine pubs)]. }
  destruct (extend_keeps_book pubs added shown count Hpubs Hchain Hcase Hsep) as [Hb _].
  split; [done|]. intros addresses Ha. destruct (Hok addresses Ha) as [-> ->]. split; [done|]. intros Hs.
  destruct (extend_keeps_book pubs _ _ count Hpubs Hchain (or_intror (or_intror (conj eq_refl eq_refl))) Hsep) as [_ Hshows].
  split; [by apply Hshows|]. intros n Hn. apply unusedAt_extend; [done|].
  destruct Hn as [Hn|Hn]; [by left|right]. destruct (Hchain Hs) as [[_ Hcount] Hrange]. split; [|by apply Hrange].
  rewrite Hcount. lia.
Qed.

(** The keys derived for the missing addresses are the next ones of the chain. *)
Lemma derived_next pubs count missing :
  m_singleAddress manager = false -> deriveFrom (m_PublicKey manager) count missing = Ok pubs ->
  (forall pub, pub ∈ pubs -> GetPublicKey account manager (childNumber (basePub pub)) = Ok pub) /\
  forall n, (exists pub, pub ∈ pubs /\ childNumber (basePub pub) = n) <-> count <= n < count + blen pubs.
Proof.
  intros Hs Hd. destruct (deriveFrom_spec _ _ _ _ Hd) as [Hl Hi]. split.
  - intros pub [i Hp]%list_elem_of_lookup. unfold GetPublicKey. rewrite Hs.
    rewrite (ChildPub_number _ _ _ (Hi i pub Hp)). by apply Hi.
  - intros n. unfold blen. split.
    + intros (pub & [i Hp]%list_elem_of_lookup & <-). rewrite (ChildPub_number _ _ _ (Hi i pub Hp)).
      apply lookup_lt_Some in Hp. lia.
    + intros Hn. destruct (lookup_lt_is_Some_2 pubs (Z.to_nat (n - count))) as [pub Hp]; [lia|].
      exists pub. split; [by apply list_elem_of_lookup_2 in Hp|]. rewrite (ChildPub_number _ _ _ (Hi _ pub Hp)). lia.
Qed.
End ensure.

(** What a call promises: the invariant and, on success for a deterministic
    chain, that it shows the addresses it returned after the ones it had, and
    that the last [gap] are unused. *)
Definition gapFilled (tables tables' : AddressTables) (account : WalletAccount) (manager : AddressManager)
    (addresses : list bytes) : Prop :=
  forall gap, m_singleAddress manager = false -> m_Gap manager = Ok gap -> exists before,
    shows tables account manager before /\ shows tables' account manager (before + blen addresses) /\
    (forall i address, addresses !! i = Some address ->
       exists pub, ChildPub (m_PublicKey manager) (before + Z.of_nat i) = Ok pub /\ Address pub = address) /\
    gap <= before + blen addresses /\
    forall n, 0 <= n -> before + blen addresses - gap <= n < before + blen addresses ->
      unusedAt tables' account manager n.

Lemma single_key account manager :
  account ∈ accounts -> manager ∈ AddressManagers account -> m_singleAddress manager = true ->
  forall pub, pub ∈ [m_PublicKey manager] -> GetPublicKey account manager (childNumber (basePub pub)) = Ok pub.
Proof.
  intros Ha Hm Es pub ->%list_elem_of_singleton. unfold GetPublicKey. rewrite Es. f_equal.
  pose proof (all_loaded account Ha) as Hl.
  destruct (managers_known account manager Hl Hm) as [-> | (_ & Hs & _)]; [|congruence].
  destruct (loaded_managers account Hl) as [(_ & _ & ->)|(Hs & _)]; congruence.
Qed.
Lemma single_gap failure announce tables account manager tables' r :
  book tables -> account ∈ accounts -> manager ∈ AddressManagers account -> m_singleAddress manager = true ->
  EnsureAddressGap failure announce tables account manager = (tables', r) -> addressClash \/ book tables'.
Proof.
  intros Hbook Ha Hm Es. unfold EnsureAddressGap, queryAddressRecords. rewrite Es.
  destruct (GetAddresses _ _); [|by intros [= <- <-]; right]. intros Hp.
  destruct (persist_spec tables account manager Hbook Ha Hm failure announce [m_PublicKey manager] 0 tables' r)
    as [|[Hb _]]; [by apply single_key|congruence|done|by left|by right].
Qed.

(** A deterministic chain, from what the query for its end returns. *)
Section chain_gap.
Variables (tables tables' : AddressTables) (account : WalletAccount) (manager : AddressManager).
Variables (gap count : Z) (records : list AddressRecord).
Hypothesis Hbook : book tables.
Hypothesis Ha : account ∈ accounts.
Hypothesis Hm : manager ∈ AddressManagers account.
Hypothesis Es : m_singleAddress manager = false.
Hypothesis Eg : m_Gap manager = Ok gap.
Hypothesis Hshows : shows tables account manager count.
Hypothesis Hq : queryAddressRecords tables account manager false (Some gap) AddressOrderIndexDescending = Ok records.

Lemma gap_present : gap - existingGap records <= 0 -> gapFilled tables tables account manager [].
Proof.
  intros Hle gap' _ Eg'. rewrite Eg in Eg'. injection Eg' as <-. exists count. rewrite blen_nil, Z.add_0_r.
  assert (gap <= count /\ forall n, count - gap <= n < count -> unusedAt tables account manager n) as [Hc Hu].
  { destruct (decide (0 <= gap)); [|pose proof (proj1 Hshows); split; [lia|intros; lia]].
    destruct (newest_unused tables account manager Hbook Ha gap count records Es ltac:(done) Hshows Hq) as (Hl & _ & He & Hu).
    split; [lia|]. intros n Hn. apply Hu. lia. }
  split_and!; [done|done|done|done|]. intros n _ Hn. by apply Hu.
Qed.
Lemma gap_start :
  0 < gap - existingGap records -> match records with record :: _ => rec_N record + 1 | [] => 0 end = count.
Proof.
  intros Hlt. destruct (existingGap_spec records) as [[He _] _]. pose proof (proj1 Hshows).
  destruct (newest_unused tables account manager Hbook Ha gap count records Es ltac:(lia) Hshows Hq) as (Hl & Hhead & _).
  destruct records as [|record rest]; [rewrite blen_nil in Hl; lia|]. rewrite (Hhead record rest eq_refl). lia.
Qed.
Lemma gap_added failure announce pubs r :
  0 < gap - existingGap records ->
  deriveFrom (m_PublicKey manager) count (Z.to_nat (gap - existingGap records)) = Ok pubs ->
  persistAndAnnounce failure announce tables account manager pubs = (tables', r) ->
  addressClash \/ (book tables' /\ forall addresses, r = Ok addresses -> gapFilled tables tables' account manager addresses).
Proof.
  intros Hlt Ed Hp. destruct (deriveFrom_spec _ _ _ _ Ed) as [Hlen Hnth].
  destruct (derived_next account manager pubs count _ Es Ed) as [Hpubs Hrange].
  destruct (persist_spec tables account manager Hbook Ha Hm failure announce pubs count tables' r Hpubs
    ltac:(done) Hp) as [|[Hb Hok]]; [by left|right]. split; [done|].
  destruct (existingGap_spec records) as [[He _] _].
  destruct (newest_unused tables account manager Hbook Ha gap count records Es ltac:(lia) Hshows Hq) as (Hl & _ & Hex & Hu).
  intros addresses Hr gap' _ Eg'. rewrite Eg in Eg'. injection Eg' as <-.
  destruct (Hok addresses Hr) as [-> Hs']. destruct (Hs' Es) as [Hs2 Hu2].
  exists count. rewrite blen_map. unfold blen in *. split_and!; [done|done| |lia|].
  - intros i address Hi. rewrite (list_lookup_fmap Address) in Hi. destruct (pubs !! i) as [pub|] eqn:Epub; [|done].
    cbn in Hi. injection Hi as <-. exists pub. split; [by apply Hnth|done].
  - intros n _ Hn. apply Hu2. destruct (decide (n < count)); [left; apply Hu|right]; lia.
Qed.
End chain_gap.

Lemma EnsureAddressGap_spec failure announce tables account manager tables' r :
  book tables -> account ∈ accounts -> manager ∈ AddressManagers account ->
  EnsureAddressGap failure announce tables account manager = (tables', r) ->
  addressClash \/ (book tables' /\ forall addresses, r = Ok addresses -> gapFilled tables tables' account manager addresses).
Proof.
  intros Hbook Ha Hm He. destruct (m_singleAddress manager) eqn:Es.
  { destruct (single_gap _ _ _ _ _ _ _ Hbook Ha Hm Es He); [by left|right]. split; [done|].
    intros addresses _ gap Es'. congruence. }
  unfold EnsureAddressGap in He. rewrite Es in He.
  assert (forall e, addressClash \/ (book tables /\ forall addresses, @Err (list bytes) e = Ok addresses ->
    gapFilled tables tables account manager addresses)) as Herr by (right; done).
  destruct (m_Gap manager) as [gap|e| |] eqn:Eg; cbn [map_err mbind res_bind] in He;
    try (injection He as <- <-; first [apply Herr|right; done]).
  destruct (book_chains _ Hbook account manager Ha Hm Es) as (count & Hshows).
  assert (exists records, queryAddressRecords tables account manager false (Some gap) AddressOrderIndexDescending = Ok records)
    as [records Hq] by (unfold queryAddressRecords; rewrite Es; by eexists).
  rewrite Hq in He. cbn [mbind res_bind] in He. destruct (Z.leb_spec (gap - existingGap records) 0) as [Hle|Hlt].
  - injection He as <- <-. right. split; [done|]. intros addresses [= <-].
    by apply (gap_present tables account manager gap count records).
  - rewrite (gap_start tables account manager gap count records) in He by done.
    destruct (deriveFrom (m_PublicKey manager) count (Z.to_nat (gap - existingGap records))) as [pubs|e| |] eqn:Ed;
      cbn [mbind res_bind] in He; try (injection He as <- <-; first [apply Herr|right; done]).
    by apply (gap_added tables tables' account manager gap count records Hbook Ha Hm Es Eg Hshows Hq failure announce pubs).
Qed.

(** ** Reachable tables *)

Lemma SetAddressHistory_known tables address history a :
  is_Some (pubkey_address (SetAddressHistory tables address history) !! a) <-> is_Some (pubkey_address tables !! a).
Proof. cbn. rewrite lookup_alter. case_decide; [|done]. subst. by rewrite fmap_is_Some. Qed.
Lemma SetAddressHistory_book tables address history : book tables -> book (SetAddressHistory tables address history).
Proof.
  intros Hb. split; [apply Hb|apply Hb| |].
  - intros a Ha. apply SetAddressHistory_known in Ha. by apply (book_known _ Hb).
  - intros account manager Ha Hm Hs. destruct (book_chains _ Hb account manager Ha Hm Hs) as (count & Hc & Hn).
    exists count. split; [done|]. intros n. rewrite <- Hn. unfold visible, visibleAt.
    by setoid_rewrite SetAddressHistory_known.
Qed.

(** What the wallet does to the tables: fill the gap of a manager, whatever
    fails, and record the history of an address. *)
Inductive reached : AddressTables -> Prop :=
| reached_empty : reached (MkTables [] ∅)
| reached_gap tables account manager failure announce tables' r :
    reached tables -> account ∈ accounts -> manager ∈ AddressManagers account ->
    EnsureAddressGap failure announce tables account manager = (tables', r) -> reached tables'
| reached_history tables address history :
    reached tables -> reached (SetAddressHistory tables address history).
Lemma reached_book tables : reached tables -> addressClash \/ book tables.
Proof.
  induction 1 as [|tables account manager failure announce tables' r _ [|Hb] Ha Hm He|tables address history _ [|Hb]].
  - right. apply empty_book.
  - by left.
  - destruct (EnsureAddressGap_spec _ _ _ _ _ _ _ Hb Ha Hm He) as [|[? _]]; [by left|by right].
  - by left.
  - right. by apply SetAddressHistory_book.
Qed.
(** The rows are the managers' rows whether addresses clash or not. *)
Lemma insertRows_in new rows r : r ∈ fold_left insertRow new rows -> r ∈ rows \/ r ∈ new.
Proof.
  revert rows. induction new as [|row new IH]; intros rows; cbn [fold_left]; [by left|].
  intros [Hr|Hr]%IH; [|right; by right]. unfold insertRow in Hr. destruct (existsb _ _); [by left|].
  apply elem_of_app in Hr as [Hr | ->%list_elem_of_singleton]; [by left|right; by left].
Qed.
Lemma persist_rows failure announce tables account manager pubs tables' r :
  (forall row, row ∈ account_address tables -> genuine row) -> account ∈ accounts -> manager ∈ AddressManagers account ->
  (forall pub, pub ∈ pubs -> GetPublicKey account manager (childNumber (basePub pub)) = Ok pub) ->
  persistAndAnnounce failure announce tables account manager pubs = (tables', r) ->
  forall row, row ∈ account_address tables' -> genuine row.
Proof.
  intros Hrows Ha Hm Hpubs Hp row Hr. destruct (persist_extend _ _ _ _ _ _ _ _ Hp) as [(added & shown & -> & Hcase) _].
  apply insertRows_in in Hr as [Hr|Hr]; [by apply Hrows|].
  apply (newRows_genuine account manager Ha Hm pubs Hpubs).
  destruct Hcase as [[-> _]|[[-> _]|[-> _]]]; [by apply not_elem_of_nil in Hr|done..].
Qed.
Lemma EnsureAddressGap_rows failure announce tables account manager tables' r :
  (forall row, row ∈ account_address tables -> genuine row) -> account ∈ accounts -> manager ∈ AddressManagers account ->
  EnsureAddressGap failure announce tables account manager = (tables', r) ->
  forall row, row ∈ account_address tables' -> genuine row.
Proof.
  intros Hrows Ha Hm He. unfold EnsureAddressGap in He. destruct (m_singleAddress manager) eqn:Es.
  - unfold queryAddressRecords in He. rewrite Es in He. destruct (GetAddresses _ _); [|by injection He as <- _].
    by apply (persist_rows _ _ _ _ _ _ _ _ Hrows Ha Hm (single_key account manager Ha Hm Es) He).
  - destruct (map_err _ _) as [gap| | |]; cbn [mbind res_bind] in He; try (by injection He as <- _).
    destruct (queryAddressRecords _ _ _ _ _ _) as [records| | |]; cbn [mbind res_bind] in He; try (by injection He as <- _).
    destruct (_ <=? 0); [by injection He as <- _|].
    destruct (deriveFrom _ _ _) as [pubs| | |] eqn:Ed; cbn [mbind res_bind] in He; try (by injection He as <- _).
    by apply (persist_rows _ _ _ _ _ _ _ _ Hrows Ha Hm (proj1 (derived_next account manager pubs _ _ Es Ed)) He).
Qed.
Lemma reached_rows tables : reached tables -> forall row, row ∈ account_address tables -> genuine row.
Proof.
  induction 1 as [|tables account manager failure announce tables' r _ IH Ha Hm He|tables address history _ IH].
  - by intros row Hr%not_elem_of_nil.
  - by apply (EnsureAddressGap_rows _ _ _ _ _ _ _ IH Ha Hm He).
  - exact IH.
Qed.
Lemma reached_ownRows tables account : reached tables -> account ∈ accounts -> ownRows account tables.
Proof.
  intros Hr Ha row Hrow Hid. destruct (reached_rows tables Hr row Hrow) as (b & manager & pub & Hb & Hp).
  assert (b = account) as -> by (apply own_IDs; [done..|]; destruct Hp as (_ & <- & _); done). by exists manager, pub.
Qed.
End book.

(** C23: the address gap.  In whatever tables the wallet has come to, by filling
    gaps with or without database failures and recording histories, the rows of
    an account are the ones its managers derived, and a successful
    [EnsureAddressGap] of a deterministic chain returns the addresses of the
    next positions, shows exactly those after the ones it showed before, and
    leaves at least the gap, all of it unused, at the end of the chain.  The
    alternative is two positions with the same address. *)
Theorem address_gap `{Digests} `{Secp256k1} `{RowOrder} accounts tables failure announce account manager tables' addresses :
  (forall account, account ∈ accounts -> loaded account) ->
  (forall a b, a ∈ accounts -> b ∈ accounts -> a_ID a = a_ID b -> a = b) ->
  reached accounts tables -> account ∈ accounts -> manager ∈ AddressManagers account ->
  EnsureAddressGap failure announce tables account manager = (tables', Ok addresses) ->
  ownRows account tables' /\
  (gapFilled tables tables' account manager addresses \/ addressClash accounts).
Proof.
  intros Hl Hown Hreached Ha Hm He. split.
  - apply (reached_ownRows accounts Hl Hown); [|done]. by eapply reached_gap.
  - destruct (reached_book accounts Hl Hown tables Hreached) as [|Hb]; [by right|].
    destruct (EnsureAddressGap_spec accounts Hl Hown _ _ _ _ _ _ _ Hb Ha Hm He) as [|[_ Hgap]]; [by right|left].
    by apply Hgap.
Qed.

(** ** Witnesses *)

(** An order of the rows: merge sort. *)
#[local] Instance ordered_dec order r s : Decision (ordered order r s).
Proof. destruct order; cbn; apply _. Defined.
#[local] Instance ordered_total order : Total (ordered order).
Proof. intros r s. destruct order; cbn; lia. Qed.
#[local] Instance ordered_trans order : Transitive (ordered order).
Proof. intros r s u. destruct order; cbn; lia. Qed.
#[local] Instance exampleOrder : RowOrder.
Proof.
  refine {| orderRows := fun order => merge_sort (ordered order) |}.
  - intros order rows. apply merge_sort_Permutation.
  - intros order rows. apply StronglySorted_merge_sort; apply _.
Defined.
#[local] Existing Instance exampleDigests.
#[local] Existing Instance ScalarGroup.secp256k1.
#[local] Existing Instance ScalarECDSA.ecdsa.

Abbreviation exampleLoad :=
  (loadAddressGenerator false (Some examplePrivateKey) (publicKey examplePrivateKey)
    DeterministicChainGenerator (Ok 2, Ok 1) (Ok 1, Ok 1)).
Definition exampleGap (account : WalletAccount) : AddressTables * res (list bytes) :=
  EnsureAddressGap NoFault (fun _ => Ok tt) (MkTables [] ∅) account (a_Receiving account).
Definition exampleSigned (account : WalletAccount) (tables : AddressTables) (t : Transaction)
  : AddressTables * Transaction * res unit :=
  SignWithAccounts (fun _ => MainNet) (fun _ => [account]) [MkAccount [] (Some 0) (Some 0)] [] tables t.
(** Load an account, create its first addresses, and spend a payment to one. *)
Abbreviation exampleRun := (
  account ← exampleLoad;
  let '(tables, created) := exampleGap account in
  addresses ← created;
  paid ← PayPubKeyHashOutputForAddress 700 (hd [] addresses);
  script ← NewRedeemPubKeyHashInputScript (repeat x00 72) (repeat x00 33);
  let spent := MkOutput (hexEncode (repeat x01 32)) (repeat x01 32) 1 700 (o_Script paid) in
  let t := fst (AddInputs NewTransaction [MkInput 0 (repeat x01 32) [] 1 (2 ^ 32 - 1) [] script (Some spent)]) in
  let '(_, t', signed) := exampleSigned account tables t in
  _ ← signed;
  match t_Inputs t' with
  | input :: _ =>
      match i_ResolvedOutput input with
      | Some output =>
          if String.eqb (in_Template (i_Script input)) TransactionInputPubKeyHash && out_HasPubKeyHash (o_Script output)
          then Ok (account, tables, addresses, t, input, output) else Panic
      | None => Panic
      end
  | [] => Panic
  end).
Lemma example_run : exists account tables addresses t t' input output,
  exampleLoad = Ok account /\ exampleGap account = (tables, Ok addresses) /\
  (exists tables', exampleSigned account tables t = (tables', t', Ok tt)) /\
  t_Inputs t' !! 0%nat = Some input /\ i_ResolvedOutput input = Some output /\
  in_Template (i_Script input) = TransactionInputPubKeyHash /\ out_HasPubKeyHash (o_Script output) = true.
Proof.
  assert (isOk exampleRun = true) as E by (vm_cast_no_check (eq_refl true)).
  apply isOk_Ok in E as [run E]. apply res_bind_Ok in E as (account & Hload & E).
  destruct (exampleGap account) as [tables created] eqn:Egap. apply res_bind_Ok in E as (addresses & -> & E).
  apply res_bind_Ok in E as (paid & _ & E). apply res_bind_Ok in E as (script & _ & E). cbv zeta in E.
  match type of E with context [exampleSigned account tables ?x] => set (t := x) in E end.
  destruct (exampleSigned account tables t) as [[tables' t'] signed] eqn:Esign.
  apply res_bind_Ok in E as ([] & -> & E). destruct (t_Inputs t') as [|input inputs] eqn:Ei; [discriminate E|].
  destruct (i_ResolvedOutput input) as [output|] eqn:Er; [|discriminate E].
  destruct (_ && _) eqn:Ec; [|discriminate E].
  apply andb_true_iff in Ec as [Et%String.eqb_eq Eh].
  exists account, tables, addresses, t, t', input, output. rewrite Ei.
  repeat split; [exact Hload|exact Egap|exists tables'; exact Esign|exact Er|exact Et|exact Eh].
Qed.
Lemma exampleLoad_loaded account : exampleLoad = Ok account -> loaded account.
Proof.
  intros E. destruct (loadAddressGenerator_keys _ _ _ _ _ _ _ E) as [Epriv Epub]. split_and!.
  - rewrite Epub. discriminate.
  - rewrite Epub. reflexivity.
  - intros key Ek. rewrite Epriv in Ek. injection Ek as <-.
    split; [exact examplePrivateKey_valid|exact (eq_sym Epub)].
  - rewrite Epub. exists false, (Some examplePrivateKey), DeterministicChainGenerator, (Ok 2, Ok 1), (Ok 1, Ok 1). exact E.
Qed.
Section example.
Variable account : WalletAccount.
Hypothesis Hload : exampleLoad = Ok account.
Lemma example_all : forall a, a ∈ [account] -> loaded a.
Proof. intros a ->%list_elem_of_singleton. by apply exampleLoad_loaded. Qed.
Lemma example_own : forall a b, a ∈ [account] -> b ∈ [account] -> a_ID a = a_ID b -> a = b.
Proof. by intros a b ->%list_elem_of_singleton ->%list_elem_of_singleton. Qed.
Lemma example_receiving : a_Receiving account ∈ AddressManagers account.
Proof. unfold AddressManagers. destruct (m_singleAddress _); by left. Qed.
Lemma example_rows tables addresses : exampleGap account = (tables, Ok addresses) -> ownRows account tables.
Proof.
  intros E. apply (reached_ownRows [account] example_all example_own); [|by left].
  eapply reached_gap; [apply reached_empty|by left|exact example_receiving|exact E].
Qed.
End example.

Lemma account_inputs_spendable_witness :
  exists account tables t t' input output,
    exampleSigned account tables t = (tables, t', Ok tt) /\ t_Inputs t' !! 0%nat = Some input /\
    redeems t' 0 (in_Source (i_Script input)) (out_PubKeyHash (o_Script output)).
Proof.
  destruct example_run as (account & tables & addresses & t & t' & input & output & Hload & Hgap & [tables' Hs] & Hi & Hr & Ht & Hh).
  destruct (account_inputs_spendable (fun _ => MainNet) (fun _ => [account]) [MkAccount [] (Some 0) (Some 0)] [] tables t tables' t')
    as [E Hredeems].
  - intros _. split; [discriminate|reflexivity].
  - intros _ a Ha. apply list_elem_of_singleton in Ha. subst a.
    split; [exact (exampleLoad_loaded account Hload)|exact (example_rows account Hload tables addresses Hgap)].
  - constructor.
  - exact Hs.
  - exists account, tables, t, t', input, output. subst tables'. split; [exact Hs|]. split; [exact Hi|].
    exact (Hredeems 0%nat input output Hi Hr Ht Hh).
Defined.
Lemma address_gap_witness :
  exists account tables addresses, exampleGap account = (tables, Ok addresses) /\ ownRows account tables.
Proof.
  destruct example_run as (account & tables & addresses & _ & _ & _ & _ & Hload & Hgap & _).
  exists account, tables, addresses. split; [exact Hgap|].
  exact (proj1 (address_gap [account] (MkTables [] ∅) NoFault (fun _ => Ok tt) account (a_Receiving account) tables addresses
    (example_all account Hload) (example_own account) (reached_empty [account]) (list_elem_of_here account [])
    (example_receiving account) Hgap)).
Defined.
