(* ===== verification/LedgerRows.v ===== *)
(** * What the statements of the ledger database do

    Lemmas about [LedgerStore.v]: which rows the statements touch, the
    consistency that saving network transactions keeps, what a listing contains,
    and what the selection by the database takes and reserves. *)

From stdpp Require Import sorting.
From S2P Require Import Prelude Digest Hex Decimal Base58 Keys Script ScriptBuild Transaction TransactionBuild.
From S2P Require Import Float PythonRandom CoinSelection Balancing Funding Signing Accounts LedgerStore AddressBook.

(** ** What the statements do to the tables *)

(** Rows stay: a statement may add rows and change reservations, nothing else. *)
Definition sameOutput (o o' : StoredTransactionOutput) : Prop :=
  so_TXID o' = so_TXID o /\ so_Address o' = so_Address o /\ so_Position o' = so_Position o.
Definition extends (store store' : LedgerStore) : Prop :=
  (forall id o, st_TXO store !! id = Some o -> exists o', st_TXO store' !! id = Some o' /\ sameOutput o o') /\
  (forall row, row ∈ account_address (st_Addresses store) -> row ∈ account_address (st_Addresses store')).
#[export] Instance extends_preorder : PreOrder extends.
Proof.
  split.
  - intros s. split; [|done]. intros id o Ho. by exists o.
  - intros s1 s2 s3 [H12 A12] [H23 A23]. split; [|auto]. intros id o Ho.
    destruct (H12 _ _ Ho) as (o2 & Ho2 & ? & ? & ?). destruct (H23 _ _ Ho2) as (o3 & Ho3 & ? & ? & ?).
    exists o3. split; [done|]. split_and!; congruence.
Qed.

Definition reservedID (store : LedgerStore) (id : bytes) : Prop :=
  exists o, st_TXO store !! id = Some o /\ so_IsReserved o = true.

Lemma setReserved_lookup isReserved store id0 id :
  st_TXO (setReserved isReserved store id0) !! id =
  if bool_decide (id0 = id)
  then (fun o => MkStored (so_TXID o) (so_Address o) (so_Position o) (so_Amount o) (so_Script o) isReserved
                   (so_TXOType o)) <$> st_TXO store !! id
  else st_TXO store !! id.
Proof.
  unfold setReserved. cbn. case_bool_decide as E.
  - subst. by rewrite lookup_alter, decide_True.
  - by rewrite lookup_alter_ne.
Qed.
Lemma setReserved_all isReserved ids store :
  extends store (fold_left (setReserved isReserved) ids store) /\
  st_TX (fold_left (setReserved isReserved) ids store) = st_TX store /\
  st_TXI (fold_left (setReserved isReserved) ids store) = st_TXI store /\
  st_Addresses (fold_left (setReserved isReserved) ids store) = st_Addresses store /\
  forall id, st_TXO (fold_left (setReserved isReserved) ids store) !! id =
    if bool_decide (id ∈ ids)
    then (fun o => MkStored (so_TXID o) (so_Address o) (so_Position o) (so_Amount o) (so_Script o) isReserved
                     (so_TXOType o)) <$> st_TXO store !! id
    else st_TXO store !! id.
Proof.
  revert store. induction ids as [|id0 ids IH]; intros store; cbn [fold_left].
  { by split_and!. }
  destruct (IH (setReserved isReserved store id0)) as (Hx & -> & -> & -> & Hl). split_and!; try done.
  - etrans; [|exact Hx]. split; [|done]. intros id o Ho. rewrite setReserved_lookup, Ho.
    case_bool_decide; (eexists; split; [reflexivity|done]).
  - intros id. rewrite Hl, setReserved_lookup. clear Hl Hx IH.
    destruct (st_TXO store !! id) as [o|]; repeat case_bool_decide; cbn; try done; set_solver.
Qed.
Lemma reserve_reserved ids store id :
  reservedID (fold_left (setReserved true) ids store) id <->
  reservedID store id \/ (id ∈ ids /\ is_Some (st_TXO store !! id)).
Proof.
  destruct (setReserved_all true ids store) as (_ & _ & _ & _ & Hl). unfold reservedID. rewrite Hl.
  destruct (st_TXO store !! id) as [o|]; case_bool_decide; cbn; split; naive_solver.
Qed.
Lemma release_reserved ids store id :
  reservedID (fold_left (setReserved false) ids store) id <-> reservedID store id /\ id ∉ ids.
Proof.
  destruct (setReserved_all false ids store) as (_ & _ & _ & _ & Hl). unfold reservedID. rewrite Hl.
  destruct (st_TXO store !! id) as [o|]; case_bool_decide; cbn; split; try naive_solver.
Qed.

Lemma insertInputs_tables txid address inputs store :
  let after := fold_left (insertInput txid address) inputs store in
  st_TXO after = st_TXO store /\ st_TX after = st_TX store /\ st_Addresses after = st_Addresses store.
Proof.
  cbn. revert store. induction inputs as [|i inputs IH]; intros store; cbn [fold_left]; [done|].
  destruct (IH (insertInput txid address store i)) as (-> & -> & ->). unfold insertInput. by case_match.
Qed.
Lemma insertOutputs_tables txid outputs store :
  let after := fold_left (insertOutput txid) outputs store in
  st_TX after = st_TX store /\ st_Addresses after = st_Addresses store /\
  (forall id o, st_TXO store !! id = Some o -> st_TXO after !! id = Some o) /\
  (forall id o, st_TXO after !! id = Some o -> st_TXO store !! id = Some o \/
     exists row, row ∈ outputs /\ id = outrow_TXOID row /\
       o = MkStored txid (outrow_Address row) (outrow_Position row) (outrow_Amount row) (outrow_Script row) false
             (outrow_TXOType row)).
Proof.
  cbn. revert store. induction outputs as [|row outputs IH]; intros store; cbn [fold_left].
  { split_and!; try done. by left. }
  destruct (IH (insertOutput txid store row)) as (-> & -> & Hkeep & Hnew).
  unfold insertOutput in *. destruct (st_TXO store !! outrow_TXOID row) as [o0|] eqn:E; cbn in *.
  - split_and!; [done|done|done|]. intros id o [?|(r & Hr & ?)]%Hnew; [by left|right]. exists r. split; [by right|done].
  - split_and!; [done|done| |].
    + intros id o Ho. apply Hkeep. rewrite lookup_insert_ne; [done|congruence].
    + intros id o [Ho|(r & Hr & ?)]%Hnew; [|right; exists r; split; [by right|done]].
      apply lookup_insert_Some in Ho as [[<- <-]|[_ Ho]]; [right|by left]. exists row. split; [by left|done].
Qed.

(** ** A consistent store *)

Section store.
Context `{Digests} `{OutputOrder}.

(** The key of an output is its transaction and position, the key of a
    transaction is the ID of what it holds, no address has two accounts. *)
Definition outputKey (txid : bytes) (position : Z) : bytes := txid ++ lit ":" ++ FormatInt position.
Definition apart (rows : list AddressRow) : Prop :=
  NoDup (map rowKey rows) /\
  forall r s, r ∈ rows -> s ∈ rows -> k_Address (r_Key r) = k_Address (r_Key s) -> r_Account r = r_Account s.
Record consistent (store : LedgerStore) : Prop := {
  key_output : forall id o, st_TXO store !! id = Some o -> id = outputKey (so_TXID o) (so_Position o);
  key_transaction : forall txid row, st_TX store !! txid = Some row ->
    row_TXID row = txid /\ forall t, ParseTransaction (row_Raw row) = Ok t -> t_ID t = txid;
  rows_apart : apart (account_address (st_Addresses store))
}.
Lemma empty_consistent : consistent emptyStore.
Proof.
  split; cbn.
  - by intros id o Ho%lookup_empty_Some.
  - by intros id o Ho%lookup_empty_Some.
  - split; [constructor|]. by intros r s Hr%not_elem_of_nil.
Qed.

(** A transaction of the network: parsed, then resolved and annotated. *)
Definition networkTransaction (t : Transaction) : Prop := exists t0,
  ParseTransaction (t_Raw t) = Ok t0 /\ t_ID t = t_ID t0 /\ t_Outputs t = t_Outputs t0.

Lemma network_output t o : networkTransaction t -> o ∈ t_Outputs t -> o_TransactionID o = t_ID t.
Proof.
  intros (t0 & Hp & -> & ->) Ho. destruct (parsed_identity _ _ Hp) as (_ & _ & _ & _ & E). rewrite E in Ho.
  apply list_elem_of_lookup in Ho as [k Hk]. unfold attachOutputs in Hk. rewrite list_lookup_imap in Hk.
  by destruct (t_Outputs t0 !! k); simplify_eq/=.
Qed.
Section projected.
Variables (network : Network) (outputType : Transaction -> TransactionOutput -> res Z)
  (julianDay : Transaction -> res unit).

Lemma projectOutputs_keys t targetHash isMyInput outputs rows row :
  projectOutputs network outputType t targetHash isMyInput outputs = Ok rows ->
  row ∈ rows -> exists o, o ∈ outputs /\ outrow_TXOID row = OutputID o /\ outrow_Position row = o_Position o.
Proof.
  revert rows. induction outputs as [|o outputs IH]; intros rows Hr Hin; cbn [projectOutputs] in Hr.
  { apply (inj Ok) in Hr as <-. by apply not_elem_of_nil in Hin. }
  destruct (out_Err (o_Script o)); [done|]. destruct (negb (projectedOutput _ _ o)).
  { destruct (IH _ Hr Hin) as (o' & ? & ?). exists o'. split; [by right|done]. }
  destruct (max_i64 <? o_Amount o); [done|]. apply res_bind_Ok in Hr as (ty & _ & Hr).
  apply res_bind_Ok in Hr as (a & _ & Hr). apply res_bind_Ok in Hr as (rest & Hrest & Hr). apply (inj Ok) in Hr as <-.
  apply elem_of_cons in Hin as [-> |Hin].
  - exists o. split; [by left|done].
  - destruct (IH _ Hrest Hin) as (o' & ? & ?). exists o'. split; [by right|done].
Qed.
Lemma projectTransaction_keys address targetHash t row :
  networkTransaction t -> projectTransaction network outputType julianDay address targetHash t = Ok row ->
  row_TXID (io_Transaction row) = t_ID t /\ row_Raw (io_Transaction row) = t_Raw t /\
  forall out, out ∈ io_Outputs row -> outrow_TXOID out = outputKey (t_ID t) (outrow_Position out).
Proof.
  intros Hn Hp. unfold projectTransaction in Hp. apply res_bind_Ok in Hp as (u & _ & Hp).
  apply res_bind_Ok in Hp as (inputs & _ & Hp). apply res_bind_Ok in Hp as (outputs & Ho & Hp).
  apply (inj Ok) in Hp as <-. split_and!; [done|done|]. intros out Hout.
  destruct (projectOutputs_keys _ _ _ _ _ _ Ho Hout) as (o & Hin & -> & ->).
  unfold OutputID, outputKey. by rewrite (network_output t o).
Qed.

Lemma saveRow_consistent address t row store :
  networkTransaction t -> row_TXID (io_Transaction row) = t_ID t -> row_Raw (io_Transaction row) = t_Raw t ->
  (forall out, out ∈ io_Outputs row -> outrow_TXOID out = outputKey (t_ID t) (outrow_Position out)) ->
  consistent store -> consistent (saveRow address store row) /\ extends store (saveRow address store row) /\
  (forall id, reservedID (saveRow address store row) id <-> reservedID store id).
Proof.
  intros (t0 & Hp & Hid & _) Htx Hraw Hout [Ho Ht Ha]. unfold saveRow. rewrite Htx.
  destruct (insertInputs_tables (t_ID t) address (io_Inputs row) (insertTransaction store (io_Transaction row)))
    as (Eo & Et & Eaddr).
  set (s1 := fold_left _ (io_Inputs row) _) in *.
  destruct (insertOutputs_tables (t_ID t) (io_Outputs row) s1) as (Et2 & Ea2 & Hkeep & Hnew).
  set (s2 := fold_left _ (io_Outputs row) s1) in *. rewrite Eo in Hkeep, Hnew. cbn in Hkeep, Hnew. split_and!.
  - split.
    + intros id o [?|(r & Hr & -> & ->)]%Hnew; [by apply Ho|]. cbn. by apply Hout.
    + intros txid r. rewrite Et2, Et. cbn. rewrite Htx. intros [[<- <-]|[_ Hr]]%lookup_insert_Some; [|by apply Ht].
      split; [done|]. rewrite Hraw. intros t1 Ht1. congruence.
    + by rewrite Ea2, Eaddr.
  - split; [|intros r Hr; by rewrite Ea2, Eaddr]. intros id o ?%Hkeep. by exists o.
  - intros id. split; intros (o & Hid' & Hres); [|exists o; split; [by apply Hkeep|done]].
    apply Hnew in Hid' as [?|(r & _ & _ & ->)]; [by exists o|done].
Qed.
Lemma SaveTransactions_consistent failure store ts address targetHash history store' r :
  Forall networkTransaction ts -> consistent store ->
  SaveTransactions network outputType julianDay failure store ts address targetHash history = (store', r) ->
  consistent store' /\ extends store store' /\ (forall id, reservedID store' id <-> reservedID store id).
Proof.
  intros Hts Hc Hs. unfold SaveTransactions in Hs.
  destruct (ProjectTransactionIOBatch _ _ _ ts address targetHash) as [rows| | |] eqn:Er; [|by simplify_eq..].
  unfold SaveTransactionIOBatch, inTransaction in Hs. destruct failure; simplify_eq; [done|].
  enough (consistent (fold_left (saveRow address) rows store) /\
    extends store (fold_left (saveRow address) rows store) /\
    forall id, reservedID (fold_left (saveRow address) rows store) id <-> reservedID store id) as ([Ho Ht Ha] & Hx & Hr).
  { split_and!; [by split|exact Hx|exact Hr]. }
  revert rows Er store Hc. induction Hts as [|t ts Ht Hts IH]; intros rows Er store Hc; cbn in Er.
  { apply (inj Ok) in Er as <-. done. }
  apply res_bind_Ok in Er as (row & Hrow & Er). apply res_bind_Ok in Er as (rest & Hrest & Er).
  apply (inj Ok) in Er as <-. cbn [fold_left].
  destruct (projectTransaction_keys _ _ _ _ Ht Hrow) as (? & ? & ?).
  destruct (saveRow_consistent address t row store Ht) as (Hc1 & Hx1 & Hr1); [done..|].
  destruct (IH _ Hrest _ Hc1) as (Hc2 & Hx2 & Hr2). split_and!; [done|by etrans|].
  intros id. by rewrite Hr2.
Qed.
End projected.
End store.

(** ** What a listing contains *)

Section listing.
Context `{Digests} `{OutputOrder}.

Definition ownedIn (store : LedgerStore) (o : StoredTransactionOutput) (owner : bytes -> Prop) : Prop :=
  exists r, r ∈ account_address (st_Addresses store) /\ Some (k_Address (r_Key r)) = so_Address o /\ owner (r_Account r).
Definition listable (store : LedgerStore) (accountIDs : list bytes) (window : option (Z * Z))
    (row : SpendableOutputRow) : Prop :=
  exists o, st_TXO store !! TXOID row = Some o /\ so_IsReserved o = false /\ st_TXI store !! TXOID row = None /\
    so_TXID o = TXID row /\ so_Position o = OutputPosition row /\ so_Amount o = RowAmount row /\
    spendableType window o = true /\
    (exists tx, st_TX store !! TXID row = Some tx /\ row_Raw tx = RowRaw row) /\
    ownedIn store o (fun account => accountIDs = [] \/ account ∈ accountIDs).

Lemma outputRows_spec store accountIDs window id o row :
  st_TXO store !! id = Some o -> row ∈ outputRows store accountIDs window (id, o) ->
  TXOID row = id /\ listable store accountIDs window row.
Proof.
  intros Ho Hin. unfold outputRows in Hin. destruct (st_TX store !! so_TXID o) as [tx|] eqn:Et; [|by apply not_elem_of_nil in Hin].
  destruct (st_TXI store !! id) eqn:Ei; [by apply not_elem_of_nil in Hin|].
  destruct (negb (so_IsReserved o) && spendableType window o) eqn:E; [|by apply not_elem_of_nil in Hin].
  apply andb_true_iff in E as [E1%negb_true_iff E2]. apply list_elem_of_fmap in Hin as (r & -> & Hr).
  split; [done|]. exists o. cbn. split_and!; try done; [by exists tx|].
  apply list_elem_of_In, filter_In in Hr as [Hr%list_elem_of_In Hb].
  apply andb_true_iff in Hb as [Hb1%bool_decide_eq_true Hb2]. exists r. split_and!; [done|done|].
  unfold inAccounts in Hb2. apply orb_true_iff in Hb2. by rewrite !bool_decide_eq_true in Hb2.
Qed.
Lemma query_listable store accountIDs window row :
  row ∈ spendableOutputQuery store accountIDs window -> listable store accountIDs window row.
Proof.
  unfold spendableOutputQuery. rewrite list_elem_of_In, in_flat_map. intros ([id o] & Hid & Hrow).
  apply list_elem_of_In, elem_of_map_to_list in Hid. apply list_elem_of_In in Hrow.
  by destruct (outputRows_spec _ _ _ _ _ _ Hid Hrow).
Qed.
Lemma NoDup_filter_one {A B} (f : A -> B) (p : A -> bool) l :
  NoDup (map f l) -> (forall x y, x ∈ l -> y ∈ l -> p x = true -> p y = true -> f x = f y) ->
  (length (List.filter p l) <= 1)%nat.
Proof.
  intros Hnd Hp. destruct (List.filter p l) as [|x [|y rest]] eqn:E; cbn; try lia. exfalso.
  assert (forall z, z ∈ x :: y :: rest -> z ∈ l /\ p z = true) as Hin.
  { intros z. rewrite <- E, list_elem_of_In, filter_In, list_elem_of_In. done. }
  destruct (Hin x) as [Hx Px]; [by left|]. destruct (Hin y) as [Hy Py]; [by right; left|].
  assert (map f (List.filter p l) `sublist_of` map f l) as Hs.
  { clear. induction l as [|z l IH]; cbn; [done|]. destruct (p z); cbn; by constructor. }
  rewrite E in Hs. cbn in Hs. apply sublist_NoDup in Hs; [|done]. apply NoDup_cons in Hs as [Hs _].
  apply Hs. rewrite (Hp x y) by done. by left.
Qed.
Lemma outputRows_one store accountIDs window entry :
  apart (account_address (st_Addresses store)) -> (length (outputRows store accountIDs window entry) <= 1)%nat.
Proof.
  intros [Hnd Hown]. destruct entry as [id o]. unfold outputRows.
  repeat case_match; cbn; try lia. rewrite length_map. eapply NoDup_filter_one; [exact Hnd|].
  intros r s Hr Hs [Er%bool_decide_eq_true _]%andb_true_iff [Es%bool_decide_eq_true _]%andb_true_iff.
  unfold rowKey. assert (k_Address (r_Key r) = k_Address (r_Key s)) as E by congruence.
  by rewrite E, (Hown r s Hr Hs E).
Qed.
Lemma query_NoDup store accountIDs window :
  apart (account_address (st_Addresses store)) ->
  NoDup (map TXOID (spendableOutputQuery store accountIDs window)).
Proof.
  intros Ha. unfold spendableOutputQuery. pose proof (NoDup_fst_map_to_list (st_TXO store)) as Hnd.
  assert (forall id o, (id, o) ∈ map_to_list (st_TXO store) -> st_TXO store !! id = Some o) as Hin
    by (intros id o; by rewrite elem_of_map_to_list).
  induction (map_to_list (st_TXO store)) as [|[id o] entries IH]; cbn [flat_map map]; [constructor|].
  rewrite map_app. cbn in Hnd. apply NoDup_cons in Hnd as [Hid Hnd]. apply NoDup_app. split_and!.
  - pose proof (outputRows_one store accountIDs window (id, o) Ha) as Hl.
    destruct (outputRows _ _ _ _) as [|x [|? ?]]; cbn in *; [constructor|apply NoDup_singleton|lia].
  - intros key (r & -> & Hr)%list_elem_of_fmap (r' & E & Hr')%list_elem_of_fmap. apply Hid.
    destruct (outputRows_spec store accountIDs window id o r) as [<- _]; [apply Hin; by left|done|].
    apply list_elem_of_In, in_flat_map in Hr' as ([id' o'] & Hin'%list_elem_of_In & Hr'%list_elem_of_In).
    destruct (outputRows_spec store accountIDs window id' o' r') as [Eid _]; [apply Hin; by right|done|].
    apply list_elem_of_fmap. exists (id', o'). split; [|done]. cbn. congruence.
  - apply IH; [done|]. intros id' o' ?. apply Hin. by right.
Qed.
Lemma listed_listable store accountIDs window row :
  row ∈ orderSpendables window (spendableOutputQuery store accountIDs window) -> listable store accountIDs window row.
Proof. rewrite orderSpendables_perm. apply query_listable. Qed.
Lemma listed_NoDup store accountIDs window :
  consistent store -> NoDup (map TXOID (orderSpendables window (spendableOutputQuery store accountIDs window))).
Proof.
  intros [_ _ Ha]. rewrite orderSpendables_perm. by apply query_NoDup.
Qed.

(** The ID of the output an input spends; of an estimator, the key of its row. *)
Definition spentID (input : TransactionInput) : bytes :=
  match i_ResolvedOutput input with Some output => OutputID output | None => [] end.
Lemma NewSpendInput_resolved output input : NewSpendInput output = Ok input -> i_ResolvedOutput input = Some output.
Proof.
  unfold NewSpendInput. intros Hi. repeat case_match; try done.
  apply res_bind_Ok in Hi as (script & _ & Hi). by apply (inj Ok) in Hi as <-.
Qed.
Lemma estimator_spends policy row e :
  transactionCoinSelectionEstimator row policy = Ok e ->
  spentID (s_Input (e_Spendable e)) = outputKey (TXID row) (OutputPosition row).
Proof.
  unfold transactionCoinSelectionEstimator. intros He.
  apply res_bind_Ok in He as (output & Ho & He). apply res_bind_Ok in He as (input & Hi & He).
  apply res_bind_Ok in He as (fee & _ & He). apply res_bind_Ok in He as (a & _ & He).
  apply res_bind_Ok in He as (eff & _ & He). apply (inj Ok) in He as <-. cbn. unfold spentID.
  rewrite (NewSpendInput_resolved _ _ Hi). unfold transactionOutputFromStored in Ho.
  destruct (_ || _) eqn:E; [done|]. destruct (RowAmount row <? 0); [done|].
  apply res_bind_Ok in Ho as (hash & _ & Ho). apply res_bind_Ok in Ho as (script & _ & Ho). apply (inj Ok) in Ho as <-.
  apply orb_false_iff in E as [E1%Z.ltb_ge E2%Z.ltb_ge]. unfold OutputID, outputKey. cbn. by rewrite u32_id by lia.
Qed.
Lemma rowEstimators_spend policy rows es :
  rowEstimators policy rows = Ok es ->
  map (fun e => spentID (s_Input (e_Spendable e))) es = map (fun row => outputKey (TXID row) (OutputPosition row)) rows.
Proof.
  revert es. induction rows as [|row rows IH]; intros es He; cbn in He.
  { by apply (inj Ok) in He as <-. }
  apply res_bind_Ok in He as (e & Hrow & He). apply res_bind_Ok in He as (rest & Hrest & He).
  apply (inj Ok) in He as <-. cbn. f_equal; [by eapply estimator_spends|by apply IH].
Qed.
Lemma listable_key store accountIDs window row :
  consistent store -> listable store accountIDs window row -> outputKey (TXID row) (OutputPosition row) = TXOID row.
Proof. intros [Hk _ _] (o & Ho & _ & _ & <- & <- & _). symmetry. by apply Hk. Qed.
End listing.

(** ** Selection by the database *)

Section windows.
Context `{Digests} `{OutputOrder}.
Variables (effectiveAmount : option (SpendableOutputRow -> res Z)) (inspect : option (SpendableOutputRow -> res unit)).
Variables (feePerByte amountToReserve : Z).
Local Abbreviation worth := (sqliteSpendableEffectiveAmount effectiveAmount feePerByte).

Lemma total_app a b : total (a ++ b) = total a + total b.
Proof. induction a as [|x a IH]; cbn in *; [done|]. rewrite IH. lia. Qed.
(** The rows are taken one by one, each while the amount was not reached. *)
Definition took (st st' : progress) (rows : list SpendableOutputRow) : Prop := exists cs,
  st'.1 = st.1 ++ rows /\ Forall2 (fun row c => worth row = Ok c) rows cs /\ st'.2 = st.2 + total cs /\
    forall k, (k < length rows)%nat -> st.2 + total (take k cs) < amountToReserve.
Lemma took_nil st : took st st [].
Proof. exists []. split_and!; [by rewrite app_nil_r|constructor|cbn; lia|cbn; lia]. Qed.
Lemma took_app st st1 st2 rows1 rows2 : took st st1 rows1 -> took st1 st2 rows2 -> took st st2 (rows1 ++ rows2).
Proof.
  intros (cs1 & E1 & F1 & S1 & P1) (cs2 & E2 & F2 & S2 & P2). exists (cs1 ++ cs2). split_and!.
  - by rewrite E2, E1, app_assoc.
  - by apply Forall2_app.
  - rewrite total_app. lia.
  - pose proof (Forall2_length _ _ _ F1) as L1. intros k Hk. rewrite length_app in Hk.
    destruct (decide (k < length rows1)%nat) as [Hlt|Hge].
    + rewrite take_app_le by lia. by apply P1.
    + rewrite take_app_ge, total_app by lia. specialize (P2 (k - length cs1)%nat). lia.
Qed.

Hypothesis worth_int64 : forall row c, worth row = Ok c -> min_i64 <= c <= max_i64.

Lemma addSpendable_Ok l r s :
  min_i64 <= l <= max_i64 -> min_i64 <= r <= max_i64 -> addSpendableEffectiveAmount l r = Ok s ->
  s = l + r /\ min_i64 <= s <= max_i64.
Proof.
  unfold addSpendableEffectiveAmount. intros Hl Hr. destruct (_ || _) eqn:E; [done|]. intros [= <-].
  apply orb_false_iff in E as [E1%andb_false_iff E2%andb_false_iff].
  unfold min_i64, max_i64 in *.
  assert (- 2 ^ 63 <= l + r <= 2 ^ 63 - 1) as Hs.
  { destruct (Z.ltb_spec 0 r); [rewrite i64_id in E1 by (unfold min_i64, max_i64; lia)|];
      (destruct (Z.ltb_spec r 0); [rewrite i64_id in E2 by (unfold min_i64, max_i64; lia)|]);
      rewrite ?Z.ltb_ge in E1, E2; destruct E1, E2; try done; lia. }
  rewrite i64_id by (unfold min_i64, max_i64; lia). done.
Qed.
Lemma take_row_took st row st' :
  min_i64 <= st.2 < amountToReserve -> amountToReserve <= max_i64 ->
  take_row effectiveAmount feePerByte st row = Ok st' -> took st st' [row] /\ min_i64 <= st'.2 <= max_i64.
Proof.
  intros Hst Ha Ht. unfold take_row in Ht. apply res_bind_Ok in Ht as (c & Hc & Ht).
  apply res_bind_Ok in Ht as (s & Hs & Ht). apply (inj Ok) in Ht as <-.
  destruct (addSpendable_Ok st.2 c s) as [-> ?]; [lia|by eapply worth_int64|done|]. split; [|done].
  exists [c]. split_and!; [done|by repeat constructor|cbn; lia|]. intros k Hk. cbn in Hk.
  replace k with 0%nat by lia. cbn. lia.
Qed.

Lemma verifiedRows_spec rows st un st' r :
  min_i64 <= st.2 < amountToReserve -> amountToReserve <= max_i64 ->
  verifiedRows effectiveAmount inspect feePerByte amountToReserve rows st un = Ok (st', r) ->
  exists taken rest, took st st' taken /\ min_i64 <= st'.2 <= max_i64 /\ taken ++ rest ⊆+ rows /\
    match r with Some un' => un' = un ++ rest /\ st'.2 < amountToReserve | None => amountToReserve <= st'.2 end.
Proof.
  revert st un. induction rows as [|row rows IH]; intros st un Hst Ha Hv; cbn [verifiedRows] in Hv.
  { apply (inj Ok) in Hv. injection Hv as <- <-. exists [], []. split_and!; [apply took_nil|lia|lia|done|by rewrite app_nil_r|lia]. }
  apply res_bind_Ok in Hv as (u & _ & Hv). destruct (RowIsVerified row).
  - apply res_bind_Ok in Hv as (st1 & Ht & Hv). apply take_row_took in Ht as [Ht Hr1]; [|done..].
    destruct (Z.leb_spec amountToReserve st1.2).
    + apply (inj Ok) in Hv. injection Hv as <- <-. exists [row], []. split_and!; [done|lia|lia| |done].
      apply submseteq_skip, submseteq_nil_l.
    + apply IH in Hv as (taken & rest & Ht2 & Hr2 & Hs & Hr); [|lia|done]. exists (row :: taken), rest.
      split_and!; [by apply (took_app st st1 st' [row] taken)|lia|lia|by apply submseteq_skip|done].
  - destruct (IH _ _ Hst Ha Hv) as (taken & rest & Ht2 & Hr2 & Hs & Hr). destruct r as [un'|].
    + destruct Hr as [-> ?]. exists taken, (row :: rest). split_and!; [done|lia|lia| |by rewrite <- app_assoc|done].
      rewrite <- Permutation_middle. by apply submseteq_skip.
    + exists taken, rest. split_and!; [done|lia|lia|by apply submseteq_cons|done].
Qed.
Lemma unconfirmedRows_spec rows st st' :
  min_i64 <= st.2 <= max_i64 -> amountToReserve <= max_i64 ->
  unconfirmedRows effectiveAmount feePerByte amountToReserve rows st = Ok st' ->
  exists taken, took st st' taken /\ min_i64 <= st'.2 <= max_i64 /\ taken ⊆+ rows.
Proof.
  revert st. induction rows as [|row rows IH]; intros st Hst Ha Hu; cbn [unconfirmedRows] in Hu.
  { apply (inj Ok) in Hu as <-. exists []. split_and!; [apply took_nil|lia|lia|done]. }
  destruct (Z.leb_spec amountToReserve st.2).
  { apply (inj Ok) in Hu as <-. exists []. split_and!; [apply took_nil|lia|lia|apply submseteq_nil_l]. }
  apply res_bind_Ok in Hu as (st1 & Ht & Hu). apply take_row_took in Ht as [Ht Hr1]; [|lia|done].
  destruct (IH _ Hr1 Ha Hu) as (taken & Ht2 & Hr2 & Hs). exists (row :: taken).
  split_and!; [by apply (took_app st st1 st' [row] taken)|lia|lia|by apply submseteq_skip].
Qed.
Lemma submseteq_NoDup {A} (l k : list A) : l ⊆+ k -> NoDup k -> NoDup l.
Proof. intros [r ->]%submseteq_Permutation. by intros (? & _)%NoDup_app. Qed.
Lemma window_spec store accountIDs floor ceiling st st' :
  consistent store -> min_i64 <= st.2 < amountToReserve -> amountToReserve <= max_i64 ->
  selectSQLiteSpendableWindow effectiveAmount inspect feePerByte amountToReserve store accountIDs floor ceiling st = Ok st' ->
  exists taken, took st st' taken /\ min_i64 <= st'.2 <= max_i64 /\ NoDup (map TXOID taken) /\
    Forall (fun row => listable store accountIDs (Some (floor, ceiling)) row) taken.
Proof.
  intros Hc Hst Ha Hw. unfold selectSQLiteSpendableWindow in Hw. apply res_bind_Ok in Hw as ([st1 r] & Hv & Hw).
  set (rows := orderSpendables _ _) in Hv.
  assert (forall taken, taken ⊆+ rows -> NoDup (map TXOID taken) /\
    Forall (fun row => listable store accountIDs (Some (floor, ceiling)) row) taken) as Hrows.
  { intros taken Hs. split.
    - apply (submseteq_NoDup _ (map TXOID rows)); [by apply fmap_submseteq|]. by apply listed_NoDup.
    - apply Forall_forall. intros row Hrow. apply listed_listable. by eapply elem_of_submseteq. }
  destruct (verifiedRows_spec _ _ _ _ _ Hst Ha Hv) as (taken & rest & Ht & Hr & Hs & Hm). destruct r as [un|].
  - destruct Hm as [-> _]. cbn [app] in Hw.
    destruct (unconfirmedRows_spec _ _ _ Hr Ha Hw) as (taken2 & Ht2 & Hr2 & Hs2).
    exists (taken ++ taken2). split_and!; [by eapply took_app|lia|lia|apply Hrows..];
      (etrans; [|exact Hs]); by apply submseteq_skips_l.
  - apply (inj Ok) in Hw as <-. exists taken. split_and!; [done|lia|lia|apply Hrows..];
      (etrans; [|exact Hs]); apply submseteq_inserts_r; done.
Qed.

(** The windows are consecutive, so no output is taken twice. *)
Definition above (store : LedgerStore) (accountIDs : list bytes) (floor : Z) (row : SpendableOutputRow) : Prop :=
  exists low high, floor <= low /\ listable store accountIDs (Some (low, high)) row.
Lemma listable_window store accountIDs low high row :
  listable store accountIDs (Some (low, high)) row -> low <= RowAmount row < high.
Proof.
  intros (o & _ & _ & _ & _ & _ & <- & Hs & _). unfold spendableType in Hs.
  apply andb_true_iff in Hs as [[_ Hl]%andb_true_iff Hh]. lia.
Qed.
Lemma listable_amount store accountIDs w1 w2 r1 r2 :
  listable store accountIDs w1 r1 -> listable store accountIDs w2 r2 -> TXOID r1 = TXOID r2 -> RowAmount r1 = RowAmount r2.
Proof. intros (o1 & E1 & _ & _ & _ & _ & <- & _) (o2 & E2 & _ & _ & _ & _ & <- & _) E. rewrite E in E1. congruence. Qed.
Lemma empty_window store accountIDs floor ceiling row :
  ceiling <= floor -> row ∉ spendableOutputQuery store accountIDs (Some (floor, ceiling)).
Proof. intros Hle Hin%query_listable%listable_window. lia. Qed.

Lemma checkedPositiveProduct_Ok floor multiplier ceiling :
  0 <= floor <= max_i64 -> 0 < multiplier <= max_i64 -> checkedPositiveProduct floor multiplier = (ceiling, true) ->
  ceiling = floor * multiplier /\ 0 <= ceiling <= max_i64.
Proof.
  unfold checkedPositiveProduct. intros Hf Hm. destruct (Z.eqb_spec floor 0) as [->|]; cbn [orb].
  { intros [= <-]. split; [lia|done]. }
  destruct (Z.eqb_spec multiplier 0); [lia|]. cbn [orb].
  destruct ((floor <? 0) || (multiplier <? 0) || (max_i64 / multiplier <? floor)) eqn:E; [done|].
  apply orb_false_iff in E as [_ E%Z.ltb_ge]. intros [= <-].
  assert (floor * multiplier <= max_i64) as Hle.
  { etrans; [apply Z.mul_le_mono_nonneg_r; [lia|exact E]|]. rewrite Z.mul_comm. apply Z.mul_div_le. lia. }
  rewrite i64_id by (unfold min_i64, max_i64 in *; nia). split; [done|nia].
Qed.
Lemma negative_floor multiplier floor : floor < 0 -> 0 < multiplier -> (checkedPositiveProduct floor multiplier).2 = false.
Proof.
  intros Hf Hm. unfold checkedPositiveProduct. destruct (Z.eqb_spec floor 0); [lia|]. destruct (Z.eqb_spec multiplier 0); [lia|].
  cbn [orb]. by rewrite (proj2 (Z.ltb_lt floor 0) Hf).
Qed.

Lemma windowLoop_spec fuel store accountIDs floor multiplier gapCount st st' :
  consistent store -> min_i64 <= st.2 <= max_i64 -> amountToReserve <= max_i64 ->
  min_i64 <= floor <= max_i64 -> 0 < multiplier <= max_i64 ->
  windowLoop effectiveAmount inspect feePerByte amountToReserve fuel store accountIDs floor multiplier gapCount st = Ok st' ->
  exists taken, took st st' taken /\ NoDup (map TXOID taken) /\ Forall (above store accountIDs floor) taken.
Proof.
  intros Hc. revert floor multiplier gapCount st. induction fuel as [|fuel IH];
    intros floor multiplier gapCount st Hst Ha Hf Hm Hw; cbn [windowLoop] in Hw.
  all: destruct ((amountToReserve <=? st.2) || (5 <=? gapCount)) eqn:E1;
    [apply (inj Ok) in Hw as <-; exists []; split_and!; [apply took_nil|constructor..]|].
  all: destruct (checkedPositiveProduct floor multiplier) as [ceiling ok] eqn:Ep.
  all: destruct (negb ok || (max_i64 <=? ceiling)) eqn:E2;
    [apply (inj Ok) in Hw as <-; exists []; split_and!; [apply took_nil|constructor..]|].
  { done. }
  apply orb_false_iff in E1 as [E1%Z.leb_gt _]. apply orb_false_iff in E2 as [->%negb_false_iff E2%Z.leb_gt].
  assert (0 <= floor) as Hf0.
  { destruct (decide (0 <= floor)); [done|]. pose proof (negative_floor multiplier floor). rewrite Ep in *. cbn in *. lia. }
  apply checkedPositiveProduct_Ok in Ep as [-> Hcl]; [|lia|lia].
  apply res_bind_Ok in Hw as (next & Hn & Hw).
  apply window_spec in Hn as (taken & Ht & Hr & Hnd & Hl); [|done|lia|done].
  assert (floor <= floor * multiplier) by nia.
  assert (Forall (above store accountIDs floor) taken) as Hab.
  { eapply Forall_impl; [exact Hl|]. intros row Hrow. by exists floor, (floor * multiplier). }
  assert (forall m gap, 0 < m <= max_i64 ->
    windowLoop effectiveAmount inspect feePerByte amountToReserve fuel store accountIDs (floor * multiplier) m gap next = Ok st' ->
    exists taken, took st st' taken /\ NoDup (map TXOID taken) /\ Forall (above store accountIDs floor) taken) as Hrest.
  { intros m gap Hm' Hw'. apply IH in Hw' as (taken2 & Ht2 & Hnd2 & Hl2); [|lia|done|unfold min_i64; lia|done].
    exists (taken ++ taken2). rewrite Forall_forall in Hl, Hl2. split_and!; [by eapply took_app| |apply Forall_app; split; [done|]].
    - rewrite map_app. apply NoDup_app. split_and!; [done| |done].
      intros id (r1 & -> & Hr1)%list_elem_of_fmap (r2 & E & Hr2)%list_elem_of_fmap.
      destruct (Hl2 _ Hr2) as (low & high & Hlow & Hr2'). pose proof (Hl _ Hr1) as Hr1'.
      pose proof (listable_amount _ _ _ _ _ _ Hr1' Hr2' E).
      apply listable_window in Hr1', Hr2'. lia.
    - apply Forall_forall. intros row Hrow. destruct (Hl2 _ Hrow) as (low & high & ? & ?). exists low, high. split; [lia|done]. }
  destruct (st.2 =? next.2); [|by apply (Hrest 100 0)].
  destruct (Z.ltb_spec (max_i64 / multiplier) multiplier).
  - apply (inj Ok) in Hw as <-. by exists taken.
  - assert (multiplier * multiplier <= max_i64) as Hmm.
    { etrans; [apply Z.mul_le_mono_nonneg_r; [lia|eassumption]|]. rewrite Z.mul_comm. apply Z.mul_div_le. lia. }
    rewrite i64_id in Hw by (unfold min_i64; nia). eapply Hrest; [|exact Hw]. nia.
Qed.

(** What the selection does to the tables. *)
Lemma selection_spec failure store accountIDs floor store' r :
  consistent store -> amountToReserve <= max_i64 -> min_i64 <= floor <= max_i64 ->
  GetAndReserveSpendableOutputs effectiveAmount inspect feePerByte amountToReserve failure store accountIDs floor true
    false = (store', r) ->
  (store' = store /\ forall selected, r = Ok selected -> selected = []) \/
  exists selected cs, r = Ok selected /\ store' = fold_left (setReserved true) (map TXOID selected) store /\
    NoDup (map TXOID selected) /\ Forall (above store accountIDs floor) selected /\
    Forall2 (fun row c => worth row = Ok c) selected cs /\ amountToReserve <= total cs /\
    forall k, (k < length selected)%nat -> total (take k cs) < amountToReserve.
Proof.
  intros Hc Ha Hf Hg. unfold GetAndReserveSpendableOutputs, getAndReserveSpendableOutputs, inTransaction in Hg.
  destruct failure as [e|]; [by left; simplify_eq|].
  destruct (windowLoop _ _ _ _ _ _ _ _ _ _ _) as [[selected reserved]|e| |] eqn:E; [|by left; simplify_eq..].
  apply windowLoop_spec in E as (taken & (cs & Es & Hcs & Hsum & Hpre) & Hnd & Hab); [|done..].
  cbn in Es, Hsum, Hpre. subst taken.
  destruct (Z.ltb_spec reserved amountToReserve) as [Hlt|Hge]; cbn [andb negb] in Hg.
  { left. simplify_eq. split; [done|by intros ? [= <-]]. }
  rewrite (proj2 (Z.leb_le amountToReserve reserved) Hge) in Hg. cbn [andb] in Hg. right. simplify_eq.
  by exists selected, cs.
Qed.

(** The number of windows left: the floor stays zero for at most five, and
    otherwise leaves the range of an [int64]. *)
Definition enoughWindows (fuel : nat) (floor multiplier gapCount : Z) : Prop :=
  floor < 0 \/ (floor = 0 /\ 5 - gapCount <= Z.of_nat fuel) \/
  (0 < floor /\ 100 <= multiplier /\ max_i64 < floor * 100 ^ Z.of_nat fuel).
Lemma enough_windows floor : min_i64 <= floor <= max_i64 -> enoughWindows maximumWindows floor 100 0.
Proof.
  intros Hf. unfold enoughWindows. change (100 ^ Z.of_nat maximumWindows) with (10 ^ 20).
  destruct (decide (floor < 0)); [by left|right].
  destruct (decide (floor = 0)); [left; split; [done|unfold maximumWindows; lia]|right].
  split_and!; [lia|done|unfold max_i64; lia].
Qed.
Hypothesis worth_returns : forall row, returns (worth row).
Hypothesis inspect_returns : forall f row, inspect = Some f -> returns (f row).

Lemma take_row_returns st row : returns (take_row effectiveAmount feePerByte st row).
Proof.
  unfold take_row. apply returns_bind; [apply worth_returns|]. intros c _.
  apply returns_bind; [|done]. unfold addSpendableEffectiveAmount. by destruct (_ || _).
Qed.
Lemma window_returns store accountIDs floor ceiling st :
  returns (selectSQLiteSpendableWindow effectiveAmount inspect feePerByte amountToReserve store accountIDs floor ceiling st).
Proof.
  unfold selectSQLiteSpendableWindow. apply returns_bind.
  - set (rows := orderSpendables _ _). clearbody rows. generalize (@nil SpendableOutputRow) as un. revert st.
    induction rows as [|row rows IH]; intros st un; cbn [verifiedRows]; [done|].
    apply returns_bind; [destruct inspect as [f|] eqn:E; [by apply (inspect_returns f)|done]|]. intros _ _.
    destruct (RowIsVerified row); [|apply IH].
    apply returns_bind; [apply take_row_returns|]. intros st1 _. destruct (_ <=? _); [done|apply IH].
  - intros [st1 [un|]] _; [|done]. revert st1. induction un as [|row un IH]; intros st1; cbn [unconfirmedRows]; [done|].
    destruct (_ <=? _); [done|]. apply returns_bind; [apply take_row_returns|]. intros st2 _. apply IH.
Qed.
Lemma zero_window store accountIDs ceiling st :
  ceiling <= 0 ->
  selectSQLiteSpendableWindow effectiveAmount inspect feePerByte amountToReserve store accountIDs 0 ceiling st = Ok st.
Proof.
  intros Hc. unfold selectSQLiteSpendableWindow.
  assert (orderSpendables (Some (0, ceiling)) (spendableOutputQuery store accountIDs (Some (0, ceiling))) = []) as ->; [|done].
  apply Permutation_nil_r. rewrite orderSpendables_perm.
  destruct (spendableOutputQuery _ _ _) as [|row rows] eqn:E; [done|].
  exfalso. apply (empty_window store accountIDs 0 ceiling row Hc). rewrite E. by left.
Qed.
Lemma windowLoop_returns fuel store accountIDs floor multiplier gapCount st :
  floor <= max_i64 -> 0 < multiplier <= max_i64 -> enoughWindows fuel floor multiplier gapCount ->
  returns (windowLoop effectiveAmount inspect feePerByte amountToReserve fuel store accountIDs floor multiplier gapCount st).
Proof.
  revert floor multiplier gapCount st. induction fuel as [|fuel IH]; intros floor multiplier gapCount st Hf Hm He; cbn [windowLoop].
  all: destruct ((amountToReserve <=? st.2) || (5 <=? gapCount)) eqn:E1; [done|].
  all: apply orb_false_iff in E1 as [_ E1%Z.leb_gt].
  all: destruct (checkedPositiveProduct floor multiplier) as [ceiling ok] eqn:Ep.
  all: destruct (negb ok || (max_i64 <=? ceiling)) eqn:E2; [done|].
  all: apply orb_false_iff in E2 as [->%negb_false_iff E2%Z.leb_gt].
  all: assert (0 <= floor) as Hf0
    by (destruct (decide (0 <= floor)); [done|]; pose proof (negative_floor multiplier floor); rewrite Ep in *; cbn in *; lia).
  all: apply checkedPositiveProduct_Ok in Ep as [-> Hcl]; [|lia|lia].
  { exfalso. destruct He as [?|[[-> ?]|(? & ? & Hpow)]]; [lia|lia|]. change (100 ^ Z.of_nat 0) with 1 in Hpow. lia. }
  destruct (decide (floor = 0)) as [->|Hpos].
  - rewrite zero_window by lia. cbn [mbind res_bind]. rewrite Z.eqb_refl. destruct (Z.ltb_spec (max_i64 / multiplier) multiplier); [done|].
    assert (multiplier * multiplier <= max_i64) as Hmm.
    { etrans; [apply Z.mul_le_mono_nonneg_r; [lia|eassumption]|]. rewrite Z.mul_comm. apply Z.mul_div_le. lia. }
    rewrite i64_id by (unfold min_i64; nia). apply IH; [lia|nia|]. right; left. split; [lia|].
    destruct He as [?|[[_ ?]|(? & _)]]; lia.
  - destruct He as [?|[[? _]|(_ & Hm100 & Hpow)]]; [lia|done|].
    assert (forall m gap, 100 <= m -> enoughWindows fuel (floor * multiplier) m gap) as Hn.
    { intros m gap Hm'. right; right. split_and!; [nia|done|].
      rewrite Nat2Z.inj_succ, Z.pow_succ_r in Hpow by lia.
      pose proof (Z.pow_pos_nonneg 100 (Z.of_nat fuel) ltac:(lia) ltac:(lia)).
      rewrite <- Z.mul_assoc. eapply Z.lt_le_trans; [exact Hpow|]. apply Z.mul_le_mono_nonneg_l; [lia|]. apply Z.mul_le_mono_nonneg_r; lia. }
    apply returns_bind; [apply window_returns|]. intros next _. destruct (_ =? _); [|apply IH; [lia|done|by apply Hn]].
    destruct (Z.ltb_spec (max_i64 / multiplier) multiplier); [done|].
    assert (multiplier * multiplier <= max_i64) as Hmm.
    { etrans; [apply Z.mul_le_mono_nonneg_r; [lia|eassumption]|]. rewrite Z.mul_comm. apply Z.mul_div_le. lia. }
    rewrite i64_id by (unfold min_i64; nia). apply IH; [lia|nia|]. apply Hn. nia.
Qed.
End windows.

(** Selection by the database.  The loop over amount windows always ends;
    an error leaves the tables as they were; and a result is either empty, with
    nothing reserved, or consists of distinct outputs that were spendable in the
    accounts and at least [floor] large, is worth the amount but would not be
    without its last row, and has exactly its outputs reserved in addition to
    those that were. *)
Theorem database_selection `{Digests} `{OutputOrder} effectiveAmount inspect feePerByte amount failure store accountIDs
    floor store' r :
  let worth := sqliteSpendableEffectiveAmount effectiveAmount feePerByte in
  consistent store -> amount <= max_i64 -> min_i64 <= floor <= max_i64 ->
  (forall row, returns (worth row)) -> (forall row c, worth row = Ok c -> min_i64 <= c <= max_i64) ->
  (forall f row, inspect = Some f -> returns (f row)) ->
  GetAndReserveSpendableOutputs effectiveAmount inspect feePerByte amount failure store accountIDs floor true false
    = (store', r) ->
  returns r /\ ((exists e, r = Err e) -> store' = store) /\
  forall selected, r = Ok selected ->
    (selected = [] /\ store' = store) \/
    (NoDup (map TXOID selected) /\ Forall (above store accountIDs floor) selected /\
     (exists cs, Forall2 (fun row c => worth row = Ok c) selected cs /\ amount <= total cs /\
        forall k, (k < length selected)%nat -> total (take k cs) < amount) /\
     forall id, reservedID store' id <-> reservedID store id \/ id ∈ map TXOID selected).
Proof.
  intros worth Hc Ha Hf Hwr Hw64 Hir Hg.
  destruct (selection_spec _ _ _ _ Hw64 _ _ _ _ _ _ Hc Ha Hf Hg) as [[-> Hr]|(selected & cs & -> & -> & ? & Hab & ? & ? & ?)].
  - split_and!; [|done|intros selected E; left; split; [by apply Hr|done]].
    unfold GetAndReserveSpendableOutputs, getAndReserveSpendableOutputs, inTransaction in Hg.
    destruct failure as [e|]; [by simplify_eq|].
    assert (returns (windowLoop effectiveAmount inspect feePerByte amount maximumWindows store accountIDs floor 100 0 ([], 0)))
      as Hret by (apply windowLoop_returns; [done..|lia|done|by apply enough_windows]).
    destruct (windowLoop _ _ _ _ _ _ _ _ _ _ _) as [[selected reserved]|e| |]; [|by simplify_eq|done..].
    repeat case_match; by simplify_eq.
  - split_and!; [done|by intros [? [=]]|]. intros ? [= <-]. right. split_and!; [done|done|by exists cs|].
    intros id. rewrite reserve_reserved. split; [naive_solver|]. intros [?|Hid]; [by left|right]. split; [done|].
    apply list_elem_of_fmap in Hid as (row & -> & Hrow). rewrite Forall_forall in Hab.
    destruct (Hab _ Hrow) as (low & high & _ & o & Ho & _). by exists o.
Qed.
