(* ===== verification/Reservations.v ===== *)
(** * Reservations

    Concurrent creations of transactions over one ledger database.  The ledger's
    reservation lock makes the creations take turns; saving transactions,
    releasing and deriving addresses run in between.  [step] is the relation of
    these moves on the database, the creation that holds the lock and the outputs
    that earlier creations hold; the invariant says that no output is held twice. *)

From stdpp Require Import sorting relations.
From S2P Require Import Prelude Digest Hex Decimal Base58 Keys Script ScriptBuild Transaction TransactionBuild.
From S2P Require Import Float PythonRandom CoinSelection Balancing Funding Signing Accounts LedgerStore AddressBook LedgerRows.

Section pool.
Context `{Digests} `{OutputOrder} {R : Type} `{CoinSelectionRandom R}.
(** The ledger's fee and strategy, the selector's generator, and the arguments of
    saving. *)
Variables (feePerByte : Z) (strategy : string) (random : R).
Variables (network : Network) (outputType : Transaction -> TransactionOutput -> res Z)
  (julianDay : Transaction -> res unit).

(** [GetSpendableTransactionInputs] under the lock: the accounts still to be
    listed and the estimators so far. *)
Record Creation := MkCreation { c_Accounts : list bytes; c_Estimators : list CoinSelectionEstimator }.
(** The outputs of every creation that succeeded and was not released. *)
Record Pool := MkPool {
  p_Store : LedgerStore;
  p_Locked : option Creation;
  p_Holdings : list (list bytes)
}.
(** The coins listed are far from overflowing, as in [withinSupply]. *)
Definition supply (costOfChange : Z) (es : list CoinSelectionEstimator) : Prop :=
  0 <= costOfChange /\ costOfChange + 2 * sumAbs es <= max_i64.

Inductive step : Pool -> Pool -> Prop :=
| Lock store holdings accounts :
    NoDup accounts ->
    step (MkPool store None holdings) (MkPool store (Some (MkCreation accounts [])) holdings)
| ListAccount store holdings account accounts es here :
    rowEstimators (LegacyTransactionFeePolicy feePerByte 0) (ListStoredOutputs store [account]) = Ok here ->
    step (MkPool store (Some (MkCreation (account :: accounts) es)) holdings)
         (MkPool store (Some (MkCreation accounts (es ++ here))) holdings)
| Fail store holdings creation :
    step (MkPool store (Some creation) holdings) (MkPool store None holdings)
| Reserve store store' holdings es amount costOfChange selector es' selected ids :
    0 < amount -> supply costOfChange es ->
    Select (MkSelector amount costOfChange false 0 random) es strategy = Ok (selector, es', selected) ->
    outputIDs selected = Ok ids ->
    ReserveStoredOutputs None store ids true = (store', Ok tt) ->
    step (MkPool store (Some (MkCreation [] es)) holdings) (MkPool store' None (ids :: holdings))
| ReserveInDatabase failure store store' holdings accounts amount costOfChange r :
    0 <= amount <= max_i64 ->
    getSQLiteSpendableTransactionInputs failure feePerByte costOfChange store accounts amount = (store', r) ->
    step (MkPool store None holdings)
         (MkPool store' None match r with
                             | Ok spendables => map spentID (map s_Input spendables) :: holdings
                             | _ => holdings
                             end)
| Release store store' locked before ids after :
    ReserveStoredOutputs None store ids false = (store', Ok tt) ->
    step (MkPool store locked (before ++ ids :: after)) (MkPool store' locked (before ++ after))
| Save failure store store' locked holdings transactions address targetHash history r :
    Forall networkTransaction transactions ->
    SaveTransactions network outputType julianDay failure store transactions address targetHash history = (store', r) ->
    step (MkPool store locked holdings) (MkPool store' locked holdings)
| Derive failure store addresses locked holdings account keys r :
    (forall key row, key ∈ keys -> row ∈ account_address (st_Addresses store) ->
       k_Address (r_Key row) = k_Address key -> r_Account row = account) ->
    AddKeys failure (st_Addresses store) account keys = (addresses, r) ->
    step (MkPool store locked holdings)
         (MkPool (MkStore addresses (st_TX store) (st_TXO store) (st_TXI store)) locked holdings)
| History store locked holdings address history :
    step (MkPool store locked holdings)
         (MkPool (MkStore (SetAddressHistory (st_Addresses store) address history) (st_TX store) (st_TXO store)
                    (st_TXI store)) locked holdings).

(** ** The invariant *)

Definition estimatorIDs (es : list CoinSelectionEstimator) : list bytes :=
  map (fun e => spentID (s_Input (e_Spendable e))) es.
Definition held (p : Pool) : list bytes := concat (p_Holdings p).
(** What the creation under the lock has listed: outputs of accounts that it has
    done with, none twice, none held. *)
Definition listedOk (store : LedgerStore) (holdings : list (list bytes)) (c : Creation) : Prop :=
  NoDup (c_Accounts c) /\ NoDup (estimatorIDs (c_Estimators c)) /\
  forall id, id ∈ estimatorIDs (c_Estimators c) ->
    id ∉ concat holdings /\
    exists o, st_TXO store !! id = Some o /\ ownedIn store o (fun account => account ∉ c_Accounts c).
Record poolOk (p : Pool) : Prop := {
  ok_store : consistent (p_Store p);
  ok_distinct : NoDup (held p);
  ok_reserved : forall id, id ∈ held p -> reservedID (p_Store p) id;
  ok_listed : forall c, p_Locked p = Some c -> listedOk (p_Store p) (p_Holdings p) c
}.

Lemma ownedIn_extends store store' o o' owner :
  extends store store' -> sameOutput o o' -> ownedIn store o owner -> ownedIn store' o' owner.
Proof.
  intros [_ Ha] (_ & E & _) (r & Hr & Hk & Hown). exists r. split_and!; [by apply Ha|congruence|done].
Qed.
Lemma listedOk_extends store store' holdings holdings' c :
  extends store store' -> (forall id, id ∈ concat holdings' -> id ∈ concat holdings) ->
  listedOk store holdings c -> listedOk store' holdings' c.
Proof.
  intros Hx Hh (Hnd & Hids & Hl). split_and!; [done|done|]. intros id Hid. destruct (Hl id Hid) as (Hn & o & Ho & Hown).
  split; [naive_solver|]. destruct (proj1 Hx _ _ Ho) as (o' & Ho' & Hs). exists o'. split; [done|].
  by eapply ownedIn_extends.
Qed.
(** A move of the store alone. *)
Lemma poolOk_store store store' locked holdings :
  poolOk (MkPool store locked holdings) -> consistent store' -> extends store store' ->
  (forall id, reservedID store id -> reservedID store' id) -> poolOk (MkPool store' locked holdings).
Proof.
  intros [Hc Hd Hr Hl] Hc' Hx Hres. split; cbn in *; [done|done|by auto|].
  intros c Hlk. by eapply listedOk_extends; [exact Hx| |by apply Hl].
Qed.
Lemma reserve_consistent isReserved ids store :
  consistent store -> consistent (fold_left (setReserved isReserved) ids store).
Proof.
  intros [Ho Ht Ha]. destruct (setReserved_all isReserved ids store) as (_ & Et & _ & Ea & Hl). split.
  - intros id o. rewrite Hl. case_bool_decide; [|by apply Ho].
    intros (o0 & Ho0 & ->)%fmap_Some. cbn. by apply Ho.
  - intros txid row. rewrite Et. by apply Ht.
  - by rewrite Ea.
Qed.
(** Reserving outputs that nobody holds. *)
Lemma poolOk_reserve store holdings ids :
  poolOk (MkPool store None holdings) -> NoDup ids -> (forall id, id ∈ ids -> id ∉ concat holdings) ->
  (forall id, id ∈ ids -> is_Some (st_TXO store !! id)) ->
  poolOk (MkPool (fold_left (setReserved true) ids store) None (ids :: holdings)).
Proof.
  intros [Hc Hd Hr _] Hnd Hfree Hin. split; cbn in *.
  - by apply reserve_consistent.
  - unfold held in *. cbn. apply NoDup_app. split_and!; [done|by auto|done].
  - unfold held. cbn. intros id [Hid|Hid]%elem_of_app; apply reserve_reserved; [right; auto|left; by apply Hr].
  - done.
Qed.

(** ** Every move keeps it *)

Lemma poolOk_list store holdings account accounts es here :
  rowEstimators (LegacyTransactionFeePolicy feePerByte 0) (ListStoredOutputs store [account]) = Ok here ->
  poolOk (MkPool store (Some (MkCreation (account :: accounts) es)) holdings) ->
  poolOk (MkPool store (Some (MkCreation accounts (es ++ here))) holdings).
Proof.
  intros Hhere [Hc Hd Hr Hl]. split; cbn in *; try done. intros c [= <-].
  destruct (Hl _ eq_refl) as (Hnd & Hids & Hes). cbn in *. apply NoDup_cons in Hnd as [Hacc Hnd].
  apply rowEstimators_spend in Hhere. fold (estimatorIDs here) in Hhere.
  assert (forall row, row ∈ ListStoredOutputs store [account] -> listable store [account] None row) as Hrows
    by (intros row; apply listed_listable).
  assert (estimatorIDs here = map TXOID (ListStoredOutputs store [account])) as E.
  { rewrite Hhere. apply map_ext_in. intros row Hin%list_elem_of_In. eapply listable_key; [done|by apply Hrows]. }
  assert (forall id, id ∈ estimatorIDs here -> exists o, st_TXO store !! id = Some o /\ so_IsReserved o = false /\
    ownedIn store o (fun a => a = account)) as Hnew.
  { intros id. rewrite E. intros (row & -> & Hrow)%list_elem_of_fmap.
    destruct (Hrows _ Hrow) as (o & Ho & Hres & _ & _ & _ & _ & _ & _ & (r & Hin & Hk & Hown)).
    exists o. split_and!; [done|done|]. exists r. split_and!; [done|done|]. destruct Hown as [?|?]; [done|set_solver]. }
  unfold listedOk. cbn [c_Accounts c_Estimators]. split_and!; [done| |].
  - unfold estimatorIDs. rewrite map_app. apply NoDup_app. split_and!; [done| |].
    + intros id Hold Hin. destruct (Hes _ Hold) as (_ & o & Ho & r & Hr1 & Hk1 & Hout).
      destruct (Hnew _ Hin) as (o' & Ho' & _ & r' & Hr2 & Hk2 & Eacc). rewrite Ho in Ho'. simplify_eq.
      apply Hout. rewrite (proj2 (rows_apart _ Hc) r r') by (congruence || done). by left.
    + fold (estimatorIDs here). rewrite E. by apply listed_NoDup.
  - unfold estimatorIDs. rewrite map_app. intros id [Hold|Hin]%elem_of_app.
    + destruct (Hes _ Hold) as (? & o & ? & r & ? & ? & Hout). split; [done|]. exists o. split; [done|].
      exists r. split_and!; [done|done|]. intros ?. apply Hout. by right.
    + destruct (Hnew _ Hin) as (o & Ho & Hres & r & Hr1 & Hk1 & Eacc). split.
      * intros Hheld. destruct (Hr _ Hheld) as (o' & Ho' & Hres'). congruence.
      * exists o. split; [done|]. exists r. split_and!; [done|done|]. by rewrite Eacc.
Qed.

Lemma outputIDs_spent es ids : outputIDs es = Ok ids -> ids = estimatorIDs es.
Proof.
  revert ids. induction es as [|e es IH]; intros ids Ho; cbn in Ho; [by apply (inj Ok) in Ho as <-|].
  cbn. unfold spentID at 1. destruct (i_ResolvedOutput _); [|done]. apply res_bind_Ok in Ho as (rest & Hr & Ho).
  apply (inj Ok) in Ho as <-. f_equal. by apply IH.
Qed.
Lemma poolOk_selected store holdings es amount costOfChange selector es' selected ids :
  0 < amount -> supply costOfChange es ->
  Select (MkSelector amount costOfChange false 0 random) es strategy = Ok (selector, es', selected) ->
  outputIDs selected = Ok ids -> poolOk (MkPool store (Some (MkCreation [] es)) holdings) ->
  poolOk (MkPool (fold_left (setReserved true) ids store) None (ids :: holdings)).
Proof.
  intros Ha [Hs1 Hs2] Hsel Hids Hok. destruct (ok_listed _ Hok _ eq_refl) as (_ & Hnd & Hes). cbn in *.
  apply Select_within in Hsel as [Hsub _]; [|done..]. apply outputIDs_spent in Hids as ->.
  assert (estimatorIDs selected ⊆+ estimatorIDs es) as Hsub' by by apply fmap_submseteq.
  assert (forall id, id ∈ estimatorIDs selected -> id ∈ estimatorIDs es) as Hin by (intros id ?; by eapply elem_of_submseteq).
  apply poolOk_reserve.
  - destruct Hok as [Hc Hd Hr _]. by split.
  - by eapply submseteq_NoDup.
  - intros id Hid%Hin. by apply Hes.
  - intros id Hid%Hin. destruct (Hes id Hid) as (_ & o & -> & _). done.
Qed.

(** The database's own selection: the inputs spend the outputs of its rows. *)
Lemma rowEffectiveAmount_int64 row c :
  sqliteSpendableEffectiveAmount (Some (rowEffectiveAmount feePerByte)) feePerByte row = Ok c -> min_i64 <= c <= max_i64.
Proof.
  cbn. unfold rowEffectiveAmount. intros Hc. apply res_bind_Ok in Hc as (parent & _ & Hc).
  destruct (_ || _); [done|]. destruct (t_Outputs parent !! _); [|done].
  apply res_bind_Ok in Hc as (input & _ & Hc). apply res_bind_Ok in Hc as (fee & _ & Hc).
  by apply checked_Ok in Hc as [-> ?].
Qed.
Lemma spendRows_spent store accounts rows spendables :
  consistent store -> Forall (above store accounts 0) rows -> spendRows feePerByte rows = Ok spendables ->
  map spentID (map s_Input spendables) = map TXOID rows.
Proof.
  intros Hc Hrows. revert spendables. induction Hrows as [|row rows Hrow Hrows IH]; intros spendables Hs; cbn in Hs.
  { by apply (inj Ok) in Hs as <-. }
  apply res_bind_Ok in Hs as (parent & Hp & Hs). apply res_bind_Ok in Hs as (sp & Hsp & Hs).
  apply res_bind_Ok in Hs as (rest & Hrest & Hs). apply (inj Ok) in Hs as <-. cbn. f_equal; [|by apply IH].
  destruct Hrow as (low & high & _ & o & Ho & _ & _ & Etx & Epos & _ & _ & (tx & Htx & Eraw) & _).
  rewrite (key_output _ Hc _ _ Ho), Etx, Epos.
  unfold spendParent in Hsp. destruct (_ || _) eqn:E; [done|].
  apply orb_false_iff in E as [[E1%Z.ltb_ge E2%Z.ltb_ge]%orb_false_iff E3%Z.leb_gt].
  destruct (t_Outputs parent !! Z.to_nat (OutputPosition row)) as [output|] eqn:Eo; [|done].
  apply res_bind_Ok in Hsp as (input & Hi & Hsp). apply res_bind_Ok in Hsp as (fee & _ & Hsp).
  apply res_bind_Ok in Hsp as (a & _ & Hsp). apply res_bind_Ok in Hsp as (eff & _ & Hsp). apply (inj Ok) in Hsp as <-.
  cbn. unfold spentID. rewrite (NewSpendInput_resolved _ _ Hi). unfold OutputID, outputKey.
  unfold decodeParent in Hp. rewrite <- Eraw in Hp. destruct (key_transaction _ Hc _ _ Htx) as [_ Hid].
  destruct (parsed_identity _ _ Hp) as (_ & _ & _ & _ & Eout). rewrite Eout in Eo. unfold attachOutputs in Eo.
  rewrite list_lookup_imap in Eo. destruct (t_Outputs parent !! _); [|done]. simplify_eq/=.
  rewrite (Hid _ Hp), Z2Nat.id by lia. by rewrite u32_id by lia.
Qed.
Lemma addToGroup_perm row groups : concat (addToGroup row groups) ≡ₚ row :: concat groups.
Proof.
  induction groups as [|group groups IH]; cbn; [done|]. destruct group as [|first group]; cbn; [done|].
  case_bool_decide; cbn.
  - rewrite <- app_assoc. cbn. rewrite <- Permutation_middle. apply perm_swap.
  - rewrite IH, <- Permutation_middle. apply perm_swap.
Qed.
Lemma groupRows_perm rows : concat (groupRows rows) ≡ₚ rows.
Proof.
  unfold groupRows. enough (forall groups, concat (fold_left (fun groups row => addToGroup row groups) rows groups) ≡ₚ
    concat groups ++ rows) as E by by rewrite E.
  induction rows as [|row rows IH]; intros groups; cbn [fold_left]; [by rewrite app_nil_r|].
  rewrite IH, addToGroup_perm. cbn. apply Permutation_middle.
Qed.

Lemma poolOk_database failure store store' holdings accounts amount costOfChange r :
  0 <= amount <= max_i64 ->
  getSQLiteSpendableTransactionInputs failure feePerByte costOfChange store accounts amount = (store', r) ->
  poolOk (MkPool store None holdings) ->
  poolOk (MkPool store' None match r with
                             | Ok spendables => map spentID (map s_Input spendables) :: holdings
                             | _ => holdings
                             end).
Proof.
  intros Ha Hg Hok. pose proof (ok_store _ Hok) as Hc. cbn in Hc. unfold getSQLiteSpendableTransactionInputs in Hg.
  destruct (addTransactionBalanceAmount amount costOfChange) as [target| | |] eqn:Et; [|by simplify_eq..].
  apply checked_Ok in Et as [-> Hrange].
  destruct (GetAndReserveSpendableOutputs _ _ _ _ _ _ _ _ _ _) as [store1 rows] eqn:Eg. simplify_eq.
  assert (0 <= Z.quot amount 10) as Hq by (apply Z.quot_pos; lia).
  assert (min_i64 <= Z.min 1 (Z.quot amount 10) <= max_i64) as Hfloor by (unfold min_i64, max_i64; lia).
  destruct (selection_spec _ _ _ _ (fun row c => rowEffectiveAmount_int64 row c) _ _ _ _ _ _ Hc (proj2 Hrange)
    Hfloor Eg) as [[-> Hr]|(selected & cs & -> & -> & Hnd & Hab & _)].
  - destruct (rows ← rows; spendRows feePerByte (concat (groupRows rows))) as [sp| | |] eqn:E; try done.
    apply res_bind_Ok in E as (rs & -> & E). rewrite (Hr rs eq_refl) in E. cbn in E. apply (inj Ok) in E as <-. cbn.
    destruct Hok as [Ok1 Ok2 Ok3 Ok4]. by split.
  - assert (Forall (above store accounts 0) selected) as Hab0.
    { eapply Forall_impl; [exact Hab|]. intros row (low & high & ? & ?). exists low, high. split; [lia|done]. }
    assert (poolOk (MkPool (fold_left (setReserved true) (map TXOID selected) store) None (map TXOID selected :: holdings))) as Hok'.
    { apply poolOk_reserve; [done|done| |].
      - intros id (row & -> & Hrow)%list_elem_of_fmap Hheld. rewrite Forall_forall in Hab0.
        destruct (Hab0 _ Hrow) as (low & high & _ & o & Ho & Hres & _).
        destruct (ok_reserved _ Hok _ Hheld) as (o' & Ho' & Hres'). cbn in Ho'. congruence.
      - intros id (row & -> & Hrow)%list_elem_of_fmap. rewrite Forall_forall in Hab0.
        destruct (Hab0 _ Hrow) as (low & high & _ & o & Ho & _). by exists o. }
    assert (poolOk (MkPool (fold_left (setReserved true) (map TXOID selected) store) None holdings)) as Hlost.
    { apply (poolOk_store store); [|by apply reserve_consistent|apply setReserved_all|].
      - destruct Hok as [Ok1 Ok2 Ok3 Ok4]. by split.
      - intros id ?. apply reserve_reserved. by left. }
    destruct Hok' as [Ok1 Ok2 Ok3 Ok4]. cbn [mbind res_bind].
    destruct (spendRows feePerByte (concat (groupRows selected))) as [sp| | |] eqn:E.
    + apply (spendRows_spent store accounts) in E; [|done|by rewrite groupRows_perm].
      assert (map spentID (map s_Input sp) ≡ₚ map TXOID selected) as Ep by (rewrite E; by rewrite groupRows_perm).
      split; cbn in *; unfold held in *; cbn in *; [done|by rewrite Ep|intros id; rewrite Ep; apply Ok3|done].
    + exact Hlost.
    + exact Hlost.
    + exact Hlost.
Qed.

Lemma AddKeys_apart failure tables account keys addresses r :
  apart (account_address tables) ->
  (forall key row, key ∈ keys -> row ∈ account_address tables -> k_Address (r_Key row) = k_Address key ->
     r_Account row = account) ->
  AddKeys failure tables account keys = (addresses, r) ->
  apart (account_address addresses) /\
  forall row, row ∈ account_address tables -> row ∈ account_address addresses.
Proof.
  intros Ha Hk Hadd.
  set (rows := fold_left insertRow (map (MkAddressRow account) keys) (account_address tables)).
  assert (apart rows /\ forall row, row ∈ account_address tables -> row ∈ rows) as Hrows.
  { destruct Ha as [Hnd Hown]. destruct (insertRows_spec (map (MkAddressRow account) keys) _ Hnd) as (Hnd' & Hin & Hkeep & _).
    fold rows in Hnd', Hin, Hkeep. split; [split; [done|]|done].
    intros r1 r2 [H1'|H1']%Hin [H2'|H2']%Hin E; [by apply Hown|..];
      repeat match goal with H : _ ∈ map _ keys |- _ => apply list_elem_of_fmap in H as (? & -> & ?) end; cbn in *.
    - by apply (Hk x).
    - symmetry. by apply (Hk x).
    - done. }
  unfold AddKeys in Hadd. destruct failure; simplify_eq; exact Hrows || done.
Qed.

Lemma step_ok p p' : step p p' -> poolOk p -> poolOk p'.
Proof.
  destruct 1 as [store holdings accounts Hnd|store holdings account accounts es here Hhere|store holdings creation
    |store store' holdings es amount costOfChange selector es' selected ids Ha Hs Hsel Hids Hres
    |failure store store' holdings accounts amount costOfChange r Ha Hg
    |store store' locked before ids after Hrel
    |failure store store' locked holdings transactions address targetHash history r Hnet Hsave
    |failure store addresses locked holdings account keys r Hkeys Hadd|store locked holdings address history]; intros Hok.
  - destruct Hok as [Ok1 Ok2 Ok3 _]. split; try done. intros c [= <-]. split_and!; [done|constructor|].
    by intros id Hid%not_elem_of_nil.
  - by eapply poolOk_list.
  - destruct Hok as [Ok1 Ok2 Ok3 _]. by split.
  - unfold ReserveStoredOutputs, inTransaction in Hres. simplify_eq. by eapply poolOk_selected.
  - by eapply poolOk_database.
  - unfold ReserveStoredOutputs, inTransaction in Hrel. simplify_eq. destruct Hok as [Ok1 Ok2 Ok3 Ok4].
    unfold held in *. cbn in *. rewrite concat_app in Ok2, Ok3. cbn in Ok2, Ok3.
    assert (forall id, id ∈ concat (before ++ after) -> id ∈ concat before ++ ids ++ concat after /\ id ∉ ids) as Hin.
    { intros id. rewrite concat_app, !elem_of_app. apply NoDup_app in Ok2 as (_ & Hb & (_ & Hi & _)%NoDup_app).
      intros [Hid|Hid]; (split; [tauto|]); intros Hi'; [apply (Hb _ Hid), elem_of_app; by left|by apply (Hi _ Hi')]. }
    split; cbn.
    + by apply reserve_consistent.
    + unfold held. cbn. rewrite concat_app. apply NoDup_app in Ok2 as (? & Hb & (_ & _ & ?)%NoDup_app).
      apply NoDup_app. split_and!; [done| |done]. intros id Hid Hid'. apply (Hb _ Hid), elem_of_app. by right.
    + intros id Hid%Hin. apply release_reserved. split; [apply Ok3, Hid|apply Hid].
    + intros c Hc. eapply listedOk_extends; [apply setReserved_all| |by apply Ok4].
      intros id [Hid _]%Hin. by rewrite concat_app.
  - destruct (SaveTransactions_consistent _ _ _ _ _ _ _ _ _ _ _ Hnet (ok_store _ Hok) Hsave) as (? & ? & Hr).
    eapply poolOk_store; [done..|]. intros id. apply Hr.
  - destruct (AddKeys_apart _ _ _ _ _ _ (rows_apart _ (ok_store _ Hok)) Hkeys Hadd) as [Hap Hkeep].
    eapply poolOk_store; [exact Hok| |split; [intros id o Ho; by exists o|exact Hkeep]|done].
    destruct (ok_store _ Hok) as [Ho Ht _]. by split.
  - eapply poolOk_store; [exact Hok| |split; [intros id o Ho; by exists o|done]|done].
    destruct (ok_store _ Hok) as [Ho Ht Hap]. by split.
Qed.

Definition reachable (p : Pool) : Prop := rtc step (MkPool emptyStore None []) p.
Lemma reachable_poolOk p : reachable p -> poolOk p.
Proof.
  unfold reachable. assert (poolOk (MkPool emptyStore None [])) as H0'.
  { split; try done; [apply empty_consistent|constructor|by intros id Hid%not_elem_of_nil]. }
  induction 1 as [|p p1 p2 Hs _ IH]; [done|]. apply IH. by eapply step_ok.
Qed.

(** ** The code's function is a run of these moves *)

Lemma listing_run store holdings accounts es0 es :
  accountEstimators (LegacyTransactionFeePolicy feePerByte 0) store accounts = (store, Ok es) ->
  rtc step (MkPool store (Some (MkCreation accounts es0)) holdings) (MkPool store (Some (MkCreation [] (es0 ++ es))) holdings).
Proof.
  revert es0 es. induction accounts as [|account accounts IH]; intros es0 es He; cbn [accountEstimators] in He.
  { simplify_eq. by rewrite app_nil_r. }
  cbn in He. destruct (rowEstimators _ (ListStoredOutputs store [account])) as [here| | |] eqn:Eh; [|by simplify_eq..].
  destruct (accountEstimators _ store accounts) as [store1 rest] eqn:Er. injection He as -> He.
  apply res_bind_Ok in He as (rest' & -> & He). apply (inj Ok) in He as <-.
  eapply rtc_l; [by apply ListAccount|]. rewrite app_assoc. by apply IH.
Qed.
Lemma accountEstimators_store store accounts :
  exists r, accountEstimators (LegacyTransactionFeePolicy feePerByte 0) store accounts = (store, r).
Proof.
  induction accounts as [|account accounts [r IH]]; cbn; [by eexists|].
  destruct (rowEstimators _ _); [|by eexists..]. rewrite IH. by eexists.
Qed.
Lemma selected_inputs selected ids :
  outputIDs selected = Ok ids -> ids = map spentID (map s_Input (map e_Spendable selected)).
Proof. intros ->%outputIDs_spent. unfold estimatorIDs. by rewrite !map_map. Qed.
Lemma creation_run store holdings accounts amount store' r :
  NoDup accounts -> 0 < amount ->
  (forall costOfChange es,
     OutputFee (LegacyTransactionFeePolicy feePerByte 0) (NewPayPubKeyHashOutput TransactionCoin (repeat x00 32)) = Ok costOfChange ->
     accountEstimators (LegacyTransactionFeePolicy feePerByte 0) store accounts = (store, Ok es) -> supply costOfChange es) ->
  GetSpendableTransactionInputs feePerByte strategy random accounts store amount = (store', r) ->
  rtc step (MkPool store None holdings)
    (MkPool store' None match r with
                        | Ok spendables => map spentID (map s_Input spendables) :: holdings
                        | _ => holdings
                        end).
Proof.
  intros Hnd Ha Hsup Hg. unfold GetSpendableTransactionInputs in Hg.
  destruct (OutputFee _ _) as [costOfChange| | |]; [|by simplify_eq..].
  destruct (accountEstimators_store store accounts) as [res Eacc]. rewrite Eacc in Hg.
  destruct res as [es| | |]; cbn [mbind res_bind] in Hg; [|by simplify_eq..].
  destruct (Select _ es strategy) as [[[selector es'] selected]| | |] eqn:Es;
    cbn [mbind res_bind] in Hg; [|by simplify_eq..].
  destruct (outputIDs selected) as [ids| | |] eqn:Eids; cbn [mbind res_bind] in Hg; [|by simplify_eq..].
  assert (store' = fold_left (setReserved true) ids store /\ r = Ok (map e_Spendable selected)) as [-> ->].
  { destruct ids; [by simplify_eq|]. cbn in Hg. by simplify_eq. }
  rewrite <- (selected_inputs _ _ Eids). eapply rtc_l; [by apply Lock|].
  etrans; [by apply listing_run|]. cbn [app]. apply rtc_once. by eapply Reserve; [|by apply Hsup|..].
Qed.
End pool.


(** The reservations of this database are those [Funding.v] relies on. *)
#[export] Instance ledger_reserving `{OutputOrder} : ReservingDatabase (W := LedgerStore) reservedID.
Proof.
  split.
  - intros w account w' r id [= <- _]. done.
  - intros w ids w' r id Hr Hid. cbn in Hr. unfold ReserveStoredOutputs, inTransaction in Hr. simplify_eq.
    apply reserve_reserved in Hid as [?|[? _]]; [by left|by right].
  - intros w ids w' r id Hr Hid. cbn in Hr. unfold ReserveStoredOutputs, inTransaction in Hr. simplify_eq.
    by apply release_reserved in Hid as [??].
Qed.

(** ** A run *)

#[local] Instance spendableOrdered_dec window r s : Decision (spendableOrdered window r s).
Proof. destruct window; cbn; unfold smallestFirst, recentFirst; apply _. Defined.
#[local] Instance spendableOrdered_total window : Total (spendableOrdered window).
Proof.
  intros r s. destruct window; cbn; unfold smallestFirst, recentFirst; [lia|].
  destruct (unconfirmed r), (unconfirmed s); lia || tauto.
Qed.
#[local] Instance spendableOrdered_trans window : Transitive (spendableOrdered window).
Proof.
  intros r s t. destruct window; cbn; unfold smallestFirst, recentFirst; [lia|].
  destruct (unconfirmed r), (unconfirmed s), (unconfirmed t); (lia || tauto || intuition congruence).
Qed.
#[local] Instance exampleOutputOrder : OutputOrder.
Proof.
  refine {| orderSpendables := fun window => merge_sort (spendableOrdered window) |}.
  - intros window rows. apply merge_sort_Permutation.
  - intros window rows. apply StronglySorted_merge_sort; apply _.
Defined.
#[local] Existing Instance exampleDigests.

Definition exampleAddress : bytes := address MainNet exampleHash.
Definition exampleKeys : list AddressKey := [MkKey exampleAddress 0 [] [] 0 0].
Abbreviation exampleFee := (LegacyTransactionFeePolicy 50 0).
Abbreviation exampleSave := (SaveTransactions MainNet (fun _ _ => Ok 0) (fun _ => Ok tt) None).
Definition exampleOwned : LedgerStore :=
  MkStore (fst (AddKeys NoFault (MkTables [] ∅) (lit "account") exampleKeys)) ∅ ∅ ∅.
Definition exampleSpend (store : LedgerStore) : LedgerStore * res (list TransactionSpendable) :=
  GetSpendableTransactionInputs 50 "" (newCoinSelectionPythonRandomFromInt 1) [lit "account"] store 20000000.
(** Derive an address, save a transaction that pays it twice, select. *)
Abbreviation exampleRun := (
  script ← NewRedeemPubKeyHashInputScript (repeat x00 72) (repeat x00 33);
  let t := fst (AddOutputs (fst (AddInputs NewTransaction [MkInput 0 (repeat x01 32) [] 1 (2 ^ 32 - 1) [] script None]))
    [NewPayPubKeyHashOutput 500000 exampleHash; NewPayPubKeyHashOutput 30000000 exampleHash]) in
  parsed ← ParseTransaction (t_Raw t);
  let '(store, saved) := exampleSave exampleOwned [parsed] exampleAddress exampleHash [] in
  _ ← saved;
  costOfChange ← OutputFee exampleFee (NewPayPubKeyHashOutput TransactionCoin (repeat x00 32));
  let '(_, es) := accountEstimators exampleFee store [lit "account"] in
  es ← es;
  let '(store', spendables) := exampleSpend store in
  spendables ← spendables;
  if (0 <=? costOfChange) && (costOfChange + 2 * sumAbs es <=? max_i64) && negb (length spendables =? 0)%nat
  then Ok (store, store', spendables) else Panic).
Lemma exampleRun_is : exists store store' spendables,
  reachable 50 "" (newCoinSelectionPythonRandomFromInt 1) MainNet (fun _ _ => Ok 0) (fun _ => Ok tt) (MkPool store None []) /\
  exampleSpend store = (store', Ok spendables) /\ spendables <> [] /\
  forall costOfChange es,
    OutputFee exampleFee (NewPayPubKeyHashOutput TransactionCoin (repeat x00 32)) = Ok costOfChange ->
    accountEstimators exampleFee store [lit "account"] = (store, Ok es) -> supply costOfChange es.
Proof.
  assert (isOk exampleRun = true) as E by (vm_cast_no_check (eq_refl true)).
  apply isOk_Ok in E as [run E]. apply res_bind_Ok in E as (script & _ & E). cbv zeta in E.
  apply res_bind_Ok in E as (parsed & Hparse & E).
  destruct (exampleSave exampleOwned [parsed] exampleAddress exampleHash []) as [store saved] eqn:Esave.
  apply res_bind_Ok in E as (u & Esaved & E). subst saved. apply res_bind_Ok in E as (coc & Ecoc & E).
  destruct (accountEstimators exampleFee store [lit "account"]) as [w es] eqn:Ees.
  apply res_bind_Ok in E as (estimators & Eok & E). subst es.
  destruct (exampleSpend store) as [store' spendables] eqn:Espend.
  apply res_bind_Ok in E as (sp & Esp & E). subst spendables.
  destruct ((0 <=? coc) && _ && _) eqn:Echeck; [|discriminate E]. clear E.
  apply andb_true_iff in Echeck as [[E1%Z.leb_le E2%Z.leb_le]%andb_true_iff E3%negb_true_iff].
  exists store, store', sp. split; [|split; [exact Espend|split]].
  - apply (rtc_l _ _ (MkPool exampleOwned None [])).
    + eapply (Derive _ _ _ _ _ _ NoFault emptyStore); [|reflexivity]. intros key row _ Hr. by apply not_elem_of_nil in Hr.
    + apply rtc_once. eapply Save; [|exact Esave]. apply Forall_singleton. exists parsed.
      destruct (parsed_identity _ _ Hparse) as [-> _]. split_and!; [exact Hparse|reflexivity|reflexivity].
  - intros ->. discriminate E3.
  - intros coc' es' Ecoc' Ees'. rewrite Ecoc in Ecoc'. injection Ecoc' as <-. rewrite Ees in Ees'. injection Ees' as _ <-.
    split; [exact E1|exact E2].
Qed.

Lemma database_selection_witness : exists store store' r,
  consistent store /\
  GetAndReserveSpendableOutputs None None 50 20000000 None store [lit "account"] 1 true false = (store', r) /\ returns r.
Proof.
  destruct exampleRun_is as (store & _ & _ & Hreach & _). pose proof (ok_store _ (reachable_poolOk _ _ _ _ _ _ _ Hreach)) as Hc.
  cbn [p_Store] in Hc.
  destruct (GetAndReserveSpendableOutputs None None 50 20000000 None store [lit "account"] 1 true false) as [store' r] eqn:E.
  exists store, store', r. split; [exact Hc|]. split; [exact E|].
  refine (proj1 (database_selection None None 50 20000000 None store [lit "account"] 1 store' r Hc _ _ _ _ _ E)).
  - discriminate.
  - split; discriminate.
  - intros row. exact I.
  - intros row c Ew. injection Ew as <-. apply i64_range.
  - discriminate.
Defined.
