(* ===== verification/Sync.v ===== *)
(** * The environment of a synchronization

    Synchronizing an address is a long operation: it asks the server, reads and
    writes the ledger database, and between any two of these actions the other
    goroutines of the daemon run.  [sync] is the monad of such an operation.  Its
    clock counts the actions; [environment] says, for each of them, what the
    others did to the store before it, what the server answers, whether the
    statement fails, and which headers there are. *)

From S2P Require Import Prelude Digest Json HeaderStorage Headers Transaction LedgerStore.

(** ** Calls to the server *)

Inductive spvCall :=
| GetTransactionBatch (params : list bytes) (restricted : bool)
| GetMerkle (txid : bytes) (height : Z)
| GetHistory (address : bytes).
(** A decoded result: [any] with [json.Number], or an object that keeps the order
    of its members, whose keys are distinct. *)
Inductive spvValue := Plain (v : json) | OrderedObject (members : list (bytes * json)).

Section environment.
Context {S : Type}.

Record environment := MkEnvironment {
  env_Others : nat -> LedgerStore -> LedgerStore;
  env_Headers : nat -> Headers S;
  env_Call : nat -> spvCall -> res spvValue;
  env_Fault : nat -> option string;
  env_Handler : nat -> bytes -> Transaction -> res unit
}.
Record world := MkWorld { w_Clock : nat; w_Store : LedgerStore; w_OutOfSync : gset bytes }.
Definition sync (A : Type) : Type := world -> world * res A.

#[export] Instance sync_ret : MRet sync := fun A a w => (w, Ok a).
#[export] Instance sync_bind : MBind sync := fun A B k m w =>
  match m w with
  | (w, Ok a) => k a w
  | (w, Err e) => (w, Err e)
  | (w, Panic) => (w, Panic)
  | (w, NoFuel) => (w, NoFuel)
  end.
Definition lift {A} (r : res A) : sync A := fun w => (w, r).

Context (env : environment).

(** The next action, after what the others have done. *)
Definition tick (w : world) : world :=
  MkWorld (Datatypes.S (w_Clock w)) (env_Others env (w_Clock w) (w_Store w)) (w_OutOfSync w).
Definition call (c : spvCall) : sync spvValue := fun w => (tick w, env_Call env (w_Clock w) c).
Definition headers : sync (Headers S) := fun w => (tick w, Ok (env_Headers env (w_Clock w))).
(** A query and a transaction of the database. *)
Definition query {A} (q : LedgerStore -> res A) : sync A := fun w =>
  let w' := tick w in
  (w', match env_Fault env (w_Clock w) with Some e => Err e | None => q (w_Store w') end).
Definition transact {A} (t : option string -> LedgerStore -> LedgerStore * res A) : sync A := fun w =>
  let w' := tick w in
  let '(store, r) := t (env_Fault env (w_Clock w)) (w_Store w') in
  (MkWorld (w_Clock w') store (w_OutOfSync w'), r).
Definition handle (address : bytes) (t : Transaction) : sync unit := fun w =>
  (tick w, env_Handler env (w_Clock w) address t).
Definition setOutOfSync (address : bytes) (outOfSync : bool) : sync unit := fun w =>
  (MkWorld (w_Clock w) (w_Store w) (if outOfSync then {[address]} ∪ w_OutOfSync w else w_OutOfSync w ∖ {[address]}), Ok tt).

(** ** Hoare triples

    [triple P m Q E]: begun in [P], [m] ends in [Q] of its result, or, when it has
    none, with a store in [E].  What others do must keep an assertion that has to
    hold between two actions. *)

Definition assertion : Type := LedgerStore -> gset bytes -> Prop.
Definition holds (P : assertion) (w : world) : Prop := P (w_Store w) (w_OutOfSync w).
Definition triple {A} (P : assertion) (m : sync A) (Q : A -> assertion) (E : LedgerStore -> Prop) : Prop :=
  forall w w' r, holds P w -> m w = (w', r) -> match r with Ok a => holds (Q a) w' | _ => E (w_Store w') end.
Definition stable (P : assertion) : Prop := forall n s o, P s o -> P (env_Others env n s) o.

Lemma triple_weaken {A} (P P' : assertion) (m : sync A) (Q Q' : A -> assertion) (E E' : LedgerStore -> Prop) :
  triple P m Q E -> (forall s o, P' s o -> P s o) -> (forall a s o, Q a s o -> Q' a s o) -> (forall s, E s -> E' s) ->
  triple P' m Q' E'.
Proof. intros Ht HP HQ HE w w' r Hw Hm. specialize (Ht w w' r (HP _ _ Hw) Hm). destruct r; unfold holds in *; auto. Qed.
Lemma triple_ret {A} (a : A) (Q : A -> assertion) (E : LedgerStore -> Prop) : triple (Q a) (mret a) Q E.
Proof. intros w w' r HQ. unfold mret, sync_ret. by intros [= <- <-]. Qed.
Lemma triple_bind {A B} P (m : sync A) (k : A -> sync B) R Q E :
  triple P m R E -> (forall a, triple (R a) (k a) Q E) -> triple P (m ≫= k) Q E.
Proof.
  intros Hm Hk w w' r HP. unfold mbind, sync_bind. specialize (Hm w). destruct (m w) as [w1 [a|e| |]]; specialize (Hm _ _ HP eq_refl); cbn in Hm;
    [by apply (Hk a)|by intros [= <- <-]..].
Qed.
(** A pure fact of the assertion. *)
Lemma triple_pure {A} (F : Prop) P (m : sync A) Q E : (F -> triple P m Q E) -> triple (fun s o => F /\ P s o) m Q E.
Proof. intros Hm w w' r [HF HP]. by apply Hm. Qed.
Lemma triple_lift {A} (r : res A) (P : assertion) (Q : A -> assertion) (E : LedgerStore -> Prop) :
  (forall a s o, r = Ok a -> P s o -> Q a s o) -> (forall s o, P s o -> E s) -> triple P (lift r) Q E.
Proof. intros HQ HE w w' r' HP [= <- <-]. unfold holds in *. destruct r; eauto. Qed.
Lemma triple_call c (P : assertion) (E : LedgerStore -> Prop) :
  stable P -> (forall s o, P s o -> E s) -> triple P (call c) (fun a s o => (exists n, env_Call env n c = Ok a) /\ P s o) E.
Proof.
  intros Hs HE w w' r HP. unfold call. intros [= <- <-]. apply (Hs (w_Clock w)) in HP.
  destruct (env_Call env _ _) eqn:Ec; [split; [eauto|exact HP]|by eapply HE..].
Qed.
Lemma triple_headers (P : assertion) (E : LedgerStore -> Prop) : stable P -> triple P headers (fun _ => P) E.
Proof. intros Hs w w' r HP [= <- <-]. by apply Hs. Qed.
Lemma triple_handle address t (P : assertion) (E : LedgerStore -> Prop) :
  stable P -> (forall s o, P s o -> E s) -> triple P (handle address t) (fun _ => P) E.
Proof.
  intros Hs HE w w' r HP. unfold handle. intros [= <- <-]. apply (Hs (w_Clock w)) in HP.
  destruct (env_Handler env _ _ _); [exact HP|by eapply HE..].
Qed.
Lemma triple_query {A} (q : LedgerStore -> res A) (P : assertion) (Q : A -> assertion) (E : LedgerStore -> Prop) :
  stable P -> (forall a s o, q s = Ok a -> P s o -> Q a s o) -> (forall s o, P s o -> E s) -> triple P (query q) Q E.
Proof.
  intros Hs HQ HE w w' r HP. unfold query. intros [= <- <-]. apply (Hs (w_Clock w)) in HP.
  destruct (env_Fault env _); [by eapply HE|].
  destruct (q _) eqn:Eq; [by apply HQ|by eapply HE..].
Qed.
Lemma triple_transact {A} (t : option string -> LedgerStore -> LedgerStore * res A) (P : assertion)
    (Q : A -> assertion) (E : LedgerStore -> Prop) :
  stable P ->
  (forall failure s o s' r, P s o -> t failure s = (s', r) -> match r with Ok a => Q a s' o | _ => E s' end) -> triple P (transact t) Q E.
Proof.
  intros Hs Ht w w' r HP. unfold transact. cbn. apply (Hs (w_Clock w)) in HP.
  destruct (t _ _) as [store r'] eqn:Et. intros [= <- <-]. by eapply Ht.
Qed.
Lemma triple_inSync address (P : LedgerStore -> Prop) (E : LedgerStore -> Prop) :
  triple (fun s _ => P s) (setOutOfSync address false) (fun _ s o => P s /\ address ∉ o) E.
Proof. intros w w' r HP. unfold setOutOfSync. intros [= <- <-]. split; [exact HP|cbn; set_solver]. Qed.
Lemma stable_and (P Q : assertion) : stable P -> stable Q -> stable (fun s o => P s o /\ Q s o).
Proof. intros HP HQ n s o [? ?]. split; auto. Qed.

(** ** Operations that leave the store to the others

    [quiet m F]: [m] keeps every assertion the others keep, and its result is in [F]. *)

Definition quiet {A} (m : sync A) (F : A -> Prop) : Prop := forall P E,
  stable P -> (forall s o, P s o -> E s) -> triple P m (fun a s o => F a /\ P s o) E.
Lemma quiet_ret {A} (a : A) (F : A -> Prop) : F a -> quiet (mret a) F.
Proof. intros Ha P E _ _ w w' r HP. unfold mret, sync_ret. by intros [= <- <-]. Qed.
Lemma quiet_bind {A B} (m : sync A) (k : A -> sync B) F G : quiet m F -> (forall a, F a -> quiet (k a) G) -> quiet (m ≫= k) G.
Proof. intros Hm Hk P E Hs HE. eapply triple_bind; [by apply Hm|]. intros a. apply triple_pure. intros Ha. by apply (Hk a Ha). Qed.
Lemma quiet_lift {A} (r : res A) (F : A -> Prop) : (forall a, r = Ok a -> F a) -> quiet (lift r) F.
Proof. intros Hr P E _ HE. apply triple_lift; auto. Qed.
Lemma quiet_call c : quiet (call c) (fun a => exists n, env_Call env n c = Ok a).
Proof. intros P E Hs HE. by apply triple_call. Qed.
Lemma quiet_headers : quiet headers (fun _ => True).
Proof. intros P E Hs _. eapply triple_weaken; [by apply (triple_headers P E)|done| |done]. done. Qed.
Lemma quiet_query {A} (q : LedgerStore -> res A) : quiet (query q) (fun a => exists s, q s = Ok a).
Proof. intros P E Hs HE. apply triple_query; [done| |done]. eauto. Qed.
Lemma quiet_handle address t : quiet (handle address t) (fun _ => True).
Proof. intros P E Hs HE. eapply triple_weaken; [by apply (triple_handle address t P E)|done| |done]. done. Qed.
Lemma quiet_weaken {A} (m : sync A) (F G : A -> Prop) : quiet m F -> (forall a, F a -> G a) -> quiet m G.
Proof. intros Hm HFG P E Hs HE. eapply triple_weaken; [by apply (Hm P E)|done| |done]. cbn. intros a s o [? ?]. auto. Qed.
End environment.
Arguments environment S : clear implicits.
