(* ===== verification/TransactionFetch.v ===== *)
(** * Fetching transactions

    Model of [wallet/transaction_fetch.go] and [transaction_fetch_execution.go]:
    the plan of batches, the decoding of a response, and the verification of each
    transaction against the headers, with the fallback request for its proof. *)

From S2P Require Import Prelude Digest Hex Decimal Bencode Json HeaderStorage BlockHeader Headers Merkle Transaction LedgerStore Sync.

Definition TransactionFetchBatchSize : nat := 100.
Definition ErrTransactionFetchMalformed : string := "invalid transaction fetch result: malformed".
Definition ErrTransactionFetchExtra : string := "invalid transaction fetch result: extra".

Record TransactionFetchRequest := MkRequest { rq_TxID : bytes; rq_Height : Z }.
Record TransactionFetchBatch := MkBatch {
  fb_Requests : list TransactionFetchRequest;
  fb_Params : list bytes;
  fb_RemoteHeights : gmap bytes Z;
  fb_Restricted : bool
}.
Record TransactionFetchResult := MkFetched {
  fr_Request : TransactionFetchRequest;
  fr_RemoteHeight : Z;
  fr_Transaction : Transaction;
  fr_Merkle : list (bytes * json)
}.

(** ** The plan *)

(** [sort.SliceStable] by increasing height. *)
Fixpoint insertRequest (r : TransactionFetchRequest) (l : list TransactionFetchRequest) : list TransactionFetchRequest :=
  match l with
  | [] => [r]
  | x :: l => if rq_Height x <? rq_Height r then x :: insertRequest r l else r :: x :: l
  end.
Definition sortRequests (l : list TransactionFetchRequest) : list TransactionFetchRequest := foldr insertRequest [] l.
(** The last height of each ID. *)
Definition remoteHeightsOf (ordered : list TransactionFetchRequest) : gmap bytes Z :=
  fold_left (fun heights r => <[rq_TxID r := rq_Height r]> heights) ordered ∅.
Definition heightIn (remoteHeights : gmap bytes Z) (txid : bytes) : Z := default 0 (remoteHeights !! txid).
Definition planBatch (remoteHeights : gmap bytes Z) (highestCheckpointHeight : Z) (requests : list TransactionFetchRequest)
  : TransactionFetchBatch :=
  let heights := map (fun r => heightIn remoteHeights (rq_TxID r)) requests in
  let minimumHeight := foldr Z.min (hd 0 heights) heights in
  let maximumHeight := foldr Z.max (hd 0 heights) heights in
  let unrestricted := (0 <? minimumHeight) && (minimumHeight <? maximumHeight) && (maximumHeight <? highestCheckpointHeight) in
  MkBatch requests (map rq_TxID requests)
    (fold_left (fun m r => <[rq_TxID r := heightIn remoteHeights (rq_TxID r)]> m) requests ∅) (negb unrestricted).
(** [for start := 0; start < len(ordered); start += TransactionFetchBatchSize] *)
Fixpoint chunks {A} (fuel : nat) (size : nat) (l : list A) : list (list A) :=
  match fuel, l with
  | S fuel, _ :: _ => take size l :: chunks fuel size (drop size l)
  | _, _ => []
  end.
Definition PlanTransactionFetchBatches (requests : list TransactionFetchRequest) (highestCheckpointHeight : Z)
  : list TransactionFetchBatch :=
  let ordered := sortRequests requests in
  map (planBatch (remoteHeightsOf ordered) highestCheckpointHeight)
    (chunks (length ordered) TransactionFetchBatchSize ordered).

(** ** The response *)

(** A JSON object as a map: the last member of a name is kept. *)
Definition objectOf (members : list (bytes * json)) : list (bytes * json) :=
  fold_left (fun m e => mapInsert e.1 e.2 m) members [].
(** The members and whether they are in the order of the response. *)
Definition transactionFetchMapping (value : spvValue) : option (list (bytes * json) * bool) :=
  match value with
  | Plain (JObject members) => Some (objectOf members, false)
  | OrderedObject members => Some (members, true)
  | Plain _ => None
  end.
(** The requested IDs that were answered, in the order of the requests. *)
Fixpoint answeredKeys (seen : list bytes) (response : list (bytes * json)) (requests : list TransactionFetchRequest) : list bytes :=
  match requests with
  | [] => []
  | r :: requests =>
      if bool_decide (is_Some (mapLookup (rq_TxID r) response)) && negb (bool_decide (rq_TxID r ∈ seen))
      then rq_TxID r :: answeredKeys (rq_TxID r :: seen) response requests
      else answeredKeys seen response requests
  end.
Definition unorderedTransactionFetchKeys (batch : TransactionFetchBatch) (response : list (bytes * json)) : list bytes :=
  let keys := answeredKeys [] response (fb_Requests batch) in
  keys ++ sortStrings (List.filter (fun key => negb (bool_decide (key ∈ keys))) (map fst response)).
Definition transactionFetchMerkleObject (value : spvValue) : option (list (bytes * json)) :=
  match value with
  | Plain JNull => Some []
  | value => '(members, _) ← transactionFetchMapping value; Some members
  end.
(** A decoded member of a proof. *)
Fixpoint proofValueOf (v : json) : proofValue :=
  match v with
  | JNull => PNil
  | JBool _ => POther "bool"
  | JNumber literal => PNumber literal
  | JString s => PString s
  | JArray l => PArray (map proofValueOf l)
  | JObject _ => POther "map[string]interface {}"
  end.
Definition proofOf (members : list (bytes * json)) : list (bytes * proofValue) :=
  map (fun e => (e.1, proofValueOf e.2)) members.

Section fetch.
Context `{Digests} {T : Type} `{HeaderStorage T}.

Definition withHeight (t : Transaction) (height : Z) : Transaction := setVerification t height (t_Position t) (t_IsVerified t).
Definition parseEntry (batch : TransactionFetchBatch) (response : list (bytes * json)) (txid : bytes) : res TransactionFetchResult :=
  match mapLookup txid response with
  | Some (JArray [rawValue; merkleValue]) =>
      match rawValue with
      | JString rawHex =>
          raw ← map_err (fun _ => ErrTransactionFetchMalformed) (hexDecode rawHex);
          transaction ← map_err (fun _ => ErrTransactionFetchMalformed) (ParseTransaction raw);
          let remoteHeight := heightIn (fb_RemoteHeights batch) txid in
          match transactionFetchMerkleObject (Plain merkleValue) with
          | Some merkle => Ok (MkFetched (MkRequest txid remoteHeight) remoteHeight (withHeight transaction remoteHeight) merkle)
          | None => Err ErrTransactionFetchMalformed
          end
      | _ => Err ErrTransactionFetchMalformed
      end
  | _ => Err ErrTransactionFetchMalformed
  end.
Fixpoint parseEntries (batch : TransactionFetchBatch) (response : list (bytes * json)) (keys : list bytes)
  : res (list TransactionFetchResult) :=
  match keys with
  | [] => Ok []
  | txid :: keys =>
      result ← parseEntry batch response txid;
      results ← parseEntries batch response keys;
      Ok (result :: results)
  end.
Definition ParseTransactionFetchBatchResult (batch : TransactionFetchBatch) (value : spvValue) : res (list TransactionFetchResult) :=
  match transactionFetchMapping value with
  | None => Err ErrTransactionFetchMalformed
  | Some (response, ordered) =>
      let keys := if ordered : bool then map fst response else unorderedTransactionFetchKeys batch response in
      if existsb (fun key => negb (bool_decide (key ∈ map rq_TxID (fb_Requests batch)))) keys
      then Err ErrTransactionFetchExtra
      else parseEntries batch response keys
  end.

(** ** Verification *)

Definition stageTransactionMerkleVerification (t : Transaction) (remoteHeight headerCount : Z) (merkle : list (bytes * json))
  : res TransactionMerkleVerificationStatus :=
  (ApplyTransactionMerkleVerification t remoteHeight headerCount [] (proofOf merkle)).2.

Context (env : environment T).

(** The last part: a proof is there, and the header decides. *)
Definition applyProof (t : Transaction) (remoteHeight headerCount : Z) (merkle : list (bytes * json))
  : sync (Transaction * TransactionMerkleVerificationStatus) :=
  chain ← headers env;
  header ← lift (Get chain remoteHeight);
  let '(t, status) := ApplyTransactionMerkleVerification t remoteHeight headerCount (bh_MerkleRoot header) (proofOf merkle) in
  status ← lift status;
  mret (t, status).
(** [verifyFetchedTransaction]: the transaction afterwards. *)
Definition verifyFetchedTransaction (result : TransactionFetchResult) : sync (Transaction * TransactionMerkleVerificationStatus) :=
  let remoteHeight := fr_RemoteHeight result in
  let t := withHeight (fr_Transaction result) remoteHeight in
  chain ← headers env;
  let headerCount := Len chain in
  status ← lift (stageTransactionMerkleVerification t remoteHeight headerCount (fr_Merkle result));
  match status with
  | TransactionMerkleHeightGated | TransactionMerkleProofMissing => mret (t, status)
  | TransactionMerkleProofRequired =>
      value ← call env (GetMerkle (t_ID t) remoteHeight);
      match value with
      | Plain JNull => lift (Err ErrTransactionFetchMalformed)
      | value =>
          match transactionFetchMerkleObject value with
          | None => lift (Err ErrTransactionFetchMalformed)
          | Some [] => mret (t, TransactionMerkleProofMissing)
          | Some merkle =>
              status ← lift (stageTransactionMerkleVerification t remoteHeight headerCount merkle);
              match status with
              | TransactionMerkleProofMissing => mret (t, status)
              | _ => applyProof t remoteHeight headerCount merkle
              end
          end
      end
  | _ => applyProof t remoteHeight headerCount (fr_Merkle result)
  end.
Fixpoint verifyAll (results : list TransactionFetchResult) : sync (list (bytes * Transaction)) :=
  match results with
  | [] => mret []
  | result :: results =>
      '(t, _) ← verifyFetchedTransaction result;
      verified ← verifyAll results;
      mret ((rq_TxID (fr_Request result), t) :: verified)
  end.
(** [requestTransactionBatch]: the verified transactions, each with the ID that was
    asked for. *)
Definition requestTransactionBatch (batch : TransactionFetchBatch) : sync (list (bytes * Transaction)) :=
  value ← call env (GetTransactionBatch (fb_Params batch) (fb_Restricted batch));
  results ← lift (ParseTransactionFetchBatchResult batch value);
  verifyAll results.
Definition transactionFetchHighestCheckpointHeight (chain : Headers T) : Z := Z.max 0 (lastHeight (h_checkpoints chain)).
End fetch.
