(* ===== verification/FetchPlan.v ===== *)
(** * The plan of a fetch

    Lemmas about the batches of [TransactionFetch.v]: the requests, sorted by
    height, are cut into batches of at most a hundred. *)

From stdpp Require Import sorting.
From S2P Require Import Prelude Transaction LedgerStore Sync TransactionFetch.

Lemma fold_insert_Some {A K V} `{Countable K} (key : A -> K) (value : A -> V) l (m : gmap K V) k v :
  fold_left (fun m x => <[key x := value x]> m) l m !! k = Some v ->
  m !! k = Some v \/ exists x, x ∈ l /\ key x = k /\ value x = v.
Proof.
  revert m. induction l as [|x l IH]; intros m Hv; cbn in Hv; [by left|].
  apply IH in Hv as [Hv|(y & ? & ?)]; [|right; exists y; split; [by right|done]].
  apply lookup_insert_Some in Hv as [[? ?]|[_ ?]]; [right; exists x; split; [by left|done]|by left].
Qed.
Lemma fold_insert_is_Some {A K V} `{Countable K} (key : A -> K) (value : A -> V) l (m : gmap K V) k :
  k ∈ map key l \/ is_Some (m !! k) -> is_Some (fold_left (fun m x => <[key x := value x]> m) l m !! k).
Proof.
  revert m. induction l as [|x l IH]; intros m Hk; cbn.
  { destruct Hk as [Hk|]; [by apply not_elem_of_nil in Hk|done]. }
  apply IH. rewrite lookup_insert. case_decide; [right; by eexists|]. destruct Hk as [[->|]%elem_of_cons|]; auto. done.
Qed.
Lemma elem_of_imap_pair {A} i (x : A) l : (i, x) ∈ imap pair l -> l !! i = Some x.
Proof.
  intros [k Hk]%list_elem_of_lookup. rewrite list_lookup_imap in Hk. by destruct (l !! k) eqn:E; simplify_eq/=.
Qed.

Lemma insertRequest_perm r l : insertRequest r l ≡ₚ r :: l.
Proof.
  induction l as [|x l IH]; cbn; [done|]. destruct (_ <? _); [|done]. rewrite IH. apply Permutation_swap.
Qed.
Lemma sortRequests_perm l : sortRequests l ≡ₚ l.
Proof. induction l as [|r l IH]; cbn; [done|]. by rewrite insertRequest_perm, IH. Qed.
Lemma chunks_parts {A} fuel size (l : list A) part :
  part ∈ chunks fuel (S size) l -> (length part <= S size)%nat /\ forall x, x ∈ part -> x ∈ l.
Proof.
  revert l. induction fuel as [|fuel IH]; intros l Hp; [by apply not_elem_of_nil in Hp|]. cbn [chunks] in Hp.
  destruct l as [|x l]; [by apply not_elem_of_nil in Hp|]. apply elem_of_cons in Hp as [-> |Hp].
  - split; [rewrite length_take; lia|]. intros y Hy. by eapply elem_of_take in Hy as (? & ? & _); eapply list_elem_of_lookup_2.
  - apply IH in Hp as [? Hin]. split; [done|]. intros y Hy%Hin. rewrite <- (take_drop (S size) (x :: l)). apply elem_of_app. by right.
Qed.
Lemma chunks_concat {A} fuel size (l : list A) : (length l <= fuel)%nat -> concat (chunks fuel (S size) l) = l.
Proof.
  revert l. induction fuel as [|fuel IH]; intros l Hl; cbn [chunks]; [by destruct l; cbn in Hl; [|lia]|].
  destruct l as [|x l]; [done|]. cbn [concat]. rewrite IH by (rewrite length_drop; cbn in *; lia). apply take_drop.
Qed.

(** A stable sort. *)
Lemma insertRequest_sorted r l :
  StronglySorted (fun r r' => rq_Height r <= rq_Height r') l -> StronglySorted (fun r r' => rq_Height r <= rq_Height r') (insertRequest r l).
Proof.
  induction 1 as [|x l Hl IH Hx]; cbn; [repeat constructor|]. destruct (Z.ltb_spec (rq_Height x) (rq_Height r)).
  - constructor; [done|]. rewrite (insertRequest_perm r l). constructor; [lia|done].
  - constructor; [by constructor|]. constructor; [done|]. eapply Forall_impl; [exact Hx|]. cbn. lia.
Qed.
Lemma sortRequests_sorted l : StronglySorted (fun r r' => rq_Height r <= rq_Height r') (sortRequests l).
Proof. induction l as [|r l IH]; cbn; [constructor|]. by apply insertRequest_sorted. Qed.
Definition atHeight (height : Z) (l : list TransactionFetchRequest) : list TransactionFetchRequest :=
  List.filter (fun r => rq_Height r =? height) l.
Lemma sortRequests_stable height l : atHeight height (sortRequests l) = atHeight height l.
Proof.
  unfold atHeight. induction l as [|r l IH]; [done|]. cbn [sortRequests foldr List.filter]. rewrite <- IH. fold (sortRequests l). clear IH.
  induction (sortRequests l) as [|x s IHs]; [done|]. cbn [insertRequest].
  destruct (Z.ltb_spec (rq_Height x) (rq_Height r)); [|done]. cbn [List.filter]. rewrite IHs.
  destruct (Z.eqb_spec (rq_Height r) height), (Z.eqb_spec (rq_Height x) height); try done. lia.
Qed.
Lemma remoteHeights_exact l r : NoDup (map rq_TxID l) -> r ∈ l -> heightIn (remoteHeightsOf l) (rq_TxID r) = rq_Height r.
Proof.
  intros Hnd Hr. unfold heightIn, remoteHeightsOf.
  destruct (fold_insert_is_Some rq_TxID rq_Height l ∅ (rq_TxID r)) as [h Eh]; [left; by apply list_elem_of_fmap_2|].
  rewrite Eh. apply fold_insert_Some in Eh as [Eh|(r' & Hr' & Eid & <-)]; [by rewrite lookup_empty in Eh|]. cbn.
  apply list_elem_of_lookup in Hr as [i Hi], Hr' as [j Hj].
  assert (i = j) as -> by (eapply (NoDup_lookup (map rq_TxID l)); [done|rewrite list_lookup_fmap, Hi|rewrite list_lookup_fmap, Hj; cbn; by rewrite Eid]; done).
  congruence.
Qed.
Lemma extremes (x : Z) l :
  (forall y, y ∈ x :: l -> foldr Z.min x l <= y <= foldr Z.max x l) /\ foldr Z.min x l ∈ x :: l /\ foldr Z.max x l ∈ x :: l.
Proof.
  induction l as [|y l (IH & Hmin & Hmax)]; cbn.
  - split; [intros y Hy%list_elem_of_singleton; lia|]. by split; left.
  - rewrite !elem_of_cons in *. split; [|split].
    + intros z Hz. assert (z = y \/ foldr Z.min x l <= z <= foldr Z.max x l) as Hz'; [|lia].
      apply elem_of_cons in Hz as [->|Hz]; [right; apply IH; by left|].
      apply elem_of_cons in Hz as [->|Hz]; [by left|right]. apply IH. by right.
    + destruct (Z.min_spec y (foldr Z.min x l)) as [[_ ->]|[_ ->]]; tauto.
    + destruct (Z.max_spec y (foldr Z.max x l)) as [[_ ->]|[_ ->]]; tauto.
Qed.

(** The plan of a fetch.  The batches are never empty and of at most a hundred
    requests, ask for the requests' IDs in order, and put together are the requests
    sorted by height, those of one height in their own order.  A batch is requested
    without the restriction to the wallet exactly when its transactions are all
    confirmed below the last checkpoint and not all in the same block. *)
Theorem fetch_plan requests highest :
  let batches := PlanTransactionFetchBatches requests highest in
  let planned := concat (map fb_Requests batches) in
  planned ≡ₚ requests /\ StronglySorted (fun r r' => rq_Height r <= rq_Height r') planned /\
  (forall height, atHeight height planned = atHeight height requests) /\
  Forall (fun b => (0 < length (fb_Requests b) <= TransactionFetchBatchSize)%nat /\ fb_Params b = map rq_TxID (fb_Requests b) /\
    (NoDup (map rq_TxID requests) ->
      fb_Restricted b = false <->
      (forall r, r ∈ fb_Requests b -> 0 < rq_Height r < highest) /\
      exists r r', r ∈ fb_Requests b /\ r' ∈ fb_Requests b /\ rq_Height r <> rq_Height r')) batches.
Proof.
  cbv zeta. unfold PlanTransactionFetchBatches. set (ordered := sortRequests requests).
  assert (concat (map fb_Requests (map (planBatch (remoteHeightsOf ordered) highest) (chunks (length ordered) TransactionFetchBatchSize ordered)))
    = ordered) as ->.
  { rewrite map_map. cbn [fb_Requests planBatch]. rewrite map_id. by apply (chunks_concat _ 99). }
  split; [apply sortRequests_perm|]. split; [apply sortRequests_sorted|]. split; [intros h; apply sortRequests_stable|].
  apply Forall_map, Forall_forall. intros part Hpart. cbn [fb_Requests fb_Params planBatch].
  assert (part <> []) as Hne.
  { clear -Hpart. revert Hpart. generalize (length ordered) as fuel. generalize ordered as l. intros l fuel. revert l.
    induction fuel as [|fuel IH]; intros l Hp; [by apply not_elem_of_nil in Hp|]. destruct l as [|x l]; [by apply not_elem_of_nil in Hp|].
    cbn [chunks] in Hp. apply elem_of_cons in Hp as [-> |Hp]; [done|by apply IH in Hp]. }
  destruct (chunks_parts _ 99 _ _ Hpart) as [Hlen Hin]. split; [destruct part; [done|cbn in *; unfold TransactionFetchBatchSize; lia]|].
  split; [done|]. intros Hnd. assert (NoDup (map rq_TxID ordered)) as Hnd' by (by unfold ordered; rewrite sortRequests_perm).
  unfold planBatch. cbn [fb_Restricted].
  assert (map (fun r => heightIn (remoteHeightsOf ordered) (rq_TxID r)) part = map rq_Height part) as ->.
  { apply map_ext_in. intros r Hr%list_elem_of_In. apply remoteHeights_exact; auto. }
  destruct part as [|r0 part]; [done|]. cbn [map hd]. destruct (extremes (rq_Height r0) (map rq_Height part)) as (Hext & Hmin & Hmax).
  change (foldr Z.min (rq_Height r0) (rq_Height r0 :: map rq_Height part)) with (Z.min (rq_Height r0) (foldr Z.min (rq_Height r0) (map rq_Height part))).
  change (foldr Z.max (rq_Height r0) (rq_Height r0 :: map rq_Height part)) with (Z.max (rq_Height r0) (foldr Z.max (rq_Height r0) (map rq_Height part))).
  pose proof (Hext (rq_Height r0) ltac:(by left)) as H0. rewrite Z.min_r, Z.max_r by lia.
  set (lo := foldr Z.min _ _) in *. set (hi := foldr Z.max _ _) in *.
  change (rq_Height r0 :: map rq_Height part) with (map rq_Height (r0 :: part)) in *.
  rewrite negb_false_iff, !andb_true_iff, !Z.ltb_lt. split.
  - intros [[? ?] ?]. split.
    + intros r Hr. pose proof (Hext (rq_Height r) ltac:(by apply list_elem_of_fmap_2)). lia.
    + apply list_elem_of_fmap in Hmin as (r & E & Hr), Hmax as (r' & E' & Hr'). exists r, r'. split_and!; [done|done|lia].
  - intros [Hall (r & r' & Hr & Hr' & Hne')].
    pose proof (Hext (rq_Height r) ltac:(by apply list_elem_of_fmap_2)). pose proof (Hext (rq_Height r') ltac:(by apply list_elem_of_fmap_2)).
    apply list_elem_of_fmap in Hmin as (rl & E & Hrl), Hmax as (rh & E' & Hrh). pose proof (Hall _ Hrl). pose proof (Hall _ Hrh). lia.
Qed.
