(* ===== verification/Resolution.v ===== *)
(** * Resolving the inputs of fetched transactions

    Model of [wallet/transaction_resolution.go]: an input is given the output it
    spends from the batch that is being saved, from the stored outputs, or from a
    stored transaction, in this order, when the transaction it spends from is in
    the history of the address. *)

From S2P Require Import Prelude Digest Hex Decimal Keys Script Transaction TransactionBuild Balancing Funding LedgerStore HeaderStorage Headers Sync.

Definition ErrTransactionOutputRange : string := "transaction output position is out of range".
Definition ErrInvalidStoredTransaction : string := "invalid stored wallet transaction".

Definition PreviousOutputID (input : TransactionInput) : bytes :=
  i_PreviousTxID input ++ lit ":" ++ FormatInt (i_PreviousIndex input).
(** The output an input spends: its transaction and position. *)
Definition outpoint (input : TransactionInput) : bytes * Z := (i_PreviousTxID input, i_PreviousIndex input).
Definition outputAt (t : Transaction) (index : Z) : res TransactionOutput :=
  match t_Outputs t !! Z.to_nat index with
  | Some output => if index <? 0 then Err ErrTransactionOutputRange else Ok output
  | None => Err ErrTransactionOutputRange
  end.

Definition setResolved (input : TransactionInput) (output : TransactionOutput) : TransactionInput :=
  MkInput (i_Position input) (i_PreviousHash input) (i_PreviousTxID input) (i_PreviousIndex input) (i_Sequence input)
    (i_Coinbase input) (i_Script input) (Some output).
Definition setInputs (t : Transaction) (inputs : list TransactionInput) : Transaction :=
  MkTransaction (t_Raw t) (t_RawSansSegWit t) (t_Hash t) (t_ID t) (t_Version t) (t_LockTime t) (t_SegWitFlag t)
    (t_Witnesses t) inputs (t_Outputs t) (t_Trailing t) (t_Height t) (t_Position t) (t_IsVerified t).

Section resolution.
Context `{Digests}.

Definition transactionHashFromID (txid : bytes) : res bytes :=
  match hexDecode txid with
  | Ok display => if (length display =? 32)%nat then Ok (reverseTransactionBytes display) else Err "invalid stored transaction ID"
  | _ => Err "invalid stored transaction ID"
  end.
Definition transactionOutputFromStored (txid : bytes) (position amount : Z) (script : bytes) : res TransactionOutput :=
  if (position <? 0) || (2 ^ 32 - 1 <? position) then Err ErrTransactionOutputRange
  else if amount <? 0 then Err "stored output amount is negative"
  else
    transactionHash ← transactionHashFromID txid;
    parsed ← ParseTransactionOutputScript script;
    Ok (MkOutput txid transactionHash position amount parsed).

(** The outputs found so far. *)
Abbreviation outputs := (gmap (bytes * Z) TransactionOutput).

(** The first pass over an input: nothing to do, resolved from the batch, or wanted. *)
Inductive wanted := Settled | FromBatch (output : TransactionOutput) | Wanted.
Definition pendingOf (transactions : list Transaction) : gmap bytes Transaction :=
  fold_left (fun pending t => <[t_ID t := t]> pending) transactions ∅.
Definition classify (pending : gmap bytes Transaction) (remoteHistory : gset bytes) (input : TransactionInput) : res wanted :=
  match i_ResolvedOutput input with
  | Some _ => Ok Settled
  | None =>
      if negb (bool_decide (i_PreviousTxID input ∈ remoteHistory)) then Ok Settled
      else match pending !! i_PreviousTxID input with
           | Some previous => output ← outputAt previous (i_PreviousIndex input); Ok (FromBatch output)
           | None => Ok Wanted
           end
  end.
(** What the batch gives, and the inputs still unresolved, in order. *)
Fixpoint firstPass (pending : gmap bytes Transaction) (remoteHistory : gset bytes) (found : outputs) (inputs : list TransactionInput)
  : res (outputs * list TransactionInput) :=
  match inputs with
  | [] => Ok (found, [])
  | input :: inputs =>
      w ← classify pending remoteHistory input;
      match w with
      | Settled => firstPass pending remoteHistory found inputs
      | FromBatch output => firstPass pending remoteHistory (<[outpoint input := output]> found) inputs
      | Wanted =>
          '(found, unresolved) ← firstPass pending remoteHistory found inputs;
          Ok (found, input :: unresolved)
      end
  end.
(** The unresolved inputs whose outputs are stored; the others, in order. *)
Fixpoint secondPass (storedOutputs : gmap bytes StoredTransactionOutput) (found : outputs) (unresolved : list TransactionInput)
  : res (outputs * list TransactionInput) :=
  match unresolved with
  | [] => Ok (found, [])
  | input :: unresolved =>
      match storedOutputs !! PreviousOutputID input with
      | Some stored =>
          output ← map_err (fun e => ErrInvalidStoredTransaction ++ ": " ++ e)%string
                     (transactionOutputFromStored (so_TXID stored) (so_Position stored) (so_Amount stored) (so_Script stored));
          secondPass storedOutputs (<[outpoint input := output]> found) unresolved
      | None =>
          '(found, missing) ← secondPass storedOutputs found unresolved;
          Ok (found, input :: missing)
      end
  end.
(** The transactions of the missing outputs, each at its first input. *)
Fixpoint missingOrder (seen : gset bytes) (missing : list TransactionInput) : list bytes :=
  match missing with
  | [] => []
  | input :: missing =>
      let txid := i_PreviousTxID input in
      if bool_decide (txid ∈ seen) then missingOrder seen missing
      else txid :: missingOrder ({[txid]} ∪ seen) missing
  end.
Fixpoint takeOutputs (previous : Transaction) (found : outputs) (wantedInputs : list TransactionInput) : res outputs :=
  match wantedInputs with
  | [] => Ok found
  | input :: wantedInputs =>
      output ← outputAt previous (i_PreviousIndex input);
      takeOutputs previous (<[outpoint input := output]> found) wantedInputs
  end.

Context {T : Type} (env : environment T).

Fixpoint thirdPass (missing : list TransactionInput) (order : list bytes) (found : outputs) : sync outputs :=
  match order with
  | [] => mret found
  | txid :: order =>
      stored ← query env (fun store => Ok (GetTransaction store txid));
      match stored with
      | None => thirdPass missing order found
      | Some row =>
          previous ← lift (map_err (fun e => ErrInvalidStoredTransaction ++ ": " ++ e)%string (ParseTransaction (row_Raw row)));
          found ← lift (takeOutputs previous found (List.filter (fun i => bool_decide (i_PreviousTxID i = txid)) missing));
          thirdPass missing order found
      end
  end.
(** An input is given what was found for it. *)
Definition resolveInput (remoteHistory : gset bytes) (found : outputs) (input : TransactionInput) : TransactionInput :=
  match i_ResolvedOutput input with
  | Some _ => input
  | None =>
      if negb (bool_decide (i_PreviousTxID input ∈ remoteHistory)) then input
      else match found !! outpoint input with Some output => setResolved input output | None => input end
  end.
Definition resolveAll (remoteHistory : gset bytes) (found : outputs) (transactions : list Transaction) : list Transaction :=
  map (fun t => setInputs t (map (resolveInput remoteHistory found) (t_Inputs t))) transactions.
(** The transactions, resolved. *)
Definition ResolveTransactionInputs (transactions : list Transaction) (remoteHistory : gset bytes) : sync (list Transaction) :=
  let pending := pendingOf transactions in
  '(found, unresolved) ← lift (firstPass pending remoteHistory ∅ (flat_map t_Inputs transactions));
  match unresolved with
  | [] => mret (resolveAll remoteHistory found transactions)
  | _ =>
      storedOutputs ← query env (fun store => Ok (GetOutputsByID store (map PreviousOutputID unresolved)));
      '(found, missing) ← lift (secondPass storedOutputs found unresolved);
      found ← thirdPass missing (missingOrder ∅ missing) found;
      mret (resolveAll remoteHistory found transactions)
  end.
End resolution.
