(* ===== verification/AddressSync.v ===== *)
(** * Synchronizing an address

    Model of [wallet/address_sync.go]: the local history of an address and its
    status, the update that brings it to the history of a server, and the queue
    and tickets that order the updates. *)

From S2P Require Import Prelude Digest Hex Utf8 Decimal Bencode Json Base58 Keys Script Transaction TransactionBuild Balancing Funding.
From S2P Require Import HeaderStorage Headers Accounts LedgerStore Sync TransactionFetch Resolution PythonInt.

Definition SPVAddressSubscriptionBatchSize : nat := 1000.
Definition ErrInvalidAddressStatus : string := "invalid SPV address status".
Definition ErrTransactionIDMismatch : string := "fetched transaction ID does not match the requested ID".

Record AddressHistoryEntry := MkEntry { he_TxHash : bytes; he_Height : Z }.
#[export] Instance AddressHistoryEntry_eq : EqDecision AddressHistoryEntry.
Proof. solve_decision. Defined.

(** ** The stored history *)

(** [strings.Split(s, sep)] for a separator of one byte. *)
Fixpoint splitOn (separator : byte) (s : bytes) : list bytes :=
  match s with
  | [] => [[]]
  | c :: s =>
      if Byte.eqb c separator then [] :: splitOn separator s
      else match splitOn separator s with
           | part :: parts => (c :: part) :: parts
           | [] => [[c]]
           end
  end.
Definition pythonAddressHistoryInteger (value : bytes) : res Z :=
  match accountPythonIntString value with
  | Ok n => if (min_i64 <=? n) && (n <=? max_i64) then Ok n else Err ErrPythonInt
  | _ => Err ErrPythonInt
  end.

Definition serializeAddressHistoryEntry (entry : AddressHistoryEntry) : bytes :=
  he_TxHash entry ++ lit ":" ++ FormatInt (he_Height entry) ++ lit ":".
Definition serializeHistory (entries : list AddressHistoryEntry) : bytes := concat (map serializeAddressHistoryEntry entries).

(** The parts in pairs; an odd last one is left. *)
Fixpoint historyEntries (parts : list bytes) : res (list AddressHistoryEntry) :=
  match parts with
  | txHash :: heightText :: parts =>
      height ← pythonAddressHistoryInteger heightText;
      entries ← historyEntries parts;
      Ok (MkEntry txHash height :: entries)
  | _ => Ok []
  end.
Section status.
Context `{Digests}.
Definition addressStatus (history : bytes) : option bytes :=
  if bool_decide (history = []) then None else Some (hexEncode (sha256 history)).
Definition LocalAddressStatusAndHistory (history : bytes) : res (option bytes * list AddressHistoryEntry) :=
  entries ← historyEntries (removelast (splitOn x3a history));
  Ok (addressStatus history, entries).
End status.

(** ** What the server says *)

Definition parseSPVAddressStatus (params : json) : res (bytes * option bytes) :=
  match params with
  | JArray [JString address; JNull] => Ok (address, None)
  | JArray [JString address; JString status] => Ok (address, Some status)
  | _ => Err ErrInvalidAddressStatus
  end.
(** An integer of a decoded response: a number without a point or exponent, or a
    boolean. *)
Definition spvAddressInteger (value : option json) : res Z :=
  match value with
  | Some (JNumber literal) =>
      if existsb (fun c => bool_decide (c ∈ [x2e; x65; x45])) literal then Err ErrInvalidAddressStatus
      else map_err (fun _ => ErrInvalidAddressStatus) (ParseInt literal)
  | Some (JBool b) => Ok (if b then 1 else 0)
  | _ => Err ErrInvalidAddressStatus
  end.
Fixpoint historyItems (items : list json) : res (list AddressHistoryEntry) :=
  match items with
  | [] => Ok []
  | JObject record :: items =>
      match member "tx_hash" record with
      | Some (JString txHash) =>
          height ← spvAddressInteger (member "height" record);
          history ← historyItems items;
          Ok (MkEntry txHash height :: history)
      | _ => Err ErrInvalidAddressStatus
      end
  | _ => Err ErrInvalidAddressStatus
  end.
Definition parseSPVAddressHistory (value : spvValue) : res (list AddressHistoryEntry) :=
  match value with Plain (JArray items) => historyItems items | _ => Err ErrInvalidAddressStatus end.

(** ** Updating the history *)

(** The entries at the head of the remote history that are the local ones. *)
Fixpoint alreadySynced (remote local : list AddressHistoryEntry) : nat :=
  match remote, local with
  | r :: remote, l :: local => if decide (r = l) then S (alreadySynced remote local) else O
  | _, _ => O
  end.
(** [txIndexes]: the last index of each ID. *)
Definition indexesOf (remote : list AddressHistoryEntry) : gmap bytes nat :=
  fold_left (fun m e => <[he_TxHash e.2 := e.1]> m) (imap pair remote) ∅.

Section update.
Context `{Digests} `{Secp256k1} `{RowOrder} {T : Type} `{HeaderStorage T}.
(** The ledger: its network, the keys it derives for channel claims
    ([maybeHasChannelKey]), and what projecting a transaction needs; then the accounts,
    with the outcomes of [AddKeys] and of announcing addresses. *)
Variables (network : Keys.Network) (maybeHasChannelKey : Transaction -> res unit).
Variables (outputType : Transaction -> TransactionOutput -> res Z) (julianDay : Transaction -> res unit).
Variables (accounts : list WalletAccount) (keysFault : nat -> fault) (announce : nat -> list bytes -> res unit).
Context (env : environment T).

Definition onAddresses (failure : option string) (f : AddressTables -> AddressTables) (store : LedgerStore) : LedgerStore * res unit :=
  inTransaction failure store (MkStore (f (st_Addresses store)) (st_TX store) (st_TXO store) (st_TXI store), Ok tt).

(** The stored history of an address, or none. *)
Definition storedHistory (store : LedgerStore) (address : bytes) : bytes :=
  match GetAddress (st_Addresses store) address with
  | Some record => default [] (rec_History record)
  | None => []
  end.
Definition GetLocalAddressStatusAndHistory (address supplied : bytes) : sync (option bytes * list AddressHistoryEntry) :=
  history ← (if bool_decide (supplied = []) then query env (fun store => Ok (storedHistory store address)) else mret supplied);
  lift (LocalAddressStatusAndHistory history).

(** [getAddressManagerForAddress] *)
Definition managerOf (record : AddressRecord) : option (WalletAccount * AddressManager) :=
  account ← List.find (fun account => bool_decide (a_ID account = r_Account (rec_Row record))) accounts;
  manager ← List.find (fun manager => m_ChainNumber manager =? k_Chain (r_Key (rec_Row record))) (AddressManagers account);
  Some (account, manager).
Definition getAddressManagerForAddress (address : bytes) : sync (option (WalletAccount * AddressManager)) :=
  query env (fun store => Ok (record ← GetAddress (st_Addresses store) address; managerOf record)).
(** [EnsureAddressGap] of a manager, one action of the database. *)
Definition ensureGap (manager : WalletAccount * AddressManager) : sync unit := fun w =>
  let w' := tick env w in
  let '(tables, r) := EnsureAddressGap (keysFault (w_Clock w)) (announce (w_Clock w)) (st_Addresses (w_Store w')) manager.1 manager.2 in
  (MkWorld (w_Clock w') (MkStore tables (st_TX (w_Store w')) (st_TXO (w_Store w')) (st_TXI (w_Store w'))) (w_OutOfSync w'),
   _ ← r; Ok tt).

(** Each fetched transaction must be the one that was asked for. *)
Fixpoint checkFetched (fetched : list (bytes * Transaction)) : res (list Transaction) :=
  match fetched with
  | [] => Ok []
  | (requested, t) :: fetched =>
      _ ← maybeHasChannelKey t;
      if negb (bool_decide (t_ID t = requested)) then Err ErrTransactionIDMismatch
      else transactions ← checkFetched fetched; Ok (t :: transactions)
  end.
(** [publishTransactionBatch], from the last to the first. *)
Fixpoint publish (address : bytes) (transactions : list Transaction) : sync unit :=
  match transactions with
  | [] => mret tt
  | t :: transactions => _ ← handle env address t; publish address transactions
  end.
Definition publishTransactionBatch (address : bytes) (transactions : list Transaction) : sync unit :=
  publish address (rev transactions).
Definition recordPending (indexes : gmap bytes nat) (pending : gmap nat bytes) (transactions : list Transaction)
  : res (gmap nat bytes) :=
  fold_left (fun pending t =>
      pending ← pending;
      match indexes !! t_ID t with
      | Some index => Ok (<[index := serializeAddressHistoryEntry (MkEntry (t_ID t) (t_Height t))]> pending)
      | None => Err ErrTransactionIDMismatch
      end) transactions (Ok pending).
(** One planned batch: fetched, checked, resolved, saved, published. *)
Definition syncBatch (address targetHash : bytes) (remoteTXIDs : gset bytes) (indexes : gmap bytes nat)
    (pending : gmap nat bytes) (planned : TransactionFetchBatch) : sync (gmap nat bytes) :=
  fetched ← requestTransactionBatch env planned;
  transactions ← lift (checkFetched fetched);
  transactions ← ResolveTransactionInputs env transactions remoteTXIDs;
  _ ← transact env (fun failure store =>
        SaveTransactions network outputType julianDay failure store transactions address targetHash []);
  _ ← publishTransactionBatch address transactions;
  lift (recordPending indexes pending transactions).
Fixpoint syncBatches (address targetHash : bytes) (remoteTXIDs : gset bytes) (indexes : gmap bytes nat)
    (pending : gmap nat bytes) (batches : list TransactionFetchBatch) : sync (gmap nat bytes) :=
  match batches with
  | [] => mret pending
  | planned :: batches =>
      pending ← syncBatch address targetHash remoteTXIDs indexes pending planned;
      syncBatches address targetHash remoteTXIDs indexes pending batches
  end.
(** The entries in the order of the remote history. *)
Fixpoint assemble (pending : gmap nat bytes) (indices : list nat) : res bytes :=
  match indices with
  | [] => Ok []
  | index :: indices =>
      match pending !! index with
      | Some entry => rest ← assemble pending indices; Ok (entry ++ rest)
      | None => Err ErrInvalidAddressStatus
      end
  end.

(** What is needed of the remote history is fetched and saved; the history to store. *)
Definition fetchHistory (address : bytes) (local remote : list AddressHistoryEntry) : sync bytes :=
  targetHash ← lift (addressHash160 network address);
  let synced := alreadySynced remote local in
  let known := take synced remote in
  let pending := fold_left (fun m e => <[e.1 := serializeAddressHistoryEntry e.2]> m) (imap pair known) ∅ in
  let needed := List.filter (fun e => negb (bool_decide (e ∈ known))) remote in
  let requests := map (fun e => MkRequest (he_TxHash e) (he_Height e)) needed in
  chain ← headers env;
  pending ← syncBatches address targetHash (list_to_set (map he_TxHash remote)) (indexesOf remote) pending
              (PlanTransactionFetchBatches requests (transactionFetchHighestCheckpointHeight chain));
  lift (if negb (size pending =? length remote)%nat then Err ErrInvalidAddressStatus
        else assemble pending (seq 0 (length remote))).
Definition updateSPVAddressHistory (params : json) (manager : option (WalletAccount * AddressManager)) : sync unit :=
  '(address, remoteStatus) ← lift (parseSPVAddressStatus params);
  _ ← setOutOfSync address false;
  '(localStatus, local) ← GetLocalAddressStatusAndHistory address [];
  if bool_decide (localStatus = remoteStatus) then mret tt
  else
    result ← call env (GetHistory address);
    remote ← lift (parseSPVAddressHistory result);
    if forallb (fun e => bool_decide (e ∈ local)) remote then mret tt
    else
      history ← fetchHistory address local remote;
      _ ← transact env (fun failure => onAddresses failure (fun tables => SetAddressHistory tables address history));
      manager ← match manager with Some m => mret (Some m) | None => getAddressManagerForAddress address end;
      _ ← match manager with Some m => ensureGap m | None => mret tt end;
      '(localStatus, synchronized) ← GetLocalAddressStatusAndHistory address history;
      if bool_decide (localStatus = remoteStatus) || bool_decide (synchronized = remote) then mret tt
      else setOutOfSync address true.
End update.
