(* ===== verification/Synchronized.v ===== *)
(** * What a synchronization leaves

    The history of an address that the ledger stores is backed by rows: every
    transaction it names is stored, with its outputs to the address.  An update
    keeps this whatever the server answers and whatever fails, between the actions
    of the other goroutines; and one that ends without an error has stored the
    history of the server, or had nothing to do. *)

From S2P Require Import Prelude Digest Hex Utf8 Decimal Bencode Json Base58 Keys Script ScriptBuild Transaction TransactionBuild Balancing Funding.
From S2P Require Import HeaderStorage BlockHeader Headers Merkle Accounts AddressBook LedgerStore LedgerRows Sync TransactionFetch FetchPlan Resolution PythonInt AddressSync.

(** ** The text of a history *)

Definition free (separator : byte) (s : bytes) : Prop := separator ∉ s.

Lemma splitOn_cons sep s : exists part parts, splitOn sep s = part :: parts.
Proof. destruct s as [|c s]; cbn; [by eexists _, _|]. destruct (Byte.eqb c sep); [by eexists _, _|]. case_match; by eexists _, _. Qed.
Lemma splitOn_free sep a rest : free sep a -> splitOn sep (a ++ sep :: rest) = a :: splitOn sep rest.
Proof.
  unfold free. induction a as [|c a IH]; intros Ha; cbn.
  - by rewrite eqb_byte_refl.
  - apply not_elem_of_cons in Ha as [Hc Ha]. destruct (Byte.eqb c sep) eqn:E; [by apply byte_dec_bl in E|].
    by rewrite (IH Ha).
Qed.
Lemma splitOn_parts sep s : Forall (free sep) (splitOn sep s).
Proof.
  unfold free. induction s as [|c s IH]; cbn; [repeat constructor; by apply not_elem_of_nil|].
  destruct (Byte.eqb c sep) eqn:E; [constructor; [by apply not_elem_of_nil|done]|].
  destruct (splitOn sep s) as [|part parts]; (inversion_clear IH || idtac); constructor; try done.
  - apply not_elem_of_cons. split; [|by apply not_elem_of_nil]. intros ->. by rewrite eqb_byte_refl in E.
  - apply not_elem_of_cons. split; [|done]. intros ->. by rewrite eqb_byte_refl in E.
Qed.
Lemma isDigit_text c : isDigit c = true -> c <> x3a /\ c <> x5f /\ c <> x2d /\ c <> x2b.
Proof. destruct c; vm_compute; intros; split_and!; congruence. Qed.
Lemma FormatInt_free z : free x3a (FormatInt z) /\ free x5f (FormatInt z).
Proof.
  assert (forall n c, c ∈ FormatUint n -> c <> x3a /\ c <> x5f) as Hd.
  { intros n c Hc. pose proof (proj1 (Forall_forall _ _) (FormatUint_isDigit n) c Hc) as Hd. apply isDigit_text in Hd. tauto. }
  unfold free, FormatInt. destruct (z <? 0).
  - split; intros Hin; (apply elem_of_app in Hin as [Hin|Hin]; [|apply Hd in Hin; tauto]);
      change (lit "-") with [x2d] in Hin; by apply list_elem_of_singleton in Hin.
  - split; intros Hin%Hd; tauto.
Qed.

(** A formatted integer is what Python reads. *)
Lemma underscoresOk_free previous s : free x5f s -> underscoresOk previous s = true.
Proof.
  unfold free. revert previous. induction s as [|c s IH]; intros previous Hs; cbn; [done|].
  apply not_elem_of_cons in Hs as [Hc Hs]. destruct (Z.eqb_spec (Zb c) 0x5f) as [E|]; [|by apply IH].
  exfalso. apply Hc. by apply (inj Zb).
Qed.
Lemma filter_free s : free x5f s -> List.filter (fun c => negb (Zb c =? 0x5f)) s = s.
Proof.
  unfold free. induction s as [|c s IH]; intros Hs; cbn; [done|]. apply not_elem_of_cons in Hs as [Hc Hs].
  destruct (Z.eqb_spec (Zb c) 0x5f) as [E|]; [|cbn; by rewrite IH]. exfalso. apply Hc. by apply (inj Zb).
Qed.
Lemma pythonInteger_Format z : min_i64 <= z <= max_i64 -> pythonAddressHistoryInteger (FormatInt z) = Ok z.
Proof.
  intros Hz. unfold pythonAddressHistoryInteger, accountPythonIntString.
  assert (exists a s t b, FormatInt z = a :: s /\ a :: s = t ++ [b] /\ (isDigit a = true \/ a = x2d) /\ isDigit b = true) as
    (a & s & t & b & E & Et & Ha & Hb).
  { destruct (FormatUint_cons z) as (c & s & E & Hc). destruct (FormatUint_cons (- z)) as (c' & s' & E' & Hc').
    unfold FormatInt. pose proof (FormatUint_isDigit (if z <? 0 then - z else z)) as Hd.
    destruct (z <? 0); [destruct (FormatUint (- z)) as [|x l _] eqn:El using rev_ind; [done|]|
                        destruct (FormatUint z) as [|x l _] eqn:El using rev_ind; [done|]]; [clear E E'|].
    - apply Forall_app in Hd as [_ Hx%Forall_inv]. exists x2d, (l ++ [x]), (x2d :: l), x. repeat split; [by right|]. exact Hx.
    - apply Forall_app in Hd as [_ Hx%Forall_inv]. exists c, s, l, x. split; [done|]. split; [done|]. split; [by left|done]. }
  assert (forall c, isDigit c = true \/ c = x2d -> Zb c < 0x80 /\ IsSpace (Zb c) = false) as Hplain.
  { intros c [Hc| ->]; [|done]. revert Hc. by destruct c. }
  destruct (Hplain a Ha) as [? ?], (Hplain b (or_introl Hb)) as [? ?].
  rewrite E, (TrimSpace_ends a b s t) by done. rewrite <- E. destruct (FormatInt_free z) as [_ Hu].
  rewrite bool_decide_eq_false_2 by (by rewrite E). rewrite underscoresOk_free, filter_free by done. cbn [orb negb].
  assert (bigIntString (FormatInt z) = Some z) as ->.
  { unfold FormatInt. unfold min_i64, max_i64 in Hz. destruct (Z.ltb_spec z 0).
    - change (lit "-" ++ FormatUint (- z)) with (x2d :: FormatUint (- z)). cbn [bigIntString].
      change (Zb x2d =? 0x2d) with true. cbn iota. rewrite bigIntDigits_FormatUint by lia. cbn. f_equal. lia.
    - destruct (FormatUint_cons z) as (c & r & Ec & Hc). rewrite <- (bigIntDigits_FormatUint z) by lia. rewrite Ec.
      unfold bigIntString. apply isDigit_text in Hc as (_ & _ & H2d & H2b).
      destruct (Z.eqb_spec (Zb c) 0x2d) as [Ez|]; [by apply (inj Zb c x2d) in Ez|].
      by destruct (Z.eqb_spec (Zb c) 0x2b) as [Ez|]; [apply (inj Zb c x2b) in Ez|]. }
  by rewrite (proj2 (Z.leb_le min_i64 z)), (proj2 (Z.leb_le z max_i64)) by lia.
Qed.

Definition entryFree (e : AddressHistoryEntry) : Prop := free x3a (he_TxHash e).
Definition entryParts (e : AddressHistoryEntry) : list bytes := [he_TxHash e; FormatInt (he_Height e)].
Lemma split_history es : Forall entryFree es -> removelast (splitOn x3a (serializeHistory es)) = flat_map entryParts es.
Proof.
  intros Hes. assert (splitOn x3a (serializeHistory es) = flat_map entryParts es ++ [[]]) as ->; [|apply removelast_last].
  induction Hes as [|e es He Hes IH]; [done|]. cbn [flat_map app entryParts]. rewrite <- IH.
  assert (serializeHistory (e :: es) = he_TxHash e ++ x3a :: FormatInt (he_Height e) ++ x3a :: serializeHistory es) as ->.
  { unfold serializeHistory. cbn [map concat]. unfold serializeAddressHistoryEntry. change (lit ":") with [x3a]. by rewrite <- !app_assoc. }
  rewrite splitOn_free by done. by rewrite splitOn_free by apply FormatInt_free.
Qed.
Lemma historyEntries_hashes es entries :
  historyEntries (flat_map entryParts es) = Ok entries -> map he_TxHash entries = map he_TxHash es.
Proof.
  revert entries. induction es as [|e es IH]; intros entries He; cbn in He; [by apply (inj Ok) in He as <-|].
  apply res_bind_Ok in He as (h & _ & He). apply res_bind_Ok in He as (rest & Hr & He). apply (inj Ok) in He as <-.
  cbn. by rewrite (IH _ Hr).
Qed.
Lemma historyEntries_exact es :
  Forall (fun e => min_i64 <= he_Height e <= max_i64) es -> historyEntries (flat_map entryParts es) = Ok es.
Proof.
  induction 1 as [|e es He Hes IH]; [done|]. cbn. rewrite pythonInteger_Format by done. cbn. rewrite IH. by destruct e.
Qed.
Lemma two_parts {A} (P : list A -> Prop) :
  P [] -> (forall x, P [x]) -> (forall x y l, P l -> P (x :: y :: l)) -> forall l, P l.
Proof.
  intros Hnil Hone Htwo l. enough (P l /\ forall x, P (x :: l)) by tauto.
  induction l as [|y l [IH IHc]]; split; auto.
Qed.
Lemma historyEntries_free parts entries :
  Forall (free x3a) parts -> historyEntries parts = Ok entries ->
  Forall (fun e => entryFree e /\ min_i64 <= he_Height e <= max_i64) entries.
Proof.
  revert entries. induction parts as [|x|h t parts IH] using two_parts; intros entries Hp He; cbn in He.
  1,2: by apply (inj Ok) in He as <-.
  apply res_bind_Ok in He as (z & Hz & He). apply res_bind_Ok in He as (rest & Hr & He). apply (inj Ok) in He as <-.
  inversion_clear Hp as [|? ? Hh Hp']. inversion_clear Hp' as [|? ? _ Hp]. constructor; [|by apply IH].
  split; [done|]. cbn. unfold pythonAddressHistoryInteger in Hz. destruct (accountPythonIntString t); try done.
  destruct ((min_i64 <=? _) && _) eqn:E; [|done]. apply (inj Ok) in Hz as <-. lia.
Qed.
Lemma removelast_Forall {A} (P : A -> Prop) l : Forall P l -> Forall P (removelast l).
Proof. induction 1 as [|x l Hx Hl IH]; [constructor|]. cbn. destruct l; [constructor|by constructor]. Qed.
Lemma local_entries history entries :
  historyEntries (removelast (splitOn x3a history)) = Ok entries ->
  Forall (fun e => entryFree e /\ min_i64 <= he_Height e <= max_i64) entries.
Proof. apply historyEntries_free, removelast_Forall, splitOn_parts. Qed.

(** ** What is stored for an address *)

Section stored.
Context `{Digests}.

Definition paysHash (hash : bytes) (o : TransactionOutput) : Prop :=
  IsPayPubKeyHash (o_Script o) = true /\ out_PubKeyHash (o_Script o) = hash.
(** A transaction and its outputs to the key hash of an address. *)
Definition storedFor (store : LedgerStore) (hash txid : bytes) : Prop :=
  is_Some (st_TX store !! txid) /\
  exists t, networkTransaction t /\ t_ID t = txid /\
    forall o, o ∈ t_Outputs t -> paysHash hash o -> is_Some (st_TXO store !! OutputID o).
Definition historyIn (store : LedgerStore) (address : bytes) : bytes :=
  default [] (pubkey_address (st_Addresses store) !! address ≫= fst).
Definition known (store : LedgerStore) (address : bytes) : Prop := is_Some (pubkey_address (st_Addresses store) !! address).
Definition complete (store : LedgerStore) (address hash : bytes) : Prop := forall entries,
  historyEntries (removelast (splitOn x3a (historyIn store address))) = Ok entries ->
  Forall (fun e => storedFor store hash (he_TxHash e)) entries.
(** The rows are those of transactions. *)
Definition rowOf (id : bytes) (row : StoredTransactionOutput) (t : Transaction) (o : TransactionOutput) : Prop :=
  networkTransaction t /\ o ∈ t_Outputs t /\ id = OutputID o /\ so_TXID row = t_ID t /\ so_Position row = o_Position o /\
  so_Amount row = i64 (o_Amount o) /\ o_Amount o <= max_i64 /\ so_Script row = out_Source (o_Script o).
Definition authentic (store : LedgerStore) : Prop :=
  (forall txid row, st_TX store !! txid = Some row -> exists t, ParseTransaction (row_Raw row) = Ok t /\ t_ID t = txid) /\
  (forall id row, st_TXO store !! id = Some row -> exists t o, rowOf id row t o).

Definition grows (s s' : LedgerStore) : Prop :=
  (forall id, is_Some (st_TX s !! id) -> is_Some (st_TX s' !! id)) /\
  (forall id, is_Some (st_TXO s !! id) -> is_Some (st_TXO s' !! id)) /\
  (forall address, known s address -> known s' address).
#[export] Instance grows_preorder : PreOrder grows.
Proof. split; [by intros s|]. intros s1 s2 s3 (? & ? & ?) (? & ? & ?). repeat split; auto. Qed.
(** What the others may do while an address is updated: they store more, and leave
    its history. *)
Definition rely (address : bytes) (s s' : LedgerStore) : Prop :=
  grows s s' /\ historyIn s' address = historyIn s address /\ (authentic s -> authentic s').
(** What an update does. *)
Definition guarantee (address : bytes) (s s' : LedgerStore) : Prop := forall other, other <> address -> rely other s s'.

Lemma storedFor_grows s s' hash txid : grows s s' -> storedFor s hash txid -> storedFor s' hash txid.
Proof. intros (Ht & Ho & _) [Htx (t & ? & ? & Hout)]. split; [auto|]. exists t. split_and!; auto. Qed.
Lemma complete_grows s s' address hash :
  grows s s' -> historyIn s' address = historyIn s address -> complete s address hash -> complete s' address hash.
Proof.
  intros Hg Hh Hc entries He. rewrite Hh in He. specialize (Hc _ He). eapply Forall_impl; [exact Hc|]. intros e. by apply storedFor_grows.
Qed.
Lemma complete_empty s address hash : historyIn s address = [] -> complete s address hash.
Proof. intros E entries He. rewrite E in He. apply (inj Ok) in He as <-. constructor. Qed.

Lemma SetAddressHistory_history tables tx txo txi address history other :
  let s' := MkStore (SetAddressHistory tables address history) tx txo txi in
  let s := MkStore tables tx txo txi in
  (known s' other <-> known s other) /\
  historyIn s' other = if bool_decide (address = other) then if bool_decide (known s address) then history else [] else historyIn s other.
Proof.
  cbn. unfold known, historyIn. cbn. rewrite lookup_alter. case_decide as E.
  - subst. rewrite (bool_decide_eq_true_2 (other = other)) by done. rewrite fmap_is_Some. split; [done|].
    by destruct (pubkey_address tables !! other).
  - rewrite bool_decide_eq_false_2 by done. done.
Qed.

(** ** Saving *)

Lemma insertOutputs_present txid outputs store row :
  row ∈ outputs -> is_Some (st_TXO (fold_left (insertOutput txid) outputs store) !! outrow_TXOID row).
Proof.
  revert store. induction outputs as [|out outputs IH]; intros store Hin; [by apply not_elem_of_nil in Hin|].
  cbn [fold_left]. apply elem_of_cons in Hin as [-> |Hin]; [|by apply IH].
  assert (is_Some (st_TXO (insertOutput txid store out) !! outrow_TXOID out)) as [o Ho].
  { unfold insertOutput. destruct (st_TXO store !! outrow_TXOID out) eqn:E; [by rewrite E|]. cbn. by rewrite lookup_insert, decide_True. }
  destruct (insertOutputs_tables txid outputs (insertOutput txid store out)) as (_ & _ & Hkeep & _). rewrite (Hkeep _ _ Ho). done.
Qed.

Section saving.
Variables (network : Keys.Network) (outputType : Transaction -> TransactionOutput -> res Z) (julianDay : Transaction -> res unit).

Definition projected (o : TransactionOutput) (row : TransactionOutputRow) : Prop :=
  outrow_TXOID row = OutputID o /\ outrow_Position row = o_Position o /\ outrow_Amount row = i64 (o_Amount o) /\
  o_Amount o <= max_i64 /\ outrow_Script row = out_Source (o_Script o).
Lemma projectOutputs_rows t hash isMyInput outputs rows :
  projectOutputs network outputType t hash isMyInput outputs = Ok rows ->
  (forall row, row ∈ rows -> exists o, o ∈ outputs /\ projected o row) /\
  (forall o, o ∈ outputs -> paysHash hash o -> exists row, row ∈ rows /\ outrow_TXOID row = OutputID o).
Proof.
  revert rows. induction outputs as [|o outputs IH]; intros rows Hr; cbn [projectOutputs] in Hr.
  { apply (inj Ok) in Hr as <-. split; intros x Hx; by apply not_elem_of_nil in Hx. }
  destruct (out_Err (o_Script o)); [done|]. destruct (projectedOutput hash isMyInput o) eqn:Ep; cbn [negb] in Hr.
  - destruct (Z.ltb_spec max_i64 (o_Amount o)); [done|]. apply res_bind_Ok in Hr as (ty & _ & Hr).
    apply res_bind_Ok in Hr as (a & _ & Hr). apply res_bind_Ok in Hr as (rest & Hrest & Hr). apply (inj Ok) in Hr as <-.
    destruct (IH _ Hrest) as [IH1 IH2]. split.
    + intros row [-> |Hrow]%elem_of_cons; [exists o; split; [by left|by repeat split]|].
      destruct (IH1 _ Hrow) as (o' & ? & ?). exists o'. split; [by right|done].
    + intros o' [-> |Ho']%elem_of_cons Hp; [eexists; split; [by left|done]|].
      destruct (IH2 _ Ho' Hp) as (row & ? & ?). exists row. split; [by right|done].
  - destruct (IH _ Hr) as [IH1 IH2]. split.
    + intros row Hrow. destruct (IH1 _ Hrow) as (o' & ? & ?). exists o'. split; [by right|done].
    + intros o' [-> |Ho']%elem_of_cons Hp; [|by apply IH2]. exfalso. destruct Hp as [Hp1 Hp2]. unfold projectedOutput in Ep.
      rewrite Hp1, bool_decide_eq_true_2 in Ep by done. done.
Qed.

Lemma saveRow_stored address hash t row store :
  networkTransaction t -> projectTransaction network outputType julianDay address hash t = Ok row -> authentic store ->
  grows store (saveRow address store row) /\ st_Addresses (saveRow address store row) = st_Addresses store /\
  authentic (saveRow address store row) /\ storedFor (saveRow address store row) hash (t_ID t).
Proof.
  intros Hn Hp [Ht Ho]. unfold projectTransaction in Hp. apply res_bind_Ok in Hp as (u & _ & Hp).
  apply res_bind_Ok in Hp as (inputs & _ & Hp). apply res_bind_Ok in Hp as (outputs & Houts & Hp). apply (inj Ok) in Hp as <-.
  destruct (projectOutputs_rows _ _ _ _ _ Houts) as [Hrows Hpaid]. unfold saveRow. cbn [io_Transaction io_Inputs io_Outputs row_TXID].
  set (stored := MkTransactionRow _ _ _ _ _).
  destruct (insertInputs_tables (t_ID t) address inputs (insertTransaction store stored)) as (Eo & Et & Ea).
  set (s1 := fold_left _ inputs _) in *.
  pose proof (insertOutputs_present (t_ID t) outputs s1) as Hpresent.
  destruct (insertOutputs_tables (t_ID t) outputs s1) as (Et2 & Ea2 & Hkeep & Hnew).
  set (s2 := fold_left _ outputs s1) in *. rewrite Eo in Hkeep, Hnew. cbn in Hkeep, Hnew.
  assert (st_TX s2 = <[t_ID t := stored]> (st_TX store)) as Etx by (rewrite Et2, Et; done).
  assert (st_Addresses s2 = st_Addresses store) as Eaddr by (by rewrite Ea2, Ea). split_and!; [|done| |].
  - split; [|split].
    + intros id [r Hr]. rewrite Etx, lookup_insert. case_decide; by eexists.
    + intros id [o Hi]. exists o. by apply Hkeep.
    + intros a. unfold known. by rewrite Eaddr.
  - split.
    + intros txid r. rewrite Etx. intros [[<- <-]|[_ Hr]]%lookup_insert_Some; [|by apply Ht]. destruct Hn as (t0 & Hp0 & Hid & _).
      exists t0. done.
    + intros id r [?|(out & Hout & -> & ->)]%Hnew; [by apply Ho|]. destruct (Hrows _ Hout) as (o & Hin & ? & ? & ? & ? & ?).
      exists t, o. by split_and!.
  - split; [rewrite Etx, lookup_insert, decide_True by done; by eexists|]. exists t. split_and!; [done|done|]. intros o Hin Hpay.
    destruct (Hpaid _ Hin Hpay) as (out & Hout & <-). by apply Hpresent.
Qed.
(** Saving for an address stores its transactions and touches no other history. *)
Lemma SaveTransactions_stored failure store ts address hash store' r :
  Forall networkTransaction ts -> authentic store ->
  SaveTransactions network outputType julianDay failure store ts address hash [] = (store', r) ->
  grows store store' /\ authentic store' /\ (forall other, other <> address -> historyIn store' other = historyIn store other) /\
  (historyIn store' address = historyIn store address \/ historyIn store' address = []) /\
  (r = Ok tt -> Forall (fun t => storedFor store' hash (t_ID t)) ts).
Proof.
  intros Hts Ha Hs. unfold SaveTransactions in Hs.
  destruct (ProjectTransactionIOBatch _ _ _ ts address hash) as [rows|e| |] eqn:Er;
    [|injection Hs as <- <-; split_and!; [done|done|done|by left|done]..].
  unfold SaveTransactionIOBatch, inTransaction in Hs.
  destruct failure; [injection Hs as <- <-; split_and!; [done|done|done|by left|done]|]. injection Hs as <- <-.
  set (saved := fold_left (saveRow address) rows store).
  assert (grows store saved /\ st_Addresses saved = st_Addresses store /\ authentic saved /\
    Forall (fun t => storedFor saved hash (t_ID t)) ts) as (Hg & Ea & Hau & Hst).
  { unfold saved. clear saved. revert rows Er store Ha. induction Hts as [|t ts Ht Hts IH]; intros rows Er store Ha; cbn in Er.
    { apply (inj Ok) in Er as <-. done. }
    apply res_bind_Ok in Er as (row & Hrow & Er). apply res_bind_Ok in Er as (rest & Hrest & Er). apply (inj Ok) in Er as <-.
    cbn [fold_left]. destruct (saveRow_stored address hash t row store Ht Hrow Ha) as (G1 & A1 & U1 & S1).
    destruct (IH _ Hrest _ U1) as (G2 & A2 & U2 & S2). split_and!; [by etrans|by rewrite A2|done|].
    constructor; [|done]. by eapply storedFor_grows. }
  set (final := MkStore _ _ _ _).
  assert (forall other, (known final other <-> known saved other) /\ historyIn final other =
    if bool_decide (address = other) then if bool_decide (known saved address) then [] else [] else historyIn saved other) as Hh.
  { intros other. apply (SetAddressHistory_history (st_Addresses saved) (st_TX saved) (st_TXO saved) (st_TXI saved)). }
  assert (grows saved final) as Hgf by (repeat split; auto; intros a; apply Hh).
  split_and!.
  - by etrans.
  - exact Hau.
  - intros other Hne. destruct (Hh other) as [_ ->]. rewrite bool_decide_eq_false_2 by done. unfold historyIn. by rewrite Ea.
  - right. destruct (Hh address) as [_ ->]. rewrite bool_decide_eq_true_2 by done. by case_bool_decide.
  - intros _. eapply Forall_impl; [exact Hst|]. intros t. by apply storedFor_grows.
Qed.
End saving.

(** ** Fetching *)

Section fetched.
Context {T : Type} `{HeaderStorage T} (env : environment T).

(** A fetched transaction: of the network, at a height. *)
Definition fetchedAt (height : Z) (t : Transaction) : Prop := networkTransaction t /\ t_Height t = height.

Lemma network_setVerification t height position isVerified :
  networkTransaction t -> fetchedAt height (setVerification t height position isVerified).
Proof. intros (t0 & ? & ? & ?). split; [|done]. by exists t0. Qed.
Lemma verification_fetched t height count root merkle :
  networkTransaction t -> fetchedAt height (ApplyTransactionMerkleVerification t height count root merkle).1.
Proof.
  intros Ht. unfold ApplyTransactionMerkleVerification. repeat case_match; by apply network_setVerification.
Qed.
Lemma applyProof_quiet t height count merkle :
  networkTransaction t -> quiet env (applyProof env t height count merkle) (fun x => fetchedAt height x.1).
Proof.
  intros Ht. unfold applyProof. eapply quiet_bind; [apply quiet_headers|]. intros chain _.
  eapply quiet_bind; [by apply (quiet_lift env _ (fun _ => True))|]. intros header _.
  pose proof (verification_fetched t height count (bh_MerkleRoot header) (proofOf merkle) Ht) as Hf.
  destruct (ApplyTransactionMerkleVerification _ _ _ _ _) as [t' status]. cbn in Hf.
  eapply quiet_bind; [by apply (quiet_lift env _ (fun _ => True))|]. intros s _. by apply quiet_ret.
Qed.
Lemma verify_quiet result :
  networkTransaction (fr_Transaction result) ->
  quiet env (verifyFetchedTransaction env result) (fun x => fetchedAt (fr_RemoteHeight result) x.1).
Proof.
  intros Ht. unfold verifyFetchedTransaction. set (t := withHeight _ _).
  assert (fetchedAt (fr_RemoteHeight result) t) as [Hn Hh] by (by apply network_setVerification).
  eapply quiet_bind; [apply quiet_headers|]. intros chain _.
  eapply quiet_bind; [by apply (quiet_lift env _ (fun _ => True))|]. intros status _.
  destruct status; try (by apply applyProof_quiet); try (by apply quiet_ret).
  eapply quiet_bind; [apply quiet_call|]. intros value _.
  assert (quiet env (match transactionFetchMerkleObject value with
    | None => lift (Err ErrTransactionFetchMalformed)
    | Some [] => mret (t, TransactionMerkleProofMissing)
    | Some merkle =>
        status ← lift (stageTransactionMerkleVerification t (fr_RemoteHeight result) (Len chain) merkle);
        match status with
        | TransactionMerkleProofMissing => mret (t, status)
        | _ => applyProof env t (fr_RemoteHeight result) (Len chain) merkle
        end
    end) (fun x => fetchedAt (fr_RemoteHeight result) x.1)) as Hq.
  { destruct (transactionFetchMerkleObject value) as [[|m ms]|]; [by apply quiet_ret| |by apply quiet_lift].
    eapply quiet_bind; [by apply (quiet_lift env _ (fun _ => True))|]. intros s _.
    destruct s; try (by apply applyProof_quiet); by apply quiet_ret. }
  destruct value as [[]|]; try exact Hq. by apply quiet_lift.
Qed.

Definition answers (batch : TransactionFetchBatch) (x : bytes * Transaction) : Prop :=
  x.1 ∈ map rq_TxID (fb_Requests batch) /\ fetchedAt (heightIn (fb_RemoteHeights batch) x.1) x.2.
Definition parsedAnswer (batch : TransactionFetchBatch) (result : TransactionFetchResult) : Prop :=
  rq_TxID (fr_Request result) ∈ map rq_TxID (fb_Requests batch) /\ networkTransaction (fr_Transaction result) /\
  fr_RemoteHeight result = heightIn (fb_RemoteHeights batch) (rq_TxID (fr_Request result)).
Lemma parsed_network raw t : ParseTransaction raw = Ok t -> networkTransaction t.
Proof. intros Hp. destruct (parsed_identity _ _ Hp) as (Hr & _). exists t. by rewrite Hr. Qed.
Lemma parseEntries_answers batch response keys results :
  Forall (fun key => key ∈ map rq_TxID (fb_Requests batch)) keys -> parseEntries batch response keys = Ok results ->
  Forall (parsedAnswer batch) results.
Proof.
  intros Hk. revert results. induction Hk as [|key keys Hkey Hk IH]; intros results Hp; cbn in Hp.
  { by apply (inj Ok) in Hp as <-. }
  apply res_bind_Ok in Hp as (result & Hr & Hp). apply res_bind_Ok in Hp as (rest & Hrest & Hp). apply (inj Ok) in Hp as <-.
  constructor; [|by apply IH]. unfold parseEntry in Hr.
  destruct (mapLookup key response) as [[| | | |[|[] [|m []]]|]|]; try done.
  apply res_bind_Ok in Hr as (raw & _ & Hr). apply res_bind_Ok in Hr as (t & Ht & Hr).
  apply map_err_Ok in Ht. destruct (transactionFetchMerkleObject _); [|done]. apply (inj Ok) in Hr as <-.
  split_and!; [done| |done]. by eapply network_setVerification, parsed_network.
Qed.
Lemma ParseBatch_answers batch value results :
  ParseTransactionFetchBatchResult batch value = Ok results -> Forall (parsedAnswer batch) results.
Proof.
  unfold ParseTransactionFetchBatchResult. destruct (transactionFetchMapping value) as [[response ordered]|]; [|done].
  set (keys := if ordered then _ else _). destruct (existsb _ keys) eqn:E; [done|]. apply parseEntries_answers.
  apply Forall_forall. intros key Hkey. destruct (decide (key ∈ map rq_TxID (fb_Requests batch))) as [|Hn]; [done|].
  exfalso. apply not_true_iff_false in E. apply E, existsb_exists. exists key. rewrite <- list_elem_of_In. split; [done|].
  by rewrite bool_decide_eq_false_2.
Qed.
Lemma verifyAll_quiet batch results :
  Forall (parsedAnswer batch) results -> quiet env (verifyAll env results) (Forall (answers batch)).
Proof.
  induction 1 as [|result results (Hid & Hn & Hh) _ IH]; cbn [verifyAll]; [by apply quiet_ret|].
  eapply quiet_bind; [by apply verify_quiet|]. intros [t status] Ht. cbn in Ht.
  eapply quiet_bind; [exact IH|]. intros rest Hrest. apply quiet_ret. constructor; [|done]. split; [done|]. cbn. by rewrite <- Hh.
Qed.
Lemma request_quiet batch : quiet env (requestTransactionBatch env batch) (Forall (answers batch)).
Proof.
  unfold requestTransactionBatch. eapply quiet_bind; [apply quiet_call|]. intros value _.
  eapply quiet_bind; [apply quiet_lift, ParseBatch_answers|]. intros results. apply verifyAll_quiet.
Qed.

(** What was asked for, and nothing else. *)
Definition asked (batch : TransactionFetchBatch) (t : Transaction) : Prop := answers batch (t_ID t, t).
Lemma checkFetched_asked maybeHasChannelKey batch fetched ts :
  Forall (answers batch) fetched -> checkFetched maybeHasChannelKey fetched = Ok ts -> Forall (asked batch) ts.
Proof.
  intros Hf. revert ts. induction Hf as [|[requested t] fetched Ha Hf IH]; intros ts Hc; cbn in Hc.
  { by apply (inj Ok) in Hc as <-. }
  apply res_bind_Ok in Hc as (u & _ & Hc). case_bool_decide as E; [|done]. cbn [negb] in Hc.
  apply res_bind_Ok in Hc as (rest & Hr & Hc). apply (inj Ok) in Hc as <-. constructor; [|by apply IH].
  unfold asked. by rewrite E.
Qed.
Lemma asked_network batch ts : Forall (asked batch) ts -> Forall networkTransaction ts.
Proof. intros Ht. eapply Forall_impl; [exact Ht|]. intros t Ha. apply Ha. Qed.

(** Resolving changes inputs only. *)
Lemma resolveAll_asked batch remote found ts : Forall (asked batch) ts -> Forall (asked batch) (resolveAll remote found ts).
Proof.
  unfold resolveAll. induction 1 as [|t ts (Hid & (t0 & ? & ? & ?) & Hh) _ IH]; cbn; constructor; [|done].
  split; [exact Hid|]. split; [by exists t0|exact Hh].
Qed.
Lemma thirdPass_quiet missing order found : quiet env (thirdPass env missing order found) (fun _ => True).
Proof.
  revert found. induction order as [|txid order IH]; intros found; cbn [thirdPass]; [by apply quiet_ret|].
  eapply quiet_bind; [apply quiet_query|]. intros [row|] _; [|apply IH].
  eapply quiet_bind; [by apply (quiet_lift env _ (fun _ => True))|]. intros previous _.
  eapply quiet_bind; [by apply (quiet_lift env _ (fun _ => True))|]. intros found' _. apply IH.
Qed.
Lemma resolve_quiet batch ts remote :
  Forall (asked batch) ts -> quiet env (ResolveTransactionInputs env ts remote) (Forall (asked batch)).
Proof.
  intros Ha. unfold ResolveTransactionInputs. eapply quiet_bind; [by apply (quiet_lift env _ (fun _ => True))|].
  intros [found unresolved] _. destruct unresolved as [|input rest]; [by apply quiet_ret, resolveAll_asked|].
  eapply quiet_bind; [apply quiet_query|]. intros storedOutputs _.
  eapply quiet_bind; [by apply (quiet_lift env _ (fun _ => True))|]. intros [found' missing] _.
  eapply quiet_bind; [apply thirdPass_quiet|]. intros found'' _. by apply quiet_ret, resolveAll_asked.
Qed.
Lemma publish_quiet address ts : quiet env (publishTransactionBatch env address ts) (fun _ => True).
Proof.
  unfold publishTransactionBatch. induction (rev ts) as [|t l IH]; cbn [publish]; [by apply quiet_ret|].
  eapply quiet_bind; [apply quiet_handle|]. by intros _ _.
Qed.

(** ** The order of the entries *)

Lemma planned_request requests highest batch t :
  batch ∈ PlanTransactionFetchBatches requests highest -> asked batch t ->
  exists r, r ∈ requests /\ rq_TxID r = t_ID t /\ rq_Height r = t_Height t.
Proof.
  unfold PlanTransactionFetchBatches. set (ordered := sortRequests requests).
  intros (part & -> & Hpart)%list_elem_of_fmap (Hid & _ & Hh). cbn in Hid, Hh.
  apply chunks_parts in Hpart as [_ Hin]. apply list_elem_of_fmap in Hid as (r0 & E0 & Hr0).
  assert (heightIn (remoteHeightsOf ordered) (t_ID t) = t_Height t) as Hheight.
  { rewrite Hh. unfold heightIn at 2.
    destruct (fold_insert_is_Some rq_TxID (fun r => heightIn (remoteHeightsOf ordered) (rq_TxID r)) part ∅ (t_ID t)) as [h Eh].
    { left. rewrite E0. by apply list_elem_of_fmap_2. }
    rewrite Eh. apply fold_insert_Some in Eh as [Eh|(r & _ & <- & <-)]; [by rewrite lookup_empty in Eh|done]. }
  unfold heightIn in Hheight. unfold remoteHeightsOf in Hheight.
  destruct (fold_insert_is_Some rq_TxID rq_Height ordered ∅ (t_ID t)) as [h Eh].
  { left. rewrite E0. by apply list_elem_of_fmap_2, Hin. }
  rewrite Eh in Hheight. cbn in Hheight. apply fold_insert_Some in Eh as [Eh|(r & Hr & ? & ?)]; [by rewrite lookup_empty in Eh|].
  exists r. split; [by rewrite <- (sortRequests_perm requests)|]. split; [done|congruence].
Qed.

(** The entries at the head of both histories. *)
Lemma alreadySynced_prefix remote local :
  take (alreadySynced remote local) remote = take (alreadySynced remote local) local.
Proof.
  revert local. induction remote as [|r remote IH]; intros [|l local]; cbn; try done. case_decide; [|done]. subst. cbn. by rewrite IH.
Qed.

(** The entry kept at an index: one at the head, or that of a fetched transaction. *)
Definition settled (remote : list AddressHistoryEntry) (synced : nat) (requests : list TransactionFetchRequest)
    (i : nat) (e : AddressHistoryEntry) : Prop :=
  entryFree e /\
  ((i < synced)%nat /\ remote !! i = Some e \/
   indexesOf remote !! he_TxHash e = Some i /\ exists r, r ∈ requests /\ rq_TxID r = he_TxHash e /\ rq_Height r = he_Height e).
Definition requestsOf (remote : list AddressHistoryEntry) (synced : nat) : list TransactionFetchRequest :=
  map (fun e => MkRequest (he_TxHash e) (he_Height e))
    (List.filter (fun e => negb (bool_decide (e ∈ take synced remote))) remote).
Lemma indexesOf_lookup remote txid i : indexesOf remote !! txid = Some i -> exists e, remote !! i = Some e /\ he_TxHash e = txid.
Proof.
  unfold indexesOf. intros Hi.
  apply (fold_insert_Some (fun e : nat * AddressHistoryEntry => he_TxHash e.2) fst) in Hi as [Hi|([k e] & Hin & ? & ?)];
    [by rewrite lookup_empty in Hi|]. cbn in *. subst. exists e. split; [by apply elem_of_imap_pair|done].
Qed.
(** When every index has an entry, it is the entry of the remote history. *)
Lemma settled_exact remote synced (pending : gmap nat bytes) :
  (forall i text, pending !! i = Some text -> exists e, text = serializeAddressHistoryEntry e /\
     settled remote synced (requestsOf remote synced) i e) ->
  (forall i, (i < length remote)%nat -> is_Some (pending !! i)) ->
  forall i text, (i < length remote)%nat -> pending !! i = Some text -> exists e,
    remote !! i = Some e /\ text = serializeAddressHistoryEntry e /\ entryFree e.
Proof.
  intros Hp Hall i text Hi Ht. destruct (Hp _ _ Ht) as (e & -> & Hf & [[_ He]|(Hidx & r & Hr & Eid & Eh)]); [by exists e|].
  destruct (indexesOf_lookup _ _ _ Hidx) as (e' & He' & Ehash).
  enough (e = e') as -> by (by exists e').
  unfold requestsOf in Hr. apply list_elem_of_fmap in Hr as (e2 & -> & Hin). cbn in Eid, Eh.
  apply list_elem_of_In, filter_In in Hin as [Hin Hnew]. apply list_elem_of_In in Hin. apply negb_true_iff, bool_decide_eq_false in Hnew.
  apply list_elem_of_lookup in Hin as [j Hj].
  assert (synced <= j)%nat as Hsj.
  { destruct (decide (synced <= j)%nat); [done|]. exfalso. apply Hnew. apply list_elem_of_lookup. exists j. rewrite lookup_take, decide_True; [done|lia]. }
  destruct (Hall j) as [text' Ht']; [by apply lookup_lt_Some in Hj|].
  destruct (Hp _ _ Ht') as (e3 & -> & _ & [[? _]|(Hidx3 & _)]); [lia|].
  destruct (indexesOf_lookup _ _ _ Hidx3) as (e4 & He4 & E4).
  assert (i = j) as ->. { assert (he_TxHash e3 = he_TxHash e) as E by congruence. rewrite E in Hidx3. congruence. }
  rewrite Hj in He'. injection He' as <-. destruct e, e2; cbn in *. by subst.
Qed.
Lemma assemble_exact pending k l history :
  assemble pending (seq k (length l)) = Ok history ->
  (forall i, (i < length l)%nat -> is_Some (pending !! (k + i)%nat)) /\
  ((forall i e text, l !! i = Some e -> pending !! (k + i)%nat = Some text -> text = serializeAddressHistoryEntry e) ->
   history = serializeHistory l).
Proof.
  revert k history. induction l as [|e l IH]; intros k history Ha; cbn in Ha.
  { apply (inj Ok) in Ha as <-. split; [intros i Hi; cbn in Hi; lia|done]. }
  destruct (pending !! k) as [text|] eqn:Ek; [|done]. apply res_bind_Ok in Ha as (rest & Hr & Ha). apply (inj Ok) in Ha as <-.
  destruct (IH _ _ Hr) as [H1 H2]. split.
  - intros [|i] Hi; [rewrite Nat.add_0_r, Ek; by eexists|]. rewrite Nat.add_succ_r. apply H1. cbn in Hi. lia.
  - intros Hx. rewrite H2; [|intros i e' text' He' Ht; apply (Hx (S i)); [done|by rewrite Nat.add_succ_r]].
    rewrite (Hx 0%nat e text); [done|done|by rewrite Nat.add_0_r].
Qed.

(** ** One update *)

Lemma hexEncode_free l : free x3a (hexEncode l).
Proof.
  assert (forall d, 0 <= d < 16 -> x3a <> hexDigit d) as Hd.
  { intros d Hd E. pose proof (unhex_hexDigit d Hd) as Hu. by rewrite <- E in Hu. }
  unfold free. induction l as [|b l IH]; cbn [hexEncode]; [by apply not_elem_of_nil|]. pose proof (Zb_range b).
  rewrite !not_elem_of_cons. split_and!; [apply Hd; split; [apply Z.div_pos; lia|apply Z.div_lt_upper_bound; lia]| |done].
  apply Hd, Z.mod_pos_bound. lia.
Qed.
Lemma network_free t : networkTransaction t -> free x3a (t_ID t).
Proof.
  intros (t0 & Hp & -> & _). destruct (parsed_identity _ _ Hp) as (_ & _ & _ & -> & _). apply hexEncode_free.
Qed.
Lemma recordPending_spec indexes pending ts pending' i text :
  recordPending indexes pending ts = Ok pending' -> pending' !! i = Some text ->
  pending !! i = Some text \/
  exists t, t ∈ ts /\ indexes !! t_ID t = Some i /\ text = serializeAddressHistoryEntry (MkEntry (t_ID t) (t_Height t)).
Proof.
  unfold recordPending. set (f := fun (p : res (gmap nat bytes)) (t : Transaction) => _).
  assert (forall r l p, fold_left f l r = Ok p -> exists p0, r = Ok p0) as Hok.
  { intros r l. revert r. induction l as [|t l IH]; intros r p Hp; cbn in Hp; [by eexists|].
    apply IH in Hp as [p0 Hp]. destruct r; [by eexists|done..]. }
  revert pending. induction ts as [|t ts IH]; intros pending Hp Hi; cbn [fold_left] in Hp; [left; congruence|].
  destruct (Hok _ _ _ Hp) as [p0 E0]. rewrite E0 in Hp. destruct (IH _ Hp Hi) as [Hi'|(t' & ? & ? & ?)];
    [|right; exists t'; split; [by right|done]].
  unfold f in E0. cbn in E0. destruct (indexes !! t_ID t) as [k|] eqn:Ek; [|done]. apply (inj Ok) in E0 as <-.
  apply lookup_insert_Some in Hi' as [[-> <-]|[_ ?]]; [|by left]. right. exists t. split; [by left|done].
Qed.

Section updating.
Context `{Secp256k1} `{RowOrder}.
Variables (network : Keys.Network) (maybeHasChannelKey : Transaction -> res unit).
Variables (outputType : Transaction -> TransactionOutput -> res Z) (julianDay : Transaction -> res unit).
Variables (accounts : list WalletAccount) (keysFault : nat -> fault) (announce : nat -> list bytes -> res unit).
(** The address; whether it is known from the start; what else is kept. *)
Variables (address : bytes) (subscribed : Prop) (Q : LedgerStore -> Prop).

Definition backed (s : LedgerStore) : Prop := forall hash, addressHash160 network address = Ok hash -> complete s address hash.
Definition invariant (s : LedgerStore) : Prop := authentic s /\ Q s /\ (subscribed -> known s address) /\ backed s.
Hypothesis others : forall n s, rely address s (env_Others env n s).
Hypothesis Q_others : forall n s, invariant s -> Q (env_Others env n s).
Hypothesis Q_own : forall s s', guarantee address s s' -> Q s -> Q s'.

Lemma rely_backed s s' : rely address s s' -> backed s -> backed s'.
Proof. intros (Hg & Hh & _) Hb hash Eh. by apply (complete_grows s); auto. Qed.
Lemma invariant_stable n s : invariant s -> invariant (env_Others env n s).
Proof.
  intros Hi. pose proof Hi as (Ha & _ & Hk & Hb). pose proof (others n s) as Hr. pose proof Hr as (Hg & _ & Hau).
  split; [by apply Hau|]. split; [by apply Q_others|]. split; [|by eapply rely_backed].
  intros Hs. apply Hg. by apply Hk.
Qed.
Lemma invariant_own s s' :
  grows s s' -> (authentic s -> authentic s') -> (forall other, other <> address -> historyIn s' other = historyIn s other) ->
  backed s' -> invariant s -> invariant s'.
Proof.
  intros Hg Hau Hh Hb (Ha & HQ & Hk & _). split; [by apply Hau|]. split; [|split; [intros Hs; by apply Hg, Hk|done]].
  apply (Q_own s); [|done]. intros other Hne. split; [done|]. split; [by apply Hh|done].
Qed.

Section fetching.
Variables (hash : bytes) (remote : list AddressHistoryEntry) (synced : nat).
Abbreviation requests := (requestsOf remote synced).

Definition pendingOK (s : LedgerStore) (pending : gmap nat bytes) : Prop := forall i text, pending !! i = Some text ->
  exists e, text = serializeAddressHistoryEntry e /\ settled remote synced requests i e /\ storedFor s hash (he_TxHash e).
Definition fetching (pending : gmap nat bytes) : assertion := fun s o => (invariant s /\ address ∉ o) /\ pendingOK s pending.
Lemma pendingOK_grows s s' pending : grows s s' -> pendingOK s pending -> pendingOK s' pending.
Proof. intros Hg Hp i text Hi. destruct (Hp _ _ Hi) as (e & ? & ? & ?). exists e. split_and!; [done..|]. by eapply storedFor_grows. Qed.
Lemma fetching_stable pending : stable env (fetching pending).
Proof.
  intros n s o [[Hi Ho] Hp]. split; [split; [by apply invariant_stable|done]|]. eapply pendingOK_grows; [apply others|done].
Qed.
Lemma fetching_invariant pending s o : fetching pending s o -> invariant s.
Proof. by intros [[? _] _]. Qed.

Abbreviation saving := (fun pending ts s o => fetching pending s o /\ Forall (fun t => storedFor s hash (t_ID t)) ts).
Lemma save_step pending batch ts failure s o s' r :
  Forall (asked batch) ts -> fetching pending s o ->
  SaveTransactions network outputType julianDay failure s ts address hash [] = (s', r) ->
  match r with Ok _ => saving pending ts s' o | _ => invariant s' end.
Proof.
  intros Hts [[Hi Ho] Hp] Hs. pose proof Hi as (Ha & _ & _ & Hb).
  destruct (SaveTransactions_stored network outputType julianDay _ _ _ _ _ _ _ (asked_network _ _ Hts) Ha Hs)
    as (Hg & Ha' & Hother & Hown & Hst).
  assert (invariant s') as Hi'.
  { apply (invariant_own s); try done. intros h Eh. destruct Hown as [E|E]; [by apply (complete_grows s); auto|by apply complete_empty]. }
  destruct r as [[]| | |]; try done. split; [split; [done|by eapply pendingOK_grows]|by apply Hst].
Qed.
Lemma syncBatch_triple pending batch highest :
  batch ∈ PlanTransactionFetchBatches requests highest ->
  triple (fetching pending)
    (syncBatch network maybeHasChannelKey outputType julianDay env address hash (list_to_set (map he_TxHash remote)) (indexesOf remote)
       pending batch)
    fetching invariant.
Proof.
  intros Hbatch. pose proof (fetching_stable pending) as Hstable. pose proof (fetching_invariant pending) as Hinv. unfold syncBatch.
  eapply triple_bind; [by apply (request_quiet batch)|]. intros fetched. apply triple_pure. intros Hf.
  eapply triple_bind; [by apply (quiet_lift env _ (Forall (asked batch))); [intros ts; apply checkFetched_asked|..]|].
  intros ts0. apply triple_pure. intros Hts0.
  eapply triple_bind; [by apply (resolve_quiet batch)|]. intros ts. apply triple_pure. intros Hts.
  eapply triple_bind; [apply (triple_transact env) with (Q := fun _ => saving pending ts); [done|]|].
  { intros failure s o s' r Hs Ht. by eapply save_step. }
  intros u. cbn beta. clear u. assert (stable env (saving pending ts)) as Hsaving.
  { intros n s o [Hs Hst]. split; [by apply Hstable|]. eapply Forall_impl; [exact Hst|]. intros t. apply storedFor_grows, others. }
  eapply triple_bind; [apply (publish_quiet address ts); [done|by intros s o [? _]; eapply Hinv]|]. intros u. apply triple_pure. intros _.
  apply triple_lift; [|by intros s o [? _]; eapply Hinv]. intros pending' s o Hrec [[Hio Hp] Hst]. split; [done|].
  intros i text Hi. destruct (recordPending_spec _ _ _ _ _ _ Hrec Hi) as [|(t & Ht & Hidx & ->)]; [by apply Hp|].
  rewrite Forall_forall in Hts, Hst. pose proof (Hts _ Ht) as Hasked. eexists. split; [done|]. split; [|by apply Hst].
  split; [by apply network_free, Hasked|]. right. split; [done|]. by eapply planned_request.
Qed.
Lemma syncBatches_triple pending batches highest :
  (forall batch, batch ∈ batches -> batch ∈ PlanTransactionFetchBatches requests highest) ->
  triple (fetching pending)
    (syncBatches network maybeHasChannelKey outputType julianDay env address hash (list_to_set (map he_TxHash remote)) (indexesOf remote)
       pending batches)
    fetching invariant.
Proof.
  revert pending. induction batches as [|batch batches IH]; intros pending Hb; cbn [syncBatches].
  { apply (triple_ret pending fetching). }
  eapply triple_bind; [apply (syncBatch_triple pending batch highest), Hb; by left|]. intros pending'. apply IH. intros b Hin. apply Hb. by right.
Qed.
End fetching.
Lemma historyItems_heights items entries :
  historyItems items = Ok entries -> Forall (fun e => min_i64 <= he_Height e <= max_i64) entries.
Proof.
  revert entries. induction items as [|item items IH]; intros entries Hi; cbn in Hi; [by apply (inj Ok) in Hi as <-|].
  destruct item as [| | | | |record]; try done. destruct (member "tx_hash" record) as [[]|]; try done.
  apply res_bind_Ok in Hi as (height & Hh & Hi). apply res_bind_Ok in Hi as (rest & Hr & Hi). apply (inj Ok) in Hi as <-.
  constructor; [|by apply IH]. cbn. unfold spvAddressInteger in Hh. destruct (member "height" record) as [[|[]| | | |]|]; try done.
  1,2: apply (inj Ok) in Hh as <-; unfold min_i64, max_i64; lia.
  destruct (existsb _ _); [done|]. apply map_err_Ok in Hh. by eapply ParseInt_range.
Qed.
Lemma parsed_heights value entries :
  parseSPVAddressHistory value = Ok entries -> Forall (fun e => min_i64 <= he_Height e <= max_i64) entries.
Proof. unfold parseSPVAddressHistory. destruct value as [[]|]; try done. apply historyItems_heights. Qed.

Lemma storedHistory_table s : storedHistory s address = [] \/ storedHistory s address = historyIn s address.
Proof.
  unfold storedHistory, GetAddress. destruct (hd_error _) as [record|] eqn:E; [|by left]. right.
  assert (record ∈ GetAddresses (st_Addresses s) (MkQuery [] (Some address) [] None None AddressOrderUnspecified (Some 1))) as Hin.
  { destruct (GetAddresses _ _); [done|]. injection E as ->. by left. }
  apply GetAddresses_in in Hin as (_ & Hsel & Hrow). unfold historyIn. unfold selected in Hsel. rewrite !andb_true_iff in Hsel.
  destruct Hsel as [[[[_ Hsel%bool_decide_eq_true] _] _] _]. rewrite Hsel in Hrow. by rewrite Hrow.
Qed.

(** Filling a gap adds keys; no history changes. *)
Lemma insertAddresses_history keys table a :
  default [] (fold_left insertAddress keys table !! a ≫= fst) = default [] (table !! a ≫= fst) /\
  (is_Some (table !! a) -> is_Some (fold_left insertAddress keys table !! a)).
Proof.
  rewrite insertAddresses_lookup. destruct (table !! a) eqn:E; [done|]. case_bool_decide; [|done]. by split; [|intros [? [=]]].
Qed.
Lemma AddKeys_history failure tables accountID keys tables' r a :
  AddKeys failure tables accountID keys = (tables', r) ->
  default [] (pubkey_address tables' !! a ≫= fst) = default [] (pubkey_address tables !! a ≫= fst) /\
  (is_Some (pubkey_address tables !! a) -> is_Some (pubkey_address tables' !! a)).
Proof. unfold AddKeys. destruct failure; intros Hk; injection Hk as <- _; [apply insertAddresses_history|done..]. Qed.
Lemma EnsureAddressGap_history failure announced tables account manager tables' r a :
  EnsureAddressGap failure announced tables account manager = (tables', r) ->
  default [] (pubkey_address tables' !! a ≫= fst) = default [] (pubkey_address tables !! a ≫= fst) /\
  (is_Some (pubkey_address tables !! a) -> is_Some (pubkey_address tables' !! a)).
Proof.
  assert (forall pubs, persistAndAnnounce failure announced tables account manager pubs = (tables', r) ->
    default [] (pubkey_address tables' !! a ≫= fst) = default [] (pubkey_address tables !! a ≫= fst) /\
    (is_Some (pubkey_address tables !! a) -> is_Some (pubkey_address tables' !! a))) as Hpersist.
  { intros pubs. unfold persistAndAnnounce, persistPublicKeys. destruct (AddKeys _ _ _ _) as [t r0] eqn:E. intros Hp.
    injection Hp as <- _. by eapply AddKeys_history. }
  intros He. unfold EnsureAddressGap in He.
  destruct (m_singleAddress manager); repeat case_match; try (by eapply Hpersist); by injection He as <- _.
Qed.
Lemma ensureGap_triple manager P :
  stable env (fun s o => P s o) ->
  (forall s s' o, grows s s' -> st_TX s' = st_TX s -> st_TXO s' = st_TXO s -> (forall a, historyIn s' a = historyIn s a) -> P s o -> P s' o) ->
  (forall s o, P s o -> invariant s) ->
  triple P (ensureGap keysFault announce env manager) (fun _ => P) invariant.
Proof.
  intros Hs Hstep Hinv w w' r HP. unfold ensureGap. unfold holds in HP. apply (Hs (w_Clock w)) in HP. unfold tick. cbn [w_Clock w_Store w_OutOfSync].
  destruct (EnsureAddressGap _ _ _ _ _) as [tables result] eqn:E. intros Hw. injection Hw as <- <-.
  set (s := env_Others env (w_Clock w) (w_Store w)) in *.
  assert (P (MkStore tables (st_TX s) (st_TXO s) (st_TXI s)) (w_OutOfSync w)) as HP'.
  { apply (Hstep s); [|done|done|intros a; by eapply EnsureAddressGap_history in E as [? _]|done].
    split; [done|]. split; [done|]. intros a. by eapply EnsureAddressGap_history in E as [_ ?]. }
  destruct result; cbn; [exact HP'|by eapply Hinv..].
Qed.

Section history.
Variables (local remote : list AddressHistoryEntry).
Hypothesis local_free : Forall entryFree local.
Abbreviation synced := (alreadySynced remote local).
Definition storedAll (s : LedgerStore) (entries : list AddressHistoryEntry) : Prop := forall hash,
  addressHash160 network address = Ok hash -> Forall (fun e => storedFor s hash (he_TxHash e)) entries.
Lemma storedAll_grows s s' entries : grows s s' -> storedAll s entries -> storedAll s' entries.
Proof. intros Hg Ha hash Eh. eapply Forall_impl; [by apply Ha|]. intros e. by apply storedFor_grows. Qed.
Definition checked (s : LedgerStore) (o : gset bytes) : Prop := invariant s /\ address ∉ o.
Lemma checked_stable : stable env checked.
Proof. intros n s o [? ?]. split; [by apply invariant_stable|done]. Qed.

Definition headPending : gmap nat bytes :=
  fold_left (fun m e => <[e.1 := serializeAddressHistoryEntry e.2]> m) (imap pair (take synced remote)) ∅.
Lemma head_settled hash s i text :
  Forall (fun e => storedFor s hash (he_TxHash e)) local -> headPending !! i = Some text ->
  exists e, text = serializeAddressHistoryEntry e /\ settled remote synced (requestsOf remote synced) i e /\ storedFor s hash (he_TxHash e).
Proof.
  intros Hl Hi. unfold headPending in Hi.
  apply (fold_insert_Some (fun e : nat * AddressHistoryEntry => e.1) (fun e => serializeAddressHistoryEntry e.2)) in Hi
    as [Hi|([k e] & Hin & <- & <-)]; [by rewrite lookup_empty in Hi|]. apply elem_of_imap_pair in Hin. cbn [fst snd].
  assert (e ∈ local) as Hlocal.
  { apply list_elem_of_lookup_2 in Hin. rewrite alreadySynced_prefix in Hin. apply elem_of_take in Hin as (j & Hj & _).
    by eapply list_elem_of_lookup_2. }
  rewrite Forall_forall in Hl. pose proof local_free as Hfree. rewrite Forall_forall in Hfree. exists e. split; [done|]. split; [|by apply Hl].
  split; [by apply Hfree|]. left. apply lookup_take_Some in Hin as [? ?]. done.
Qed.
(** The assembled history is the remote one. *)
Lemma assembled_exact hash s pending history :
  pendingOK hash remote synced s pending -> assemble pending (seq 0 (length remote)) = Ok history ->
  history = serializeHistory remote /\ Forall entryFree remote /\ Forall (fun e => storedFor s hash (he_TxHash e)) remote.
Proof.
  intros Hp Ha. destruct (assemble_exact pending 0 remote history Ha) as [Hall Htext].
  assert (forall i e, remote !! i = Some e -> exists text, pending !! i = Some text /\ text = serializeAddressHistoryEntry e /\ entryFree e /\
    storedFor s hash (he_TxHash e)) as Heach.
  { intros i e He. pose proof (lookup_lt_Some _ _ _ He) as Hlt. destruct (Hall i Hlt) as [text Ht]. exists text. split; [done|].
    destruct (settled_exact remote synced pending) with (i := i) (text := text) as (e' & He' & -> & Hf); try done.
    { intros j t Hj. destruct (Hp _ _ Hj) as (e' & ? & ? & _). by exists e'. }
    assert (e' = e) as -> by congruence. split; [done|]. split; [done|].
    destruct (Hp _ _ Ht) as (e2 & E2 & [Hf2 _] & Hs2).
    enough (he_TxHash e2 = he_TxHash e) as <- by done.
    unfold serializeAddressHistoryEntry in E2. change (lit ":") with [x3a] in E2. cbn [app] in E2.
    assert (splitOn x3a (he_TxHash e ++ x3a :: FormatInt (he_Height e) ++ [x3a]) =
            splitOn x3a (he_TxHash e2 ++ x3a :: FormatInt (he_Height e2) ++ [x3a])) as E by (by rewrite E2).
    rewrite (splitOn_free x3a (he_TxHash e)), (splitOn_free x3a (he_TxHash e2)) in E by done. by injection E as E _. }
  split; [|split; apply Forall_forall; intros e [i Hi]%list_elem_of_lookup; by destruct (Heach _ _ Hi) as (text & _ & _ & ? & ?)].
  apply Htext. intros i e text He Ht. destruct (Heach _ _ He) as (text' & Ht' & -> & _). cbn in Ht. congruence.
Qed.

Lemma fetchHistory_triple :
  triple (fun s o => checked s o /\ storedAll s local)
    (fetchHistory network maybeHasChannelKey outputType julianDay env address local remote)
    (fun history s o => (history = serializeHistory remote /\ Forall entryFree remote) /\ checked s o /\ storedAll s remote) invariant.
Proof.
  unfold fetchHistory.
  apply triple_bind with (R := fun hash s o => addressHash160 network address = Ok hash /\ (checked s o /\ storedAll s local)).
  { apply triple_lift; [done|]. by intros s o [[? _] _]. }
  intros hash. apply triple_pure. intros Hhash. cbv zeta.
  assert (stable env (fun s o => checked s o /\ storedAll s local)) as Hst.
  { intros n s o [? ?]. split; [by apply checked_stable|]. eapply storedAll_grows; [apply others|done]. }
  eapply triple_bind; [by apply triple_headers|]. intros chain. cbn beta.
  eapply triple_bind.
  { eapply triple_weaken.
    - apply (syncBatches_triple hash remote (alreadySynced remote local) headPending) with (highest := transactionFetchHighestCheckpointHeight chain). done.
    - intros s o [Hc Hl]. split; [done|]. intros i text Hi. apply (head_settled hash s); [by apply Hl|done].
    - intros pending s o Hf. exact Hf.
    - done. }
  intros pending. cbn beta. apply triple_lift; [|by intros s o [[? _] _]].
  intros history s o Ha [Hc Hp]. destruct (negb _); [done|]. destruct (assembled_exact hash s pending history Hp Ha) as (-> & Hf & Hs).
  split; [done|]. split; [done|]. intros h Eh. by assert (h = hash) as -> by congruence.
Qed.
End history.

(** What an update that ends without an error has found: that nothing was to be
    done, or the history of the server. *)
Definition localHistory (s : LedgerStore) (history : bytes) : Prop := history = [] \/ history = historyIn s address.
Definition synchronized (status : option bytes) (s : LedgerStore) (o : gset bytes) : Prop :=
  address ∉ o /\
  ((exists history, localHistory s history /\ addressStatus history = status) \/
   exists n value remote, env_Call env n (GetHistory address) = Ok value /\ parseSPVAddressHistory value = Ok remote /\
     storedAll s remote /\
     ((exists history local, localHistory s history /\ historyEntries (removelast (splitOn x3a history)) = Ok local /\
         forall e, e ∈ remote -> e ∈ local) \/
      (subscribed -> historyIn s address = serializeHistory remote))).

Lemma localHistory_stable history : stable env (fun s _ => localHistory s history).
Proof. intros n s o [?|?]; [by left|right]. destruct (others n s) as (_ & -> & _). done. Qed.
Lemma readHistory_triple :
  triple checked (GetLocalAddressStatusAndHistory env address [])
    (fun x s o => (exists history, x.1 = addressStatus history /\ historyEntries (removelast (splitOn x3a history)) = Ok x.2 /\
                     localHistory s history) /\ checked s o /\ storedAll s x.2) invariant.
Proof.
  unfold GetLocalAddressStatusAndHistory. rewrite bool_decide_eq_true_2 by done.
  apply triple_bind with (R := fun history s o => localHistory s history /\ checked s o).
  - apply triple_query; [apply checked_stable| |by intros s o [? _]]. intros history s o E Hc. apply (inj Ok) in E as <-.
    split; [apply storedHistory_table|done].
  - intros history. apply triple_lift; [|by intros s o (_ & ? & _)]. intros [status local] s o E [Hl Hc].
    unfold LocalAddressStatusAndHistory in E. apply res_bind_Ok in E as (entries & He & E). injection E as <- <-. cbn.
    split; [by exists history|]. split; [done|]. intros hash Eh. destruct Hl as [-> | ->].
    + apply (inj Ok) in He as <-. constructor.
    + destruct Hc as [(_ & _ & _ & Hb) _]. by apply (Hb hash).
Qed.
(** Storing the remote history, and what follows. *)
Definition stored (remote : list AddressHistoryEntry) (s : LedgerStore) (o : gset bytes) : Prop :=
  checked s o /\ storedAll s remote /\ (subscribed -> historyIn s address = serializeHistory remote).
Lemma stored_stable remote : stable env (stored remote).
Proof.
  intros n s o (Hc & Hs & Hh). split; [by apply checked_stable|]. destruct (others n s) as (Hg & E & _).
  split; [by eapply storedAll_grows|]. by rewrite E.
Qed.
Lemma stored_text remote hash s :
  Forall entryFree remote -> (addressHash160 network address = Ok hash -> Forall (fun e => storedFor s hash (he_TxHash e)) remote) ->
  historyIn s address = serializeHistory remote -> addressHash160 network address = Ok hash -> complete s address hash.
Proof.
  intros Hf Hs E Eh entries He. rewrite E, split_history in He by done. apply historyEntries_hashes in He.
  assert (Forall (storedFor s hash) (map he_TxHash remote)) as Hm by (apply Forall_map; by apply Hs).
  rewrite <- He in Hm. by rewrite Forall_map in Hm.
Qed.
Lemma setHistory_step remote failure s o s' r :
  Forall entryFree remote -> checked s o -> storedAll s remote ->
  onAddresses failure (fun tables => SetAddressHistory tables address (serializeHistory remote)) s = (s', r) ->
  match r with Ok _ => stored remote s' o | _ => invariant s' end.
Proof.
  intros Hf [Hi Ho] Hs Ht. unfold onAddresses, inTransaction in Ht.
  destruct failure; [by injection Ht as <- <-|]. injection Ht as <- <-.
  destruct s as [tables tx txo txi]. cbn [st_Addresses st_TX st_TXO st_TXI].
  pose proof (SetAddressHistory_history tables tx txo txi address (serializeHistory remote)) as Hh. cbv zeta in Hh.
  set (s := MkStore tables tx txo txi) in *. set (s' := MkStore (SetAddressHistory _ _ _) _ _ _) in *.
  assert (grows s s') as Hg by (split; [done|]; split; [done|]; intros a; by rewrite (proj1 (Hh a))).
  assert (storedAll s' remote) as Hs' by by eapply storedAll_grows.
  assert (known s address -> historyIn s' address = serializeHistory remote) as Htext.
  { intros Hk. destruct (Hh address) as [_ ->]. by rewrite !bool_decide_eq_true_2. }
  assert (invariant s') as Hi'.
  { apply (invariant_own s); [done|done| | |done].
    - intros other Hne. destruct (Hh other) as [_ ->]. by rewrite bool_decide_eq_false_2.
    - intros hash Eh. destruct (decide (known s address)) as [Hk|Hk].
      + apply (stored_text remote); auto. + apply complete_empty. destruct (Hh address) as [_ ->].
        by rewrite bool_decide_eq_true_2, bool_decide_eq_false_2. }
  split; [done|]. split; [done|]. intros Hsub. apply Htext. by apply Hi.
Qed.
Lemma serializeHistory_nonempty e entries : serializeHistory (e :: entries) <> [].
Proof. unfold serializeHistory, serializeAddressHistoryEntry. cbn. by destruct (he_TxHash e). Qed.
Lemma reread remote :
  remote <> [] -> Forall entryFree remote -> Forall (fun e => min_i64 <= he_Height e <= max_i64) remote ->
  GetLocalAddressStatusAndHistory env address (serializeHistory remote) = mret (addressStatus (serializeHistory remote), remote).
Proof.
  intros Hne Hf Hh. unfold GetLocalAddressStatusAndHistory. destruct remote as [|e rest]; [done|].
  rewrite bool_decide_eq_false_2 by apply serializeHistory_nonempty. unfold mbind, sync_bind, mret, sync_ret, LocalAddressStatusAndHistory.
  rewrite split_history, historyEntries_exact by done. done.
Qed.

Lemma checked_storedAll_stable entries : stable env (fun s o => checked s o /\ storedAll s entries).
Proof. intros n s o [? ?]. split; [by apply checked_stable|]. eapply storedAll_grows; [apply others|done]. Qed.
Lemma ensure_triple manager remote :
  triple (stored remote) (ensureGap keysFault announce env manager) (fun _ => stored remote) invariant.
Proof.
  apply ensureGap_triple; [apply stored_stable| |by intros s o [[? _] _]].
  intros s s' o Hg Htx Htxo Hh ([Hi Ho] & Hs & He). split; [split; [|done]|split; [by eapply storedAll_grows|by rewrite Hh]].
  apply (invariant_own s); [done| | | |done].
  - unfold authentic. by rewrite Htx, Htxo.
  - intros other _. apply Hh.
  - intros hash Eh. apply (complete_grows s); [done|done|]. by apply Hi.
Qed.
Lemma manager_triple manager remote :
  triple (stored remote)
    (match manager with Some m => mret (Some m) | None => getAddressManagerForAddress accounts env address end)
    (fun _ => stored remote) invariant.
Proof.
  destruct manager; [apply (triple_ret (Some p) (fun _ => stored remote))|].
  apply triple_query; [apply stored_stable|done|by intros s o [[? _] _]].
Qed.
Lemma update_triple params status manager :
  parseSPVAddressStatus params = Ok (address, status) ->
  triple (fun s _ => invariant s)
    (updateSPVAddressHistory network maybeHasChannelKey outputType julianDay accounts keysFault announce env params manager)
    (fun _ s o => invariant s /\ synchronized status s o) invariant.
Proof.
  intros Hparams. unfold updateSPVAddressHistory. rewrite Hparams.
  apply triple_bind with (R := fun x s o => x = (address, status) /\ invariant s).
  { apply triple_lift; [|done]. intros x s o E Hi. injection E as <-. done. }
  intros x. apply triple_pure. intros ->. cbn beta iota.
  eapply triple_bind; [apply (triple_inSync address invariant)|]. intros u. cbn beta. clear u.
  eapply triple_bind; [apply readHistory_triple|]. intros [localStatus local]. cbn [fst snd].
  case_bool_decide as Est.
  { intros w w' r ((history & E & _ & Hl) & Hc & _). unfold mret, sync_ret. intros [= <- <-]. split; [apply Hc|]. split; [apply Hc|].
    left. exists history. split; [done|congruence]. }
  assert (stable env (fun s o => (exists history, localStatus = addressStatus history /\
     historyEntries (removelast (splitOn x3a history)) = Ok local /\ localHistory s history) /\ checked s o /\ storedAll s local)) as Hst.
  { apply stable_and; [|apply checked_storedAll_stable]. intros n s o (history & ? & ? & Hl). exists history.
    split_and!; [done|done|by apply (localHistory_stable history n s o)]. }
  eapply triple_bind; [apply triple_call; [exact Hst|by intros s o (_ & [? _] & _)]|]. intros value. apply triple_pure. intros [n Hcall].
  eapply triple_bind; [apply (quiet_lift env _ (fun remote => parseSPVAddressHistory value = Ok remote)); [done|exact Hst|by intros s o (_ & [? _] & _)]|].
  intros remote. apply triple_pure. intros Hremote.
  destruct (forallb _ remote) eqn:Enew.
  { intros w w' r ((history & E & He & Hl) & Hc & Hs). unfold mret, sync_ret. intros [= <- <-]. split; [apply Hc|]. split; [apply Hc|].
    assert (forall e, e ∈ remote -> e ∈ local) as Hsub.
    { intros e Hin%list_elem_of_In. rewrite forallb_forall in Enew. by apply Enew, bool_decide_eq_true in Hin. }
    right. exists n, value, remote. split_and!; [done|done| |left; by exists history, local].
    intros hash Eh. pose proof (Hs hash Eh) as Hloc. rewrite Forall_forall in Hloc. apply Forall_forall. intros e Hin. by apply Hloc, Hsub. }
  assert (remote <> []) as Hne by (by intros ->). apply parsed_heights in Hremote as Hheights.
  assert (forall s o, (exists history, localStatus = addressStatus history /\
     historyEntries (removelast (splitOn x3a history)) = Ok local /\ localHistory s history) /\ checked s o /\ storedAll s local ->
     Forall entryFree local /\ (checked s o /\ storedAll s local)) as Hpure.
  { intros s o ((history & _ & He & _) & ?). split; [|done]. eapply Forall_impl; [by eapply local_entries|]. by intros e [? _]. }
  eapply triple_weaken; [|exact Hpure|intros a s o Ha; exact Ha|done]. apply triple_pure. intros Hfree.
  eapply triple_bind; [by apply fetchHistory_triple|]. intros history. apply triple_pure. intros [-> Hf].
  apply triple_bind with (R := fun _ => stored remote).
  { apply (triple_transact env); [apply checked_storedAll_stable|]. intros failure s o s' r [Hc Hs] Ht. by eapply setHistory_step. }
  intros u. cbn beta. clear u. eapply triple_bind; [apply manager_triple|]. intros found. cbn beta.
  apply triple_bind with (R := fun _ => stored remote).
  { destruct found; [apply ensure_triple|apply (triple_ret tt (fun _ => stored remote))]. }
  intros u. cbn beta. clear u. rewrite (reread remote) by done.
  intros w w' r (Hc & Hs & Hh). unfold mbind, sync_bind, mret, sync_ret. cbn beta iota.
  rewrite (bool_decide_eq_true_2 (remote = remote)), orb_true_r by done. intros [= <- <-].
  split; [apply Hc|]. split; [apply Hc|]. right. exists n, value, remote. split_and!; [done|done|done|by right].
Qed.
End updating.
End fetched.
End stored.

(** Every stored row is a transaction's, and every stored history is backed by
    rows. *)
Definition allBacked `{Digests} (network : Keys.Network) (s : LedgerStore) : Prop :=
  authentic s /\ forall address hash, addressHash160 network address = Ok hash -> complete s address hash.

(** C12: the history stored for an address is a promise about the database: each
    transaction it names is stored, with all its outputs to the address.  An update
    keeps the promise for every address and stores rows of genuine transactions
    only, whatever the server answers, whatever statement, header or handler fails
    and wherever it stops, while the other goroutines store more between its actions
    and leave this one history alone.  In turn its own steps do to the history of
    any other address no more than it asks of them: an assertion that steps within
    its guarantee keep, and the others keep, holds in the end. *)
Theorem histories_backed `{Digests} {T} `{HeaderStorage T} `{Secp256k1} `{RowOrder} (env : environment T) network
    maybeHasChannelKey outputType julianDay accounts keysFault announce params address status manager w w' r :
  parseSPVAddressStatus params = Ok (address, status) ->
  (forall n s, rely address s (env_Others env n s)) ->
  (forall n s, allBacked network s -> allBacked network (env_Others env n s)) ->
  allBacked network (w_Store w) ->
  updateSPVAddressHistory network maybeHasChannelKey outputType julianDay accounts keysFault announce env params manager w = (w', r) ->
  allBacked network (w_Store w') /\
  forall Q : LedgerStore -> Prop, (forall n s, Q s -> Q (env_Others env n s)) ->
    (forall s s', guarantee address s s' -> Q s -> Q s') -> Q (w_Store w) -> Q (w_Store w').
Proof.
  intros Hparams Hrely Hothers Hw Hu.
  assert (forall Q : LedgerStore -> Prop,
    (forall n s, allBacked network s -> Q s -> Q (env_Others env n s)) ->
    (forall s s', guarantee address s s' -> Q s -> Q s') -> Q (w_Store w) ->
    invariant network address False (fun s => Q s /\ forall other hash, other <> address -> addressHash160 network other = Ok hash ->
      complete s other hash) (w_Store w')) as Hinv.
  { intros Q HQo HQs HQ. set (Q' := fun s => Q s /\ _).
    assert (forall s, invariant network address False Q' s -> allBacked network s) as Hall.
    { intros s (Ha & [_ Ho] & _ & Hb). split; [done|]. intros a hash Eh. destruct (decide (a = address)) as [->|]; auto. }
    assert (forall n s, invariant network address False Q' s -> Q' (env_Others env n s)) as Hq1.
    { intros n s Hi. split; [apply HQo; [by apply Hall|apply Hi]|]. intros other hash _. by apply (Hothers n s (Hall _ Hi)). }
    assert (forall s s', guarantee address s s' -> Q' s -> Q' s') as Hq2.
    { intros s s' Hg [HQs' Hc]. split; [by apply (HQs s)|]. intros other hash Hne Eh.
      destruct (Hg other Hne) as (? & ? & _). apply (complete_grows s); auto. }
    pose proof (update_triple env network maybeHasChannelKey outputType julianDay accounts keysFault announce address False Q'
      Hrely Hq1 Hq2 params status manager Hparams w w' r) as Ht.
    assert (invariant network address False Q' (w_Store w)) as Hi0.
    { destruct Hw as [Ha Hc]. split; [done|]. split; [split; [done|auto]|]. split; [done|]. intros hash. apply Hc. }
    specialize (Ht Hi0 Hu). destruct r; [apply Ht|exact Ht..]. }
  split.
  - destruct (Hinv (fun _ => True)) as (Ha & [_ Ho] & _ & Hb); [done..|]. split; [done|]. intros a hash Eh.
    destruct (decide (a = address)) as [->|]; auto.
  - intros Q HQo HQs HQ. destruct (Hinv Q) as (_ & [? _] & _); auto.
Qed.


(** ** A run *)

#[local] Existing Instance AddressBook.exampleOrder.
#[local] Existing Instance exampleDigests.
#[local] Existing Instance ScalarGroup.secp256k1.

(** A transaction that pays the address, and a server that gives its history. *)
Definition exampleAddress : bytes := address Keys.MainNet exampleHash.
Definition examplePayment : res Transaction :=
  script ← NewRedeemPubKeyHashInputScript (repeat x00 72) (repeat x00 33);
  ParseTransaction (t_Raw (fst (AddOutputs (fst (AddInputs NewTransaction [MkInput 0 (repeat x01 32) [] 1 (2 ^ 32 - 1) [] script None]))
    [NewPayPubKeyHashOutput 500000 exampleHash]))).
Definition exampleServer (c : spvCall) : res spvValue :=
  payment ← examplePayment;
  match c with
  | GetHistory _ => Ok (Plain (JArray [JObject [(lit "tx_hash", JString (t_ID payment)); (lit "height", JNumber (lit "0"))]]))
  | GetTransactionBatch _ _ => Ok (Plain (JObject [(t_ID payment, JArray [JString (hexEncode (t_Raw payment)); JNull])]))
  | GetMerkle _ _ => Err "no proof"
  end.
Definition exampleEnvironment : environment memoryHeaderStorage :=
  MkEnvironment (fun _ s => s) (fun _ => exampleHeaders []) (fun _ => exampleServer) (fun _ => None) (fun _ _ _ => Ok tt).
Definition exampleWorld : world :=
  MkWorld 0 (MkStore (fst (AddKeys NoFault (MkTables [] ∅) (lit "account") [MkKey exampleAddress 0 [] [] 0 0])) ∅ ∅ ∅) ∅.
Definition exampleParams : json := JArray [JString exampleAddress; JString (lit "status")].
Abbreviation exampleUpdate := (updateSPVAddressHistory Keys.MainNet (fun _ => Ok tt) (fun _ _ => Ok 0) (fun _ => Ok tt) [] (fun _ => NoFault)
  (fun _ _ => Ok tt) exampleEnvironment exampleParams None exampleWorld).

Lemma example_synchronized : exists w', exampleUpdate = (w', Ok tt) /\ negb (bool_decide (historyIn (w_Store w') exampleAddress = [])) = true.
Proof.
  assert ((let '(w', r) := exampleUpdate in isOk r && negb (bool_decide (historyIn (w_Store w') exampleAddress = []))) = true) as E
    by (vm_cast_no_check (eq_refl true)).
  destruct exampleUpdate as [w' r]. apply andb_true_iff in E as [Er Eh]. apply isOk_Ok in Er as [[] ->]. by exists w'.
Qed.
Lemma example_rely n s : rely exampleAddress s (env_Others exampleEnvironment n s).
Proof. done. Qed.
Lemma example_empty : authentic (w_Store exampleWorld) /\ forall a, historyIn (w_Store exampleWorld) a = [].
Proof.
  split; [split; intros ? ? E; unfold exampleWorld in E; cbn [w_Store st_TX st_TXO] in E; by apply lookup_empty_Some in E|]. intros a. unfold historyIn, exampleWorld. cbn [w_Store st_Addresses].
  rewrite (proj1 (AddKeys_history NoFault (MkTables [] ∅) (lit "account") [MkKey exampleAddress 0 [] [] 0 0] _ _ a (surjective_pairing _))).
  cbn. by rewrite lookup_empty.
Qed.
Lemma example_known : known (w_Store exampleWorld) exampleAddress.
Proof. exists (None, 0). vm_compute. reflexivity. Qed.

Lemma histories_backed_witness : exists w', exampleUpdate = (w', Ok tt) /\ allBacked Keys.MainNet (w_Store w').
Proof.
  destruct example_synchronized as (w' & E & _). exists w'. split; [exact E|]. destruct example_empty as [Ha Hh].
  exact (proj1 (histories_backed exampleEnvironment Keys.MainNet _ _ _ _ _ _ exampleParams exampleAddress (Some (lit "status")) _ _ _ _
    eq_refl example_rely (fun _ _ Hs => Hs) (conj Ha (fun a hash _ => complete_empty _ a hash (Hh a))) E)).
Defined.
