(* ===== verification/SyncWorkers.v ===== *)
(** * The workers of a wallet's synchronization

    Model of [wallet/spv_sync.go] and of the queue, the tickets and the worker of
    [wallet/address_sync.go]: a ledger starts a generation of goroutines, one that
    follows the tip of the chain and one that reads a queue of address statuses,
    runs a cycle of subscriptions after each connection and starts a goroutine for
    each status.  A step is what one of them does between two points at which
    others can run: an operation under a lock, a send or a receive.  Generations
    share the tickets, and an old one may still be ending when the next begins. *)

From S2P Require Import Prelude Decimal Bencode Json LedgerStore Sync AddressSync.

(** ** The queue of statuses *)

Section workers.
Context {M : Type}.

(** A connection, or a status with the manager that subscribed the address. *)
Record spvAddressEnvelope := MkEnvelope { e_Connected : bool; e_Params : json; e_Manager : option M }.
Definition emptyEnvelope : spvAddressEnvelope := MkEnvelope false JNull None.
(** The values, of which those before the head were taken; the channel that wakes
    the worker, of one token. *)
Record spvAddressQueue := MkQueue { q_Values : list spvAddressEnvelope; q_Head : nat; q_Wake : bool }.
Definition newSPVAddressQueue : spvAddressQueue := MkQueue [] 0 false.
(** Under the lock; whether a token is to be sent after it. *)
Definition Push (queue : spvAddressQueue) (envelope : spvAddressEnvelope) : spvAddressQueue * bool :=
  (MkQueue (q_Values queue ++ [envelope]) (q_Head queue) (q_Wake queue), (q_Head queue =? length (q_Values queue))%nat).
Definition wake (queue : spvAddressQueue) : spvAddressQueue := MkQueue (q_Values queue) (q_Head queue) true.
Definition unwake (queue : spvAddressQueue) : spvAddressQueue := MkQueue (q_Values queue) (q_Head queue) false.
Definition Pop (queue : spvAddressQueue) : option (spvAddressEnvelope * spvAddressQueue) :=
  match q_Values queue !! q_Head queue with
  | None => None
  | Some envelope =>
      let values := <[q_Head queue := emptyEnvelope]> (q_Values queue) in
      let head := S (q_Head queue) in
      Some (envelope, if (head =? length values)%nat then MkQueue [] 0 (q_Wake queue) else MkQueue values head (q_Wake queue))
  end.

(** ** The tickets of an address *)

(** The counters, which do not reach the limit of their 64 bits. *)
Record addressUpdateSequence := MkSequence { sq_Issued : nat; sq_Running : nat }.
Definition newAddressUpdateSequence : addressUpdateSequence := MkSequence 0 0.
Definition Issue (sequence : addressUpdateSequence) : addressUpdateSequence * nat :=
  (MkSequence (S (sq_Issued sequence)) (sq_Running sequence), sq_Issued sequence).
Definition Done (sequence : addressUpdateSequence) : addressUpdateSequence :=
  MkSequence (sq_Issued sequence) (S (sq_Running sequence)).
Definition sequenceOf (sequences : gmap bytes addressUpdateSequence) (address : bytes) : addressUpdateSequence :=
  default newAddressUpdateSequence (sequences !! address).

(** ** What the ledger records *)

(** How an operation ended: [errors.Is(err, context.Canceled)] apart. *)
Inductive outcome := Succeeded | Cancelled | Failed (e : string).

(** [ledgerSPVSync]; a context and a queue are those of a generation. *)
Record ledgerSPVSync := MkSync {
  s_Running : bool;
  s_Context : option nat;
  s_InitialTipDone : bool;
  s_TipErr : outcome;
  s_AddressUpdates : option nat;
  s_AddressErr : option string;
  s_AddressCycles : nat;
  s_HistoryUpdates : nat;
  s_AddressSyncing : bool;
  s_PendingHistories : Z;
  s_AddressRequired : bool;
  s_Ready : bool;
  s_ReadyDone : option bool;  (* the channel, and whether it is closed *)
  s_ReadySignaled : bool;
  s_Generation : nat
}.
Definition initialSync : ledgerSPVSync :=
  MkSync false None false Succeeded None None 0 0 false 0 false false None false 0.

Definition signalReadyWaitLocked (ready : bool) (s : ledgerSPVSync) : ledgerSPVSync :=
  let closes := bool_decide (is_Some (s_ReadyDone s)) && negb (s_ReadySignaled s) in
  MkSync (s_Running s) (s_Context s) (s_InitialTipDone s) (s_TipErr s) (s_AddressUpdates s) (s_AddressErr s)
    (s_AddressCycles s) (s_HistoryUpdates s) (s_AddressSyncing s) (s_PendingHistories s) (s_AddressRequired s)
    (s_Ready s || ready) (if closes then Some true else s_ReadyDone s) (s_ReadySignaled s || closes) (s_Generation s).
Definition maybeMarkReadyLocked (s : ledgerSPVSync) : ledgerSPVSync :=
  if negb (s_Running s) || s_Ready s || negb (s_InitialTipDone s) ||
     negb (match s_TipErr s with Succeeded => true | _ => false end) ||
     (s_AddressRequired s && (s_AddressCycles s =? 0)%nat)
  then s else signalReadyWaitLocked true s.
(** An update of the fields for the address worker. *)
Definition setAddressFields (s : ledgerSPVSync) (err : option string) (cycles updates : nat) (syncing : bool) (pending : Z)
  : ledgerSPVSync :=
  MkSync (s_Running s) (s_Context s) (s_InitialTipDone s) (s_TipErr s) (s_AddressUpdates s) err cycles updates syncing
    pending (s_AddressRequired s) (s_Ready s) (s_ReadyDone s) (s_ReadySignaled s) (s_Generation s).
Definition errAfter (err : outcome) (previous : option string) : option string :=
  match err with Succeeded => None | Cancelled => previous | Failed e => Some e end.
Definition setAddressSyncing (generation : nat) (syncing : bool) (s : ledgerSPVSync) : ledgerSPVSync :=
  if (s_Generation s =? generation)%nat
  then setAddressFields s (s_AddressErr s) (s_AddressCycles s) (s_HistoryUpdates s) syncing (s_PendingHistories s) else s.
Definition recordAddressCycle (generation : nat) (err : outcome) (s : ledgerSPVSync) : ledgerSPVSync :=
  if (s_Generation s =? generation)%nat
  then maybeMarkReadyLocked
         (setAddressFields s (errAfter err (s_AddressErr s)) (S (s_AddressCycles s)) (s_HistoryUpdates s) false (s_PendingHistories s))
  else s.
Definition adjustPendingHistories (generation : nat) (change : Z) (s : ledgerSPVSync) : ledgerSPVSync :=
  if (s_Generation s =? generation)%nat
  then setAddressFields s (s_AddressErr s) (s_AddressCycles s) (s_HistoryUpdates s) (s_AddressSyncing s)
         (Z.max 0 (s_PendingHistories s + change)) else s.
Definition recordAddressUpdate (generation : nat) (err : outcome) (s : ledgerSPVSync) : ledgerSPVSync :=
  if (s_Generation s =? generation)%nat
  then setAddressFields s (errAfter err (s_AddressErr s)) (s_AddressCycles s) (S (s_HistoryUpdates s)) (s_AddressSyncing s)
         (s_PendingHistories s) else s.
(** The end of a tip update: the first one opens the wallet. *)
Definition recordTip (generation : nat) (initial : bool) (err : outcome) (s : ledgerSPVSync) : ledgerSPVSync :=
  if (s_Generation s =? generation)%nat
  then let s := MkSync (s_Running s) (s_Context s) (s_InitialTipDone s || initial) err (s_AddressUpdates s) (s_AddressErr s)
                  (s_AddressCycles s) (s_HistoryUpdates s) (s_AddressSyncing s) (s_PendingHistories s) (s_AddressRequired s)
                  (s_Ready s) (s_ReadyDone s) (s_ReadySignaled s) (s_Generation s) in
       if initial then maybeMarkReadyLocked s else s
  else s.
(** [SPVSnapshot().UpdateTasks] *)
Definition UpdateTasks (s : ledgerSPVSync) : Z :=
  (if s_InitialTipDone s then 0 else 1) + (if s_AddressSyncing s && (s_PendingHistories s =? 0) then 1 else 0) +
  s_PendingHistories s.
(** [WaitSPVReady]: at once, or once the channel is closed. *)
Definition waitSPVReady (s : ledgerSPVSync) : option (res unit) :=
  if s_Ready s then Some (Ok tt)
  else if negb (s_Running s) then Some (Err "ledger SPV synchronization stopped before readiness")
  else match s_ReadyDone s with
       | None => Some (Err "ledger SPV synchronization stopped before readiness")
       | Some true => Some (Err "ledger SPV synchronization stopped before readiness")
       | Some false => None
       end.

(** ** Goroutines *)

Inductive taskPhase := Waiting | Updating | Recorded | Released | Reporting.
Record historyTask := MkTask { ht_Generation : nat; ht_Address : bytes; ht_Ticket : nat; ht_Phase : taskPhase }.
Definition setPhase (t : historyTask) (phase : taskPhase) : historyTask :=
  MkTask (ht_Generation t) (ht_Address t) (ht_Ticket t) phase.

Inductive workerPhase := AwaitTip | Selecting | Draining | Exiting | Exited.
(** The worker's variables; the cycles that run, and the results that were sent.  A
    result carries how many statuses had been pushed when it was sent, and the
    worker remembers it ([g_Tip] is there when the network has headers, and tells
    whether the first update of the tip has ended): [g_Pushed] and the marks are there for the proofs. *)
Record Generation := MkGeneration {
  g_Queue : spvAddressQueue;
  g_Wakers : nat;
  g_Cancelled : bool;
  g_Tip : option bool;
  g_Worker : workerPhase;
  g_PendingHistories : nat;
  g_CycleRunning : bool;
  g_CyclePending : bool;
  g_PendingConnection : bool;
  g_CycleErr : outcome;
  g_Cycles : nat;
  g_Results : list (outcome * nat);
  g_Pushed : nat;
  g_Mark : nat
}.
Record system := MkSystem {
  sys_Sync : ledgerSPVSync;
  sys_Sequences : gmap bytes addressUpdateSequence;
  sys_Tasks : list historyTask;
  sys_Generations : gmap nat Generation
}.
Definition initialSystem : system := MkSystem initialSync ∅ [] ∅.

(** ** What the goroutines do *)

Definition setQueue (G : Generation) (queue : spvAddressQueue) (wakers pushed : nat) : Generation :=
  MkGeneration queue wakers (g_Cancelled G) (g_Tip G) (g_Worker G) (g_PendingHistories G) (g_CycleRunning G)
    (g_CyclePending G) (g_PendingConnection G) (g_CycleErr G) (g_Cycles G) (g_Results G) pushed (g_Mark G).
Definition setWorker (G : Generation) (worker : workerPhase) : Generation :=
  MkGeneration (g_Queue G) (g_Wakers G) (g_Cancelled G) (g_Tip G) worker (g_PendingHistories G) (g_CycleRunning G)
    (g_CyclePending G) (g_PendingConnection G) (g_CycleErr G) (g_Cycles G) (g_Results G) (g_Pushed G) (g_Mark G).
Definition setPending (G : Generation) (pending : nat) : Generation :=
  MkGeneration (g_Queue G) (g_Wakers G) (g_Cancelled G) (g_Tip G) (g_Worker G) pending (g_CycleRunning G)
    (g_CyclePending G) (g_PendingConnection G) (g_CycleErr G) (g_Cycles G) (g_Results G) (g_Pushed G) (g_Mark G).
Definition setContext (G : Generation) (cancelled : bool) (tip : option bool) : Generation :=
  MkGeneration (g_Queue G) (g_Wakers G) cancelled tip (g_Worker G) (g_PendingHistories G) (g_CycleRunning G)
    (g_CyclePending G) (g_PendingConnection G) (g_CycleErr G) (g_Cycles G) (g_Results G) (g_Pushed G) (g_Mark G).
Definition setCycle (G : Generation) (running pending connection : bool) (err : outcome) (cycles : nat)
    (results : list (outcome * nat)) (mark : nat) : Generation :=
  MkGeneration (g_Queue G) (g_Wakers G) (g_Cancelled G) (g_Tip G) (g_Worker G) (g_PendingHistories G) running
    pending connection err cycles results (g_Pushed G) mark.

(** [startCycle], with the goroutine it starts. *)
Definition startCycle (g : nat) (G : Generation) (s : ledgerSPVSync) : Generation * ledgerSPVSync :=
  (setCycle G true (g_CyclePending G) (g_PendingConnection G) (g_CycleErr G) (S (g_Cycles G)) (g_Results G) (g_Mark G),
   setAddressSyncing g true s).
Definition finishCycle (g : nat) (G : Generation) (s : ledgerSPVSync) : Generation * ledgerSPVSync :=
  if negb (g_CyclePending G) || negb (g_PendingHistories G =? 0)%nat then (G, s)
  else
    let s := recordAddressCycle g (g_CycleErr G) s in
    let G' := setCycle G (g_CycleRunning G) false false Succeeded (g_Cycles G) (g_Results G) (g_Mark G) in
    if g_PendingConnection G then startCycle g G' s else (G', s).

Definition setGeneration (y : system) (g : nat) (G : Generation) (s : ledgerSPVSync) : system :=
  MkSystem s (sys_Sequences y) (sys_Tasks y) (<[g := G]> (sys_Generations y)).
(** [startHistoryUpdate]: the ticket is taken in the order of the queue. *)
Definition startHistoryUpdate (g : nat) (G : Generation) (envelope : spvAddressEnvelope) (y : system) : system :=
  match parseSPVAddressStatus (e_Params envelope) with
  | Ok (address, _) =>
      let '(sequence, ticket) := Issue (sequenceOf (sys_Sequences y) address) in
      MkSystem (adjustPendingHistories g 1 (sys_Sync y)) (<[address := sequence]> (sys_Sequences y))
        (sys_Tasks y ++ [MkTask g address ticket Waiting])
        (<[g := setPending G (S (g_PendingHistories G))]> (sys_Generations y))
  | _ => setGeneration y g G (recordAddressUpdate g (Failed ErrInvalidAddressStatus) (sys_Sync y))
  end.
Definition handleEnvelope (g : nat) (G : Generation) (envelope : spvAddressEnvelope) (y : system) : system :=
  if e_Connected envelope then
    if g_CycleRunning G
    then setGeneration y g (setCycle G true (g_CyclePending G) true (g_CycleErr G) (g_Cycles G) (g_Results G) (g_Mark G)) (sys_Sync y)
    else let '(G, s) := startCycle g G (sys_Sync y) in setGeneration y g G s
  else startHistoryUpdate g G envelope y.

Definition pushTo (G : Generation) (envelope : spvAddressEnvelope) : Generation :=
  let '(queue, wasEmpty) := Push (g_Queue G) envelope in
  setQueue G queue (if wasEmpty : bool then S (g_Wakers G) else g_Wakers G) (S (g_Pushed G)).
(** [enqueueSPVAddressEnvelope] *)
Definition enqueue (envelope : spvAddressEnvelope) (y : system) : system :=
  let s := sys_Sync y in
  match s_Running s, s_AddressUpdates s, s_Context s with
  | true, Some updates, Some ctx =>
      match sys_Generations y !! ctx, sys_Generations y !! updates with
      | Some C, Some G => if g_Cancelled C then y else setGeneration y updates (pushTo G envelope) s
      | _, _ => y
      end
  | _, _, _ => y
  end.
(** The statuses of a batch of subscriptions, and what announcing adds. *)
Definition statusOf (manager : option M) (address : bytes) (status : json) : spvAddressEnvelope :=
  MkEnvelope false (JArray [JString address; status]) manager.
Definition enqueueAll (envelopes : list spvAddressEnvelope) (y : system) : system := fold_left (fun y e => enqueue e y) envelopes y.

(** [StartSPVCheckpointSync] when no generation runs: the network has headers and
    addresses to follow, or not; it starts, or not. *)
Definition newGeneration (hasTip hasAddress cancelled : bool) : Generation :=
  MkGeneration newSPVAddressQueue 0 cancelled (if hasTip then Some false else None)
    (if hasAddress then if hasTip then AwaitTip else Selecting else Exited) 0 false false false Succeeded 0 [] 0 0.
Definition startSync (hasTip hasAddress networkStarts : bool) (y : system) : system :=
  let s := sys_Sync y in
  let g := S (s_Generation s) in
  let updates := if hasAddress then Some g else None in
  if networkStarts then
    setGeneration y g (newGeneration hasTip hasAddress false)
      (maybeMarkReadyLocked (MkSync true (Some g) (negb hasTip) Succeeded updates None 0 0 false 0 hasAddress false (Some false) false g))
  else
    setGeneration y g (setWorker (newGeneration hasTip hasAddress true) Exited)
      (signalReadyWaitLocked false (MkSync false None (negb hasTip) Succeeded None None 0 0 false 0 hasAddress false (Some false) false g)).
(** [StopSPVCheckpointSync]: it cancels; when all have ended, or its own context
    has, it forgets the generation. *)
Definition stopSync (s : ledgerSPVSync) : ledgerSPVSync :=
  signalReadyWaitLocked false
    (MkSync false (s_Context s) (s_InitialTipDone s) (s_TipErr s) (s_AddressUpdates s) (s_AddressErr s)
       (s_AddressCycles s) (s_HistoryUpdates s) (s_AddressSyncing s) (s_PendingHistories s) (s_AddressRequired s)
       (s_Ready s) (s_ReadyDone s) (s_ReadySignaled s) (s_Generation s)).
Definition forgetSync (generation : nat) (s : ledgerSPVSync) : ledgerSPVSync :=
  if (s_Generation s =? generation)%nat
  then MkSync (s_Running s) None (s_InitialTipDone s) (s_TipErr s) None (s_AddressErr s)
         (s_AddressCycles s) (s_HistoryUpdates s) (s_AddressSyncing s) (s_PendingHistories s) (s_AddressRequired s)
         (s_Ready s) (s_ReadyDone s) (s_ReadySignaled s) (s_Generation s)
  else s.

(** ** Steps *)

Definition setTasks (y : system) (s : ledgerSPVSync) (tasks : list historyTask) : system :=
  MkSystem s (sys_Sequences y) tasks (sys_Generations y).
Inductive step : system -> system -> Prop :=
(** The ledger is started and stopped; its context is cancelled from outside. *)
| step_start y hasTip hasAddress networkStarts :
    s_Running (sys_Sync y) = false -> step y (startSync hasTip hasAddress networkStarts y)
| step_stop y g G :
    s_Running (sys_Sync y) = true -> s_Context (sys_Sync y) = Some g -> sys_Generations y !! g = Some G ->
    step y (setGeneration y g (setContext G true (g_Tip G)) (stopSync (sys_Sync y)))
| step_forget y g : s_Running (sys_Sync y) = false \/ s_Generation (sys_Sync y) <> g ->
    step y (setTasks y (forgetSync g (sys_Sync y)) (sys_Tasks y))
| step_cancel y g G :
    sys_Generations y !! g = Some G -> step y (setGeneration y g (setContext G true (g_Tip G)) (sys_Sync y))
(** The tip worker: its first update, which lets the others begin, and the next. *)
| step_tip_first y g G err :
    sys_Generations y !! g = Some G -> g_Tip G = Some false ->
    step y (setGeneration y g (setContext G (g_Cancelled G) (Some true)) (recordTip g true err (sys_Sync y)))
| step_tip_next y g G err :
    sys_Generations y !! g = Some G -> g_Tip G = Some true -> step y (setTasks y (recordTip g false err (sys_Sync y)) (sys_Tasks y))
(** A notification of the server, from any goroutine, at any time. *)
| step_notify y envelope : step y (enqueue envelope y)
| step_wake y g G n :
    sys_Generations y !! g = Some G -> g_Wakers G = S n ->
    step y (setGeneration y g (setQueue G (wake (g_Queue G)) n (g_Pushed G)) (sys_Sync y))
(** A cycle subscribes addresses, and returns. *)
| step_cycle y g G envelopes :
    sys_Generations y !! g = Some G -> (0 < g_Cycles G)%nat -> step y (enqueueAll envelopes y)
| step_cycle_ends y g G n err :
    sys_Generations y !! g = Some G -> g_Cycles G = S n ->
    step y (setGeneration y g (setCycle G (g_CycleRunning G) (g_CyclePending G) (g_PendingConnection G) (g_CycleErr G) n
      (g_Results G ++ [(err, g_Pushed G)]) (g_Mark G)) (sys_Sync y))
(** The goroutine of a status: it waits for its ticket, updates, subscribing the
    addresses it has generated, records, passes the turn, and reports. *)
| step_begin y l1 l2 t :
    sys_Tasks y = l1 ++ t :: l2 -> ht_Phase t = Waiting -> sq_Running (sequenceOf (sys_Sequences y) (ht_Address t)) = ht_Ticket t ->
    step y (setTasks y (sys_Sync y) (l1 ++ setPhase t Updating :: l2))
| step_announce y t envelopes :
    t ∈ sys_Tasks y -> ht_Phase t = Updating -> step y (enqueueAll envelopes y)
| step_record y l1 l2 t err :
    sys_Tasks y = l1 ++ t :: l2 -> ht_Phase t = Updating ->
    step y (setTasks y (recordAddressUpdate (ht_Generation t) err (sys_Sync y)) (l1 ++ setPhase t Recorded :: l2))
| step_done y l1 l2 t :
    sys_Tasks y = l1 ++ t :: l2 -> ht_Phase t = Recorded ->
    step y (MkSystem (sys_Sync y) (<[ht_Address t := Done (sequenceOf (sys_Sequences y) (ht_Address t))]> (sys_Sequences y))
      (l1 ++ setPhase t Released :: l2) (sys_Generations y))
| step_adjust y l1 l2 t :
    sys_Tasks y = l1 ++ t :: l2 -> ht_Phase t = Released ->
    step y (setTasks y (adjustPendingHistories (ht_Generation t) (-1) (sys_Sync y)) (l1 ++ setPhase t Reporting :: l2))
| step_unreported y l1 l2 t G :
    sys_Tasks y = l1 ++ t :: l2 -> ht_Phase t = Reporting -> sys_Generations y !! ht_Generation t = Some G -> g_Cancelled G = true ->
    step y (setTasks y (sys_Sync y) (l1 ++ l2))
(** The worker: it begins once the tip is known; *)
| step_worker_begins y g G :
    sys_Generations y !! g = Some G -> g_Worker G = AwaitTip -> g_Tip G = Some true ->
    step y (setGeneration y g (setWorker G Selecting) (sys_Sync y))
(** it wakes, takes what is in the queue one by one, and looks whether a cycle ends; *)
| step_woken y g G :
    sys_Generations y !! g = Some G -> g_Worker G = Selecting -> q_Wake (g_Queue G) = true ->
    step y (setGeneration y g (setWorker (setQueue G (unwake (g_Queue G)) (g_Wakers G) (g_Pushed G)) Draining) (sys_Sync y))
| step_drain y g G envelope queue :
    sys_Generations y !! g = Some G -> g_Worker G = Draining -> g_Cancelled G = false -> Pop (g_Queue G) = Some (envelope, queue) ->
    step y (handleEnvelope g (setQueue G queue (g_Wakers G) (g_Pushed G)) envelope y)
| step_drained y g G G' s :
    sys_Generations y !! g = Some G -> g_Worker G = Draining -> g_Cancelled G = true \/ Pop (g_Queue G) = None ->
    finishCycle g (setWorker G Selecting) (sys_Sync y) = (G', s) -> step y (setGeneration y g G' s)
(** it takes the result of a cycle, and drains the queue; *)
| step_result y g G err mark results :
    sys_Generations y !! g = Some G -> g_Worker G = Selecting -> g_Results G = (err, mark) :: results ->
    step y (setGeneration y g (setWorker (setCycle G false true (g_PendingConnection G) err (g_Cycles G) results mark) Draining) (sys_Sync y))
(** it hears of an update that has ended; *)
| step_reported y g G G' s l1 l2 t :
    sys_Generations y !! g = Some G -> g_Worker G = Selecting ->
    sys_Tasks y = l1 ++ t :: l2 -> ht_Generation t = g -> ht_Phase t = Reporting ->
    finishCycle g (setPending G (pred (g_PendingHistories G))) (sys_Sync y) = (G', s) ->
    step y (setTasks (setGeneration y g G' s) s (l1 ++ l2))
(** it leaves when its context is cancelled, waits for a cycle and for the updates. *)
| step_worker_stops y g G :
    sys_Generations y !! g = Some G -> g_Worker G = AwaitTip \/ g_Worker G = Selecting -> g_Cancelled G = true ->
    step y (setGeneration y g (setWorker G Exiting) (sys_Sync y))
| step_last_result y g G r results :
    sys_Generations y !! g = Some G -> g_Worker G = Exiting -> g_CycleRunning G = true -> g_Results G = r :: results ->
    step y (setGeneration y g (setCycle G false (g_CyclePending G) (g_PendingConnection G) (g_CycleErr G) (g_Cycles G) results
      (g_Mark G)) (sys_Sync y))
| step_worker_exits y g G :
    sys_Generations y !! g = Some G -> g_Worker G = Exiting -> g_CycleRunning G = false ->
    (forall t, t ∈ sys_Tasks y -> ht_Generation t = g -> ht_Phase t = Reporting) ->
    step y (setGeneration y g (setWorker G Exited) (setAddressSyncing g false (sys_Sync y))).
Definition reachable (y : system) : Prop := rtc step initialSystem y.
End workers.
