(* ===== verification/SyncOrder.v ===== *)
(** * What the workers guarantee

    Invariants of the goroutines of [SyncWorkers.v]: the updates of an address take
    turns in the order of the queue, no status is left without a wake-up, what is
    pending is counted, and a cycle is recorded, and the wallet ready, when what it
    subscribed has been done. *)

From S2P Require Import Prelude Decimal Bencode Json LedgerStore Sync AddressSync SyncWorkers.

Section order.
Context {M : Type}.

(** ** The queue *)

Definition queued (q : @spvAddressQueue M) : list spvAddressEnvelope := drop (q_Head q) (q_Values q).
Definition queueOK (q : @spvAddressQueue M) : Prop := (q_Head q = 0 /\ q_Values q = [])%nat \/ (q_Head q < length (q_Values q))%nat.
Lemma Push_spec q e :
  queueOK q -> queueOK (Push q e).1 /\ queued (Push q e).1 = queued q ++ [e] /\ q_Wake (Push q e).1 = q_Wake q /\
  ((Push q e).2 = true <-> queued q = []).
Proof.
  intros Hq. unfold Push, queueOK, queued in *. cbn. rewrite length_app. cbn. split; [right; destruct Hq as [[-> _]|?]; lia|].
  split; [rewrite drop_app_le; [done|destruct Hq as [[-> _]|?]; lia]|]. split; [done|]. rewrite Nat.eqb_eq. split.
  - intros ->. by rewrite drop_all.
  - intros E. apply (f_equal length) in E. rewrite length_drop in E. cbn in E. destruct Hq as [[-> ->]|?]; [done|lia].
Qed.
Lemma Pop_None q : queueOK q -> Pop q = None -> queued q = [].
Proof.
  unfold Pop, queued. intros Hq. destruct (q_Values q !! q_Head q) eqn:E; [done|]. intros _. apply lookup_ge_None in E. by rewrite drop_ge.
Qed.
Lemma Pop_Some q e q' : queueOK q -> Pop q = Some (e, q') -> queueOK q' /\ queued q = e :: queued q' /\ q_Wake q' = q_Wake q.
Proof.
  unfold Pop. intros Hq. destruct (q_Values q !! q_Head q) as [e0|] eqn:E; [|done]. rewrite length_insert.
  pose proof (lookup_lt_Some _ _ _ E) as Hlt. intros Hp. unfold queued. rewrite (drop_S _ _ _ E).
  destruct (Nat.eqb_spec (S (q_Head q)) (length (q_Values q))) as [El|Hne]; injection Hp as <- <-; cbn.
  - split; [by left|]. split; [|done]. rewrite El. by rewrite drop_all.
  - split; [right; cbn; rewrite length_insert; lia|]. split; [|done]. by rewrite drop_insert_lt by lia.
Qed.

(** ** Turns *)

Definition outstanding (t : historyTask) : bool :=
  match ht_Phase t with Waiting | Updating | Recorded => true | Released | Reporting => false end.
Definition holding (t : historyTask) : Prop := ht_Phase t = Updating \/ ht_Phase t = Recorded.
Definition ofAddress (address : bytes) (t : historyTask) : bool := bool_decide (ht_Address t = address) && outstanding t.
Definition tickets (address : bytes) (tasks : list historyTask) : list nat := map ht_Ticket (List.filter (ofAddress address) tasks).
(** The tickets that are out are those from the one whose turn it is to the last,
    in the order in which they were taken. *)
Definition turns (sequences : gmap bytes addressUpdateSequence) (tasks : list historyTask) : Prop :=
  (forall address, let s := sequenceOf sequences address in
     (sq_Running s <= sq_Issued s)%nat /\ tickets address tasks = seq (sq_Running s) (sq_Issued s - sq_Running s)) /\
  Forall (fun t => holding t -> ht_Ticket t = sq_Running (sequenceOf sequences (ht_Address t))) tasks.

Lemma tickets_app address l1 l2 : tickets address (l1 ++ l2) = tickets address l1 ++ tickets address l2.
Proof. unfold tickets. by rewrite List.filter_app, map_app. Qed.
Lemma tickets_cons address t l : tickets address (t :: l) = (if ofAddress address t then [ht_Ticket t] else []) ++ tickets address l.
Proof. unfold tickets. cbn. by destruct (ofAddress address t). Qed.
Lemma sequenceOf_insert sequences a s b :
  sequenceOf (<[a := s]> sequences) b = if bool_decide (a = b) then s else sequenceOf sequences b.
Proof. unfold sequenceOf. rewrite lookup_insert. case_decide; case_bool_decide; done. Qed.
Lemma holding_replace (P : historyTask -> Prop) l1 t t' l2 : Forall P (l1 ++ t :: l2) -> P t' -> Forall P (l1 ++ t' :: l2).
Proof. rewrite !Forall_app, !Forall_cons. tauto. Qed.

(** A phase that is no longer outstanding, or still is. *)
Lemma turns_phase sequences l1 t l2 phase :
  turns sequences (l1 ++ t :: l2) -> outstanding (setPhase t phase) = outstanding t ->
  (holding (setPhase t phase) -> ht_Ticket t = sq_Running (sequenceOf sequences (ht_Address t))) ->
  turns sequences (l1 ++ setPhase t phase :: l2).
Proof.
  intros [Ht Hh] Ho Hp. split; [|eapply holding_replace; [exact Hh|exact Hp]].
  intros address. specialize (Ht address). rewrite tickets_app, tickets_cons in *.
  assert (ofAddress address (setPhase t phase) = ofAddress address t) as -> by (unfold ofAddress; by rewrite Ho). exact Ht.
Qed.
Lemma turns_remove sequences l1 t l2 : turns sequences (l1 ++ t :: l2) -> outstanding t = false -> turns sequences (l1 ++ l2).
Proof.
  intros [Ht Hh] Ho. split; [|rewrite Forall_app, Forall_cons in Hh; rewrite Forall_app; tauto].
  intros address. specialize (Ht address). rewrite tickets_app, tickets_cons in Ht. rewrite tickets_app.
  assert (ofAddress address t = false) as E by (unfold ofAddress; rewrite Ho; by rewrite andb_false_r). by rewrite E in Ht.
Qed.
Lemma turns_issue sequences tasks g address :
  turns sequences tasks ->
  let '(s, ticket) := Issue (sequenceOf sequences address) in
  turns (<[address := s]> sequences) (tasks ++ [MkTask g address ticket Waiting]).
Proof.
  intros [Ht Hh]. cbn. split.
  - intros a. specialize (Ht a) as [Hle Ht]. rewrite tickets_app, tickets_cons, Ht, sequenceOf_insert. unfold ofAddress. cbn.
    rewrite andb_true_r. case_bool_decide; [subst; cbn|by rewrite app_nil_r]. split; [lia|].
    rewrite Nat.sub_succ_l, seq_S by done. do 2 f_equal. lia.
  - rewrite Forall_app. split.
    + eapply Forall_impl; [exact Hh|]. intros t Ht' Hhold. specialize (Ht' Hhold). rewrite sequenceOf_insert. case_bool_decide; [|done].
      cbn. congruence.
    + constructor; [|constructor]. intros [|]; done.
Qed.
Lemma seq_head {A} (f : A -> nat) l1 l2 x r n : map f l1 ++ f x :: l2 = seq r n -> f x = r -> l1 = [] /\ l2 = seq (S r) (n - 1).
Proof.
  destruct n as [|n]; [by destruct l1|]. destruct l1 as [|y l1]; cbn.
  - intros E _. injection E as _ ->. by rewrite Nat.sub_0_r.
  - intros E Ex. injection E as _ E. exfalso.
    assert (f x ∈ seq (S r) n) as Hin by (rewrite <- E; apply elem_of_app; right; by left).
    apply elem_of_seq in Hin. lia.
Qed.
Lemma turns_done sequences l1 t l2 :
  turns sequences (l1 ++ t :: l2) -> ht_Phase t = Recorded ->
  turns (<[ht_Address t := Done (sequenceOf sequences (ht_Address t))]> sequences) (l1 ++ setPhase t Released :: l2).
Proof.
  intros [Ht Hh] Hp.
  assert (ht_Ticket t = sq_Running (sequenceOf sequences (ht_Address t))) as Eturn.
  { rewrite Forall_app, Forall_cons in Hh. apply Hh. by right. }
  assert (outstanding t = true) as Hout by (unfold outstanding; by rewrite Hp).
  destruct (Ht (ht_Address t)) as [Hle Hown]. rewrite tickets_app, tickets_cons in Hown. unfold ofAddress at 1 in Hown.
  rewrite bool_decide_eq_true_2, Hout in Hown by done. cbn [andb app] in Hown.
  destruct (seq_head ht_Ticket (List.filter (ofAddress (ht_Address t)) l1) _ t _ _ Hown Eturn) as [E1 E2].
  split.
  - intros a. rewrite tickets_app, tickets_cons, sequenceOf_insert. unfold ofAddress at 1. rewrite andb_false_r. cbn [app].
    case_bool_decide as Ea; [subst a; unfold Done; cbn [sq_Issued sq_Running]|].
    + assert (tickets (ht_Address t) l1 = []) as -> by (unfold tickets; by rewrite E1). cbn [app]. rewrite E2.
      assert (sq_Running (sequenceOf sequences (ht_Address t)) < sq_Issued (sequenceOf sequences (ht_Address t)))%nat.
      { apply (f_equal length) in Hown. rewrite length_app, length_seq in Hown. cbn in Hown. lia. }
      split; [lia|]. f_equal. lia.
    + specialize (Ht a). rewrite tickets_app, tickets_cons in Ht. unfold ofAddress at 1 in Ht.
      rewrite bool_decide_eq_false_2 in Ht by done. exact Ht.
  - (* whoever holds the turn of the address is this task *)
    assert (forall t', t' ∈ l1 \/ t' ∈ l2 -> holding t' -> ht_Address t' <> ht_Address t) as Hother.
    { intros t' Hin Hhold Ea. assert (ofAddress (ht_Address t) t' = true) as Hof.
      { unfold ofAddress, outstanding. rewrite bool_decide_eq_true_2 by done. by destruct Hhold as [-> | ->]. }
      assert (t' ∈ l1 -> False) as Hl1.
      { intros Hin1. assert (t' ∈ List.filter (ofAddress (ht_Address t)) l1) as Hf by (apply list_elem_of_In, filter_In; by rewrite <- list_elem_of_In).
        rewrite E1 in Hf. by apply not_elem_of_nil in Hf. }
      destruct Hin as [Hin|Hin]; [by apply Hl1|].
      assert (ht_Ticket t' ∈ tickets (ht_Address t) l2) as Htk.
      { unfold tickets. apply list_elem_of_fmap_2, list_elem_of_In, filter_In. by rewrite <- list_elem_of_In. }
      rewrite E2 in Htk. apply elem_of_seq in Htk. rewrite Forall_app, Forall_cons, !Forall_forall in Hh.
      destruct Hh as (_ & _ & Hh2). specialize (Hh2 _ Hin Hhold). rewrite Ea in Hh2. lia. }
    rewrite Forall_app, Forall_cons, !Forall_forall in *. destruct Hh as (Hh1 & _ & Hh2). split; [|split; [by intros [|]|]].
    + intros t' Hin Hhold. rewrite sequenceOf_insert, bool_decide_eq_false_2; [by apply Hh1|]. intros E. by eapply Hother; [left| |].
    + intros t' Hin Hhold. rewrite sequenceOf_insert, bool_decide_eq_false_2; [by apply Hh2|]. intros E. by eapply Hother; [right| |].
Qed.

(** ** One generation *)

Definition ofGeneration (g : nat) (t : historyTask) : bool := (ht_Generation t =? g)%nat.
Definition countOf (g : nat) (tasks : list historyTask) : nat := length (List.filter (ofGeneration g) tasks).
Record generationOK (count : nat) (G : @Generation M) : Prop := {
  go_queue : queueOK (g_Queue G);
  (** No lost wake-up. *)
  go_wake : queued (g_Queue G) <> [] ->
    q_Wake (g_Queue G) = true \/ (0 < g_Wakers G)%nat \/ g_Worker G = Draining \/ g_Worker G = Exited \/ g_Cancelled G = true;
  go_count : (count <= g_PendingHistories G)%nat /\ (g_Cancelled G = false -> g_PendingHistories G = count);
  go_pushed : (length (queued (g_Queue G)) <= g_Pushed G)%nat;
  go_marks : (g_Mark G <= g_Pushed G)%nat /\ Forall (fun r : outcome * nat => (r.2 <= g_Pushed G)%nat) (g_Results G);
  (** What was pushed before the result of a cycle has been taken. *)
  go_cycle : g_CyclePending G = true -> g_Worker G = Selecting -> g_Cancelled G = false ->
    (g_Mark G + length (queued (g_Queue G)) <= g_Pushed G)%nat;
  go_await : g_Worker G = AwaitTip -> g_CyclePending G = false
}.

Lemma push_ok count G e : generationOK count G -> generationOK count (pushTo G e).
Proof.
  intros [Hq Hw Hc Hp [Hm Hr] Hcy Ha]. unfold pushTo. destruct (Push_spec (g_Queue G) e Hq) as (Hq' & Eq & Ew & Hempty).
  destruct (Push (g_Queue G) e) as [queue wasEmpty]. cbn [fst snd] in *. split; cbn; try done.
  - intros _. rewrite Ew. destruct wasEmpty; [right; left; lia|].
    assert (queued (g_Queue G) <> []) as Hne by (intros E; apply Hempty in E; done). destruct (Hw Hne) as [?|[?|?]]; auto.
  - rewrite Eq, length_app. cbn. lia.
  - split; [lia|]. eapply Forall_impl; [exact Hr|]. cbn. lia.
  - intros H1 H2 H3. specialize (Hcy H1 H2 H3). rewrite Eq, length_app. cbn. lia.
Qed.
Lemma wake_ok count G n : generationOK count G -> generationOK count (setQueue G (wake (g_Queue G)) n (g_Pushed G)).
Proof. intros [Hq Hw Hc Hp Hm Hcy Ha]. split; cbn; try done. by left. Qed.
Lemma context_ok count G cancelled tip :
  generationOK count G -> (g_Cancelled G = true -> cancelled = true) -> generationOK count (setContext G cancelled tip).
Proof.
  intros [Hq Hw [Hc1 Hc2] Hp Hm Hcy Ha] Hcan. assert (cancelled = false -> g_Cancelled G = false) as Hnot.
  { intros ->. destruct (g_Cancelled G); [by specialize (Hcan eq_refl)|done]. }
  split; cbn; try done; [|split; auto|auto]. intros Hne. destruct (Hw Hne) as [?|[?|[?|[?|?]]]]; auto 6.
Qed.
Lemma cycle_ok count G running connection err cycles results :
  generationOK count G -> Forall (fun r : outcome * nat => (r.2 <= g_Pushed G)%nat) results ->
  generationOK count (setCycle G running (g_CyclePending G) connection err cycles results (g_Mark G)).
Proof. intros [Hq Hw Hc Hp [Hm Hr] Hcy Ha] Hres. by split. Qed.
Lemma finish_ok count g G s G' s' :
  generationOK count G -> finishCycle g G s = (G', s') -> generationOK count G'.
Proof.
  intros [Hq Hw Hc Hp [Hm Hr] Hcy Ha]. unfold finishCycle, startCycle. destruct (_ || _); [by intros [= <- <-]|].
  destruct (g_PendingConnection G); intros [= <- <-]; split; cbn; try done.
Qed.

(** ** What is recorded *)

Definition syncOK (s : ledgerSPVSync) : Prop :=
  (s_Ready s = true -> s_InitialTipDone s = true /\ (s_AddressRequired s = true -> (0 < s_AddressCycles s)%nat)) /\
  match s_ReadyDone s with
  | Some closed => closed = s_ReadySignaled s /\ (closed = true <-> s_Ready s = true \/ s_Running s = false)
  | None => s_Ready s = false /\ s_Running s = false /\ s_ReadySignaled s = false
  end.
(** A change that starts nothing and counts no updates. *)
Definition calm (s s' : ledgerSPVSync) : Prop :=
  s_Generation s' = s_Generation s /\ s_PendingHistories s' = s_PendingHistories s /\ (syncOK s -> syncOK s').
Lemma calm_refl s : calm s s.
Proof. done. Qed.
Lemma calm_trans s1 s2 s3 : calm s1 s2 -> calm s2 s3 -> calm s1 s3.
Proof. intros (? & ? & ?) (? & ? & ?). split; [congruence|]. split; [congruence|auto]. Qed.

Lemma maybeMark_calm s : calm s (maybeMarkReadyLocked s).
Proof.
  unfold maybeMarkReadyLocked. destruct (negb (s_Running s) || _ || _ || _ || _) eqn:E; [apply calm_refl|].
  rewrite !orb_false_iff in E. destruct E as ((((Hrun & Hready) & Htip) & _) & Hcycles). apply negb_false_iff in Hrun, Htip.
  split; [done|]. split; [done|]. intros [_ Hdone]. unfold syncOK, signalReadyWaitLocked. cbn.
  destruct (s_ReadyDone s) as [closed|] eqn:Ed; [|by destruct Hdone as (_ & Hr & _); rewrite Hrun in Hr]. rewrite orb_true_r.
  split.
  - intros _. split; [done|]. intros Hreq. rewrite Hreq in Hcycles. apply Nat.eqb_neq in Hcycles. lia.
  - rewrite bool_decide_eq_true_2 by done. destruct (s_ReadySignaled s); cbn; [|by split; [|split; [left|]]].
    destruct Hdone as [-> Hdone]. split; [done|]. split; auto.
Qed.
Lemma setAddressSyncing_calm g b s : calm s (setAddressSyncing g b s).
Proof. unfold setAddressSyncing. case_match; [|apply calm_refl]. done. Qed.
Lemma recordAddressUpdate_calm g err s : calm s (recordAddressUpdate g err s).
Proof. unfold recordAddressUpdate. case_match; [|apply calm_refl]. done. Qed.
Lemma recordAddressCycle_calm g err s : calm s (recordAddressCycle g err s).
Proof.
  unfold recordAddressCycle. case_match; [|apply calm_refl]. set (s' := setAddressFields _ _ _ _ _ _).
  assert (calm s s') as Hc.
  { split; [done|]. split; [done|]. intros [Hr Hd]. split; [|exact Hd]. cbn. intros Hready. destruct (Hr Hready) as [? _]. split; [done|]. lia. }
  eapply calm_trans; [exact Hc|apply maybeMark_calm].
Qed.
Lemma recordTip_calm g initial err s : calm s (recordTip g initial err s).
Proof.
  unfold recordTip. case_match; [|apply calm_refl]. set (s' := MkSync _ _ _ _ _ _ _ _ _ _ _ _ _ _ _).
  assert (calm s s') as Hc.
  { split; [done|]. split; [done|]. intros [Hr Hd]. split; [|exact Hd]. cbn. intros Hready. destruct (Hr Hready) as [-> ?]. done. }
  destruct initial; [|exact Hc]. eapply calm_trans; [exact Hc|apply maybeMark_calm].
Qed.
Lemma stopSync_calm s : calm s (stopSync s).
Proof.
  split; [done|]. split; [done|]. intros [Hr Hd]. unfold syncOK, stopSync, signalReadyWaitLocked. cbn. rewrite orb_false_r.
  split; [exact Hr|]. destruct (s_ReadyDone s) as [closed|]; cbn; [|by destruct Hd as (-> & _ & ->)].
  destruct Hd as [-> Hd]. destruct (s_ReadySignaled s); cbn; split; auto; split; auto.
Qed.
Lemma forgetSync_calm g s : calm s (forgetSync g s).
Proof. unfold forgetSync. case_match; [|apply calm_refl]. done. Qed.
Lemma finish_calm g (G G' : @Generation M) s s' : finishCycle g G s = (G', s') -> calm s s'.
Proof.
  unfold finishCycle, startCycle. destruct (_ || _); [intros [= <- <-]; apply calm_refl|].
  destruct (g_PendingConnection G); intros [= <- <-]; [|apply recordAddressCycle_calm].
  eapply calm_trans; [apply recordAddressCycle_calm|apply setAddressSyncing_calm].
Qed.

(** ** The system *)

Definition active (g : nat) (t : historyTask) : bool :=
  ofGeneration g t && match ht_Phase t with Reporting => false | _ => true end.
Definition activeOf (g : nat) (tasks : list historyTask) : nat := length (List.filter (active g) tasks).
Record systemOK (y : @system M) : Prop := {
  so_turns : turns (sys_Sequences y) (sys_Tasks y);
  so_generations : forall g G, sys_Generations y !! g = Some G -> generationOK (countOf g (sys_Tasks y)) G;
  so_tasks : Forall (fun t => is_Some (sys_Generations y !! ht_Generation t)) (sys_Tasks y);
  so_known : forall g, is_Some (sys_Generations y !! g) -> (g <= s_Generation (sys_Sync y))%nat;
  so_pending : s_PendingHistories (sys_Sync y) = Z.of_nat (activeOf (s_Generation (sys_Sync y)) (sys_Tasks y));
  so_sync : syncOK (sys_Sync y)
}.
Lemma countOf_middle g l1 t l2 : countOf g (l1 ++ t :: l2) = ((if ofGeneration g t then 1 else 0) + countOf g (l1 ++ l2))%nat.
Proof. unfold countOf. rewrite !List.filter_app, !length_app. cbn. destruct (ofGeneration g t); cbn; lia. Qed.
Lemma activeOf_middle g l1 t l2 : activeOf g (l1 ++ t :: l2) = ((if active g t then 1 else 0) + activeOf g (l1 ++ l2))%nat.
Proof. unfold activeOf. rewrite !List.filter_app, !length_app. cbn. destruct (active g t); cbn; lia. Qed.
Lemma countOf_phase g l1 t l2 phase : countOf g (l1 ++ setPhase t phase :: l2) = countOf g (l1 ++ t :: l2).
Proof. by rewrite !countOf_middle. Qed.
Lemma insert_known {A} (m : gmap nat A) g x k : is_Some (m !! g) -> is_Some (<[g := x]> m !! k) <-> is_Some (m !! k).
Proof. intros Hg. rewrite lookup_insert. case_decide; [subst; by split|done]. Qed.

Lemma system_generation y g G G' s' :
  systemOK y -> sys_Generations y !! g = Some G -> generationOK (countOf g (sys_Tasks y)) G' -> calm (sys_Sync y) s' ->
  systemOK (setGeneration y g G' s').
Proof.
  intros [Ht Hg Htasks Hk Hp Hs] HG HG' (Egen & Epen & Hs'). assert (is_Some (sys_Generations y !! g)) as Hsome by by rewrite HG.
  split; cbn; [done| | | | |auto].
  - intros g' G0 E. apply lookup_insert_Some in E as [[<- <-]|[_ E]]; [done|by apply Hg].
  - eapply Forall_impl; [exact Htasks|]. intros t. cbn. by rewrite (insert_known (sys_Generations y)).
  - intros g'. rewrite insert_known, Egen by done. apply Hk.
  - by rewrite Epen, Egen.
Qed.
Lemma system_calm y s' : systemOK y -> calm (sys_Sync y) s' -> systemOK (setTasks y s' (sys_Tasks y)).
Proof. intros [Ht Hg Htasks Hk Hp Hs] (Egen & Epen & Hs'). split; cbn; try done; [by rewrite Egen|by rewrite Epen, Egen|auto]. Qed.
Lemma enqueue_frame e (y : @system M) :
  sys_Sync (enqueue e y) = sys_Sync y /\ sys_Tasks (enqueue e y) = sys_Tasks y /\ sys_Sequences (enqueue e y) = sys_Sequences y.
Proof. unfold enqueue. repeat case_match; done. Qed.
Lemma enqueue_ok e y : systemOK y -> systemOK (enqueue e y).
Proof.
  intros Hy. unfold enqueue. destruct (s_Running _); [|done]. destruct (s_AddressUpdates _) as [updates|]; [|done].
  destruct (s_Context _) as [ctx|]; [|done]. destruct (sys_Generations y !! ctx) as [C|]; [|done].
  destruct (sys_Generations y !! updates) as [G|] eqn:E; [|done]. destruct (g_Cancelled C); [done|].
  apply (system_generation _ _ G); [done|done| |apply calm_refl]. by apply push_ok, so_generations.
Qed.
Lemma enqueueAll_ok es y : systemOK y -> systemOK (enqueueAll es y).
Proof. unfold enqueueAll. revert y. induction es as [|e es IH]; intros y Hy; [done|]. apply IH. by apply enqueue_ok. Qed.

(** A goroutine goes on: its phase changes, and the counts with it. *)
Lemma system_phase y l1 t l2 phase sequences s' :
  systemOK y -> sys_Tasks y = l1 ++ t :: l2 -> turns sequences (l1 ++ setPhase t phase :: l2) ->
  s_Generation s' = s_Generation (sys_Sync y) -> syncOK s' ->
  (s_PendingHistories s' = s_PendingHistories (sys_Sync y) +
    (if active (s_Generation (sys_Sync y)) (setPhase t phase) then 1 else 0) - (if active (s_Generation (sys_Sync y)) t then 1 else 0))%Z ->
  systemOK (MkSystem s' sequences (l1 ++ setPhase t phase :: l2) (sys_Generations y)).
Proof.
  intros [Ht Hg Htasks Hk Hp Hs] E Hturns Egen Hsync Epen. rewrite E in *. split; cbn [sys_Sync sys_Sequences sys_Tasks sys_Generations]; [done| | | | |done].
  - intros g G HG. rewrite countOf_phase. by apply Hg.
  - by apply (holding_replace _ l1 t); [exact Htasks|]; rewrite Forall_app, Forall_cons in Htasks; apply Htasks.
  - by rewrite Egen.
  - rewrite Epen, Hp, Egen, !activeOf_middle. destruct (active _ t), (active _ (setPhase t phase)); lia.
Qed.
(** A goroutine ends. *)
Lemma system_remove y l1 t l2 g G' s' G :
  systemOK y -> sys_Tasks y = l1 ++ t :: l2 -> ht_Phase t = Reporting -> ht_Generation t = g -> sys_Generations y !! g = Some G ->
  generationOK (countOf g (l1 ++ l2)) G' -> calm (sys_Sync y) s' ->
  systemOK (MkSystem s' (sys_Sequences y) (l1 ++ l2) (<[g := G']> (sys_Generations y))).
Proof.
  intros [Ht Hg Htasks Hk Hp Hs] E Hphase Egt HG HG' (Egen & Epen & Hs'). rewrite E in *.
  assert (is_Some (sys_Generations y !! g)) as Hsome by by rewrite HG. split; cbn; [| | | | |auto].
  - eapply turns_remove; [exact Ht|]. unfold outstanding. by rewrite Hphase.
  - intros g' G0 E0. apply lookup_insert_Some in E0 as [[<- <-]|[Hne E0]]; [done|]. specialize (Hg _ _ E0).
    rewrite countOf_middle in Hg. unfold ofGeneration in Hg at 1. destruct (Nat.eqb_spec (ht_Generation t) g'); [congruence|]. exact Hg.
  - rewrite Forall_app, Forall_cons in Htasks. apply Forall_app. destruct Htasks as (H1 & _ & H2).
    split; (eapply Forall_impl; [eassumption|]); intros t'; cbn; by rewrite (insert_known (sys_Generations y)).
  - intros g'. rewrite insert_known, Egen by done. apply Hk.
  - rewrite Epen, Hp, Egen, activeOf_middle. unfold active at 1. rewrite Hphase, andb_false_r. done.
Qed.
Lemma filter_none {A} (p : A -> bool) l : (forall x, x ∈ l -> p x = false) -> List.filter p l = [].
Proof.
  induction l as [|x l IH]; intros Hp; [done|]. cbn. rewrite (Hp x) by (by left). apply IH. intros y Hy. apply Hp. by right.
Qed.
Lemma start_ok hasTip hasAddress networkStarts (y : @system M) : systemOK y -> systemOK (startSync hasTip hasAddress networkStarts y).
Proof.
  intros [Ht Hg Htasks Hk Hp Hs]. unfold startSync. set (g := S (s_Generation (sys_Sync y))).
  assert (forall t, t ∈ sys_Tasks y -> ht_Generation t <> g) as Hold.
  { intros t Hin Eg. rewrite Forall_forall in Htasks. specialize (Hk _ (Htasks _ Hin)). lia. }
  assert (countOf g (sys_Tasks y) = 0%nat /\ activeOf g (sys_Tasks y) = 0%nat) as [Ec Ea].
  { assert (forall t, t ∈ sys_Tasks y -> ofGeneration g t = false) as Hno by (intros t Hin; apply Nat.eqb_neq; auto).
    unfold countOf, activeOf. rewrite (filter_none (ofGeneration g)) by exact Hno. rewrite (filter_none (active g)); [done|].
    intros t Hin. unfold active. by rewrite (Hno t Hin). }
  assert (forall cancelled worker, generationOK 0 (setWorker (newGeneration hasTip hasAddress cancelled) worker) ) as Hnew.
  { intros cancelled worker. split; cbn; try done. by left. }
  assert (forall G s', generationOK 0 G -> s_Generation s' = g -> s_PendingHistories s' = 0 -> syncOK s' -> systemOK (setGeneration y g G s')) as Hbuild.
  { intros G s' HG Egen Epen Hs'. split; cbn [setGeneration sys_Sync sys_Sequences sys_Tasks sys_Generations]; [done| | | | |done].
    - intros g' G0 E. apply lookup_insert_Some in E as [[<- <-]|[_ E]]; [by rewrite Ec|by apply Hg].
    - eapply Forall_impl; [exact Htasks|]. intros t Hsome. cbn. rewrite lookup_insert. case_decide; [done|done].
    - intros g' Hsome. rewrite Egen. rewrite lookup_insert in Hsome. case_decide; [lia|]. specialize (Hk _ Hsome). lia.
    - by rewrite Epen, Egen, Ea. }
  destruct networkStarts; apply Hbuild.
  - destruct hasAddress; [destruct hasTip|]; apply (Hnew false).
  - unfold maybeMarkReadyLocked. by case_match.
  - unfold maybeMarkReadyLocked. by case_match.
  - apply maybeMark_calm. split; cbn; [done|]. split; [done|]. split; [done|by intros [|]].
  - apply Hnew.
  - done.
  - done.
  - split; cbn; [done|]. split; [done|]. split; [by right|done].
Qed.

Lemma drain_ok count (G : @Generation M) e queue :
  generationOK count G -> g_Worker G = Draining -> Pop (g_Queue G) = Some (e, queue) ->
  generationOK count (setQueue G queue (g_Wakers G) (g_Pushed G)).
Proof.
  intros [Hq Hw Hc Hp Hm Hcy Ha] Hwork Hpop. destruct (Pop_Some _ _ _ Hq Hpop) as (Hq' & Eq & _).
  split; cbn; try done; [auto| |by rewrite Hwork]. rewrite Eq in Hp. cbn in Hp. lia.
Qed.
Lemma handle_ok g (G : @Generation M) e y :
  systemOK y -> is_Some (sys_Generations y !! g) -> generationOK (countOf g (sys_Tasks y)) G -> g_Cancelled G = false ->
  systemOK (handleEnvelope g G e y).
Proof.
  intros Hy [G0 HG0] HG Hcan. unfold handleEnvelope, startCycle. destruct (e_Connected e).
  { destruct (g_CycleRunning G) eqn:Er.
    - apply (system_generation _ _ G0); [done|done| |apply calm_refl]. apply cycle_ok; [done|apply HG].
    - apply (system_generation _ _ G0); [done|done| |apply setAddressSyncing_calm]. apply cycle_ok; [done|apply HG]. }
  unfold startHistoryUpdate. destruct (parseSPVAddressStatus _) as [[address status]|e0| |];
    [|by apply (system_generation _ _ G0); [| | |apply recordAddressUpdate_calm]..].
  destruct Hy as [Ht Hg Htasks Hk Hp Hs]. pose proof (turns_issue _ _ g address Ht) as Hturns.
  destruct (Issue _) as [sequence ticket]. assert (is_Some (sys_Generations y !! g)) as Hsome by by rewrite HG0.
  set (t := MkTask g address ticket Waiting) in *.
  assert (forall k, countOf k (sys_Tasks y ++ [t]) = ((if ofGeneration k t then 1 else 0) + countOf k (sys_Tasks y))%nat) as Ecount.
  { intros k. by rewrite countOf_middle, app_nil_r. }
  split; cbn [sys_Sync sys_Sequences sys_Tasks sys_Generations]; [done| | | | |].
  - intros k G1 E. rewrite Ecount. unfold ofGeneration. cbn [t ht_Generation].
    apply lookup_insert_Some in E as [[<- <-]|[Hne E]].
    + rewrite Nat.eqb_refl. destruct HG as [Hq Hw [Hc1 Hc2] Hpu Hm Hcy Ha]. split; cbn; try done. split; [lia|]. intros _. by rewrite Hc2.
    + destruct (Nat.eqb_spec g k); [congruence|]. by apply Hg.
  - apply Forall_app. split; [|constructor; [|constructor]].
    + eapply Forall_impl; [exact Htasks|]. intros t' Hsome'. cbn. by rewrite (insert_known (sys_Generations y)).
    + cbn. by rewrite lookup_insert, decide_True.
  - intros k. rewrite insert_known by done. unfold adjustPendingHistories. case_match; apply Hk.
  - unfold adjustPendingHistories. assert (forall k, activeOf k (sys_Tasks y ++ [t]) = ((if ofGeneration k t then 1 else 0) + activeOf k (sys_Tasks y))%nat) as Eact.
    { intros k. rewrite activeOf_middle, app_nil_r. unfold active. cbn. by rewrite andb_true_r. }
    destruct (Nat.eqb_spec (s_Generation (sys_Sync y)) g) as [E|Hne]; cbn [s_PendingHistories setAddressFields s_Generation]; rewrite Hp, Eact;
      unfold ofGeneration; cbn [t ht_Generation].
    + rewrite E, Nat.eqb_refl. lia.
    + destruct (Nat.eqb_spec g (s_Generation (sys_Sync y))); [congruence|done].
  - unfold adjustPendingHistories. by case_match.
Qed.

Lemma sync_step_ok (y y' : @system M) : systemOK y -> step y y' -> systemOK y'.
Proof.
  intros Hy Hstep. pose proof (so_generations _ Hy) as Hg. pose proof (so_turns _ Hy) as Ht. pose proof (so_sync _ Hy) as Hsync.
  destruct Hstep as [y ? ? ? Hrun|y g G Hrun Hctx HG|y g Hrun|y g G HG|y g G err HG Htip|y g G err HG Htip|y e|y g G n HG Hn
    |y g G es HG Hn|y g G n err HG Hn|y l1 l2 t El Hph Hturn|y t es Hin Hph|y l1 l2 t err El Hph|y l1 l2 t El Hph|y l1 l2 t El Hph
    |y l1 l2 t G El Hph HG Hcan|y g G HG Hw Htip|y g G HG Hw Hwake|y g G e queue HG Hw Hcan Hpop|y g G G' s HG Hw Hend Hf
    |y g G err mark results HG Hw Hr|y g G G' s l1 l2 t HG Hw El Egt Hph Hf|y g G HG Hw Hcan|y g G r results HG Hw Hrun Hr|y g G HG Hw Hrun Hall].
  - by apply start_ok.
  - apply (system_generation _ _ G); [done|done|apply context_ok; auto|apply stopSync_calm].
  - apply system_calm; [done|apply forgetSync_calm].
  - apply (system_generation _ _ G); [done|done|apply context_ok; auto|apply calm_refl].
  - apply (system_generation _ _ G); [done|done|apply context_ok; auto|apply recordTip_calm].
  - apply system_calm; [done|apply recordTip_calm].
  - by apply enqueue_ok.
  - apply (system_generation _ _ G); [done|done|by apply wake_ok, Hg|apply calm_refl].
  - by apply enqueueAll_ok.
  - apply (system_generation _ _ G); [done|done| |apply calm_refl]. apply cycle_ok; [by apply Hg|]. apply Forall_app. split; [by apply (Hg _ _ HG)|].
    by constructor.
  - rewrite El in Ht. apply (system_phase y l1 t l2 Updating); try done.
    + apply turns_phase; [done|unfold outstanding; by rewrite Hph|done].
    + unfold active. rewrite Hph. cbn. unfold ofGeneration. cbn. destruct (_ =? _)%nat; cbn; lia.
  - by apply enqueueAll_ok.
  - rewrite El in Ht. destruct (recordAddressUpdate_calm (ht_Generation t) err (sys_Sync y)) as (Eg & Ep & Hs).
    apply (system_phase y l1 t l2 Recorded); [done|done| |done|auto|].
    + apply turns_phase; [done|unfold outstanding; by rewrite Hph|]. intros _. destruct Ht as [_ Hh].
      rewrite Forall_app, Forall_cons in Hh. apply Hh. by left.
    + rewrite Ep. unfold active. rewrite Hph. unfold ofGeneration. cbn. destruct (_ =? _)%nat; cbn; lia.
  - rewrite El in Ht. apply (system_phase y l1 t l2 Released); try done; [by apply turns_done|].
    unfold active. rewrite Hph. unfold ofGeneration. cbn. destruct (_ =? _)%nat; cbn; lia.
  - rewrite El in Ht. apply (system_phase y l1 t l2 Reporting); [done|done| | | |].
    + apply turns_phase; [done|unfold outstanding; by rewrite Hph|by intros [|]].
    + unfold adjustPendingHistories. by case_match.
    + unfold adjustPendingHistories. by case_match.
    + pose proof (so_pending _ Hy) as Hp. rewrite El, activeOf_middle in Hp.
      unfold active in Hp |- *. rewrite Hph in Hp |- *. unfold ofGeneration, adjustPendingHistories in *. cbn [setPhase ht_Generation ht_Phase].
      rewrite andb_false_r, andb_true_r in *. rewrite (Nat.eqb_sym (s_Generation _)).
      destruct (Nat.eqb_spec (ht_Generation t) (s_Generation (sys_Sync y))); cbn [s_PendingHistories setAddressFields]; lia.
  - assert (setTasks y (sys_Sync y) (l1 ++ l2) = MkSystem (sys_Sync y) (sys_Sequences y) (l1 ++ l2) (<[ht_Generation t := G]> (sys_Generations y))) as ->
      by (unfold setTasks; by rewrite insert_id).
    apply (system_remove y l1 t l2 _ _ _ G); try done. specialize (Hg _ _ HG). rewrite El, countOf_middle in Hg.
    destruct Hg as [Hq Hwk [Hc1 Hc2] Hpu Hm Hcy Ha]. split; try done. split; [lia|]. by rewrite Hcan.
  - apply (system_generation _ _ G); [done|done| |apply calm_refl]. destruct (Hg _ _ HG) as [Hq Hwk Hc Hpu Hm Hcy Ha].
    split; cbn; try done; [|by rewrite (Ha Hw)]. intros Hne. destruct (Hwk Hne) as [?|[?|[?|[?|?]]]]; auto 6; congruence.
  - apply (system_generation _ _ G); [done|done| |apply calm_refl]. destruct (Hg _ _ HG) as [Hq Hwk Hc Hpu Hm Hcy Ha].
    split; cbn; try done; auto.
  - apply handle_ok; [done|by rewrite HG| |done]. by eapply drain_ok; [apply Hg| |].
  - apply (system_generation _ _ G); [done|done| |by eapply finish_calm]. eapply finish_ok; [|exact Hf].
    destruct (Hg _ _ HG) as [Hq Hwk Hc Hpu [Hm Hmr] Hcy Ha]. assert (g_Cancelled G = true \/ queued (g_Queue G) = []) as Hdone.
    { destruct Hend as [|Hpop]; [by left|right; by apply Pop_None]. }
    split; cbn; try done.
    + intros Hne. destruct Hdone; [auto 6|done].
    + intros _ _ Hcan. destruct Hdone as [|E]; [congruence|]. rewrite E. cbn. lia.
  - apply (system_generation _ _ G); [done|done| |apply calm_refl]. destruct (Hg _ _ HG) as [Hq Hwk Hc Hpu [Hm Hmr] Hcy Ha].
    rewrite Hr in Hmr. inversion_clear Hmr as [|? ? Hm1 Hm2]. split; cbn; try done; auto.
  - assert (setTasks (setGeneration y g G' s) s (l1 ++ l2) = MkSystem s (sys_Sequences y) (l1 ++ l2) (<[g := G']> (sys_Generations y))) as -> by done.
    apply (system_remove y l1 t l2 _ _ _ G); try done; [|by eapply finish_calm]. eapply finish_ok; [|exact Hf].
    specialize (Hg _ _ HG). rewrite El, countOf_middle in Hg. unfold ofGeneration in Hg at 1. rewrite Egt, Nat.eqb_refl in Hg.
    destruct Hg as [Hq Hwk [Hc1 Hc2] Hpu Hm Hcy Ha]. split; cbn; try done. split; [lia|]. intros Hcan. rewrite (Hc2 Hcan). lia.
  - apply (system_generation _ _ G); [done|done| |apply calm_refl]. destruct (Hg _ _ HG) as [Hq Hwk Hc Hpu Hm Hcy Ha].
    split; cbn; try done; auto 6.
  - apply (system_generation _ _ G); [done|done| |apply calm_refl]. apply cycle_ok; [by apply Hg|].
    destruct (Hg _ _ HG) as [_ _ _ _ [_ Hmr] _ _]. rewrite Hr in Hmr. by inversion_clear Hmr.
  - apply (system_generation _ _ G); [done|done| |apply setAddressSyncing_calm]. destruct (Hg _ _ HG) as [Hq Hwk Hc Hpu Hm Hcy Ha].
    split; cbn; try done; auto 6.
Qed.
Lemma sync_initial_ok : systemOK (@initialSystem M).
Proof. split; cbn; try done. intros g Hg. rewrite lookup_empty in Hg. by destruct Hg. Qed.
Lemma sync_reachable_ok (y : @system M) : reachable y -> systemOK y.
Proof.
  unfold reachable. intros Hr. enough (forall y0 : @system M, rtc step y0 y -> systemOK y0 -> systemOK y) as Henough by (by apply (Henough initialSystem); [|apply sync_initial_ok]).
  induction 1; [done|]. intros Hy. eauto using sync_step_ok.
Qed.

(** ** Theorems *)

Lemma tickets_lookup address tasks i t :
  tasks !! i = Some t -> ofAddress address t = true ->
  tickets address tasks !! length (tickets address (take i tasks)) = Some (ht_Ticket t).
Proof.
  intros Hi Hof. pose proof (take_drop_middle _ _ _ Hi) as E. set (before := take i tasks) in *. rewrite <- E. rewrite tickets_app, tickets_cons, Hof.
  by apply (list_lookup_middle (tickets address before)).
Qed.
Lemma tickets_before address tasks i j t :
  tasks !! i = Some t -> ofAddress address t = true -> (i < j)%nat ->
  (length (tickets address (take i tasks)) < length (tickets address (take j tasks)))%nat.
Proof.
  intros Hi Hof Hij. assert (take j tasks = take i tasks ++ t :: take (j - S i) (drop (S i) tasks)) as ->.
  { rewrite <- (take_drop_middle _ _ _ Hi) at 1. pose proof (lookup_lt_Some _ _ _ Hi).
    assert (length (take i tasks) = i) as El by (rewrite length_take; lia).
    rewrite take_app, El, take_ge by (rewrite El; lia). f_equal. destruct (j - i)%nat as [|k] eqn:E; [lia|]. cbn. do 2 f_equal. lia. }
  rewrite tickets_app, tickets_cons, Hof, !length_app. cbn. lia.
Qed.

(** C14: the updates of an address take turns.  Whatever the notifications, cycles,
    failures, stops and restarts, of the goroutines that are at the update of one
    address, in all generations together, at most one holds the turn; they get it
    in the order in which the worker took their statuses from the queue; and while
    one waits there is one that holds the turn, or may take it. *)
Theorem updates_take_turns (y : @system M) :
  reachable y ->
  (forall i j t u, sys_Tasks y !! i = Some t -> sys_Tasks y !! j = Some u -> ht_Address t = ht_Address u ->
     holding t -> holding u -> i = j) /\
  (forall i j t u, sys_Tasks y !! i = Some t -> sys_Tasks y !! j = Some u -> ht_Address t = ht_Address u ->
     outstanding t = true -> holding u -> (j <= i)%nat) /\
  (forall t, t ∈ sys_Tasks y -> ht_Phase t = Waiting ->
     exists u, u ∈ sys_Tasks y /\ ht_Address u = ht_Address t /\
       (holding u \/ ht_Phase u = Waiting /\ ht_Ticket u = sq_Running (sequenceOf (sys_Sequences y) (ht_Address u)))).
Proof.
  intros Hr. destruct (so_turns _ (sync_reachable_ok _ Hr)) as [Ht Hh]. rewrite Forall_forall in Hh.
  assert (forall i j t u, sys_Tasks y !! i = Some t -> sys_Tasks y !! j = Some u -> ht_Address t = ht_Address u ->
     outstanding t = true -> holding u -> (j <= i)%nat) as Hfirst.
  { intros i j t u Hi Hj Ea Ho Hu. destruct (decide (j <= i)%nat) as [|Hlt]; [done|exfalso].
    assert (ofAddress (ht_Address t) t = true) as Hot by (unfold ofAddress; by rewrite Ho, bool_decide_eq_true_2).
    assert (ofAddress (ht_Address t) u = true) as Hou.
    { unfold ofAddress, outstanding. rewrite Ea, bool_decide_eq_true_2 by done. by destruct Hu as [-> | ->]. }
    pose proof (tickets_before _ _ _ j _ Hi Hot ltac:(lia)) as Hb. pose proof (tickets_lookup _ _ _ _ Hj Hou) as Hl.
    destruct (Ht (ht_Address t)) as [_ E]. rewrite E in Hl. apply lookup_seq in Hl as [Hl _].
    rewrite (Hh u (list_elem_of_lookup_2 _ _ _ Hj) Hu), <- Ea in Hl. lia. }
  split; [|split; [done|]].
  - intros i j t u Hi Hj Ea Hti Hu. assert (forall v, holding v -> outstanding v = true) as Hout.
    { intros v Hv. unfold outstanding. by destruct Hv as [-> | ->]. }
    apply Nat.le_antisymm; [by apply (Hfirst j i u t); auto|by apply (Hfirst i j t u); auto].
  - intros t Hin Hw. destruct (Ht (ht_Address t)) as [_ E].
    assert (ht_Ticket t ∈ tickets (ht_Address t) (sys_Tasks y)) as Hin'.
    { unfold tickets. apply list_elem_of_fmap_2, list_elem_of_In, filter_In. rewrite <- list_elem_of_In. split; [done|].
      unfold ofAddress, outstanding. by rewrite Hw, bool_decide_eq_true_2. }
    assert (sq_Running (sequenceOf (sys_Sequences y) (ht_Address t)) ∈ tickets (ht_Address t) (sys_Tasks y)) as Hrun.
    { rewrite E in Hin' |- *. apply elem_of_seq in Hin'. apply elem_of_seq. lia. }
    unfold tickets in Hrun. apply list_elem_of_fmap in Hrun as (u & Eu & Hu). apply list_elem_of_In, filter_In in Hu as [Hu Hof].
    apply list_elem_of_In in Hu. unfold ofAddress in Hof. apply andb_true_iff in Hof as [Ha%bool_decide_eq_true Ho].
    exists u. split; [done|]. split; [done|]. unfold outstanding in Ho. unfold holding. destruct (ht_Phase u); try done; auto.
    right. split; [done|]. by rewrite Ha.
Qed.

(** No status is forgotten and what is pending is what is counted.  When the
    queue of a generation that goes on is not empty, its worker is taking from it,
    or is told to, or somebody is about to tell it; the worker's count of updates is
    that of its goroutines; and the ledger's count is that of the goroutines of its
    generation that have not finished. *)
Theorem nothing_forgotten (y : @system M) :
  reachable y ->
  s_PendingHistories (sys_Sync y) = Z.of_nat (activeOf (s_Generation (sys_Sync y)) (sys_Tasks y)) /\
  forall g G, sys_Generations y !! g = Some G -> g_Cancelled G = false ->
    g_PendingHistories G = countOf g (sys_Tasks y) /\
    (g_Worker G = Selecting -> queued (g_Queue G) <> [] -> q_Wake (g_Queue G) = true \/ (0 < g_Wakers G)%nat).
Proof.
  intros Hr. pose proof (sync_reachable_ok _ Hr) as Hy. split; [apply Hy|]. intros g G HG Hcan.
  destruct (so_generations _ Hy _ _ HG) as [_ Hw [_ Hc] _ _ _ _]. split; [by apply Hc|]. intros Hsel Hne.
  destruct (Hw Hne) as [?|[?|[?|[?|?]]]]; auto; congruence.
Qed.

Lemma finish_cycles g (G G' : @Generation M) s s' :
  finishCycle g G s = (G', s') -> s_AddressCycles s' = S (s_AddressCycles s) ->
  s_Generation s = g /\ g_CyclePending G = true /\ g_PendingHistories G = 0%nat.
Proof.
  unfold finishCycle, startCycle. destruct (g_CyclePending G); cbn [negb orb]; [|intros [= <- <-]; lia].
  destruct (Nat.eqb_spec (g_PendingHistories G) 0) as [E|]; cbn [negb]; [|intros [= <- <-]; lia].
  assert (s_AddressCycles (recordAddressCycle g (g_CycleErr G) s) = S (s_AddressCycles s) -> s_Generation s = g) as Hgen.
  { unfold recordAddressCycle. destruct (Nat.eqb_spec (s_Generation s) g); [done|lia]. }
  destruct (g_PendingConnection G); intros [= <- <-]; [|auto].
  unfold setAddressSyncing. case_match; cbn; auto.
Qed.
Lemma enqueueAll_sync es (y : @system M) : sys_Sync (enqueueAll es y) = sys_Sync y.
Proof. unfold enqueueAll. revert y. induction es as [|e es IH]; intros y; [done|]. cbn. rewrite IH. apply enqueue_frame. Qed.
(** Only the end of a cycle is counted. *)
Ltac same_cycles :=
  exfalso; cbn in *;
  unfold recordTip, forgetSync, maybeMarkReadyLocked, setAddressSyncing, adjustPendingHistories, recordAddressUpdate in *;
  repeat case_match; cbn in *; lia.
Lemma handle_cycles g (G : @Generation M) e y : s_AddressCycles (sys_Sync (handleEnvelope g G e y)) = s_AddressCycles (sys_Sync y).
Proof.
  unfold handleEnvelope, startHistoryUpdate, startCycle, setAddressSyncing, adjustPendingHistories, recordAddressUpdate.
  by repeat case_match.
Qed.

(** C15: a cycle is recorded, and with it a wallet that waits for its addresses
    becomes ready, only when it is over.  Whenever the number of cycles of a
    generation goes up, the worker holds the result of one; and unless its context
    was cancelled, every status that had been pushed before that result was sent
    has been taken from the queue, and no goroutine for a status is left. *)
Theorem cycle_complete (y y' : @system M) :
  reachable y -> step y y' ->
  s_AddressCycles (sys_Sync y') = S (s_AddressCycles (sys_Sync y)) ->
  let g := s_Generation (sys_Sync y) in
  exists G, sys_Generations y !! g = Some G /\ (g_CyclePending G = true) /\
    (g_Cancelled G = false ->
       (g_Mark G + length (queued (g_Queue G)) <= g_Pushed G)%nat /\ forall t, t ∈ sys_Tasks y' -> ht_Generation t <> g).
Proof.
  intros Hr Hstep. pose proof (sync_reachable_ok _ Hr) as Hy. pose proof (sync_reachable_ok _ (rtc_r _ _ _ Hr Hstep)) as Hy'. cbv zeta.
  assert (forall count g, count = countOf g (sys_Tasks y') -> count = 0%nat -> forall t, t ∈ sys_Tasks y' -> ht_Generation t <> g) as Hnone.
  { intros count g -> E t Hin Eg. unfold countOf in E. apply length_zero_iff_nil in E.
    assert (t ∈ List.filter (ofGeneration g) (sys_Tasks y')) as Hf.
    { apply list_elem_of_In, filter_In. rewrite <- list_elem_of_In. split; [done|]. by apply Nat.eqb_eq. }
    rewrite E in Hf. by apply not_elem_of_nil in Hf. }
  destruct Hstep as [y ? ? ? Hrun|y g G Hrun Hctx HG|y g Hrun|y g G HG|y g G err HG Htip|y g G err HG Htip|y e|y g G n HG Hn
    |y g G es HG Hn|y g G n err HG Hn|y l1 l2 t El Hph Hturn|y t es Hin Hph|y l1 l2 t err El Hph|y l1 l2 t El Hph|y l1 l2 t El Hph
    |y l1 l2 t G El Hph HG Hcan|y g G HG Hw Htip|y g G HG Hw Hwake|y g G e queue HG Hw Hcan Hpop|y g G G' s HG Hw Hend Hf
    |y g G err mark results HG Hw Hres|y g G G' s l1 l2 t HG Hw El Egt Hph Hf|y g G HG Hw Hcan|y g G r results HG Hw Hrun Hres|y g G HG Hw Hrun Hall].
  all: intros Hinc.
  all: try (same_cycles).
  - exfalso. unfold startSync, maybeMarkReadyLocked in Hinc. repeat case_match; cbn in *; lia.
  - exfalso. rewrite (proj1 (enqueue_frame e y)) in Hinc. lia.
  - exfalso. rewrite enqueueAll_sync in Hinc. lia.
  - exfalso. rewrite enqueueAll_sync in Hinc. lia.
  - exfalso. rewrite handle_cycles in Hinc. lia.
  - cbn in Hinc. destruct (finish_cycles _ _ _ _ _ Hf Hinc) as (-> & Hcp & Hzero). exists G. split; [done|]. split; [exact Hcp|]. intros Hcan.
    destruct (so_generations _ Hy _ _ HG) as [Hq _ [_ Hc] _ [Hm _] _ _]. split.
    + destruct Hend as [|Hpop]; [congruence|]. rewrite (Pop_None _ Hq Hpop). cbn. lia.
    + apply (Hnone (countOf g (sys_Tasks y))); [done|]. rewrite <- (Hc Hcan). exact Hzero.
  - cbn in Hinc. destruct (finish_cycles _ _ _ _ _ Hf Hinc) as (Egen & Hcp & Hzero). rewrite Egen. exists G. split; [done|]. split; [exact Hcp|].
    intros Hcan. destruct (so_generations _ Hy _ _ HG) as [Hq _ [_ Hc] _ [Hm _] Hcy _]. split; [by apply Hcy|].
    apply (Hnone (countOf g (l1 ++ l2))); [done|]. specialize (Hc Hcan). rewrite El, countOf_middle in Hc. unfold ofGeneration in Hc at 1.
    rewrite Egt, Nat.eqb_refl in Hc. cbn in Hzero. lia.
Qed.

Lemma maybeMark_ready s : s_Ready s = true -> s_Ready (maybeMarkReadyLocked s) = true.
Proof. intros Hr. unfold maybeMarkReadyLocked. case_match; [done|]. cbn. apply orb_true_r. Qed.
Lemma recordTip_ready g initial err s : s_Ready s = true -> s_Ready (recordTip g initial err s) = true.
Proof. intros Hr. unfold recordTip. case_match; [|done]. destruct initial; [by apply maybeMark_ready|done]. Qed.
Lemma finish_ready g (G G' : @Generation M) s s' : finishCycle g G s = (G', s') -> s_Ready s = true -> s_Ready s' = true.
Proof.
  intros Hf Hr. assert (s_Ready (recordAddressCycle g (g_CycleErr G) s) = true) as Hrec.
  { unfold recordAddressCycle. case_match; [by apply maybeMark_ready|done]. }
  unfold finishCycle, startCycle in Hf. destruct (_ || _); [by injection Hf as <- <-|].
  destruct (g_PendingConnection G); injection Hf as <- <-; [|done]. unfold setAddressSyncing. by case_match.
Qed.
Lemma handle_ready g (G : @Generation M) e y : s_Ready (sys_Sync (handleEnvelope g G e y)) = s_Ready (sys_Sync y).
Proof.
  unfold handleEnvelope, startHistoryUpdate, startCycle, setAddressSyncing, adjustPendingHistories, recordAddressUpdate.
  by repeat case_match.
Qed.

End order.

(** ** Concrete runs *)

(** A ledger that follows addresses and not the tip, with one generation. *)
Definition runs (s : ledgerSPVSync) (sequences : gmap bytes addressUpdateSequence) (tasks : list historyTask)
    (G : @Generation unit) : @system unit := MkSystem s sequences tasks {[1%nat := G]}.
Definition started (cycles : nat) (syncing : bool) (pending : Z) (ready : bool) : ledgerSPVSync :=
  MkSync true (Some 1%nat) true Succeeded (Some 1%nat) None cycles 0 syncing pending true ready (Some ready) ready 1.
Definition worker (queue : list (@spvAddressEnvelope unit)) (head : nat) (token : bool) (wakers : nat) (phase : workerPhase) (pending : nat) (running over : bool)
    (cycles : nat) (results : list (outcome * nat)) (pushed mark : nat) : @Generation unit :=
  MkGeneration (MkQueue queue head token) wakers false None phase pending running over false Succeeded cycles results pushed mark.
Definition connected : @spvAddressEnvelope unit := MkEnvelope true JNull None.
Definition changed : @spvAddressEnvelope unit := statusOf None (lit "a") JNull.

Lemma advance (y y' y'' : @system unit) : reachable y -> step y y'' -> y'' = y' -> reachable y'.
Proof. intros Hr Hs <-. by eapply rtc_r. Qed.
Lemma runs_generation s sequences tasks G : sys_Generations (runs s sequences tasks G) !! 1%nat = Some G.
Proof. apply lookup_singleton_eq. Qed.
Lemma runs_set s sequences tasks G G' s' : setGeneration (runs s sequences tasks G) 1 G' s' = runs s' sequences tasks G'.
Proof. unfold setGeneration, runs. cbn. by rewrite insert_singleton_eq. Qed.
Lemma runs_start : reachable (runs (started 0 false 0 false) ∅ [] (worker [] 0 false 0 Selecting 0 false false 0 [] 0 0)).
Proof. eapply advance; [by apply rtc_refl|by apply (step_start _ false true true)|done]. Qed.
Lemma runs_notify s sequences tasks G e :
  s_Running s = true -> s_Context s = Some 1%nat -> s_AddressUpdates s = Some 1%nat -> g_Cancelled G = false ->
  reachable (runs s sequences tasks G) -> reachable (runs s sequences tasks (pushTo G e)).
Proof.
  intros H1 H2 H3 H4 Hr. eapply advance; [exact Hr|apply (step_notify _ e)|]. unfold enqueue. cbn [sys_Sync runs].
  by rewrite H1, H2, H3, runs_generation, H4, runs_set.
Qed.
Lemma runs_wake s sequences tasks G n :
  g_Wakers G = S n -> reachable (runs s sequences tasks G) ->
  reachable (runs s sequences tasks (setQueue G (wake (g_Queue G)) n (g_Pushed G))).
Proof. intros H1 Hr. eapply advance; [exact Hr|eapply step_wake; [apply runs_generation|exact H1]|apply runs_set]. Qed.
Lemma runs_woken s sequences tasks G :
  g_Worker G = Selecting -> q_Wake (g_Queue G) = true -> reachable (runs s sequences tasks G) ->
  reachable (runs s sequences tasks (setWorker (setQueue G (unwake (g_Queue G)) (g_Wakers G) (g_Pushed G)) Draining)).
Proof. intros H1 H2 Hr. eapply advance; [exact Hr|eapply step_woken; [apply runs_generation|done|done]|apply runs_set]. Qed.
Lemma runs_drain s sequences tasks G e queue y' :
  g_Worker G = Draining -> g_Cancelled G = false -> Pop (g_Queue G) = Some (e, queue) ->
  handleEnvelope 1 (setQueue G queue (g_Wakers G) (g_Pushed G)) e (runs s sequences tasks G) = y' ->
  reachable (runs s sequences tasks G) -> reachable y'.
Proof. intros H1 H2 H3 H4 Hr. eapply advance; [exact Hr|eapply step_drain; [apply runs_generation|done|done|exact H3]|exact H4]. Qed.
Lemma runs_drained s sequences tasks G G' s' :
  g_Worker G = Draining -> Pop (g_Queue G) = None -> finishCycle 1 (setWorker G Selecting) s = (G', s') ->
  step (runs s sequences tasks G) (runs s' sequences tasks G').
Proof.
  intros H1 H2 H3. rewrite <- (runs_set s sequences tasks G G' s'). eapply step_drained; [apply runs_generation|done|by right|exact H3].
Qed.
Lemma runs_cycle_ends s sequences tasks G n err :
  g_Cycles G = S n -> reachable (runs s sequences tasks G) ->
  reachable (runs s sequences tasks (setCycle G (g_CycleRunning G) (g_CyclePending G) (g_PendingConnection G) (g_CycleErr G) n
      (g_Results G ++ [(err, g_Pushed G)]) (g_Mark G))).
Proof. intros H1 Hr. eapply advance; [exact Hr|eapply step_cycle_ends; [apply runs_generation|done]|apply runs_set]. Qed.
Lemma runs_result s sequences tasks G err mark results :
  g_Worker G = Selecting -> g_Results G = (err, mark) :: results -> reachable (runs s sequences tasks G) ->
  reachable (runs s sequences tasks (setWorker (setCycle G false true (g_PendingConnection G) err (g_Cycles G) results mark) Draining)).
Proof. intros H1 H2 Hr. eapply advance; [exact Hr|eapply step_result; [apply runs_generation|done|exact H2]|apply runs_set]. Qed.

(** A status of the one address, whose tickets are these. *)
Definition ticketsOf (n : nat) : gmap bytes addressUpdateSequence := {[lit "a" := MkSequence n 0]}.
Lemma runs_changed s n tasks G G0 :
  handleEnvelope 1 G changed (runs s (ticketsOf n) tasks G0) =
  runs (adjustPendingHistories 1 1 s) (ticketsOf (S n)) (tasks ++ [MkTask 1 (lit "a") n Waiting]) (setPending G (S (g_PendingHistories G))).
Proof.
  unfold handleEnvelope, startHistoryUpdate, changed, statusOf, ticketsOf, runs. cbn [e_Connected e_Params parseSPVAddressStatus sys_Sequences].
  unfold sequenceOf. rewrite lookup_singleton_eq. cbn [Issue sq_Issued sq_Running default sys_Sync sys_Tasks sys_Generations].
  by rewrite !insert_singleton_eq.
Qed.
Lemma runs_first s tasks G G0 :
  handleEnvelope 1 G changed (runs s ∅ tasks G0) =
  runs (adjustPendingHistories 1 1 s) (ticketsOf 1) (tasks ++ [MkTask 1 (lit "a") 0 Waiting]) (setPending G (S (g_PendingHistories G))).
Proof.
  unfold handleEnvelope, startHistoryUpdate, changed, statusOf, ticketsOf, runs. cbn [e_Connected e_Params parseSPVAddressStatus sys_Sequences].
  unfold sequenceOf. rewrite lookup_empty. cbn [Issue sq_Issued sq_Running default sys_Sync sys_Tasks sys_Generations].
  by rewrite insert_singleton_eq.
Qed.
(** Two statuses of one address are taken: two goroutines wait for their turns. *)
Definition twoWaiting : @system unit :=
  runs (started 0 false 2 false) (ticketsOf 2) [MkTask 1 (lit "a") 0 Waiting; MkTask 1 (lit "a") 1 Waiting]
    (worker [] 0 false 0 Draining 2 false false 0 [] 2 0).
Lemma two_waiting : reachable twoWaiting.
Proof.
  pose proof runs_start as Hr. apply (runs_notify _ _ _ _ changed), (runs_notify _ _ _ _ changed) in Hr; try done.
  eapply runs_wake in Hr; [|done]. apply runs_woken in Hr; [|done|done].
  eapply runs_drain in Hr; [|done|done|done|apply runs_first].
  eapply runs_drain in Hr; [|done|done|done|apply runs_changed]. exact Hr.
Qed.
(** A connection is taken and its cycle has returned: the next step records it. *)
Definition cycleReturned : @system unit := runs (started 0 true 0 false) ∅ [] (worker [] 0 false 0 Draining 0 false true 0 [] 1 1).
Definition cycleRecorded : @system unit := runs (started 1 false 0 true) ∅ [] (worker [] 0 false 0 Selecting 0 false false 0 [] 1 1).
Lemma cycle_returned : reachable cycleReturned.
Proof.
  pose proof runs_start as Hr. apply (runs_notify _ _ _ _ connected) in Hr; try done.
  eapply runs_wake in Hr; [|done]. apply runs_woken in Hr; [|done|done].
  eapply runs_drain in Hr; [|done|done|done|apply runs_set].
  eapply advance in Hr; [|eapply runs_drained; done|done].
  eapply (runs_cycle_ends _ _ _ _ _ Succeeded) in Hr; [|done].
  eapply runs_result in Hr; [|done|done]. exact Hr.
Qed.
Lemma cycle_recorded : step cycleReturned cycleRecorded.
Proof. by apply runs_drained. Qed.

Lemma updates_take_turns_witness :
  exists y : @system unit, sys_Tasks y = [MkTask 1 (lit "a") 0 Waiting; MkTask 1 (lit "a") 1 Waiting] /\
  forall i j t u, sys_Tasks y !! i = Some t -> sys_Tasks y !! j = Some u -> ht_Address t = ht_Address u ->
    holding t -> holding u -> i = j.
Proof. exists twoWaiting. split; [reflexivity|]. apply (updates_take_turns twoWaiting). apply two_waiting. Defined.
Lemma nothing_forgotten_witness :
  s_PendingHistories (sys_Sync twoWaiting) = 2 /\
  s_PendingHistories (sys_Sync twoWaiting) = Z.of_nat (activeOf (s_Generation (sys_Sync twoWaiting)) (sys_Tasks twoWaiting)).
Proof. split; [reflexivity|]. apply (nothing_forgotten twoWaiting). apply two_waiting. Defined.
Lemma cycle_complete_witness :
  s_AddressCycles (sys_Sync cycleRecorded) = 1%nat /\
  exists G, sys_Generations cycleReturned !! 1%nat = Some G /\ g_CyclePending G = true /\
    (g_Cancelled G = false ->
       (g_Mark G + length (queued (g_Queue G)) <= g_Pushed G)%nat /\
       forall t, t ∈ sys_Tasks cycleRecorded -> ht_Generation t <> 1%nat).
Proof.
  split; [reflexivity|]. apply (cycle_complete cycleReturned cycleRecorded); [apply cycle_returned|apply cycle_recorded|reflexivity].
Defined.
