(* ===== verification/WalletObject.v ===== *)
(** * Ordered objects

    Model of [wallet/object.go]: an object keeps the members of a JSON object in
    the order in which they were inserted, with an index from the keys to their
    positions.  The well-formedness of an object is that the index is exact; every
    operation keeps it, and does to the list of members what the ordered
    dictionaries of Python do. *)

From S2P Require Import Prelude Bencode.

Section object.
Context {A : Type}.

(** A member is its key and its value. *)
Record Object := MkObject { o_members : list (bytes * A); o_index : gmap bytes nat }.
Definition emptyObject : Object := MkObject [] ∅.
(** The index leads to a position of the members. *)
Definition Get (object : Object) (key : bytes) : option A :=
  index ← o_index object !! key; snd <$> o_members object !! index.
Definition Set_ (object : Object) (key : bytes) (value : A) : Object :=
  match o_index object !! key with
  | Some index => MkObject (<[index := (key, value)]> (o_members object)) (o_index object)
  | None => MkObject (o_members object ++ [(key, value)]) (<[key := length (o_members object)]> (o_index object))
  end.
Definition NewObject (members : list (bytes * A)) : Object :=
  fold_left (fun object member => Set_ object member.1 member.2) members emptyObject.
(** The loop that gives the members from a position on their new places. *)
Fixpoint reindex (position : nat) (members : list (bytes * A)) (index : gmap bytes nat) : gmap bytes nat :=
  match members with
  | [] => index
  | member :: members => reindex (S position) members (<[member.1 := position]> index)
  end.
Definition Delete (object : Object) (key : bytes) : Object * bool :=
  match o_index object !! key with
  | None => (object, false)
  | Some index =>
      let members := take index (o_members object) ++ drop (S index) (o_members object) in
      (MkObject members (reindex index (drop index members) (delete key (o_index object))), true)
  end.
Definition Keys (object : Object) : list bytes := map fst (o_members object).
Definition Len (object : Object) : nat := length (o_members object).
Definition ShallowCopy (object : Object) : Object := NewObject (o_members object).
Definition hasSameKeys (object other : Object) : bool :=
  (Len object =? Len other)%nat && forallb (fun member => bool_decide (is_Some (Get other member.1))) (o_members object).

(** ** Well-formed objects *)

(** The index is exact: each key is at its position and nowhere else. *)
Definition objectOK (object : Object) : Prop :=
  forall key position, o_index object !! key = Some position <-> exists value, o_members object !! position = Some (key, value).

(** ** What the operations do to the members *)

Definition memberOf (members : list (bytes * A)) (key : bytes) : option A := mapLookup key members.
Definition setMember (members : list (bytes * A)) (key : bytes) (value : A) : list (bytes * A) := mapInsert key value members.
Definition deleteMember (members : list (bytes * A)) (key : bytes) : list (bytes * A) :=
  List.filter (fun member => negb (bool_decide (member.1 = key))) members.

Lemma empty_ok : objectOK emptyObject.
Proof. intros key position. cbn. rewrite lookup_empty. split; [done|by intros [? ?]]. Qed.
Lemma ok_nodup object : objectOK object -> NoDup (Keys object).
Proof.
  intros Hok. apply NoDup_alt. intros i j key Hi Hj. unfold Keys in *. rewrite list_lookup_fmap in Hi, Hj.
  apply fmap_Some in Hi as ([k v] & Hi & ->), Hj as ([k' v'] & Hj & E). cbn in E. subst k'.
  assert (o_index object !! k = Some i) as E1 by (apply Hok; eauto).
  assert (o_index object !! k = Some j) as E2 by (apply Hok; eauto). congruence.
Qed.
Lemma mapLookup_at (members : list (bytes * A)) key value position :
  NoDup (map fst members) -> members !! position = Some (key, value) -> mapLookup key members = Some value.
Proof.
  revert position. induction members as [|[k v] members IH]; intros position Hnd Hp; [done|]. cbn in Hnd. apply NoDup_cons in Hnd as [Hk Hnd].
  destruct position as [|position]; cbn in Hp |- *.
  - injection Hp as -> ->. by rewrite decide_True.
  - rewrite decide_False; [by eapply IH|]. intros ->. apply Hk. apply list_elem_of_fmap. exists (k, value). split; [done|].
    by apply list_elem_of_lookup_2 in Hp.
Qed.
Lemma mapLookup_in (members : list (bytes * A)) key value : mapLookup key members = Some value -> (key, value) ∈ members.
Proof.
  induction members as [|[k v] members IH]; cbn; [done|]. destruct (decide (key = k)) as [->|].
  - intros [= ->]. by left.
  - intros E. right. by apply IH.
Qed.
Lemma mapLookup_none (members : list (bytes * A)) key : key ∉ map fst members -> mapLookup key members = None.
Proof.
  induction members as [|[k v] members IH]; cbn; [done|]. rewrite elem_of_cons. intros Hn. rewrite decide_False by (intros ->; auto). auto.
Qed.
Lemma index_none object key : objectOK object -> o_index object !! key = None <-> key ∉ Keys object.
Proof.
  intros Hok. split.
  - intros En Hin. apply list_elem_of_fmap in Hin as ([k v] & -> & Hin). apply list_elem_of_lookup in Hin as [i Hi].
    assert (o_index object !! k = Some i) by (apply Hok; eauto). cbn in En. congruence.
  - intros Hn. destruct (o_index object !! key) as [i|] eqn:E; [|done]. apply Hok in E as [v Hv]. destruct Hn.
    apply list_elem_of_fmap. exists (key, v). split; [done|]. by apply list_elem_of_lookup_2 in Hv.
Qed.
Lemma Get_spec object key : objectOK object -> Get object key = memberOf (o_members object) key.
Proof.
  intros Hok. unfold Get, memberOf. destruct (o_index object !! key) as [i|] eqn:E; cbn.
  - apply Hok in E as [v Hv]. rewrite Hv. cbn. symmetry. eapply mapLookup_at; [by apply ok_nodup|done].
  - symmetry. by apply mapLookup_none, index_none.
Qed.

Lemma mapInsert_at (members : list (bytes * A)) key value old position :
  NoDup (map fst members) -> members !! position = Some (key, old) -> mapInsert key value members = <[position := (key, value)]> members.
Proof.
  revert position. induction members as [|[k v] members IH]; intros position Hnd Hp; [done|]. cbn in Hnd. apply NoDup_cons in Hnd as [Hk Hnd].
  destruct position as [|position]; cbn in Hp |- *.
  - injection Hp as -> ->. by rewrite decide_True.
  - rewrite decide_False; [by rewrite (IH position)|]. intros ->. apply Hk, list_elem_of_fmap. exists (k, old). split; [done|].
    by apply list_elem_of_lookup_2 in Hp.
Qed.
Lemma mapInsert_end (members : list (bytes * A)) key value :
  key ∉ map fst members -> mapInsert key value members = members ++ [(key, value)].
Proof.
  induction members as [|[k v] members IH]; cbn; [done|]. rewrite elem_of_cons. intros Hn. rewrite decide_False by (intros ->; auto).
  by rewrite IH by auto.
Qed.
Lemma Set_members object key value :
  objectOK object -> objectOK (Set_ object key value) /\ o_members (Set_ object key value) = setMember (o_members object) key value.
Proof.
  intros Hok. unfold Set_, setMember. destruct (o_index object !! key) as [i|] eqn:E.
  - pose proof (proj1 (Hok key i) E) as [old Hold]. split; [|symmetry; eapply mapInsert_at; [by apply ok_nodup|done]].
    intros k p. cbn. rewrite list_lookup_insert. case_decide as Hc.
    + destruct Hc as [-> Hlt]. rewrite (Hok k p). split.
      * intros [v Hv]. rewrite Hold in Hv. injection Hv as -> ->. eauto.
      * intros [v [= -> ->]]. eauto.
    + apply Hok.
  - assert (key ∉ Keys object) as Hn by (by apply index_none). split; [|symmetry; by apply mapInsert_end].
    intros k p. cbn. rewrite lookup_insert. case_decide as Hc.
    + subst k. split.
      * intros [= <-]. exists value. by apply list_lookup_middle.
      * intros [v Hv]. apply lookup_app_Some in Hv as [Hv|[Hle Hv]].
        -- destruct Hn. apply list_elem_of_fmap. exists (key, v). split; [done|]. by apply list_elem_of_lookup_2 in Hv.
        -- apply list_lookup_singleton_Some in Hv as [Hp _]. f_equal. lia.
    + rewrite (Hok k p). split; intros [v Hv]; exists v.
      * by apply lookup_app_l_Some.
      * apply lookup_app_Some in Hv as [Hv|[_ Hv]]; [done|]. apply list_lookup_singleton_Some in Hv as [_ [= -> _]]. done.
Qed.
Lemma NewObject_ok members : objectOK (NewObject members).
Proof.
  unfold NewObject. enough (forall object, objectOK object -> objectOK (fold_left (fun o m => Set_ o m.1 m.2) members object)) as Hall
    by (apply Hall, empty_ok).
  induction members as [|m members IH]; intros object Hok; [done|]. cbn. apply IH. by apply Set_members.
Qed.
Lemma setMembers_new (members acc : list (bytes * A)) :
  NoDup (map fst (acc ++ members)) -> fold_left (fun l m => setMember l m.1 m.2) members acc = acc ++ members.
Proof.
  revert acc. induction members as [|[k v] members IH]; intros acc Hnd; cbn; [by rewrite app_nil_r|].
  unfold setMember at 2. rewrite mapInsert_end.
  - rewrite IH; [by rewrite <- app_assoc|by rewrite <- app_assoc].
  - rewrite map_app in Hnd. apply NoDup_app in Hnd as (_ & Hd & _). intros Hin. apply (Hd k Hin). cbn. by left.
Qed.
Lemma NewObject_members members : NoDup (map fst members) -> o_members (NewObject members) = members.
Proof.
  intros Hnd. unfold NewObject. enough (forall object, objectOK object ->
    o_members (fold_left (fun o m => Set_ o m.1 m.2) members object) = fold_left (fun l m => setMember l m.1 m.2) members (o_members object)) as Hall
    by (rewrite Hall by apply empty_ok; by apply (setMembers_new members [])).
  clear Hnd. induction members as [|m members IH]; intros object Hok; [done|]. cbn. destruct (Set_members object m.1 m.2 Hok) as [Hok' E].
  by rewrite IH, E by done.
Qed.
Lemma index_unique object object' : objectOK object -> objectOK object' -> o_members object = o_members object' -> object = object'.
Proof.
  intros H1 H2 E. destruct object as [m i], object' as [m' i']. cbn in E. subst m'. f_equal. apply map_eq. intros key.
  apply option_eq. intros p. rewrite (H1 key p). symmetry. apply (H2 key p).
Qed.

Lemma reindex_spec members position index key :
  NoDup (map fst members) ->
  reindex position members index !! key =
  match list_find (fun m => m.1 = key) members with Some (i, _) => Some (position + i)%nat | None => index !! key end.
Proof.
  revert position index. induction members as [|[k v] members IH]; intros position index Hnd; [done|]. cbn in Hnd. apply NoDup_cons in Hnd as [Hk Hnd].
  cbn [reindex list_find fst]. rewrite IH by done. destruct (decide (k = key)) as [->|Hne].
  - rewrite (proj2 (list_find_None _ _)).
    + rewrite lookup_insert, decide_True by done. by rewrite Nat.add_0_r.
    + apply Forall_forall. intros [k' v'] Hin E. cbn in E. subst k'. apply Hk, list_elem_of_fmap. by exists (key, v').
  - destruct (list_find _ members) as [[i m]|]; cbn; [f_equal; lia|]. by rewrite lookup_insert, decide_False.
Qed.
Lemma Delete_members object key :
  objectOK object ->
  let '(object', found) := Delete object key in
  objectOK object' /\ o_members object' = deleteMember (o_members object) key /\ (found = true <-> key ∈ Keys object).
Proof.
  intros Hok. unfold Delete. destruct (o_index object !! key) as [i|] eqn:E.
  - pose proof (proj1 (Hok key i) E) as [old Hold]. pose proof (ok_nodup _ Hok) as Hnd.
    pose proof (lookup_lt_Some _ _ _ Hold) as Hlt.
    set (l := take i (o_members object)) in *. set (r := drop (S i) (o_members object)) in *.
    assert (o_members object = l ++ (key, old) :: r) as Em by (symmetry; by apply take_drop_middle).
    assert (length l = i) as Hl by (unfold l; rewrite length_take; lia).
    rewrite drop_app_at by done. unfold Keys in Hnd. rewrite Em, map_app in Hnd. cbn in Hnd.
    apply NoDup_app in Hnd as (Hndl & Hdis & [Hkr Hndr]%NoDup_cons).
    assert (key ∉ map fst l) as Hkl by (intros Hin; apply (Hdis key Hin); by left).
    split; [|split].
    + intros k p. cbn. rewrite reindex_spec by done. destruct (list_find _ r) as [[j [k' v']]|] eqn:Ef.
      * apply list_find_Some in Ef as (Hj & Hk & Hfirst). cbn in Hk. subst k'. split.
        -- intros [= <-]. exists v'. rewrite lookup_app_r by lia. by rewrite <- Hl, Nat.add_comm, Nat.add_sub.
        -- intros [v Hv]. apply lookup_app_Some in Hv as [Hv|[Hle Hv]].
           ++ exfalso. apply (Hdis k); [apply list_elem_of_fmap; exists (k, v); split; [done|]; by apply list_elem_of_lookup_2 in Hv|].
              right. apply list_elem_of_fmap. exists (k, v'). split; [done|]. by apply list_elem_of_lookup_2 in Hj.
           ++ f_equal. assert (p - length l = j)%nat; [|lia].
              apply (NoDup_lookup (map fst r) _ _ k Hndr); rewrite list_lookup_fmap; [by rewrite Hv|by rewrite Hj].
      * rewrite lookup_delete. apply list_find_None in Ef. rewrite Forall_forall in Ef.
        assert (forall v, (k, v) ∉ r) as Hnr by (intros v Hin; by apply (Ef _ Hin)). case_decide as Hc.
        -- subst k. split; [done|]. intros [v Hv]. exfalso. apply lookup_app_Some in Hv as [Hv|[_ Hv]]; apply list_elem_of_lookup_2 in Hv; [|by eapply Hnr].
           apply Hkl, list_elem_of_fmap. by exists (key, v).
        -- rewrite (Hok k p), Em. split; intros [v Hv]; exists v; apply lookup_app_Some in Hv as [Hv|[Hle Hv]].
           ++ by apply lookup_app_l_Some.
           ++ exfalso. apply list_elem_of_lookup_2, elem_of_cons in Hv as [[= -> _]|Hv]; [done|]. by eapply Hnr.
           ++ by apply lookup_app_l_Some.
           ++ exfalso. apply list_elem_of_lookup_2 in Hv. by eapply Hnr.
    + cbn. rewrite Em. unfold deleteMember. rewrite List.filter_app. cbn. rewrite bool_decide_eq_true_2 by done. cbn.
      f_equal; symmetry; apply List.forallb_filter_id, forallb_forall; intros [k v] Hin%list_elem_of_In; apply negb_true_iff, bool_decide_eq_false_2;
        cbn; intros ->; [apply Hkl|apply Hkr]; apply list_elem_of_fmap; by exists (key, v).
    + split; [|done]. intros _. unfold Keys. rewrite Em, map_app. apply elem_of_app. right. by left.
  - assert (key ∉ Keys object) as Hn by (by apply index_none). split; [done|]. split; [|by split].
    symmetry. apply List.forallb_filter_id, forallb_forall. intros [k v] Hin%list_elem_of_In. apply negb_true_iff, bool_decide_eq_false_2. cbn. intros ->.
    apply Hn, list_elem_of_fmap. by exists (key, v).
Qed.
Lemma hasSameKeys_spec object other :
  objectOK object -> objectOK other -> hasSameKeys object other = true <-> Keys object ≡ₚ Keys other.
Proof.
  intros H1 H2. unfold hasSameKeys. rewrite andb_true_iff, Nat.eqb_eq, forallb_forall. unfold Len.
  pose proof (ok_nodup _ H1) as N1. pose proof (ok_nodup _ H2) as N2.
  assert (forall key, is_Some (Get other key) <-> key ∈ Keys other) as Hget.
  { intros key. destruct (decide (key ∈ Keys other)) as [Hin|Hout]; split; try done.
    - intros _. unfold Get. destruct (o_index other !! key) as [i|] eqn:E; [|by apply index_none in E].
      apply H2 in E as [v Hv]. cbn. rewrite Hv. by eexists.
    - unfold Get. rewrite (proj2 (index_none other key H2) Hout). by intros [? ?]. }
  split.
  - intros [El Hall]. apply submseteq_length_Permutation; [|unfold Keys; rewrite !length_map; lia].
    apply NoDup_submseteq; [done|]. intros key (m & -> & Hin)%list_elem_of_fmap. apply Hget.
    eapply bool_decide_eq_true_1, Hall. by apply list_elem_of_In.
  - intros Hp. split; [apply Permutation_length in Hp; unfold Keys in Hp; by rewrite !length_map in Hp|].
    intros m Hin%list_elem_of_In. apply bool_decide_eq_true_2, Hget. rewrite <- Hp. by apply list_elem_of_fmap_2.
Qed.
End object.
Arguments Object : clear implicits.
