(* ===== verification/WalletJson.v ===== *)
(** * The JSON of wallet files

    Model of [wallet/json.go]: a decoder that keeps the order of the members of
    an object and numbers as they were written, and an encoder that writes what
    [json.dumps] of Python does, either on one line or sorted and indented. *)

From S2P Require Import Prelude Hex Utf8 Decimal Bencode Json Float JsonValue PythonInt WalletObject.

(** ** Values *)

(** What the wallet keeps as [any]: [ANumber] is a [json.Number], [AInt] one of
    Go's integer types or a [*big.Int], and of the floating-point numbers the
    decoder makes only those that JSON has no literal for. *)
Inductive any :=
| ANil
| ABool (b : bool)
| ANumber (literal : bytes)
| AInt (n : Z)
| ANaN
| AInfinity (negative : bool)
| AString (s : bytes)
| AArray (l : list any)
| AObject (o : Object any).

(** ** Decoding *)

Definition ErrJSONEnd : string := "unexpected end of JSON input".
Definition ErrJSONCharacter : string := "unexpected character".
Definition ErrJSONKey : string := "expected JSON object key".
Definition ErrJSONColon : string := "expected colon after JSON object key".
Definition ErrJSONObject : string := "expected comma or object end".
Definition ErrJSONArray : string := "expected comma or array end".
Definition ErrJSONString : string := "unterminated JSON string".
Definition ErrJSONNumber : string := "invalid JSON number".
Definition ErrJSONLiteral : string := "invalid JSON literal".
Definition ErrJSONTrailing : string := "unexpected data after JSON value".

(** How far the closing quote of a string is from its opening one. *)
Fixpoint closingQuote (isEscaped : bool) (s : bytes) : option nat :=
  match s with
  | [] => None
  | c :: s =>
      if isEscaped then S <$> closingQuote false s
      else if Zb c =? 0x5c then S <$> closingQuote true s
      else if Zb c =? 0x22 then Some 0%nat
      else S <$> closingQuote false s
  end.
(** [s] starts with the opening quote; the literal is read by [json.Unmarshal]. *)
Definition parseString (s : bytes) : res (bytes * bytes) :=
  match closingQuote false (tail s) with
  | None => Err ErrJSONString
  | Some n =>
      v ← parseJson (take (n + 2) s);
      match v with JString value => Ok (value, drop (n + 2) s) | _ => Err ErrJsonSyntax end
  end.
Definition parseLiteral (literal : string) (value : any) (s : bytes) : res (any * bytes) :=
  if bool_decide (take (length (lit literal)) s = lit literal) then Ok (value, drop (length (lit literal)) s)
  else Err ErrJSONLiteral.
Definition parseNumber (s : bytes) : res (any * bytes) :=
  match numberAt s with Some (literal, rest) => Ok (ANumber literal, rest) | None => Err ErrJSONNumber end.

(** The loops of [parseArray] and [parseObject], after the bracket and when it is
    not closed at once; [value] is [parseValue]. *)
Fixpoint arrayLoop (value : bytes -> res (any * bytes)) (fuel : nat) (values : list any) (s : bytes) : res (list any * bytes) :=
  match fuel with
  | O => NoFuel
  | S fuel =>
      '(v, s) ← value s;
      match skipSpace s with
      | c :: s =>
          if Zb c =? 0x5d then Ok (values ++ [v], s)
          else if Zb c =? 0x2c then arrayLoop value fuel (values ++ [v]) s
          else Err ErrJSONArray
      | [] => Err ErrJSONArray
      end
  end.
Fixpoint objectLoop (value : bytes -> res (any * bytes)) (fuel : nat) (object : Object any) (s : bytes) : res (Object any * bytes) :=
  match fuel with
  | O => NoFuel
  | S fuel =>
      match skipSpace s with
      | q :: _ =>
          if negb (Zb q =? 0x22) then Err ErrJSONKey
          else
            '(key, s) ← parseString (skipSpace s);
            match skipSpace s with
            | c :: s =>
                if negb (Zb c =? 0x3a) then Err ErrJSONColon
                else
                  '(v, s) ← value s;
                  let object := Set_ object key v in
                  match skipSpace s with
                  | c :: s =>
                      if Zb c =? 0x7d then Ok (object, s)
                      else if Zb c =? 0x2c then objectLoop value fuel object s
                      else Err ErrJSONObject
                  | [] => Err ErrJSONObject
                  end
            | [] => Err ErrJSONColon
            end
      | [] => Err ErrJSONKey
      end
  end.
Fixpoint parseValue (fuel : nat) (s : bytes) : res (any * bytes) :=
  match fuel with
  | O => NoFuel
  | S fuel =>
      match skipSpace s with
      | [] => Err ErrJSONEnd
      | c :: rest =>
          let s := c :: rest in
          if Zb c =? 0x7b then
            match skipSpace rest with
            | d :: after =>
                if Zb d =? 0x7d then Ok (AObject emptyObject, after)
                else '(object, s) ← objectLoop (parseValue fuel) (S (length rest)) emptyObject (d :: after); Ok (AObject object, s)
            | [] => Err ErrJSONKey
            end
          else if Zb c =? 0x5b then
            match skipSpace rest with
            | d :: after =>
                if Zb d =? 0x5d then Ok (AArray [], after)
                else '(values, s) ← arrayLoop (parseValue fuel) (S (length rest)) [] (d :: after); Ok (AArray values, s)
            | [] => Err ErrJSONEnd
            end
          else if Zb c =? 0x22 then '(value, s) ← parseString s; Ok (AString value, s)
          else if Zb c =? 0x74 then parseLiteral "true" (ABool true) s
          else if Zb c =? 0x66 then parseLiteral "false" (ABool false) s
          else if Zb c =? 0x6e then parseLiteral "null" ANil s
          else if Zb c =? 0x4e then parseLiteral "NaN" ANaN s
          else if Zb c =? 0x49 then parseLiteral "Infinity" (AInfinity false) s
          else if Zb c =? 0x2d then
            if bool_decide (take 9 s = lit "-Infinity") then parseLiteral "-Infinity" (AInfinity true) s else parseNumber s
          else if isDecimal c then parseNumber s
          else Err ErrJSONCharacter
      end
  end.
Definition decodeOrderedJSON (data : bytes) : res any :=
  '(value, rest) ← parseValue (S (length data)) data;
  match skipSpace rest with [] => Ok value | _ => Err ErrJSONTrailing end.

(** ** Encoding strings *)

(** The encoder of [encoding/json] without the escapes for HTML. *)
Definition stringSafe (c : byte) : bool := (0x20 <=? Zb c) && negb (bool_decide (c ∈ [x22; x5c])).
Fixpoint encodeString (fuel : nat) (s : bytes) : bytes :=
  match fuel, s with
  | S fuel, c :: rest =>
      if Zb c <? 0x80 then (if stringSafe c then [c] else asciiEscape c) ++ encodeString fuel rest
      else
        let '(r, size) := DecodeRune s in
        (if (r =? RuneError) && (size =? 1)%nat then x5c :: lit "ufffd"
         else if (r =? 0x2028) || (r =? 0x2029) then x5c :: lit "u202" ++ [hexLower (Z.land r 15)]
         else take size s) ++ encodeString fuel (drop size s)
  | _, _ => []
  end.
(** [%04x] of a value of 16 bits *)
Definition hex4 (r : Z) : bytes :=
  [hexDigit (Z.land (Z.shiftr r 12) 15); hexDigit (Z.land (Z.shiftr r 8) 15); hexDigit (Z.land (Z.shiftr r 4) 15); hexDigit (Z.land r 15)].
Definition unicodeEscape (r : Z) : bytes := x5c :: x75 :: hex4 r.
(** [utf16.EncodeRune] *)
Definition EncodeRune (r : Z) : Z * Z :=
  let r := r - 0x10000 in (0xd800 + Z.land (Z.shiftr r 10) 0x3ff, 0xdc00 + Z.land r 0x3ff).
Definition escapeRune (r : Z) : bytes :=
  if r <=? 0x7e then AppendRune [] r
  else if r <=? 0xffff then unicodeEscape r
  else let '(high, low) := EncodeRune r in unicodeEscape high ++ unicodeEscape low.
Fixpoint escapeNonASCII (fuel : nat) (data : bytes) : bytes :=
  match fuel, data with
  | S fuel, _ :: _ => let '(r, size) := DecodeRune data in escapeRune r ++ escapeNonASCII fuel (drop size data)
  | _, _ => []
  end.
Definition writeString (value : bytes) : bytes :=
  let data := x22 :: encodeString (length value) value ++ [x22] in escapeNonASCII (length data) data.

(** ** Encoding numbers *)

Definition magnitude (f : float64) : Z * Z := scaled (f_Significand f) 1 (- f_Scale f).
(** The digits of the shortest decimal that is read as the number, and the
    position of its point: [0.digits * 10 ^ point].  [n / d] is the number. *)
Fixpoint zerosAfterPoint (fuel : nat) (n d : Z) : Z :=
  match fuel with O => 0 | S fuel => if d <=? 10 * n then 0 else 1 + zerosAfterPoint fuel (10 * n) d end.
Definition decimalPoint (n d : Z) : Z := if d <=? n then blen (FormatUint (n / d)) else - zerosAfterPoint 330 n d.
Definition roundedTo (n d point : Z) (count : nat) : Z :=
  let e := Z.of_nat count - point in
  if e <? 0 then nearest n (d * 10 ^ (- e)) else nearest (n * 10 ^ e) d.
Fixpoint shortestFrom (steps count : nat) (f : float64) (n d point : Z) : Z * Z :=
  let digits := roundedTo n d point count in
  let exponent := point - Z.of_nat count in
  match steps with
  | O => (digits, exponent)
  | S steps =>
      match floatOf (FormatUint digits ++ lit "e" ++ FormatInt exponent) with
      | Some g =>
          if bool_decide (scaled (f_Significand g) 1 (- f_Scale g) = magnitude f) then (digits, exponent)
          else shortestFrom steps (S count) f n d point
      | None => shortestFrom steps (S count) f n d point
      end
  end.
(** The zeros at the end, which rounding up to a power of ten leaves. *)
Fixpoint stripZeros (reversed : bytes) : bytes :=
  match reversed with c :: rest => if Zb c =? 48 then stripZeros rest else reversed | [] => [] end.
Definition shortestDigits (f : float64) : bytes * Z :=
  let '(n, d) := magnitude f in
  let '(digits, exponent) := shortestFrom 16 1 f n d (decimalPoint n d) in
  let text := FormatUint digits in
  (rev (stripZeros (rev text)), blen text + exponent).
Definition zeros (n : Z) : bytes := repeat x30 (Z.to_nat n).
(** [fmt.Sprintf] with [%+03d] *)
Definition exponentText (e : Z) : bytes :=
  (if e <? 0 then lit "-" else lit "+") ++ (if Z.abs e <? 10 then lit "0" else []) ++ FormatUint (Z.abs e).
(** [formatPythonFloat] of a finite number. *)
Definition formatFinite (f : float64) : bytes :=
  (if f_Negative f then lit "-" else []) ++
  (if f_Significand f =? 0 then lit "0.0"
   else
     let '(digits, point) := shortestDigits f in
     let exponent := point - 1 in
     if (-4 <=? exponent) && (exponent <? 16) then
       if point <=? 0 then lit "0." ++ zeros (- point) ++ digits
       else if blen digits <=? point then digits ++ zeros (point - blen digits) ++ lit ".0"
       else take (Z.to_nat point) digits ++ lit "." ++ drop (Z.to_nat point) digits
     else
       match digits with
       | [d] => [d] ++ lit "e" ++ exponentText exponent
       | d :: more => [d] ++ lit "." ++ more ++ lit "e" ++ exponentText exponent
       | [] => []
       end).
Definition isFloatLiteral (literal : bytes) : bool := existsb (fun c => bool_decide (c ∈ [x2e; x65; x45])) literal.
Definition ErrJSONInteger : string := "invalid JSON integer".
Definition writeNumber (value : bytes) : res bytes :=
  if isFloatLiteral value then
    match numberParts value with
    | None => Err ErrJSONNumber
    | Some (negative, _, _) =>
        match floatOf value with
        | Some f => Ok (formatFinite f)
        | None => Ok (if negative : bool then lit "-Infinity" else lit "Infinity")
        end
    end
  else match bigIntString value with Some n => Ok (FormatInt n) | None => Err ErrJSONInteger end.

(** ** Encoding values *)

Record pythonJSONEncoder := MkEncoder { pretty : bool; sortKeys : bool }.
Section encoder.
Variable encoder : pythonJSONEncoder.

Definition indentation (depth : nat) : bytes := concat (repeat (lit "    ") depth).
Definition writeItemPrefix (index depth : nat) : bytes :=
  (if (0 <? index)%nat then lit "," else []) ++
  (if pretty encoder then x0a :: indentation depth else if (0 <? index)%nat then lit " " else []).
Definition writeCollectionSuffix (depth : nat) : bytes := if pretty encoder then x0a :: indentation depth else [].
Fixpoint writeItems (index depth : nat) (items : list (res bytes)) : res bytes :=
  match items with
  | [] => Ok (writeCollectionSuffix depth)
  | item :: items =>
      text ← item;
      rest ← writeItems (S index) depth items;
      Ok (writeItemPrefix index (S depth) ++ text ++ rest)
  end.
Definition keyLe {A} (a b : bytes * A) : Prop := bytesLe a.1 b.1.
#[local] Instance keyLe_dec {A} (a b : bytes * A) : Decision (keyLe a b) := bytesLe_dec a.1 b.1.
(** [sort.Slice] by the keys, of which no two are the same. *)
Definition inOrder {A} (members : list (bytes * A)) : list (bytes * A) :=
  if sortKeys encoder then merge_sort keyLe members else members.
Definition writeMember (member : bytes * res bytes) : res bytes :=
  text ← member.2; Ok (writeString member.1 ++ lit ": " ++ text).
Fixpoint writeValue (value : any) (depth : nat) : res bytes :=
  match value with
  | ANil => Ok (lit "null")
  | ABool b => Ok (lit (if b then "true" else "false"))
  | ANumber literal => writeNumber literal
  | AInt n => Ok (FormatInt n)
  | ANaN => Ok (lit "NaN")
  | AInfinity negative => Ok (lit (if negative then "-Infinity" else "Infinity"))
  | AString s => Ok (writeString s)
  | AArray [] => Ok (lit "[]")
  | AArray l => text ← writeItems 0 depth (map (fun v => writeValue v (S depth)) l); Ok (lit "[" ++ text ++ lit "]")
  | AObject (MkObject [] _) => Ok (lit "{}")
  | AObject (MkObject members _) =>
      text ← writeItems 0 depth (map writeMember (inOrder (map (fun m => (m.1, writeValue m.2 (S depth))) members)));
      Ok (lit "{" ++ text ++ lit "}")
  end.
End encoder.
Definition encodeWalletJSON (value : any) : res bytes := writeValue (MkEncoder true true) value 0.
Definition encodePreferenceJSON (value : any) : res bytes := writeValue (MkEncoder false false) value 0.

Example json_examples :
  (v ← decodeOrderedJSON (dq "{'b' : [1, -0.5e1, true], 'a':{'x': NaN}, 'b' : 'q\u00e9\n\ud83d\ude00'}"); encodePreferenceJSON v) =
    Ok (dq "{'b': 'q\u00e9\n\ud83d\ude00', 'a': {'x': NaN}}") /\
  (v ← decodeOrderedJSON (dq "{'b':1,'a':[null,{}]}"); encodeWalletJSON v) =
    Ok (dq "{" ++ x0a :: dq "    'a': [" ++ x0a :: dq "        null," ++ x0a :: dq "        {}" ++ x0a :: dq "    ]," ++
        x0a :: dq "    'b': 1" ++ x0a :: dq "}") /\
  map (fun s => writeNumber (lit s)) ["0.1"; "1e16"; "123456789012345.0"; "1e15"; "123456.789"; "5e-324"; "0.0001"; "0.00001234"; "-1.5e300";
    "1.7976931348623157e308"; "9007199254740993.0"; "1e400"; "-0.0"; "2.5"; "-007"]%string =
    map (fun s => Ok (lit s)) ["0.1"; "1e+16"; "123456789012345.0"; "1000000000000000.0"; "123456.789"; "5e-324"; "0.0001"; "1.234e-05"; "-1.5e+300";
    "1.7976931348623157e+308"; "9007199254740992.0"; "Infinity"; "-0.0"; "2.5"; "-7"]%string.
Proof. vm_compute. split_and!; reflexivity. Qed.
