(* ===== verification/WalletDocument.v ===== *)
(** * Wallet documents read back

    What the encoder of [WalletJson.v] writes, the decoder reads: strings of any
    valid UTF-8 through the escapes, and the values built from them, on one line
    or indented, with the members of objects sorted or in their order. *)

From S2P Require Import Prelude Bits Aes Hex Utf8 Runes Decimal Bencode Json WalletObject PythonInt WalletJson.

(** ** Strings *)

(** A piece of a literal that stands for some bytes: it does not close the literal
    and is read in one step. *)
Record piece (p v : bytes) : Prop := {
  pc_closes more : closingQuote false (p ++ more) = Nat.add (length p) <$> closingQuote false more;
  pc_reads fuel acc more : stringLoop (S fuel) acc (p ++ more) = stringLoop fuel (acc ++ v) more;
  pc_long : p <> []
}.
Inductive written : bytes -> bytes -> Prop :=
| written_nil : written [] []
| written_cons p v t s : piece p v -> written t s -> written (p ++ t) (v ++ s).

Lemma plain_piece c : stringSafe c = true -> Zb c < 0x80 -> piece [c] [c].
Proof.
  intros Hs Hc. unfold stringSafe in Hs. apply andb_true_iff in Hs as [Hlo%Z.leb_le Hq]. apply negb_true_iff, bool_decide_eq_false in Hq.
  assert (Zb c <> 0x5c /\ Zb c <> 0x22) as [H1 H2].
  { split; intros E; apply Hq; rewrite <- (byt_Zb c), E; vm_compute; repeat constructor. }
  split; [| |done].
  - intros more. cbn [app closingQuote length]. destruct (Z.eqb_spec (Zb c) 0x5c); [done|]. destruct (Z.eqb_spec (Zb c) 0x22); [done|].
    by destruct (closingQuote false more).
  - intros fuel acc more. cbn [app stringLoop]. destruct (Z.eqb_spec (Zb c) 0x22); [done|]. destruct (Z.eqb_spec (Zb c) 0x5c); [done|].
    destruct (Z.ltb_spec (Zb c) 0x20); [lia|]. by destruct (Z.ltb_spec (Zb c) 0x80); [|lia].
Qed.
Lemma ascii_piece c : stringSafe c = false -> Zb c < 0x80 -> piece (asciiEscape c) [c].
Proof.
  intros Hs Hc. split; [| |done].
  - intros more. destruct c; try discriminate Hs; try (exfalso; revert Hc; vm_compute; discriminate);
      cbn; by destruct (closingQuote false more).
  - intros fuel acc more. destruct c; try discriminate Hs; try (exfalso; revert Hc; vm_compute; discriminate); reflexivity.
Qed.

Lemma closing_plain p more :
  Forall (fun c => Zb c <> 0x5c /\ Zb c <> 0x22) p -> closingQuote false (p ++ more) = Nat.add (length p) <$> closingQuote false more.
Proof.
  induction 1 as [|c p [H1 H2] _ IH]; cbn [app closingQuote length]; [by destruct (closingQuote false more)|].
  destruct (Z.eqb_spec (Zb c) 0x5c); [done|]. destruct (Z.eqb_spec (Zb c) 0x22); [done|]. rewrite IH. by destruct (closingQuote false more).
Qed.
Lemma nibble_bound r n : 0 <= Z.land (Z.shiftr r n) 15 < 16.
Proof. by apply (low_bound 4). Qed.
Lemma hexDigit_plain d : 0 <= d < 16 -> Zb (hexDigit d) <> 0x5c /\ Zb (hexDigit d) <> 0x22.
Proof. intros Hd. unfold hexDigit. destruct (Z.ltb_spec d 10); rewrite Zb_byt_id by lia; lia. Qed.
Lemma hex4_length r : length (hex4 r) = 4%nat.
Proof. done. Qed.
Lemma nibbles r :
  0 <= r < 0x10000 ->
  16 * (16 * (16 * Z.land (Z.shiftr r 12) 15 + Z.land (Z.shiftr r 8) 15) + Z.land (Z.shiftr r 4) 15) + Z.land r 15 = r.
Proof.
  intros Hr. change 15 with (Z.ones 4). rewrite !Z.land_ones, !Z.shiftr_div_pow2 by done.
  change (2 ^ 4) with 16. change (2 ^ 8) with 256. change (2 ^ 12) with 4096.
  rewrite (Z.mod_small (r / 4096)) by (split; [apply Z.div_pos; lia|apply Z.div_lt_upper_bound; lia]).
  pose proof (Z.div_mod r 16 ltac:(lia)). pose proof (Z.div_mod (r / 16) 16 ltac:(lia)). pose proof (Z.div_mod (r / 256) 16 ltac:(lia)).
  rewrite !Z.div_div in * by lia. change (16 * 16) with 256 in *. change (256 * 16) with 4096 in *. lia.
Qed.
Lemma getu4_escape r more : 0 <= r < 0x10000 -> getu4 (unicodeEscape r ++ more) = Some r.
Proof.
  intros Hr. unfold unicodeEscape, hex4. cbn [app getu4]. rewrite !unhex_hexDigit by (try apply nibble_bound; apply (nibble_bound r 0)).
  cbn. f_equal. by apply nibbles.
Qed.
Lemma unicodeEscape_closes r more : closingQuote false (unicodeEscape r ++ more) = Nat.add (length (unicodeEscape r)) <$> closingQuote false more.
Proof.
  unfold unicodeEscape. cbn [app closingQuote]. change (Zb x5c =? 0x5c) with true. cbn iota. rewrite closing_plain.
  - rewrite hex4_length. cbn [length]. by destruct (closingQuote false more).
  - unfold hex4. repeat (constructor; [apply hexDigit_plain; try apply nibble_bound; apply (nibble_bound r 0)|]). constructor.
Qed.
Lemma stringLoop_unicode fuel acc r more :
  0 <= r < 0x10000 -> isSurrogate r = false ->
  stringLoop (S fuel) acc (unicodeEscape r ++ more) = stringLoop fuel (acc ++ AppendRune [] r) more.
Proof.
  intros Hr Hs. pose proof (getu4_escape r more Hr) as Eg. unfold unicodeEscape in *. cbn [app] in *. cbn [stringLoop].
  change (Zb x5c =? 0x22) with false. change (Zb x5c =? 0x5c) with true. cbn iota. rewrite Eg, Hs. done.
Qed.
Lemma unicode_piece r : 0 <= r < 0x10000 -> isSurrogate r = false -> piece (unicodeEscape r) (AppendRune [] r).
Proof. intros Hr Hs. split; [apply unicodeEscape_closes|intros; by apply stringLoop_unicode|done]. Qed.

(** A rune above 0xffff as two surrogates. *)
Lemma surrogate_pair r :
  0x10000 <= r <= 0x10ffff ->
  let '(high, low) := EncodeRune r in
  0 <= high < 0x10000 /\ 0 <= low < 0x10000 /\ isSurrogate high = true /\ decodeSurrogates high low = Some r.
Proof.
  intros Hr. unfold EncodeRune. set (s := r - 0x10000).
  pose proof (part_bound 10 10 s ltac:(done) ltac:(done) ltac:(unfold s; lia)) as Hh.
  pose proof (low_bound 10 s ltac:(done)) as Hl. change (Z.ones 10) with 0x3ff in Hl. change (2 ^ 10) with 0x400 in *.
  assert (Z.land (Z.shiftr s 10) 0x3ff = Z.shiftr s 10) as ->.
  { change 0x3ff with (Z.ones 10). rewrite Z.land_ones by done. by apply Z.mod_small. }
  split; [lia|]. split; [lia|]. split; [unfold isSurrogate; apply andb_true_iff; rewrite Z.leb_le, Z.ltb_lt; lia|].
  unfold decodeSurrogates. rewrite (proj2 (Z.leb_le 0xd800 _)), (proj2 (Z.ltb_lt _ 0xdc00)), (proj2 (Z.leb_le 0xdc00 _)), (proj2 (Z.ltb_lt _ 0xe000)) by lia.
  cbn [andb]. f_equal. rewrite !Z.add_simpl_l. change (joined 10 (Z.shiftr s 10) (Z.land s (Z.ones 10)) + 0x10000 = r).
  rewrite join_parts by done. unfold s. lia.
Qed.
Lemma pair_piece r : 0x10000 <= r <= 0x10ffff -> let '(high, low) := EncodeRune r in piece (unicodeEscape high ++ unicodeEscape low) (AppendRune [] r).
Proof.
  intros Hr. pose proof (surrogate_pair r Hr) as Hp. destruct (EncodeRune r) as [high low]. destruct Hp as (Hh & Hl & Hs & Hd). split; [| |done].
  - intros more. rewrite <- app_assoc, !unicodeEscape_closes. destruct (closingQuote false more); [|done]. cbn -[unicodeEscape]. by rewrite length_app, Nat.add_assoc.
  - intros fuel acc more. rewrite <- app_assoc. pose proof (getu4_escape high (unicodeEscape low ++ more) Hh) as Eg. unfold unicodeEscape at 1.
    unfold unicodeEscape at 1 in Eg. cbn [app] in *. cbn [stringLoop]. change (Zb x5c =? 0x22) with false. change (Zb x5c =? 0x5c) with true. cbn iota.
    rewrite Eg, Hs. change (drop 6 (x5c :: x75 :: hex4 high ++ unicodeEscape low ++ more)) with (unicodeEscape low ++ more).
    rewrite getu4_escape by done. cbn [mbind option_bind]. by rewrite Hd.
Qed.

(** ** The two passes of the encoder *)

Lemma escape_fuel m n data : (length data <= m)%nat -> (length data <= n)%nat -> escapeNonASCII m data = escapeNonASCII n data.
Proof.
  revert n data. induction m as [|m IH]; intros n [|c data] Hm Hn; cbn [length] in *; try lia; [by destruct n..|].
  destruct n as [|n]; [lia|]. pose proof (DecodeRune_size (c :: data) ltac:(done)) as Hsize. cbn [escapeNonASCII].
  destruct (DecodeRune (c :: data)) as [r size]. cbn in Hsize. f_equal. apply IH; rewrite length_drop; cbn [length]; lia.
Qed.
Definition escapeAll (data : bytes) : bytes := escapeNonASCII (length data) data.
Lemma escape_step data r size :
  data <> [] -> DecodeRune data = (r, size) -> escapeAll data = escapeRune r ++ escapeAll (drop size data).
Proof.
  destruct data as [|c data]; [done|]. intros _ E. unfold escapeAll at 1. cbn [length escapeNonASCII]. rewrite E. f_equal.
  pose proof (DecodeRune_size (c :: data) ltac:(done)) as Hsize. rewrite E in Hsize. cbn in Hsize.
  apply escape_fuel; rewrite length_drop; cbn [length]; lia.
Qed.
Lemma escape_ascii p rest : Forall (fun c => Zb c <= 0x7e) p -> escapeAll (p ++ rest) = p ++ escapeAll rest.
Proof.
  induction 1 as [|c p Hc _ IH]; [done|]. cbn [app]. pose proof (Zb_range c).
  rewrite (escape_step (c :: p ++ rest) (Zb c) 1); [|done|apply DecodeRune_ascii; lia].
  change (drop 1 (c :: p ++ rest)) with (p ++ rest). rewrite IH.
  unfold escapeRune. rewrite (proj2 (Z.leb_le _ 0x7e)) by lia. rewrite append_cases by (split; lia). rewrite (proj2 (Z.leb_le _ 0x7f)) by lia.
  by rewrite byt_Zb.
Qed.
Lemma escape_rune s r size rest :
  DecodeRune s = (r, size) -> s <> [] -> (r =? RuneError) && (size =? 1)%nat = false ->
  escapeAll (take size s ++ rest) = escapeRune r ++ escapeAll rest.
Proof.
  intros E Hne Hok. pose proof (decode_prefix s r size rest E Hne Hok) as Ep. destruct (decode_valid s r size E Hne Hok) as (_ & _ & Hsize & _).
  rewrite (escape_step _ r size); [|destruct (take size s) eqn:Et; [|done]; apply (f_equal length) in Et; rewrite length_take in Et; cbn in Et; lia|done].
  f_equal. rewrite drop_app_at; [done|]. rewrite length_take. lia.
Qed.

Lemma encode_fuel m n s : (length s <= m)%nat -> (length s <= n)%nat -> encodeString m s = encodeString n s.
Proof.
  revert n s. induction m as [|m IH]; intros n [|c s] Hm Hn; cbn [length] in *; try lia; [by destruct n..|].
  destruct n as [|n]; [lia|]. pose proof (DecodeRune_size (c :: s) ltac:(done)) as Hsize. cbn [encodeString].
  rewrite (IH n s) by lia. destruct (Zb c <? 0x80); [done|].
  destruct (DecodeRune (c :: s)) as [r size]. cbn in Hsize. f_equal. apply IH; rewrite length_drop; cbn [length]; lia.
Qed.
Lemma asciiEscape_ascii c : Zb c < 0x80 -> Forall (fun d => Zb d <= 0x7e) (asciiEscape c).
Proof.
  intros Hc. assert (forallb (fun c => negb (Zb c <? 0x80) || forallb (fun d => Zb d <=? 0x7e) (asciiEscape c)) allBytes = true) as Hall
    by (vm_compute; reflexivity).
  pose proof (allBytes_spec _ Hall c) as Hb. cbv beta in Hb. rewrite (proj2 (Z.ltb_lt _ 0x80)) in Hb by done. cbn [negb orb] in Hb.
  rewrite forallb_forall in Hb. apply Forall_forall. intros d Hd%list_elem_of_In. by apply Z.leb_le, Hb.
Qed.

Theorem writeString_written s : Valid s = true -> exists t, writeString s = x22 :: t ++ [x22] /\ written t s.
Proof.
  intros Hv. assert (exists t, written t s /\ forall rest, escapeAll (encodeString (length s) s ++ rest) = t ++ escapeAll rest) as (t & Hw & Ht).
  { revert s Hv. apply valid_ind; [by exists []; split; [constructor|]|]. intros s r size Hne E Hok Hv (t & Hw & Ht).
    destruct (decode_valid s r size E Hne Hok) as (Hr & Ha & Hsize & Hone & Hhead). destruct s as [|c s]; [done|].
    pose proof (Zb_range c) as Hc. specialize (Hhead c s eq_refl). cbn [length encodeString].
    destruct (Z.ltb_spec (Zb c) 0x80) as [Hlt|Hge].
    - assert (size = 1%nat) as -> by (apply Hone, Hhead; lia). change (drop 1 (c :: s)) with s in *.
      assert (r = Zb c) as -> by (rewrite DecodeRune_ascii in E by lia; congruence).
      destruct (stringSafe c) eqn:Hs.
      + destruct (decide (Zb c = 0x7f)) as [E7|Hn7].
        * exists (unicodeEscape (Zb c) ++ t). split.
          -- apply (written_cons _ [c]); [|done]. rewrite E7. assert (c = x7f) as -> by (rewrite <- (byt_Zb c), E7; reflexivity).
             apply (unicode_piece 0x7f); [lia|done].
          -- intros rest. cbn [app]. rewrite (escape_step _ (Zb c) 1); [|done|by apply DecodeRune_ascii; lia]. cbn [drop]. rewrite drop_0, Ht.
             unfold escapeRune. rewrite E7. change (0x7f <=? 0x7e) with false. change (0x7f <=? 0xffff) with true. cbn iota. by rewrite <- app_assoc.
        * exists ([c] ++ t). split; [by apply (written_cons _ [c]); [apply plain_piece|]|]. intros rest. rewrite <- !app_assoc.
          rewrite escape_ascii by (repeat constructor; lia). by rewrite Ht.
      + exists (asciiEscape c ++ t). split; [by apply (written_cons _ [c]); [apply ascii_piece|]|]. intros rest. rewrite <- !app_assoc.
        rewrite escape_ascii by (by apply asciiEscape_ascii). by rewrite Ht.
    - assert (0x80 <= r) as Hr80 by lia. rewrite E, Hok.
      exists (escapeRune r ++ t). split.
      + rewrite <- (take_drop size (c :: s)), <- Ha. apply written_cons; [|done]. unfold escapeRune. rewrite (proj2 (Z.leb_gt _ 0x7e)) by lia.
        destruct (Z.leb_spec r 0xffff).
        * apply unicode_piece; [lia|]. unfold isSurrogate. apply andb_false_iff. rewrite Z.leb_gt, Z.ltb_ge. destruct Hr. lia.
        * pose proof (pair_piece r ltac:(destruct Hr; lia)) as Hp. by destruct (EncodeRune r).
      + intros rest. rewrite (encode_fuel (length s) (length (drop size (c :: s)))) by (rewrite length_drop; cbn [length]; lia).
        destruct ((r =? 0x2028) || (r =? 0x2029)) eqn:Els.
        * assert (x5c :: lit "u202" ++ [hexLower (Z.land r 15)] = escapeRune r) as ->.
          { apply orb_true_iff in Els as [->%Z.eqb_eq | ->%Z.eqb_eq]; reflexivity. }
          rewrite <- !app_assoc, escape_ascii, Ht; [done|].
          apply orb_true_iff in Els as [->%Z.eqb_eq | ->%Z.eqb_eq]; vm_compute; repeat (constructor; [discriminate|]); constructor.
        * rewrite <- !app_assoc, (escape_rune (c :: s) r size) by done. by rewrite Ht. }
  exists t. split; [|done]. unfold writeString. fold (escapeAll (x22 :: encodeString (length s) s ++ [x22])).
  change (x22 :: encodeString (length s) s ++ [x22]) with ([x22] ++ encodeString (length s) s ++ [x22]).
  rewrite escape_ascii by (repeat constructor; vm_compute; discriminate). rewrite Ht.
  change [x22] with ([x22] ++ []) at 2. rewrite escape_ascii by (repeat constructor; vm_compute; discriminate). done.
Qed.

(** ** Reading a string *)

Lemma written_closes t s more : written t s -> closingQuote false (t ++ more) = Nat.add (length t) <$> closingQuote false more.
Proof.
  induction 1 as [|p v t s Hp _ IH]; [cbn [app length]; by destruct (closingQuote false more)|]. rewrite <- app_assoc, (pc_closes _ _ Hp), IH.
  destruct (closingQuote false more); [|done]. cbn. by rewrite length_app, Nat.add_assoc.
Qed.
Lemma written_reads t s fuel acc rest :
  written t s -> (length t < fuel)%nat -> stringLoop fuel acc (t ++ x22 :: rest) = Ok (acc ++ s, rest).
Proof.
  intros Hw. revert fuel acc. induction Hw as [|p v t s Hp Hw IH]; intros fuel acc Hf; (destruct fuel as [|fuel]; [lia|]).
  - cbn. by rewrite app_nil_r.
  - rewrite <- app_assoc, (pc_reads _ _ Hp), IH; [by rewrite <- app_assoc|]. rewrite length_app in Hf.
    pose proof (pc_long _ _ Hp). destruct p; [done|]. cbn in Hf. lia.
Qed.
Lemma parseString_written t s rest : written t s -> parseString (x22 :: t ++ x22 :: rest) = Ok (s, rest).
Proof.
  intros Hw. unfold parseString. cbn [tail]. rewrite (written_closes _ _ _ Hw). cbn [closingQuote]. change (Zb x22 =? 0x5c) with false.
  change (Zb x22 =? 0x22) with true. cbn [fmap option_fmap option_map]. rewrite Nat.add_0_r.
  assert (x22 :: t ++ x22 :: rest = (x22 :: t ++ [x22]) ++ rest) as -> by (cbn; by rewrite <- app_assoc).
  assert (length t + 2 = length (x22 :: t ++ [x22]))%nat as El by (cbn; rewrite length_app; cbn; lia).
  rewrite take_app_at, drop_app_at by done. clear El. unfold parseJson. cbn [length Json.parseValue skipSpace].
  change (isJsonSpace x22) with false. change (Zb x22 =? 0x7b) with false. change (Zb x22 =? 0x5b) with false. change (Zb x22 =? 0x22) with true. cbn iota.
  rewrite (written_reads t s) by (done || (rewrite length_app; cbn; lia)). done.
Qed.
Lemma parseString_writeString s rest : Valid s = true -> parseString (writeString s ++ rest) = Ok (s, rest).
Proof.
  intros Hv. destruct (writeString_written s Hv) as (t & -> & Hw). cbn [app]. rewrite <- app_assoc. by apply parseString_written.
Qed.

(** ** Numbers *)

Lemma numberAt_minus s :
  (forall c t, s = c :: t -> Zb c <> 45) -> s <> [] -> numberAt (x2d :: s) = (fun p => (x2d :: p.1, p.2)) <$> numberAt s.
Proof.
  destruct s as [|c s]; [done|]. intros Hc _. specialize (Hc c s eq_refl). unfold numberAt. change (Zb x2d =? 45) with true.
  destruct (Z.eqb_spec (Zb c) 45); [done|]. cbn iota. destruct (wholePart (c :: s)) as [[w s1]|]; [|done]. cbn [mbind option_bind].
  destruct (fractionPart s1) as [[f s2]|]; [|done]. cbn [mbind option_bind]. by destruct (exponentPart s2) as [[e s3]|].
Qed.
Lemma numberAt_int n rest : endsNumber rest -> numberAt (FormatInt n ++ rest) = Some (FormatInt n, rest).
Proof.
  intros Hr. destruct (Z.le_gt_cases 0 n) as [Hn|Hn]; [by apply numberAt_natural|].
  unfold FormatInt. rewrite (proj2 (Z.ltb_lt n 0)) by done. change (lit "-" ++ FormatUint (- n)) with (x2d :: FormatUint (- n)). cbn [app].
  assert (FormatUint (- n) = FormatInt (- n)) as -> by (unfold FormatInt; by rewrite (proj2 (Z.ltb_ge (- n) 0)) by lia).
  destruct (FormatInt_natural (- n) ltac:(lia)) as (c & s & E & Hd & _). rewrite numberAt_minus, numberAt_natural by first [lia|done|(rewrite E; cbn; intros ? ? [= <- _];
    apply Forall_inv in Hd; unfold isDigit in Hd; apply andb_true_iff in Hd as [?%Z.leb_le _]; lia)|(by rewrite E)]. done.
Qed.
(** How a number starts. *)
Lemma FormatInt_starts n :
  exists c s, FormatInt n = c :: s /\ (Zb c = 45 /\ (exists d t, s = d :: t /\ 48 <= Zb d <= 57) \/ 48 <= Zb c <= 57).
Proof.
  assert (forall n, 0 <= n -> exists c s, FormatInt n = c :: s /\ 48 <= Zb c <= 57) as Hnat.
  { intros m Hm. destruct (FormatInt_natural m Hm) as (c & s & E & Hd & _). exists c, s. split; [done|].
    apply Forall_inv in Hd. unfold isDigit in Hd. apply andb_true_iff in Hd as [?%Z.leb_le ?%Z.leb_le]. lia. }
  destruct (Z.le_gt_cases 0 n) as [Hn|Hn].
  - destruct (Hnat n Hn) as (c & s & E & Hc). exists c, s. auto.
  - exists x2d, (FormatUint (- n)). destruct (Hnat (- n) ltac:(lia)) as (c & s & E & Hc). split; [unfold FormatInt; by rewrite (proj2 (Z.ltb_lt n 0))|].
    left. split; [done|]. exists c, s. split; [|done]. rewrite <- E. unfold FormatInt. by rewrite (proj2 (Z.ltb_ge (- n) 0)) by lia.
Qed.

(** ** Sorting *)

Section sorting.
Context {A B : Type} (R : relation A) (S : relation B) `{forall a b, Decision (R a b)} `{forall a b, Decision (S a b)} (f : A -> B).
Hypothesis same : forall a b, S (f a) (f b) <-> R a b.
Lemma list_merge_map l k : list_merge S (map f l) (map f k) = map f (list_merge R l k).
Proof.
  revert k. induction l as [|x l IH]; intros k; [by destruct k|]. induction k as [|y k IHk]; [done|].
  cbn [map]. rewrite !list_merge_cons. case_decide as Hs; case_decide as Hr; try (exfalso; by rewrite same in Hs); cbn [map].
  - f_equal. apply (IH (y :: k)).
  - f_equal. apply IHk.
Qed.
Lemma merge_sort_map l : merge_sort S (map f l) = map f (merge_sort R l).
Proof.
  unfold merge_sort. assert (forall st, merge_stack S (map (fmap (map f)) st) = map f (merge_stack R st)) as Hstack.
  { intros st. induction st as [|[l'|] st IH]; cbn; [done| |done]. rewrite IH. apply list_merge_map. }
  assert (forall st l, merge_list_to_stack S (map (fmap (map f)) st) (map f l) = map (fmap (map f)) (merge_list_to_stack R st l)) as Hpush.
  { intros st. induction st as [|[l'|] st IH]; intros k; cbn; [done| |done]. f_equal. rewrite <- IH. f_equal. apply list_merge_map. }
  assert (forall st, merge_sort_aux S (map (fmap (map f)) st) (map f l) = map f (merge_sort_aux R st l)) as Hall; [|apply (Hall [])].
  induction l as [|x l IH]; intros st; cbn; [apply Hstack|]. rewrite <- IH. f_equal. apply (Hpush st [x]).
Qed.
End sorting.

(** ** Values *)

Section any_ind.
Variable P : any -> Prop.
Hypothesis HNil : P ANil.
Hypothesis HBool : forall b, P (ABool b).
Hypothesis HNumber : forall literal, P (ANumber literal).
Hypothesis HInt : forall n, P (AInt n).
Hypothesis HNaN : P ANaN.
Hypothesis HInfinity : forall negative, P (AInfinity negative).
Hypothesis HString : forall s, P (AString s).
Hypothesis HArray : forall l, Forall P l -> P (AArray l).
Hypothesis HObject : forall members index, Forall (fun m => P m.2) members -> P (AObject (MkObject members index)).
Fixpoint any_nested_ind (v : any) : P v :=
  match v with
  | ANil => HNil | ABool b => HBool b | ANumber literal => HNumber literal | AInt n => HInt n
  | ANaN => HNaN | AInfinity negative => HInfinity negative | AString s => HString s
  | AArray l => HArray l (list_ind (Forall P) (Forall_nil_2 P) (fun v l => Forall_cons_2 P v l (any_nested_ind v)) l)
  | AObject (MkObject members index) =>
      HObject members index (list_ind (Forall _) (Forall_nil_2 _)
        (fun m l => Forall_cons_2 (fun m => P m.2) m l (any_nested_ind m.2)) members)
  end.
End any_ind.

(** Values that the encoder takes and that are read as what they are: their strings
    are valid, their numbers integers, their objects well formed. *)
Inductive writable : any -> Prop :=
| writable_nil : writable ANil
| writable_bool b : writable (ABool b)
| writable_number literal n : isFloatLiteral literal = false -> bigIntString literal = Some n -> writable (ANumber literal)
| writable_int n : writable (AInt n)
| writable_nan : writable ANaN
| writable_infinity negative : writable (AInfinity negative)
| writable_string s : Valid s = true -> writable (AString s)
| writable_array l : Forall writable l -> writable (AArray l)
| writable_object o : objectOK o -> Forall (fun m => Valid m.1 = true /\ writable m.2) (o_members o) -> writable (AObject o).

Section roundtrip.
Variable encoder : pythonJSONEncoder.
(** What is read back: integers as numbers, the members of objects as they were
    written. *)
Definition asNumber (n : Z) : any := ANumber (FormatInt n).
Fixpoint readAs (v : any) : any :=
  match v with
  | AInt n => asNumber n
  | ANumber literal => match bigIntString literal with Some n => asNumber n | None => v end
  | AArray l => AArray (map readAs l)
  | AObject (MkObject members _) => AObject (NewObject (inOrder encoder (map (fun m => (m.1, readAs m.2)) members)))
  | v => v
  end.

Lemma inOrder_map {A B} (f : A -> B) (members : list (bytes * A)) :
  inOrder encoder (map (fun m => (m.1, f m.2)) members) = map (fun m => (m.1, f m.2)) (inOrder encoder members).
Proof.
  unfold inOrder. destruct (sortKeys encoder); [|done]. by apply (merge_sort_map keyLe keyLe (fun m => (m.1, f m.2))).
Qed.
Lemma inOrder_perm {A} (members : list (bytes * A)) : inOrder encoder members ≡ₚ members.
Proof. unfold inOrder. destruct (sortKeys encoder); [apply merge_sort_Permutation|done]. Qed.

Lemma documentValue_gap fuel gap s : blank gap -> parseValue fuel (gap ++ s) = parseValue fuel s.
Proof. intros Hg. destruct fuel; [done|]. cbn [parseValue]. by rewrite skipSpace_gap. Qed.
Lemma skipSpace_blank s : exists gap, blank gap /\ s = gap ++ skipSpace s.
Proof.
  induction s as [|c s (gap & Hg & E)]; [by exists []; split; [constructor|]|]. cbn. destruct (isJsonSpace c) eqn:Hc.
  - exists (c :: gap). split; [by constructor|]. cbn. by rewrite <- E.
  - by exists []; split; [constructor|].
Qed.
Lemma indentation_blank depth : blank (indentation depth).
Proof. unfold indentation. induction depth; cbn; [constructor|]. by repeat constructor. Qed.
Definition itemGap (index depth : nat) : bytes :=
  if pretty encoder then x0a :: indentation depth else if (0 <? index)%nat then lit " " else [].
Lemma itemGap_blank index depth : blank (itemGap index depth).
Proof.
  unfold itemGap. destruct (pretty encoder); [constructor; [done|apply indentation_blank]|]. destruct (0 <? index)%nat; repeat constructor.
Qed.
Lemma suffix_blank depth : blank (writeCollectionSuffix encoder depth).
Proof. unfold writeCollectionSuffix. destruct (pretty encoder); [constructor; [done|apply indentation_blank]|constructor]. Qed.

(** A text that starts a value, and is read as one by [parseValue]. *)
Definition reads (text : bytes) (v : any) : Prop :=
  startsValue text /\
  forall fuel rest, (length text < fuel)%nat -> endsNumber rest -> parseValue fuel (text ++ rest) = Ok (v, rest).

(** The items of a collection, and what follows the first. *)
Fixpoint itemsText (index depth : nat) (texts : list bytes) : bytes :=
  match texts with
  | [] => writeCollectionSuffix encoder depth
  | text :: texts => writeItemPrefix encoder index (S depth) ++ text ++ itemsText (S index) depth texts
  end.
Lemma writeItems_texts index depth texts : writeItems encoder index depth (map Ok texts) = Ok (itemsText index depth texts).
Proof. revert index. induction texts as [|t texts IH]; intros index; [done|]. cbn. by rewrite IH. Qed.
Lemma items_end index depth texts close rest :
  Zb close = 0x5d \/ Zb close = 0x7d -> endsNumber (itemsText (S index) depth texts ++ close :: rest).
Proof.
  intros Hc. destruct texts as [|t texts]; cbn [itemsText].
  - unfold writeCollectionSuffix. destruct (pretty encoder); cbn; [done|]. unfold isDigit. rewrite (proj2 (andb_false_iff _ _)); [lia|].
    rewrite !Z.leb_gt. lia.
  - unfold writeItemPrefix. cbn. done.
Qed.
Lemma items_next index depth text texts close rest :
  startsValue text ->
  skipSpace (itemsText (S index) depth (text :: texts) ++ close :: rest) =
  x2c :: itemGap (S index) (S depth) ++ text ++ itemsText (S (S index)) depth texts ++ close :: rest.
Proof.
  intros _. cbn [itemsText]. change (writeItemPrefix encoder (S index) (S depth)) with (x2c :: itemGap (S index) (S depth)).
  cbn [app skipSpace]. change (isJsonSpace x2c) with false. cbn iota. by rewrite <- !app_assoc.
Qed.
Lemma items_close index depth close rest :
  isJsonSpace close = false -> skipSpace (itemsText index depth [] ++ close :: rest) = close :: rest.
Proof. intros Hc. cbn [itemsText]. rewrite skipSpace_gap by apply suffix_blank. cbn. by rewrite Hc. Qed.

Lemma arrayLoop_reads parse fuel depth texts vs :
  (forall gap s, blank gap -> parse (gap ++ s) = parse s) ->
  forall index acc text v rest,
  Forall2 (fun t v => startsValue t /\ forall rest, endsNumber rest -> parse (t ++ rest) = Ok (v, rest)) (text :: texts) (v :: vs) ->
  (length texts < fuel)%nat ->
  arrayLoop parse fuel acc (text ++ itemsText (S index) depth texts ++ x5d :: rest) = Ok (acc ++ v :: vs, rest).
Proof.
  intros Hgap. revert fuel vs. induction texts as [|t texts IH]; intros fuel vs index acc text v rest Hall Hf;
    (destruct fuel as [|fuel]; [lia|]); apply Forall2_cons in Hall as [[_ Hread] Hall]; cbn [arrayLoop];
    (rewrite Hread by (apply items_end; by left)); cbn [mbind res_bind].
  - apply Forall2_nil_inv_l in Hall as ->. rewrite items_close by done. done.
  - destruct vs as [|v' vs]; [by apply Forall2_cons_nil_inv in Hall|]. pose proof Hall as Hall'. apply Forall2_cons in Hall as [[Hs _] _].
    rewrite items_next by done. change (Zb x2c =? 0x5d) with false. change (Zb x2c =? 0x2c) with true. cbn iota.
    assert (forall s, arrayLoop parse fuel (acc ++ [v]) (itemGap (S index) (S depth) ++ s) = arrayLoop parse fuel (acc ++ [v]) s) as ->.
    { intros s. destruct fuel; [done|]. cbn [arrayLoop]. rewrite Hgap by apply itemGap_blank. done. }
    rewrite (IH fuel vs (S index) (acc ++ [v]) t v') by (done || cbn in Hf; lia). by rewrite <- app_assoc.
Qed.
Lemma objectLoop_reads parse fuel depth texts :
  (forall gap s, blank gap -> parse (gap ++ s) = parse s) ->
  forall vs index object text v rest,
  Forall2 (fun t (m : bytes * any) => exists value, t = writeString m.1 ++ lit ": " ++ value /\ Valid m.1 = true /\
    forall rest, endsNumber rest -> parse (value ++ rest) = Ok (m.2, rest)) (text :: texts) (v :: vs) ->
  (length texts < fuel)%nat ->
  objectLoop parse fuel object (text ++ itemsText (S index) depth texts ++ x7d :: rest) =
    Ok (fold_left (fun o m => Set_ o m.1 m.2) (v :: vs) object, rest).
Proof.
  intros Hgap. revert fuel. induction texts as [|t texts IH]; intros fuel vs index object text v rest Hall Hf;
    (destruct fuel as [|fuel]; [lia|]); apply Forall2_cons in Hall as [(value & -> & Hv & Hread) Hall]; cbn [objectLoop];
    destruct (writeString_written _ Hv) as (w & Ew & _); rewrite <- app_assoc, skipSpace_value by (rewrite Ew; by exists x22, (w ++ [x22]));
    rewrite Ew at 1; cbn [app]; change (negb (Zb x22 =? 0x22)) with false; cbn iota;
    rewrite parseString_writeString by done; cbn [mbind res_bind]; change (lit ": " ++ value) with (x3a :: x20 :: value); cbn [app skipSpace];
    change (isJsonSpace x3a) with false; change (negb (Zb x3a =? 0x3a)) with false; cbn iota;
    match goal with |- context [parse (x20 :: ?s)] => change (x20 :: s) with ([x20] ++ s) end; (rewrite (Hgap [x20]) by (repeat constructor)); rewrite Hread by (apply items_end; by right); cbn [mbind res_bind].
  - apply Forall2_nil_inv_l in Hall as ->. rewrite items_close by done. done.
  - destruct vs as [|v' vs]; [by apply Forall2_cons_nil_inv in Hall|]. pose proof Hall as Hall'.
    apply Forall2_cons in Hall as [(value' & -> & Hv' & _) _]. destruct (writeString_written _ Hv') as (w' & Ew' & _).
    rewrite items_next by (rewrite Ew'; by exists x22, ((w' ++ [x22]) ++ lit ": " ++ value')).
    change (Zb x2c =? 0x7d) with false. change (Zb x2c =? 0x2c) with true. cbn iota.
    assert (forall o s, objectLoop parse fuel o (itemGap (S index) (S depth) ++ s) = objectLoop parse fuel o s) as ->.
    { intros o s. destruct fuel; [done|]. cbn [objectLoop]. by rewrite skipSpace_gap by apply itemGap_blank. }
    rewrite (IH fuel vs (S index) _ _ v') by (done || cbn in Hf; lia). done.
Qed.

Lemma texts_of (l : list any) depth :
  Forall (fun v => exists text, writeValue encoder v depth = Ok text /\ reads text (readAs v)) l ->
  exists texts, map (fun v => writeValue encoder v depth) l = map Ok texts /\ Forall2 (fun t v => reads t (readAs v)) texts l.
Proof.
  induction 1 as [|v l (t & E & Ht) _ (ts & Es & Hts)]; [by exists []|]. exists (t :: ts). cbn. rewrite E, Es. by split; [|constructor].
Qed.
Lemma items_length index depth texts t : t ∈ texts -> (length t <= length (itemsText index depth texts))%nat.
Proof.
  revert index. induction texts as [|u texts IH]; intros index; [by rewrite elem_of_nil|]. rewrite elem_of_cons. cbn [itemsText].
  rewrite !length_app. intros [->|Hin]; [lia|]. specialize (IH (S index) Hin). lia.
Qed.
Lemma items_count index depth texts :
  Forall (fun t => t <> []) texts -> (length texts <= length (itemsText index depth texts))%nat.
Proof.
  intros Hall. revert index. induction Hall as [|t texts Ht _ IH]; intros index; cbn [itemsText length]; [lia|].
  rewrite !length_app. specialize (IH (S index)). destruct t; [done|]. cbn [length]. lia.
Qed.
Lemma startsValue_nonempty t : startsValue t -> t <> [].
Proof. intros (c & s & -> & _). done. Qed.

Lemma reads_literal text v :
  startsValue text -> text <> [] -> (forall fuel rest, endsNumber rest -> parseValue (S fuel) (text ++ rest) = Ok (v, rest)) -> reads text v.
Proof. intros Hs _ Hp. split; [done|]. intros [|fuel] rest Hf Hr; [lia|]. by apply Hp. Qed.
Lemma reads_number n : reads (FormatInt n) (asNumber n).
Proof.
  destruct (FormatInt_starts n) as (c & s & E & Hc).
  assert (forall k, 57 < k \/ k < 45 -> (Zb c =? k) = false) as Hne by (intros k Hk; apply Z.eqb_neq; lia).
  apply reads_literal.
  - exists c, s. split; [done|]. unfold isJsonSpace. rewrite (Hne 32), (Hne 9), (Hne 10), (Hne 13) by lia. split; [done|]. lia.
  - by rewrite E.
  - intros fuel rest Hr. pose proof (numberAt_int n rest Hr) as En. rewrite E in En |- *. cbn [app] in *. cbn [parseValue skipSpace].
    unfold isJsonSpace. rewrite (Hne 32), (Hne 9), (Hne 10), (Hne 13) by lia. cbn [orb]. cbn iota.
    rewrite (Hne 123), (Hne 91), (Hne 34), (Hne 116), (Hne 102), (Hne 110), (Hne 78), (Hne 73) by lia. unfold parseNumber. rewrite En. unfold asNumber. rewrite E.
    destruct Hc as [[Hm (d & t & -> & Hd)]|Hd].
    + rewrite Hm. cbn [Z.eqb Pos.eqb]. rewrite bool_decide_eq_false_2; [done|]. intros Ht. cbn in Ht. injection Ht as _ Ht _. assert (Zb d = 73) by (by rewrite Ht). lia.
    + rewrite (proj2 (Z.eqb_neq (Zb c) 0x2d)) by lia. unfold isDecimal. rewrite (proj2 (Z.leb_le 48 _)), (proj2 (Z.leb_le _ 57)) by lia. done.
Qed.
Ltac reads_constant :=
  eexists; split; [reflexivity|]; apply reads_literal;
    [by (do 2 eexists); split; [reflexivity|]; split_and!; [vm_compute; reflexivity|done..]|done|reflexivity].

Lemma write_array l depth :
  Forall (fun v => exists text, writeValue encoder v (S depth) = Ok text /\ reads text (readAs v)) l ->
  exists text, writeValue encoder (AArray l) depth = Ok text /\ reads text (readAs (AArray l)).
Proof.
  intros Hl. destruct l as [|v l]; [reads_constant|]. destruct (texts_of _ _ Hl) as (texts & Ew & Ht).
  destruct texts as [|t texts]; [by apply Forall2_nil_inv_l in Ht|].
  change (writeValue encoder (AArray (v :: l)) depth) with
    (text ← writeItems encoder 0 depth (map (fun v => writeValue encoder v (S depth)) (v :: l)); Ok (lit "[" ++ text ++ lit "]")).
  rewrite Ew, writeItems_texts. cbn [mbind res_bind]. eexists. split; [done|]. split; [by exists x5b, (itemsText 0 depth (t :: texts) ++ lit "]")|].
  intros fuel rest Hf Hr. destruct fuel as [|fuel]; [lia|]. change (lit "[" ++ itemsText 0 depth (t :: texts) ++ lit "]") with (x5b :: itemsText 0 depth (t :: texts) ++ [x5d]) in *.
  cbn [app]. rewrite <- app_assoc. cbn [app]. cbn [parseValue skipSpace]. change (isJsonSpace x5b) with false. change (Zb x5b =? 0x7b) with false.
  change (Zb x5b =? 0x5b) with true. cbn iota.
  assert (itemsText 0 depth (t :: texts) = itemGap 0 (S depth) ++ t ++ itemsText 1 depth texts) as Ei by done.
  pose proof Ht as Ht0. apply Forall2_cons in Ht as [[Hs _] _].
  assert (skipSpace (itemsText 0 depth (t :: texts) ++ x5d :: rest) = t ++ itemsText 1 depth texts ++ x5d :: rest) as ->.
  { rewrite Ei, <- !app_assoc, skipSpace_gap by apply itemGap_blank. by apply skipSpace_value. }
  destruct Hs as (d & u & Eu & _ & Hd & _). rewrite Eu. cbn [app]. rewrite (proj2 (Z.eqb_neq (Zb d) 0x5d)) by done.
  change (d :: u ++ itemsText 1 depth texts ++ x5d :: rest) with ((d :: u) ++ itemsText 1 depth texts ++ x5d :: rest). rewrite <- Eu.
  assert (Forall (fun u => length u < fuel)%nat (t :: texts)) as Hlen.
  { apply Forall_forall. intros x Hx. apply (items_length 0 depth) in Hx. cbn [length] in Hf. rewrite length_app in Hf. cbn [length] in Hf. lia. }
  rewrite (arrayLoop_reads (parseValue fuel) _ depth texts (map readAs l) (fun gap s => documentValue_gap fuel gap s) 0 [] t (readAs v) rest); [done| |].
  - change (readAs v :: map readAs l) with (map readAs (v :: l)). clear -Ht0 Hlen. revert Ht0 Hlen. generalize (t :: texts) as ts, (v :: l) as vs.
    intros ts vs Hall. induction Hall as [|x y ts vs [Hs Hx] _ IH]; intros Hlen; [constructor|].
    apply Forall_cons in Hlen as [Hlx Hlen]. constructor; [|by apply IH]. split; [done|]. intros rest Hr. by apply Hx.
  - assert (Forall (fun t => t <> []) (t :: texts)) as Hne.
    { clear -Ht0. induction Ht0 as [|x y ? ? [Hs _] _ IH]; constructor; [by apply startsValue_nonempty|done]. }
    apply (items_count 0 depth) in Hne. rewrite length_app. cbn [length] in *. lia.
Qed.

Lemma members_texts (members : list (bytes * any)) depth :
  Forall (fun m => Valid m.1 = true /\ exists text, writeValue encoder m.2 depth = Ok text /\ reads text (readAs m.2)) members ->
  exists texts, map writeMember (map (fun m => (m.1, writeValue encoder m.2 depth)) members) = map Ok texts /\
    Forall2 (fun t (m : bytes * any) => exists value, t = writeString m.1 ++ lit ": " ++ value /\ Valid m.1 = true /\ reads value (readAs m.2)) texts members.
Proof.
  induction 1 as [|m members (Hv & t & E & Ht) _ (ts & Es & Hts)]; [by exists []|].
  exists ((writeString m.1 ++ lit ": " ++ t) :: ts). cbn [map]. rewrite Es. unfold writeMember at 1. cbn [fst snd]. rewrite E. split; [done|].
  constructor; [|done]. by exists t.
Qed.
Lemma write_object members index depth :
  Forall (fun m => Valid m.1 = true /\ exists text, writeValue encoder m.2 (S depth) = Ok text /\ reads text (readAs m.2)) members ->
  exists text, writeValue encoder (AObject (MkObject members index)) depth = Ok text /\ reads text (readAs (AObject (MkObject members index))).
Proof.
  intros Hm. destruct members as [|m0 members0].
  { eexists. split; [reflexivity|]. apply reads_literal; [by exists x7b, [x7d]|done|].
    intros fuel rest _. cbn. unfold inOrder. by destruct (sortKeys encoder). }
  set (members := m0 :: members0) in *.
  assert (Forall (fun m => Valid m.1 = true /\ exists text, writeValue encoder m.2 (S depth) = Ok text /\ reads text (readAs m.2)) (inOrder encoder members)) as Ho
    by (by rewrite (inOrder_perm members)).
  destruct (members_texts _ _ Ho) as (texts & Ew & Ht).
  assert (inOrder encoder members <> []) as Hne by (intros E; pose proof (inOrder_perm members) as Hp; rewrite E in Hp; by apply Permutation_nil_cons in Hp).
  destruct texts as [|t texts]; [apply Forall2_nil_inv_l in Ht; done|].
  change (writeValue encoder (AObject (MkObject members index)) depth) with
    (text ← writeItems encoder 0 depth (map writeMember (inOrder encoder (map (fun m => (m.1, writeValue encoder m.2 (S depth))) members)));
     Ok (lit "{" ++ text ++ lit "}")).
  rewrite (inOrder_map (fun v => writeValue encoder v (S depth))), Ew, writeItems_texts. cbn [mbind res_bind].
  eexists. split; [done|]. split; [by exists x7b, (itemsText 0 depth (t :: texts) ++ lit "}")|].
  intros fuel rest Hf Hr. destruct fuel as [|fuel]; [lia|].
  change (lit "{" ++ itemsText 0 depth (t :: texts) ++ lit "}") with (x7b :: itemsText 0 depth (t :: texts) ++ [x7d]) in *.
  cbn [app]. rewrite <- app_assoc. cbn [app]. cbn [parseValue skipSpace]. change (isJsonSpace x7b) with false. change (Zb x7b =? 0x7b) with true. cbn iota.
  assert (itemsText 0 depth (t :: texts) = itemGap 0 (S depth) ++ t ++ itemsText 1 depth texts) as Ei by done.
  assert (forall x m, (exists value, x = writeString m.1 ++ lit ": " ++ value /\ Valid m.1 = true /\ reads value (readAs m.2)) ->
    startsValue x /\ exists u, x = x22 :: u) as Hstart.
  { intros x m (value & -> & Hv & _). destruct (writeString_written _ Hv) as (w & Ew' & _). rewrite Ew'. split; [|by eexists].
    by exists x22, ((w ++ [x22]) ++ lit ": " ++ value). }
  destruct (inOrder encoder members) as [|m ms] eqn:Ems; [done|].
  pose proof Ht as Ht0. apply Forall2_cons in Ht as [Hhead _]. destruct (Hstart _ _ Hhead) as [Hs (u & Eu)].
  assert (skipSpace (itemsText 0 depth (t :: texts) ++ x7d :: rest) = t ++ itemsText 1 depth texts ++ x7d :: rest) as ->.
  { rewrite Ei, <- !app_assoc, skipSpace_gap by apply itemGap_blank. by apply skipSpace_value. }
  rewrite Eu. cbn [app]. change (Zb x22 =? 0x7d) with false. cbn iota.
  change (x22 :: u ++ itemsText 1 depth texts ++ x7d :: rest) with ((x22 :: u) ++ itemsText 1 depth texts ++ x7d :: rest). rewrite <- Eu.
  assert (Forall (fun u => length u < fuel)%nat (t :: texts)) as Hlen.
  { apply Forall_forall. intros x Hx. apply (items_length 0 depth) in Hx. cbn [length] in Hf. rewrite length_app in Hf. cbn [length] in Hf. lia. }
  rewrite (objectLoop_reads (parseValue fuel) _ depth texts (fun gap s => documentValue_gap fuel gap s)
    (map (fun m => (m.1, readAs m.2)) ms) 0 emptyObject t (m.1, readAs m.2) rest).
  - cbn [mbind res_bind]. do 3 f_equal. cbn [readAs]. rewrite (inOrder_map readAs), Ems. done.
  - change ((m.1, readAs m.2) :: map (fun m => (m.1, readAs m.2)) ms) with (map (fun m => (m.1, readAs m.2)) (m :: ms)). clear -Ht0 Hlen.
    revert Ht0 Hlen. generalize (t :: texts) as ts, (m :: ms) as vs. intros ts vs Hall.
    induction Hall as [|x y ts vs (value & -> & Hv & [_ Hx]) _ IH]; intros Hlen; [constructor|].
    apply Forall_cons in Hlen as [Hlx Hlen]. constructor; [|by apply IH]. exists value. split; [done|]. split; [done|]. intros rest Hr.
    apply Hx; [|done]. rewrite !length_app in Hlx. lia.
  - assert (Forall (fun t => t <> []) (t :: texts)) as Hne'.
    { clear -Ht0 Hstart. induction Ht0 as [|x y ? ? Hx _ IH]; constructor; [by apply startsValue_nonempty, (Hstart x y)|done]. }
    apply (items_count 0 depth) in Hne'. rewrite length_app. cbn [length] in *. lia.
Qed.
Lemma write_reads v : writable v -> forall depth, exists text, writeValue encoder v depth = Ok text /\ reads text (readAs v).
Proof.
  induction v as [|b|literal|n| |negative|s|l IH|members index IH] using any_nested_ind; intros Hw depth; inversion Hw; subst.
  - reads_constant.
  - destruct b; reads_constant.
  - cbn [writeValue readAs]. unfold writeNumber. match goal with H : isFloatLiteral _ = _ |- _ => rewrite H end.
    match goal with H : bigIntString _ = _ |- _ => rewrite H end. eexists. split; [done|]. apply reads_number.
  - eexists. split; [done|]. apply reads_number.
  - reads_constant.
  - destruct negative; reads_constant.
  - destruct (writeString_written s) as (w & Ew & Hw'); [done|]. eexists. split; [done|]. cbn [readAs]. rewrite Ew.
    apply reads_literal; [by exists x22, (w ++ [x22])|done|]. intros fuel rest _. cbn [app]. cbn [parseValue skipSpace].
    change (isJsonSpace x22) with false. change (Zb x22 =? 0x7b) with false. change (Zb x22 =? 0x5b) with false. change (Zb x22 =? 0x22) with true. cbn iota.
    rewrite <- app_assoc. cbn [app]. by rewrite (parseString_written w s).
  - apply write_array. match goal with H : Forall writable l |- _ => rename H into Hl end. rewrite Forall_forall in *. intros v Hv. auto.
  - apply write_object. cbn [o_members] in *. match goal with H : Forall (fun m => Valid _ = true /\ _) members |- _ => rename H into Hl end.
    rewrite Forall_forall in *. intros m Hm. destruct (Hl m Hm). auto.
Qed.
End roundtrip.

(** ** Decoding ends *)

Lemma parseString_consumes s : s <> [] -> consumes s (parseString s).
Proof.
  intros Hs. unfold parseString. destruct (closingQuote false (tail s)) as [n|]; [|done]. pose proof (parseJson_returns (take (n + 2) s)) as Hr.
  destruct (parseJson _) as [v| | |]; try done. destruct v; try done. cbn [mbind res_bind consumes]. rewrite length_drop. destruct s; [done|]. cbn [length]. lia.
Qed.
Lemma parseLiteral_consumes literal v s : lit literal <> [] -> consumes s (parseLiteral literal v s).
Proof.
  intros Hl. unfold parseLiteral. case_bool_decide as E; [|done]. cbn [consumes]. rewrite length_drop. apply (f_equal length) in E. rewrite length_take in E.
  assert (length (lit literal) <> 0%nat) by (by intros ?%length_zero_iff_nil). lia.
Qed.
Lemma parseNumber_consumes s : consumes s (parseNumber s).
Proof. unfold parseNumber. destruct (numberAt s) as [[literal rest]|] eqn:E; [|done]. by apply numberAt_length in E. Qed.

Section ends.
Context (value : bytes -> res (any * bytes)) (longest : nat).
Context (value_consumes : forall s, (length s <= longest)%nat -> consumes s (value s)).
Lemma arrayLoop_consumes fuel acc s :
  (length s < fuel)%nat -> (length s <= longest)%nat -> consumes s (arrayLoop value fuel acc s).
Proof.
  revert acc s. induction fuel as [|fuel IH]; intros acc s Hf Hl; [lia|]. cbn [arrayLoop].
  apply consumes_bind; [by apply value_consumes|]. intros v rest Hr. destruct (skipSpace rest) as [|c s'] eqn:E; [done|]. apply skipSpace_cons in E.
  destruct (Zb c =? 0x5d); [cbn; lia|]. destruct (Zb c =? 0x2c); [|done]. eapply consumes_weaken; [|apply IH; lia]. lia.
Qed.
Lemma objectLoop_consumes fuel object s :
  (length s < fuel)%nat -> (length s <= longest)%nat -> consumes s (objectLoop value fuel object s).
Proof.
  revert object s. induction fuel as [|fuel IH]; intros object s Hf Hl; [lia|]. cbn [objectLoop]. pose proof (skipSpace_length s) as Hskip.
  destruct (skipSpace s) as [|q s1] eqn:E; [done|]. destruct (negb (Zb q =? 0x22)); [done|].
  apply consumes_bind; [eapply consumes_weaken; [exact Hskip|by apply parseString_consumes]|]. intros key rest Hr.
  destruct (skipSpace rest) as [|c s2] eqn:E2; [done|]. apply skipSpace_cons in E2. destruct (negb (Zb c =? 0x3a)); [done|].
  apply consumes_bind; [eapply consumes_weaken; [|apply value_consumes; lia]; lia|]. intros v rest2 Hr2.
  destruct (skipSpace rest2) as [|d s3] eqn:E3; [done|]. apply skipSpace_cons in E3. cbv zeta.
  destruct (Zb d =? 0x7d); [cbn; lia|]. destruct (Zb d =? 0x2c); [|done]. eapply consumes_weaken; [|apply IH; lia]. lia.
Qed.
End ends.
Lemma documentValue_consumes fuel s : (length s < fuel)%nat -> consumes s (parseValue fuel s).
Proof.
  revert s. induction fuel as [|fuel IH]; intros s Hl; [lia|]. cbn [parseValue]. pose proof (skipSpace_length s) as Hskip.
  destruct (skipSpace s) as [|c rest] eqn:E; [done|]. cbn [length] in Hskip.
  assert (forall s', (length s' <= length rest)%nat -> consumes s' (parseValue fuel s')) as Hvalue by (intros; apply IH; lia).
  assert (forall A (r : res (A * bytes)), consumes (c :: rest) r -> consumes s r) as Hweak by (intros A r; apply consumes_weaken; cbn; lia).
  cbv zeta. destruct (Zb c =? 0x7b).
  { destruct (skipSpace rest) as [|d after] eqn:E2; [done|]. pose proof (skipSpace_length rest) as H2. rewrite E2 in H2. cbn [length] in H2.
    destruct (Zb d =? 0x7d); [cbn; lia|]. apply consumes_bind; [|intros; cbn; lia].
    eapply consumes_weaken; [|apply (objectLoop_consumes _ (length rest) Hvalue); cbn [length]; lia]. cbn [length]. lia. }
  destruct (Zb c =? 0x5b).
  { destruct (skipSpace rest) as [|d after] eqn:E2; [done|]. pose proof (skipSpace_length rest) as H2. rewrite E2 in H2. cbn [length] in H2.
    destruct (Zb d =? 0x5d); [cbn; lia|]. apply consumes_bind; [|intros; cbn; lia].
    eapply consumes_weaken; [|apply (arrayLoop_consumes _ (length rest) Hvalue); cbn [length]; lia]. cbn [length]. lia. }
  apply Hweak. destruct (Zb c =? 0x22); [apply consumes_bind; [by apply parseString_consumes|intros; cbn in *; lia]|].
  repeat match goal with |- consumes _ (if Zb c =? ?k then parseLiteral _ _ _ else _) => destruct (Zb c =? k); [by apply parseLiteral_consumes|] end.
  destruct (Zb c =? 0x2d); [case_bool_decide; [by apply parseLiteral_consumes|apply parseNumber_consumes]|].
  destruct (isDecimal c); [apply parseNumber_consumes|done].
Qed.
Lemma decode_returns data : returns (decodeOrderedJSON data).
Proof.
  unfold decodeOrderedJSON. pose proof (documentValue_consumes (S (length data)) data ltac:(lia)) as Hc.
  destruct (parseValue _ _) as [[v rest]| | |]; cbn in *; [|done..]. by destruct (skipSpace rest).
Qed.

Lemma decode_write encoder v :
  writable v -> exists text, writeValue encoder v 0 = Ok text /\ decodeOrderedJSON text = Ok (readAs encoder v).
Proof.
  intros Hv. destruct (write_reads encoder v Hv 0) as (text & Ew & _ & Hr). exists text. split; [done|].
  unfold decodeOrderedJSON. pose proof (Hr (S (length text)) [] ltac:(lia) I) as E. rewrite app_nil_r in E. by rewrite E.
Qed.

(** ** Objects as they are read back *)

Definition readObject (encoder : pythonJSONEncoder) (o : Object any) : Object any :=
  NewObject (inOrder encoder (map (fun m => (m.1, readAs encoder m.2)) (o_members o))).
Lemma readAs_object encoder o : readAs encoder (AObject o) = AObject (readObject encoder o).
Proof. by destruct o. Qed.
Lemma memberOf_perm {A} (l l' : list (bytes * A)) key : NoDup (map fst l) -> l ≡ₚ l' -> memberOf l key = memberOf l' key.
Proof.
  intros Hnd Hp. assert (NoDup (map fst l')) as Hnd' by (by rewrite <- Hp). unfold memberOf.
  destruct (mapLookup key l) as [v|] eqn:E.
  - symmetry. apply mapLookup_in in E. rewrite Hp in E. apply list_elem_of_lookup in E as [i Hi]. by eapply mapLookup_at.
  - symmetry. apply mapLookup_none. rewrite <- Hp. intros (m & -> & Hin)%list_elem_of_fmap. apply list_elem_of_lookup in Hin as [i Hi].
    destruct m as [k v]. pose proof (mapLookup_at l k v i Hnd Hi) as E'. cbn in E. congruence.
Qed.
Lemma memberOf_map {A B} (f : A -> B) (l : list (bytes * A)) key : memberOf (map (fun m => (m.1, f m.2)) l) key = f <$> memberOf l key.
Proof. unfold memberOf. induction l as [|[k v] l IH]; [done|]. cbn. by destruct (decide (key = k)). Qed.
Lemma readObject_members encoder o : objectOK o ->
  o_members (readObject encoder o) = inOrder encoder (map (fun m => (m.1, readAs encoder m.2)) (o_members o)).
Proof. intros Hok. apply NewObject_members. rewrite inOrder_perm, map_map. by apply ok_nodup. Qed.
Lemma Get_readObject encoder o key : objectOK o -> Get (readObject encoder o) key = readAs encoder <$> Get o key.
Proof.
  intros Hok. rewrite Get_spec by apply NewObject_ok. rewrite readObject_members by done.
  rewrite (memberOf_perm _ (map (fun m => (m.1, readAs encoder m.2)) (o_members o))).
  - by rewrite memberOf_map, Get_spec.
  - rewrite inOrder_perm, map_map. by apply ok_nodup.
  - apply inOrder_perm.
Qed.
Lemma Keys_readObject encoder o : objectOK o -> Keys (readObject encoder o) ≡ₚ Keys o.
Proof. intros Hok. unfold Keys. rewrite readObject_members by done. by rewrite inOrder_perm, map_map. Qed.
Lemma Len_readObject encoder o : objectOK o -> Len (readObject encoder o) = Len o.
Proof. intros Hok. pose proof (Permutation_length (Keys_readObject encoder o Hok)) as E. unfold Keys in E. by rewrite !length_map in E. Qed.
Lemma writable_get o key v : writable (AObject o) -> Get o key = Some v -> writable v.
Proof.
  intros Hw Hg. inversion_clear Hw as [| | | | | | | |? Hok Hm]. rewrite Get_spec in Hg by done. apply mapLookup_in in Hg.
  rewrite Forall_forall in Hm. by apply (Hm (key, v)).
Qed.
Lemma writable_ok o : writable (AObject o) -> objectOK o.
Proof. by inversion 1. Qed.

Lemma readAs_writable encoder v : writable v -> (forall n, isFloatLiteral (FormatInt n) = false /\ bigIntString (FormatInt n) = Some n) ->
  writable (readAs encoder v).
Proof.
  intros Hv Hn. assert (forall n, writable (asNumber n)) as Hnumber by (intros n; destruct (Hn n); by eapply writable_number).
  revert Hv. induction v as [| | | | | | |l IH|members index IH] using any_nested_ind; intros Hv; try exact Hv; try apply Hnumber.
  - cbn [readAs]. inversion Hv; subst. match goal with H : bigIntString _ = _ |- _ => rewrite H end. apply Hnumber.
  - inversion_clear Hv as [| | | | | | |? Hl|]. cbn [readAs]. apply writable_array. rewrite Forall_map. rewrite Forall_forall in IH, Hl |- *. auto.
  - inversion_clear Hv as [| | | | | | | |? Hok Hm]. rewrite readAs_object. apply writable_object; [apply NewObject_ok|].
    rewrite readObject_members by done. rewrite inOrder_perm, Forall_map. cbn [o_members] in *. rewrite Forall_forall in IH, Hm |- *.
    intros m Hin. destruct (Hm m Hin). cbn. auto.
Qed.


Definition exampleValue : any :=
  AObject (NewObject [(lit "b", AArray [AInt (-7); AString [xc3; xa9; x22; x0a; xf0; x9f; x98; x80]]); (lit "a", ANil)]).
