(* ===== verification/Preferences.v ===== *)
(** * Preferences with timestamps

    Model of [wallet/preferences.go]: each preference has the time at which it was
    set, and of two versions of a preference the later one counts.  Timestamps are
    JSON values, compared as Python compares its numbers. *)

From S2P Require Import Prelude Digest Utf8 Decimal Bencode Json Float JsonValue PythonInt WalletObject WalletJson.

Definition ErrPreferenceEntry : string := "preference entry has the wrong type, want object".
Definition ErrPreferenceValue : string := "preference has no value".
Definition ErrPreferenceTimestamp : string := "preference has no timestamp".
Definition ErrPreferenceLocal : string := "preference local entry has no timestamp".
Definition ErrTimestamp : string := "timestamp has non-numeric type".

(** ** Numbers *)

(** [comparableNumber]: a fraction, an infinity with its sign, or not a number. *)
Inductive comparableNumber := Rational (n d : Z) | Infinite (sign : Z) | NotANumber.
Definition comparableFloat (f : float64) : comparableNumber :=
  let '(n, d) := magnitude f in Rational (if f_Negative f then - n else n) d.
Definition pythonComparableNumber (value : any) : res comparableNumber :=
  match value with
  | ANil => Err "timestamp is null"
  | ABool b => Ok (Rational (if b then 1 else 0) 1)
  | ANumber text =>
      match (if isFloatLiteral text then None else bigIntString text) with
      | Some n => Ok (Rational n 1)
      | None =>
          match numberParts text with
          | None => Err ErrSyntax
          | Some (negative, _, _) =>
              match floatOf text with
              | Some f => Ok (comparableFloat f)
              | None => Ok (Infinite (if negative : bool then -1 else 1))
              end
          end
      end
  | AInt n => Ok (Rational n 1)
  | ANaN => Ok NotANumber
  | AInfinity negative => Ok (Infinite (if negative then -1 else 1))
  | _ => Err ErrTimestamp
  end.
Definition infinityOf (c : comparableNumber) : Z := match c with Infinite sign => sign | _ => 0 end.
Definition numberLess (left right : comparableNumber) : bool :=
  match left, right with
  | NotANumber, _ | _, NotANumber => false
  | Rational n d, Rational n' d' => n * d' <? n' * d
  | _, _ => infinityOf left <? infinityOf right
  end.
Definition pythonNumberLess (left right : any) : res bool :=
  l ← pythonComparableNumber left;
  r ← pythonComparableNumber right;
  Ok (numberLess l r).

(** ** Preferences *)

(** [TimestampedPreferences]; the clock is an argument of [Set_]. *)
Definition TimestampedPreferences : Type := Object any.
Definition NewTimestampedPreferences (data : Object any) : TimestampedPreferences := ShallowCopy data.
(** The value, if there is one. *)
Definition entryValue (entry : any) : res any :=
  match entry with
  | AObject entry => match Get entry (lit "value") with Some value => Ok value | None => Err ErrPreferenceValue end
  | _ => Err ErrPreferenceEntry
  end.
Definition GetPreference (preferences : TimestampedPreferences) (key : bytes) : res (option any) :=
  match Get preferences key with
  | None => Ok None
  | Some entry => value ← entryValue entry; Ok (Some value)
  end.
Definition GetOr (preferences : TimestampedPreferences) (key : bytes) (fallback : any) : res any :=
  value ← GetPreference preferences key; Ok (default fallback value).
Definition SetAt (preferences : TimestampedPreferences) (key : bytes) (value : any) (timestamp : Z) : TimestampedPreferences :=
  Set_ preferences key (AObject (NewObject [(lit "value", value); (lit "ts", AInt timestamp)])).
(** [now] is the clock's time, whole seconds. *)
Definition SetPreference (now : Z) (preferences : TimestampedPreferences) (key : bytes) (value : any) : TimestampedPreferences :=
  SetAt preferences key value now.
(** Whether the incoming entry of a preference replaces the local one. *)
Definition replaces (incoming localValue : any) : res bool :=
  match incoming with
  | AObject incoming =>
      match Get incoming (lit "ts") with
      | None => Err ErrPreferenceTimestamp
      | Some incomingTimestamp =>
          match localValue with
          | AObject local =>
              match Get local (lit "ts") with
              | None => Err ErrPreferenceLocal
              | Some localTimestamp => older ← pythonNumberLess incomingTimestamp localTimestamp; Ok (negb older)
              end
          | _ => Err ErrPreferenceEntry
          end
      end
  | _ => Err ErrPreferenceEntry
  end.
(** The members one by one; what was merged before an error stays. *)
Fixpoint mergeMembers (preferences : TimestampedPreferences) (members : list (bytes * any)) : TimestampedPreferences * res unit :=
  match members with
  | [] => (preferences, Ok tt)
  | (key, incoming) :: members =>
      match Get preferences key with
      | None => mergeMembers (Set_ preferences key incoming) members
      | Some local =>
          match replaces incoming local with
          | Ok true => mergeMembers (Set_ preferences key incoming) members
          | Ok false => mergeMembers preferences members
          | Err e => (preferences, Err e)
          | Panic => (preferences, Panic)
          | NoFuel => (preferences, NoFuel)
          end
      end
  end.
Definition MergePreferences (preferences : TimestampedPreferences) (other : Object any) : TimestampedPreferences * res unit :=
  mergeMembers preferences (o_members other).
Fixpoint valuesOf (result : Object any) (members : list (bytes * any)) : res (Object any) :=
  match members with
  | [] => Ok result
  | (key, entry) :: members => value ← entryValue entry; valuesOf (Set_ result key value) members
  end.
Definition WithoutTimestamps (preferences : TimestampedPreferences) : res (Object any) := valuesOf emptyObject (o_members preferences).
Definition HashJSON (preferences : TimestampedPreferences) : res bytes := encodePreferenceJSON (AObject preferences).
Definition HashPreferences `{Digests} (preferences : TimestampedPreferences) : res bytes := encoded ← HashJSON preferences; Ok (sha256 encoded).

(** ** Merging *)

(** An entry as the program sets it and as other wallets send it. *)
Definition timestampOf (entry : any) : option comparableNumber :=
  match entry with
  | AObject entry =>
      timestamp ← Get entry (lit "ts");
      match pythonComparableNumber timestamp with Ok c => Some c | _ => None end
  | _ => None
  end.
Definition timed (entry : any) : Prop := is_Some (timestampOf entry).
(** Of two timed entries the first is older than the second. *)
Definition older (a b : any) : bool :=
  match timestampOf a, timestampOf b with Some x, Some y => numberLess x y | _, _ => false end.

Lemma comparableFloat_positive f : exists n d, comparableFloat f = Rational n d /\ 0 < d.
Proof.
  unfold comparableFloat, magnitude, scaled. destruct (Z.ltb_spec (- f_Scale f) 0); (do 2 eexists; split; [done|]); [|lia].
  rewrite Z.opp_involutive, Z.mul_1_l. apply Z.pow_pos_nonneg; lia.
Qed.
Definition comparableOK (c : comparableNumber) : Prop :=
  match c with Rational _ d => 0 < d | Infinite sign => sign = 1 \/ sign = -1 | NotANumber => True end.
Lemma comparable_ok value c : pythonComparableNumber value = Ok c -> comparableOK c.
Proof.
  unfold pythonComparableNumber. destruct value; try done; intros E; try (by injection E as <-).
  - destruct (if isFloatLiteral literal then None else bigIntString literal); [by injection E as <-|].
    destruct (numberParts literal) as [[[negative ?] ?]|]; [|done]. destruct (floatOf literal) as [f|]; injection E as <-.
    + by destruct (comparableFloat_positive f) as (n & d & -> & ?).
    + destruct negative; cbn; auto.
  - injection E as <-. destruct negative; cbn; auto.
Qed.
Lemma less_asym a b : comparableOK a -> comparableOK b -> numberLess a b = true -> numberLess b a = false.
Proof. destruct a, b; cbn; try done; intros Ha Hb; rewrite Z.ltb_lt, Z.ltb_ge; lia. Qed.
Lemma less_irrefl a : numberLess a a = false.
Proof. destruct a; cbn; [apply Z.ltb_irrefl..|done]. Qed.
Lemma timestamp_ok entry c : timestampOf entry = Some c -> comparableOK c.
Proof.
  unfold timestampOf. destruct entry as [| | | | | | | |o]; try done. destruct (Get o (lit "ts")) as [t|]; [|done].
  cbn [mbind option_bind]. destruct (pythonComparableNumber t) as [c'| | |] eqn:E; try done. intros [= <-]. by eapply comparable_ok.
Qed.
Lemma older_asym a b : older a b = true -> older b a = false.
Proof.
  unfold older. destruct (timestampOf a) as [x|] eqn:Ea; [|done]. destruct (timestampOf b) as [y|] eqn:Eb; [|done].
  apply less_asym; by eapply timestamp_ok.
Qed.
Lemma older_irrefl a : older a a = false.
Proof. unfold older. destruct (timestampOf a); [apply less_irrefl|done]. Qed.
Lemma replaces_timed incoming local : timed incoming -> timed local -> replaces incoming local = Ok (negb (older incoming local)).
Proof.
  unfold timed, older, timestampOf, replaces, pythonNumberLess.
  destruct incoming as [| | | | | | | |i]; try (by intros [? ?]). destruct local as [| | | | | | | |l]; try (by intros ? [? ?]).
  destruct (Get i (lit "ts")) as [it|]; [|by intros [? ?]]. destruct (Get l (lit "ts")) as [lt|]; [|by intros ? [? ?]].
  cbn [mbind option_bind]. destruct (pythonComparableNumber it); try (by intros [? ?]).
  by destruct (pythonComparableNumber lt); try (by intros ? [? ?]).
Qed.

(** What merging leaves for a preference. *)
Definition merged (local incoming : option any) : option any :=
  match local, incoming with
  | Some l, Some i => Some (if older i l then l else i)
  | None, i => i
  | l, None => l
  end.
Definition allTimed (preferences : Object any) : Prop := Forall (fun m => timed m.2) (o_members preferences).

Lemma Get_Set_ {A} (object : Object A) key value key' :
  objectOK object -> Get (Set_ object key value) key' = if decide (key' = key) then Some value else Get object key'.
Proof.
  intros Hok. destruct (Set_members object key value Hok) as [Hok' E]. rewrite !Get_spec, E by done. unfold memberOf, setMember.
  generalize (o_members object) as members. intros members. induction members as [|[k v] members IH]; cbn.
  - by destruct (decide (key' = key)).
  - destruct (decide (key = k)) as [->|Hne]; cbn; [by destruct (decide (key' = k))|].
    destruct (decide (key' = k)) as [->|]; [by rewrite decide_False by congruence|exact IH].
Qed.
Lemma Get_timed preferences key entry : objectOK preferences -> allTimed preferences -> Get preferences key = Some entry -> timed entry.
Proof.
  intros Hok Ht. rewrite Get_spec by done. intros E%mapLookup_in. unfold allTimed in Ht. rewrite Forall_forall in Ht. by apply (Ht (key, entry)).
Qed.
Lemma Set_timed preferences key entry : objectOK preferences -> allTimed preferences -> timed entry -> allTimed (Set_ preferences key entry).
Proof.
  intros Hok Ht He. unfold allTimed. rewrite (proj2 (Set_members preferences key entry Hok)). unfold setMember, allTimed in *.
  generalize dependent (o_members preferences). intros members Ht. induction Ht as [|[k v] members Hv Hm IH]; cbn; [by repeat constructor|].
  by destruct (decide (key = k)); constructor.
Qed.
Lemma Get_key {A} (object : Object A) key value : objectOK object -> Get object key = Some value -> key ∈ Keys object.
Proof. intros Hok. rewrite Get_spec by done. intros Hin%mapLookup_in. apply list_elem_of_fmap. by exists (key, value). Qed.
Lemma Get_nokey {A} (object : Object A) key : objectOK object -> Get object key = None <-> key ∉ Keys object.
Proof.
  intros Hok. rewrite <- index_none by done. unfold Get. destruct (o_index object !! key) as [i|] eqn:E; [|done].
  apply Hok in E as [v Hv]. cbn. by rewrite Hv.
Qed.
(** The keys that were there keep their places, the new ones follow. *)
Definition appended (keys incoming : list bytes) : list bytes := keys ++ List.filter (fun k => negb (bool_decide (k ∈ keys))) incoming.
Lemma Keys_Set_ {A} (object : Object A) key value :
  objectOK object -> Keys (Set_ object key value) = if bool_decide (key ∈ Keys object) then Keys object else Keys object ++ [key].
Proof.
  intros Hok. unfold Keys. rewrite (proj2 (Set_members object key value Hok)). unfold setMember. generalize (o_members object) as members.
  intros members. induction members as [|[k v] members IH]; cbn; [done|]. destruct (decide (key = k)) as [->|Hne]; cbn.
  - rewrite bool_decide_eq_true_2; [done|by left].
  - rewrite IH, (bool_decide_ext (key ∈ k :: map fst members) (key ∈ map fst members)) by (rewrite elem_of_cons; tauto).
    by destruct (bool_decide (key ∈ map fst members)).
Qed.
Lemma mergeMembers_spec preferences members :
  objectOK preferences -> allTimed preferences -> NoDup (map fst members) -> Forall (fun m => timed m.2) members ->
  exists preferences', mergeMembers preferences members = (preferences', Ok tt) /\ objectOK preferences' /\ allTimed preferences' /\
    (forall key, Get preferences' key = merged (Get preferences key) (memberOf members key)) /\
    Keys preferences' = appended (Keys preferences) (map fst members).
Proof.
  revert preferences. induction members as [|[key incoming] members IH]; intros preferences Hok Ht Hnd Hm; cbn [mergeMembers].
  { exists preferences. split_and!; try done; [|unfold appended; cbn; by rewrite app_nil_r]. intros key. cbn. by destruct (Get preferences key). }
  cbn in Hnd. apply NoDup_cons in Hnd as [Hnew Hnd]. apply Forall_cons in Hm as [Hi Hm]. cbn in Hi.
  assert (memberOf members key = None) as Hnone by (by apply mapLookup_none).
  destruct (Get preferences key) as [local|] eqn:Eg.
  - assert (timed local) as Hl by (by eapply Get_timed).
    assert (key ∈ Keys preferences) as Hin by (by eapply Get_key).
    assert (forall preferences' : Object any, Keys preferences' = Keys preferences ->
      appended (Keys preferences') (map fst members) = appended (Keys preferences) (key :: map fst members)) as Happ.
    { intros p ->. unfold appended. cbn. by rewrite bool_decide_eq_true_2. }
    rewrite replaces_timed by done. destruct (older incoming local) eqn:Eo; cbn [negb].
    + destruct (IH preferences) as (p & Ep & Hok' & Ht' & Hg & Hk); [done..|]. exists p. split_and!; try done.
      * intros k. rewrite Hg. unfold memberOf in *. cbn. destruct (decide (k = key)) as [->|]; [|done]. by rewrite Hnone, Eg; cbn; rewrite Eo.
      * by rewrite Hk, Happ.
    + destruct (IH (Set_ preferences key incoming)) as (p & Ep & Hok' & Ht' & Hg & Hk); [by apply Set_members|by apply Set_timed|done..|].
      exists p. split_and!; try done.
      * intros k. rewrite Hg, Get_Set_ by done. unfold memberOf in *. cbn. destruct (decide (k = key)) as [->|]; [|done]. by rewrite Hnone, Eg; cbn; rewrite Eo.
      * rewrite Hk, Happ; [done|]. rewrite Keys_Set_ by done. by rewrite bool_decide_eq_true_2.
  - assert (key ∉ Keys preferences) as Hout by (by apply Get_nokey).
    destruct (IH (Set_ preferences key incoming)) as (p & Ep & Hok' & Ht' & Hg & Hk); [by apply Set_members|by apply Set_timed|done..|].
    exists p. split_and!; try done.
    + intros k. rewrite Hg, Get_Set_ by done. unfold memberOf in *. cbn. destruct (decide (k = key)) as [->|]; [|done]. by rewrite Hnone, Eg.
    + rewrite Hk, Keys_Set_ by done. rewrite bool_decide_eq_false_2 by done. unfold appended. cbn.
      rewrite bool_decide_eq_false_2 by done. cbn. rewrite <- app_assoc. f_equal. cbn. f_equal. apply List.filter_ext_in.
      intros k Hin%list_elem_of_In. f_equal. apply bool_decide_ext. rewrite elem_of_app, list_elem_of_singleton.
      split; [intros [?| ->]; done|auto].
Qed.

(** Objects with the same keys in the same order and the same values are the same. *)
Lemma object_ext {A} (object object' : Object A) :
  objectOK object -> objectOK object' -> Keys object = Keys object' -> (forall key, Get object key = Get object' key) -> object = object'.
Proof.
  intros H1 H2 Hk Hg. apply index_unique; try done.
  assert (forall key, memberOf (o_members object) key = memberOf (o_members object') key) as Hm by (intros key; by rewrite <- !Get_spec).
  pose proof (ok_nodup _ H1) as Hnd. unfold Keys in *. revert Hk Hm Hnd. clear. generalize (o_members object) as l, (o_members object') as l'.
  induction l as [|[k v] l IH]; intros [|[k' v'] l']; try done. cbn. intros [= <- Hk] Hm [Hn Hnd]%NoDup_cons.
  assert (v = v') as <- by (specialize (Hm k); unfold memberOf in Hm; cbn in Hm; rewrite !decide_True in Hm by done; congruence).
  f_equal. apply IH; try done. intros key. specialize (Hm key). unfold memberOf in *. cbn in Hm.
  destruct (decide (key = k)) as [->|]; [|done]. by rewrite !mapLookup_none by (by rewrite <- ?Hk).
Qed.
Lemma merge_spec a b : objectOK a -> objectOK b -> allTimed a -> allTimed b ->
  exists ab, MergePreferences a b = (ab, Ok tt) /\ objectOK ab /\ allTimed ab /\
    (forall key, Get ab key = merged (Get a key) (Get b key)) /\ Keys ab = appended (Keys a) (Keys b).
Proof.
  intros Ha Hb Hta Htb. destruct (mergeMembers_spec a (o_members b) Ha Hta (ok_nodup _ Hb) Htb) as (ab & E & Hok & Ht & Hg & Hk).
  exists ab. split_and!; try done. intros key. by rewrite Hg, <- Get_spec.
Qed.
Lemma merged_twice l i : merged (merged l i) i = merged l i.
Proof.
  destruct l as [l|], i as [i|]; cbn; try done; [|by rewrite older_irrefl].
  destruct (older i l) eqn:E; [by rewrite E|by rewrite older_irrefl].
Qed.
Lemma merged_agree x y : older x y = true \/ older y x = true -> merged (Some x) (Some y) = merged (Some y) (Some x).
Proof. cbn. intros [E|E]; by rewrite E, (older_asym _ _ E). Qed.
Lemma appended_twice keys incoming : appended (appended keys incoming) incoming = appended keys incoming.
Proof.
  unfold appended at 1. assert (List.filter (fun k => negb (bool_decide (k ∈ appended keys incoming))) incoming = []) as ->; [|apply app_nil_r].
  apply elem_of_nil_inv. intros k [Hk Hn]%list_elem_of_In%filter_In. apply negb_true_iff, bool_decide_eq_false_1 in Hn.
  apply Hn. unfold appended. apply elem_of_app.
  destruct (decide (k ∈ keys)) as [|Hout]; [by left|right]. apply list_elem_of_In, filter_In. by rewrite bool_decide_eq_false_2.
Qed.

(** C20: the preferences of two wallets, each with timestamps, merge without an error: a
    preference of only one of them is taken as it is, of the two versions of a
    preference the incoming one counts unless its timestamp is the older one, and the
    preferences keep their places with the new ones after them.  Merging the same
    preferences again changes nothing, and wallets that merge each other's
    preferences agree on each one whose timestamps differ. *)
Theorem preferences_merge (a b : TimestampedPreferences) (Ha : objectOK a) (Hb : objectOK b) (Hta : allTimed a) (Htb : allTimed b) :
  exists ab ba, MergePreferences a b = (ab, Ok tt) /\ MergePreferences b a = (ba, Ok tt) /\ objectOK ab /\ allTimed ab /\
    (forall key, Get ab key = merged (Get a key) (Get b key)) /\ Keys ab = appended (Keys a) (Keys b) /\
    MergePreferences ab b = (ab, Ok tt) /\
    (forall key, match Get a key, Get b key with Some x, Some y => older x y = true \/ older y x = true | _, _ => True end -> Get ab key = Get ba key).
Proof.
  destruct (merge_spec a b Ha Hb Hta Htb) as (ab & Eab & Hok & Ht & Hg & Hk).
  destruct (merge_spec b a Hb Ha Htb Hta) as (ba & Eba & Hok' & Ht' & Hg' & Hk').
  destruct (merge_spec ab b Hok Hb Ht Htb) as (abb & Eabb & Hok'' & Ht'' & Hg'' & Hk'').
  exists ab, ba. split_and!; try done.
  - rewrite Eabb. f_equal. apply object_ext; try done; [by rewrite Hk'', Hk, appended_twice|].
    intros key. by rewrite Hg'', Hg, merged_twice.
  - intros key Hd. rewrite Hg, Hg'. destruct (Get a key), (Get b key); try done. by apply merged_agree.
Qed.
Definition exampleEntry (value : string) (ts : any) : any := AObject (NewObject [(lit "value", AString (lit value)); (lit "ts", ts)]).
Definition exampleLocal : Object any := NewObject [(lit "theme", exampleEntry "dark" (AInt 10)); (lit "local", exampleEntry "x" (AInt 1))].
Definition exampleIncoming : Object any := NewObject [(lit "new", exampleEntry "y" (AInt 3)); (lit "theme", exampleEntry "light" (ANumber (lit "12")))].
Example merge_example : WithoutTimestamps (MergePreferences exampleLocal exampleIncoming).1 =
  Ok (NewObject [(lit "theme", AString (lit "light")); (lit "local", AString (lit "x")); (lit "new", AString (lit "y"))]).
Proof. vm_compute. reflexivity. Qed.
Lemma preferences_merge_witness : exists ab, MergePreferences exampleLocal exampleIncoming = (ab, Ok tt) /\
  Get ab (lit "theme") = Some (exampleEntry "light" (ANumber (lit "12"))).
Proof.
  destruct (preferences_merge exampleLocal exampleIncoming) as (ab & ba & E & _ & _ & _ & Hg & _).
  - apply NewObject_ok.
  - apply NewObject_ok.
  - repeat constructor; by eexists.
  - repeat constructor; by eexists.
  - exists ab. split; [exact E|]. rewrite Hg. vm_compute. reflexivity.
Defined.
