(* ===== verification/Normalize.v ===== *)
(** * The normalization of mnemonics

    Model of [wallet/mnemonic/normalize.go]: decomposition, lower case, the
    removal of accents, of repeated white space and of spaces between CJK
    characters.  The decompositions and the case mappings are those of
    [golang.org/x/text], an interface here; the tables of the file are written
    out.  A string as bytes and a list of runes are converted as Go converts
    [string] and [[]rune]. *)

From S2P Require Import Prelude Bits Utf8 Runes.

(** [golang.org/x/text]: [norm.NFKD.String], the canonical combining class of
    [norm.NFKD.PropertiesString], [cases.Lower] without and with the handling of
    the final sigma. *)
Class UnicodeText := {
  NFKD : bytes -> bytes;
  CCC : bytes -> Z;
  simpleLower : bytes -> bytes;
  contextLower : bytes -> bytes
}.

(** ** Tables *)

Definition cjkIntervals : list (Z * Z) := [
  (0x4e00, 0x9fff); (0x3400, 0x4dbf); (0x20000, 0x2a6df); (0x2a700, 0x2b73f); (0x2b740, 0x2b81f);
  (0xf900, 0xfaff); (0x2f800, 0x2fa1d); (0x3190, 0x319f); (0x2e80, 0x2eff); (0x2f00, 0x2fdf);
  (0x31c0, 0x31ef); (0x2ff0, 0x2fff); (0xe0100, 0xe01ef); (0x3100, 0x312f); (0x31a0, 0x31bf);
  (0xff00, 0xffef); (0x3040, 0x309f); (0x30a0, 0x30ff); (0x31f0, 0x31ff); (0x1b000, 0x1b0ff);
  (0xac00, 0xd7af); (0x1100, 0x11ff); (0xa960, 0xa97f); (0xd7b0, 0xd7ff); (0x3130, 0x318f); (0xa4d0, 0xa4ff);
  (0x16f00, 0x16f9f); (0xa000, 0xa48f); (0xa490, 0xa4cf)].
Definition postUnicode14Assignments : list (Z * Z) := [
  (0x0cf3, 0x0cf3); (0x0ece, 0x0ece); (0x10efd, 0x10eff); (0x1123f, 0x11241); (0x11b00, 0x11b09);
  (0x11f00, 0x11f10); (0x11f12, 0x11f3a); (0x11f3e, 0x11f59); (0x1342f, 0x1342f); (0x13439, 0x13455);
  (0x1b132, 0x1b132); (0x1b155, 0x1b155); (0x1d2c0, 0x1d2d3); (0x1df25, 0x1df2a); (0x1e030, 0x1e06d);
  (0x1e08f, 0x1e08f); (0x1e4d0, 0x1e4f9); (0x1f6dc, 0x1f6dc); (0x1f774, 0x1f776); (0x1f77b, 0x1f77f);
  (0x1f7d9, 0x1f7d9); (0x1fa75, 0x1fa77); (0x1fa87, 0x1fa88); (0x1faad, 0x1faaf); (0x1fabb, 0x1fabd);
  (0x1fabf, 0x1fabf); (0x1face, 0x1facf); (0x1fada, 0x1fadb); (0x1fae8, 0x1fae8); (0x1faf7, 0x1faf8);
  (0x2b739, 0x2b739); (0x31350, 0x323af); (0x2ffc, 0x2fff); (0x31ef, 0x31ef); (0x2ebf0, 0x2ee5d);
  (0x0897, 0x0897); (0x1b4e, 0x1b4f); (0x1b7f, 0x1b7f); (0x1c89, 0x1c8a); (0x2427, 0x2429); (0x31e4, 0x31e5);
  (0xa7cb, 0xa7cd); (0xa7da, 0xa7dc); (0x105c0, 0x105f3); (0x10d40, 0x10d65); (0x10d69, 0x10d85);
  (0x10d8e, 0x10d8f); (0x10ec2, 0x10ec4); (0x10efc, 0x10efc); (0x11380, 0x11389); (0x1138b, 0x1138b);
  (0x1138e, 0x1138e); (0x11390, 0x113b5); (0x113b7, 0x113c0); (0x113c2, 0x113c2); (0x113c5, 0x113c5);
  (0x113c7, 0x113ca); (0x113cc, 0x113d5); (0x113d7, 0x113d8); (0x113e1, 0x113e2); (0x116d0, 0x116e3);
  (0x11bc0, 0x11be1); (0x11bf0, 0x11bf9); (0x11f5a, 0x11f5a); (0x13460, 0x143fa); (0x16100, 0x16139);
  (0x16d40, 0x16d79); (0x18cff, 0x18cff); (0x1cc00, 0x1ccf9); (0x1cd00, 0x1ceb3); (0x1e5d0, 0x1e5fa);
  (0x1e5ff, 0x1e5ff); (0x1f8b2, 0x1f8bb); (0x1f8c0, 0x1f8c1); (0x1fa89, 0x1fa89); (0x1fa8f, 0x1fa8f);
  (0x1fabe, 0x1fabe); (0x1fac6, 0x1fac6); (0x1fadc, 0x1fadc); (0x1fadf, 0x1fadf); (0x1fae9, 0x1fae9);
  (0x1fbcb, 0x1fbef); (0x088f, 0x088f); (0x0c5c, 0x0c5c); (0x0cdc, 0x0cdc); (0x1acf, 0x1add);
  (0x1ae0, 0x1aeb); (0x20c1, 0x20c1); (0x2b96, 0x2b96); (0xa7ce, 0xa7cf); (0xa7d2, 0xa7d2); (0xa7d4, 0xa7d4);
  (0xa7f1, 0xa7f1); (0xfbc3, 0xfbd2); (0xfd90, 0xfd91); (0xfdc8, 0xfdce); (0x10940, 0x10959);
  (0x10ec5, 0x10ec7); (0x10ed0, 0x10ed8); (0x10efa, 0x10efb); (0x11b60, 0x11b67); (0x11db0, 0x11ddb);
  (0x11de0, 0x11de9); (0x16ea0, 0x16eb8); (0x16ebb, 0x16ed3); (0x16ff2, 0x16ff6); (0x187f8, 0x187ff);
  (0x18d09, 0x18d1e); (0x18d80, 0x18df2); (0x1ccfa, 0x1ccfc); (0x1ceba, 0x1ced0); (0x1cee0, 0x1cef0);
  (0x1e6c0, 0x1e6de); (0x1e6e0, 0x1e6f5); (0x1e6fe, 0x1e6ff); (0x1f6d8, 0x1f6d8); (0x1f777, 0x1f77a);
  (0x1f8d0, 0x1f8d8); (0x1fa54, 0x1fa57); (0x1fa8a, 0x1fa8a); (0x1fa8e, 0x1fa8e); (0x1fac8, 0x1fac8);
  (0x1facd, 0x1facd); (0x1faea, 0x1faea); (0x1faef, 0x1faef); (0x1fbfa, 0x1fbfa); (0x2b73a, 0x2b73f);
  (0x2cea2, 0x2cead); (0x323b0, 0x33479)].
Definition inIntervals (value : Z) (intervals : list (Z * Z)) : bool :=
  existsb (fun interval => (interval.1 <=? value) && (value <=? interval.2)) intervals.
Definition isCJK (value : Z) : bool := inIntervals value cjkIntervals.
Definition isPostUnicode14Assignment (value : Z) : bool := inIntervals value postUnicode14Assignments.
Definition isPythonWhitespace (value : Z) : bool :=
  (0x09 <=? value) && (value <=? 0x0d) || (0x1c <=? value) && (value <=? 0x20) ||
  (value =? 0x85) || (value =? 0xa0) || (value =? 0x1680) ||
  (0x2000 <=? value) && (value <=? 0x200a) || (value =? 0x2028) || (value =? 0x2029) ||
  (value =? 0x202f) || (value =? 0x205f) || (value =? 0x3000).

(** ** Strings and runes *)

(** [[]rune(text)] and [string(values)] *)
Definition runesOf (text : bytes) : list Z := map fst (runes text).
Definition stringOf (values : list Z) : bytes := concat (map (AppendRune []) values).
(** [strings.FieldsFunc]: [field] is what has been read of a field. *)
Fixpoint fieldsFrom (fuel : nat) (isSpace : Z -> bool) (field text : bytes) : list bytes :=
  match fuel, text with
  | S fuel, _ :: _ =>
      let '(r, size) := DecodeRune text in
      if isSpace r then (if bool_decide (field = []) then [] else [field]) ++ fieldsFrom fuel isSpace [] (drop size text)
      else fieldsFrom fuel isSpace (field ++ take size text) (drop size text)
  | _, _ => if bool_decide (field = []) then [] else [field]
  end.
Definition FieldsFunc (isSpace : Z -> bool) (text : bytes) : list bytes := fieldsFrom (length text) isSpace [] text.
Definition splitPythonWhitespace (text : bytes) : list bytes := FieldsFunc isPythonWhitespace text.
(** [strings.Join(words, " ")] *)
Fixpoint joinWords (words : list bytes) : bytes :=
  match words with
  | [] => []
  | [word] => word
  | word :: words => word ++ x20 :: joinWords words
  end.

Section normalize.
Context `{UnicodeText}.

(** ** Lower case *)

Definition probeSigma (value : bytes) : Z := default 0 (runesOf value !! 1%nat).
Inductive caseProperties := MkCase (cased caseIgnorable : bool).
(** The cache keeps what the classifier answers, and is left out. *)
Definition pythonCaseProperties (value : Z) : caseProperties :=
  if isPostUnicode14Assignment value then MkCase false false
  else if probeSigma (contextLower (stringOf [0x41; 0x3a3] ++ stringOf [value] ++ lit "!")) =? 0x3c3 then MkCase true false
  else if probeSigma (contextLower (stringOf [0x41; 0x3a3] ++ stringOf [value] ++ lit "A")) =? 0x3c3 then MkCase false true
  else MkCase false false.
(** Whether a cased rune comes next, with ignorable ones before it. *)
Fixpoint nextIsCased (values : list Z) : bool :=
  match values with
  | [] => false
  | value :: values =>
      let '(MkCase cased caseIgnorable) := pythonCaseProperties value in
      if cased then true else if negb caseIgnorable then false else nextIsCased values
  end.
(** [before] are the runes before the sigma, the nearest first. *)
Definition isFinalSigma (before after : list Z) : bool := nextIsCased before && negb (nextIsCased after).
Fixpoint lowerFrom (before values : list Z) : list Z :=
  match values with
  | [] => []
  | value :: values =>
      (if isPostUnicode14Assignment value then [value]
       else if (value =? 0x3a3) && isFinalSigma before values then [0x3c2]
       else runesOf (simpleLower (stringOf [value]))) ++ lowerFrom (value :: before) values
  end.
Definition lowerLikePython (values : list Z) : list Z := lowerFrom [] values.

(** ** Normalization *)

Definition decompose (value : Z) : list Z :=
  if isPostUnicode14Assignment value then [value] else runesOf (NFKD (stringOf [value])).
Definition isAccent (value : Z) : bool := negb (isPostUnicode14Assignment value) && negb (CCC (stringOf [value]) =? 0).
(** The loop over the positions; an index out of range is a panic. *)
Definition runeAt (values : list Z) (position : Z) : res Z :=
  if position <? 0 then Panic else match values !! Z.to_nat position with Some value => Ok value | None => Panic end.
Definition isCJKSpace (spaced : list Z) (position : nat) (value : Z) : res bool :=
  if negb (value =? 0x20) then Ok false
  else
    previous ← runeAt spaced (Z.of_nat position - 1);
    if negb (isCJK previous) then Ok false
    else next ← runeAt spaced (Z.of_nat position + 1); Ok (isCJK next).
Fixpoint withoutCJKSpaces (spaced : list Z) (position : nat) (values : list Z) : res (list Z) :=
  match values with
  | [] => Ok []
  | value :: values =>
      dropped ← isCJKSpace spaced position value;
      kept ← withoutCJKSpaces spaced (S position) values;
      Ok (if dropped : bool then kept else value :: kept)
  end.
Definition collapsed (text : bytes) : list Z :=
  let lowered := lowerLikePython (concat (map decompose (runesOf text))) in
  let withoutAccents := List.filter (fun value => negb (isAccent value)) lowered in
  runesOf (joinWords (splitPythonWhitespace (stringOf withoutAccents))).
Definition NormalizeText (text : bytes) : res bytes :=
  let spaced := collapsed text in
  if (length spaced <? 3)%nat then Ok (stringOf spaced)
  else stringOf <$> (withoutCJKSpaces spaced 0 spaced).
End normalize.

(** ** Strings of runes *)

Lemma append_length r : validRune r -> (1 <= length (AppendRune [] r))%nat.
Proof. intros Hv. rewrite append_cases by done. repeat case_match; cbn; lia. Qed.
Lemma append_nonempty r : validRune r -> AppendRune [] r <> [].
Proof. intros Hv E. pose proof (append_length r Hv) as Hl. rewrite E in Hl. cbn in Hl. lia. Qed.
Lemma stringOf_cons r values : stringOf (r :: values) = AppendRune [] r ++ stringOf values.
Proof. done. Qed.
Lemma stringOf_app l1 l2 : stringOf (l1 ++ l2) = stringOf l1 ++ stringOf l2.
Proof. unfold stringOf. by rewrite map_app, concat_app. Qed.
Lemma runesFrom_string fuel values :
  Forall validRune values -> (length (stringOf values) <= fuel)%nat -> map fst (runesFrom fuel (stringOf values)) = values.
Proof.
  intros Hv. revert fuel. induction Hv as [|r values Hr _ IH]; intros fuel Hf; [by destruct fuel|].
  rewrite stringOf_cons in *. rewrite length_app in Hf. pose proof (append_length r Hr) as Hl.
  destruct fuel as [|fuel]; [lia|]. pose proof (decode_append r (stringOf values) Hr) as Ed.
  destruct (AppendRune [] r) as [|c s] eqn:Ea; [cbn in Hl; lia|]. cbn [app runesFrom] in *. rewrite Ed. cbn [map fst length drop].
  rewrite (drop_app_length s). f_equal. apply IH. cbn [length] in Hf. lia.
Qed.
Lemma runesOf_string values : Forall validRune values -> runesOf (stringOf values) = values.
Proof. intros Hv. by apply runesFrom_string. Qed.
Lemma runesOf_valid text : Forall validRune (runesOf text).
Proof.
  unfold runesOf, runes. generalize (length text) as fuel. intros fuel. revert text.
  induction fuel as [|fuel IH]; intros [|c text]; try constructor. cbn [runesFrom].
  pose proof (DecodeRune_range (c :: text)) as Hr. destruct (DecodeRune (c :: text)) as [r size]. by constructor.
Qed.

(** The fields of a string, as runes. *)
Definition isWord (isSpace : Z -> bool) (values : list Z) (word : list Z) : Prop :=
  word <> [] /\ Forall (fun r => isSpace r = false /\ r ∈ values) word.
Lemma fieldsFrom_string isSpace fuel all field values :
  Forall validRune values -> (length (stringOf values) <= fuel)%nat ->
  Forall (fun r => validRune r /\ isSpace r = false /\ r ∈ all) field -> (forall r, r ∈ values -> r ∈ all) ->
  exists words, fieldsFrom fuel isSpace (stringOf field) (stringOf values) = map stringOf words /\ Forall (isWord isSpace all) words.
Proof.
  assert (forall field, Forall (fun r => validRune r /\ isSpace r = false /\ r ∈ all) field ->
    exists words, (if bool_decide (stringOf field = []) then [] else [stringOf field]) = map stringOf words /\ Forall (isWord isSpace all) words) as Hend.
  { intros [|r f] Hf; [by exists []; split; [|constructor]|]. pose proof (append_nonempty r) as Hne. inversion_clear Hf as [|? ? (Hr & Hs & Hin) Hf'].
    rewrite bool_decide_eq_false_2; [|rewrite stringOf_cons; intros [E _]%app_eq_nil; by apply Hne]. exists [r :: f].
    split; [done|]. apply Forall_singleton. split; [done|]. constructor; [done|]. by eapply Forall_impl; [exact Hf'|]; intros ? (? & ? & ?). }
  intros Hv. revert fuel field. induction Hv as [|r values Hr _ IH]; intros fuel field Hfuel Hf Hall; [by destruct fuel; apply Hend|].
  rewrite stringOf_cons in *. rewrite length_app in Hfuel. pose proof (append_length r Hr) as Hl.
  destruct fuel as [|fuel]; [lia|]. pose proof (decode_append r (stringOf values) Hr) as Ed.
  assert (exists c s, AppendRune [] r = c :: s) as (c & s & Ea) by (destruct (AppendRune [] r); [cbn in Hl; lia|eauto]).
  rewrite Ea in *. cbn [app fieldsFrom] in *. rewrite Ed. cbn [length drop take] in *. rewrite (drop_app_length s), (take_app_length s).
  destruct (isSpace r) eqn:Es.
  - destruct (Hend field Hf) as (w1 & E1 & H1). destruct (IH fuel []) as (w2 & E2 & H2); [lia|constructor|intros; apply Hall; by right|].
    exists (w1 ++ w2). rewrite E1, map_app. split; [|by apply Forall_app]. f_equal. exact E2.
  - destruct (IH fuel (field ++ [r])) as (w & E & H'); [lia| |intros; apply Hall; by right|].
    + apply Forall_app. split; [done|]. apply Forall_singleton. split_and!; [done..|]. apply Hall. by left.
    + exists w. split; [|done]. rewrite <- E, stringOf_app. unfold stringOf at 4. cbn [map concat]. by rewrite app_nil_r, Ea.
Qed.
Lemma split_string isSpace values :
  Forall validRune values -> exists words, FieldsFunc isSpace (stringOf values) = map stringOf words /\ Forall (isWord isSpace values) words.
Proof. intros Hv. by apply (fieldsFrom_string isSpace _ values []). Qed.
Fixpoint joinRunes (words : list (list Z)) : list Z :=
  match words with [] => [] | [word] => word | word :: words => word ++ 0x20 :: joinRunes words end.
Lemma join_string words : joinWords (map stringOf words) = stringOf (joinRunes words).
Proof.
  induction words as [|w [|w' words] IH]; [done|done|]. cbn [map joinWords joinRunes] in *. rewrite IH, stringOf_app, stringOf_cons. done.
Qed.

(** ** What a normalized text is *)

(** Each white space is a space between two runes that are none, and with [strict]
    not both of them CJK; [previous] is the rune before. *)
Fixpoint tidy (strict : bool) (previous : option Z) (values : list Z) : Prop :=
  match values with
  | [] => True
  | r :: values =>
      (isPythonWhitespace r = true ->
       r = 0x20 /\ exists a b rest, previous = Some a /\ values = b :: rest /\ isPythonWhitespace a = false /\ isPythonWhitespace b = false /\
         (strict = true -> isCJK a && isCJK b = false)) /\
      tidy strict (Some r) values
  end.
Definition nonSpace (r : Z) : Prop := isPythonWhitespace r = false.
Lemma tidy_word strict previous word a rest :
  Forall nonSpace word -> nonSpace a -> tidy strict (Some a) rest -> tidy strict previous (word ++ a :: rest).
Proof.
  intros Hw Ha Hr. revert previous. induction Hw as [|r word Hw _ IH]; intros previous; cbn; split; try done; [by rewrite Ha|by rewrite Hw].
Qed.
(** What precedes does not matter to a text that starts with no white space. *)
Lemma tidy_start strict previous previous' b rest : nonSpace b -> tidy strict previous (b :: rest) -> tidy strict previous' (b :: rest).
Proof. intros Hb [_ Hr]. cbn. split; [by rewrite Hb|done]. Qed.
Lemma word_start all words :
  Forall (isWord isPythonWhitespace all) words -> words <> [] -> exists b rest, joinRunes words = b :: rest /\ nonSpace b.
Proof.
  destruct words as [|[|b w] words]; [done|by intros [[? _] _]%Forall_cons|]. intros [[_ [[Hb _] _]%Forall_cons] _]%Forall_cons _.
  exists b. destruct words; cbn; eauto.
Qed.
Lemma tidy_join all words previous : Forall (isWord isPythonWhitespace all) words -> tidy false previous (joinRunes words).
Proof.
  intros Hw. revert previous. induction Hw as [|w words [Hn Hf] Hw IH]; intros previous; [done|].
  destruct (exists_last Hn) as (w0 & a & ->). apply Forall_app in Hf as [Hf0 [Ha' _]%Forall_singleton].
  assert (Forall nonSpace w0) as H0 by (eapply Forall_impl; [exact Hf0|]; by intros ? [? ?]).
  destruct words as [|w' words]; [by apply (tidy_word _ _ w0 a [])|]. change (joinRunes _) with ((w0 ++ [a]) ++ 0x20 :: joinRunes (w' :: words)).
  rewrite <- app_assoc. apply tidy_word; [done..|]. cbn [tidy]. split; [|apply IH]. intros _. split; [done|].
  destruct (word_start all (w' :: words)) as (b & rest & E & Hb); [done..|]. by exists a, b, rest.
Qed.
Lemma Forall_filter_list {A} (P : A -> Prop) p (l : list A) : Forall P l -> Forall P (List.filter p l).
Proof. induction 1; cbn; [constructor|]. case_match; [by constructor|done]. Qed.
Lemma Forall_concat_map {A B} (P : B -> Prop) (f : A -> list B) l : (forall x, x ∈ l -> Forall P (f x)) -> Forall P (concat (map f l)).
Proof.
  induction l as [|x l IH]; cbn; [constructor|]. intros Hf. apply Forall_app. split; [apply Hf; by left|]. apply IH. intros; apply Hf. by right.
Qed.
Lemma join_runes (P : Z -> Prop) words : P 0x20 -> Forall (Forall P) words -> Forall P (joinRunes words).
Proof.
  intros Hs Hw. induction Hw as [|w words H1 Hw IH]; [constructor|]. destruct words; [done|]. apply Forall_app. by repeat constructor.
Qed.

Lemma runeAt_at values position r : values !! position = Some r -> runeAt values (Z.of_nat position) = Ok r.
Proof. intros E. unfold runeAt. rewrite (proj2 (Z.ltb_ge _ _)) by lia. by rewrite Nat2Z.id, E. Qed.
(** Removing the spaces between CJK runes stays within the text and keeps it tidy. *)
Lemma withoutCJKSpaces_tidy before values :
  tidy false (last before) values ->
  exists kept, withoutCJKSpaces (before ++ values) (length before) values = Ok kept /\ tidy true (last before) kept /\
    (forall r, r ∈ kept -> r ∈ values) /\ (forall b rest, values = b :: rest -> nonSpace b -> exists rest', kept = b :: rest').
Proof.
  revert before. induction values as [|r values IH]; intros before Ht; [by exists []|]. cbn in Ht. destruct Ht as [Hr Ht].
  destruct (IH (before ++ [r])) as (kept & Ek & Htidy & Hin & Hstart).
  { by rewrite last_snoc. }
  rewrite <- app_assoc, length_app, Nat.add_1_r in Ek. cbn [app] in Ek. rewrite last_snoc in Htidy. cbn [withoutCJKSpaces].
  assert (exists dropped, isCJKSpace (before ++ r :: values) (length before) r = Ok dropped /\
    (dropped = true -> isPythonWhitespace r = true) /\ (dropped = false -> isPythonWhitespace r = true ->
       r = 0x20 /\ exists a b rest, last before = Some a /\ values = b :: rest /\ nonSpace a /\ nonSpace b /\ isCJK a && isCJK b = false)) as (dropped & Ed & Hd1 & Hd2).
  { unfold isCJKSpace. destruct (Z.eqb_spec r 0x20) as [->|Hne]; cbn [negb].
    - destruct (Hr eq_refl) as (_ & a & b & rest & Ea & Eb & Ha & Hb & _). apply last_Some in Ea as (before' & ->).
      rewrite Eb, <- app_assoc. cbn [app]. rewrite length_app. cbn [length].
      replace (Z.of_nat (length before' + 1) - 1) with (Z.of_nat (length before')) by lia.
      replace (Z.of_nat (length before' + 1) + 1) with (Z.of_nat (length before' + 2)) by lia.
      rewrite (runeAt_at _ (length before') a) by (by apply list_lookup_middle).
      rewrite (runeAt_at _ (length before' + 2) b) by (rewrite lookup_app_r by lia; by rewrite Nat.add_comm, Nat.add_sub).
      cbn [mbind res_bind]. destruct (isCJK a) eqn:Ca; cbn [negb].
      2: { exists false. split_and!; [done..|]. intros _ _. split; [done|]. exists a, b, rest. by rewrite last_snoc, Ca. }
      exists (isCJK b). split; [done|]. split; [done|]. intros Cb _. split; [done|]. exists a, b, rest. rewrite last_snoc, Cb. by rewrite andb_false_r.
    - exists false. split; [done|]. split; [done|]. intros _ Hsp. by destruct (Hr Hsp). }
  rewrite Ed, Ek. cbn [mbind res_bind]. destruct dropped.
  - exists kept. split; [done|]. split; [|split; [by right; auto|]].
    + destruct (Hr (Hd1 eq_refl)) as (_ & a & b & rest & _ & Eb & _ & Hb & _). destruct (Hstart b rest Eb Hb) as (rest' & ->).
      by eapply tidy_start.
    + intros b rest [= <- <-] Hb. unfold nonSpace in Hb. by rewrite (Hd1 eq_refl) in Hb.
  - exists (r :: kept). split; [done|]. split; [|split].
    + cbn [tidy]. split; [|done]. intros Hsp. destruct (Hd2 eq_refl Hsp) as (-> & a & b & rest & Ea & Eb & Ha & Hb & Hc).
      split; [done|]. destruct (Hstart b rest Eb Hb) as (rest' & ->). by exists a, b, rest'.
    + intros x [->|Hx]%elem_of_cons; [by left|right; auto].
    + intros b rest [= <- <-] _. by exists kept.
Qed.

(** Each white space is a space, between two runes that are none and not both CJK. *)
Definition spacesOnlyBetween (values : list Z) : Prop :=
  forall before r after, values = before ++ r :: after -> isPythonWhitespace r = true ->
  r = 0x20 /\ exists before' a b after', before = before' ++ [a] /\ after = b :: after' /\
    isPythonWhitespace a = false /\ isPythonWhitespace b = false /\ isCJK a && isCJK b = false.
Lemma tidy_spaces values before : tidy true (last before) values ->
  forall middle r after, values = middle ++ r :: after -> isPythonWhitespace r = true ->
  r = 0x20 /\ exists before' a b after', before ++ middle = before' ++ [a] /\ after = b :: after' /\
    isPythonWhitespace a = false /\ isPythonWhitespace b = false /\ isCJK a && isCJK b = false.
Proof.
  revert before. induction values as [|x values IH]; intros before Ht middle r after E Hr; [by destruct middle|].
  destruct Ht as [Hx Ht]. destruct middle as [|y middle]; cbn in E; injection E as -> ->.
  - destruct (Hx Hr) as (-> & a & b & rest & Ea & -> & Ha & Hb & Hc). split; [done|]. apply last_Some in Ea as (before' & ->).
    exists before', a, b, rest. rewrite app_nil_r. auto 10.
  - destruct (IH (before ++ [y])) with (middle := middle) (r := r) (after := after) as (-> & before' & a & b & after' & E & H'); [by rewrite last_snoc|done..|].
    split; [done|]. exists before', a, b, after'. by rewrite <- E, <- app_assoc.
Qed.

(** A text of at most two runes has no white space. *)
Lemma tidy_short values : tidy false None values -> (length values < 3)%nat -> tidy true None values.
Proof.
  destruct values as [|x [|y [|z values]]]; cbn [length tidy]; [done| | |lia].
  - intros [Hx _] _. split; [|done]. intros Hs. by destruct (Hx Hs) as (_ & a & b & rest & ? & _).
  - intros (Hx & Hy & _) _. split; [|split; [|done]].
    + intros Hs. by destruct (Hx Hs) as (_ & a & b & rest & ? & _).
    + intros Hs. by destruct (Hy Hs) as (_ & a & b & rest & _ & ? & _).
Qed.

Section theorem.
Context `{UnicodeText}.

Lemma lowered_valid before values : Forall validRune values -> Forall validRune (lowerFrom before values).
Proof.
  intros Hv. revert before. induction Hv as [|r values Hr _ IH]; intros before; [constructor|]. cbn [lowerFrom]. apply Forall_app. split; [|done].
  destruct (isPostUnicode14Assignment r); [by apply Forall_singleton|]. destruct (_ && _); [|apply runesOf_valid].
  apply Forall_singleton. unfold validRune. lia.
Qed.
Lemma collapsed_runes text :
  tidy false None (collapsed text) /\ Forall validRune (collapsed text) /\ Forall (fun r => r <> 0x20 -> isAccent r = false) (collapsed text).
Proof.
  unfold collapsed. set (lowered := lowerLikePython _). set (values := List.filter _ lowered).
  assert (Forall validRune values) as Hv.
  { unfold values. apply Forall_filter_list, lowered_valid. apply Forall_concat_map. intros r Hr.
    assert (validRune r) by (pose proof (runesOf_valid text) as Ha; rewrite Forall_forall in Ha; by apply Ha).
    unfold decompose. destruct (isPostUnicode14Assignment r); [by apply Forall_singleton|apply runesOf_valid]. }
  unfold splitPythonWhitespace. destruct (split_string isPythonWhitespace values Hv) as (words & -> & Hw). rewrite join_string.
  assert (forall P : Z -> Prop, (forall r, r ∈ values -> P r) -> P 0x20 -> Forall P (joinRunes words)) as Hall.
  { intros P HP Hs. apply join_runes; [done|]. eapply Forall_impl; [exact Hw|]. intros w [_ Hf]. eapply Forall_impl; [exact Hf|]. cbn. intros r [_ Hin]. auto. }
  assert (Forall validRune (joinRunes words)) as Hj by (apply Hall; [by rewrite <- Forall_forall|unfold validRune; lia]).
  rewrite runesOf_string by done. split; [by eapply tidy_join|]. split; [done|]. apply Hall; [|done].
  intros r Hr _. apply list_elem_of_In in Hr. unfold values in Hr. apply filter_In in Hr as [_ Hr%negb_true_iff]. done.
Qed.

Lemma NormalizeText_returns text : exists normal, NormalizeText text = Ok normal.
Proof.
  destruct (collapsed_runes text) as (Ht & _ & _). unfold NormalizeText.
  destruct (withoutCJKSpaces_tidy [] (collapsed text) Ht) as (kept & Ek & _). cbn [app length] in Ek. rewrite Ek.
  destruct (length (collapsed text) <? 3)%nat; by eexists.
Qed.

(** Any text has a normal form, without an index out of range: a string of runes
    without accents, in which the only white space is single spaces inside it, and none
    of those is between two CJK characters. *)
Theorem normalize_text text :
  exists values, NormalizeText text = Ok (stringOf values) /\ runesOf (stringOf values) = values /\
    spacesOnlyBetween values /\ Forall (fun r => r <> 0x20 -> isAccent r = false) values.
Proof.
  destruct (collapsed_runes text) as (Ht & Hv & Ha). unfold NormalizeText.
  destruct (withoutCJKSpaces_tidy [] (collapsed text) Ht) as (kept & Ek & Htk & Hin & _). cbn [app length] in Ek.
  assert (Forall validRune kept /\ Forall (fun r => r <> 0x20 -> isAccent r = false) kept) as [Hvk Hak].
  { rewrite !Forall_forall in *. split; auto. }
  destruct (Nat.ltb_spec (length (collapsed text)) 3) as [Hlt|_].
  - exists (collapsed text). split; [done|]. split; [by apply runesOf_string|]. split; [|done].
    assert (tidy true None (collapsed text)) as Htt by (by apply tidy_short).
    intros before r after E Hr. by apply (tidy_spaces (collapsed text) []).
  - exists kept. rewrite Ek. split; [done|]. split; [by apply runesOf_string|]. split; [|done].
    intros before r after E Hr. by apply (tidy_spaces kept []).
Qed.
End theorem.

(** The functions on ASCII text and the combining acute accent. *)
Definition exampleLower (text : bytes) : bytes := map (fun c => if (0x41 <=? Zb c) && (Zb c <=? 0x5a) then byt (Zb c + 32) else c) text.
Definition exampleText : UnicodeText :=
  Build_UnicodeText (fun text => text) (fun text => if bool_decide (text = AppendRune [] 0x301) then 230 else 0) exampleLower exampleLower.
Example normalize_example :
  NormalizeText (H := exampleText) (lit "  Abandon" ++ x09 :: lit "  e" ++ AppendRune [] 0x301 ++ lit "t " ++ stringOf [0x4e00; 0x3000; 0x4e01; 0x20; 0x7a]) =
  Ok (lit "abandon et " ++ stringOf [0x4e00; 0x4e01; 0x20; 0x7a]).
Proof. vm_compute. reflexivity. Qed.
