(* ===== verification/Mnemonic.v ===== *)
(** * Mnemonics

    Model of [wallet/mnemonic/mnemonic.go] and of the word list of [english.go]:
    a number as words of a list, the least significant first, and the search for a
    phrase whose hash starts with a version prefix.  What [rand.Int] draws is an
    argument of the search, and so is how many nonces are tried; [pbkdf2] is a
    third-party package and an interface. *)

From S2P Require Import Prelude Digest Hex Base58 Keys Bits Utf8 Runes Normalize.

Definition StandardPrefix : bytes := lit "01".
Definition TwoFactorPrefix : bytes := lit "101".
Definition SegWitPrefix : bytes := lit "100".
Definition DefaultBits : Z := 132.
Definition PBKDF2Rounds : Z := 2048.
Definition ErrLanguageUnavailable : string := "mnemonic language is unavailable in the pinned SDK".
Definition ErrUnknownWord : string := "mnemonic word is not in the word list".
Definition ErrNegativeEntropy : string := "mnemonic entropy must not be negative".
Definition ErrNoWords : string := "mnemonic has no word list".
Definition ErrEntropyMismatch : string := "cannot extract same entropy from mnemonic".

(** [golang.org/x/crypto/pbkdf2] with SHA-512: password, salt, rounds, length. *)
Class Pbkdf2 := { pbkdf2Key : bytes -> bytes -> Z -> Z -> bytes }.

(** ** Word lists *)

(** [strings.Split] by lines, and [strings.TrimSuffix] of the last one. *)
Fixpoint splitLines (line data : bytes) : list bytes :=
  match data with
  | [] => [line]
  | c :: data => if Byte.eqb c x0a then line :: splitLines [] data else splitLines (line ++ [c]) data
  end.
Definition trimNewline (data : bytes) : bytes :=
  match List.last (map Some data) None with Some c => if Byte.eqb c x0a then removelast data else data | None => data end.
(** [data] is the embedded file. *)
Definition loadEnglishWords (data : bytes) : list bytes := splitLines [] (trimNewline data).
Record Mnemonic := MkMnemonic { words : list bytes; index : gmap bytes nat }.
Fixpoint indexFrom (position : nat) (words : list bytes) (index : gmap bytes nat) : gmap bytes nat :=
  match words with
  | [] => index
  | word :: words => indexFrom (S position) words (<[word := position]> index)
  end.
Definition newMnemonic (words : list bytes) : Mnemonic := MkMnemonic words (indexFrom 0 words ∅).
Definition New (data : bytes) (language : bytes) : res Mnemonic :=
  if bool_decide (language ∈ [lit "es"; lit "ja"; lit "pt"; lit "zh"]) then Err ErrLanguageUnavailable
  else Ok (newMnemonic (loadEnglishWords data)).

(** ** Numbers as words *)

(** The loop of [Encode]: a list of no words is a division by zero. *)
Fixpoint encodeLoop (mnemonic : Mnemonic) (fuel : nat) (remaining : Z) : res (list bytes) :=
  if remaining =? 0 then Ok []
  else
    match fuel with
    | O => NoFuel
    | S fuel =>
        let base := blen (words mnemonic) in
        if base =? 0 then Panic
        else
          match words mnemonic !! Z.to_nat (remaining mod base) with
          | None => Panic
          | Some word => rest ← encodeLoop mnemonic fuel (remaining / base); Ok (word :: rest)
          end
    end.
Definition encodeFuel (value : Z) : nat := S (Z.to_nat (Z.log2 value)).
Definition Encode (mnemonic : Mnemonic) (value : Z) : res bytes :=
  if value <? 0 then Err ErrNegativeEntropy
  else joinWords <$> encodeLoop mnemonic (encodeFuel value) value.
(** From the last word to the first. *)
Definition decodeWord (mnemonic : Mnemonic) (word : bytes) (value : res Z) : res Z :=
  value ← value;
  match index mnemonic !! word with
  | Some wordIndex => Ok (value * blen (words mnemonic) + Z.of_nat wordIndex)
  | None => Err ErrUnknownWord
  end.
Definition Decode (mnemonic : Mnemonic) (phrase : bytes) : res Z :=
  fold_right (decodeWord mnemonic) (Ok 0) (splitPythonWhitespace phrase).

(** ** Seeds *)

Section seeds.
Context `{Digests} `{UnicodeText} `{Pbkdf2}.

Definition ToSeed (phrase passphrase : bytes) : res bytes :=
  phrase ← NormalizeText phrase;
  passphrase ← NormalizeText passphrase;
  Ok (pbkdf2Key phrase passphrase PBKDF2Rounds 64).
Definition IsNewSeed (phrase prefix : bytes) : res bool :=
  phrase ← NormalizeText phrase;
  let encoded := hexEncode (hmacSHA512 (lit "Seed version") phrase) in
  Ok (bool_decide (take (length prefix) encoded = prefix)).
(** [math.Log2] of the length of the list, which is a power of two, and
    [math.Ceil] of a quotient of small integers. *)
Definition bitsPerWord (mnemonic : Mnemonic) : Z := Z.log2 (blen (words mnemonic)).
Definition roundedBits (mnemonic : Mnemonic) (numBits : Z) : Z :=
  (numBits + bitsPerWord mnemonic - 1) / bitsPerWord mnemonic * bitsPerWord mnemonic.
(** Draws until one is zero or at least the minimum; [draws] are the answers of [rand.Int]. *)
Fixpoint entropyLoop (minimum entropy : Z) (draws : list (res Z)) : res Z :=
  if (0 <? entropy) && (entropy <? minimum) then
    match draws with
    | [] => NoFuel
    | draw :: draws => entropy ← map_err (fun e => "read mnemonic entropy: " ++ e)%string draw; entropyLoop minimum entropy draws
    end
  else Ok entropy.
Definition drawEntropy (mnemonic : Mnemonic) (numBits : Z) (draws : list (res Z)) : res Z :=
  let minimumExponent := roundedBits mnemonic numBits - bitsPerWord mnemonic in
  if 0 <? minimumExponent then entropyLoop (2 ^ minimumExponent) 1 draws else Ok 1.
Fixpoint nonceLoop (mnemonic : Mnemonic) (prefix : bytes) (entropy nonce : Z) (tries : nat) : res bytes :=
  match tries with
  | O => NoFuel
  | S tries =>
      let nonce := nonce + 1 in
      let candidate := entropy + nonce in
      phrase ← Encode mnemonic candidate;
      decoded ← Decode mnemonic phrase;
      if negb (decoded =? candidate) then Err ErrEntropyMismatch
      else
        new ← IsNewSeed phrase prefix;
        if new : bool then Ok phrase else nonceLoop mnemonic prefix entropy nonce tries
  end.
Definition MakeSeed (mnemonic : Mnemonic) (prefix : bytes) (numBits : Z) (draws : list (res Z)) (tries : nat) : res bytes :=
  if bool_decide (words mnemonic = []) then Err ErrNoWords
  else
    entropy ← drawEntropy mnemonic numBits draws;
    nonceLoop mnemonic prefix entropy 0 tries.
Definition MakeDefaultSeed (mnemonic : Mnemonic) : list (res Z) -> nat -> res bytes := MakeSeed mnemonic StandardPrefix DefaultBits.
End seeds.

(** ** Words and phrases *)

(** A word is not empty, and of valid UTF-8 without white space. *)
Definition wordOK (word : bytes) : bool :=
  negb (bool_decide (word = [])) && Valid word && forallb (fun r => negb (isPythonWhitespace r)) (runesOf word).
Definition wordListOK (mnemonic : Mnemonic) : Prop :=
  2 <= blen (words mnemonic) /\ NoDup (words mnemonic) /\ Forall (fun word => wordOK word = true) (words mnemonic) /\
  index mnemonic = indexFrom 0 (words mnemonic) ∅.

Definition fields (isSpace : Z -> bool) (field text : bytes) : list bytes := fieldsFrom (length text) isSpace field text.
Lemma fieldsFrom_fuel isSpace m n field text :
  (length text <= m)%nat -> (length text <= n)%nat -> fieldsFrom m isSpace field text = fieldsFrom n isSpace field text.
Proof.
  revert n field text. induction m as [|m IH]; intros n field [|c text] Hm Hn; cbn [length] in *; try lia; [by destruct n..|].
  destruct n as [|n]; [lia|]. cbn [fieldsFrom]. pose proof (DecodeRune_size (c :: text) ltac:(done)) as Hsize.
  destruct (DecodeRune (c :: text)) as [r size]. cbn [snd] in Hsize.
  destruct (isSpace r); [f_equal|]; apply IH; rewrite length_drop; cbn [length]; lia.
Qed.
Lemma fields_step isSpace field text r size : text <> [] -> DecodeRune text = (r, size) ->
  fields isSpace field text =
  if isSpace r then (if bool_decide (field = []) then [] else [field]) ++ fields isSpace [] (drop size text)
  else fields isSpace (field ++ take size text) (drop size text).
Proof.
  intros Hne E. unfold fields at 1. destruct text as [|c text]; [done|]. pose proof (DecodeRune_size (c :: text) ltac:(done)) as Hsize.
  rewrite E in Hsize. cbn [snd] in Hsize. cbn [length fieldsFrom]. rewrite E.
  unfold fields. destruct (isSpace r); [f_equal|]; apply fieldsFrom_fuel; rewrite length_drop; cbn [length]; lia.
Qed.
Lemma runesOf_step text r size : text <> [] -> DecodeRune text = (r, size) -> runesOf text = r :: runesOf (drop size text).
Proof.
  intros Hne E. unfold runesOf, runes. destruct text as [|c text]; [done|]. pose proof (DecodeRune_size (c :: text) ltac:(done)) as Hsize.
  rewrite E in Hsize. cbn [snd] in Hsize. cbn [length runesFrom]. rewrite E. cbn [map fst]. f_equal. f_equal.
  apply runesFrom_fuel; rewrite length_drop; cbn [length]; lia.
Qed.
(** A word without white space is read into the field. *)
Lemma fields_word isSpace word field rest :
  Valid word = true -> forallb (fun r => negb (isSpace r)) (runesOf word) = true ->
  fields isSpace field (word ++ rest) = fields isSpace (field ++ word) rest.
Proof.
  intros Hv. revert field. pattern word. apply valid_ind; [|clear word Hv; intros word r size Hne E Hok _ IH|done].
  - intros field _. by rewrite app_nil_r.
  - intros field. rewrite (runesOf_step _ _ _ Hne E). cbn [forallb]. intros [Hr Hrest]%andb_true_iff. apply negb_true_iff in Hr.
    pose proof (decode_prefix word r size (drop size word ++ rest) E Hne Hok) as Ed. rewrite app_assoc, take_drop in Ed.
    destruct (decode_valid word r size E Hne Hok) as (_ & _ & Hs & _).
    rewrite (fields_step isSpace field (word ++ rest) r size), Hr by (done || by destruct word).
    rewrite take_app_le, drop_app_le by lia. rewrite IH by done. by rewrite <- app_assoc, take_drop.
Qed.
Lemma split_joined (parts : list bytes) :
  Forall (fun word => wordOK word = true) parts -> splitPythonWhitespace (joinWords parts) = parts.
Proof.
  change (splitPythonWhitespace ?t) with (fields isPythonWhitespace [] t).
  induction 1 as [|word parts Hw Hp IH]; [done|]. unfold wordOK in Hw. rewrite !andb_true_iff in Hw. destruct Hw as [[Hne Hv] Hs].
  apply negb_true_iff, bool_decide_eq_false_1 in Hne.
  assert (forall rest, fields isPythonWhitespace [] (word ++ rest) = fields isPythonWhitespace word rest) as Ew by (intros; by apply fields_word).
  destruct parts as [|word' parts].
  - cbn [joinWords]. rewrite <- (app_nil_r word) at 1. rewrite Ew. unfold fields. cbn. by rewrite bool_decide_eq_false_2.
  - change (joinWords (word :: word' :: parts)) with (word ++ x20 :: joinWords (word' :: parts)). rewrite Ew.
    rewrite (fields_step _ _ (x20 :: _) 0x20 1) by done. cbn [drop]. rewrite drop_0, IH. cbn. by rewrite bool_decide_eq_false_2.
Qed.
Lemma indexFrom_other position parts index word : word ∉ parts -> indexFrom position parts index !! word = index !! word.
Proof.
  revert position index. induction parts as [|w parts IH]; intros position index; cbn; [done|]. rewrite elem_of_cons. intros Hn.
  rewrite IH by auto. rewrite lookup_insert_ne by (intros ->; auto). done.
Qed.
Lemma indexFrom_at position parts index i word :
  NoDup parts -> parts !! i = Some word -> indexFrom position parts index !! word = Some (position + i)%nat.
Proof.
  revert position index i. induction parts as [|w parts IH]; intros position index i Hnd Hi; [done|]. apply NoDup_cons in Hnd as [Hn Hnd].
  destruct i as [|i]; cbn in Hi |- *.
  - injection Hi as ->. rewrite indexFrom_other by done. by rewrite lookup_insert_eq, Nat.add_0_r.
  - rewrite (IH (S position) _ i) by done. f_equal. lia.
Qed.

Section wellformed.
Variable mnemonic : Mnemonic.
Hypothesis Hok : wordListOK mnemonic.

Lemma encode_decode_loop fuel value : 0 <= value < 2 ^ Z.of_nat fuel ->
  exists parts, encodeLoop mnemonic fuel value = Ok parts /\ Forall (fun word => wordOK word = true) parts /\
    fold_right (decodeWord mnemonic) (Ok 0) parts = Ok value.
Proof.
  destruct Hok as (Hlen & Hnd & Hw & Hi). revert value. induction fuel as [|fuel IH]; intros value Hv; cbn [encodeLoop].
  - change (2 ^ Z.of_nat 0) with 1 in Hv. assert (value = 0) as -> by lia. by exists [].
  - destruct (Z.eqb_spec value 0) as [->|Hne]; [by exists []|]. set (base := blen (words mnemonic)) in *.
    destruct (Z.eqb_spec base 0); [lia|]. pose proof (Z.mod_pos_bound value base ltac:(lia)) as Hm.
    destruct (lookup_lt_is_Some_2 (words mnemonic) (Z.to_nat (value mod base))) as [word Ew]; [unfold base, blen in *; lia|].
    rewrite Ew. destruct (IH (value / base)) as (parts & Ep & Hp & Hd).
    { split; [apply Z.div_pos; lia|]. rewrite Nat2Z.inj_succ, Z.pow_succ_r in Hv by lia. apply Z.div_lt_upper_bound; nia. }
    rewrite Ep. exists (word :: parts). split; [done|]. split.
    + constructor; [|done]. rewrite Forall_forall in Hw. apply Hw. by apply list_elem_of_lookup_2 in Ew.
    + cbn [fold_right]. rewrite Hd. unfold decodeWord. cbn [mbind res_bind]. rewrite Hi, (indexFrom_at 0 _ _ _ _ Hnd Ew). f_equal.
      fold base. rewrite Nat.add_0_l, Z2Nat.id by lia. pose proof (Z.div_mod value base). lia.
Qed.
Lemma index_encode_decode value : 0 <= value -> exists phrase, Encode mnemonic value = Ok phrase /\ Decode mnemonic phrase = Ok value.
Proof.
  intros Hv. destruct (encode_decode_loop (encodeFuel value) value) as (parts & Ep & Hp & Hd).
  { split; [done|]. unfold encodeFuel. rewrite Nat2Z.inj_succ, Z2Nat.id by apply Z.log2_nonneg.
    destruct (Z.eqb_spec value 0) as [->|]; [done|]. apply Z.log2_spec. lia. }
  exists (joinWords parts). unfold Encode, Decode. rewrite (proj2 (Z.ltb_ge _ _)) by done. rewrite Ep. split; [done|]. by rewrite split_joined.
Qed.
End wellformed.

(** ** Seeds are found *)

Section search.
Context `{Digests} `{UnicodeText} `{Pbkdf2}.

(** Whether the phrase of a number is a seed of a version. *)
Definition isSeedNumber (mnemonic : Mnemonic) (prefix : bytes) (value : Z) : bool :=
  match Encode mnemonic value with Ok phrase => if IsNewSeed phrase prefix is Ok true then true else false | _ => false end.
Lemma IsNewSeed_returns phrase prefix : exists new, IsNewSeed phrase prefix = Ok new.
Proof. unfold IsNewSeed. destruct (NormalizeText_returns phrase) as [normal ->]. by eexists. Qed.
Lemma nonceLoop_first mnemonic prefix entropy nonce tries :
  wordListOK mnemonic -> 0 <= entropy -> 0 <= nonce ->
  match nonceLoop mnemonic prefix entropy nonce tries with
  | Ok phrase => exists n, nonce < n <= nonce + Z.of_nat tries /\ Encode mnemonic (entropy + n) = Ok phrase /\ isSeedNumber mnemonic prefix (entropy + n) = true /\
      forall i, nonce < i < n -> isSeedNumber mnemonic prefix (entropy + i) = false
  | NoFuel => forall i, nonce < i <= nonce + Z.of_nat tries -> isSeedNumber mnemonic prefix (entropy + i) = false
  | _ => False
  end.
Proof.
  intros Hok He. revert nonce. induction tries as [|tries IH]; intros nonce Hn; [intros i Hi; lia|]. cbn [nonceLoop].
  destruct (index_encode_decode mnemonic Hok (entropy + (nonce + 1))) as (phrase & Ee & Ed); [lia|]. rewrite Ee. cbn [mbind res_bind]. rewrite Ed.
  cbn [mbind res_bind]. rewrite Z.eqb_refl. cbn [negb]. destruct (IsNewSeed_returns phrase prefix) as [new En]. rewrite En. cbn [mbind res_bind].
  assert (isSeedNumber mnemonic prefix (entropy + (nonce + 1)) = new) as Hnew by (unfold isSeedNumber; rewrite Ee, En; by destruct new).
  destruct new; [exists (nonce + 1); split_and!; [lia|lia|done..|]; intros; lia|].
  specialize (IH (nonce + 1) ltac:(lia)). rewrite Nat2Z.inj_succ.
  destruct (nonceLoop _ _ _ _ _); [|done|done|].
  - destruct IH as (n & Hr & Hp & Hs & Hf). exists n. split_and!; [lia|lia|done..|]. intros i Hi.
    destruct (Z.eq_dec i (nonce + 1)) as [->|]; [done|]. apply Hf. lia.
  - intros i Hi. destruct (Z.eq_dec i (nonce + 1)) as [->|]; [done|]. apply IH. lia.
Qed.
Lemma search_answers mnemonic prefix entropy tries :
  wordListOK mnemonic -> 0 <= entropy ->
  match (entropy ← Ok entropy; nonceLoop mnemonic prefix entropy 0 tries) with
  | Ok phrase => exists n, 0 < n <= Z.of_nat tries /\ Decode mnemonic phrase = Ok (entropy + n) /\ isSeedNumber mnemonic prefix (entropy + n) = true /\
      forall i, 0 < i < n -> isSeedNumber mnemonic prefix (entropy + i) = false
  | NoFuel => forall i, 0 < i <= Z.of_nat tries -> isSeedNumber mnemonic prefix (entropy + i) = false
  | _ => False
  end.
Proof.
  intros Hok He. cbn [mbind res_bind]. pose proof (nonceLoop_first mnemonic prefix entropy 0 tries Hok He ltac:(done)) as Hf.
  destruct (nonceLoop _ _ _ _ _) as [phrase| | |]; try done. destruct Hf as (n & Hn & Ee & Hs & Hbefore). exists n. split_and!; try done; try lia.
  destruct (index_encode_decode mnemonic Hok (entropy + n)) as (phrase' & Ee' & Ed); [lia|]. congruence.
Qed.
Lemma entropyLoop_spec minimum entropy draws :
  0 <= entropy -> Forall (fun draw => exists e, draw = Ok e /\ 0 <= e) draws ->
  match entropyLoop minimum entropy draws with
  | Ok e => e = 0 \/ minimum <= e
  | NoFuel => forall draw, draw ∈ draws -> exists e, draw = Ok e /\ 0 < e < minimum
  | _ => False
  end.
Proof.
  intros He Hd. revert entropy He. induction Hd as [|draw draws (e & -> & Hdraw) Hd IH]; intros entropy He; cbn [entropyLoop].
  - destruct (_ && _) eqn:Hc; [by intros ? ?%elem_of_nil|]. apply andb_false_iff in Hc. rewrite Z.ltb_ge in Hc. rewrite Z.ltb_ge in Hc. lia.
  - destruct (_ && _) eqn:Hc; [|apply andb_false_iff in Hc; rewrite !Z.ltb_ge in Hc; lia]. cbn [map_err mbind res_bind].
    specialize (IH e Hdraw). destruct (entropyLoop minimum e draws) eqn:El; try done. intros draw [->|Hin]%elem_of_cons; [|auto].
    exists e. split; [done|]. destruct draws; cbn [entropyLoop] in El; destruct ((0 <? e) && (e <? minimum)) eqn:Hc'; try done;
      apply andb_true_iff in Hc'; lia.
Qed.

(** C19: with a list of distinct words, each number has a phrase and the phrase decodes
    to the number, so that the search for a seed never meets a mismatch: once entropy
    of the asked size is drawn, it answers the phrase of the first number above it
    whose normalized phrase hashes to the prefix, and goes on only where no nonce that was tried
    has one. *)
Theorem seeds_are_found mnemonic prefix numBits draws tries (Hok : wordListOK mnemonic)
    (Hdraws : Forall (fun draw => exists e, draw = Ok e /\ 0 <= e) draws) :
  (forall value, 0 <= value -> exists phrase, Encode mnemonic value = Ok phrase /\ Decode mnemonic phrase = Ok value) /\
  match drawEntropy mnemonic numBits draws with
  | Ok entropy =>
      (entropy <= 1 \/ 2 ^ (roundedBits mnemonic numBits - bitsPerWord mnemonic) <= entropy) /\
      match MakeSeed mnemonic prefix numBits draws tries with
      | Ok phrase => exists n, 0 < n <= Z.of_nat tries /\ Decode mnemonic phrase = Ok (entropy + n) /\ isSeedNumber mnemonic prefix (entropy + n) = true /\
          forall i, 0 < i < n -> isSeedNumber mnemonic prefix (entropy + i) = false
      | NoFuel => forall i, 0 < i <= Z.of_nat tries -> isSeedNumber mnemonic prefix (entropy + i) = false
      | _ => False
      end
  | NoFuel => forall draw, draw ∈ draws -> exists e, draw = Ok e /\ 0 < e < 2 ^ (roundedBits mnemonic numBits - bitsPerWord mnemonic)
  | _ => False
  end.
Proof.
  split; [by apply index_encode_decode|]. unfold MakeSeed. rewrite bool_decide_eq_false_2; [|destruct Hok as [Hlen _]; intros E; by rewrite E in Hlen].
  unfold drawEntropy. set (minimumExponent := roundedBits _ _ - _). destruct (0 <? minimumExponent).
  - pose proof (entropyLoop_spec (2 ^ minimumExponent) 1 draws ltac:(done) Hdraws) as He. pose proof (Z.pow_nonneg 2 minimumExponent ltac:(done)).
    destruct (entropyLoop _ _ _) as [entropy| | |]; try done. split; [lia|]. by apply search_answers; [|lia].
  - split; [by left|]. by apply search_answers.
Qed.
End search.

Definition exampleWords : Mnemonic := newMnemonic (loadEnglishWords (lit "able" ++ x0a :: lit "air" ++ x0a :: lit "ant" ++ x0a :: lit "zoo" ++ [x0a])).
Lemma exampleWords_list : words exampleWords = [lit "able"; lit "air"; lit "ant"; lit "zoo"].
Proof. reflexivity. Qed.
Lemma exampleWords_ok : wordListOK exampleWords.
Proof.
  unfold wordListOK. rewrite exampleWords_list. split; [done|]. split; [|split; [|reflexivity]].
  - repeat (apply NoDup_cons; split; [rewrite ?elem_of_cons, elem_of_nil; intuition discriminate|]). constructor.
  - repeat (constructor; [vm_compute; reflexivity|]). constructor.
Qed.
Example mnemonic_example :
  Encode exampleWords 14 = Ok (lit "ant zoo") /\ Decode exampleWords (lit "  ant" ++ x0a :: lit "zoo ") = Ok 14 /\
  Decode exampleWords (lit "Zoo") = Err ErrUnknownWord /\ roundedBits exampleWords 5 = 6.
Proof. vm_compute. split_and!; reflexivity. Qed.
Definition examplePbkdf2 : Pbkdf2 := {| pbkdf2Key password salt rounds size := take (Z.to_nat size) (concat (repeat (password ++ salt) (Z.to_nat size))) |}.
Definition exampleSeed : res bytes := @MakeSeed exampleDigests exampleText exampleWords (lit "01") 4 [Ok 3; Ok 12] 3.
Lemma seeds_are_found_witness :
  drawEntropy exampleWords 4 [Ok 3; Ok 12] = Ok 12 /\
  forall phrase, exampleSeed = Ok phrase -> exists n, 0 < n <= 3 /\ Decode exampleWords phrase = Ok (12 + n).
Proof.
  destruct (@seeds_are_found exampleDigests exampleText exampleWords (lit "01") 4 [Ok 3; Ok 12] 3) as [_ Hm].
  - exact exampleWords_ok.
  - constructor; [by exists 3|]. constructor; [by exists 12|]. constructor.
  - change (drawEntropy exampleWords 4 [Ok 3; Ok 12]) with (Ok 12) in *. split; [reflexivity|]. destruct Hm as [_ Hm].
    unfold exampleSeed. intros phrase E. rewrite E in Hm. destruct Hm as (n & Hn & Hd & _). exists n. split; [exact Hn|exact Hd].
Defined.
