(* ===== verification/Steps.v ===== *)
(** * Steps on a state

    An operation that changes an object and may fail: it answers with the new state
    of the object, also when it fails, since what was changed before an error
    stays. *)

From S2P Require Import Prelude.

Definition Step (T A : Type) : Type := T -> T * res A.
#[export] Instance step_ret {T} : MRet (Step T) := fun A x s => (s, Ok x).
#[export] Instance step_bind {T} : MBind (Step T) := fun A B k m s =>
  match m s with
  | (s, Ok x) => k x s
  | (s, Err e) => (s, Err e)
  | (s, Panic) => (s, Panic)
  | (s, NoFuel) => (s, NoFuel)
  end.
Definition fails {T A} (e : string) : Step T A := fun s => (s, Err e).
Definition answers {T A} (r : res A) : Step T A := fun s => (s, r).
Definition observes {T A} (f : T -> A) : Step T A := fun s => (s, Ok (f s)).
Definition becomes {T} (f : T -> T) : Step T unit := fun s => (f s, Ok tt).
Definition renames {T A} (f : string -> string) (m : Step T A) : Step T A := fun s => let '(s, r) := m s in (s, map_err f r).

(** The step of one element after the other, with its position; a failure stops. *)
Fixpoint eachFrom {T A} (position : nat) (step : nat -> Step T A) : Step (list T) (list A) := fun states =>
  match states with
  | [] => ([], Ok [])
  | state :: states =>
      match step position state with
      | (state, Ok x) => let '(states, xs) := eachFrom (S position) step states in (state :: states, cons x <$> xs)
      | (state, Err e) => (state :: states, Err e)
      | (state, Panic) => (state :: states, Panic)
      | (state, NoFuel) => (state :: states, NoFuel)
      end
  end.
Definition each {T A} (step : nat -> Step T A) : Step (list T) (list A) := eachFrom 0 step.
(** A step on a part of the state. *)
Definition onPart {T P A} (get : T -> P) (put : P -> T -> T) (m : Step P A) : Step T A := fun s =>
  let '(part, r) := m (get s) in (put part s, r).

(** ** Running steps that succeed *)

Lemma bind_Ok {T A B} (m : Step T A) (k : A -> Step T B) s s' x : m s = (s', Ok x) -> (m ≫= k) s = k x s'.
Proof. intros E. unfold mbind, step_bind. by rewrite E. Qed.
Lemma eachFrom_all {T A} (step : nat -> Step T A) (f : nat -> T -> T) (g : nat -> T -> A) states position :
  (forall i state, states !! i = Some state -> step (position + i)%nat state = (f (position + i)%nat state, Ok (g (position + i)%nat state))) ->
  eachFrom position step states = (imap (fun i => f (position + i)%nat) states, Ok (imap (fun i => g (position + i)%nat) states)).
Proof.
  revert position. induction states as [|state states IH]; intros position Hs; [done|]. cbn [eachFrom].
  pose proof (Hs 0%nat state eq_refl) as E. rewrite Nat.add_0_r in E. rewrite E. rewrite IH.
  - cbn. rewrite Nat.add_0_r.
    assert (forall B (h : nat -> T -> B), imap (fun i => h (S (position + i))) states = imap ((fun i => h (position + i)%nat) ∘ S) states) as Hshift.
    { intros B h. apply imap_ext. intros i x _. cbn. f_equal. lia. }
    by rewrite !Hshift.
  - intros i x Hi. specialize (Hs (S i) x Hi). by rewrite Nat.add_succ_r in Hs.
Qed.
Lemma each_all {T A} (step : nat -> Step T A) (f : nat -> T -> T) (g : nat -> T -> A) states :
  (forall i state, states !! i = Some state -> step i state = (f i state, Ok (g i state))) -> each step states = (imap f states, Ok (imap g states)).
Proof. intros Hs. by apply (eachFrom_all step f g states 0). Qed.

(** What holds of the state and the answer with which a step ends. *)
Definition ends {T A} (m : Step T A) (s : T) (Q : T -> res A -> Prop) : Prop := let '(s', r) := m s in Q s' r.
Lemma ends_bind {T A B} (m : Step T A) (k : A -> Step T B) s Q :
  ends m s (fun s' r => match r with Ok x => ends (k x) s' Q | Err e => Q s' (Err e) | Panic => Q s' Panic | NoFuel => Q s' NoFuel end) ->
  ends (m ≫= k) s Q.
Proof. unfold ends, mbind, step_bind. by destruct (m s) as [s' [x|e| |]]. Qed.
Lemma ends_fails {T A} (e : string) (s : T) (Q : T -> res A -> Prop) : Q s (Err e) -> ends (fails e) s Q.
Proof. done. Qed.
Lemma ends_ret {T A} (x : A) (s : T) (Q : T -> res A -> Prop) : Q s (Ok x) -> ends (mret x) s Q.
Proof. done. Qed.
Lemma ends_becomes {T B} (f : T -> T) (k : unit -> Step T B) s Q : ends (k tt) (f s) Q -> ends (becomes f ≫= k) s Q.
Proof. done. Qed.
Lemma ends_observes {T A B} (f : T -> A) (k : A -> Step T B) s Q : ends (k (f s)) s Q -> ends (observes f ≫= k) s Q.
Proof. done. Qed.
Lemma ends_assoc {T A B C} (m : Step T A) (f : A -> Step T B) (k : B -> Step T C) s Q :
  ends (m ≫= (fun x => f x ≫= k)) s Q -> ends ((m ≫= f) ≫= k) s Q.
Proof. unfold ends, mbind, step_bind. by destruct (m s) as [s' [x|e| |]]. Qed.
Lemma ends_weaken {T A} (m : Step T A) s (Q Q' : T -> res A -> Prop) : (forall s' r, Q s' r -> Q' s' r) -> ends m s Q -> ends m s Q'.
Proof. unfold ends. destruct (m s). auto. Qed.
