(* ===== verification/WalletAccount.v ===== *)
(** * Accounts of a wallet: their files, their secrets and their merging

    Model of [wallet/account.go] and [account_generate.go]: an account made from
    an ordered object and turned into one, the encryption of its secrets in memory
    and for a file, and the merging of another wallet's version of it.  An
    operation that changes the account and may fail is a step on the state of the
    account: what it changed before an error stays.  [random] is what reading a
    vector for a secret answers, [now] the clock in seconds. *)

From S2P Require Import Prelude Steps Digest Utf8 Decimal Base58 Keys Bencode Json Float JsonValue PythonInt Normalize Mnemonic WalletObject WalletJson AccountCrypt Preferences.

(** ** Values of JSON as Python takes them *)

Definition ErrInvalidAccountData : string := "invalid account data".
Definition ErrUnknownAddressGenerator : string := "unknown account address generator".
Definition ErrAddressGeneratorMismatch : string := "account address generator mismatch".
Definition ErrAccountAlreadyEncrypted : string := "account is already encrypted".
Definition ErrAccountNotEncrypted : string := "account is not encrypted".
Definition ErrEncryptedAccountHash : string := "cannot hash an encrypted account".

Definition accountString (data : Object any) (key : bytes) (fallback : bytes) : res bytes :=
  match Get data key with
  | None | Some ANil => Ok fallback
  | Some (AString text) => Ok text
  | Some _ => Err ErrInvalidAccountData
  end.
Definition accountRequiredString (data : Object any) (key : bytes) : res bytes :=
  match Get data key with Some (AString text) => Ok text | _ => Err ErrInvalidAccountData end.
Definition accountBool (data : Object any) (key : bytes) (fallback : bool) : res bool :=
  match Get data key with
  | None | Some ANil => Ok fallback
  | Some (ABool b) => Ok b
  | Some _ => Err ErrInvalidAccountData
  end.
Definition accountPythonIntFloat (value : float64) : Z :=
  let '(n, d) := magnitude value in if f_Negative value then - (n / d) else n / d.
Definition accountPythonIntNumber (value : bytes) : res Z :=
  match (if isFloatLiteral value then None else bigIntString value) with
  | Some n => Ok n
  | None =>
      match numberParts value with
      | None => Err ErrSyntax
      | Some _ => match floatOf value with Some f => Ok (accountPythonIntFloat f) | None => Err "cannot convert NaN or infinity to integer" end
      end
  end.
Definition accountPythonInt (value : any) : res Z :=
  match value with
  | ABool b => Ok (if b then 1 else 0)
  | ANumber text => accountPythonIntNumber text
  | AInt n => Ok n
  | ANaN | AInfinity _ => Err "cannot convert NaN or infinity to integer"
  | AString s => accountPythonIntString s
  | ANil => Err "int() argument must not be None"
  | _ => Err "int() argument has a wrong type"
  end.
Definition pythonJSONTruthy (value : any) : bool :=
  match value with
  | ANil => false
  | ABool b => b
  | AString s => negb (bool_decide (s = []))
  | ANumber text =>
      match bigIntString text with
      | Some n => negb (n =? 0)
      | None => match numberParts text, floatOf text with Some _, Some f => negb (f_Significand f =? 0) | _, _ => true end
      end
  | AInt n => negb (n =? 0)
  | ANaN | AInfinity _ => true
  | AArray l => negb (bool_decide (length l = 0%nat))
  | AObject o => negb (Len o =? 0)%nat
  end.

(** ** Accounts *)

Definition DeterministicChainGenerator : bytes := lit "deterministic-chain".
Definition SingleAddressGenerator : bytes := lit "single-address".
Definition seedKey : bytes := lit "seed".
Definition privateKeyKey : bytes := lit "private_key".

Section accounts.
Context `{Digests} `{Secp256k1} `{UnicodeText} `{Pbkdf2}.

(** A manager of the addresses of a chain; without gaps for a single address. *)
Record AddressManager := MkManager {
  m_PublicKey : PublicKey; m_ChainNumber : Z; m_Gap : any; m_MaximumUsesPerAddress : any; m_singleAddress : bool
}.
Record Account := MkAccount {
  a_Network : Network;
  a_ID : bytes;
  a_Name : bytes;
  a_Seed : bytes;
  a_ModifiedOn : Z;
  a_PrivateKeyString : bytes;
  a_Encrypted : bool;
  a_PrivateKey : option PrivateKey;
  a_PublicKey : PublicKey;
  a_GeneratorName : bytes;
  a_Receiving : AddressManager;
  a_Change : AddressManager;
  a_ChannelKeys : Object any;
  a_Vectors : gmap bytes bytes          (* initializationVectors *)
}.
Definition setVectors (v : gmap bytes bytes) (a : Account) : Account :=
  MkAccount (a_Network a) (a_ID a) (a_Name a) (a_Seed a) (a_ModifiedOn a) (a_PrivateKeyString a) (a_Encrypted a) (a_PrivateKey a) (a_PublicKey a)
    (a_GeneratorName a) (a_Receiving a) (a_Change a) (a_ChannelKeys a) v.
(** The secrets of an account and whether they are encrypted. *)
Definition setSecrets (seed privateKeyString : bytes) (encrypted : bool) (privateKey : option PrivateKey) (a : Account) : Account :=
  MkAccount (a_Network a) (a_ID a) (a_Name a) seed (a_ModifiedOn a) privateKeyString encrypted privateKey (a_PublicKey a)
    (a_GeneratorName a) (a_Receiving a) (a_Change a) (a_ChannelKeys a) (a_Vectors a).
(** What a merge changes. *)
Definition setProfile (name : bytes) (modifiedOn : Z) (a : Account) : Account :=
  MkAccount (a_Network a) (a_ID a) name (a_Seed a) modifiedOn (a_PrivateKeyString a) (a_Encrypted a) (a_PrivateKey a) (a_PublicKey a)
    (a_GeneratorName a) (a_Receiving a) (a_Change a) (a_ChannelKeys a) (a_Vectors a).
Definition setManagers (receiving change : AddressManager) (a : Account) : Account :=
  MkAccount (a_Network a) (a_ID a) (a_Name a) (a_Seed a) (a_ModifiedOn a) (a_PrivateKeyString a) (a_Encrypted a) (a_PrivateKey a) (a_PublicKey a)
    (a_GeneratorName a) receiving change (a_ChannelKeys a) (a_Vectors a).
Definition setChannelKeys (channelKeys : Object any) (a : Account) : Account :=
  MkAccount (a_Network a) (a_ID a) (a_Name a) (a_Seed a) (a_ModifiedOn a) (a_PrivateKeyString a) (a_Encrypted a) (a_PrivateKey a) (a_PublicKey a)
    (a_GeneratorName a) (a_Receiving a) (a_Change a) channelKeys (a_Vectors a).

(** ** From an object *)

Record accountKeyMaterial := MkMaterial {
  k_seed : bytes; k_privateKeyString : bytes; k_encrypted : bool; k_privateKey : option PrivateKey; k_publicKey : PublicKey
}.
Definition keyFromMnemonic (network : Network) (seed : bytes) : res PrivateKey :=
  seed ← ToSeed seed (lit "lbryum"); PrivateKeyFromSeed network seed.
Definition parsePrivate (network : Network) (text : bytes) : res PrivateKey :=
  parsed ← ParseExtendedKey network text;
  match parsed with Private key => Ok key | Public _ => Err ErrInvalidAccountData end.
Definition parsePublic (network : Network) (text : bytes) : res PublicKey :=
  parsed ← ParseExtendedKey network text;
  match parsed with Public key => Ok key | Private _ => Err ErrInvalidAccountData end.
Definition accountKeysFromObject (network : Network) (data : Object any) : res accountKeyMaterial :=
  seed ← accountString data seedKey [];
  privateKeyString ← accountString data privateKeyKey [];
  encrypted ← accountBool data (lit "encrypted") false;
  privateKey ← (if encrypted : bool then Ok None
                else if negb (bool_decide (seed = [])) then Some <$> keyFromMnemonic network seed
                else if negb (bool_decide (privateKeyString = [])) then Some <$> parsePrivate network privateKeyString
                else Ok None);
  publicKey ← match privateKey with
              | Some key => Ok (publicKey key)
              | None => text ← accountRequiredString data (lit "public_key"); parsePublic network text
              end;
  Ok (MkMaterial seed privateKeyString encrypted privateKey publicKey).
(** The identifier of a record for [Merge]: only the fields it needs are looked at. *)
Definition truthyString (data : Object any) (key : bytes) : res (option bytes) :=
  match Get data key with
  | Some value =>
      if pythonJSONTruthy value then match value with AString s => Ok (Some s) | _ => Err ErrInvalidAccountData end else Ok None
  | None => Ok None
  end.
Definition accountIDFromObject (network : Network) (data : Object any) : res bytes :=
  let encrypted := match Get data (lit "encrypted") with Some value => pythonJSONTruthy value | None => false end in
  seed ← (if encrypted then Ok None else truthyString data seedKey);
  match seed with
  | Some seed => key ← keyFromMnemonic network seed; Ok (Address (publicKey key))
  | None =>
      privateKeyString ← (if encrypted then Ok None else truthyString data privateKeyKey);
      match privateKeyString with
      | Some text => key ← parsePrivate network text; Ok (Address (publicKey key))
      | None =>
          text ← accountRequiredString data (lit "public_key");
          parsed ← ParseExtendedKey network text;
          Ok (Address match parsed with Public key => key | Private key => publicKey key end)
      end
  end.
Definition loadDeterministicManager (generator : Object any) (chainName : bytes) (chainNumber : Z) (key : PublicKey) (defaultGap : Z) : res AddressManager :=
  match Get generator chainName with
  | None => Ok (MkManager key chainNumber (AInt defaultGap) (AInt 1) false)
  | Some (AObject chain) =>
      match Get chain (lit "gap"), Get chain (lit "maximum_uses_per_address") with
      | Some gap, Some maximumUses =>
          if negb (Len chain =? 2)%nat then Err ErrInvalidAccountData else Ok (MkManager key chainNumber gap maximumUses false)
      | _, _ => Err ErrInvalidAccountData
      end
  | Some _ => Err ErrInvalidAccountData
  end.
(** The name of the generator and the managers. *)
Definition loadAddressGenerator (key : PublicKey) (data : Object any) : res (bytes * AddressManager * AddressManager) :=
  generator ← match Get data (lit "address_generator") with
              | None => Ok emptyObject
              | Some (AObject generator) => Ok generator
              | Some _ => Err ErrInvalidAccountData
              end;
  name ← match Get generator (lit "name") with
         | None => Ok DeterministicChainGenerator
         | Some (AString name) => Ok name
         | Some _ => Err ErrInvalidAccountData
         end;
  if bool_decide (name = DeterministicChainGenerator) then
    receivingKey ← ChildPub key 0;
    changeKey ← ChildPub key 1;
    receiving ← loadDeterministicManager generator (lit "receiving") 0 receivingKey 20;
    change ← loadDeterministicManager generator (lit "change") 1 changeKey 6;
    Ok (name, receiving, change)
  else if bool_decide (name = SingleAddressGenerator) then
    let manager := MkManager key 0 ANil ANil true in Ok (name, manager, manager)
  else Err ErrUnknownAddressGenerator.
Definition NewAccount (now : Z) (network : Network) (data : Object any) : res Account :=
  keyMaterial ← accountKeysFromObject network data;
  name ← accountString data (lit "name") [];
  let name := if bool_decide (name = []) then lit "Account #" ++ Address (k_publicKey keyMaterial) else name in
  modifiedOn ← match Get data (lit "modified_on") with Some value => accountPythonInt value | None => Ok now end;
  channelKeys ← match Get data (lit "certificates") with
                | None => Ok emptyObject
                | Some (AObject certificates) => Ok certificates
                | Some _ => Err ErrInvalidAccountData
                end;
  '(generatorName, receiving, change) ← loadAddressGenerator (k_publicKey keyMaterial) data;
  Ok (MkAccount network (Address (k_publicKey keyMaterial)) name (k_seed keyMaterial) modifiedOn (k_privateKeyString keyMaterial)
        (k_encrypted keyMaterial) (k_privateKey keyMaterial) (k_publicKey keyMaterial) generatorName receiving change channelKeys ∅).
(** [seed] is what [MakeDefaultSeed] answers. *)
Definition GenerateAccount (now : Z) (seed : res bytes) (network : Network) (name generator : bytes) : res Account :=
  if negb (bool_decide (generator ∈ [DeterministicChainGenerator; SingleAddressGenerator])) then Err ErrUnknownAddressGenerator
  else
    seed ← seed;
    NewAccount now network (NewObject [(lit "name", AString name); (seedKey, AString seed);
      (lit "address_generator", AObject (NewObject [(lit "name", AString generator)]))]).

(** ** Vectors *)

Definition getInitializationVector (random : bytes -> res bytes) (key : bytes) : Step Account bytes := fun account =>
  match a_Vectors account !! key with
  | Some vector => (account, Ok vector)
  | None =>
      match map_err (fun e => "generate account initialization vector: " ++ e)%string (random key) with
      | Ok vector => (setVectors (<[key := vector]> (a_Vectors account)) account, Ok vector)
      | failure => (account, failure)
      end
  end.
Definition SetInitializationVector (key vector : bytes) : Step Account unit :=
  if negb (length vector =? 16)%nat then fails ErrInvalidAccountIV
  else becomes (fun account => setVectors (<[key := vector]> (a_Vectors account)) account).
Definition InitializationVector (account : Account) (key : bytes) : option bytes := a_Vectors account !! key.
Definition encryptForSerialization (random : bytes -> res bytes) (key password value : bytes) : Step Account bytes :=
  vector ← getInitializationVector random key;
  answers (map_err (fun e => "encrypt account: " ++ e)%string (EncryptAccountSecret (random key) password value (Some vector))).

(** ** To an object *)

Definition managerObject (manager : AddressManager) : any :=
  AObject (NewObject [(lit "gap", m_Gap manager); (lit "maximum_uses_per_address", m_MaximumUsesPerAddress manager)]).
Definition addressGeneratorObject (account : Account) : res any :=
  if bool_decide (a_GeneratorName account = DeterministicChainGenerator) then
    Ok (AObject (NewObject [(lit "name", AString DeterministicChainGenerator); (lit "receiving", managerObject (a_Receiving account));
      (lit "change", managerObject (a_Change account))]))
  else if bool_decide (a_GeneratorName account = SingleAddressGenerator) then
    Ok (AObject (NewObject [(lit "name", AString SingleAddressGenerator)]))
  else Err ErrUnknownAddressGenerator.
Definition privateText (account : Account) : bytes :=
  match a_PrivateKey account with
  | Some key => if a_Encrypted account then a_PrivateKeyString account else ExtendedKeyString (Private key)
  | None => a_PrivateKeyString account
  end.
Definition encryptText (random : bytes -> res bytes) (key password value : bytes) : Step Account bytes :=
  if bool_decide (value = []) then mret value else encryptForSerialization random key password value.
Definition accountObject (account : Account) (encryptPassword privateKeyString seed : bytes) (generator : any) (includeCertificates : bool) : Object any :=
  let result := NewObject [
    (lit "ledger", AString (lit (NetworkID (a_Network account)))); (lit "name", AString (a_Name account)); (seedKey, AString seed);
    (lit "encrypted", ABool (a_Encrypted account || negb (bool_decide (encryptPassword = []))));
    (privateKeyKey, AString privateKeyString); (lit "public_key", AString (ExtendedKeyString (Public (a_PublicKey account))));
    (lit "address_generator", generator); (lit "modified_on", AInt (a_ModifiedOn account))] in
  if includeCertificates then Set_ result (lit "certificates") (AObject (a_ChannelKeys account)) else result.
Definition ToDict (random : bytes -> res bytes) (encryptPassword : bytes) (includeCertificates : bool) : Step Account (Object any) :=
  account ← observes (fun account => account);
  let encrypts := negb (a_Encrypted account) && negb (bool_decide (encryptPassword = [])) in
  privateKeyString ← (if encrypts then encryptText random privateKeyKey encryptPassword (privateText account) else mret (privateText account));
  seed ← (if encrypts then encryptText random seedKey encryptPassword (a_Seed account) else mret (a_Seed account));
  generator ← answers (addressGeneratorObject account);
  mret (accountObject account encryptPassword privateKeyString seed generator includeCertificates).
Definition ToObject (random : bytes -> res bytes) : Step Account (Object any) := ToDict random [] true.

(** ** Merging *)

Definition mergeManager (manager : AddressManager) (incoming : Object any) : AddressManager :=
  MkManager (m_PublicKey manager) (m_ChainNumber manager) (default (m_Gap manager) (Get incoming (lit "gap")))
    (default (m_MaximumUsesPerAddress manager) (Get incoming (lit "maximum_uses_per_address"))) (m_singleAddress manager).
(** A chain of the generator: the change of [change] or the receiving one. *)
Definition mergeChain (generator : Object any) (change : bool) : Step Account unit :=
  account ← observes (fun account => account);
  match Get generator (lit (if change then "change" else "receiving")) with
  | None => mret tt
  | Some value =>
      if bool_decide (a_GeneratorName account = SingleAddressGenerator) then mret tt
      else
        match value with
        | AObject incoming =>
            becomes (fun account =>
              if change then setManagers (a_Receiving account) (mergeManager (a_Change account) incoming) account
              else setManagers (mergeManager (a_Receiving account) incoming) (a_Change account) account)
        | _ => fails ErrInvalidAccountData
        end
  end.
Definition mergeNewer (now : Z) (data : Object any) : Step Account unit :=
  account ← observes (fun account => account);
  name ← answers (accountRequiredString data (lit "name"));
  _ ← becomes (setProfile name (a_ModifiedOn account));
  modifiedOn ← answers (match Get data (lit "modified_on") with Some value => accountPythonInt value | None => Ok now end);
  _ ← becomes (setProfile name modifiedOn);
  match Get data (lit "address_generator") with
  | Some (AObject generator) =>
      generatorName ← answers (accountRequiredString generator (lit "name"));
      if negb (bool_decide (generatorName = a_GeneratorName account)) then fails ErrAddressGeneratorMismatch
      else _ ← mergeChain generator true; mergeChain generator false
  | _ => fails ErrInvalidAccountData
  end.
Definition mergeCertificates (certificates channelKeys : Object any) : Object any :=
  fold_left (fun channelKeys certificate => Set_ channelKeys certificate.1 certificate.2) (o_members certificates) channelKeys.
Definition MergeAccount (now : Z) (data : Object any) : Step Account unit :=
  account ← observes (fun account => account);
  newer ← answers (map_err (fun _ => ErrInvalidAccountData)
            (pythonNumberLess (AInt (a_ModifiedOn account)) (default (AInt 0) (Get data (lit "modified_on")))));
  _ ← (if newer : bool then mergeNewer now data else mret tt);
  match Get data (lit "certificates") with
  | None => mret tt
  | Some (AObject certificates) => becomes (fun account => setChannelKeys (mergeCertificates certificates (a_ChannelKeys account)) account)
  | Some _ => fails ErrInvalidAccountData
  end.

(** ** Hashing *)

Definition HashAccount (random : bytes -> res bytes) : Step Account bytes :=
  account ← observes (fun account => account);
  if a_Encrypted account then fails ErrEncryptedAccountHash
  else
    object ← ToDict random [] false;
    encoded ← answers (encodePreferenceJSON (AObject object));
    mret (sha256 (encoded ++ concat (merge_sort bytesLe (Keys (a_ChannelKeys account))))).

(** ** Encryption in memory *)

Definition EncryptAccount (random : bytes -> res bytes) (password : bytes) : Step Account unit :=
  account ← observes (fun account => account);
  if a_Encrypted account then fails ErrAccountAlreadyEncrypted
  else
    _ ← (if bool_decide (a_Seed account = []) then mret tt
         else
           encoded ← encryptForSerialization random seedKey password (a_Seed account);
           becomes (fun a => setSecrets encoded (a_PrivateKeyString a) (a_Encrypted a) (a_PrivateKey a) a));
    _ ← match a_PrivateKey account with
        | None => mret tt
        | Some key =>
            encoded ← encryptForSerialization random privateKeyKey password (ExtendedKeyString (Private key));
            becomes (fun a => setSecrets (a_Seed a) encoded (a_Encrypted a) None a)
        end;
    becomes (fun a => setSecrets (a_Seed a) (a_PrivateKeyString a) true (a_PrivateKey a) a).
(** A secret read with a password: [None] where the program answers false. *)
Definition decryptSecret (key password encoded : bytes) (accepts : bytes -> bool) : Step Account (option bytes) :=
  if bool_decide (encoded = []) then mret (Some [])
  else
    match DecryptAccountSecret password encoded with
    | Ok (plaintext, vector) =>
        _ ← becomes (fun account => setVectors (<[key := vector]> (a_Vectors account)) account);
        mret (if bool_decide (plaintext = []) || accepts plaintext then Some plaintext else None)
    | Err _ => mret None
    | Panic => answers Panic
    | NoFuel => answers NoFuel
    end.
(** [english] is the list of words. *)
Definition DecryptAccount (english : Mnemonic) (password : bytes) : Step Account bool :=
  account ← observes (fun account => account);
  if negb (a_Encrypted account) then fails ErrAccountNotEncrypted
  else
    seed ← decryptSecret seedKey password (a_Seed account) (fun phrase => isOk (Decode english phrase));
    match seed with
    | None => mret false
    | Some seed =>
        text ← decryptSecret privateKeyKey password (a_PrivateKeyString account) (fun text => isOk (parsePrivate (a_Network account) text));
        match text with
        | None => mret false
        | Some text =>
            let privateKey := match parsePrivate (a_Network account) text with
                              | Ok key => if bool_decide (text = []) then None else Some key
                              | _ => None
                              end in
            _ ← becomes (setSecrets seed [] false privateKey);
            mret true
        end
    end.
End accounts.
