(* ===== verification/AccountFile.v ===== *)
(** * Accounts and their files

    What makes an account of [wallet/account.go] well formed, that every way to make
    and to change one keeps it so, and that what is written of an account is read
    back as the account, in the clear or with its secrets encrypted. *)

From S2P Require Import Prelude Steps Digest Utf8 Decimal Base58 Keys Bencode Json Float JsonValue PythonInt Normalize Mnemonic WalletObject WalletJson.
From S2P Require Import WalletDocument Base64 Aes AccountCrypt Preferences WalletAccount.

(** ** Integers as they are written *)

Lemma FormatInt_text n : isFloatLiteral (FormatInt n) = false /\ bigIntString (FormatInt n) = Some n.
Proof.
  assert (forall m, isFloatLiteral (FormatUint m) = false) as Hfloat.
  { intros m. unfold isFloatLiteral. apply not_true_is_false. intros (c & Hin & Hc)%existsb_exists. apply bool_decide_eq_true_1 in Hc.
    pose proof (FormatUint_isDigit m) as Hall. rewrite Forall_forall in Hall. apply list_elem_of_In in Hin. apply Hall in Hin.
    rewrite !elem_of_cons, elem_of_nil in Hc. by destruct Hc as [->|[->|[->|[]]]]. }
  unfold FormatInt. destruct (Z.ltb_spec n 0) as [Hneg|Hpos].
  - split; [apply (Hfloat (- n))|]. change (bigIntString (lit "-" ++ FormatUint (- n))) with (Z.opp <$> bigIntDigits (FormatUint (- n))).
    rewrite bigIntDigits_FormatUint by lia. cbn [fmap option_fmap option_map]. f_equal. lia.
  - split; [done|]. destruct (FormatUint_cons n) as (c & s & E & Hc). pose proof (bigIntDigits_FormatUint n Hpos) as Ed. rewrite E in *.
    unfold bigIntString. unfold isDigit in Hc. bool_props. rewrite (proj2 (Z.eqb_neq _ 0x2d)), (proj2 (Z.eqb_neq _ 0x2b)) by lia. done.
Qed.
Lemma PythonInt_written n : accountPythonIntNumber (FormatInt n) = Ok n.
Proof. unfold accountPythonIntNumber. destruct (FormatInt_text n) as [-> ->]. done. Qed.

(** ** Text without bytes above ASCII *)

Lemma base58_ascii payload : ascii (encodeBase58 payload).
Proof.
  assert (forall d, Zb (alphabetAt d) < 0x80) as Ha.
  { intros d. unfold alphabetAt. assert (Forall (fun c => Zb c < 0x80) base58Alphabet) as Hall.
    { apply Forall_forall. intros c Hc%list_elem_of_In. assert (forallb (fun c => Zb c <? 0x80) base58Alphabet = true) as Hf by reflexivity.
      rewrite forallb_forall in Hf. by apply Z.ltb_lt, Hf. }
    destruct (nth_in_or_default (Z.to_nat d) base58Alphabet zeroDigit) as [Hin| ->]; [|done].
    rewrite Forall_forall in Hall. by apply Hall, list_elem_of_In. }
  unfold encodeBase58, ascii. apply Forall_rev, Forall_app. split; [|by apply Forall_forall; intros c Hc%list_elem_of_In%repeat_spec; subst].
  generalize (be_value payload), (digitFuel payload). intros n fuel. revert n. induction fuel as [|fuel IH]; intros n; cbn [encodeDigits]; [constructor|].
  destruct (0 <? n); [by constructor|constructor].
Qed.

Section accounts.
Context `{Digests} `{Secp256k1} `{UnicodeText} `{Pbkdf2}.

Lemma extended_valid key : Valid (ExtendedKeyString key) = true.
Proof. apply Valid_ascii, base58_ascii. Qed.
Lemma extended_nonempty key : validKey key -> ExtendedKeyString key <> [].
Proof.
  intros Hk E. pose proof (extended_key_roundtrip key Hk) as Hr. rewrite E in Hr. done.
Qed.

(** ** Keys as they are read *)

Lemma validateMetadata_network n c i d base : validateMetadata n c i d = Ok base -> network base = n.
Proof. unfold validateMetadata. repeat case_match; try done. by intros [= <-]. Qed.
Lemma NewPrivateKey_network n l c i d parent key : NewPrivateKey n l c i d parent = Ok key -> network (basePriv key) = n.
Proof. unfold NewPrivateKey. intros Hk. res_inv. cbn. by eapply validateMetadata_network. Qed.
Lemma NewPublicKey_valid n l c i d parent key : 0 <= n -> NewPublicKey n l c i d parent = Ok key ->
  validPub key /\ parentPub key = parent /\ network (basePub key) = n.
Proof.
  unfold NewPublicKey. intros Hn Hk. res_inv.
  match goal with H : validateMetadata _ _ _ _ = _ |- _ => apply validateMetadata_Ok in H as [-> ?]; [|done] end. done.
Qed.
Lemma parse_valid n text key : 0 <= n -> ParseExtendedKey n text = Ok key ->
  match key with
  | Private key => validPriv key /\ parentPriv key = None /\ network (basePriv key) = n
  | Public key => validPub key /\ parentPub key = None /\ network (basePub key) = n
  end.
Proof.
  intros Hn. unfold ParseExtendedKey. destruct (DecodeBase58Check text) as [payload| | |]; [|done..]. cbn [mbind res_bind].
  unfold ParseExtendedKeyBytes. repeat case_match; try done; intros E; unfold fmap, res_fmap in E; case_match; try done; injection E as <-.
  - by eapply NewPublicKey_valid.
  - match goal with H : NewPrivateKey _ _ _ _ _ _ = _ |- _ => pose proof (NewPrivateKey_network _ _ _ _ _ _ _ H); apply NewPrivateKey_valid in H as [? ?]; [|done] end. done.
Qed.
Lemma keyFromMnemonic_valid n seed key : 0 <= n -> keyFromMnemonic n seed = Ok key -> validPriv key /\ parentPriv key = None /\ network (basePriv key) = n.
Proof.
  unfold keyFromMnemonic, PrivateKeyFromSeed. intros Hn E. res_inv.
  match goal with H : NewPrivateKey _ _ _ _ _ _ = _ |- _ => pose proof (NewPrivateKey_network _ _ _ _ _ _ _ H); apply NewPrivateKey_valid in H as [? ?]; [|done] end. done.
Qed.

(** ** Well-formed accounts *)

Definition deterministicManagers (a : Account) : Prop :=
  a_GeneratorName a = DeterministicChainGenerator /\
  exists receiving change gap uses gap' uses',
    ChildPub (a_PublicKey a) 0 = Ok receiving /\ ChildPub (a_PublicKey a) 1 = Ok change /\
    a_Receiving a = MkManager receiving 0 gap uses false /\ a_Change a = MkManager change 1 gap' uses' false /\
    writable gap /\ writable uses /\ writable gap' /\ writable uses'.
Definition singleManager (a : Account) : Prop :=
  a_GeneratorName a = SingleAddressGenerator /\
  a_Receiving a = MkManager (a_PublicKey a) 0 ANil ANil true /\ a_Change a = a_Receiving a.
(** The private key, when there is one, belongs to the public key, and comes from the
    seed when there is one; an account without it that is not encrypted has no secret. *)
Definition secretsOK (a : Account) : Prop :=
  match a_PrivateKey a with
  | Some key =>
      a_Encrypted a = false /\ validPriv key /\ parentPriv key = None /\ network (basePriv key) = a_Network a /\
      publicKey key = a_PublicKey a /\ (a_Seed a <> [] -> keyFromMnemonic (a_Network a) (a_Seed a) = Ok key)
  | None => a_Encrypted a = false -> a_Seed a = [] /\ a_PrivateKeyString a = []
  end.
Record accountOK (a : Account) : Prop := {
  ok_public : validPub (a_PublicKey a) /\ parentPub (a_PublicKey a) = None /\ network (basePub (a_PublicKey a)) = a_Network a;
  ok_id : a_ID a = Address (a_PublicKey a);
  ok_name : Valid (a_Name a) = true;
  ok_texts : Valid (a_Seed a) = true /\ Valid (a_PrivateKeyString a) = true;
  ok_secrets : secretsOK a;
  ok_managers : deterministicManagers a \/ singleManager a;
  ok_channels : writable (AObject (a_ChannelKeys a))
}.

Lemma accountString_valid data key fallback s :
  writable (AObject data) -> Valid fallback = true -> accountString data key fallback = Ok s -> Valid s = true.
Proof.
  intros Hw Hf. unfold accountString. destruct (Get data key) as [v|] eqn:E; [|by intros [= <-]].
  apply (writable_get _ _ _ Hw) in E. destruct v; try done; intros [= <-]; [done|]. by inversion E.
Qed.
Lemma managers_ok key data name receiving change :
  writable (AObject data) -> loadAddressGenerator key data = Ok (name, receiving, change) ->
  forall a, a_PublicKey a = key -> a_GeneratorName a = name -> a_Receiving a = receiving -> a_Change a = change ->
  deterministicManagers a \/ singleManager a.
Proof.
  intros Hw E a Ek En Er Ec. unfold loadAddressGenerator in E.
  assert (exists generator, match Get data (lit "address_generator") with None => Ok emptyObject | Some (AObject g) => Ok g | Some _ => Err ErrInvalidAccountData end = Ok generator /\
    writable (AObject generator)) as (generator & Eg & Hg).
  { destruct (Get data (lit "address_generator")) as [v|] eqn:Ev.
    - apply (writable_get _ _ _ Hw) in Ev. destruct v; try done. by exists o.
    - exists emptyObject. split; [done|]. constructor; [apply empty_ok|constructor]. }
  rewrite Eg in E. cbn [mbind res_bind] in E.
  assert (forall chain number key gap manager, loadDeterministicManager generator chain number key gap = Ok manager ->
    exists g u, manager = MkManager key number g u false /\ writable g /\ writable u) as Hload.
  { intros chain number k gap manager. unfold loadDeterministicManager. destruct (Get generator chain) as [v|] eqn:Ev.
    - apply (writable_get _ _ _ Hg) in Ev. destruct v as [| | | | | | | |c]; try done. destruct (Get c (lit "gap")) as [g|] eqn:E1; [|done].
      destruct (Get c (lit "maximum_uses_per_address")) as [u|] eqn:E2; [|done]. destruct (negb _); [done|]. intros [= <-].
      exists g, u. split; [done|]. split; by eapply writable_get.
    - intros [= <-]. do 2 eexists. split; [done|]. split; constructor. }
  destruct (match Get generator (lit "name") with None => _ | Some _ => _ end) as [name'| | |]; try done. cbn [mbind res_bind] in E.
  case_bool_decide as Hn.
  - left. destruct (ChildPub key 0) as [k0| | |] eqn:E0; try done. destruct (ChildPub key 1) as [k1| | |] eqn:E1; try done. cbn [mbind res_bind] in E.
    destruct (loadDeterministicManager _ _ 0 _ _) as [m0| | |] eqn:L0; try done. cbn [mbind res_bind] in E.
    destruct (loadDeterministicManager _ _ 1 _ _) as [m1| | |] eqn:L1; try done. cbn [mbind res_bind] in E.
    injection E as E2 E3 E4. apply Hload in L0 as (g & u & -> & Hg0 & Hu0). apply Hload in L1 as (g' & u' & -> & Hg1 & Hu1).
    split; [congruence|]. exists k0, k1, g, u, g', u'. split_and!; congruence.
  - case_bool_decide as Hs; [|done]. injection E as E2 E3 E4. right. split_and!; congruence.
Qed.
Lemma accountKeys_ok network data m :
  0 <= network -> writable (AObject data) -> accountKeysFromObject network data = Ok m ->
  (validPub (k_publicKey m) /\ parentPub (k_publicKey m) = None /\ Keys.network (basePub (k_publicKey m)) = network) /\
  match k_privateKey m with
  | Some key =>
      k_encrypted m = false /\ validPriv key /\ parentPriv key = None /\ Keys.network (basePriv key) = network /\
      publicKey key = k_publicKey m /\ (k_seed m <> [] -> keyFromMnemonic network (k_seed m) = Ok key)
  | None => k_encrypted m = false -> k_seed m = [] /\ k_privateKeyString m = []
  end /\ Valid (k_seed m) = true /\ Valid (k_privateKeyString m) = true.
Proof.
  intros Hn Hw E. unfold accountKeysFromObject in E.
  destruct (accountString data seedKey []) as [seed| | |] eqn:Es; try done. apply accountString_valid in Es; [|done|reflexivity].
  destruct (accountString data privateKeyKey []) as [text| | |] eqn:Et; try done. apply accountString_valid in Et; [|done|reflexivity].
  destruct (accountBool data (lit "encrypted") false) as [encrypted| | |]; try done. cbn [mbind res_bind] in E.
  assert (forall key, parentPub (publicKey key) = None <-> parentPriv key = None) as Hparent by (intros [b k [p|]]; done).
  assert (forall key, validPriv key /\ parentPriv key = None /\ Keys.network (basePriv key) = network ->
    validPub (publicKey key) /\ parentPub (publicKey key) = None /\ Keys.network (basePub (publicKey key)) = network) as Hpub.
  { intros key ([Hv _] & Hp & Hk). unfold validPub. rewrite basePub_public, Hparent. done. }
  assert (forall m, (text' ← accountRequiredString data (lit "public_key"); parsePublic network text') = Ok m ->
    validPub m /\ parentPub m = None /\ Keys.network (basePub m) = network) as Hparse.
  { intros k Hk. destruct (accountRequiredString _ _) as [text'| | |]; try done. cbn [mbind res_bind] in Hk. unfold parsePublic in Hk.
    destruct (ParseExtendedKey network text') as [parsed| | |] eqn:Ep; try done. apply (parse_valid _ _ _ Hn) in Ep. cbn [mbind res_bind] in Hk.
    destruct parsed; [done|]. by injection Hk as <-. }
  destruct encrypted; [|destruct (bool_decide_reflect (seed = [])) as [->|Hseed]; [destruct (bool_decide_reflect (text = [])) as [->|Htext]|]];
    cbn [negb mbind res_bind] in E.
  - destruct (text' ← accountRequiredString data (lit "public_key"); parsePublic network text') as [k| | |] eqn:Ek; try done. injection E as <-. split; [by apply Hparse|done].
  - destruct (text' ← accountRequiredString data (lit "public_key"); parsePublic network text') as [k| | |] eqn:Ek; try done. injection E as <-. split; [by apply Hparse|done].
  - unfold parsePrivate in E. destruct (ParseExtendedKey network text) as [parsed| | |] eqn:Ep; try done. apply (parse_valid _ _ _ Hn) in Ep.
    destruct parsed as [key|]; try done. injection E as <-. cbn. split; [by apply Hpub|]. by split_and!; try apply Ep.
  - destruct (keyFromMnemonic network seed) as [key| | |] eqn:Ek; try done. injection E as <-. pose proof (keyFromMnemonic_valid _ _ _ Hn Ek) as Hk.
    cbn. split; [by apply Hpub|]. by split_and!; try apply Hk.
Qed.
(** An account made from an object is well formed. *)
Lemma NewAccount_ok now network data a :
  0 <= network -> writable (AObject data) -> NewAccount now network data = Ok a -> accountOK a /\ a_Network a = network /\ a_Name a <> [].
Proof.
  intros Hn Hw E. unfold NewAccount in E.
  destruct (accountKeysFromObject network data) as [m| | |] eqn:Em; try done. cbn [mbind res_bind] in E.
  destruct (accountString data (lit "name") []) as [name| | |] eqn:Ename; try done. cbn [mbind res_bind] in E.
  apply accountString_valid in Ename; [|done|reflexivity].
  destruct (match Get data (lit "modified_on") with Some _ => _ | None => _ end) as [modifiedOn| | |]; try done. cbn [mbind res_bind] in E.
  destruct (match Get data (lit "certificates") with None => _ | Some _ => _ end) as [channelKeys| | |] eqn:Ecert; try done. cbn [mbind res_bind] in E.
  destruct (loadAddressGenerator _ data) as [[[generatorName receiving] change]| | |] eqn:Eg; try done. cbn [mbind res_bind] in E.
  apply (inj Ok) in E as <-. split; [|split; [done|cbn; by case_bool_decide]].
  destruct (accountKeys_ok network data m Hn Hw Em) as (Hpub & Hsecrets & Hseed & Htext).
  split; cbn [a_Network a_ID a_Name a_Seed a_PrivateKeyString a_PublicKey a_ChannelKeys]; try done.
  - case_bool_decide; [|done]. apply Valid_ascii. apply Forall_app. split; [repeat constructor|apply base58_ascii].
  - by eapply managers_ok.
  - destruct (Get data (lit "certificates")) as [v|] eqn:Ev.
    + apply (writable_get _ _ _ Hw) in Ev. destruct v; try done. by injection Ecert as <-.
    + injection Ecert as <-. constructor; [apply empty_ok|constructor].
Qed.

(** ** What is written of an account *)

Definition generatorOf (a : Account) : any := match addressGeneratorObject a with Ok generator => generator | _ => ANil end.
Definition dictOf (a : Account) : Object any := accountObject a [] (privateText a) (a_Seed a) (generatorOf a) true.
Definition dictMembers (a : Account) : list (bytes * any) := [
  (lit "ledger", AString (lit (NetworkID (a_Network a)))); (lit "name", AString (a_Name a)); (seedKey, AString (a_Seed a));
  (lit "encrypted", ABool (a_Encrypted a)); (privateKeyKey, AString (privateText a));
  (lit "public_key", AString (ExtendedKeyString (Public (a_PublicKey a)))); (lit "address_generator", generatorOf a);
  (lit "modified_on", AInt (a_ModifiedOn a)); (lit "certificates", AObject (a_ChannelKeys a))].

Lemma dict_ok a : objectOK (dictOf a).
Proof. apply Set_members, NewObject_ok. Qed.
Lemma dict_members a : o_members (dictOf a) = dictMembers a.
Proof.
  unfold dictOf, accountObject. rewrite (proj2 (Set_members _ _ _ (NewObject_ok _))).
  rewrite NewObject_members; [by rewrite orb_false_r|].
  apply (bool_decide_eq_true_1 (NoDup [lit "ledger"; lit "name"; seedKey; lit "encrypted"; privateKeyKey; lit "public_key"; lit "address_generator"; lit "modified_on"])).
  vm_compute. reflexivity.
Qed.
Lemma generator_known a : accountOK a -> addressGeneratorObject a = Ok (generatorOf a).
Proof. intros Ha. unfold generatorOf, addressGeneratorObject. destruct (ok_managers a Ha) as [[-> _]|[-> _]]; reflexivity. Qed.
Lemma toDict_clear random a : accountOK a -> ToDict random [] true a = (a, Ok (dictOf a)).
Proof.
  intros Ha. unfold ToDict. change (observes (fun account => account) ≫= ?k) with (fun s : Account => k s s). cbv beta.
  rewrite (bool_decide_eq_true_2 ([] = [])) by done. cbn [negb]. rewrite andb_false_r.
  change (mret ?x ≫= ?k) with (k x). cbv beta. rewrite (generator_known a Ha).
  change (answers (Ok ?x) ≫= ?k) with (k x). cbv beta. unfold dictOf. exact eq_refl.
Qed.
Lemma managerObject_writable m : writable (m_Gap m) -> writable (m_MaximumUsesPerAddress m) -> writable (managerObject m).
Proof.
  intros Hg Hu. apply writable_object; [apply NewObject_ok|]. rewrite NewObject_members.
  - by repeat constructor.
  - apply (bool_decide_eq_true_1 (NoDup [lit "gap"; lit "maximum_uses_per_address"])). vm_compute. reflexivity.
Qed.
Lemma generator_writable a : accountOK a -> writable (generatorOf a).
Proof.
  intros Ha. unfold generatorOf, addressGeneratorObject. destruct (ok_managers a Ha) as [[-> Hm]|[-> _]].
  - rewrite bool_decide_eq_true_2 by done. destruct Hm as (r & c & g & u & g' & u' & _ & _ & -> & -> & Hg & Hu & Hg' & Hu').
    apply writable_object; [apply NewObject_ok|]. rewrite NewObject_members.
    + constructor; [split; [reflexivity|constructor; reflexivity]|]. constructor; [split; [reflexivity|by apply managerObject_writable]|].
      constructor; [split; [reflexivity|by apply managerObject_writable]|constructor].
    + apply (bool_decide_eq_true_1 (NoDup [lit "name"; lit "receiving"; lit "change"])). vm_compute. reflexivity.
  - rewrite bool_decide_eq_false_2, bool_decide_eq_true_2 by done. apply writable_object; [apply NewObject_ok|].
    rewrite NewObject_members; [|apply NoDup_singleton]. constructor; [|constructor]. split; [reflexivity|constructor; reflexivity].
Qed.
Lemma network_range a : accountOK a -> 0 <= a_Network a < 3.
Proof. intros Ha. destruct (ok_public a Ha) as ((Hn & _) & _ & E). by rewrite <- E. Qed.
Lemma network_known a : accountOK a -> Valid (lit (NetworkID (a_Network a))) = true /\ ParseNetwork (NetworkID (a_Network a)) = Ok (a_Network a).
Proof.
  intros Ha. apply (network_cases (fun n => Valid (lit (NetworkID n)) = true /\ ParseNetwork (NetworkID n) = Ok n)); [by apply network_range|by split..].
Qed.
Lemma privateText_valid a : accountOK a -> Valid (privateText a) = true.
Proof.
  intros Ha. unfold privateText. destruct (ok_texts a Ha) as [_ Ht]. destruct (a_PrivateKey a); [|done]. destruct (a_Encrypted a); [done|apply extended_valid].
Qed.
Lemma dict_writable a : accountOK a -> writable (AObject (dictOf a)).
Proof.
  intros Ha. constructor; [apply dict_ok|]. rewrite dict_members. destruct (ok_texts a Ha) as [Hs _].
  repeat (constructor; [split; [reflexivity|]|]); try apply writable_string; [|apply (ok_name a Ha)|done|constructor|by apply privateText_valid|
    apply extended_valid|by apply generator_writable|constructor|exact (ok_channels a Ha)|constructor].
  by apply network_known.
Qed.

(** ** Reading it back *)

Section reading.
Variable encoder : pythonJSONEncoder.

Definition readManager (m : AddressManager) : AddressManager :=
  MkManager (m_PublicKey m) (m_ChainNumber m) (readAs encoder (m_Gap m)) (readAs encoder (m_MaximumUsesPerAddress m)) (m_singleAddress m).
(** The account that is read back: its vectors are forgotten, the text of its private
    key is what was written, and its other values are as JSON gives them. *)
Definition readAccount (a : Account) : Account :=
  MkAccount (a_Network a) (a_ID a) (a_Name a) (a_Seed a) (a_ModifiedOn a) (privateText a) (a_Encrypted a) (a_PrivateKey a) (a_PublicKey a)
    (a_GeneratorName a) (readManager (a_Receiving a)) (readManager (a_Change a)) (readObject encoder (a_ChannelKeys a)) ∅.

Lemma Get_dict a key : Get (readObject encoder (dictOf a)) key = readAs encoder <$> memberOf (dictMembers a) key.
Proof. rewrite Get_readObject by apply dict_ok. by rewrite Get_spec, dict_members by apply dict_ok. Qed.
Lemma orphan_public key : parentPub key = None -> orphan (Public key) = Public key.
Proof. by destruct key as [b k p]; cbn; intros ->. Qed.
Lemma orphan_private key : parentPriv key = None -> orphan (Private key) = Private key.
Proof. by destruct key as [b k p]; cbn; intros ->. Qed.
Lemma parse_written_public a : accountOK a -> parsePublic (a_Network a) (ExtendedKeyString (Public (a_PublicKey a))) = Ok (a_PublicKey a).
Proof.
  intros Ha. destruct (ok_public a Ha) as (Hv & Hp & Hn). unfold parsePublic.
  pose proof (extended_key_roundtrip (Public (a_PublicKey a)) Hv) as Hr. cbn [keyNetwork] in Hr. rewrite Hn, orphan_public in Hr by done. by rewrite Hr.
Qed.
Lemma parse_written_private n key : validPriv key -> parentPriv key = None -> network (basePriv key) = n ->
  parsePrivate n (ExtendedKeyString (Private key)) = Ok key.
Proof.
  intros Hv Hp Hn. unfold parsePrivate. pose proof (extended_key_roundtrip (Private key) Hv) as Hr. cbn [keyNetwork] in Hr.
  rewrite Hn, orphan_private in Hr by done. by rewrite Hr.
Qed.
Lemma read_keys a : accountOK a ->
  accountKeysFromObject (a_Network a) (readObject encoder (dictOf a)) =
  Ok (MkMaterial (a_Seed a) (privateText a) (a_Encrypted a) (a_PrivateKey a) (a_PublicKey a)).
Proof.
  intros Ha. unfold accountKeysFromObject, accountString, accountBool, accountRequiredString. rewrite !Get_dict.
  change (memberOf (dictMembers a) seedKey) with (Some (AString (a_Seed a))).
  change (memberOf (dictMembers a) privateKeyKey) with (Some (AString (privateText a))).
  change (memberOf (dictMembers a) (lit "encrypted")) with (Some (ABool (a_Encrypted a))).
  change (memberOf (dictMembers a) (lit "public_key")) with (Some (AString (ExtendedKeyString (Public (a_PublicKey a))))).
  cbn [fmap option_fmap option_map readAs mbind res_bind]. rewrite (parse_written_public a Ha).
  pose proof (ok_secrets a Ha) as Hs. unfold secretsOK in Hs. unfold privateText in *. destruct (a_PrivateKey a) as [key|].
  - destruct Hs as (He & Hv & Hp & Hn & Hpub & Hseed). rewrite He. destruct (bool_decide_reflect (a_Seed a = [])) as [E|Hne]; cbn [negb].
    + rewrite bool_decide_eq_false_2 by (by apply (extended_nonempty (Private key))). cbn [negb].
      rewrite (parse_written_private _ key Hv Hp Hn). cbn [fmap res_fmap mbind res_bind]. by rewrite Hpub.
    + rewrite Hseed by done. cbn [fmap res_fmap mbind res_bind]. by rewrite Hpub.
  - destruct (a_Encrypted a) eqn:He; [done|]. destruct Hs as [-> ->]; [done|]. done.
Qed.
Lemma read_manager generator chain number key gap m :
  Get generator chain = Some (readAs encoder (managerObject m)) ->
  loadDeterministicManager generator chain number key gap =
  Ok (MkManager key number (readAs encoder (m_Gap m)) (readAs encoder (m_MaximumUsesPerAddress m)) false).
Proof.
  intros Hg. unfold loadDeterministicManager. rewrite Hg. unfold managerObject. rewrite readAs_object.
  rewrite Len_readObject by apply NewObject_ok. rewrite !Get_readObject, !Get_spec by apply NewObject_ok.
  unfold Len. rewrite !NewObject_members; [done|].
  apply (bool_decide_eq_true_1 (NoDup [lit "gap"; lit "maximum_uses_per_address"])). vm_compute. reflexivity.
Qed.
Lemma read_generator a : accountOK a ->
  loadAddressGenerator (a_PublicKey a) (readObject encoder (dictOf a)) =
  Ok (a_GeneratorName a, readManager (a_Receiving a), readManager (a_Change a)).
Proof.
  intros Ha. unfold loadAddressGenerator. rewrite Get_dict. change (memberOf (dictMembers a) (lit "address_generator")) with (Some (generatorOf a)).
  cbn [fmap option_fmap option_map]. unfold generatorOf, addressGeneratorObject. destruct (ok_managers a Ha) as [[-> Hm]|(-> & -> & ->)].
  - rewrite bool_decide_eq_true_2 by done. rewrite readAs_object. cbn [mbind res_bind].
    destruct Hm as (r & c & g & u & g' & u' & E0 & E1 & -> & -> & _).
    set (members := [(lit "name", AString DeterministicChainGenerator); _; _]). set (generator := readObject encoder (NewObject members)).
    assert (forall key, Get generator key = readAs encoder <$> memberOf members key) as Hget.
    { intros key. unfold generator. rewrite Get_readObject, Get_spec by apply NewObject_ok. rewrite NewObject_members; [done|].
      apply (bool_decide_eq_true_1 (NoDup [lit "name"; lit "receiving"; lit "change"])). vm_compute. reflexivity. }
    rewrite Hget. change (readAs encoder <$> memberOf members (lit "name")) with (Some (AString DeterministicChainGenerator)). cbn [mbind res_bind].
    rewrite bool_decide_eq_true_2 by done. rewrite E0, E1. cbn [mbind res_bind].
    rewrite (read_manager generator (lit "receiving") _ _ _ (MkManager r 0 g u false)) by apply Hget.
    by rewrite (read_manager generator (lit "change") _ _ _ (MkManager c 1 g' u' false)) by apply Hget.
  - rewrite bool_decide_eq_false_2, bool_decide_eq_true_2 by done. rewrite readAs_object. cbn [mbind res_bind].
    rewrite Get_readObject, Get_spec, NewObject_members by (apply NewObject_ok || apply NoDup_singleton).
    change (readAs encoder <$> memberOf _ _) with (Some (AString SingleAddressGenerator)). cbn [mbind res_bind].
    by rewrite bool_decide_eq_false_2, bool_decide_eq_true_2 by done.
Qed.
Lemma read_account now a : accountOK a -> a_Name a <> [] ->
  NewAccount now (a_Network a) (readObject encoder (dictOf a)) = Ok (readAccount a).
Proof.
  intros Ha Hname. unfold NewAccount. rewrite (read_keys a Ha). cbn [mbind res_bind k_publicKey k_seed k_privateKeyString k_encrypted k_privateKey].
  unfold accountString. rewrite !Get_dict. change (memberOf (dictMembers a) (lit "name")) with (Some (AString (a_Name a))).
  change (memberOf (dictMembers a) (lit "modified_on")) with (Some (AInt (a_ModifiedOn a))).
  change (memberOf (dictMembers a) (lit "certificates")) with (Some (AObject (a_ChannelKeys a))).
  cbn [fmap option_fmap option_map mbind res_bind]. rewrite readAs_object. cbn [readAs mbind res_bind]. unfold asNumber. cbn [accountPythonInt].
  rewrite PythonInt_written. cbn [mbind res_bind]. rewrite (read_generator a Ha). cbn [mbind res_bind].
  rewrite bool_decide_eq_false_2 by done. unfold readAccount. by rewrite (ok_id a Ha).
Qed.
End reading.

(** ** Secrets, encrypted and decrypted *)

Section locking.
Variables (random : bytes -> res bytes) (password : bytes).
Hypothesis Hpassword : Valid password = true.

(** The vector that a secret is encrypted with. *)
Definition vectorOf (a : Account) (key : bytes) : option bytes :=
  match a_Vectors a !! key with Some vector => Some vector | None => match random key with Ok vector => Some vector | _ => None end end.
Definition vectorsOK (a : Account) : Prop := forall key, exists vector, vectorOf a key = Some vector /\ length vector = BlockSize.
Definition withVector (a : Account) (key value : bytes) (vectors : gmap bytes bytes) : gmap bytes bytes :=
  if bool_decide (value = []) then vectors else match vectorOf a key with Some vector => <[key := vector]> vectors | None => vectors end.
Definition sealText (a : Account) (key value : bytes) : bytes :=
  if bool_decide (value = []) then []
  else match EncryptAccountSecret (random key) password value (vectorOf a key) with Ok text => text | _ => [] end.
Definition sealedVectors (a : Account) : gmap bytes bytes :=
  withVector a privateKeyKey (privateText a) (withVector a seedKey (a_Seed a) (a_Vectors a)).
(** The account with its secrets encrypted. *)
Definition lockedAccount (a : Account) : Account :=
  setSecrets (sealText a seedKey (a_Seed a)) (sealText a privateKeyKey (privateText a)) true None (setVectors (sealedVectors a) a).

Lemma seal_text a key value : vectorsOK a -> Valid value = true ->
  ascii (sealText a key value) /\
  (value <> [] -> sealText a key value <> [] /\ exists vector, vectorOf a key = Some vector /\
    EncryptAccountSecret (random key) password value (Some vector) = Ok (sealText a key value) /\
    DecryptAccountSecret password (sealText a key value) = Ok (value, vector)).
Proof.
  intros Hv Hvalue. unfold sealText. destruct (Hv key) as (vector & Ev & Hlen). rewrite Ev.
  destruct (secret_roundtrip (random key) password value vector Hpassword Hvalue Hlen) as (text & Ee & Ed). rewrite Ee.
  destruct (bool_decide_reflect (value = [])) as [->|Hne]; [by split; [constructor|]|].
  assert (ascii text) as Ha.
  { unfold EncryptAccountSecret in Ee. cbn [mbind res_bind] in Ee. repeat (case_match; try done). injection Ee as <-. apply base64_ascii. }
  split; [done|]. intros _. split; [|by exists vector]. intros ->. unfold DecryptAccountSecret in Ed. rewrite Hpassword in Ed. done.
Qed.
Lemma vectorOf_stays a key value key' : vectorOf (setVectors (withVector a key value (a_Vectors a)) a) key' = vectorOf a key'.
Proof.
  unfold withVector. destruct (bool_decide (value = [])); [by destruct a|]. destruct (vectorOf a key) as [vector|] eqn:E; [|by destruct a].
  unfold vectorOf in *. cbn. rewrite lookup_insert. case_decide as Hk; [|done]. subst key'. destruct (a_Vectors a !! key); [done|].
  by destruct (random key); simplify_eq.
Qed.
Lemma encrypt_text a key value : vectorsOK a -> Valid value = true -> value <> [] ->
  encryptForSerialization random key password value a = (setVectors (withVector a key value (a_Vectors a)) a, Ok (sealText a key value)).
Proof.
  intros Hv Hvalue Hne. destruct (seal_text a key value Hv Hvalue) as [_ Hs]. destruct (Hs Hne) as (_ & vector & Ev & Ee & _).
  unfold encryptForSerialization, mbind, step_bind, getInitializationVector, withVector, answers.
  rewrite bool_decide_eq_false_2, Ev by done. unfold vectorOf in Ev. destruct (a_Vectors a !! key) as [vector'|] eqn:Ek.
  - injection Ev as ->. rewrite Ee. rewrite insert_id by done. by destruct a.
  - destruct (random key) as [vector'| | |] eqn:Er; try done. injection Ev as ->. cbn [map_err]. by rewrite Ee.
Qed.
(** Sealing both secrets, one after the other, in either order. *)
Lemma sealed_vectors_order a :
  withVector (setVectors (withVector a privateKeyKey (privateText a) (a_Vectors a)) a) seedKey (a_Seed a)
    (withVector a privateKeyKey (privateText a) (a_Vectors a)) = sealedVectors a.
Proof.
  unfold sealedVectors. unfold withVector at 1. rewrite vectorOf_stays. unfold withVector.
  destruct (bool_decide (a_Seed a = [])), (bool_decide (privateText a = [])); try done.
  all: destruct (vectorOf a seedKey), (vectorOf a privateKeyKey); try done. by rewrite insert_insert_ne.
Qed.
Lemma sealText_stays a key value vectors key' value' : vectors = withVector a key value (a_Vectors a) ->
  sealText (setVectors vectors a) key' value' = sealText a key' value'.
Proof. intros ->. unfold sealText. by rewrite vectorOf_stays. Qed.
Lemma vectorsOK_stays a key value : vectorsOK a -> vectorsOK (setVectors (withVector a key value (a_Vectors a)) a).
Proof. intros Hv key'. rewrite vectorOf_stays. apply Hv. Qed.

Lemma locked_dict a : accountOK a -> a_Encrypted a = false ->
  accountObject a password (sealText a privateKeyKey (privateText a)) (sealText a seedKey (a_Seed a)) (generatorOf a) true =
  (if bool_decide (password = []) then accountObject a password (sealText a privateKeyKey (privateText a)) (sealText a seedKey (a_Seed a)) (generatorOf a) true
   else dictOf (lockedAccount a)).
Proof.
  intros Ha He. case_bool_decide as Hp; [done|]. unfold dictOf, accountObject. rewrite He. cbn [orb].
  rewrite (bool_decide_eq_false_2 (password = [])) by done. done.
Qed.
(** Writing an account with a password writes what writing it locked does. *)
Lemma toDict_sealed a : accountOK a -> a_Encrypted a = false -> vectorsOK a -> password <> [] ->
  ToDict random password true a = (setVectors (sealedVectors a) a, Ok (dictOf (lockedAccount a))).
Proof.
  intros Ha He Hv Hp. unfold ToDict. change (observes (fun account => account) ≫= ?k) with (fun s : Account => k s s). cbv beta.
  rewrite He, bool_decide_eq_false_2 by done. cbn [negb andb]. unfold encryptText.
  destruct (ok_texts a Ha) as [Hseed _]. pose proof (privateText_valid a Ha) as Hprivate.
  set (a1 := setVectors (withVector a privateKeyKey (privateText a) (a_Vectors a)) a).
  assert ((if bool_decide (privateText a = []) then mret (privateText a) else encryptForSerialization random privateKeyKey password (privateText a)) a =
    (a1, Ok (sealText a privateKeyKey (privateText a)))) as E1.
  { case_bool_decide as Hc; [|by apply encrypt_text]. unfold a1, withVector, sealText. rewrite !(bool_decide_eq_true_2 (privateText a = [])) by done. rewrite Hc. by destruct a. }
  rewrite (bind_Ok _ _ _ _ _ E1).
  assert ((if bool_decide (a_Seed a = []) then mret (a_Seed a) else encryptForSerialization random seedKey password (a_Seed a)) a1 =
    (setVectors (sealedVectors a) a, Ok (sealText a seedKey (a_Seed a)))) as E2.
  { rewrite <- sealed_vectors_order. fold a1. destruct (decide (a_Seed a = [])) as [Hc|Hc].
    - unfold withVector at 1. unfold sealText. rewrite !(bool_decide_eq_true_2 (a_Seed a = [])) by done. by rewrite Hc.
    - rewrite (bool_decide_eq_false_2 (a_Seed a = [])) by done. rewrite encrypt_text by (try done; by apply vectorsOK_stays). unfold a1 at 4. by rewrite (sealText_stays a _ _ _ _ _ eq_refl). }
  rewrite (bind_Ok _ _ _ _ _ E2), (generator_known a Ha). change (answers (Ok ?x) ≫= ?k) with (k x). cbv beta.
  rewrite locked_dict by done. rewrite bool_decide_eq_false_2 by done. exact eq_refl.
Qed.
Lemma encrypt_locks a : accountOK a -> a_Encrypted a = false -> vectorsOK a ->
  EncryptAccount random password a = (lockedAccount a, Ok tt).
Proof.
  intros Ha He Hv. unfold EncryptAccount. change (observes (fun account => account) ≫= ?k) with (fun s : Account => k s s). cbv beta. rewrite He.
  destruct (ok_texts a Ha) as [Hseed _]. pose proof (privateText_valid a Ha) as Hprivate.
  set (vectors := withVector a seedKey (a_Seed a) (a_Vectors a)).
  set (a1 := setSecrets (sealText a seedKey (a_Seed a)) (a_PrivateKeyString a) false (a_PrivateKey a) (setVectors vectors a)).
  assert ((if bool_decide (a_Seed a = []) then (mret tt : Step Account unit) else encoded ← encryptForSerialization random seedKey password (a_Seed a);
    becomes (fun a => setSecrets encoded (a_PrivateKeyString a) (a_Encrypted a) (a_PrivateKey a) a)) a = (a1, Ok tt)) as E1.
  { destruct (decide (a_Seed a = [])) as [Hc|Hc].
    - rewrite bool_decide_eq_true_2 by done. unfold a1, vectors, withVector, sealText. rewrite !(bool_decide_eq_true_2 (a_Seed a = [])) by done.
      destruct a. cbn in *. subst. done.
    - rewrite bool_decide_eq_false_2 by done. rewrite (bind_Ok _ _ _ _ _ (encrypt_text a seedKey (a_Seed a) Hv Hseed Hc)).
      unfold becomes, a1, setSecrets. cbn. by rewrite He. }
  rewrite (bind_Ok _ _ _ _ _ E1). unfold lockedAccount, sealedVectors. fold vectors. unfold privateText in Hprivate |- *.
  assert (forall key, vectorOf a1 key = vectorOf a key) as Hvec by (intros key; apply (vectorOf_stays a seedKey (a_Seed a) key)).
  assert (vectorsOK a1) as Hv1 by (intros key; rewrite Hvec; apply Hv).
  pose proof (ok_secrets a Ha) as Hs. unfold secretsOK in Hs. destruct (a_PrivateKey a) as [key|] eqn:Ek.
  - rewrite He in *. destruct Hs as (_ & Hkey & _). pose proof (extended_nonempty (Private key) Hkey) as Hne.
    assert (withVector a1 privateKeyKey (ExtendedKeyString (Private key)) (a_Vectors a1) = withVector a privateKeyKey (ExtendedKeyString (Private key)) vectors) as Ew.
    { unfold withVector. by rewrite Hvec. }
    assert (sealText a1 privateKeyKey (ExtendedKeyString (Private key)) = sealText a privateKeyKey (ExtendedKeyString (Private key))) as Es.
    { unfold sealText. by rewrite Hvec. }
    rewrite (bind_Ok (encoded ← _; _) _ a1 (setSecrets (a_Seed a1) (sealText a privateKeyKey (ExtendedKeyString (Private key))) false None
      (setVectors (withVector a privateKeyKey (ExtendedKeyString (Private key)) vectors) a1)) tt).
    + unfold becomes. done.
    + rewrite (bind_Ok _ _ _ _ _ (encrypt_text a1 privateKeyKey _ Hv1 Hprivate Hne)). rewrite Ew, Es. done.
  - destruct Hs as [Hs0 Hs1]; [done|]. change (mret tt ≫= ?k) with (k tt). cbv beta. unfold becomes, a1. unfold withVector at 1. unfold sealText at 2.
    rewrite Hs1. rewrite !(bool_decide_eq_true_2 ([] = [])) by done. done.
Qed.
Lemma locked_ok a : accountOK a -> vectorsOK a -> accountOK (lockedAccount a).
Proof.
  intros Ha Hv. destruct (ok_texts a Ha) as [Hseed _]. pose proof (privateText_valid a Ha) as Hprivate.
  split; try exact (ok_public a Ha); try exact (ok_id a Ha); try exact (ok_name a Ha); try exact (ok_managers a Ha); try exact (ok_channels a Ha); [|done].
  split; apply Valid_ascii; by apply seal_text.
Qed.
Lemma decrypt_text a b key value accepts : vectorsOK a -> Valid value = true -> (value <> [] -> accepts value = true) ->
  exists vectors, decryptSecret key password (sealText a key value) accepts b = (setVectors vectors b, Ok (Some value)).
Proof.
  intros Hv Hvalue Ha. unfold decryptSecret. destruct (decide (value = [])) as [->|Hne].
  - unfold sealText. rewrite (bool_decide_eq_true_2 ([] = [])) by done. exists (a_Vectors b). by destruct b.
  - destruct (seal_text a key value Hv Hvalue) as [_ Hs]. destruct (Hs Hne) as (Hn & vector & _ & _ & Ed).
    rewrite bool_decide_eq_false_2 by done. rewrite Ed, Ha, orb_true_r by done. by eexists.
Qed.
Lemma decrypt_unlocks english a b : accountOK a -> a_Encrypted a = false -> vectorsOK a ->
  (a_Seed a <> [] -> isOk (Decode english (a_Seed a)) = true) ->
  a_Seed b = a_Seed (lockedAccount a) -> a_PrivateKeyString b = a_PrivateKeyString (lockedAccount a) -> a_Encrypted b = true -> a_Network b = a_Network a ->
  exists vectors, DecryptAccount english password b = (setSecrets (a_Seed a) [] false (a_PrivateKey a) (setVectors vectors b), Ok true).
Proof.
  intros Ha He Hv Hd Es Et Eb En. unfold DecryptAccount. change (observes (fun account => account) ≫= ?k) with (fun s : Account => k s s). cbv beta.
  rewrite Eb, Es, Et, En. cbn [negb lockedAccount a_Seed a_PrivateKeyString setSecrets].
  destruct (ok_texts a Ha) as [Hseed _]. pose proof (privateText_valid a Ha) as Hprivate.
  destruct (decrypt_text a b seedKey (a_Seed a) (fun phrase => isOk (Decode english phrase)) Hv Hseed Hd) as [v1 E1].
  rewrite (bind_Ok _ _ _ _ _ E1).
  destruct (decrypt_text a (setVectors v1 b) privateKeyKey (privateText a) (fun text => isOk (parsePrivate (a_Network a) text)) Hv Hprivate) as [v2 E2].
  { intros Hne. unfold privateText in *. pose proof (ok_secrets a Ha) as Hs. unfold secretsOK in Hs. destruct (a_PrivateKey a) as [key|].
    - destruct Hs as (_ & Hk & Hp & Hn & _). rewrite He. by rewrite (parse_written_private _ key Hk Hp Hn).
    - destruct Hs as [_ Hs]; [done|]. by rewrite Hs in Hne. }
  rewrite (bind_Ok _ _ _ _ _ E2). exists v2. unfold mbind, step_bind, becomes, mret, step_ret. f_equal.
  assert (match parsePrivate (a_Network a) (privateText a) with Ok key => if bool_decide (privateText a = []) then None else Some key | _ => None end = a_PrivateKey a) as ->; [|done].
  unfold privateText. pose proof (ok_secrets a Ha) as Hs. unfold secretsOK in Hs. destruct (a_PrivateKey a) as [key|].
  - destruct Hs as (_ & Hk & Hp & Hn & _). rewrite He, (parse_written_private _ key Hk Hp Hn).
    by rewrite bool_decide_eq_false_2 by (by apply (extended_nonempty (Private key))).
  - destruct Hs as [_ ->]; [done|]. rewrite bool_decide_eq_true_2 by done. by destruct (parsePrivate _ _).
Qed.
End locking.

(** ** Merging keeps accounts well formed *)

(** What no merge changes. *)
Definition sameSecrets (a b : Account) : Prop :=
  a_Network b = a_Network a /\ a_ID b = a_ID a /\ a_Seed b = a_Seed a /\ a_PrivateKeyString b = a_PrivateKeyString a /\ a_Encrypted b = a_Encrypted a /\
  a_PrivateKey b = a_PrivateKey a /\ a_PublicKey b = a_PublicKey a /\ a_GeneratorName b = a_GeneratorName a /\ a_Vectors b = a_Vectors a.
(** The certificates of the record are there, and the others stay. *)
Definition certificatesMerged (data : Object any) (a b : Account) : Prop :=
  forall key, Get (a_ChannelKeys b) key =
    match Get data (lit "certificates") with
    | Some (AObject certificates) => match Get certificates key with Some value => Some value | None => Get (a_ChannelKeys a) key end
    | _ => Get (a_ChannelKeys a) key
    end.
Lemma setMember_in {A} (members : list (bytes * A)) key value m : m ∈ setMember members key value -> m = (key, value) \/ m ∈ members.
Proof.
  unfold setMember. induction members as [|[k v] members IH]; cbn; [intros ->%list_elem_of_singleton; by left|].
  destruct (decide (key = k)); rewrite elem_of_cons; [intros [->|Hin]; [by left|right; by right]|].
  intros [->|Hin]; [right; by left|]. destruct (IH Hin); [by left|right; by right].
Qed.
Lemma writable_set o key v : writable (AObject o) -> Valid key = true -> writable v -> writable (AObject (Set_ o key v)).
Proof.
  intros Hw Hk Hv. inversion_clear Hw as [| | | | | | | |? Hok Hm]. destruct (Set_members o key v Hok) as [Hok' Em]. constructor; [done|].
  rewrite Em. rewrite Forall_forall in Hm |- *. intros m Hin. apply setMember_in in Hin as [->|Hin]; [done|auto].
Qed.
Lemma mergeCertificates_ok certificates channelKeys : writable (AObject certificates) -> writable (AObject channelKeys) ->
  writable (AObject (mergeCertificates certificates channelKeys)) /\
  forall key, Get (mergeCertificates certificates channelKeys) key =
    match Get certificates key with Some value => Some value | None => Get channelKeys key end.
Proof.
  intros Hc Hk. inversion_clear Hc as [| | | | | | | |? Hok Hm]. unfold mergeCertificates. setoid_rewrite (Get_spec certificates); [|done].
  pose proof (ok_nodup _ Hok) as Hnd. unfold Keys in Hnd. revert channelKeys Hk Hnd. induction Hm as [|[k v] members [Hkey Hv] _ IH]; intros channelKeys Hk Hnd.
  - split; [done|]. intros key. done.
  - cbn [fold_left fst snd]. cbn in Hnd. apply NoDup_cons in Hnd as [Hnew Hnd].
    destruct (IH (Set_ channelKeys k v)) as [Hw Hg]; [by apply writable_set|done|]. split; [done|].
    intros key. rewrite Hg. unfold memberOf at 2. cbn [mapLookup]. rewrite Get_Set_ by (by apply writable_ok). fold (memberOf members key).
    destruct (decide (key = k)) as [->|]; [|done]. unfold memberOf. by rewrite mapLookup_none.
Qed.

(** What holds of the account while its record is being merged. *)
Definition mergedInto (a b : Account) : Prop := accountOK b /\ sameSecrets a b /\ a_ChannelKeys b = a_ChannelKeys a.
Lemma mergedInto_refl a : accountOK a -> mergedInto a a.
Proof. done. Qed.
Lemma profile_ok a b name modifiedOn : mergedInto a b -> Valid name = true -> mergedInto a (setProfile name modifiedOn b).
Proof.
  intros (Hb & Hs & Hc) Hn. split; [|done].
  split; [exact (ok_public b Hb)|exact (ok_id b Hb)|exact Hn|exact (ok_texts b Hb)|exact (ok_secrets b Hb)|exact (ok_managers b Hb)|exact (ok_channels b Hb)].
Qed.
Lemma writable_default d o key : writable d -> writable (AObject o) -> writable (default d (Get o key)).
Proof. intros Hd Ho. destruct (Get o key) eqn:E; [|done]. exact (writable_get _ _ _ Ho E). Qed.
Lemma mergeManager_ok m incoming key number g u : m = MkManager key number g u false -> writable g -> writable u -> writable (AObject incoming) ->
  exists g' u', mergeManager m incoming = MkManager key number g' u' false /\ writable g' /\ writable u'.
Proof.
  intros -> Hg Hu Hi. do 2 eexists. split; [done|]. split; by apply writable_default.
Qed.
Lemma mergeChain_ends a b generator change : mergedInto a b -> writable (AObject generator) ->
  ends (mergeChain generator change) b (fun b' r => mergedInto a b' /\ returns r /\ a_Name b' = a_Name b /\ a_ModifiedOn b' = a_ModifiedOn b).
Proof.
  intros Hm Hg. unfold mergeChain. apply ends_observes. set (chain := lit (if change then _ else _)).
  destruct (Get generator chain) as [v|] eqn:Ev; [|done]. apply (writable_get _ _ _ Hg) in Ev.
  case_bool_decide as Hsingle; [done|]. destruct v as [| | | | | | | |incoming]; try done. unfold ends, becomes. split; [|by destruct change].
  destruct Hm as (Hb & Hs & Hc).
  assert (accountOK (if change then setManagers (a_Receiving b) (mergeManager (a_Change b) incoming) b
    else setManagers (mergeManager (a_Receiving b) incoming) (a_Change b) b)) as Hb'.
  { destruct (ok_managers b Hb) as [(En & k0 & k1 & g & u & g' & u' & E0 & E1 & Er & Ec & Hg0 & Hu0 & Hg1 & Hu1)|[En _]]; [|done].
    destruct (mergeManager_ok _ incoming _ _ _ _ Er Hg0 Hu0 Ev) as (g2 & u2 & Em2 & Hg2 & Hu2).
    destruct (mergeManager_ok _ incoming _ _ _ _ Ec Hg1 Hu1 Ev) as (g3 & u3 & Em3 & Hg3 & Hu3).
    destruct change; (split; [exact (ok_public b Hb)|exact (ok_id b Hb)|exact (ok_name b Hb)|exact (ok_texts b Hb)|exact (ok_secrets b Hb)| |exact (ok_channels b Hb)]); left; (split; [exact En|]).
    - exists k0, k1, g, u, g3, u3. split_and!; done.
    - exists k0, k1, g2, u2, g', u'. split_and!; done. }
  by destruct change.
Qed.
Lemma accountRequired_valid data key text : writable (AObject data) -> accountRequiredString data key = Ok text -> Valid text = true.
Proof.
  intros Hw. unfold accountRequiredString. destruct (Get data key) as [v|] eqn:E; [|done]. apply (writable_get _ _ _ Hw) in E.
  destruct v; try done. intros [= <-]. by inversion E.
Qed.
Lemma required_returns data key : returns (accountRequiredString data key).
Proof. unfold accountRequiredString. by destruct (Get data key) as [[]|]. Qed.
Lemma pythonInt_returns v : returns (accountPythonInt v).
Proof.
  destruct v; try done; cbn.
  - unfold accountPythonIntNumber. repeat case_match; done.
  - unfold accountPythonIntString. repeat case_match; done.
Qed.
Lemma mergeNewer_ends now data a b : mergedInto a b -> writable (AObject data) ->
  ends (mergeNewer now data) b (fun b' r => mergedInto a b' /\ returns r /\
    (r = Ok tt -> accountRequiredString data (lit "name") = Ok (a_Name b') /\
       match Get data (lit "modified_on") with Some value => accountPythonInt value = Ok (a_ModifiedOn b') | None => a_ModifiedOn b' = now end)).
Proof.
  intros Hm Hw. unfold mergeNewer. apply ends_observes.
  pose proof (required_returns data (lit "name")) as Hr. destruct (accountRequiredString data (lit "name")) as [name| | |] eqn:En; try done.
  pose proof (accountRequired_valid _ _ _ Hw En) as Hname. change (answers (Ok ?x) ≫= ?k) with (k x). cbv beta. apply ends_becomes.
  pose proof (profile_ok a b name (a_ModifiedOn b) Hm Hname) as Hm1.
  set (modified := match Get data (lit "modified_on") with Some value => accountPythonInt value | None => Ok now end).
  assert (returns modified) as Hmod by (unfold modified; destruct (Get data _); [apply pythonInt_returns|done]).
  destruct modified as [modifiedOn| | |] eqn:Emod; try done. change (answers (Ok ?x) ≫= ?k) with (k x). cbv beta. apply ends_becomes.
  pose proof (profile_ok a (setProfile name (a_ModifiedOn b) b) name modifiedOn Hm1 Hname) as Hm2.
  destruct (Get data (lit "address_generator")) as [v|] eqn:Eg; [|done]. apply (writable_get _ _ _ Hw) in Eg. destruct v as [| | | | | | | |generator]; try done.
  pose proof (required_returns generator (lit "name")) as Hr'. destruct (accountRequiredString generator (lit "name")) as [generatorName| | |]; try done.
  change (answers (Ok ?x) ≫= ?k) with (k x). cbv beta. case_bool_decide; cbn [negb]; [|done].
  apply ends_bind. eapply ends_weaken; [|by apply mergeChain_ends]. cbn beta. intros b1 [[]|e| |] (Hm3 & Hr1 & En1 & Et1); try done.
  eapply ends_weaken; [|by apply mergeChain_ends]. cbn beta. intros b2 r2 (Hm4 & Hr2 & En2 & Et2). split_and!; [done..|].
  intros _. rewrite En2, En1, Et2, Et1. cbn [a_Name a_ModifiedOn setProfile]. split; [done|]. unfold modified in Emod.
  destruct (Get data (lit "modified_on")); [done|]. by injection Emod.
Qed.
(** When the record of another wallet is newer than the account. *)
Definition isNewer (a : Account) (data : Object any) : res bool :=
  pythonNumberLess (AInt (a_ModifiedOn a)) (default (AInt 0) (Get data (lit "modified_on"))).
Lemma less_returns v w : returns (pythonNumberLess v w).
Proof.
  assert (forall v, returns (pythonComparableNumber v)) as Hr by (intros u; unfold pythonComparableNumber; repeat case_match; done).
  unfold pythonNumberLess. pose proof (Hr v) as Hv. pose proof (Hr w) as Hw.
  destruct (pythonComparableNumber v); try done. by destruct (pythonComparableNumber w).
Qed.
Lemma merge_ends now data a : accountOK a -> writable (AObject data) ->
  ends (MergeAccount now data) a (fun b r => accountOK b /\ sameSecrets a b /\ returns r /\
    (r = Ok tt -> certificatesMerged data a b /\
       match isNewer a data with
       | Ok true => accountRequiredString data (lit "name") = Ok (a_Name b) /\
           match Get data (lit "modified_on") with Some value => accountPythonInt value = Ok (a_ModifiedOn b) | None => a_ModifiedOn b = now end
       | Ok false => a_Name b = a_Name a /\ a_ModifiedOn b = a_ModifiedOn a /\ a_Receiving b = a_Receiving a /\ a_Change b = a_Change a
       | _ => False
       end)).
Proof.
  intros Ha Hw. unfold MergeAccount. apply ends_observes. fold (isNewer a data). pose proof (less_returns (AInt (a_ModifiedOn a)) (default (AInt 0) (Get data (lit "modified_on")))) as Hless.
  fold (isNewer a data) in Hless. destruct (isNewer a data) as [newer| | |]; try done. cbn [map_err]. change (answers (Ok ?x) ≫= ?k) with (k x). cbv beta.
  apply ends_bind. apply (ends_weaken _ _ (fun b r => mergedInto a b /\ returns r /\ (r = Ok tt ->
    if newer then accountRequiredString data (lit "name") = Ok (a_Name b) /\
           match Get data (lit "modified_on") with Some value => accountPythonInt value = Ok (a_ModifiedOn b) | None => a_ModifiedOn b = now end
    else a_Name b = a_Name a /\ a_ModifiedOn b = a_ModifiedOn a /\ a_Receiving b = a_Receiving a /\ a_Change b = a_Change a))).
  - intros b r ((Hb & Hs & Hc) & Hr & Hn). destruct r as [[]|e| |]; try done. specialize (Hn eq_refl).
    destruct (Get data (lit "certificates")) as [v|] eqn:Ev.
    + pose proof (writable_get _ _ _ Hw Ev) as Hv. destruct v as [| | | | | | | |certificates]; try done.
      destruct (mergeCertificates_ok certificates (a_ChannelKeys b) Hv (ok_channels b Hb)) as [Hwk Hg]. unfold ends, becomes.
      split_and!; try done; [split; [exact (ok_public b Hb)|exact (ok_id b Hb)|exact (ok_name b Hb)|exact (ok_texts b Hb)|exact (ok_secrets b Hb)|exact (ok_managers b Hb)|exact Hwk]|].
      intros _. split; [intros key; rewrite Ev; cbn; by rewrite Hg, Hc|]. by destruct newer.
    + unfold ends, mret, step_ret. split_and!; try done. intros _. split; [intros key; by rewrite Ev, Hc|]. by destruct newer.
  - destruct newer; [by apply mergeNewer_ends|]. done.
Qed.

End accounts.

(** ** An example *)

Section example.
#[local] Existing Instance exampleDigests.
#[local] Existing Instance ScalarGroup.secp256k1.
#[local] Existing Instance exampleText.
#[local] Existing Instance examplePbkdf2.

Definition examplePublicKey : PublicKey := publicKey examplePrivateKey.
Definition exampleManager : AddressManager := MkManager examplePublicKey 0 ANil ANil true.
(** An account with a single address and a private key. *)
Definition exampleAccount : Account :=
  MkAccount MainNet (Address examplePublicKey) (lit "savings") [] 1600000000 [] false (Some examplePrivateKey) examplePublicKey
    SingleAddressGenerator exampleManager exampleManager emptyObject ∅.
Lemma emptyObject_writable : writable (AObject emptyObject).
Proof. constructor; [apply empty_ok|constructor]. Qed.
Lemma exampleAccount_ok : accountOK exampleAccount.
Proof.
  split.
  - split; [exact (proj1 examplePrivateKey_valid)|split; exact eq_refl].
  - exact (@eq_refl _ (Address examplePublicKey)).
  - exact eq_refl.
  - split; exact eq_refl.
  - split; [exact eq_refl|]. split; [exact examplePrivateKey_valid|]. split; [exact eq_refl|]. split; [exact eq_refl|].
    split; [exact (@eq_refl _ examplePublicKey)|]. intros Hn. destruct (Hn eq_refl).
  - right. split; [exact eq_refl|]. split; [exact (@eq_refl _ exampleManager)|exact (@eq_refl _ exampleManager)].
  - apply emptyObject_writable.
Qed.
End example.
