(* ===== verification/WalletStorage.v ===== *)
(** * The file of a wallet

    Model of [wallet/storage.go]: a wallet's document in memory or in a file, which
    is written next to its place and then moved there.  The state is the files with
    their modes; a record says which system calls fail, and a crash between two
    calls leaves the files that a failure of the later one does. *)

From S2P Require Import Prelude Steps Utf8 Decimal Bencode Json Float JsonValue PythonInt WalletObject WalletJson.

Definition LatestVersion : Z := 1.
Definition ErrNotExist : string := "file does not exist".
Definition ErrWalletJSONObject : string := "wallet JSON value has no attribute get".

Abbreviation Files := (gmap bytes (Z * bytes)).
(** The system calls of [Write] that fail, with their errors; a failed write may have
    written a part. *)
Record WriteFaults := MkWriteFaults {
  f_open : option string; f_write : option (nat * string); f_sync : option string; f_close : option string; f_stat : option string;
  f_rename : option string; f_remove : option string; f_renameAgain : option string; f_chmod : option string
}.
Definition noFaults : WriteFaults := MkWriteFaults None None None None None None None None None.
Record ReadFaults := MkReadFaults { f_readStat : option string; f_read : option string }.

Record WalletStorage := MkStorage { s_path : option bytes; s_defaults : Object any }.
Definition defaultWalletDocument : Object any :=
  NewObject [(lit "version", AInt LatestVersion); (lit "name", AString (lit "My Wallet")); (lit "preferences", AObject emptyObject);
    (lit "accounts", AArray [])].
Definition newWalletStorage (path : option bytes) (selected : option (Object any)) : WalletStorage :=
  MkStorage path match selected with
                 | Some defaults => if (Len defaults =? 0)%nat then defaultWalletDocument else defaults
                 | None => defaultWalletDocument
                 end.
Definition NewWalletStorage (path : bytes) : option (Object any) -> WalletStorage := newWalletStorage (Some path).
Definition NewMemoryWalletStorage : option (Object any) -> WalletStorage := newWalletStorage None.

Definition pythonVersionEqualsCurrent (value : any) : bool :=
  match value with
  | ABool b => b
  | ANumber text =>
      if isFloatLiteral text then
        match numberParts text, floatOf text with
        | Some _, Some f => negb (f_Negative f) && (let '(n, d) := magnitude f in n =? LatestVersion * d)
        | _, _ => false
        end
      else bool_decide (bigIntString text = Some LatestVersion)
  | AInt n => n =? LatestVersion
  | _ => false
  end.
Definition Upgrade (document : Object any) : Object any := (Delete (ShallowCopy document) (lit "version")).1.
Definition ReadStorage (faults : ReadFaults) (files : Files) (storage : WalletStorage) : res (Object any) :=
  let defaults := Ok (ShallowCopy (s_defaults storage)) in
  match s_path storage with
  | None | Some [] => defaults
  | Some path =>
      match f_readStat faults with
      | Some e => Err e
      | None =>
          match files !! path with
          | None => defaults
          | Some (_, contents) =>
              match f_read faults with
              | Some e => Err e
              | None =>
                  decoded ← decodeOrderedJSON contents;
                  match decoded with
                  | AObject document =>
                      let version := default ANil (Get document (lit "version")) in
                      Ok (if pythonVersionEqualsCurrent version && hasSameKeys document (s_defaults storage) then document
                          else Upgrade document)
                  | _ => Err ErrWalletJSONObject
                  end
              end
          end
      end
  end.

(** ** Writing *)

Definition failing (fault : option string) : Step Files unit := match fault with Some e => fails e | None => mret tt end.
Definition temporaryPath (path : bytes) (pid : Z) : bytes := path ++ lit ".tmp." ++ FormatInt pid.
(** [O_CREATE] and [O_TRUNC]: a file that is there keeps its mode. *)
Definition openTruncated (umask : Z) (path : bytes) (files : Files) : Files :=
  <[path := (match files !! path with Some (mode, _) => mode | None => Z.ldiff 0x1b6 (* 0o666 *) umask end, [])]> files.
Definition appendTo (path data : bytes) (files : Files) : Files :=
  match files !! path with Some (mode, contents) => <[path := (mode, contents ++ data)]> files | None => files end.
Definition rename (from to : bytes) (files : Files) : Files :=
  match files !! from with Some file => <[to := file]> (delete from files) | None => files end.
Definition chmod (path : bytes) (mode : Z) (files : Files) : Files :=
  match files !! path with Some (_, contents) => <[path := (mode, contents)]> files | None => files end.
Definition writeAll (fault : option (nat * string)) (path data : bytes) : Step Files unit :=
  match fault with
  | Some (n, e) => _ ← becomes (appendTo path (take n data)); fails e
  | None => becomes (appendTo path data)
  end.
Definition removeWalletFile (fault : option string) (path : bytes) : Step Files unit :=
  files ← observes (fun files => files);
  match files !! path with
  | None => fails ErrNotExist
  | Some _ => _ ← failing fault; becomes (delete path)
  end.
(** The answer is the text for a storage in memory. *)
Definition WriteStorage (faults : WriteFaults) (umask pid : Z) (storage : WalletStorage) (value : any) : Step Files (option bytes) :=
  encoded ← answers (encodeWalletJSON value);
  match s_path storage with
  | None => mret (Some encoded)
  | Some path =>
      let temporary := temporaryPath path pid in
      _ ← failing (f_open faults);
      _ ← becomes (openTruncated umask temporary);
      _ ← writeAll (f_write faults) temporary encoded;
      _ ← failing (f_sync faults);
      _ ← failing (f_close faults);
      files ← observes (fun files => files);
      _ ← failing (f_stat faults);
      let mode := match files !! path with Some (mode, _) => mode | None => 0x180 (* 0o600 *) end in
      _ ← match f_rename faults with
          | None => becomes (rename temporary path)
          | Some _ =>
              _ ← removeWalletFile (f_remove faults) path;
              _ ← failing (f_renameAgain faults);
              becomes (rename temporary path)
          end;
      _ ← failing (f_chmod faults);
      _ ← becomes (chmod path mode);
      mret None
  end.

(** ** What a write leaves *)

Lemma temporary_ne path pid : temporaryPath path pid <> path.
Proof. unfold temporaryPath. intros E. apply (f_equal length) in E. rewrite length_app in E. cbn in E. lia. Qed.

Lemma ends_failing {A} (fault : option string) (k : unit -> Step Files A) (files : Files) (Q : Files -> res A -> Prop) :
  (forall e, fault = Some e -> Q files (Err e)) -> (fault = None -> ends (k tt) files Q) -> ends (failing fault ≫= k) files Q.
Proof. destruct fault as [e|]; intros H1 H2; [by apply H1|by apply H2]. Qed.

Section write.
Variables (faults : WriteFaults) (umask pid : Z) (storage : WalletStorage) (path : bytes) (value : any) (encoded : bytes) (files : Files).
Hypothesis Hpath : s_path storage = Some path.
Hypothesis Hencoded : encodeWalletJSON value = Ok encoded.

(** The file that is there stays, or the whole new document is at its place, or, when
    moving it over the old file fails and moving it again does, next to it. *)
Definition survives (files' : Files) : Prop :=
  files' !! path = files !! path \/ (exists mode, files' !! path = Some (mode, encoded)) \/
  (f_rename faults <> None /\ f_renameAgain faults <> None /\ files' !! path = None /\
   exists mode, files' !! temporaryPath path pid = Some (mode, encoded)).
Definition othersStay (files' : Files) : Prop :=
  forall other, other <> path -> other <> temporaryPath path pid -> files' !! other = files !! other.

Abbreviation temporary := (temporaryPath path pid).
Lemma path_ne : path <> temporary.
Proof. intros E. by apply (temporary_ne path pid). Qed.
(** While only the temporary file has changed. *)
Lemma temporary_only file : survives (<[temporary := file]> files) /\ othersStay (<[temporary := file]> files).
Proof.
  pose proof path_ne. split; [left; by rewrite lookup_insert_ne|]. intros other _ Hne. by rewrite lookup_insert_ne.
Qed.
Definition openedMode : Z := match files !! temporary with Some (mode, _) => mode | None => Z.ldiff 0x1b6 umask end.
Lemma append_opened data : appendTo temporary data (openTruncated umask temporary files) = <[temporary := (openedMode, data)]> files.
Proof.
  unfold appendTo, openTruncated. fold openedMode. rewrite lookup_insert_eq. apply insert_insert_eq.
Qed.
(** After the document was moved to its place. *)
Lemma moved mode files1 :
  files1 !! temporary = Some (mode, encoded) -> (forall other, other <> path -> other <> temporary -> files1 !! other = files !! other) ->
  let files' := rename temporary path files1 in
  files' !! path = Some (mode, encoded) /\ files' !! temporary = None /\ othersStay files' /\
  forall mode', let files'' := chmod path mode' files' in
    files'' !! path = Some (mode', encoded) /\ files'' !! temporary = None /\ othersStay files''.
Proof.
  intros Et Ho. cbv zeta. pose proof path_ne as Hne. set (files' := rename temporary path files1).
  assert (files' !! path = Some (mode, encoded)) as Ep by (unfold files', rename; by rewrite Et, lookup_insert_eq).
  assert (files' !! temporary = None) as En by (unfold files', rename; rewrite Et, lookup_insert_ne by done; apply lookup_delete_eq).
  assert (othersStay files') as Hs.
  { intros other Hp Htmp. unfold files', rename. rewrite Et, lookup_insert_ne, lookup_delete_ne by done. auto. }
  split_and!; [done..|]. intros mode'. unfold chmod. rewrite Ep. split_and!.
  - by rewrite lookup_insert_eq.
  - by rewrite lookup_insert_ne.
  - intros other Hp Htmp. rewrite lookup_insert_ne by done. by apply Hs.
Qed.

Lemma writeAll_ends fault :
  ends (writeAll fault temporary encoded) (openTruncated umask temporary files) (fun files' r =>
    match r with
    | Ok _ => files' = <[temporary := (openedMode, encoded)]> files
    | Err _ => fault <> None /\ exists file, files' = <[temporary := file]> files
    | _ => False
    end).
Proof. destruct fault as [[n e]|]; cbn -[appendTo openTruncated]; [split; [done|]; eexists|]; by rewrite append_opened. Qed.
(** What the write promises of the files and the answer. *)
Definition promised (mode : Z) (files' : Files) (answer : res (option bytes)) : Prop :=
  survives files' /\ othersStay files' /\
  match answer with
  | Ok text => text = None /\ files' !! temporary = None /\ files' !! path = Some (mode, encoded)
  | Err _ => faults <> noFaults
  | _ => False
  end.
Lemma moving_ends mode files2 :
  files2 !! temporary = Some (openedMode, encoded) -> othersStay files2 ->
  ends (_ ← becomes (rename temporary path); _ ← failing (f_chmod faults); _ ← becomes (chmod path mode); mret None) files2 (promised mode).
Proof.
  intros Et Ho2. destruct (moved openedMode files2 Et Ho2) as (Hp & _ & Ho & Hc). apply ends_becomes.
  apply ends_failing; [intros e Ee; split_and!; [right; left; by eexists|done|intros E; by rewrite E in Ee]|intros _].
  apply ends_becomes. destruct (Hc mode) as (Hp' & Ht' & Ho'). split_and!; try done. right. left. by eexists.
Qed.
End write.

Lemma write_promised faults umask pid storage path value encoded files
    (Hpath : s_path storage = Some path) (Hencoded : encodeWalletJSON value = Ok encoded) :
  ends (WriteStorage faults umask pid storage value) files
    (promised faults pid path encoded files (match files !! path with Some (mode, _) => mode | None => 0x180 (* 0o600 *) end)).
Proof.
  pose proof (path_ne pid path) as Hne. unfold WriteStorage. rewrite Hencoded, Hpath.
  assert (forall field : WriteFaults -> option string, field noFaults = None -> forall e, field faults = Some e -> faults <> noFaults) as Hfault.
  { intros field Hn e E ->. congruence. }
  change (answers (Ok encoded) ≫= ?k) with (k encoded). cbv beta iota zeta.
  apply ends_failing; [intros e Ee; split_and!; [by left|done|by apply (Hfault f_open eq_refl e)]|intros _].
  apply ends_becomes.
  apply ends_bind. eapply ends_weaken; [|apply writeAll_ends]. cbn beta. intros files1 [[]|e| |]; try done.
  2: { intros [Hf [file ->]]. destruct (temporary_only faults pid path encoded files file). split_and!; [done..|]. intros ->. done. }
  intros ->. set (files1 := <[_ := _]> files).
  destruct (temporary_only faults pid path encoded files (openedMode umask pid path files, encoded)) as [Hs1 Ho1]. fold files1 in Hs1, Ho1.
  apply ends_failing; [intros e Ee; split_and!; [done..|by apply (Hfault f_sync eq_refl e)]|intros _].
  apply ends_failing; [intros e Ee; split_and!; [done..|by apply (Hfault f_close eq_refl e)]|intros _].
  apply ends_observes. apply ends_failing; [intros e Ee; split_and!; [done..|by apply (Hfault f_stat eq_refl e)]|intros _].
  assert (files1 !! path = files !! path) as Ep by (unfold files1; by rewrite lookup_insert_ne). rewrite Ep.
  assert (files1 !! temporaryPath path pid = Some (openedMode umask pid path files, encoded)) as Et by apply lookup_insert_eq.
  destruct (f_rename faults) as [e|] eqn:Er; [|by apply (moving_ends faults umask)].
  apply ends_assoc, ends_bind. unfold removeWalletFile. apply ends_observes. rewrite Ep.
  destruct (files !! path) as [[oldMode old]|] eqn:Eold; [|split_and!; [done..|by apply (Hfault f_rename eq_refl e)]].
  apply ends_failing; [intros e' Ee; split_and!; [done..|by apply (Hfault f_remove eq_refl e')]|intros _].
  cbn [ends becomes]. apply ends_assoc, ends_failing.
  - intros e' Ee. split_and!; [|intros other Hp Ht; rewrite lookup_delete_ne by done; by apply Ho1|by apply (Hfault f_rename eq_refl e)].
    right. right. split_and!; [by rewrite Er|by rewrite Ee|apply lookup_delete_eq|]. rewrite lookup_delete_ne by done. by eexists.
  - intros _. apply (moving_ends faults umask); [by rewrite lookup_delete_ne|]. intros other Hp Ht. rewrite lookup_delete_ne by done. by apply Ho1.
Qed.

(** C6: whatever system call of writing a wallet fails, and so wherever the program is
    stopped, the file of the wallet is the old one or the whole new one, unless moving
    the new one over it failed twice, and then the whole new one is next to it; no other
    file changes.  A write that succeeds leaves the new document with the old file's
    mode, or only for its owner, and no temporary file. *)
Theorem wallet_write_safe faults umask pid storage path value encoded files
    (Hpath : s_path storage = Some path) (Hencoded : encodeWalletJSON value = Ok encoded) :
  ends (WriteStorage faults umask pid storage value) files
    (promised faults pid path encoded files (match files !! path with Some (mode, _) => mode | None => 0x180 (* 0o600 *) end)).
Proof. by apply write_promised. Qed.

(** A wallet whose file only its owner and group may read. *)
Definition exampleStorage : WalletStorage := NewWalletStorage (lit "w") None.
Definition exampleFiles : Files := {[lit "w" := (0x1a0, lit "old")]}.
Definition failingRename : WriteFaults := MkWriteFaults None None None None None (Some "rename"%string) None None None.
Lemma wallet_write_safe_witness :
  (exists files', WriteStorage noFaults 0x12 7 exampleStorage ANil exampleFiles = (files', Ok None) /\ files' !! lit "w" = Some (0x1a0, lit "null")) /\
  survives failingRename 7 (lit "w") (lit "null") exampleFiles (WriteStorage failingRename 0x12 7 exampleStorage ANil exampleFiles).1.
Proof.
  assert (exampleFiles !! lit "w" = Some (0x1a0, lit "old")) as Ef by apply lookup_insert_eq. split.
  - pose proof (wallet_write_safe noFaults 0x12 7 exampleStorage (lit "w") ANil (lit "null") exampleFiles eq_refl eq_refl) as Hw. rewrite Ef in Hw.
    unfold ends in Hw. destruct (WriteStorage _ _ _ _ _ _) as [files' answer]. destruct Hw as (_ & _ & Ha).
    destruct answer as [text|e| |]; [|by destruct Ha|destruct Ha|destruct Ha]. destruct Ha as (-> & _ & Ew). by exists files'.
  - pose proof (wallet_write_safe failingRename 0x12 7 exampleStorage (lit "w") ANil (lit "null") exampleFiles eq_refl eq_refl) as Hw.
    unfold ends in Hw. destruct (WriteStorage _ _ _ _ _ _) as [files' answer]. by destruct Hw.
Defined.
