(* ===== verification/WalletFile.v ===== *)
(** * Wallets: saving, loading, locking, unlocking and merging

    Model of [wallet/wallet.go].  The state of a save is the wallet and the files.
    [random i] is what reading a vector for a secret of account [i] answers, [now]
    the clock, [primed i] what priming the channel keys of account [i] answers.  The
    ledgers are the interface [WalletLedgerResolver] on a state of their own. *)

From S2P Require Import Prelude Steps Digest Utf8 Decimal Base58 Keys Bencode Json Float JsonValue PythonInt Normalize Mnemonic WalletObject WalletJson.
From S2P Require Import AccountCrypt Preferences WalletAccount WalletStorage.

Definition EncryptOnDisk : bytes := lit "encrypt-on-disk".
Definition ErrLockedWalletSerialization : string := "cannot serialize a wallet with locked/encrypted accounts".
Definition ErrLockedWalletSync : string := "cannot operate on a locked wallet".
Definition ErrLockedWalletPack : string := "Cannot pack a wallet with locked/encrypted accounts.".
Definition ErrLockedWalletMerge : string := "Cannot sync apply on a locked wallet.".
Definition ErrWalletPasswordUnavailable : string := "wallet encryption password is unavailable".
Definition ErrBlankWalletPassword : string := "cannot encrypt with blank password".
Definition ErrAccountNotFound : string := "Couldn't find account".
Definition ErrWalletName : string := "wallet name has a wrong type, want string".
Definition ErrWalletPreferences : string := "wallet preferences has a wrong type, want object".
Definition ErrWalletAccounts : string := "wallet accounts has a wrong type".

(** [compress/zlib]: what was compressed is decompressed; a value that is no stream is
    an error, of its header or later. *)
Class Zlib := {
  zlibCompress : bytes -> bytes;
  zlibDecompress : bytes -> res bytes;
  zlibHeaderError : string;
  zlib_inverse data : zlibDecompress (zlibCompress data) = Ok data
}.

Section wallets.
Context `{Digests} `{Secp256k1} `{UnicodeText} `{Pbkdf2}.

Record Wallet := MkWallet {
  w_Name : bytes;
  w_Accounts : list Account;
  w_Storage : WalletStorage;
  w_Preferences : TimestampedPreferences;
  w_EncryptionPassword : option bytes;
  w_ID : bytes
}.
Definition setAccounts (accounts : list Account) (w : Wallet) : Wallet :=
  MkWallet (w_Name w) accounts (w_Storage w) (w_Preferences w) (w_EncryptionPassword w) (w_ID w).
Definition setPreferences (preferences : TimestampedPreferences) (w : Wallet) : Wallet :=
  MkWallet (w_Name w) (w_Accounts w) (w_Storage w) preferences (w_EncryptionPassword w) (w_ID w).
Definition setPassword (password : option bytes) (w : Wallet) : Wallet :=
  MkWallet (w_Name w) (w_Accounts w) (w_Storage w) (w_Preferences w) password (w_ID w).

(** ** Construction and accounts *)

(** What follows the last slash. *)
Fixpoint afterSlash (name path : bytes) : bytes :=
  match path with
  | [] => name
  | c :: path => if Byte.eqb c x2f then afterSlash path path else afterSlash name path
  end.
Definition walletID (storage : WalletStorage) (name : bytes) : bytes :=
  match s_path storage with None | Some [] => name | Some path => afterSlash path path end.
Definition newWallet (name : bytes) (accounts : list Account) (storage : WalletStorage) (preferences : Object any) : Wallet :=
  MkWallet name accounts storage (NewTimestampedPreferences preferences) None (walletID storage name).
Definition AddAccount (account : Account) (w : Wallet) : Wallet := setAccounts (w_Accounts w ++ [account]) w.
Definition DefaultAccount (w : Wallet) : option Account := head (w_Accounts w).
Definition findAccount (w : Wallet) (accountID : bytes) : option (nat * Account) := list_find (fun account => a_ID account = accountID) (w_Accounts w).
Definition AccountByID (w : Wallet) (accountID : bytes) : res Account :=
  match findAccount w accountID with Some (_, account) => Ok account | None => Err ErrAccountNotFound end.
Definition AccountOrDefault (w : Wallet) (accountID : option bytes) : res (option Account) :=
  match accountID with None => Ok (DefaultAccount w) | Some accountID => Some <$> AccountByID w accountID end.
Fixpoint eachResult {A B} (f : A -> res B) (l : list A) : res (list B) :=
  match l with [] => Ok [] | x :: l => y ← f x; ys ← eachResult f l; Ok (y :: ys) end.
Definition AccountsOrAll (w : Wallet) (accountIDs : list bytes) : res (list Account) :=
  match accountIDs with [] => Ok (w_Accounts w) | _ => eachResult (AccountByID w) accountIDs end.
Definition IsLocked (w : Wallet) : bool := existsb a_Encrypted (w_Accounts w).
Definition IsEncrypted (w : Wallet) : res bool :=
  if IsLocked w then Ok true
  else
    encryptOnDisk ← GetOr (w_Preferences w) EncryptOnDisk (ABool false);
    Ok (pythonJSONTruthy encryptOnDisk && bool_decide (is_Some (w_EncryptionPassword w))).

(** ** The document of a wallet *)

Definition walletObject (w : Wallet) (accounts : list any) : Object any :=
  NewObject [(lit "version", AInt LatestVersion); (lit "name", AString (w_Name w)); (lit "preferences", AObject (w_Preferences w));
    (lit "accounts", AArray accounts)].
Definition WalletToObject (random : nat -> bytes -> res bytes) (encryptPassword : option bytes) : Step Wallet (Object any) :=
  accounts ← onPart w_Accounts setAccounts (each (fun i => ToDict (random i) (default [] encryptPassword) true));
  w ← observes (fun w => w);
  mret (walletObject w (map AObject accounts)).
Definition ToJSON (random : nat -> bytes -> res bytes) : Step Wallet bytes :=
  w ← observes (fun w => w);
  if IsLocked w then fails ErrLockedWalletSerialization
  else object ← WalletToObject random None; answers (encodePreferenceJSON (AObject object)).

(** The system under a save: the vectors, the failing calls, the process. *)
Record System := MkSystem {
  y_random : nat -> bytes -> res bytes; y_faults : WriteFaults; y_umask : Z; y_pid : Z; y_now : Z
}.
Definition writeObject (system : System) (encryptPassword : option bytes) : Step (Wallet * Files) (option bytes) :=
  object ← onPart fst (fun w s => (w, s.2)) (WalletToObject (y_random system) encryptPassword);
  w ← observes fst;
  onPart snd (fun files s => (s.1, files)) (WriteStorage (y_faults system) (y_umask system) (y_pid system) (w_Storage w) (AObject object)).
Definition changeWallet (f : Wallet -> Wallet) : Step (Wallet * Files) unit := becomes (fun s => (f s.1, s.2)).
Definition setOnDisk (now : Z) (onDisk : bool) (w : Wallet) : Wallet :=
  setPreferences (SetPreference now (w_Preferences w) EncryptOnDisk (ABool onDisk)) w.
Definition Save (system : System) : Step (Wallet * Files) (option bytes) :=
  w ← observes fst;
  encryptOnDisk ← answers (GetOr (w_Preferences w) EncryptOnDisk (ABool false));
  if pythonJSONTruthy encryptOnDisk then
    match w_EncryptionPassword w with
    | Some password => writeObject system (Some password)
    | None =>
        _ ← (if IsLocked w then mret tt else changeWallet (setOnDisk (y_now system) false));
        writeObject system None
    end
  else writeObject system None.

(** ** Encryption *)

Definition EncryptWallet (system : System) (password : bytes) : Step (Wallet * Files) unit :=
  w ← observes fst;
  if IsLocked w then fails ErrLockedWalletSync
  else if bool_decide (password = []) then fails ErrBlankWalletPassword
  else
    _ ← changeWallet (setPassword (Some password));
    _ ← changeWallet (setOnDisk (y_now system) true);
    _ ← Save system;
    mret tt.
Definition DecryptWallet (system : System) : Step (Wallet * Files) unit :=
  w ← observes fst;
  if IsLocked w then fails ErrLockedWalletSync
  else
    _ ← changeWallet (setOnDisk (y_now system) false);
    _ ← Save system;
    mret tt.
Definition lockAccount (random : bytes -> res bytes) (password : bytes) : Step Account unit :=
  account ← observes (fun account => account);
  if a_Encrypted account then mret tt else EncryptAccount random password.
Definition Lock (random : nat -> bytes -> res bytes) : Step Wallet unit :=
  w ← observes (fun w => w);
  match w_EncryptionPassword w with
  | None => fails ErrWalletPasswordUnavailable
  | Some password => _ ← onPart w_Accounts setAccounts (each (fun i => lockAccount (random i) password)); mret tt
  end.
(** The accounts one by one: false where the password does not open one. *)
Fixpoint unlockFrom (english : Mnemonic) (primed : nat -> res unit) (password : bytes) (position : nat) (accounts : list Account)
  : list Account * res bool :=
  match accounts with
  | [] => ([], Ok true)
  | account :: rest =>
      let '(account, answer) :=
        (if a_Encrypted account then
           match DecryptAccount english password account with
           | (account, Ok true) => (account, (_ ← primed position; Ok true))
           | ended => ended
           end
         else (account, Ok true)) in
      match answer with
      | Ok true => let '(rest, answer) := unlockFrom english primed password (S position) rest in (account :: rest, answer)
      | _ => (account :: rest, answer)
      end
  end.
Definition Unlock (english : Mnemonic) (primed : nat -> res unit) (password : bytes) : Step Wallet bool :=
  unlocked ← onPart w_Accounts setAccounts (unlockFrom english primed password 0);
  if unlocked : bool then _ ← becomes (setPassword (Some password)); mret true else mret false.

(** ** Hashing *)

Definition idLe (a b : Account) : Prop := bytesLe (a_ID a) (a_ID b).
#[local] Instance idLe_dec a b : Decision (idLe a b) := bytesLe_dec (a_ID a) (a_ID b).
Definition HashWallet (w : Wallet) : res bytes :=
  encrypted ← IsEncrypted w;
  password ← (if encrypted : bool then
                match w_EncryptionPassword w with Some password => Ok password | None => Err ErrWalletPasswordUnavailable end
              else Ok []);
  preferences ← HashPreferences (w_Preferences w);
  hashes ← eachResult (fun account => (HashAccount (fun _ => Ok []) account).2) (merge_sort idLe (w_Accounts w));
  Ok (sha256 (password ++ preferences ++ concat hashes)).

(** ** Loading *)

Record WalletLedgerResolver (L : Type) := MkResolver {
  NetworkForLedger : bytes -> res Network;
  RegisterAccount : bytes -> Account -> Step L unit
}.
#[global] Arguments NetworkForLedger {L}.
#[global] Arguments RegisterAccount {L}.
Definition recordOf (value : any) : res (Object any) := match value with AObject record => Ok record | _ => Err ErrWalletAccounts end.
Definition walletAccountRecords (value : any) : res (list (Object any)) :=
  match value with AArray values => eachResult recordOf values | _ => Err ErrWalletAccounts end.
Fixpoint loadAccounts {L : Type} (now : Z) (resolver : WalletLedgerResolver L) (records : list (Object any)) (w : Wallet) : Step L Wallet :=
  match records with
  | [] => mret w
  | record :: records =>
      ledgerID ← answers (accountRequiredString record (lit "ledger"));
      network ← answers (NetworkForLedger resolver ledgerID);
      account ← answers (NewAccount now network record);
      _ ← RegisterAccount resolver ledgerID account;
      loadAccounts now resolver records (AddAccount account w)
  end.
(** [name] is the name of a wallet whose document has none. *)
Definition WalletFromStorage {L : Type} (now : Z) (faults : ReadFaults) (files : Files) (name : bytes) (storage : WalletStorage)
    (resolver : WalletLedgerResolver L) : Step L Wallet :=
  document ← answers (ReadStorage faults files storage);
  name ← answers (match Get document (lit "name") with None => Ok name | Some (AString name) => Ok name | Some _ => Err ErrWalletName end);
  preferences ← answers (match Get document (lit "preferences") with
                         | None => Ok emptyObject
                         | Some value =>
                             if pythonJSONTruthy value then match value with AObject preferences => Ok preferences | _ => Err ErrWalletPreferences end
                             else Ok emptyObject
                         end);
  let w := newWallet name [] storage preferences in
  match Get document (lit "accounts") with
  | None => mret w
  | Some value => records ← answers (walletAccountRecords value); loadAccounts now resolver records w
  end.

(** ** Synchronization *)

Section synchronization.
Context `{Scrypt} `{Zlib}.

Definition Pack (random : nat -> bytes -> res bytes) (entropy : res bytes) (password : bytes) : Step Wallet bytes :=
  w ← observes (fun w => w);
  if IsLocked w then fails ErrLockedWalletPack
  else serialized ← ToJSON random; answers (betterAESEncrypt password (zlibCompress serialized) entropy).
Definition UnpackWallet (password encrypted : bytes) : res any :=
  decrypted ← BetterAESDecrypt password encrypted;
  serialized ← map_err (fun e => if String.eqb e zlibHeaderError then ErrInvalidWalletPassword else e) (zlibDecompress decrypted);
  decodeOrderedJSON serialized.
Definition isASCII (value : bytes) : bool := forallb (fun c => Zb c <? 0x80) value.
Definition updateAt {A} (i : nat) (m : Step Account A) : Step (list Account) A := fun accounts =>
  match accounts !! i with
  | Some account => let '(account, r) := m account in (<[i := account]> accounts, r)
  | None => (accounts, Panic)
  end.
(** The record of an account: merged with the account at a position, or added. *)
Inductive mergedRecord := Merged (position : nat) | Added (position : nat).
Definition mergeRecord {L : Type} (now : Z) (resolver : WalletLedgerResolver L) (record : Object any) : Step (Wallet * L) mergedRecord :=
  ledgerID ← answers (accountRequiredString record (lit "ledger"));
  network ← answers (NetworkForLedger resolver ledgerID);
  accountID ← answers (accountIDFromObject network record);
  w ← observes fst;
  match findAccount w accountID with
  | Some (i, _) =>
      _ ← onPart fst (fun w s => (w, s.2)) (onPart w_Accounts setAccounts (updateAt i (MergeAccount now record)));
      mret (Merged i)
  | None =>
      account ← answers (NewAccount now network record);
      _ ← onPart snd (fun ledgers s => (s.1, ledgers)) (RegisterAccount resolver ledgerID account);
      _ ← becomes (fun s => (AddAccount account s.1, s.2));
      mret (Added (length (w_Accounts w)))
  end.
Fixpoint mergeRecords {L : Type} (now : Z) (resolver : WalletLedgerResolver L) (values : list any) : Step (Wallet * L) (list mergedRecord) :=
  match values with
  | [] => mret []
  | value :: values =>
      record ← answers (recordOf value);
      one ← mergeRecord now resolver record;
      others ← mergeRecords now resolver values;
      mret (one :: others)
  end.
(** [password] is [None] for clear JSON. *)
Definition synchronizedData (password : option bytes) (data : bytes) : res any :=
  match password with
  | None => decodeOrderedJSON data
  | Some password => if negb (isASCII data) then Err ErrInvalidSyncEnvelope else UnpackWallet password data
  end.
Definition remotePreferences (document : Object any) : res (Object any) :=
  match Get document (lit "preferences") with
  | None => Ok emptyObject
  | Some (AObject preferences) => Ok preferences
  | Some _ => Err ErrWalletPreferences
  end.
Definition MergeWallet {L : Type} (now : Z) (resolver : WalletLedgerResolver L) (password : option bytes) (data : bytes) :
    Step (Wallet * L) (list mergedRecord) :=
  w ← observes fst;
  if IsLocked w then fails ErrLockedWalletMerge
  else
    decoded ← answers (synchronizedData password data);
    match decoded with
    | AObject document =>
        remote ← answers (remotePreferences document);
        _ ← onPart (fun s => w_Preferences s.1) (fun p s => (setPreferences p s.1, s.2)) (fun preferences => MergePreferences preferences remote);
        match Get document (lit "accounts") with
        | Some (AArray values) => mergeRecords now resolver values
        | Some (AObject (MkObject [] _)) | Some (AString []) => mret []
        | _ => fails ErrWalletAccounts
        end
    | _ => fails ErrWalletAccounts
    end.
End synchronization.
End wallets.
