(* ===== verification/WalletSafety.v ===== *)
(** * A wallet survives its file and its lock

    What is saved of a wallet is loaded again, and a wallet that is encrypted on disk
    is unlocked by its password to the secrets it had; locking takes the private keys
    out of memory and unlocking brings them back. *)

From S2P Require Import Prelude Steps Digest Utf8 Decimal Base58 Keys Bencode Json Float JsonValue PythonInt Normalize Mnemonic WalletObject WalletJson.
From S2P Require Import WalletDocument AccountCrypt Preferences WalletAccount AccountFile WalletStorage WalletFile.

Section wallets.
Context `{Digests} `{Secp256k1} `{UnicodeText} `{Pbkdf2}.

(** The encoder of wallet files sorts the members and indents. *)
Abbreviation fileEncoder := (MkEncoder true true).

(** ** Well-formed wallets *)

Record walletOK (w : Wallet) : Prop := {
  wok_accounts : Forall (fun a => accountOK a /\ a_Name a <> []) (w_Accounts w);
  wok_name : Valid (w_Name w) = true;
  wok_preferences : writable (AObject (w_Preferences w))
}.
(** The ledgers know the networks and take every account. *)
Definition resolves {L : Type} (resolver : WalletLedgerResolver L) : Prop :=
  (forall n, 0 <= n < 3 -> NetworkForLedger resolver (lit (NetworkID n)) = Ok n) /\
  forall id a ledgers, exists ledgers', RegisterAccount resolver id a ledgers = (ledgers', Ok tt).

(** ** The document *)

Lemma walletObject_members w accounts : o_members (walletObject w accounts) =
  [(lit "version", AInt LatestVersion); (lit "name", AString (w_Name w)); (lit "preferences", AObject (w_Preferences w)); (lit "accounts", AArray accounts)].
Proof.
  apply NewObject_members. apply (bool_decide_eq_true_1 (NoDup [lit "version"; lit "name"; lit "preferences"; lit "accounts"])). vm_compute. reflexivity.
Qed.
Definition writtenObject (w : Wallet) (saved : list Account) : Object any := walletObject w (map AObject (map dictOf saved)).
Lemma writtenObject_members w saved : o_members (writtenObject w saved) =
  [(lit "version", AInt LatestVersion); (lit "name", AString (w_Name w)); (lit "preferences", AObject (w_Preferences w));
   (lit "accounts", AArray (map AObject (map dictOf saved)))].
Proof. apply walletObject_members. Qed.
Lemma written_writable w saved : Valid (w_Name w) = true -> writable (AObject (w_Preferences w)) -> Forall accountOK saved ->
  writable (AObject (writtenObject w saved)).
Proof.
  intros Hn Hp Hs. constructor; [apply NewObject_ok|]. rewrite writtenObject_members.
  repeat (constructor; [split; [reflexivity|]|]); [constructor|by apply writable_string|exact Hp| |constructor].
  apply writable_array. rewrite map_map. apply Forall_map. eapply Forall_impl; [exact Hs|]. intros a Ha. by apply dict_writable.
Qed.
Lemma Get_written encoder w saved key :
  Get (readObject encoder (writtenObject w saved)) key = readAs encoder <$> memberOf (o_members (writtenObject w saved)) key.
Proof. rewrite Get_readObject, Get_spec by apply NewObject_ok. done. Qed.
Lemma default_keys w saved encoder : hasSameKeys (readObject encoder (writtenObject w saved)) defaultWalletDocument = true.
Proof.
  apply hasSameKeys_spec; [apply NewObject_ok..|]. rewrite Keys_readObject by apply NewObject_ok. unfold Keys at 1. by rewrite writtenObject_members.
Qed.

(** ** Loading what was written *)

Lemma preferences_read encoder preferences : writable (AObject preferences) ->
  NewTimestampedPreferences (if pythonJSONTruthy (AObject (readObject encoder preferences)) then readObject encoder preferences else emptyObject) =
  readObject encoder preferences.
Proof.
  intros Hw. pose proof (writable_ok _ Hw) as Hok. unfold NewTimestampedPreferences, ShallowCopy.
  assert (forall o : Object any, objectOK o -> NewObject (o_members o) = o) as Hcopy.
  { intros o Ho. apply index_unique; [apply NewObject_ok|done|]. apply NewObject_members. by apply ok_nodup. }
  cbn [pythonJSONTruthy]. rewrite Len_readObject by done. destruct (Nat.eqb_spec (Len preferences) 0) as [E|]; cbn [negb].
  - unfold Len in E. apply nil_length_inv in E. unfold readObject. rewrite E. cbn [map]. unfold inOrder. by destruct (sortKeys encoder).
  - apply Hcopy, NewObject_ok.
Qed.
Lemma records_read encoder saved : walletAccountRecords (AArray (map (readAs encoder) (map AObject (map dictOf saved)))) =
  Ok (map (fun a => readObject encoder (dictOf a)) saved).
Proof.
  cbn [walletAccountRecords]. induction saved as [|a saved IH]; [done|]. cbn [map eachResult]. rewrite readAs_object. cbn [recordOf mbind res_bind].
  by rewrite IH.
Qed.
Lemma loadAccounts_read {L : Type} now (resolver : WalletLedgerResolver L) encoder saved w ledgers :
  resolves resolver -> Forall (fun a => accountOK a /\ a_Name a <> []) saved ->
  exists ledgers', loadAccounts now resolver (map (fun a => readObject encoder (dictOf a)) saved) w ledgers =
    (ledgers', Ok (setAccounts (w_Accounts w ++ map (readAccount encoder) saved) w)).
Proof.
  intros [Hnet Hreg] Hs. revert w ledgers. induction Hs as [|a saved [Ha Hname] _ IH]; intros w ledgers.
  - exists ledgers. cbn. rewrite app_nil_r. by destruct w.
  - cbn [map loadAccounts]. unfold accountRequiredString at 1. rewrite Get_dict.
    change (memberOf (dictMembers a) (lit "ledger")) with (Some (AString (lit (NetworkID (a_Network a))))). cbn [fmap option_fmap option_map readAs].
    change (answers (Ok ?x) ≫= ?k) with (k x). cbv beta. rewrite (Hnet _ (network_range a Ha)). change (answers (Ok ?x) ≫= ?k) with (k x). cbv beta.
    rewrite (read_account encoder now a Ha Hname). change (answers (Ok ?x) ≫= ?k) with (k x). cbv beta.
    destruct (Hreg (lit (NetworkID (a_Network a))) (readAccount encoder a) ledgers) as [ledgers1 E1]. rewrite (bind_Ok _ _ _ _ _ E1).
    destruct (IH (AddAccount (readAccount encoder a) w) ledgers1) as [ledgers2 E2]. exists ledgers2. rewrite E2. cbn. by rewrite <- app_assoc.
Qed.
(** The wallet that is loaded from a file with the accounts [saved]. *)
Definition loadedWallet (w : Wallet) (saved : list Account) : Wallet :=
  MkWallet (w_Name w) (map (readAccount fileEncoder) saved) (w_Storage w) (readObject fileEncoder (w_Preferences w)) None
    (walletID (w_Storage w) (w_Name w)).
Definition noReadFaults : ReadFaults := MkReadFaults None None.
Lemma load_written {L : Type} now (resolver : WalletLedgerResolver L) path w saved files mode name ledgers text :
  resolves resolver -> walletOK w -> Forall (fun a => accountOK a /\ a_Name a <> []) saved ->
  s_path (w_Storage w) = Some path -> path <> [] -> s_defaults (w_Storage w) = defaultWalletDocument ->
  encodeWalletJSON (AObject (writtenObject w saved)) = Ok text -> files !! path = Some (mode, text) ->
  exists ledgers', WalletFromStorage now noReadFaults files name (w_Storage w) resolver ledgers = (ledgers', Ok (loadedWallet w saved)).
Proof.
  intros Hr [_ Hname Hprefs] Hs Hpath Hne Hdef Et Ef.
  assert (Forall accountOK saved) as Hs' by (eapply Forall_impl; [exact Hs|]; by intros ? [? _]).
  destruct (decode_write fileEncoder _ (written_writable w saved Hname Hprefs Hs')) as (text' & Ew & Ed).
  assert (text' = text) as -> by (unfold encodeWalletJSON in Et; congruence). rewrite readAs_object in Ed.
  unfold WalletFromStorage.
  assert (ReadStorage noReadFaults files (w_Storage w) = Ok (readObject fileEncoder (writtenObject w saved))) as ->.
  { unfold ReadStorage. rewrite Hpath. destruct path as [|c path]; [done|]. cbn [f_readStat noReadFaults f_read]. rewrite Ef, Ed. cbn [mbind res_bind].
    rewrite Get_written, writtenObject_members. rewrite Hdef, default_keys. done. }
  change (answers (Ok ?x) ≫= ?k) with (k x). cbv beta. rewrite !Get_written, writtenObject_members.
  change (memberOf _ (lit "name")) with (Some (AString (w_Name w))). change (memberOf _ (lit "preferences")) with (Some (AObject (w_Preferences w))).
  change (memberOf _ (lit "accounts")) with (Some (AArray (map AObject (map dictOf saved)))). cbn [fmap option_fmap option_map].
  change (answers (Ok ?x) ≫= ?k) with (k x). cbv beta. rewrite readAs_object. change (readAs fileEncoder (AString ?s)) with (AString s). cbv iota.
  change (answers (Ok ?x) ≫= ?k) with (k x). cbv beta.
  set (truthy := pythonJSONTruthy _). assert (forall p : Object any, (if truthy then Ok p else Ok emptyObject) = Ok (if truthy then p else emptyObject)) as -> by (by destruct truthy).
  change (answers (Ok ?x) ≫= ?k) with (k x). cbv beta. change (readAs fileEncoder (AArray ?l)) with (AArray (map (readAs fileEncoder) l)).
  rewrite records_read. change (answers (Ok ?x) ≫= ?k) with (k x). cbv beta.
  destruct (loadAccounts_read now resolver fileEncoder saved (newWallet (w_Name w) [] (w_Storage w) (if truthy then readObject fileEncoder (w_Preferences w) else emptyObject)) ledgers Hr Hs)
    as [ledgers' E]. exists ledgers'. rewrite E. unfold truthy. unfold newWallet, loadedWallet, setAccounts.
  cbn [w_Name w_Accounts w_Storage w_Preferences w_EncryptionPassword w_ID app]. by rewrite preferences_read.
Qed.

(** ** Saving *)

Definition quiet (system : System) : Prop := y_faults system = noFaults.
(** An account as it is saved: with its secrets encrypted when there is a password. *)
Definition savedAccount (random : bytes -> res bytes) (password : option bytes) (a : Account) : Account :=
  match password with
  | Some password => if a_Encrypted a then a else lockedAccount random password a
  | None => a
  end.
Definition afterSave (random : bytes -> res bytes) (password : option bytes) (a : Account) : Account :=
  match password with
  | Some _ => if a_Encrypted a then a else setVectors (sealedVectors random a) a
  | None => a
  end.
Definition canEncrypt (random : bytes -> res bytes) (password : option bytes) (a : Account) : Prop :=
  match password with
  | Some password => a_Encrypted a = false -> password <> [] /\ Valid password = true /\ vectorsOK random a
  | None => True
  end.
Lemma toDict_saved random password a : accountOK a -> canEncrypt random password a ->
  ToDict random (default [] password) true a =
  (afterSave random password a, Ok (match password with
                                    | Some p => if a_Encrypted a then accountObject a p (privateText a) (a_Seed a) (generatorOf a) true else dictOf (lockedAccount random p a)
                                    | None => dictOf a
                                    end)).
Proof.
  intros Ha Hc. destruct password as [password|]; [|by apply toDict_clear]. cbn [default savedAccount afterSave canEncrypt] in *.
  destruct (a_Encrypted a) eqn:He.
  - unfold ToDict. change (observes (fun account => account) ≫= ?k) with (fun s : Account => k s s). cbv beta. rewrite He. cbn [negb andb].
    change (mret ?x ≫= ?k) with (k x). cbv beta. rewrite (generator_known a Ha). change (answers (Ok ?x) ≫= ?k) with (k x). cbv beta. exact eq_refl.
  - destruct Hc as (Hne & Hp & Hv); [done|]. by apply toDict_sealed.
Qed.
Lemma locked_object a password : a_Encrypted a = true -> accountObject a password (privateText a) (a_Seed a) (generatorOf a) true = dictOf a.
Proof. intros He. unfold dictOf, accountObject. by rewrite He. Qed.

Section saving.
Variables (system : System) (password : option bytes).
Definition saved (w : Wallet) : list Account := imap (fun i => savedAccount (y_random system i) password) (w_Accounts w).
Definition wAfterSave (w : Wallet) : Wallet := setAccounts (imap (fun i => afterSave (y_random system i) password) (w_Accounts w)) w.
Definition encryptable (w : Wallet) : Prop := forall i a, w_Accounts w !! i = Some a -> canEncrypt (y_random system i) password a.

Lemma walletObject_after w accounts : walletObject (wAfterSave w) accounts = walletObject w accounts.
Proof. unfold walletObject. cbn [wAfterSave setAccounts w_Name w_Preferences]. exact eq_refl. Qed.
Lemma toObject_saved w : walletOK w -> encryptable w ->
  WalletToObject (y_random system) password w = (wAfterSave w, Ok (writtenObject w (saved w))).
Proof.
  intros Hw He. unfold WalletToObject.
  assert (each (fun i => ToDict (y_random system i) (default [] password) true) (w_Accounts w) =
    (imap (fun i => afterSave (y_random system i) password) (w_Accounts w), Ok (map dictOf (saved w)))) as E.
  { unfold saved. change (map dictOf ?l) with (dictOf <$> l). rewrite fmap_imap.
    apply (each_all _ (fun i => afterSave (y_random system i) password) (fun i a => dictOf (savedAccount (y_random system i) password a))).
    intros i a Hi. pose proof (wok_accounts w Hw) as Ha. rewrite Forall_lookup in Ha. destruct (Ha i a Hi) as [Hok _].
    rewrite toDict_saved by (done || by apply (He i a)). unfold savedAccount, afterSave. destruct password as [p|]; [|done].
    destruct (a_Encrypted a) eqn:Hen; [|done]. by rewrite locked_object. }
  rewrite (bind_Ok _ _ _ (wAfterSave w) (map dictOf (saved w))).
  - change (observes (fun w => w) ≫= ?k) with (fun s : Wallet => k s s). cbv beta. unfold mret, step_ret, writtenObject. by rewrite walletObject_after.
  - unfold onPart. rewrite E. exact eq_refl.
Qed.
Lemma saved_ok w : walletOK w -> encryptable w -> Forall (fun a => accountOK a /\ a_Name a <> []) (saved w).
Proof.
  intros Hw He. apply Forall_lookup. intros i a Hi. unfold saved in Hi. rewrite list_lookup_imap in Hi.
  apply fmap_Some in Hi as (b & Hb & ->). pose proof (wok_accounts w Hw) as Ha. rewrite Forall_lookup in Ha. destruct (Ha i b Hb) as [Hok Hname].
  specialize (He i b Hb). unfold savedAccount, canEncrypt in *. destruct password as [p|]; [|done]. destruct (a_Encrypted b) eqn:Hen; [done|].
  destruct (He eq_refl) as (_ & Hp & Hv). split; [by apply locked_ok|done].
Qed.
(** Writing the wallet puts its document into its file. *)
Lemma writeObject_saved w files path : quiet system -> walletOK w -> encryptable w -> s_path (w_Storage w) = Some path ->
  exists files' mode text, writeObject system password (w, files) = ((wAfterSave w, files'), Ok None) /\
    encodeWalletJSON (AObject (writtenObject w (saved w))) = Ok text /\ files' !! path = Some (mode, text).
Proof.
  intros Hq Hw He Hpath. pose proof (saved_ok w Hw He) as Hs. assert (Forall accountOK (saved w)) as Hs' by (eapply Forall_impl; [exact Hs|]; by intros ? [? _]).
  destruct (decode_write fileEncoder _ (written_writable w (saved w) (wok_name w Hw) (wok_preferences w Hw) Hs')) as (text & Et & _).
  change (writeValue fileEncoder ?v 0) with (encodeWalletJSON v) in Et.
  pose proof (write_promised (y_faults system) (y_umask system) (y_pid system) (w_Storage w) path _ text files Hpath Et) as Hwrite.
  unfold writeObject. rewrite (bind_Ok _ _ _ (wAfterSave w, files) (writtenObject w (saved w))) by (unfold onPart; cbn [fst snd]; by rewrite toObject_saved).
  change (observes fst ≫= ?k) with (fun s : Wallet * Files => k s.1 s). cbv beta. unfold onPart. cbn [fst snd]. unfold ends in Hwrite. rewrite Hq in *.
  change (w_Storage (wAfterSave w)) with (w_Storage w).
  destruct (WriteStorage _ _ _ _ _ files) as [files' answer]. destruct Hwrite as (_ & _ & Hanswer).
  destruct answer as [answer|e| |]; try done. destruct Hanswer as (-> & _ & Ef). by exists files', (match files !! path with Some (mode, _) => mode | None => 0x180 end), text.
Qed.
End saving.

(** ** Unlocking *)

(** An account with the keys and the description of another, unlocked. *)
Definition sameKeys (a b : Account) : Prop :=
  a_Network b = a_Network a /\ a_ID b = a_ID a /\ a_Name b = a_Name a /\ a_Seed b = a_Seed a /\ a_ModifiedOn b = a_ModifiedOn a /\
  a_PrivateKey b = a_PrivateKey a /\ a_PublicKey b = a_PublicKey a /\ a_GeneratorName b = a_GeneratorName a /\ a_Encrypted b = false.
(** An account without a secret in the clear: no private key, and the texts of its
    secrets are empty or encrypted with the password. *)
Definition sealedAs (random : bytes -> res bytes) (password : bytes) (a b : Account) : Prop :=
  a_Encrypted b = true /\ a_PrivateKey b = None /\
  a_Seed b = sealText random password a seedKey (a_Seed a) /\ a_PrivateKeyString b = sealText random password a privateKeyKey (privateText a) /\
  a_Network b = a_Network a /\ a_ID b = a_ID a /\ a_Name b = a_Name a /\ a_ModifiedOn b = a_ModifiedOn a /\ a_PublicKey b = a_PublicKey a /\
  a_GeneratorName b = a_GeneratorName a.
(** What is needed to encrypt the secrets of an account and to decrypt them again. *)
Definition lockable (english : Mnemonic) (random : bytes -> res bytes) (a : Account) : Prop :=
  accountOK a /\ a_Encrypted a = false /\ vectorsOK random a /\ (a_Seed a <> [] -> isOk (Decode english (a_Seed a)) = true).

Lemma unlock_account english random password a b : Valid password = true -> lockable english random a -> sealedAs random password a b ->
  exists b', DecryptAccount english password b = (b', Ok true) /\ sameKeys a b'.
Proof.
  intros Hp (Ha & He & Hv & Hd) (Eb & Ek & Es & Et & En & Hid & Hname & Ht & Hpub & Hgen).
  destruct (decrypt_unlocks random password Hp english a b Ha He Hv Hd Es Et Eb En) as [vectors E].
  eexists. split; [exact E|]. by split_and!.
Qed.
Lemma unlock_all english primed password (random : nat -> bytes -> res bytes) position accounts sealed :
  Valid password = true -> (forall i, primed i = Ok tt) ->
  (forall i a, accounts !! i = Some a -> lockable english (random (position + i)%nat) a) ->
  length sealed = length accounts ->
  (forall i a b, accounts !! i = Some a -> sealed !! i = Some b -> sealedAs (random (position + i)%nat) password a b) ->
  exists opened, unlockFrom english primed password position sealed = (opened, Ok true) /\ Forall2 sameKeys accounts opened.
Proof.
  intros Hp Hprimed. revert position accounts. induction sealed as [|b sealed IH]; intros position [|a accounts] Hl Hlen Hs; try done.
  { by exists []. }
  pose proof (Hs 0%nat a b eq_refl eq_refl) as H0'. pose proof (Hl 0%nat a eq_refl) as Hl0. rewrite Nat.add_0_r in H0', Hl0.
  destruct (unlock_account english _ password a b Hp Hl0 H0') as (b' & Eb & Hb). cbn [unlockFrom]. destruct H0' as [He _]. rewrite He, Eb, Hprimed.
  cbn [mbind res_bind]. destruct (IH (S position) accounts) as (opened & Eo & Ho).
  - intros i x Hi. specialize (Hl (S i) x Hi). by rewrite Nat.add_succ_r in Hl.
  - by injection Hlen.
  - intros i x y Hx Hy. specialize (Hs (S i) x y Hx Hy). by rewrite Nat.add_succ_r in Hs.
  - rewrite Eo. exists (b' :: opened). split; [done|]. by constructor.
Qed.
Lemma locked_sealed random password a : sealedAs random password a (lockedAccount random password a).
Proof. by split_and!. Qed.
Lemma read_sealed encoder random password a b : sealedAs random password a b -> sealedAs random password a (readAccount encoder b).
Proof.
  intros (Eb & Ek & Es & Et & Hrest). split_and!; try done; try apply Hrest.
  cbn [a_PrivateKeyString readAccount]. unfold privateText. by rewrite Ek.
Qed.
(** An attempt with any password leaves each account as it was, but for the vectors, or
    unlocked. *)
Definition untouchedOrOpen (a b : Account) : Prop := b = setVectors (a_Vectors b) a \/ a_Encrypted b = false.
Lemma decrypt_attempt english password a : a_Encrypted a = true ->
  let '(b, answer) := DecryptAccount english password a in
  (b = setVectors (a_Vectors b) a /\ answer <> Ok true) \/ (a_Encrypted b = false /\ answer = Ok true).
Proof.
  intros He.
  assert (forall key accepts encoded c, c = setVectors (a_Vectors c) a -> let '(b, r) := decryptSecret key password encoded accepts c in b = setVectors (a_Vectors b) a) as Hsecret.
  { intros key accepts encoded c Hc. unfold decryptSecret. case_bool_decide; [done|].
    destruct (DecryptAccountSecret password encoded) as [[plaintext vector]|e| |]; [|done..].
    unfold mbind, step_bind, becomes, mret, step_ret. rewrite Hc. done. }
  unfold DecryptAccount. change (observes (fun account => account) ≫= ?k) with (fun s : Account => k s s). cbv beta. rewrite He. cbn [negb].
  unfold mbind at 1, step_bind at 1. pose proof (Hsecret seedKey (fun phrase => isOk (Decode english phrase)) (a_Seed a) a ltac:(by destruct a)) as H1'.
  destruct (decryptSecret seedKey password (a_Seed a) _ a) as [b1 [[seed|]|e| |]]; [|by left..].
  unfold mbind at 1, step_bind at 1. pose proof (Hsecret privateKeyKey (fun text => isOk (parsePrivate (a_Network a) text)) (a_PrivateKeyString a) b1 H1') as H2'.
  destruct (decryptSecret privateKeyKey password (a_PrivateKeyString a) _ b1) as [b2 [[text|]|e| |]]; [|by left..]. by right.
Qed.
Lemma unlock_attempt english primed password position accounts :
  let '(accounts', answer) := unlockFrom english primed password position accounts in
  Forall2 untouchedOrOpen accounts accounts' /\ (answer = Ok true -> Forall (fun b => a_Encrypted b = false) accounts').
Proof.
  revert position. induction accounts as [|a accounts IH]; intros position; [done|]. cbn [unlockFrom].
  assert (forall l, Forall2 untouchedOrOpen l l) as Hrefl.
  { intros l. induction l as [|x l IHl]; constructor; [|done]. left. by destruct x. }
  destruct (a_Encrypted a) eqn:He.
  - pose proof (decrypt_attempt english password a He) as Hd. destruct (DecryptAccount english password a) as [b answer].
    destruct Hd as [[Hb Hn]|[Hb ->]].
    + destruct answer as [[]|e| |]; try done; (split; [constructor; [by left|apply Hrefl]|done]).
    + destruct (primed position) as [[]|e| |]; cbn [mbind res_bind]; try (split; [constructor; [by right|apply Hrefl]|done]).
      specialize (IH (S position)). destruct (unlockFrom _ _ _ _ accounts) as [rest answer]. destruct IH as [IH1 IH2].
      split; [constructor; [by right|done]|]. intros E. constructor; [done|auto].
  - specialize (IH (S position)). destruct (unlockFrom _ _ _ _ accounts) as [rest answer]. destruct IH as [IH1 IH2].
    split; [constructor; [by right|done]|]. intros E. constructor; [done|auto].
Qed.

(** ** Locking *)

Lemma lock_all random password w : Valid password = true -> w_EncryptionPassword w = Some password ->
  (forall i a, w_Accounts w !! i = Some a -> accountOK a /\ a_Encrypted a = false /\ vectorsOK (random i) a) ->
  Lock random w = (setAccounts (imap (fun i => lockedAccount (random i) password) (w_Accounts w)) w, Ok tt).
Proof.
  intros Hp Epw Hl. unfold Lock. change (observes (fun w => w) ≫= ?k) with (fun s : Wallet => k s s). cbv beta. rewrite Epw.
  rewrite (bind_Ok _ _ _ (setAccounts (imap (fun i => lockedAccount (random i) password) (w_Accounts w)) w) (imap (fun _ _ => tt) (w_Accounts w))); [done|].
  unfold onPart. rewrite (each_all _ (fun i => lockedAccount (random i) password) (fun _ _ => tt)); [done|].
  intros i a Hi. destruct (Hl i a Hi) as (Ha & He & Hv). unfold lockAccount. change (observes (fun account => account) ≫= ?k) with (fun s : Account => k s s).
  cbv beta. rewrite He. by apply encrypt_locks.
Qed.
Lemma imap_sealed random password accounts i a b :
  accounts !! i = Some a -> imap (fun i => lockedAccount (random i) password) accounts !! i = Some b -> sealedAs (random i) password a b.
Proof.
  intros Ha Hb. rewrite list_lookup_imap, Ha in Hb. cbn [fmap option_fmap option_map] in Hb. injection Hb as <-. apply locked_sealed.
Qed.


(** ** Saved and loaded *)

Lemma imap_same {A} (f : nat -> A -> A) l : (forall i x, f i x = x) -> imap f l = l.
Proof. intros Hf. rewrite (imap_ext f (fun _ x => x)) by auto. induction l as [|x l IH]; [done|]. cbn. f_equal. exact IH. Qed.
Lemma saved_clear system w : saved system None w = w_Accounts w.
Proof. by apply imap_same. Qed.
Lemma after_clear system w : wAfterSave system None w = w.
Proof. unfold wAfterSave. rewrite imap_same by done. by destruct w. Qed.

(** C8: a wallet that is not encrypted on disk is loaded as it was saved: the name, the
    preferences, and each account with its keys, in their order. *)
Theorem saved_is_loaded {L : Type} now (resolver : WalletLedgerResolver L) system w files path name ledgers onDisk
    (Hresolves : resolves resolver) (Hquiet : quiet system) (Hw : walletOK w) (Hpath : s_path (w_Storage w) = Some path) (Hne : path <> [])
    (Hdefaults : s_defaults (w_Storage w) = defaultWalletDocument)
    (Hpreference : GetOr (w_Preferences w) EncryptOnDisk (ABool false) = Ok onDisk) (Hclear : pythonJSONTruthy onDisk = false) :
  exists files' ledgers', Save system (w, files) = ((w, files'), Ok None) /\
    WalletFromStorage now noReadFaults files' name (w_Storage w) resolver ledgers = (ledgers', Ok (loadedWallet w (w_Accounts w))).
Proof.
  destruct (writeObject_saved system None w files path Hquiet Hw) as (files' & mode & text & Ewrite & Et & Ef); [by intros i a Hi|done|].
  rewrite saved_clear in Et. rewrite after_clear in Ewrite.
  destruct (load_written now resolver path w (w_Accounts w) files' mode name ledgers text) as [ledgers' El]; try done; [apply (wok_accounts w Hw)|].
  exists files', ledgers'. split; [|done]. unfold Save. change (observes fst ≫= ?k) with (fun s : Wallet * Files => k s.1 s). cbv beta. cbn [fst].
  rewrite Hpreference. change (answers (Ok ?x) ≫= ?k) with (k x). cbv beta. by rewrite Hclear.
Qed.

End wallets.

(** ** Examples *)

Section example.
#[local] Existing Instance exampleDigests.
#[local] Existing Instance ScalarGroup.secp256k1.
#[local] Existing Instance exampleText.
#[local] Existing Instance examplePbkdf2.

(** Ledgers that take every account and do not keep it. *)
Definition exampleNetwork (id : bytes) : res Network := from_option Ok (Err ErrAccountNotFound) (list_find (fun n => id = lit (NetworkID n)) [0; 1; 2] ≫= fun found => Some found.2).
Definition exampleResolver : WalletLedgerResolver unit := MkResolver unit exampleNetwork (fun _ _ => mret tt).
Lemma exampleResolver_resolves : resolves exampleResolver.
Proof.
  split; [|intros id a ledgers; by exists ledgers]. intros n Hn. assert (n = 0 \/ n = 1 \/ n = 2) as [->|[->| ->]] by lia; reflexivity.
Qed.
Definition exampleVector (key : bytes) : res bytes := Ok (repeat x00 16).
Definition exampleSystem : System := MkSystem (fun _ => exampleVector) noFaults 0x12 7 100.
(** A wallet with the example's account; [password] is what it is encrypted with. *)
Definition examplePreferences (onDisk : bool) : Object any := SetPreference 5 emptyObject EncryptOnDisk (ABool onDisk).
Definition exampleWallet (password : option bytes) (onDisk : bool) : Wallet :=
  MkWallet (lit "w") [exampleAccount] exampleStorage (examplePreferences onDisk) password (lit "w").
Lemma examplePreferences_writable onDisk : writable (AObject (examplePreferences onDisk)).
Proof.
  apply writable_set; [exact emptyObject_writable|reflexivity|]. apply writable_object; [apply NewObject_ok|]. destruct onDisk; repeat constructor.
Qed.
Lemma exampleWallet_ok password onDisk : walletOK (exampleWallet password onDisk).
Proof.
  split; [|exact eq_refl|apply examplePreferences_writable]. constructor; [|constructor]. split; [exact exampleAccount_ok|discriminate].
Qed.
Lemma exampleAccount_lockable : lockable exampleWords exampleVector exampleAccount.
Proof.
  split; [exact exampleAccount_ok|]. split; [exact eq_refl|]. split; [|intros Hne; destruct (Hne eq_refl)].
  intros key. exists (repeat x00 16). split; [exact eq_refl|exact eq_refl].
Qed.
Lemma example_lockable i a password onDisk : w_Accounts (exampleWallet password onDisk) !! i = Some a -> lockable exampleWords exampleVector a.
Proof.
  destruct i as [|i]; [|discriminate]. intros E. apply (inj Some) in E. rewrite <- E. exact exampleAccount_lockable.
Qed.
Abbreviation primes := (fun _ : nat => Ok tt).

Lemma saved_is_loaded_witness : exists files', Save exampleSystem (exampleWallet None false, exampleFiles) = ((exampleWallet None false, files'), Ok None) /\
  exists ledgers', WalletFromStorage 9 noReadFaults files' [] exampleStorage exampleResolver tt = (ledgers', Ok (loadedWallet (exampleWallet None false) [exampleAccount])).
Proof.
  destruct (saved_is_loaded 9 exampleResolver exampleSystem (exampleWallet None false) exampleFiles (lit "w") [] tt (ABool false)) as (files' & ledgers' & E1 & E2).
  - exact exampleResolver_resolves.
  - exact eq_refl.
  - apply exampleWallet_ok.
  - exact eq_refl.
  - discriminate.
  - exact eq_refl.
  - vm_compute. exact eq_refl.
  - exact eq_refl.
  - exists files'. split; [exact E1|]. exists ledgers'. exact E2.
Defined.
End example.
