(* ===== verification/WalletMerge.v ===== *)
(** * Merging another wallet

    What merging the document of another wallet does to the accounts of a wallet, also
    when it fails part of the way. *)

From S2P Require Import Prelude Steps Digest Utf8 Decimal Base58 Keys Bencode Json Float JsonValue PythonInt Normalize Mnemonic WalletObject WalletJson.
From S2P Require Import WalletDocument AccountCrypt Preferences WalletAccount AccountFile WalletStorage WalletFile WalletSafety.

Section merge.
Context `{Digests} `{Secp256k1} `{UnicodeText} `{Pbkdf2} `{Scrypt} `{Zlib}.

(** The identifier by which a record is looked up is that of the account it makes. *)
Lemma truthyString_spec data key text : accountString data key [] = Ok text -> truthyString data key = Ok (if bool_decide (text = []) then None else Some text).
Proof.
  unfold accountString, truthyString. destruct (Get data key) as [v|]; [|by intros [= <-]].
  destruct v as [| | | | | |s| |]; try done; intros [= <-]; [done|]. cbn [pythonJSONTruthy]. by case_bool_decide.
Qed.
Lemma account_id now network data a accountID :
  NewAccount now network data = Ok a -> accountIDFromObject network data = Ok accountID -> accountID = a_ID a.
Proof.
  intros E Eid. unfold NewAccount in E. destruct (accountKeysFromObject network data) as [m| | |] eqn:Em; try done. cbn [mbind res_bind] in E.
  assert (a_ID a = Address (k_publicKey m)) as ->.
  { destruct (accountString data (lit "name") []) as [name| | |]; try done. cbn [mbind res_bind] in E.
    destruct (match Get data (lit "modified_on") with Some _ => _ | None => _ end) as [modifiedOn| | |]; try done. cbn [mbind res_bind] in E.
    destruct (match Get data (lit "certificates") with None => _ | Some _ => _ end) as [channelKeys| | |]; try done. cbn [mbind res_bind] in E.
    destruct (loadAddressGenerator _ data) as [[[g r] c]| | |]; try done. by injection E as <-. }
  clear E. unfold accountKeysFromObject in Em. unfold accountIDFromObject in Eid.
  destruct (accountString data seedKey []) as [seed| | |] eqn:Es; try done. apply truthyString_spec in Es. rewrite Es in Eid.
  destruct (accountString data privateKeyKey []) as [text| | |] eqn:Et; try done. apply truthyString_spec in Et. rewrite Et in Eid.
  destruct (accountBool data (lit "encrypted") false) as [encrypted| | |] eqn:Ee; try done.
  assert (match Get data (lit "encrypted") with Some value => pythonJSONTruthy value | None => false end = encrypted) as Ebool.
  { unfold accountBool in Ee. destruct (Get data (lit "encrypted")) as [[]|]; try done; by injection Ee. }
  rewrite Ebool in Eid. cbn [mbind res_bind] in Em.
  assert (forall k, (text' ← accountRequiredString data (lit "public_key"); parsePublic network text') = Ok k ->
    (text' ← accountRequiredString data (lit "public_key"); parsed ← ParseExtendedKey network text';
     Ok (Address match parsed with Public key => key | Private key => publicKey key end)) = Ok (Address k)) as Hpub.
  { intros k Hk. destruct (accountRequiredString _ _) as [text'| | |]; try done. cbn [mbind res_bind] in *. unfold parsePublic in Hk.
    destruct (ParseExtendedKey network text') as [[|]| | |]; try done. by injection Hk as <-. }
  assert ((text' ← accountRequiredString data (lit "public_key"); parsed ← ParseExtendedKey network text';
     Ok (Address match parsed with Public key => key | Private key => publicKey key end)) = Ok accountID ->
    (publicKey ← (text' ← accountRequiredString data (lit "public_key"); parsePublic network text');
      Ok (MkMaterial seed text encrypted None publicKey)) = Ok m -> accountID = Address (k_publicKey m)) as Hread.
  { intros E1 E2. destruct (text' ← accountRequiredString data (lit "public_key"); parsePublic network text') as [k| | |] eqn:Ek; try done.
    injection E2 as <-. specialize (Hpub k eq_refl). cbn [k_publicKey]. congruence. }
  destruct encrypted; [by apply Hread|]. cbn [mbind res_bind] in Em, Eid. destruct (decide (seed = [])) as [Hseed|Hseed].
  - rewrite (bool_decide_eq_true_2 (seed = [])) in Em, Eid by done. cbn [negb mbind res_bind] in Em, Eid. destruct (decide (text = [])) as [Htext|Htext].
    + rewrite (bool_decide_eq_true_2 (text = [])) in Em, Eid by done. by apply Hread.
    + rewrite (bool_decide_eq_false_2 (text = [])) in Em, Eid by done. cbn [negb] in Em.
      cbn [mbind res_bind] in Eid. destruct (parsePrivate network text) as [key| | |]; try done. injection Em as <-. by injection Eid as <-.
  - rewrite (bool_decide_eq_false_2 (seed = [])) in Em, Eid by done. cbn [negb] in Em. cbn [mbind res_bind] in Eid.
    destruct (keyFromMnemonic network seed) as [key| | |]; try done. injection Em as <-. by injection Eid as <-.
Qed.

(** ** The accounts of a wallet while records are merged *)

Definition IDs (w : Wallet) : list bytes := map a_ID (w_Accounts w).
(** The accounts that were there keep their places, their identities and secrets. *)
Definition extends (w w' : Wallet) : Prop :=
  forall i a, w_Accounts w !! i = Some a -> exists b, w_Accounts w' !! i = Some b /\ sameSecrets a b.
Record mergingOK (w w' : Wallet) : Prop := {
  mok_accounts : Forall accountOK (w_Accounts w');
  mok_ids : NoDup (IDs w');
  mok_extends : extends w w';
  mok_rest : w_Name w' = w_Name w /\ w_Storage w' = w_Storage w /\ w_EncryptionPassword w' = w_EncryptionPassword w /\ w_ID w' = w_ID w
}.
Lemma sameSecrets_refl a : sameSecrets a a.
Proof. by split_and!. Qed.
Lemma sameSecrets_trans a b c : sameSecrets a b -> sameSecrets b c -> sameSecrets a c.
Proof. unfold sameSecrets. intros Hab Hbc. split_and!; (etransitivity; [apply Hbc|apply Hab]). Qed.
Lemma extends_refl w : extends w w.
Proof. intros i a Ha. exists a. split; [done|apply sameSecrets_refl]. Qed.
Lemma findAccount_spec w accountID :
  match findAccount w accountID with
  | Some (i, a) => w_Accounts w !! i = Some a /\ a_ID a = accountID
  | None => accountID ∉ IDs w
  end.
Proof.
  unfold findAccount. destruct (list_find _ _) as [[i a]|] eqn:E.
  - apply list_find_Some in E as (Hi & Hid & _). done.
  - apply list_find_None in E. unfold IDs. intros (a & -> & Hin)%list_elem_of_fmap. rewrite Forall_forall in E. by apply (E a Hin).
Qed.
(** A merged account takes the place of the old one. *)
Lemma replaced_ok w w' i a b : mergingOK w w' -> w_Accounts w' !! i = Some a -> accountOK b -> sameSecrets a b ->
  mergingOK w (setAccounts (<[i := b]> (w_Accounts w')) w').
Proof.
  intros [Ha Hid He Hr] Hi Hb Hs. split; [by apply Forall_insert| | |done].
  - unfold IDs. cbn [w_Accounts setAccounts]. change (map a_ID ?l) with (a_ID <$> l). rewrite list_fmap_insert, list_insert_id; [exact Hid|].
    rewrite list_lookup_fmap, Hi. cbn. f_equal. symmetry. apply Hs.
  - intros j c Hj. destruct (He j c Hj) as (d & Hd & Hcd). cbn [w_Accounts setAccounts]. destruct (decide (i = j)) as [<-|Hne].
    + exists b. rewrite list_lookup_insert_eq by (by eapply lookup_lt_Some). split; [done|]. rewrite Hi in Hd. injection Hd as ->. by eapply sameSecrets_trans.
    + exists d. by rewrite list_lookup_insert_ne.
Qed.
Lemma added_ok w w' a : mergingOK w w' -> accountOK a -> a_ID a ∉ IDs w' -> mergingOK w (AddAccount a w').
Proof.
  intros [Ha Hid He Hr] Hok Hn. split; [by apply Forall_app; split; [|constructor]| | |done].
  - unfold IDs, AddAccount. cbn [w_Accounts setAccounts]. rewrite map_app. apply NoDup_app. split; [done|]. split; [|apply NoDup_singleton].
    intros x Hx ->%list_elem_of_singleton. by apply Hn.
  - intros j c Hj. destruct (He j c Hj) as (d & Hd & Hcd). exists d. split; [|done]. by apply lookup_app_l_Some.
Qed.

Context {L : Type} (now : Z) (resolver : WalletLedgerResolver L).
(** The networks are known ones, and the ledgers answer. *)
Hypothesis Hnetworks : forall id network, NetworkForLedger resolver id = Ok network -> 0 <= network.

(** The account of a record is in the wallet. *)
Definition recordIn (w : Wallet) (record : Object any) : Prop :=
  exists ledgerID network accountID, accountRequiredString record (lit "ledger") = Ok ledgerID /\ NetworkForLedger resolver ledgerID = Ok network /\
    accountIDFromObject network record = Ok accountID /\ accountID ∈ IDs w.
Definition valueIn (w : Wallet) (value : any) : Prop := match value with AObject record => recordIn w record | _ => False end.
Lemma valueIn_more w w' value : (forall id, id ∈ IDs w -> id ∈ IDs w') -> valueIn w value -> valueIn w' value.
Proof. intros Hids. destruct value; try done. intros (l & n & id & E1 & E2 & E3 & Hin). exists l, n, id. auto. Qed.
Lemma ends_answers {A B} (r : res A) (k : A -> Step (Wallet * L) B) s (Q : Wallet * L -> res B -> Prop) :
  match r with Ok x => ends (k x) s Q | Err e => Q s (Err e) | Panic => Q s Panic | NoFuel => Q s NoFuel end -> ends (answers r ≫= k) s Q.
Proof. by destruct r. Qed.
(** What a step of the merge promises. *)
Definition mergeStep {A} (w w' : Wallet) (P : Wallet -> Prop) (s : Wallet * L) (r : res A) : Prop :=
  mergingOK w s.1 /\ (forall id, id ∈ IDs w' -> id ∈ IDs s.1) /\ w_Preferences s.1 = w_Preferences w' /\ (isOk r = true -> P s.1).
Lemma mergeRecord_ends w w' record ledgers : mergingOK w w' -> writable (AObject record) ->
  ends (mergeRecord now resolver record) (w', ledgers) (mergeStep w w' (fun w'' => recordIn w'' record)).
Proof.
  intros Hm Hw. assert (forall A (r : res A), isOk r = false -> mergeStep w w' (fun w'' => recordIn w'' record) (w', ledgers) r) as Hfail.
  { intros A r Hr. split_and!; try done. by rewrite Hr. }
  unfold mergeRecord. apply ends_answers. destruct (accountRequiredString record (lit "ledger")) as [ledgerID| | |] eqn:El; try by apply Hfail.
  apply ends_answers. destruct (NetworkForLedger resolver ledgerID) as [network| | |] eqn:En; try by apply Hfail.
  apply ends_answers. destruct (accountIDFromObject network record) as [accountID| | |] eqn:Eid; try by apply Hfail.
  apply ends_observes. cbn [fst]. pose proof (findAccount_spec w' accountID) as Hf. destruct (findAccount w' accountID) as [[i a]|].
  - destruct Hf as [Hi Hid]. pose proof (mok_accounts w w' Hm) as Ha. rewrite Forall_lookup in Ha. pose proof (merge_ends now record a (Ha i a Hi) Hw) as He.
    apply ends_bind. unfold ends, onPart, updateAt in *. cbn [fst snd]. rewrite Hi. destruct (MergeAccount now record a) as [b r]. destruct He as (Hb & Hs & _).
    pose proof (replaced_ok w w' i a b Hm Hi Hb Hs) as Hm'.
    assert (forall id, id ∈ IDs w' -> id ∈ IDs (setAccounts (<[i:=b]> (w_Accounts w')) w')) as Hids.
    { intros id. unfold IDs. cbn [w_Accounts setAccounts]. change (map a_ID ?l) with (a_ID <$> l). rewrite list_fmap_insert, list_insert_id; [done|].
      rewrite list_lookup_fmap, Hi. cbn. f_equal. symmetry. apply Hs. }
    destruct r as [[]|e| |]; (split_and!; try done). intros _. cbn [fst]. exists ledgerID, network, accountID. split_and!; try done. apply Hids.
    unfold IDs. apply list_elem_of_fmap. exists a. split; [done|]. by eapply list_elem_of_lookup_2.
  - apply ends_answers. destruct (NewAccount now network record) as [a| | |] eqn:Ea; try by apply Hfail.
    destruct (NewAccount_ok _ _ _ _ (Hnetworks _ _ En) Hw Ea) as (Hok & _ & _). pose proof (account_id _ _ _ _ _ Ea Eid) as ->.
    apply ends_bind. unfold ends, onPart. cbn [fst snd]. destruct (RegisterAccount resolver ledgerID a ledgers) as [ledgers' [[]|e| |]]; try (split_and!; done).
    split; [by apply added_ok|]. assert (forall id, id ∈ IDs (AddAccount a w') <-> id ∈ IDs w' \/ id = a_ID a) as Hids.
    { intros id. unfold IDs, AddAccount. cbn [w_Accounts setAccounts]. rewrite map_app, elem_of_app. cbn [map]. by rewrite list_elem_of_singleton. }
    cbn [fst]. split; [intros id Hin; apply Hids; by left|]. split; [done|]. intros _. exists ledgerID, network, (a_ID a). split_and!; try done. apply Hids. by right.
Qed.
Lemma mergeRecords_ends w w' values ledgers : mergingOK w w' -> Forall writable values ->
  ends (mergeRecords now resolver values) (w', ledgers) (mergeStep w w' (fun w'' => Forall (valueIn w'') values)).
Proof.
  intros Hm Hv. revert w' ledgers Hm. induction Hv as [|value values Hw _ IH]; intros w' ledgers Hm; cbn [mergeRecords].
  { by split_and!. }
  apply ends_answers. destruct value as [| | | | | | | |record]; cbn [recordOf]; try (by split_and!).
  apply ends_bind. eapply ends_weaken; [|by apply mergeRecord_ends]. cbn beta. intros [w1 ledgers1] r (Hm1 & Hids1 & Hp1 & Hin1). cbn [fst] in *.
  destruct r as [one|e| |]; try (by split_and!). apply ends_bind. eapply ends_weaken; [|by apply IH]. cbn beta.
  intros [w2 ledgers2] r (Hm2 & Hids2 & Hp2 & Hin2). cbn [fst] in *.
  assert (w_Preferences w2 = w_Preferences w') as Hp by congruence.
  destruct r as [others|e| |]; (split_and!; [exact Hm2|auto|exact Hp|try done]). intros _. constructor; [|by apply Hin2].
  apply (valueIn_more w1); [done|]. by apply Hin1.
Qed.

(** C7: merging the document of another wallet, in the clear or in an envelope, keeps
    the accounts of the wallet at their places with their identities and secrets, and the
    accounts well formed and distinct, also when it fails part of the way; when it
    succeeds, the preferences are merged and the wallet has the account of every
    record of the document. *)
Theorem merge_keeps_accounts password data w ledgers document
    (Hids : NoDup (IDs w)) (Haccounts : Forall accountOK (w_Accounts w))
    (Hdata : synchronizedData password data = Ok (AObject document)) (Hw : writable (AObject document)) :
  ends (MergeWallet now resolver password data) (w, ledgers) (fun s r =>
    mergingOK w s.1 /\
    (isOk r = true ->
      IsLocked w = false /\ (exists remote, remotePreferences document = Ok remote /\ MergePreferences (w_Preferences w) remote = (w_Preferences s.1, Ok tt)) /\
      forall values, Get document (lit "accounts") = Some (AArray values) -> Forall (valueIn s.1) values)).
Proof.
  unfold MergeWallet. apply ends_observes. cbn [fst].
  assert (mergingOK w w) as Hrefl by (split; [done|done|apply extends_refl|done]).
  destruct (IsLocked w); [by split|]. apply ends_answers. rewrite Hdata. apply ends_answers.
  destruct (remotePreferences document) as [remote|e| |]; try by split.
  apply ends_bind. unfold ends at 1, onPart. cbn [fst snd]. destruct (MergePreferences (w_Preferences w) remote) as [preferences r] eqn:Em.
  assert (mergingOK w (setPreferences preferences w)) as Hp by (split; [done|done|exact (extends_refl w)|done]).
  destruct r as [[]|e| |]; try by split.
  destruct (Get document (lit "accounts")) as [value|] eqn:Ev; [|by apply ends_fails].
  destruct value as [| | | | | |text|values|[members index]]; try (by apply ends_fails).
  - destruct text; [|by apply ends_fails]. apply ends_ret. split; [done|]. intros _. split; [done|]. split; [by exists remote; rewrite Em|done].
  - assert (Forall writable values) as Hvalues by (pose proof (writable_get _ _ _ Hw Ev) as Ha; by inversion Ha).
    eapply ends_weaken; [|by apply (mergeRecords_ends w (setPreferences preferences w))]. cbn beta. intros [w1 ledgers1] r (Hm & _ & Hpref & Hin). cbn [fst] in *.
    split; [done|]. intros Hr. split; [done|]. split; [exists remote; by rewrite Hpref, Em|]. intros values' [= <-]. by apply Hin.
  - destruct members; [|by apply ends_fails]. apply ends_ret. split; [done|]. intros _. split; [done|]. split; [by exists remote; rewrite Em|done].
Qed.
End merge.

(** ** An example *)

Section example.
#[local] Existing Instance exampleDigests.
#[local] Existing Instance ScalarGroup.secp256k1.
#[local] Existing Instance exampleText.
#[local] Existing Instance examplePbkdf2.

Lemma exampleKey_length (password salt : bytes) (n r p : Z) key : Ok (take 32 (password ++ salt ++ repeat x00 32)) = Ok key -> length key = 32%nat.
Proof. intros [= <-]. rewrite length_take, !length_app. cbn [length]. lia. Qed.
Definition exampleScrypt : Scrypt :=
  {| scryptKey password salt n r p := Ok (take 32 (password ++ salt ++ repeat x00 32));
     scryptKey_length := exampleKey_length; scryptKey_valid password salt := ex_intro _ _ eq_refl |}.
Definition exampleZlib : Zlib := {| zlibCompress data := data; zlibDecompress := Ok; zlibHeaderError := "zlib: invalid header"%string; zlib_inverse data := eq_refl |}.
#[local] Existing Instance exampleScrypt.
#[local] Existing Instance exampleZlib.
Lemma exampleNetwork_known id network : exampleNetwork id = Ok network -> 0 <= network.
Proof.
  unfold exampleNetwork. destruct (list_find _ _) as [[i n]|] eqn:E; [|done]. cbn. intros [= <-].
  apply list_find_Some in E as (Hi & _). apply list_elem_of_lookup_2 in Hi. rewrite !elem_of_cons, elem_of_nil in Hi. lia.
Qed.
(** The wallet's own document, merged into it. *)
Lemma merge_keeps_accounts_witness :
  exists text document, synchronizedData None text = Ok (AObject document) /\
    mergingOK (exampleWallet None false) (MergeWallet 9 exampleResolver None text (exampleWallet None false, tt)).1.1.
Proof.
  assert (writable (AObject (writtenObject (exampleWallet None false) [exampleAccount]))) as Hw.
  { apply written_writable; [exact eq_refl|apply examplePreferences_writable|]. constructor; [exact exampleAccount_ok|constructor]. }
  destruct (decode_write (MkEncoder true true) _ Hw) as (text & _ & Et). exists text. rewrite readAs_object in Et. eexists. split; [exact Et|].
  pose proof (merge_keeps_accounts 9 exampleResolver exampleNetwork_known None text (exampleWallet None false) tt
    (readObject (MkEncoder true true) (writtenObject (exampleWallet None false) [exampleAccount]))) as Hm.
  unfold ends in Hm. specialize (Hm ltac:(apply NoDup_singleton) ltac:(constructor; [exact exampleAccount_ok|constructor]) Et
    ltac:(rewrite <- readAs_object; apply readAs_writable; [exact Hw|exact FormatInt_text])).
  destruct (MergeWallet _ _ _ _ _) as [s r]. exact (proj1 Hm).
Defined.
End example.
